(* ===== verification/_CoqProject ===== *)
-Q . S2P
Prelude.v
Wire.v
Types.v
Utf8.v
Varint.v
Multiplex.v
Proc.v
WireFormat.v
Handshake.v
Checksum.v
Sum.v
Matcher.v
Compress.v
Token.v
Acl.v
Sort.v
Flist.v
EntryList.v
Incremental.v
Exchange.v
Pipes.v
Transfer.v
Pipeline.v
Text.v
Filter.v
Scanner.v
Chmod.v
Options.v
Fs.v
Progress.v
Listing.v
FileDecision.v
Delete.v
ReceiverEngine.v
LocalTransfer.v
Posix.v
PosixFacts.v
UnixFs.v
FsSpec.v
UnixSpec.v
UnixStream.v
LocalSpec.v
DryRun.v
WireTransfer.v
WireSpec.v
UnixWire.v
WireSystem.v
WireCases.v
Numerals.v
TextOps.v
FakeSuper.v
ServerArgs.v
Session.v
SessionSpec.v
Auth.v
Ip.v
Rsyncd.v
Daemon.v
DaemonClient.v
DaemonSpec.v
TlsDaemon.v
ServerSession.v
ServerSpec.v
Batch.v
Noise.v
Ssh.v
Cli.v
Diagnostic.v
Dispatch.v
SyncSession.v
PyBindings.v
