(* ===== verification/Prelude.v ===== *)
(** Verification of ferrosync, an rsync implementation in Rust.

    The program synchronises directory trees: inside one machine, or between
    two that speak the rsync protocol over SSH, to a daemon, or from a batch
    file.  This library models the crates under [src/crates/] as executable
    functions on bytes and integers, step relations where tasks run at the same
    time, and proves what makes each part correct and what parts promise one
    another.  Rust names are kept; the doc comment of each file names the
    sources it translates and what it takes as a parameter.

    * How the program is put together

    A command line ([ferrosync-cli]) becomes a configuration and a choice of
    session.  A local session scans the source, and for each entry decides what
    to do with the destination, sending differences through three tasks in a
    row.  A remote session opens a transport, shakes hands, exchanges filters
    and the file list, then runs three loops: the generator of the receiving
    side asks for files and sends signatures of what it has, the sender answers
    with tokens (literal bytes and references to blocks), the receiver rebuilds
    the file and checks it.  All bytes of a remote session travel in frames of
    the multiplexer.  The other machine runs [ferrosync --server], or a daemon
    whose listener hands the connection to a session.

    * The files

    Foundations.
    - [Prelude]: integers of fixed width, bits, lists; the tactics and hints
      that all files share.
    - [Wire]: byte readers and writers ([rd], [wr]) and [ProtocolError]; errors
      are values, a Rust panic is the outcome [Panic].
    - [Text], [TextOps], [Utf8], [Numerals], [Ip]: what the program uses of
      [str], [String], number parsing and [IpAddr] of the standard library.
    - [Types] ([ferrosync-types]), [Options] (its [options.rs]), [Listing] (the
      line of [--list-only]).
    - [Proc]: two processes over a pair of streams, with the partial order
      argument that every interleaving ends alike.  [Pipes]: tasks in a row
      over bounded pipes.

    The protocol ([ferrosync-protocol]): [Varint], [Multiplex], [WireFormat],
    [Handshake], [Compress].

    Differences ([ferrosync-delta]): [Checksum], [Sum] (signatures, chunker),
    [Matcher], [Token].

    File lists ([ferrosync-codec], [ferrosync-filter], [ferrosync-scanner]):
    [Acl] (with extended attributes), [Sort], [Flist] (one entry), [EntryList]
    (runs of entries), [Incremental], [Exchange], [Chmod], [Diagnostic];
    [Filter]; [Scanner].

    File systems ([ferrosync-fs]).  [Fs] is the trait as a record of operations
    [FsOps S] over any state, [FsSpec] its contract, a class.  [Posix] models
    [std::fs] with inodes, hard and symbolic links and a schedule of failing
    system calls; [UnixFs] is [unix.rs] and [atomic_writer.rs] over it, and
    [UnixSpec], [UnixStream] and [UnixWire] discharge the contract.
    [FakeSuper] wraps any file system and keeps the contract.

    The engine ([ferrosync-engine]): [Transfer] (the three roles of one file),
    [Pipeline], [Progress], [FileDecision], [Delete], [ReceiverEngine],
    [LocalTransfer] with [LocalSpec] and [DryRun]; [WireTransfer] (the loops),
    [WireSpec] (one turn against another), [WireSystem] (both machines),
    [WireCases] (runs outside the good case); [ServerArgs], [Session],
    [SessionSpec], [SyncSession] (a session from its handshake on); [Batch].

    Server and transports ([ferrosync-server], [ferrosync-transport],
    [ferrosync-cli]): [Auth], [Rsyncd] (configuration and modules), [Daemon]
    (the listener), [DaemonClient], [DaemonSpec], [TlsDaemon] (the dialogue
    over TLS); [ServerSession], [ServerSpec]; [Noise] (encrypted stream),
    [Ssh], [Cli], [Dispatch]; [PyBindings] ([ferrosync-py]).

    * What the theorems show

    - Codecs: integers, entries, whole lists in both modes, attributes, tokens,
      arguments and batch headers are read as they were written, and readers
      neither panic nor run forever on bytes of a stranger.
    - Algorithms against their definitions: the rolling-window matcher is the
      naive search, patterns match what their bytes denote, the configuration
      parser reads a file section by section, safe links are those that stay
      inside, chmod clauses mean what they say.
    - Delivery: a local transfer that reports success leaves exactly the source
      data; a transfer over the wire ends, whoever moves when, with the file
      the sender has; a receiver keeps data only if its checksum stood behind
      it; the multiplexer and the encrypted stream carry plain bytes.
    - Ends: pipelines, compression loops, handshakes, wire loops and the
      daemon's dialogue never wait for one another.
    - Safety: writes are atomic under any failing calls, a dry run or a
      read-only module changes nothing, a pull stays inside its destination, no
      more is deleted than the budget allows, nobody gets a session unadmitted.
    - Composition: what a command line asks for is what the machine at the
      other end of an SSH connection, or a daemon, is started with; a batch file
      replays the session it was taken from.
    - Divergences: lemmas and examples named after what goes wrong record
      places where the code does not do what it means to.

    * How things are modelled

    - An unsigned or signed machine integer is a [Z] with its wrap-around
      written out ([as_u32], [as_i32]); arithmetic that Rust checks or saturates
      is written that way.  Bytes are [Z]s, a path or string its bytes.
    - Hashes, ciphers, compression and character tables of other crates are
      parameters ([HashLib], [Backends], [NoiseLaws], ...), with the behaviour
      the code relies on as named laws, each with an instance.
    - Fuel stands for what bounds a loop.  Readers get one round for each byte
      left, as every round takes a byte; recursion over a directory tree gets a
      depth, the stack of the program; a loop without a bound of its own gets a
      fuel, and the theorems say that enough of it gives the result (searching
      matchers: the length of the source; compression: the bytes pending;
      keyboard-interactive rounds: as many as the server asks).
    - Concurrency is explicit: [Proc] and [Pipes] step byte by byte,
      [WireSystem] turn by turn, [Multiplex] and [Noise] poll by poll over a
      schedule of what the socket gives, [Delete] by compare-and-exchange,
      [Session] takes the order of its receiver's two tasks as a schedule.

    * What is simplified

    - The score of a fuzzy basis is compared as a fraction, not as an [f64].
    - [map_file] gives a snapshot of the file.  [read_file_stream] is the
      trait's default, [open_append] of [create_writer] a parameter.
    - In [WireSystem] a turn is atomic towards the file system; sessions work
      on the data of the stream, the frames under them being [Multiplex].
    - A daemon's connection is the bytes the other side sends until it closes;
      writes to it do not fail.
    - Lines that are printed are results of functions; timeouts and bandwidth
      sleeps, which only pass time, are left out.
    - A replayed batch discards what the receiver would have answered, as the
      code does.

    * Not modelled

    - Handshakes and sessions of third-party libraries: snow (only its sealed
      messages), russh (asked through an oracle), rustls, quinn, and TCP.
    - Accept loop, shutdown and logging of the daemon; prompts, statistics and
      [clap] on the command line; the shell script beside a batch file; the
      printed comparison of two diagnostic decodings.
    - The Windows file system, the same trait over another API; QUIC; what
      [pyo3] does around the functions of the Python module. *)
From Stdlib Require Export ZArith Lia Bool.
From stdpp Require Export base tactics numbers list gmap strings pretty.

#[global] Open Scope Z_scope.

(** ** Fixed-width integers

    Rust integers are modelled by [Z]; a cast [x as uN] / [x as iN] is written
    out as the wrap-around it performs. *)

Definition wrap (w x : Z) : Z := x mod 2 ^ w.
Definition swrap (w x : Z) : Z :=
  if wrap w x <? 2 ^ (w - 1) then wrap w x else wrap w x - 2 ^ w.

Abbreviation as_u8 := (wrap 8).
Abbreviation as_u16 := (wrap 16).
Abbreviation as_u32 := (wrap 32).
Abbreviation as_u64 := (wrap 64).
Abbreviation as_i32 := (swrap 32).
Abbreviation as_i64 := (swrap 64).

Abbreviation in_u8 x := (0 <= x < 2 ^ 8) (only parsing).
Abbreviation in_u16 x := (0 <= x < 2 ^ 16) (only parsing).
Abbreviation in_u32 x := (0 <= x < 2 ^ 32) (only parsing).
Abbreviation in_u64 x := (0 <= x < 2 ^ 64) (only parsing).
Abbreviation in_i32 x := (- 2 ^ 31 <= x < 2 ^ 31) (only parsing).
Abbreviation in_i64 x := (- 2 ^ 63 <= x < 2 ^ 63) (only parsing).

(** [!x] on a [u8]. *)
Definition not8 (x : Z) : Z := Z.land (Z.lnot x) 255.

Definition is_byte (b : Z) : Prop := 0 <= b < 256.

Lemma wrap_range w x : 0 <= w -> 0 <= wrap w x < 2 ^ w.
Proof. intros. unfold wrap. apply Z.mod_pos_bound, Z.pow_pos_nonneg; lia. Qed.

Lemma wrap_id w x : 0 <= x < 2 ^ w -> wrap w x = x.
Proof. intros. unfold wrap. apply Z.mod_small; lia. Qed.

Lemma wrap_wrap w x : wrap w (wrap w x) = wrap w x.
Proof. unfold wrap. apply Zmod_mod. Qed.

Lemma swrap_range w x : 0 < w -> - 2 ^ (w - 1) <= swrap w x < 2 ^ (w - 1).
Proof.
  intros Hw. unfold swrap. pose proof (wrap_range w x ltac:(lia)).
  assert (2 ^ w = 2 * 2 ^ (w - 1)) by (rewrite <- Z.pow_succ_r by lia; f_equal; lia).
  destruct (Z.ltb_spec (wrap w x) (2 ^ (w - 1))); lia.
Qed.

Lemma swrap_id w x : 0 < w -> - 2 ^ (w - 1) <= x < 2 ^ (w - 1) -> swrap w x = x.
Proof.
  intros Hw Hx. unfold swrap, wrap.
  assert (E : 2 ^ w = 2 * 2 ^ (w - 1)) by (rewrite <- Z.pow_succ_r by lia; f_equal; lia).
  destruct (Z.leb_spec 0 x).
  - rewrite Z.mod_small by lia. destruct (Z.ltb_spec x (2 ^ (w - 1))); lia.
  - assert (E2 : x mod 2 ^ w = x + 2 ^ w).
    { symmetry. apply Z.mod_unique with (-1); lia. }
    rewrite E2. destruct (Z.ltb_spec (x + 2 ^ w) (2 ^ (w - 1))); lia.
Qed.

Lemma swrap_wrap w x : swrap w (wrap w x) = swrap w x.
Proof. unfold swrap. by rewrite wrap_wrap. Qed.

Lemma swrap_add_l w x y : 0 <= w -> swrap w (swrap w x + y) = swrap w (x + y).
Proof.
  intros Hw. rewrite <- (swrap_wrap w (swrap w x + y)), <- (swrap_wrap w (x + y)). f_equal.
  unfold swrap. destruct (wrap w x <? 2 ^ (w - 1)); unfold wrap.
  - apply Zplus_mod_idemp_l.
  - replace (x mod 2 ^ w - 2 ^ w + y) with (x mod 2 ^ w + y + (-1) * 2 ^ w) by ring.
    rewrite Z_mod_plus_full. apply Zplus_mod_idemp_l.
Qed.

Lemma wrap_swrap w x : 0 <= w -> wrap w (swrap w x) = wrap w x.
Proof.
  intros Hw. unfold swrap. destruct (wrap w x <? 2 ^ (w - 1)).
  - apply wrap_wrap.
  - unfold wrap. rewrite Zminus_mod, Z_mod_same_full, Z.sub_0_r, !Zmod_mod. done.
Qed.

(** Casting a [u32] to [i32] and back is the identity. *)
Lemma as_u32_as_i32 x : in_u32 x -> as_u32 (as_i32 x) = x.
Proof. intros. rewrite wrap_swrap by lia. by apply wrap_id. Qed.

(** ** Finite case analysis on a byte *)

Definition bytes_upto (n : nat) : list Z := map Z.of_nat (seq 0 n).

Lemma bytes_upto_spec (P : Z -> bool) n :
  forallb P (bytes_upto n) = true -> forall b, 0 <= b < Z.of_nat n -> P b = true.
Proof.
  intros H b Hb. rewrite forallb_forall in H. apply H.
  unfold bytes_upto. apply in_map_iff. exists (Z.to_nat b).
  split; [lia | apply in_seq; lia].
Qed.

(** Close a goal [forall b, 0 <= b < n -> P b = true] by evaluating [P] on
    every value below [n]. *)
Ltac byte_cases n :=
  match goal with
  | |- forall b, _ -> @?P b = true =>
      let H := fresh in
      assert (H : forallb P (bytes_upto n) = true) by (vm_compute; reflexivity);
      exact (bytes_upto_spec P n H)
  end.

(** Disjoint bit ranges: [lor] is addition. *)
Lemma lor_disjoint a b n q :
  0 <= n -> a = q * 2 ^ n -> 0 <= b < 2 ^ n -> Z.lor a b = a + b.
Proof.
  intros Hn Ha Hb.
  assert (H : Z.land a b = 0).
  { apply Z.bits_inj'. intros i Hi. rewrite Z.land_spec, Z.bits_0.
    destruct (Z.ltb_spec i n).
    - rewrite Ha, Z.mul_pow2_bits_low by lia. done.
    - rewrite <- (Z.mod_small b (2 ^ n)) by lia.
      rewrite Z.mod_pow2_bits_high by lia. apply andb_false_r. }
  rewrite Z.add_nocarry_lxor by done. rewrite Z.lxor_lor by done. done.
Qed.

(** ** Little-endian bytes: [to_le_bytes] / [from_le_bytes] *)

Fixpoint le_bytes (n : nat) (x : Z) : list Z :=
  match n with
  | O => []
  | S n' => x mod 256 :: le_bytes n' (x / 256)
  end.

Fixpoint le_val (l : list Z) : Z :=
  match l with
  | [] => 0
  | b :: l' => b + 256 * le_val l'
  end.

Lemma length_le_bytes n x : length (le_bytes n x) = n.
Proof. revert x. induction n; intros; simpl; auto. Qed.

Lemma le_bytes_bytes n x : Forall is_byte (le_bytes n x).
Proof.
  revert x. induction n; intros; simpl; constructor; auto.
  unfold is_byte. apply Z.mod_pos_bound; lia.
Qed.

Lemma pow256_succ n : 2 ^ (8 * Z.of_nat (S n)) = 256 * 2 ^ (8 * Z.of_nat n).
Proof.
  replace (8 * Z.of_nat (S n)) with (8 + 8 * Z.of_nat n) by lia.
  rewrite Z.pow_add_r by lia. done.
Qed.

Lemma le_val_le_bytes n x : le_val (le_bytes n x) = x mod 2 ^ (8 * Z.of_nat n).
Proof.
  revert x. induction n; intros x.
  - simpl. by rewrite Z.mod_1_r.
  - simpl le_bytes. simpl le_val. rewrite IHn, pow256_succ.
    rewrite Z.rem_mul_r; [lia | lia |]. apply Z.pow_pos_nonneg; lia.
Qed.

Lemma le_val_bound l : Forall is_byte l -> 0 <= le_val l < 2 ^ (8 * Z.of_nat (length l)).
Proof.
  induction 1 as [|b l Hb Hl IH]; [simpl; lia|].
  simpl length. simpl le_val. rewrite pow256_succ. unfold is_byte in Hb. lia.
Qed.

Lemma le_bytes_le_val l : Forall is_byte l -> le_bytes (length l) (le_val l) = l.
Proof.
  induction 1 as [|b l Hb Hl IH]; [done|]. simpl. unfold is_byte in Hb.
  rewrite (Z.add_comm b), (Z.mul_comm 256), Z.div_add_l, Z.div_small, Z.add_0_r by lia.
  rewrite IH. f_equal. rewrite Z.add_comm, Z_mod_plus_full. apply Z.mod_small; lia.
Qed.

Lemma le_bytes_mod n x : le_bytes n (x mod 2 ^ (8 * Z.of_nat n)) = le_bytes n x.
Proof.
  rewrite <- le_val_le_bytes. rewrite <- (length_le_bytes n x) at 1.
  apply le_bytes_le_val, le_bytes_bytes.
Qed.

(** ** Slices *)

(** [dst[off .. off + src.len()].copy_from_slice(src)]. *)
Definition copy_at (off : nat) (src dst : list Z) : list Z :=
  take off dst ++ src ++ drop (off + length src) dst.

Lemma Forall_take_drop {A} (P : A -> Prop) n l :
  Forall P l -> Forall P (take n l) /\ Forall P (drop n l).
Proof. intros H. rewrite <- (take_drop n l), Forall_app in H. done. Qed.

Lemma take_replicate_insert (l : list Z) (c : nat) :
  (c < length l)%nat ->
  drop (S c) l = replicate (length l - S c) 0 ->
  <[c := l !!! c]> (take c l ++ replicate (length l - c) 0) = l.
Proof.
  intros Hc Hz. rewrite insert_app_r_alt; rewrite length_take_le by lia; [|lia].
  rewrite Nat.sub_diag. replace (length l - c)%nat with (S (length l - S c)) by lia.
  simpl. rewrite <- Hz. rewrite <- drop_S with (x := l !!! c).
  - apply take_drop.
  - apply list_lookup_lookup_total_lt. lia.
Qed.

Lemma drop_zeros (l : list Z) (c : nat) :
  (forall i, (c <= i < length l)%nat -> l !!! i = 0) ->
  drop c l = replicate (length l - c) 0.
Proof.
  intros H. apply list_eq. intros i.
  destruct (decide (c + i < length l)%nat) as [Hi|Hi].
  - rewrite lookup_drop, lookup_replicate_2 by lia.
    rewrite list_lookup_lookup_total_lt by lia. f_equal. apply H. lia.
  - rewrite !lookup_ge_None_2; [done|..];
      rewrite ?length_replicate, ?length_drop; lia.
Qed.

Lemma take_replicate (l : list Z) (c : nat) :
  (c <= length l)%nat ->
  drop c l = replicate (length l - c) 0 ->
  take c l ++ replicate (length l - c) 0 = l.
Proof. intros Hc <-. apply take_drop. Qed.

Lemma lookup_total_byte l i : Forall is_byte l -> (i < length l)%nat -> is_byte (l !!! i).
Proof.
  intros Hb Hi. rewrite Forall_lookup in Hb. eapply Hb. by apply list_lookup_lookup_total_lt.
Qed.

Lemma le_val_app l1 l2 :
  le_val (l1 ++ l2) = le_val l1 + 2 ^ (8 * Z.of_nat (length l1)) * le_val l2.
Proof.
  induction l1 as [|b l1 IH]; [simpl; lia|].
  cbn [length]. rewrite pow256_succ. cbn [app le_val]. rewrite IH. lia.
Qed.


Lemma copy_at_app l1 l2 l3 src :
  length src = length l2 -> copy_at (length l1) src (l1 ++ l2 ++ l3) = l1 ++ src ++ l3.
Proof.
  intros Hl. unfold copy_at. rewrite take_app_length. f_equal. f_equal.
  rewrite drop_app_add, Hl, drop_app_length. done.
Qed.

Lemma copy_at_zeros l1 src n :
  (length src <= n)%nat ->
  copy_at (length l1) src (l1 ++ replicate n 0) = l1 ++ src ++ replicate (n - length src) 0.
Proof.
  intros Hn. replace n with (length src + (n - length src))%nat at 1 by lia.
  rewrite replicate_add. apply copy_at_app. by rewrite length_replicate.
Qed.

(** ** Results

    [Result<T, E>], with a third constructor for the points where the Rust
    code panics (an index or a slice out of range). *)

Inductive res (E A : Type) : Type :=
  | Ok (a : A)
  | Err (e : E)
  | Panic.
Arguments Ok {E A} a.
Arguments Err {E A} e.
Arguments Panic {E A}.

#[export] Instance res_ret E : MRet (res E) := fun A a => Ok a.
#[export] Instance res_bind E : MBind (res E) := fun A B f m =>
  match m with
  | Ok a => f a
  | Err e => Err e
  | Panic => Panic
  end.
#[export] Instance res_fmap E : FMap (res E) := fun A B f m =>
  match m with
  | Ok a => Ok (f a)
  | Err e => Err e
  | Panic => Panic
  end.

(** Case split on every boolean test left in the goal, keeping the equations. *)
Ltac split_if :=
  match goal with
  | |- context [if ?b then _ else _] => destruct b eqn:?
  end.

(** Evaluate [l !!! i] on an explicit list. *)
Ltac look := cbn [lookup_total list_lookup_total].

(** [lia] with divisions and remainders by constants. *)
Ltac zlia := Z.to_euclidean_division_equations; lia.

(** Turn boolean integer tests in the context into arithmetic facts. *)
Ltac zbool :=
  repeat match goal with
  | H : (_ && _) = true |- _ => apply andb_true_iff in H; destruct H
  | H : (_ || _) = false |- _ => apply orb_false_iff in H; destruct H
  | H : (_ =? _) = true |- _ => apply Z.eqb_eq in H
  | H : (_ =? _) = false |- _ => apply Z.eqb_neq in H
  | H : (_ <? _) = true |- _ => apply Z.ltb_lt in H
  | H : (_ <? _) = false |- _ => apply Z.ltb_ge in H
  | H : (_ <=? _) = true |- _ => apply Z.leb_le in H
  | H : (_ <=? _) = false |- _ => apply Z.leb_gt in H
  | H : (_ <? _)%nat = true |- _ => apply Nat.ltb_lt in H
  | H : (_ <? _)%nat = false |- _ => apply Nat.ltb_ge in H
  | H : (_ <=? _)%nat = true |- _ => apply Nat.leb_le in H
  | H : (_ <=? _)%nat = false |- _ => apply Nat.leb_gt in H
  | H : (_ =? _)%nat = true |- _ => apply Nat.eqb_eq in H
  | H : (_ =? _)%nat = false |- _ => apply Nat.eqb_neq in H
  | H : negb _ = true |- _ => apply negb_true_iff in H
  | H : negb _ = false |- _ => apply negb_false_iff in H
  end.

(** ** Bytes of an integer, by masks *)

Lemma as_u8_land x : as_u8 (Z.land x 0xFF) = x mod 256.
Proof. change 0xFF with (Z.ones 8). rewrite Z.land_ones by lia. apply Z.mod_small, Z.mod_pos_bound. lia. Qed.

(** ** [slice.chunks(n)] *)

Fixpoint chunks_aux {A} (fuel n : nat) (l : list A) : list (list A) :=
  match fuel with
  | O => []
  | S fuel' =>
      match l with
      | [] => []
      | _ => take n l :: chunks_aux fuel' n (drop n l)
      end
  end.
Definition chunks {A} (n : nat) (l : list A) : list (list A) := chunks_aux (length l) n l.

Lemma chunks_aux_spec {A} (n fuel : nat) (l : list A) :
  (0 < n)%nat -> (length l <= fuel)%nat ->
  concat (chunks_aux fuel n l) = l /\
  Forall (fun c => (0 < length c <= n)%nat) (chunks_aux fuel n l).
Proof.
  intros Hn. revert l. induction fuel as [|fuel IH]; intros l Hl.
  - destruct l; [done|]. simpl in Hl. lia.
  - destruct l as [|a l]; [done|]. cbn [chunks_aux concat].
    destruct (IH (drop n (a :: l))) as [E F].
    { rewrite length_drop. simpl in *. lia. }
    split; [by rewrite E, take_drop|]. constructor; [|done]. rewrite length_take. simpl. lia.
Qed.

Lemma concat_chunks {A} (n : nat) (l : list A) : (0 < n)%nat -> concat (chunks n l) = l.
Proof. intros. by apply chunks_aux_spec. Qed.

Lemma chunks_length {A} (n : nat) (l : list A) :
  (0 < n)%nat -> Forall (fun c => (0 < length c <= n)%nat) (chunks n l).
Proof. intros. by apply chunks_aux_spec. Qed.

(** ** Arithmetic modulo a power of two *)

#[export] Existing Instance eqm_setoid.
#[export] Existing Instance Zplus_eqm.
#[export] Existing Instance Zminus_eqm.
#[export] Existing Instance Zmult_eqm.

(** Drop every wrap-around inside an equation of wrapped values. *)
Ltac unwrap :=
  unfold wrap;
  match goal with
  | |- ?a mod ?n = ?b mod ?n =>
      change (eqm n a b); repeat setoid_rewrite Zmod_eqm; unfold eqm; apply (f_equal (fun x => x mod n))
  end.

Lemma chunks_aux_fuel {A} (n f1 f2 : nat) (l : list A) :
  (0 < n)%nat -> (length l <= f1)%nat -> (length l <= f2)%nat ->
  chunks_aux f1 n l = chunks_aux f2 n l.
Proof.
  intros Hn. revert f2 l. induction f1 as [|f1 IH]; intros [|f2] [|a l] H1 H2; simpl in H1, H2;
    try lia; try done.
  cbn [chunks_aux]. f_equal. apply IH; rewrite length_drop; simpl; lia.
Qed.

Lemma chunks_unfold {A} (n : nat) (l : list A) :
  (0 < n)%nat -> l <> [] -> chunks n l = take n l :: chunks n (drop n l).
Proof.
  intros Hn Hl. unfold chunks. destruct l as [|a l]; [done|]. cbn [length chunks_aux]. f_equal.
  apply chunks_aux_fuel; [done|..]; rewrite ?length_drop; simpl; lia.
Qed.

Lemma chunks_nil {A} (n : nat) : chunks n (@nil A) = [].
Proof. done. Qed.
