(* ===== verification/Wire.v ===== *)
(** The byte streams every component reads and writes.

    [ProtocolError] is [ferrosync-types/src/error.rs].  A reader is a function
    of the bytes that are still to come; [read_exact] fails with an
    end-of-file I/O error when the stream is too short, as tokio's does.  A
    writer yields its outcome together with the bytes it has emitted, so what
    was written before an error stays visible.  The sink itself never fails.

    Two program logics are built on top:
    - [mirrors w r Q]: whatever the writer [w] emits, the reader [r] consumes
      exactly, on any continuation of the stream, with related results;
    - [safe r P]: on any byte string, [r] does not panic, and what it returns
      satisfies [P]. *)
From S2P Require Import Prelude.

(** ** Errors *)

Inductive IoErrorKind :=
  | UnexpectedEof
  | OtherIo.

Inductive ProtocolError :=
  | UnsupportedVersion (version min max : Z)
  | NegotiationFailed (local remote : Z)
  | InvalidMplexTag (tag : Z)
  | FrameTooLarge (size max : Z)
  | UnexpectedMessageType (msg_type : Z)
  | InvalidVarint (detail : string)
  | WireValueOutOfRange (field : string) (value max : Z)
  | ChecksumMismatch (expected actual : string)
  | UnsupportedChecksum (algorithm : string)
  | UnsupportedCompression (algorithm : string)
  | Handshake (message : string)
  | Io (kind : IoErrorKind).

#[export] Instance IoErrorKind_eq_dec : EqDecision IoErrorKind.
Proof. solve_decision. Defined.
#[export] Instance ProtocolError_eq_dec : EqDecision ProtocolError.
Proof. solve_decision. Defined.

Abbreviation result := (res ProtocolError).

(** ** Readers and writers *)

Definition rd (A : Type) : Type := list Z -> result (A * list Z).
Definition wr (A : Type) : Type := (result A * list Z)%type.

#[export] Instance rd_ret : MRet rd := fun A a i => Ok (a, i).
#[export] Instance rd_bind : MBind rd := fun A B f m i =>
  match m i with
  | Ok (a, i') => f a i'
  | Err e => Err e
  | Panic => Panic
  end.

#[export] Instance wr_ret : MRet wr := fun A a => (Ok a, []).
#[export] Instance wr_bind : MBind wr := fun A B f m =>
  match m with
  | (Ok a, o) => let '(r, o') := f a in (r, o ++ o')
  | (Err e, o) => (Err e, o)
  | (Panic, o) => (Panic, o)
  end.

Definition rd_lift {A} (m : result A) : rd A := fun i =>
  match m with
  | Ok a => Ok (a, i)
  | Err e => Err e
  | Panic => Panic
  end.
Definition wr_lift {A} (m : result A) : wr A := (m, []).

Abbreviation rd_err e := (rd_lift (Err e)).
Abbreviation wr_err e := (wr_lift (Err e)).

(** [r.read_exact(&mut buf[..n])]. *)
Definition read_exact (n : Z) : rd (list Z) := fun i =>
  if Z.of_nat (length i) <? n then Err (Io UnexpectedEof)
  else Ok (take (Z.to_nat n) i, drop (Z.to_nat n) i).

(** [w.write_all(bytes)]. *)
Definition write_all (bs : list Z) : wr unit := (Ok tt, bs).

(** [for _ in 0..n { v.push(r()?) }] *)
Fixpoint rd_repeat {A} (n : nat) (r : rd A) : rd (list A) :=
  match n with
  | O => mret []
  | S n' => x ← r; xs ← rd_repeat n' r; mret (x :: xs)
  end.

(** [for x in l { f(x)?; }] *)
Fixpoint wr_each {A} (f : A -> wr unit) (l : list A) : wr unit :=
  match l with
  | [] => mret tt
  | x :: l' => _ ← f x; wr_each f l'
  end.

(** ** Writer and reader in step *)

Definition mirrors {A B} (w : wr A) (r : rd B) (Q : A -> B -> Prop) : Prop :=
  exists a b bs, w = (Ok a, bs) /\ (forall k, r (bs ++ k) = Ok (b, k)) /\ Q a b.

Lemma mirrors_ret {A B} (a : A) (b : B) (Q : A -> B -> Prop) :
  Q a b -> mirrors (mret a) (mret b) Q.
Proof. intros. exists a, b, []. done. Qed.

Lemma mirrors_mono {A B} (w : wr A) (r : rd B) (Q Q' : A -> B -> Prop) :
  mirrors w r Q -> (forall a b, Q a b -> Q' a b) -> mirrors w r Q'.
Proof. intros (a & b & bs & ? & ? & ?) HQ. exists a, b, bs. auto. Qed.

Lemma mirrors_bind {A A' B B'} (w : wr A) (r : rd B) (f : A -> wr A') (g : B -> rd B')
    (Q : A -> B -> Prop) (Q' : A' -> B' -> Prop) :
  mirrors w r Q ->
  (forall a b, Q a b -> mirrors (f a) (g b) Q') ->
  mirrors (w ≫= f) (r ≫= g) Q'.
Proof.
  intros (a & b & bs & -> & Hr & HQ) Hf.
  destruct (Hf a b HQ) as (a' & b' & bs' & Hfa & Hgb & HQ').
  exists a', b', (bs ++ bs'). split_and!; [|intros k|done].
  - unfold mbind, wr_bind. by rewrite Hfa.
  - unfold mbind, rd_bind. rewrite <- app_assoc, Hr. apply Hgb.
Qed.

(** The reader alone does a step that consumes nothing. *)
Lemma mirrors_rd_ret {A B B'} (w : wr A) (b : B) (g : B -> rd B') Q :
  mirrors w (g b) Q -> mirrors w (mret b ≫= g) Q.
Proof. done. Qed.

Lemma mirrors_wr_ret {A A' B} (a : A) (f : A -> wr A') (r : rd B) Q :
  mirrors (f a) r Q -> mirrors (mret a ≫= f) r Q.
Proof.
  intros (a' & b & bs & Hf & Hr & HQ). exists a', b, bs. split_and!; try done.
  unfold mbind, wr_bind, mret, wr_ret. by rewrite Hf.
Qed.

Lemma wr_ret_bind {A B} (a : A) (f : A -> wr B) r : f a = r -> (mret a ≫= f) = r.
Proof. intros <-. unfold mbind, wr_bind, mret, wr_ret. by destruct (f a). Qed.

(** A writer step followed by a pure continuation on both sides. *)
Lemma mirrors_map {A B B'} (w : wr A) (r : rd B) (g : B -> B') (Q : A -> B' -> Prop) :
  mirrors w r (fun a b => Q a (g b)) -> mirrors w (x ← r; mret (g x)) Q.
Proof.
  intros (a & b & bs & Hw & Hr & HQ). exists a, (g b), bs. split_and!; [done| |done].
  intros k. unfold mbind, rd_bind. by rewrite Hr.
Qed.

Lemma rd_bind_run {A B} (r : rd A) (f : A -> rd B) i a k :
  r i = Ok (a, k) -> (r ≫= f) i = f a k.
Proof. intros H. unfold mbind, rd_bind. by rewrite H. Qed.

(** The reader goes on alone after the writer's last step. *)
Lemma mirrors_then {A B B'} (w : wr A) (r : rd B) (g : B -> rd B') (Q : A -> B -> Prop) (Q' : A -> B' -> Prop) :
  mirrors w r Q ->
  (forall a b, Q a b -> mirrors (mret a) (g b) Q') ->
  mirrors w (r ≫= g) Q'.
Proof.
  intros (a & b & bs & -> & Hr & HQ) Hg. destruct (Hg a b HQ) as (a' & b' & bs' & [= -> <-] & Hgb & HQ').
  exists a', b', bs. split_and!; [done| |done]. intros k. erewrite rd_bind_run by apply Hr. apply Hgb.
Qed.

Lemma mirrors_write_exact (n : Z) (bs : list Z) :
  Z.of_nat (length bs) = n ->
  mirrors (write_all bs) (read_exact n) (fun _ b => b = bs).
Proof.
  intros Hn. exists tt, bs, bs. split_and!; [done| |done].
  intros k. unfold read_exact. rewrite length_app.
  destruct (Z.ltb_spec (Z.of_nat (length bs + length k)) n); [lia|].
  subst n. rewrite Nat2Z.id, take_app_length, drop_app_length. done.
Qed.

(** What [mirrors] says, on the functions themselves. *)
Lemma mirrors_run {A B} (w : wr A) (r : rd B) Q bs a k :
  mirrors w r Q -> w = (Ok a, bs) -> exists b, r (bs ++ k) = Ok (b, k) /\ Q a b.
Proof.
  intros (a' & b & bs' & Hw & Hr & HQ) H. rewrite Hw in H. simplify_eq. eauto.
Qed.

Lemma mirrors_le_bytes {A} (n : nat) (x : Z) (f : Z -> A) :
  mirrors (write_all (le_bytes n x)) (buf ← read_exact (Z.of_nat n); mret (f (le_val buf)))
    (fun _ y => y = f (x mod 2 ^ (8 * Z.of_nat n))).
Proof.
  apply (mirrors_map _ _ (fun buf => f (le_val buf))).
  eapply mirrors_mono; [apply mirrors_write_exact; by rewrite length_le_bytes|].
  simpl. intros _ ? ->. by rewrite le_val_le_bytes.
Qed.

Lemma read_exact_app (bs k : list Z) n :
  n = Z.of_nat (length bs) -> read_exact n (bs ++ k) = Ok (bs, k).
Proof.
  intros ->. unfold read_exact. rewrite length_app.
  destruct (Z.ltb_spec (Z.of_nat (length bs + length k)) (Z.of_nat (length bs))); [lia|].
  by rewrite Nat2Z.id, take_app_length, drop_app_length.
Qed.

Lemma read_exact_cons (b : Z) (k : list Z) : read_exact 1 (b :: k) = Ok ([b], k).
Proof. apply (read_exact_app [b] k). done. Qed.

(** Sequences: element-wise mirroring of a [for] loop. *)
Lemma mirrors_each {A B} (f : A -> wr unit) (r : rd B) (R : A -> B -> Prop) (l : list A) :
  (forall a, a ∈ l -> mirrors (f a) r (fun _ b => R a b)) ->
  mirrors (wr_each f l) (rd_repeat (length l) r) (fun _ bs => Forall2 R l bs).
Proof.
  induction l as [|a l IH]; intros Hl; simpl.
  - by apply mirrors_ret.
  - eapply mirrors_bind; [apply Hl; set_solver|]. intros [] b Hb.
    apply mirrors_map. eapply mirrors_mono; [apply IH; set_solver|].
    simpl. intros ? bs Hbs. by constructor.
Qed.

(** ** Readers on arbitrary input *)

Definition safe {A} (r : rd A) (P : A -> Prop) : Prop :=
  forall i, Forall is_byte i ->
  match r i with
  | Ok (a, k) => P a /\ Forall is_byte k
  | Err _ => True
  | Panic => False
  end.

Lemma safe_ret {A} (a : A) (P : A -> Prop) : P a -> safe (mret a) P.
Proof. intros ? i ?. done. Qed.

Lemma safe_err {A} e (P : A -> Prop) : safe (rd_err e) P.
Proof. intros i ?. done. Qed.

Lemma safe_mono {A} (r : rd A) (P P' : A -> Prop) :
  safe r P -> (forall a, P a -> P' a) -> safe r P'.
Proof.
  intros Hr HP i Hi. specialize (Hr i Hi). destruct (r i) as [[a k]| |]; [|done..]. destruct Hr. auto.
Qed.

Lemma safe_bind {A B} (r : rd A) (f : A -> rd B) (P : A -> Prop) (P' : B -> Prop) :
  safe r P -> (forall a, P a -> safe (f a) P') -> safe (r ≫= f) P'.
Proof.
  intros Hr Hf i Hi. unfold mbind, rd_bind. specialize (Hr i Hi).
  destruct (r i) as [[a k]| |]; [|done..]. destruct Hr. by apply Hf.
Qed.

Lemma safe_if {A} (c : bool) (r1 r2 : rd A) P :
  (c = true -> safe r1 P) -> (c = false -> safe r2 P) -> safe (if c then r1 else r2) P.
Proof. destruct c; auto. Qed.

Lemma safe_read_exact n :
  0 <= n ->
  safe (read_exact n) (fun bs => Forall is_byte bs /\ Z.of_nat (length bs) = n).
Proof.
  intros Hn i Hi. unfold read_exact.
  destruct (Z.ltb_spec (Z.of_nat (length i)) n); [done|].
  pose proof (Forall_take_drop is_byte (Z.to_nat n) i Hi) as [? ?].
  rewrite length_take. split_and!; [done|lia|done].
Qed.

Lemma safe_repeat {A} (r : rd A) P n :
  safe r P -> safe (rd_repeat n r) (fun l => Forall P l /\ length l = n).
Proof.
  intros Hr. induction n as [|n IH]; simpl.
  - apply safe_ret. done.
  - eapply safe_bind; [done|]. intros a Ha.
    eapply safe_bind; [apply IH|]. intros l [Hl <-]. apply safe_ret. split; [by constructor|done].
Qed.

(** ** What a writer returns, whatever it emits *)

Definition yields {A} (w : wr A) (P : A -> Prop) : Prop := forall a bs, w = (Ok a, bs) -> P a.

Lemma yields_ret {A} (a : A) (P : A -> Prop) : P a -> yields (mret a) P.
Proof. intros H ? ? [= <- _]. done. Qed.
Lemma yields_bind {A B} (w : wr A) (f : A -> wr B) (P : A -> Prop) (Q : B -> Prop) :
  yields w P -> (forall a, P a -> yields (f a) Q) -> yields (w ≫= f) Q.
Proof.
  intros Hw Hf b bs. unfold mbind, wr_bind. destruct w as [[a| |] o] eqn:E; [|done..].
  destruct (f a) as [r o'] eqn:Ef. intros [= -> _]. by apply (Hf a (Hw a o eq_refl) b o').
Qed.
Lemma yields_any {A} (w : wr A) : yields w (fun _ => True).
Proof. done. Qed.
Lemma mirrors_yields {A B} (w : wr A) (r : rd B) (Q : A -> B -> Prop) (P : A -> Prop) :
  mirrors w r Q -> yields w P -> mirrors w r (fun a b => Q a b /\ P a).
Proof. intros (a & b & bs & Hw & Hr & HQ) HP. exists a, b, bs. split_and!; try done. by apply (HP a bs). Qed.

(** ** Readers that take bytes off the stream *)

Definition takes {A} (n : nat) (r : rd A) : Prop :=
  forall i a k, r i = Ok (a, k) -> (n + length k <= length i)%nat.

Lemma takes_ret {A} (a : A) : takes 0 (mret a).
Proof. intros i ? ? [= _ <-]. lia. Qed.
Lemma takes_lift {A} (m : result A) : takes 0 (rd_lift m).
Proof. intros i ? ?. unfold rd_lift. destruct m; [|done..]. intros [= _ <-]. lia. Qed.
Lemma takes_bind {A B} n (r : rd A) (f : A -> rd B) :
  takes n r -> (forall a, takes 0 (f a)) -> takes n (r ≫= f).
Proof.
  intros Hr Hf i b k. unfold mbind, rd_bind. destruct (r i) as [[a i']| |] eqn:E; [|done..].
  intros H. apply Hr in E. apply Hf in H. lia.
Qed.
Lemma takes_weaken {A} n (r : rd A) : takes n r -> takes 0 r.
Proof. intros H i a k E. apply H in E. lia. Qed.
Lemma takes_exact n : takes (Z.to_nat n) (read_exact n).
Proof.
  intros i a k. unfold read_exact. destruct (Z.ltb_spec (Z.of_nat (length i)) n); [done|].
  intros [= _ <-]. rewrite length_drop. lia.
Qed.
Lemma takes_repeat {A} n (r : rd A) : takes 0 r -> takes 0 (rd_repeat n r).
Proof.
  intros Hr. induction n as [|n IH]; cbn; [apply takes_ret|]. apply takes_bind; [done|]. intros a.
  apply takes_bind; [done|]. intros l. apply takes_ret.
Qed.

Create HintDb takes.
#[export] Hint Resolve takes_ret takes_lift takes_repeat : takes.
#[export] Hint Extern 1 (takes 0 (read_exact _)) => eapply takes_weaken, takes_exact : takes.

(** Goes through a reader that is built from readers known to the hints. *)
Ltac takes_step := match goal with
  | |- takes _ (mbind _ _) => apply takes_bind; [|intros ?]
  | |- takes _ (match ?x with _ => _ end) => destruct x
  | |- takes _ (let _ := _ in _) => cbv zeta
  | |- takes _ _ => solve [auto with takes]
  end.
Ltac solve_takes := repeat takes_step.

(** ** Reading until a terminator

    One round of the body per unit of fuel.  A body that takes at least one
    byte per round cannot run out of the fuel [rd_while] gives it. *)
Fixpoint rd_loop {St A} (body : St -> rd (St + A)) (fuel : nat) (s : St) : rd A :=
  match fuel with
  | O => rd_lift Panic
  | S fuel' =>
      r ← body s;
      match r with
      | inl s' => rd_loop body fuel' s'
      | inr a => mret a
      end
  end.
Definition rd_while {St A} (body : St -> rd (St + A)) (s : St) : rd A :=
  fun i => rd_loop body (S (length i)) s i.

Lemma rd_loop_step {St A} (body : St -> rd (St + A)) f s i :
  rd_loop body (S f) s i =
  match body s i with
  | Ok (inl s', k) => rd_loop body f s' k
  | Ok (inr a, k) => Ok (a, k)
  | Err e => Err e
  | Panic => Panic
  end.
Proof. cbn [rd_loop]. unfold mbind, rd_bind. by destruct (body s i) as [[[s'|a] k]| |]. Qed.

Lemma takes_while {St A} (body : St -> rd (St + A)) s : (forall s, takes 0 (body s)) -> takes 0 (rd_while body s).
Proof.
  intros Ht i a k. unfold rd_while. generalize (S (length i)) at 1. intros fuel. revert s i.
  induction fuel as [|fuel IH]; intros s i E; [done|]. cbn [rd_loop] in E. unfold mbind, rd_bind in E.
  destruct (body s i) as [[[s'|a'] i']| |] eqn:Er; [..|done|done]; apply Ht in Er.
  - apply IH in E. lia.
  - injection E as <- <-. lia.
Qed.

Lemma rd_while_safe {St A} (body : St -> rd (St + A)) (I : St -> Prop) (P : A -> Prop) s :
  (forall s, takes 1 (body s)) ->
  (forall s, I s -> safe (body s) (fun r => match r with inl s' => I s' | inr a => P a end)) ->
  I s -> safe (rd_while body s) P.
Proof.
  intros Ht Hb Hs i Hi. unfold rd_while. assert (Hf : (length i < S (length i))%nat) by lia.
  revert Hf. generalize (S (length i)). intros fuel. revert s i Hs Hi.
  induction fuel as [|fuel IH]; intros s i Hs Hi Hf; [lia|]. cbn [rd_loop]. unfold mbind, rd_bind.
  pose proof (Hb s Hs i Hi) as H. destruct (body s i) as [[[s'|a] k]| |] eqn:E; [|done..].
  apply Ht in E. destruct H as [Hs' Hk]. apply IH; (done || lia).
Qed.

(** Two loops in step: related states give related rounds. *)
Section loop_simulation.
  Context {St St' A A' : Type} (body : St -> rd (St + A)) (body' : St' -> rd (St' + A')).
  Context (R : St -> St' -> Prop) (T : A -> A' -> Prop).

Definition same_outcome {X X'} (Q : X -> X' -> Prop) (r : result (X * list Z)) (r' : result (X' * list Z)) : Prop :=
  match r, r' with
  | Ok (x, k), Ok (x', k') => Q x x' /\ k = k'
  | Err e, Err e' => e = e'
  | Panic, Panic => True
  | _, _ => False
  end.
Definition same_round (r : St + A) (r' : St' + A') : Prop :=
  match r, r' with
  | inl s, inl s' => R s s'
  | inr a, inr a' => T a a'
  | _, _ => False
  end.

Lemma rd_loop_sim :
  (forall s s' i, R s s' -> same_outcome same_round (body s i) (body' s' i)) ->
  forall f s s' i, R s s' -> same_outcome T (rd_loop body f s i) (rd_loop body' f s' i).
Proof.
  intros Hb f. induction f as [|f IH]; intros s s' i Hs; [done|]. rewrite !rd_loop_step.
  specialize (Hb s s' i Hs). destruct (body s i) as [[[s1|a1] k]| |], (body' s' i) as [[[s2|a2] k']| |];
    cbn in Hb |- *; try done; try (by destruct Hb). destruct Hb as [Hs' ->]. by apply IH.
Qed.

End loop_simulation.

(** Readers return the rest of their input. *)
Definition drops {A} (r : rd A) : Prop := forall i a k, r i = Ok (a, k) -> k `suffix_of` i.

Lemma drops_ret {A} (a : A) : drops (mret a).
Proof. intros i ? ? [= _ <-]. done. Qed.
Lemma drops_lift {A} (m : result A) : drops (rd_lift m).
Proof. intros i ? ?. unfold rd_lift. destruct m; [|done..]. by intros [= _ <-]. Qed.
Lemma drops_bind {A B} (r : rd A) (f : A -> rd B) : drops r -> (forall a, drops (f a)) -> drops (r ≫= f).
Proof.
  intros Hr Hf i b k. unfold mbind, rd_bind. destruct (r i) as [[a i']| |] eqn:E; [|done..].
  intros H. apply Hr in E. apply Hf in H. by etransitivity.
Qed.
Lemma drops_exact n : drops (read_exact n).
Proof.
  intros i a k. unfold read_exact. destruct (Z.ltb_spec (Z.of_nat (length i)) n); [done|].
  intros [= _ <-]. apply suffix_drop.
Qed.
Lemma drops_loop {St A} (body : St -> rd (St + A)) f s : (forall s, drops (body s)) -> drops (rd_loop body f s).
Proof.
  intros Hb. revert s. induction f as [|f IH]; intros s i a k; [done|]. rewrite rd_loop_step.
  destruct (body s i) as [[[s'|a'] i']| |] eqn:E; [..|done|done]; apply Hb in E.
  - intros H. apply IH in H. by etransitivity.
  - by intros [= _ <-].
Qed.
#[export] Hint Resolve drops_ret drops_lift drops_exact : takes.
Ltac solve_drops := repeat match goal with
  | |- drops (mbind _ _) => apply drops_bind; [|intros ?]
  | |- drops (match ?x with _ => _ end) => destruct x
  | |- drops (let _ := _ in _) => cbv zeta
  | |- drops _ => solve [auto with takes]
  end.

(** The same loop with a bound of the caller's on the number of rounds, for
    bodies that may go on without taking a byte. *)
Definition rd_while_within {St A} (rounds : nat -> nat) (body : St -> rd (St + A)) (s : St) : rd A :=
  fun i => rd_loop body (rounds (length i)) s i.

Section measured.
  Context {St A : Type} (body : St -> rd (St + A)) (mu : St -> nat -> nat).
  Context (Hmu : forall s i s' i', body s i = Ok (inl s', i') -> (mu s' (length i') < mu s (length i))%nat).

Lemma rd_loop_fuel f f' s i : (mu s (length i) < f)%nat -> (mu s (length i) < f')%nat ->
  rd_loop body f s i = rd_loop body f' s i.
Proof.
  revert f' s i. induction f as [|f IH]; intros [|f'] s i H1 H2; try lia. cbn [rd_loop]. unfold mbind, rd_bind.
  destruct (body s i) as [[[s'|a] i']| |] eqn:E; try done. apply Hmu in E. apply IH; lia.
Qed.

Lemma rd_loop_safe (I : St -> Prop) (P : A -> Prop) :
  (forall s, I s -> safe (body s) (fun r => match r with inl s' => I s' | inr a => P a end)) ->
  forall f s i, I s -> Forall is_byte i -> (mu s (length i) < f)%nat ->
  match rd_loop body f s i with
  | Ok (a, k) => P a /\ Forall is_byte k
  | Err _ => True
  | Panic => False
  end.
Proof.
  intros Hb f. induction f as [|f IH]; intros s i Hs Hi Hf; [lia|]. cbn [rd_loop]. unfold mbind, rd_bind.
  pose proof (Hb s Hs i Hi) as H. destruct (body s i) as [[[s'|a] k]| |] eqn:E; [|done..].
  apply Hmu in E. destruct H as [Hs' Hk]. apply IH; (done || lia).
Qed.

End measured.

(** [for x in l { st = f(x, st)?; }] *)
Fixpoint wr_fold {X T} (f : X -> T -> wr T) (l : list X) (t : T) : wr T :=
  match l with
  | [] => mret t
  | x :: l' => t' ← f x t; wr_fold f l' t'
  end.

Lemma wr_bind_assoc {A B C} (w : wr A) (f : A -> wr B) (g : B -> wr C) :
  ((w ≫= f) ≫= g) = (w ≫= fun a => f a ≫= g).
Proof.
  unfold mbind, wr_bind. destruct w as [[a| |] o]; [|done..]. destruct (f a) as [[b| |] o']; [|done..].
  destruct (g b) as [r o'']. by rewrite app_assoc.
Qed.

(** Continuations only matter on what the writer returns. *)
Lemma wr_bind_ext {A B} (w : wr A) (f g : A -> wr B) :
  (forall a bs, w = (Ok a, bs) -> f a = g a) -> (w ≫= f) = (w ≫= g).
Proof.
  intros H. unfold mbind, wr_bind. destruct w as [[a| |] o]; [|done..]. by rewrite (H a o eq_refl).
Qed.
Lemma wr_ret_bind_eq {A B} (a : A) (f : A -> wr B) : (mret a ≫= f) = f a.
Proof. by apply wr_ret_bind. Qed.
Lemma wr_bind_ret {A} (w : wr A) : (w ≫= mret) = w.
Proof. unfold mbind, wr_bind. destruct w as [[a| |] o]; [|done..]. cbn. by rewrite app_nil_r. Qed.

(** A loop that writes a list and then a terminator, against a loop that reads
    until the terminator. *)
Lemma mirrors_while {X T B St A} (f : X -> T -> wr T) (fin : T -> wr B) (body : St -> rd (St + A))
    (I : list X -> T -> St -> Prop) (Q : B -> A -> Prop) l t s :
  (forall s, takes 1 (body s)) ->
  (forall x l t s, I (x :: l) t s -> mirrors (f x t) (body s) (fun t' r => exists s', r = inl s' /\ I l t' s')) ->
  (forall t s, I [] t s -> mirrors (fin t) (body s) (fun b r => exists a, r = inr a /\ Q b a)) ->
  I l t s -> mirrors (t' ← wr_fold f l t; fin t') (rd_while body s) Q.
Proof.
  intros Ht Hf Hfin HI.
  assert (H : exists a b bs, (t' ← wr_fold f l t; fin t') = (Ok a, bs) /\ Q a b /\ (length l <= length bs)%nat /\
    forall fuel k, (length l < fuel)%nat -> rd_loop body fuel s (bs ++ k) = Ok (b, k)).
  { revert t s HI. induction l as [|x l IH]; intros t s HI; cbn [wr_fold].
    - destruct (Hfin t s HI) as (a & r & bs & Hw & Hr & b & -> & HQ). exists a, b, bs.
      rewrite <- Hw. split_and!; [by apply wr_ret_bind|done|cbn; lia|]. intros [|fuel] k Hk; [lia|]. cbn [rd_loop].
      by erewrite rd_bind_run by apply Hr.
    - destruct (Hf x l t s HI) as (t' & r & bs & Hw & Hr & s' & -> & HI').
      destruct (IH t' s' HI') as (a & b & bs' & Hw' & HQ & Hlen & Hrd). exists a, b, (bs ++ bs').
      assert (Hl : (length l <= length bs')%nat) by lia. pose proof (Hr []) as Hr0. apply Ht in Hr0.
      rewrite app_nil_r in Hr0. cbn [length] in Hr0. split_and!; [|done|rewrite length_app; cbn; lia|].
      + rewrite wr_bind_assoc. unfold mbind at 1, wr_bind at 1. rewrite Hw. by rewrite Hw'.
      + intros [|fuel] k Hk; [lia|]. cbn [rd_loop length] in *. rewrite <- app_assoc. erewrite rd_bind_run by apply Hr.
        apply Hrd. lia. }
  destruct H as (a & b & bs & Hw & HQ & Hlen & Hrd). exists a, b, bs. split_and!; [done| |done].
  intros k. unfold rd_while. apply Hrd. rewrite length_app. lia.
Qed.

Lemma safe_no_panic {A} (r : rd A) P i : safe r P -> Forall is_byte i -> r i <> Panic.
Proof. intros Hr Hi E. specialize (Hr i Hi). by rewrite E in Hr. Qed.

Create HintDb wire.
#[export] Hint Resolve safe_ret safe_err : wire.
