(* ===== verification/Types.v ===== *)
(** Shared data types: constants, file modes, protocol enums, file entries and
    transfer statistics ([crates/ferrosync-types]). *)
From S2P Require Import Prelude Wire.

(** ** constants.rs *)

Definition DATA_CHUNK_SIZE : Z := 32 * 1024.
Definition MPLEX_BUF_SIZE : Z := DATA_CHUNK_SIZE * 2.
Definition MAX_WIRE_ALLOC : Z := 256 * 1024 * 1024.
Definition MIN_BLOCK_LEN : Z := 700.
Definition MAX_BLOCK_LEN : Z := 1 ≪ 17.
Definition MPLEX_BASE : Z := 7.

(** ** mode.rs (octal constants written in hexadecimal) *)

Definition S_IFMT : Z := 0xF000.
Definition S_IFREG : Z := 0x8000.
Definition S_IFDIR : Z := 0x4000.
Definition S_IFLNK : Z := 0xA000.
Definition WIRE_S_IFLNK : Z := S_IFLNK.
Definition S_IFBLK : Z := 0x6000.
Definition S_IFCHR : Z := 0x2000.
Definition S_IFIFO : Z := 0x1000.
Definition S_IFSOCK : Z := 0xC000.

(** ** protocol.rs *)

Module compat_flags.
Definition INC_RECURSE : Z := 1 ≪ 0.
Definition SYMLINK_TIMES : Z := 1 ≪ 1.
Definition SYMLINK_ICONV : Z := 1 ≪ 2.
Definition SAFE_FLIST : Z := 1 ≪ 3.
Definition AVOID_XATTR_OPTIM : Z := 1 ≪ 4.
Definition CHKSUM_SEED_FIX : Z := 1 ≪ 5.
Definition INPLACE_PARTIAL_DIR : Z := 1 ≪ 6.
Definition VARINT_FLIST_FLAGS : Z := 1 ≪ 7.
Definition ID0_NAMES : Z := 1 ≪ 8.
End compat_flags.

(** [v & mask != 0] *)
Definition has_bits (v mask : Z) : bool := negb (Z.land v mask =? 0).

Inductive ChecksumType := CkNone | Md4 | Md5 | Blake3 | Xxh3 | Xxh128.
#[export] Instance ChecksumType_eq_dec : EqDecision ChecksumType.
Proof. solve_decision. Defined.

Module ChecksumType.
Definition default_for_version (version : Z) : ChecksumType :=
  if 30 <=? version then Md5 else Md4.

Definition name (c : ChecksumType) : string :=
  match c with
  | CkNone => "none" | Md4 => "md4" | Md5 => "md5"
  | Blake3 => "blake3" | Xxh3 => "xxh3" | Xxh128 => "xxh128"
  end.

Definition from_name (name : string) : option ChecksumType :=
  if String.eqb name "none" then Some CkNone
  else if String.eqb name "md4" then Some Md4
  else if String.eqb name "md5" then Some Md5
  else if String.eqb name "blake3" then Some Blake3
  else if String.eqb name "xxh3" then Some Xxh3
  else if String.eqb name "xxh128" then Some Xxh128
  else None.

Definition digest_len (c : ChecksumType) : nat :=
  match c with
  | CkNone => 0 | Md4 => 16 | Md5 => 16 | Blake3 => 32 | Xxh3 => 8 | Xxh128 => 16
  end%nat.
End ChecksumType.

Inductive CompressType := CpNone | Zlib | Zlibx | Zstd | Lz4.
#[export] Instance CompressType_eq_dec : EqDecision CompressType.
Proof. solve_decision. Defined.

Module CompressType.
Definition name (c : CompressType) : string :=
  match c with
  | CpNone => "none" | Zlib => "zlib" | Zlibx => "zlibx" | Zstd => "zstd" | Lz4 => "lz4"
  end.

Definition from_name (name : string) : option CompressType :=
  if String.eqb name "none" then Some CpNone
  else if String.eqb name "zlib" then Some Zlib
  else if String.eqb name "zlibx" then Some Zlibx
  else if String.eqb name "zstd" then Some Zstd
  else if String.eqb name "lz4" then Some Lz4
  else None.
End CompressType.

Inductive ChunkingStrategy :=
  | Fixed (block_size : nat)
  | FastCDC (min avg max : nat).

Module ChunkingStrategy.
Definition default : ChunkingStrategy := Fixed 700.
Definition default_cdc : ChunkingStrategy :=
  FastCDC (2 * 1024) (8 * 1024) (64 * 1024).
End ChunkingStrategy.

Inductive IntCodec := FixedInt | Compact.
#[export] Instance IntCodec_eq_dec : EqDecision IntCodec.
Proof. solve_decision. Defined.

Inductive FlagsCodec := FByte | ByteExtended | FVarint.
#[export] Instance FlagsCodec_eq_dec : EqDecision FlagsCodec.
Proof. solve_decision. Defined.

Inductive DeviceCodec := SingleInt | MajorMinor (varint_minor : bool).
#[export] Instance DeviceCodec_eq_dec : EqDecision DeviceCodec.
Proof. solve_decision. Defined.

(** ** entry.rs: ACLs and extended attributes *)

Inductive AceKind := User | Group.
#[export] Instance AceKind_eq_dec : EqDecision AceKind.
Proof. solve_decision. Defined.

Record PosixAce := mkPosixAce {
  ace_kind : AceKind;
  ace_id : Z;
  ace_name : option (list Z);
  ace_access : Z;
}.
#[export] Instance PosixAce_eq_dec : EqDecision PosixAce.
Proof. solve_decision. Defined.

Record PosixAclEntries := mkPosixAclEntries {
  user_obj : option Z;
  group_obj : option Z;
  mask : option Z;
  other : option Z;
  named : list PosixAce;
}.
#[export] Instance PosixAclEntries_eq_dec : EqDecision PosixAclEntries.
Proof. solve_decision. Defined.

Definition PosixAclEntries_default : PosixAclEntries :=
  mkPosixAclEntries None None None None [].

Record PosixAcl := mkPosixAcl {
  access : PosixAclEntries;
  default : option PosixAclEntries;
}.

Inductive Acl := Posix (acl : PosixAcl).

Record XattrEntry := mkXattrEntry {
  xattr_name : list Z;
  xattr_value : list Z;
}.
#[export] Instance XattrEntry_eq_dec : EqDecision XattrEntry.
Proof. solve_decision. Defined.

Record ExtendedAttributes := mkExtendedAttributes {
  xattr_entries : list XattrEntry;
}.
#[export] Instance ExtendedAttributes_eq_dec : EqDecision ExtendedAttributes.
Proof. solve_decision. Defined.

Definition ExtendedAttributes_default : ExtendedAttributes := mkExtendedAttributes [].

Record HardLinkInfo := mkHardLinkInfo {
  hl_dev : Z;
  hl_ino : Z;
  hl_nlink : Z;
}.

(** ** entry.rs: [FileEntry] *)

Record FileEntry := mkFileEntry {
  name : list Z;
  len : Z;
  mtime : Z;
  mtime_nsec : Z;
  mode : Z;
  uid : Z;
  gid : Z;
  rdev : Z;
  link_target : list Z;
  checksum : list Z;
  flags : Z;
  user_name : list Z;
  group_name : list Z;
  hlink_source : option (list Z);
  hard_link_info_field : option HardLinkInfo;
  acl : option Acl;
  xattrs : option ExtendedAttributes;
}.

(** [iter().rposition(|b| b == c)] *)
Fixpoint rposition (c : Z) (l : list Z) : option nat :=
  match l with
  | [] => None
  | b :: l' =>
      match rposition c l' with
      | Some i => Some (S i)
      | None => if b =? c then Some O else None
      end
  end.

Definition slash : Z := 47.

Module FileEntry.
Definition default : FileEntry :=
  mkFileEntry [] 0 0 0 0 0 0 0 [] [] 0 [] [] None None None None.

Definition is_file (e : FileEntry) : bool := Z.land (mode e) S_IFMT =? S_IFREG.
Definition is_dir (e : FileEntry) : bool := Z.land (mode e) S_IFMT =? S_IFDIR.
Definition is_symlink (e : FileEntry) : bool := Z.land (mode e) S_IFMT =? WIRE_S_IFLNK.
Definition is_device (e : FileEntry) : bool :=
  let ft := Z.land (mode e) S_IFMT in (ft =? S_IFBLK) || (ft =? S_IFCHR).
Definition is_special (e : FileEntry) : bool :=
  let ft := Z.land (mode e) S_IFMT in (ft =? S_IFIFO) || (ft =? S_IFSOCK).

Definition hard_link_info (e : FileEntry) : option HardLinkInfo :=
  if is_file e then hard_link_info_field e else None.

Definition dirname (e : FileEntry) : option (list Z) :=
  match rposition slash (name e) with
  | Some pos => Some (take pos (name e))
  | None => None
  end.

Definition basename (e : FileEntry) : list Z :=
  match rposition slash (name e) with
  | Some pos => drop (S pos) (name e)
  | None => name e
  end.

Definition rdev_major (e : FileEntry) : Z := as_u32 (rdev e ≫ 8).
Definition rdev_minor (e : FileEntry) : Z := as_u32 (Z.land (rdev e) 0xFF).
End FileEntry.

Lemma rposition_Some c l pos :
  rposition c l = Some pos ->
  l !! pos = Some c /\ c ∉ drop (S pos) l.
Proof.
  revert pos. induction l as [|b l IH]; intros pos; simpl; [done|].
  destruct (rposition c l) as [i|] eqn:E.
  - intros [= <-]. apply IH. done.
  - destruct (Z.eqb_spec b c); intros [= <-]; subst. split; [done|].
    simpl. rewrite drop_0. clear -E. revert E.
    induction l as [|b l IH]; simpl; [set_solver|].
    destruct (rposition c l); [done|]. destruct (Z.eqb_spec b c); [done|].
    intros _. apply not_elem_of_cons. split; [done|]. by apply IH.
Qed.

Lemma rposition_None c l : rposition c l = None -> c ∉ l.
Proof.
  induction l as [|b l IH]; simpl; [set_solver|].
  destruct (rposition c l); [done|]. destruct (Z.eqb_spec b c); [done|].
  intros _. apply not_elem_of_cons. split; [done|]. by apply IH.
Qed.

(** ** stats.rs

    The timing fields ([start_time], [elapsed]) and the two floating-point
    ratios are not modelled. *)
Record TransferStats := mkTransferStats {
  files_transferred : Z;
  total_files : Z;
  bytes_sent : Z;
  bytes_received : Z;
  total_size : Z;
  matched_data : Z;
  literal_data : Z;
  files_skipped : Z;
  files_deleted : Z;
  symlinks : Z;
  directories_created : Z;
}.

Definition TransferStats_new : TransferStats := mkTransferStats 0 0 0 0 0 0 0 0 0 0 0.
