(* ===== verification/Utf8.v ===== *)
(** [String::from_utf8_lossy], on the bytes of the string.

    A Rust [String] is modelled by its UTF-8 bytes.  The lossy conversion keeps
    every well-formed sequence and replaces each maximal ill-formed prefix by
    U+FFFD, as the standard library does. *)
From S2P Require Import Prelude.

Definition in_range (lo hi b : Z) : bool := (lo <=? b) && (b <=? hi).
Definition is_cont (b : Z) : bool := in_range 0x80 0xBF b.

(** Number of bytes of the sequence a lead byte announces. *)
Definition utf8_width (b : Z) : nat :=
  if b <? 0x80 then 1
  else if in_range 0xC2 0xDF b then 2
  else if in_range 0xE0 0xEF b then 3
  else if in_range 0xF0 0xF4 b then 4
  else 0.

(** Second byte allowed after the lead byte. *)
Definition second_ok (b0 b1 : Z) : bool :=
  if b0 =? 0xE0 then in_range 0xA0 0xBF b1
  else if b0 =? 0xED then in_range 0x80 0x9F b1
  else if b0 =? 0xF0 then in_range 0x90 0xBF b1
  else if b0 =? 0xF4 then in_range 0x80 0x8F b1
  else is_cont b1.

(** Outcome at the head of a non-empty input: how many bytes it takes, and
    whether they are a character. *)
Definition utf8_step (b0 : Z) (l : list Z) : nat * bool :=
  match utf8_width b0 with
  | 1 => (1, true)
  | 2 => match l with
         | b1 :: _ => if is_cont b1 then (2, true) else (1, false)
         | _ => (1, false)
         end
  | 3 => match l with
         | b1 :: l1 =>
             if second_ok b0 b1 then
               match l1 with
               | b2 :: _ => if is_cont b2 then (3, true) else (2, false)
               | _ => (2, false)
               end
             else (1, false)
         | _ => (1, false)
         end
  | 4 => match l with
         | b1 :: l1 =>
             if second_ok b0 b1 then
               match l1 with
               | b2 :: l2 =>
                   if is_cont b2 then
                     match l2 with
                     | b3 :: _ => if is_cont b3 then (4, true) else (3, false)
                     | _ => (3, false)
                     end
                   else (2, false)
               | _ => (2, false)
               end
             else (1, false)
         | _ => (1, false)
         end
  | _ => (1, false)
  end%nat.

Definition REPLACEMENT : list Z := [0xEF; 0xBF; 0xBD].

Fixpoint lossy_aux (fuel : nat) (l : list Z) : list Z :=
  match fuel with
  | O => []
  | S fuel' =>
      match l with
      | [] => []
      | b :: l' =>
          let '(n, ok) := utf8_step b l' in
          (if ok then take n l else REPLACEMENT) ++ lossy_aux fuel' (drop n l)
      end
  end.

Definition from_utf8_lossy (l : list Z) : list Z := lossy_aux (length l) l.

(** Well-formed UTF-8: every step succeeds. *)
Fixpoint utf8_valid_aux (fuel : nat) (l : list Z) : bool :=
  match fuel with
  | O => match l with [] => true | _ => false end
  | S fuel' =>
      match l with
      | [] => true
      | b :: l' => let '(n, ok) := utf8_step b l' in ok && utf8_valid_aux fuel' (drop n l)
      end
  end.
Definition utf8_valid (l : list Z) : bool := utf8_valid_aux (length l) l.

(** The bytes of a string literal. *)
Definition str_bytes (s : string) : list Z :=
  (fun a => Z.of_N (Ascii.N_of_ascii a)) <$> String.list_ascii_of_string s.

Lemma lossy_aux_valid fuel l :
  utf8_valid_aux fuel l = true -> lossy_aux fuel l = l.
Proof.
  revert l. induction fuel as [|fuel IH]; intros l; simpl.
  - destruct l; done.
  - destruct l as [|b l]; [done|]. destruct (utf8_step b l) as [n [|]]; [|done].
    simpl andb. intros H. rewrite (IH _ H). apply (take_drop n (b :: l)).
Qed.

(** A well-formed string is left alone. *)
Lemma from_utf8_lossy_valid l : utf8_valid l = true -> from_utf8_lossy l = l.
Proof. apply lossy_aux_valid. Qed.

Lemma utf8_valid_aux_ascii fuel l :
  Forall (fun b => 0 <= b < 128) l -> (length l <= fuel)%nat -> utf8_valid_aux fuel l = true.
Proof.
  intros Hl. revert fuel. induction Hl as [|b l Hb Hl IH]; intros fuel Hf; destruct fuel; try done.
  - simpl in Hf. lia.
  - simpl in *. unfold utf8_step, utf8_width. destruct (Z.ltb_spec b 128); [|lia].
    simpl. rewrite drop_0. apply IH. lia.
Qed.

Lemma utf8_valid_ascii l : Forall (fun b => 0 <= b < 128) l -> utf8_valid l = true.
Proof. intros. by apply utf8_valid_aux_ascii. Qed.
