(* ===== verification/Varint.v ===== *)
(** Integer codecs of the wire protocol ([ferrosync-protocol/src/varint.rs]). *)
From S2P Require Import Prelude Wire Types.

(** ** The prefix table *)

Definition INT_BYTE_EXTRA : list Z :=
  replicate 32 0 ++ replicate 16 1 ++ replicate 8 2 ++ replicate 4 3
  ++ replicate 2 4 ++ [5; 6].

(** ** Fixed width *)

Definition read_shortint : rd Z := buf ← read_exact 2; mret (le_val buf).
Definition write_shortint (val : Z) : wr unit := write_all (le_bytes 2 val).

Definition read_int : rd Z := buf ← read_exact 4; mret (as_i32 (le_val buf)).
Definition write_int (val : Z) : wr unit := write_all (le_bytes 4 val).

Definition read_longint : rd Z :=
  val ← read_int;
  if negb (val =? -1) then mret val
  else buf ← read_exact 8; mret (as_i64 (le_val buf)).

Definition write_longint (val : Z) : wr unit :=
  if (0 <=? val) && (val <=? 0x7FFFFFFF) then write_int (as_i32 val)
  else _ ← write_int (-1); write_all (le_bytes 8 val).

(** ** Compact varint *)

(** [while cnt > min && b[cnt] == 0 { cnt -= 1; }] *)
Fixpoint highest_nonzero (b : list Z) (min cnt : nat) : nat :=
  match cnt with
  | O => O
  | S c => if (min <? cnt)%nat && (b !!! cnt =? 0) then highest_nonzero b min c else cnt
  end.

Definition read_varint : rd Z :=
  buf ← read_exact 1;
  let ch := buf !!! O in
  match INT_BYTE_EXTRA !! Z.to_nat (ch / 4) with
  | None => rd_lift Panic
  | Some extra =>
      if extra =? 0 then mret ch
      else if 4 <? extra then rd_err (InvalidVarint "extra bytes exceed 4")
      else
        got ← read_exact extra;
        let b := copy_at 0 got [0; 0; 0; 0] in
        let b :=
          if extra <? 4 then
            let bit := as_u8 (1 ≪ (7 - extra + 1)) in
            <[Z.to_nat extra := Z.land ch (bit - 1)]> b
          else b in
        mret (le_val b)
  end.

Definition write_varint (x : Z) : wr unit :=
  let b := 0 :: le_bytes 4 x in
  let cnt := highest_nonzero b 1 4 in
  let bit := as_u8 (1 ≪ (7 - Z.of_nat cnt + 1)) in
  if bit <=? b !!! cnt then
    let b := <[O := not8 (bit - 1)]> b in
    write_all (take (S cnt) b)
  else if (1 <? cnt)%nat then
    let b := <[O := Z.lor (b !!! cnt) (not8 (as_u8 (bit * 2 - 1)))]> b in
    write_all (take cnt b)
  else
    let b := <[O := b !!! 1%nat]> b in
    write_all (take 1 b).

(** ** Compact varlong

    [1 <= min_bytes <= 8] is a debug assertion of both functions; outside it
    the slices of the reader are out of range. *)

Definition read_varlong (min_bytes : nat) : rd Z :=
  if negb ((1 <=? min_bytes)%nat && (min_bytes <=? 8)%nat) then rd_lift Panic
  else
    got ← read_exact (Z.of_nat min_bytes);
    let b := copy_at 0 got (replicate 8 0) in
    let first := b !!! O in
    match INT_BYTE_EXTRA !! Z.to_nat (first / 4) with
    | None => rd_lift Panic
    | Some extra =>
        let result := copy_at 0 (take (min_bytes - 1) (drop 1 b)) (replicate 8 0) in
        if 0 <? extra then
          let extra_start := (min_bytes - 1)%nat in
          if 8 <=? Z.of_nat extra_start + extra then
            rd_err (InvalidVarint "extra bytes would overflow u64")
          else
            got ← read_exact extra;
            let result := copy_at extra_start got result in
            let bit := as_u8 (1 ≪ (7 - extra + 1)) in
            mret (as_i64 (le_val
              (<[(extra_start + Z.to_nat extra)%nat := Z.land first (bit - 1)]> result)))
        else
          mret (as_i64 (le_val (<[(min_bytes - 1)%nat := first]> result)))
    end.

Definition write_varlong (x : Z) (min_bytes : nat) : wr unit :=
  if negb ((1 <=? min_bytes)%nat && (min_bytes <=? 8)%nat) then wr_lift Panic
  else
    let b := 0 :: le_bytes 8 x in
    let cnt := highest_nonzero b min_bytes 8 in
    let bit := as_u8 (1 ≪ (7 - (Z.of_nat cnt - Z.of_nat min_bytes))) in
    if bit <=? b !!! cnt then
      let b := <[O := not8 (bit - 1)]> b in
      write_all (take (S cnt) b)
    else if (min_bytes <? cnt)%nat then
      let b := <[cnt := 0]> (<[O := Z.lor (b !!! cnt) (not8 (as_u8 (bit * 2 - 1)))]> b) in
      write_all (take cnt b)
    else
      let b := <[min_bytes := 0]> (<[O := b !!! min_bytes]> b) in
      write_all (take cnt b).

(** ** Version-switching wrappers *)

Definition read_varint30 (codec : IntCodec) : rd Z :=
  match codec with
  | FixedInt => v ← read_int; mret (as_u32 v)
  | Compact => read_varint
  end.

Definition write_varint30 (val : Z) (codec : IntCodec) : wr unit :=
  match codec with
  | FixedInt => write_int (as_i32 val)
  | Compact => write_varint val
  end.

Definition read_varlong30 (min_bytes : nat) (codec : IntCodec) : rd Z :=
  match codec with
  | FixedInt => read_longint
  | Compact => read_varlong min_bytes
  end.

Definition write_varlong30 (val : Z) (min_bytes : nat) (codec : IntCodec) : wr unit :=
  match codec with
  | FixedInt => write_longint val
  | Compact => write_varlong val min_bytes
  end.

(** ** File-list indices *)

Record NdxState := mkNdxState {
  prev_positive : Z;
  prev_negative : Z;
}.
Definition NdxState_default : NdxState := mkNdxState (-1) 1.

Definition NDX_DONE : Z := -1.

(** The [&mut] borrow of one of the two fields: read it, write it back. *)
Definition ndx_prev (is_negative : bool) (st : NdxState) : Z :=
  if is_negative then prev_negative st else prev_positive st.
Definition set_ndx_prev (is_negative : bool) (v : Z) (st : NdxState) : NdxState :=
  if is_negative then mkNdxState (prev_positive st) v
  else mkNdxState v (prev_negative st).

Definition read_ndx (st : NdxState) (codec : IntCodec) : rd (Z * NdxState) :=
  if bool_decide (codec = FixedInt) then v ← read_int; mret (v, st)
  else
    b ← read_exact 1;
    let val := b !!! O in
    if val =? 0 then mret (NDX_DONE, st)
    else
      let is_negative := val =? 0xFF in
      val ← (if is_negative then b ← read_exact 1; mret (b !!! O) else mret val);
      let prev := ndx_prev is_negative st in
      ndx ←
        (if val =? 0xFE then
           buf ← read_exact 2;
           if has_bits (buf !!! 0%nat) 0x80 then
             buf2 ← read_exact 2;
             mret (Z.lor (Z.lor (Z.lor
               (Z.land (buf !!! 0%nat) 0x7F ≪ 24)
               ((buf2 !!! 1%nat) ≪ 16))
               ((buf2 !!! 0%nat) ≪ 8))
               (buf !!! 1%nat))
           else
             let diff := Z.lor ((buf !!! 0%nat) ≪ 8) (buf !!! 1%nat) in
             mret (as_i32 (prev + diff))
         else mret (as_i32 (prev + val)));
      let st := set_ndx_prev is_negative ndx st in
      if is_negative then mret (as_i32 (- ndx), st) else mret (ndx, st).

Definition write_ndx (ndx : Z) (st : NdxState) (codec : IntCodec) : wr NdxState :=
  if bool_decide (codec = FixedInt) then _ ← write_int ndx; mret st
  else if ndx =? NDX_DONE then _ ← write_all [0x00]; mret st
  else
    let '(is_negative, abs_ndx) :=
      if ndx <? 0 then (true, as_i32 (- ndx)) else (false, ndx) in
    _ ← (if is_negative then write_all [0xFF] else mret tt);
    let prev := ndx_prev is_negative st in
    let diff := as_i32 (abs_ndx - prev) in
    let st := set_ndx_prev is_negative abs_ndx st in
    _ ←
      (if (0 <? diff) && (diff <? 0xFE) then write_all [as_u8 diff]
       else if (0 <=? diff) && (diff <=? 0x7FFF) then
         write_all [0xFE; as_u8 (diff ≫ 8); as_u8 (Z.land diff 0xFF)]
       else
         write_all [0xFE;
                    Z.lor (as_u8 (abs_ndx ≫ 24)) 0x80;
                    as_u8 (Z.land abs_ndx 0xFF);
                    as_u8 (Z.land (abs_ndx ≫ 8) 0xFF);
                    as_u8 (Z.land (abs_ndx ≫ 16) 0xFF)]);
    mret st.

(** ** Single bytes *)

Definition read_byte : rd Z := buf ← read_exact 1; mret (buf !!! O).
Definition write_byte (val : Z) : wr unit := write_all [val].

(** ** Vocabulary of the statements *)

(** The values [read_varlong] can give back. *)
Definition varlong_range (min_bytes : nat) (x : Z) : bool :=
  (0 <=? x) && (x <? 2 ^ (55 + Z.of_nat min_bytes)).

(** [l] has no set byte above index [t]. *)
Definition zero_above (l : list Z) (t : nat) : Prop :=
  forall i, (t < i < length l)%nat -> l !!! i = 0.

(** The two remembered indices are indices ([-1] before the first one). *)
Definition ndx_state_ok (st : NdxState) : Prop :=
  -1 <= prev_positive st < 2 ^ 31 /\ -1 <= prev_negative st < 2 ^ 31.

(** A run of indices through one end of a connection. *)
Fixpoint write_ndxs (l : list Z) (st : NdxState) (codec : IntCodec) : wr NdxState :=
  match l with
  | [] => mret st
  | ndx :: l' => st ← write_ndx ndx st codec; write_ndxs l' st codec
  end.
Fixpoint read_ndxs (n : nat) (st : NdxState) (codec : IntCodec) : rd (list Z * NdxState) :=
  match n with
  | O => mret ([], st)
  | S n' =>
      p ← read_ndx st codec;
      q ← read_ndxs n' p.2 codec;
      mret (p.1 :: q.1, q.2)
  end.

(** The delta bytes after the sign byte, against the reader's [if val == 0xFE]. *)
Definition ndx_body (a prev : Z) : list Z :=
  let diff := as_i32 (a - prev) in
  if (0 <? diff) && (diff <? 0xFE) then [as_u8 diff]
  else if (0 <=? diff) && (diff <=? 0x7FFF) then
    [0xFE; as_u8 (diff ≫ 8); as_u8 (Z.land diff 0xFF)]
  else [0xFE; Z.lor (as_u8 (a ≫ 24)) 0x80; as_u8 (Z.land a 0xFF);
        as_u8 (Z.land (a ≫ 8) 0xFF); as_u8 (Z.land (a ≫ 16) 0xFF)].

Definition read_ndx_body (prev val : Z) : rd Z :=
  if val =? 0xFE then
    buf ← read_exact 2;
    if has_bits (buf !!! 0%nat) 0x80 then
      buf2 ← read_exact 2;
      mret (Z.lor (Z.lor (Z.lor
        (Z.land (buf !!! 0%nat) 0x7F ≪ 24)
        ((buf2 !!! 1%nat) ≪ 16))
        ((buf2 !!! 0%nat) ≪ 8))
        (buf !!! 1%nat))
    else
      let diff := Z.lor ((buf !!! 0%nat) ≪ 8) (buf !!! 1%nat) in
      mret (as_i32 (prev + diff))
  else mret (as_i32 (prev + val)).

(** ** Prefix bytes *)

Lemma highest_nonzero_spec b min cnt :
  (min <= cnt)%nat ->
  let c := highest_nonzero b min cnt in
  (min <= c <= cnt)%nat /\
  (forall i, (c < i <= cnt)%nat -> b !!! i = 0) /\
  (c = min \/ b !!! c <> 0).
Proof.
  induction cnt as [|n IH]; intros Hm; simpl highest_nonzero.
  - split_and!; [lia|lia|lia|left; lia].
  - destruct (Nat.ltb_spec min (S n)); simpl.
    + destruct (Z.eqb_spec (b !!! S n) 0) as [E|E].
      * destruct IH as ((? & ?) & H1 & H2); [lia|]. split_and!; [lia|lia| |done].
        intros i Hi. destruct (decide (i = S n)) as [->|]; [done|]. apply H1. lia.
      * split_and!; [lia|lia| |by right]. intros; lia.
    + split_and!; [lia|lia| |left; lia]. intros; lia.
Qed.

Lemma prefix_small b :
  0 <= b < 128 -> INT_BYTE_EXTRA !! Z.to_nat (b / 4) = Some 0.
Proof.
  intros Hb.
  assert (H : forall b, 0 <= b < Z.of_nat 128 ->
    bool_decide (INT_BYTE_EXTRA !! Z.to_nat (b / 4) = Some 0) = true) by byte_cases 128%nat.
  specialize (H b ltac:(lia)). by rewrite bool_decide_eq_true in H.
Qed.

Lemma prefix_big n :
  0 <= n <= 5 ->
  let ch := not8 (as_u8 (1 ≪ (7 - n)) - 1) in
  INT_BYTE_EXTRA !! Z.to_nat (ch / 4) = Some (n + 1) /\
  Z.land ch (as_u8 (1 ≪ (7 - (n + 1) + 1)) - 1) = 0.
Proof.
  intros Hn. assert (n = 0 \/ n = 1 \/ n = 2 \/ n = 3 \/ n = 4 \/ n = 5) as Hc by lia.
  destruct_or! Hc; subst n; vm_compute; done.
Qed.

Lemma prefix_mid n b :
  1 <= n <= 6 -> 0 <= b < as_u8 (1 ≪ (7 - n)) ->
  let ch := Z.lor b (not8 (as_u8 (as_u8 (1 ≪ (7 - n)) * 2 - 1))) in
  INT_BYTE_EXTRA !! Z.to_nat (ch / 4) = Some n /\
  Z.land ch (as_u8 (1 ≪ (7 - n + 1)) - 1) = b.
Proof.
  intros Hn Hb.
  assert (H : forall b, 0 <= b < Z.of_nat 64 -> forallb (fun n =>
    let ch := Z.lor b (not8 (as_u8 (as_u8 (1 ≪ (7 - n)) * 2 - 1))) in
    (as_u8 (1 ≪ (7 - n)) <=? b) ||
    bool_decide (INT_BYTE_EXTRA !! Z.to_nat (ch / 4) = Some n) &&
    (Z.land ch (as_u8 (1 ≪ (7 - n + 1)) - 1) =? b)) [1; 2; 3; 4; 5; 6] = true)
    by byte_cases 64%nat.
  assert (Hb64 : 0 <= b < Z.of_nat 64).
  { assert (as_u8 (1 ≪ (7 - n)) <= 64); [|lia].
    assert (n = 1 \/ n = 2 \/ n = 3 \/ n = 4 \/ n = 5 \/ n = 6) as Hc by lia.
    destruct_or! Hc; subst n; vm_compute; congruence. }
  specialize (H b Hb64). rewrite forallb_forall in H.
  specialize (H n ltac:(simpl; lia)). rewrite orb_true_iff, andb_true_iff, bool_decide_eq_true in H.
  destruct H as [H|[H1 H2]]; zbool; [lia|done].
Qed.

Lemma write_int_mirrors v : mirrors (write_int v) read_int (fun _ y => y = as_i32 v).
Proof.
  eapply mirrors_mono; [apply (mirrors_le_bytes 4 v as_i32)|].
  simpl. intros _ ? ->. apply swrap_wrap.
Qed.

Lemma copy_at_0 (l : list Z) e n :
  (e <= length l)%nat -> copy_at 0 (take e l) (replicate n 0) = take e l ++ replicate (n - e) 0.
Proof.
  intros He. unfold copy_at. rewrite take_0, length_take_le by done. simpl.
  by rewrite drop_replicate.
Qed.

Lemma read_varint_single ch k : 0 <= ch < 128 -> read_varint (ch :: k) = Ok (ch, k).
Proof.
  intros Hc. unfold read_varint. rewrite (rd_bind_run _ _ _ _ _ (read_exact_cons _ _)).
  simpl. by rewrite prefix_small.
Qed.

Lemma read_varint_multi ch (e : nat) l k :
  (1 <= e <= 4)%nat -> length l = 4%nat ->
  INT_BYTE_EXTRA !! Z.to_nat (ch / 4) = Some (Z.of_nat e) ->
  ((e < 4)%nat -> Z.land ch (as_u8 (1 ≪ (7 - Z.of_nat e + 1)) - 1) = l !!! e /\
                 drop (S e) l = replicate (4 - S e) 0) ->
  read_varint (ch :: take e l ++ k) = Ok (le_val l, k).
Proof.
  intros He Hl Hx Hrest. unfold read_varint.
  rewrite (rd_bind_run _ _ _ _ _ (read_exact_cons _ _)). simpl. rewrite Hx.
  destruct (Z.eqb_spec (Z.of_nat e) 0); [lia|]. destruct (Z.ltb_spec 4 (Z.of_nat e)); [lia|].
  rewrite (rd_bind_run _ _ _ (take e l) k) by (apply read_exact_app; rewrite length_take; lia).
  rewrite Nat2Z.id. change [0; 0; 0; 0] with (replicate 4 0). rewrite copy_at_0 by lia.
  destruct (Z.ltb_spec (Z.of_nat e) 4) as [Hlt|Hge].
  - destruct Hrest as [-> Hz]; [lia|]. rewrite <- Hl in Hz |- *.
    by rewrite take_replicate_insert by (done || lia).
  - replace e with 4%nat by lia. simpl. rewrite app_nil_r, <- Hl, firstn_all. done.
Qed.

Lemma write_varint_mirrors x :
  in_u32 x -> mirrors (write_varint x) read_varint (fun _ y => y = x).
Proof.
  intros Hx. unfold write_varint.
  assert (Hval : le_val (le_bytes 4 x) = x).
  { rewrite le_val_le_bytes. apply Z.mod_small. done. }
  pose proof (le_bytes_bytes 4 x) as Hb. pose proof (length_le_bytes 4 x) as Hlen.
  remember (le_bytes 4 x) as l eqn:El. clear El. subst x.
  pose proof (highest_nonzero_spec (0 :: l) 1 4 ltac:(lia)) as (Hc & Hz & Hnz).
  revert Hc Hz Hnz. generalize (highest_nonzero (0 :: l) 1 4). intros cnt Hc Hz Hnz.
  destruct cnt as [|c]; [lia|]. change ((0 :: l) !!! S c) with (l !!! c) in *.
  change ((0 :: l) !!! 1%nat) with (l !!! 0%nat).
  assert (Hcb : is_byte (l !!! c)).
  { rewrite Forall_lookup in Hb. apply (Hb c). apply list_lookup_lookup_total_lt. lia. }
  assert (Hd : drop (S c) l = replicate (4 - S c) 0).
  { rewrite <- Hlen. apply drop_zeros. intros i Hi. apply (Hz (S i)). lia. }
  replace (7 - Z.of_nat (S c) + 1) with (7 - Z.of_nat c) by lia.
  destruct (Z.leb_spec (as_u8 (1 ≪ (7 - Z.of_nat c))) (l !!! c)) as [Hbig|Hsmall];
    [|destruct (Nat.ltb_spec 1 (S c)) as [Hgt|Hle]];
    eexists tt, _, _; (split_and!; [reflexivity| |reflexivity]); intros k; simpl.
  - (* the top byte does not fit beside the prefix *)
    destruct (prefix_big (Z.of_nat c) ltac:(lia)) as [He Hl].
    apply (read_varint_multi _ (S c)); [lia|done|rewrite He; f_equal; lia|].
    intros Hlt. replace (Z.of_nat (S c)) with (Z.of_nat c + 1) by lia. rewrite Hl.
    assert (Hnx : l !!! S c = 0) by (apply (Hz (S (S c))); lia). split; [done|].
    rewrite (drop_S _ 0) in Hd.
    + replace (4 - S c)%nat with (S (4 - S (S c))) in Hd by lia. by injection Hd.
    + rewrite <- Hnx. apply list_lookup_lookup_total_lt. lia.
  - (* the top byte shares the prefix *)
    destruct (prefix_mid (Z.of_nat c) (l !!! c)) as [He Hl]; [lia|unfold is_byte in Hcb; lia|].
    apply (read_varint_multi _ c); [lia|done|done|]. done.
  - (* a single byte *)
    assert (c = 0%nat) by lia. subst c. change (as_u8 (1 ≪ (7 - Z.of_nat 0))) with 128 in Hsmall.
    unfold is_byte in Hcb. rewrite read_varint_single by lia.
    destruct l as [|a l]; [done|]. simpl in *. rewrite drop_0 in Hd. subst l.
    simpl. by rewrite Z.add_0_r.
Qed.

(** ** Varlong *)

(** The common prologue of the reader: [min_bytes] bytes, prefix first. *)
Lemma read_varlong_start ch p k :
  (length p <= 7)%nat ->
  read_varlong (S (length p)) (ch :: p ++ k) =
  match INT_BYTE_EXTRA !! Z.to_nat (ch / 4) with
  | None => Panic
  | Some extra =>
      (if 0 <? extra then
         if 8 <=? Z.of_nat (length p) + extra then
           rd_err (InvalidVarint "extra bytes would overflow u64")
         else
           got ← read_exact extra;
           let result := copy_at (length p) got (p ++ replicate (8 - length p) 0) in
           mret (as_i64 (le_val (<[(length p + Z.to_nat extra)%nat :=
              Z.land ch (as_u8 (1 ≪ (7 - extra + 1)) - 1)]> result)))
       else
         mret (as_i64 (le_val (<[length p := ch]> (p ++ replicate (8 - length p) 0))))) k
  end.
Proof.
  intros Hp. unfold read_varlong.
  destruct (Nat.leb_spec 1 (S (length p))); [|lia].
  destruct (Nat.leb_spec (S (length p)) 8); [|lia]. cbn [negb andb].
  rewrite (rd_bind_run _ _ _ (ch :: p) k) by (by apply (read_exact_app (ch :: p))).
  assert (E1 : copy_at 0 (ch :: p) (replicate 8 0) = ch :: p ++ replicate (7 - length p) 0)
    by exact (copy_at_zeros [] (ch :: p) 8 ltac:(simpl; lia)).
  assert (E2 : copy_at 0 p (replicate 8 0) = p ++ replicate (8 - length p) 0)
    by exact (copy_at_zeros [] p 8 ltac:(lia)).
  replace (S (length p) - 1)%nat with (length p) by lia.
  cbv zeta. rewrite E1. change ((ch :: ?t) !!! 0%nat) with ch. change (drop 1 (ch :: ?t)) with t.
  rewrite take_app_length, E2.
  destruct (INT_BYTE_EXTRA !! Z.to_nat (ch / 4)); done.
Qed.

Lemma read_varlong_multi ch p q v k (z : nat) :
  (1 <= length q)%nat -> (length p + length q + 1 + z = 8)%nat ->
  INT_BYTE_EXTRA !! Z.to_nat (ch / 4) = Some (Z.of_nat (length q)) ->
  Z.land ch (as_u8 (1 ≪ (7 - Z.of_nat (length q) + 1)) - 1) = v ->
  read_varlong (S (length p)) (ch :: p ++ q ++ k)
  = Ok (as_i64 (le_val (p ++ q ++ v :: replicate z 0)), k).
Proof.
  intros Hq Hl Hx Hv. rewrite read_varlong_start, Hx by lia.
  destruct (Z.ltb_spec 0 (Z.of_nat (length q))); [|lia].
  destruct (Z.leb_spec 8 (Z.of_nat (length p) + Z.of_nat (length q))); [lia|].
  rewrite (rd_bind_run _ _ _ q k) by (by apply read_exact_app).
  cbv zeta. rewrite copy_at_zeros, Nat2Z.id, Hv by lia.
  replace (8 - length p - length q)%nat with (S z) by lia. simpl replicate.
  rewrite insert_app_r, insert_app_r_alt, Nat.sub_diag by lia. done.
Qed.

Lemma read_varlong_overflow ch p k e :
  (length p <= 7)%nat -> 0 < e -> 8 <= Z.of_nat (length p) + e ->
  INT_BYTE_EXTRA !! Z.to_nat (ch / 4) = Some e ->
  read_varlong (S (length p)) (ch :: p ++ k)
  = Err (InvalidVarint "extra bytes would overflow u64").
Proof.
  intros Hp He Hl Hx. rewrite read_varlong_start, Hx by lia.
  destruct (Z.ltb_spec 0 e); [|lia].
  destruct (Z.leb_spec 8 (Z.of_nat (length p) + e)); [done|lia].
Qed.

Lemma read_varlong_short ch p k (z : nat) :
  (length p + 1 + z = 8)%nat ->
  INT_BYTE_EXTRA !! Z.to_nat (ch / 4) = Some 0 ->
  read_varlong (S (length p)) (ch :: p ++ k)
  = Ok (as_i64 (le_val (p ++ ch :: replicate z 0)), k).
Proof.
  intros Hl Hx. rewrite read_varlong_start, Hx by lia. simpl.
  replace (8 - length p)%nat with (S z) by lia. simpl replicate.
  rewrite insert_app_r_alt, Nat.sub_diag by lia. done.
Qed.

(** Where the value of an 8-byte little-endian list lies, by its top byte. *)
Lemma le_val_top l j :
  Forall is_byte l -> length l = 8%nat -> 0 <= j <= 8 ->
  le_val l < 2 ^ (56 + j) <-> l !!! 7%nat < 2 ^ j.
Proof.
  intros Hb Hl Hj.
  assert (E : l = take 7 l ++ [l !!! 7%nat]).
  { rewrite <- (take_drop 7 l) at 1. f_equal.
    rewrite (drop_S _ (l !!! 7%nat)) by (apply list_lookup_lookup_total_lt; lia).
    rewrite drop_ge by lia. done. }
  pose proof (Forall_take_drop is_byte 7 l Hb) as [Ht _].
  pose proof (le_val_bound _ Ht) as Hv. rewrite length_take, Hl in Hv.
  change (8 * Z.of_nat (7 `min` 8)) with 56 in Hv.
  assert (V : le_val l = le_val (take 7 l) + 2 ^ 56 * (l !!! 7%nat)).
  { rewrite E at 1. rewrite le_val_app, length_take, Hl.
    change (8 * Z.of_nat (7 `min` 8)) with 56. simpl. lia. }
  rewrite V, Z.pow_add_r by lia. pose proof (lookup_total_byte l 7 Hb ltac:(lia)) as [? ?].
  split; intros; nia.
Qed.

Lemma as_i64_bytes x : in_i64 x -> as_i64 (le_val (le_bytes 8 x)) = x.
Proof.
  intros Hx. rewrite le_val_le_bytes. change (8 * Z.of_nat 8) with 64.
  rewrite <- (swrap_id 64 x) at 2 by lia. apply swrap_wrap.
Qed.

Lemma le_val_i64_lt x j :
  in_i64 x -> 0 <= j <= 63 -> le_val (le_bytes 8 x) < 2 ^ j <-> 0 <= x < 2 ^ j.
Proof.
  intros Hx Hj. rewrite le_val_le_bytes. change (8 * Z.of_nat 8) with 64.
  assert (2 ^ j <= 2 ^ 63) by (apply Z.pow_le_mono_r; lia).
  destruct (Z.leb_spec 0 x).
  - rewrite Z.mod_small by lia. lia.
  - rewrite <- (Z.mod_unique x (2 ^ 64) (-1) (x + 2 ^ 64)) by lia. lia.
Qed.


Lemma split_at_top l (p t : nat) :
  length l = 8%nat -> (p <= t <= 7)%nat -> zero_above l t ->
  take t l = take p l ++ drop p (take t l) /\
  l = take p l ++ drop p (take t l) ++ (l !!! t) :: replicate (7 - t) 0.
Proof.
  intros Hl Ht Hz. assert (E : take t l = take p l ++ drop p (take t l)).
  { rewrite <- (take_drop p (take t l)) at 1. by rewrite take_take, Nat.min_l by lia. }
  split; [done|]. rewrite app_assoc, <- E. rewrite <- (take_drop t l) at 1. f_equal.
  rewrite (drop_S _ (l !!! t)) by (apply list_lookup_lookup_total_lt; lia). f_equal.
  replace (7 - t)%nat with (length l - S t)%nat by lia.
  apply drop_zeros. intros i Hi. apply Hz. lia.
Qed.

Lemma length_split (l : list Z) (p t : nat) :
  length l = 8%nat -> (p <= t <= 8)%nat ->
  length (take p l) = p /\ length (drop p (take t l)) = (t - p)%nat.
Proof. intros. rewrite length_drop, !length_take. lia. Qed.

(** A prefix byte followed by the low bytes, [t] of them. *)
Lemma read_varlong_prefix l (p t : nat) ch k :
  length l = 8%nat -> (p < t <= 7)%nat -> zero_above l t ->
  INT_BYTE_EXTRA !! Z.to_nat (ch / 4) = Some (Z.of_nat t - Z.of_nat p) ->
  Z.land ch (as_u8 (1 ≪ (7 - (Z.of_nat t - Z.of_nat p) + 1)) - 1) = l !!! t ->
  read_varlong (S p) (ch :: take t l ++ k) = Ok (as_i64 (le_val l), k).
Proof.
  intros Hl Ht Hz Hx Hv. destruct (split_at_top l p t) as [E1 E2]; [done|lia|done|].
  destruct (length_split l p t) as [L1 L2]; [done|lia|].
  pose proof (read_varlong_multi ch (take p l) (drop p (take t l)) (l !!! t) k (7 - t)) as G.
  rewrite <- E2, L1, L2, (app_assoc (take p l)), <- E1 in G.
  apply G; [lia|lia| |].
  - rewrite Hx. f_equal. lia.
  - rewrite <- Hv. do 4 f_equal. lia.
Qed.

Lemma read_varlong_unprefixed l p k :
  length l = 8%nat -> (p <= 7)%nat -> zero_above l p -> 0 <= l !!! p < 128 ->
  read_varlong (S p) (l !!! p :: take p l ++ k) = Ok (as_i64 (le_val l), k).
Proof.
  intros Hl Hp Hz Hs. destruct (split_at_top l p p) as [_ E2]; [done|lia|done|].
  rewrite drop_ge in E2 by (rewrite length_take; lia). simpl in E2.
  destruct (length_split l p p) as [L1 _]; [done|lia|].
  pose proof (read_varlong_short (l !!! p) (take p l) k (7 - p)) as G.
  rewrite <- E2, L1 in G. apply G; [lia|]. by apply prefix_small.
Qed.

Lemma read_varlong_too_long l (p : nat) ch k e :
  length l = 8%nat -> (p <= 7)%nat -> 8 <= Z.of_nat p + e -> 0 < e ->
  INT_BYTE_EXTRA !! Z.to_nat (ch / 4) = Some e ->
  read_varlong (S p) (ch :: l ++ k) = Err (InvalidVarint "extra bytes would overflow u64").
Proof.
  intros Hl Hp He Hpos Hx.
  destruct (length_split l p p) as [L1 _]; [done|lia|].
  rewrite <- (take_drop p l), <- app_assoc. rewrite <- L1 at 1.
  apply (read_varlong_overflow _ _ _ e); rewrite ?L1; done || lia.
Qed.

Lemma as_u8_bit n : 0 <= n <= 7 -> as_u8 (1 ≪ n) = 2 ^ n.
Proof.
  intros Hn. rewrite Z.shiftl_1_l. apply wrap_id. split; [lia|].
  apply Z.pow_lt_mono_r; lia.
Qed.

Lemma varlong_range_top p x :
  (2 <= p <= 7)%nat -> in_i64 x ->
  varlong_range (S p) x = (le_bytes 8 x !!! 7%nat <? 2 ^ Z.of_nat p).
Proof.
  intros Hp Hx. apply eq_true_iff_eq. rewrite Z.ltb_lt, <- le_val_top
    by (apply le_bytes_bytes || apply length_le_bytes || lia).
  rewrite le_val_i64_lt by (done || lia). unfold varlong_range.
  replace (55 + Z.of_nat (S p)) with (56 + Z.of_nat p) by lia. lia.
Qed.

(** The three shapes the writer emits, by the index [c] of the top byte. *)
Lemma read_varlong_wide l (p c : nat) k :
  Forall is_byte l -> length l = 8%nat -> (2 <= p <= c)%nat -> (c <= 7)%nat -> zero_above l c ->
  let bit := as_u8 (1 ≪ (7 - (Z.of_nat c - Z.of_nat p))) in
  bit <= l !!! c ->
  read_varlong (S p) (not8 (bit - 1) :: take (S c) l ++ k) =
  if l !!! 7%nat <? 2 ^ Z.of_nat p then Ok (as_i64 (le_val l), k)
  else Err (InvalidVarint "extra bytes would overflow u64").
Proof.
  intros Hb Hlen Hp Hc Hza bit Hbig. unfold bit in *.
  destruct (prefix_big (Z.of_nat c - Z.of_nat p) ltac:(lia)) as [He Hl].
  destruct (decide (c = 7)%nat) as [->|Hc7].
  - rewrite as_u8_bit in Hbig by lia.
    replace (7 - (Z.of_nat 7 - Z.of_nat p)) with (Z.of_nat p) in Hbig by lia.
    destruct (Z.ltb_spec (l !!! 7%nat) (2 ^ Z.of_nat p)); [lia|].
    rewrite (take_ge l) by lia. eapply read_varlong_too_long; [done|lia| | |exact He]; lia.
  - rewrite (Hza 7%nat) by lia. destruct (Z.ltb_spec 0 (2 ^ Z.of_nat p)); [|lia].
    apply read_varlong_prefix; [done|lia|intros i Hi; apply Hza; lia|rewrite He; f_equal; lia|].
    replace (Z.of_nat (S c) - Z.of_nat p) with (Z.of_nat c - Z.of_nat p + 1) by lia.
    rewrite Hl. symmetry. apply Hza. lia.
Qed.

Lemma top_byte_small l (p c : nat) :
  length l = 8%nat -> (p <= c <= 7)%nat -> zero_above l c ->
  l !!! c < as_u8 (1 ≪ (7 - (Z.of_nat c - Z.of_nat p))) ->
  (l !!! 7%nat <? 2 ^ Z.of_nat p) = true.
Proof.
  intros Hlen Hc Hza Hs. apply Z.ltb_lt. destruct (decide (c = 7)%nat) as [->|].
  - rewrite as_u8_bit in Hs by lia. replace (7 - (Z.of_nat 7 - Z.of_nat p)) with (Z.of_nat p) in Hs; lia.
  - rewrite (Hza 7%nat) by lia. apply Z.pow_pos_nonneg; lia.
Qed.

(** What the reader makes of any [i64] the writer has encoded. *)
Lemma varlong_roundtrip_aux (m : nat) x :
  (3 <= m <= 8)%nat -> in_i64 x ->
  exists bs, write_varlong x m = (Ok tt, bs) /\
    forall k, read_varlong m (bs ++ k) =
      if varlong_range m x then Ok (x, k)
      else Err (InvalidVarint "extra bytes would overflow u64").
Proof.
  intros Hm Hx. unfold write_varlong. destruct m as [|p]; [lia|].
  destruct (Nat.leb_spec 1 (S p)); [|lia]. destruct (Nat.leb_spec (S p) 8); [|lia].
  cbn [negb andb].
  pose proof (le_bytes_bytes 8 x) as Hb. pose proof (length_le_bytes 8 x) as Hlen.
  pose proof (as_i64_bytes x Hx) as Hback.
  rewrite varlong_range_top by (done || lia).
  remember (le_bytes 8 x) as l eqn:El. clear El.
  pose proof (highest_nonzero_spec (0 :: l) (S p) 8 ltac:(lia)) as (Hc & Hz & Hnz).
  revert Hc Hz Hnz. generalize (highest_nonzero (0 :: l) (S p) 8). intros cnt Hc Hz Hnz.
  destruct cnt as [|c]; [lia|].
  change ((0 :: l) !!! S c) with (l !!! c) in *. change ((0 :: l) !!! S p) with (l !!! p) in *.
  pose proof (lookup_total_byte l c Hb ltac:(lia)) as Hcb. unfold is_byte in Hcb.
  assert (Hza : zero_above l c) by (intros i Hi; apply (Hz (S i)); lia).
  replace (7 - (Z.of_nat (S c) - Z.of_nat (S p))) with (7 - (Z.of_nat c - Z.of_nat p)) by lia.
  destruct (Z.leb_spec (as_u8 (1 ≪ (7 - (Z.of_nat c - Z.of_nat p)))) (l !!! c)) as [Hbig|Hsmall];
    [|destruct (Nat.ltb_spec (S p) (S c)) as [Hgt|Hle]];
    (eexists; split; [reflexivity|]); intros k; simpl.
  - rewrite read_varlong_wide by (done || lia). by rewrite Hback.
  - rewrite (top_byte_small l p c), <- Hback, take_insert_ge by (done || lia).
    assert (c <> 7 \/ p <> 0)%nat by lia.
    destruct (prefix_mid (Z.of_nat c - Z.of_nat p) (l !!! c)) as [He Hl]; [lia|lia|].
    apply read_varlong_prefix; done || lia.
  - rewrite (top_byte_small l p c), <- Hback by (done || lia).
    assert (c = p) by lia. subst c. rewrite take_insert_ge by lia.
    rewrite Z.sub_diag in Hsmall. apply read_varlong_unprefixed; [done|lia|done|].
    change (as_u8 (1 ≪ (7 - 0))) with 128 in Hsmall. lia.
Qed.

(** ** File-list indices *)

Lemma byte_or80_and7f h : 0 <= h < 128 -> Z.land (Z.lor h 0x80) 0x7F = h.
Proof.
  intros Hh. apply Z.eqb_eq. revert h Hh.
  change (forall h, 0 <= h < Z.of_nat 128 -> (Z.land (Z.lor h 0x80) 0x7F =? h) = true).
  byte_cases 128%nat.
Qed.

Lemma byte_or80_has h : 0 <= h < 128 -> has_bits (Z.lor h 0x80) 0x80 = true.
Proof.
  revert h. change (forall h, 0 <= h < Z.of_nat 128 -> has_bits (Z.lor h 0x80) 0x80 = true).
  byte_cases 128%nat.
Qed.

Lemma byte_small_has h : 0 <= h < 128 -> has_bits h 0x80 = false.
Proof.
  intros Hh. apply negb_true_iff. revert h Hh.
  change (forall h, 0 <= h < Z.of_nat 128 -> negb (has_bits h 0x80) = true).
  byte_cases 128%nat.
Qed.

Lemma ndx_abs_bytes a :
  0 <= a < 2 ^ 31 ->
  Z.lor (Z.lor (Z.lor (Z.land (Z.lor (as_u8 (a ≫ 24)) 0x80) 0x7F ≪ 24)
    (as_u8 (Z.land (a ≫ 16) 0xFF) ≪ 16)) (as_u8 (Z.land (a ≫ 8) 0xFF) ≪ 8))
    (as_u8 (Z.land a 0xFF)) = a.
Proof.
  intros Ha. rewrite !as_u8_land, !Z.shiftr_div_pow2, !Z.shiftl_mul_pow2 by lia.
  change (2 ^ 24) with 16777216. change (2 ^ 16) with 65536.
  assert (0 <= a / 16777216 < 128) by zlia.
  rewrite (wrap_id 8) by lia. rewrite byte_or80_and7f by lia. change (2 ^ 8) with 256.
  assert (E3 : a / 16777216 = a / 65536 / 256) by (rewrite Z.div_div by lia; done).
  assert (E2 : a / 65536 = a / 256 / 256) by (rewrite Z.div_div by lia; done).
  rewrite E3 in *. rewrite E2 in *. set (b := a / 256) in *. set (c := b / 256) in *.
  rewrite (lor_disjoint (c / 256 * 16777216) _ 24 (c / 256)) by zlia.
  rewrite (lor_disjoint _ (b mod 256 * 256) 16 c) by (subst c; zlia).
  rewrite (lor_disjoint _ _ 8 b); subst c b; zlia.
Qed.

Lemma ndx_diff_bytes d :
  0 <= d <= 0x7FFF ->
  0 <= as_u8 (d ≫ 8) < 128 /\ Z.lor (as_u8 (d ≫ 8) ≪ 8) (as_u8 (Z.land d 0xFF)) = d.
Proof.
  intros Hd. rewrite as_u8_land, Z.shiftr_div_pow2 by lia. change (2 ^ 8) with 256.
  rewrite (wrap_id 8) by zlia. split; [zlia|].
  rewrite Z.shiftl_mul_pow2, (lor_disjoint _ _ 8 (d / 256)) by zlia.
  zlia.
Qed.

Lemma ndx_prev_bound neg st : ndx_state_ok st -> -1 <= ndx_prev neg st < 2 ^ 31.
Proof. intros [? ?]. destruct neg; done. Qed.

Lemma set_ndx_prev_ok neg v st :
  ndx_state_ok st -> 0 <= v < 2 ^ 31 -> ndx_state_ok (set_ndx_prev neg v st).
Proof. unfold ndx_state_ok. intros [? ?] ?. destruct neg; simpl; lia. Qed.

Lemma ndx_body_read a prev k :
  0 <= a < 2 ^ 31 -> -1 <= prev < 2 ^ 31 ->
  exists v rest, ndx_body a prev = v :: rest /\ v <> 0 /\ v <> 0xFF /\ is_byte v /\
    read_ndx_body prev v (rest ++ k) = Ok (a, k).
Proof.
  intros Ha Hp. unfold ndx_body, read_ndx_body. cbv zeta.
  assert (Hd : as_i32 (a - prev) = a - prev \/ a - prev = 2 ^ 31 /\ as_i32 (a - prev) = - 2 ^ 31).
  { destruct (decide (a - prev = 2 ^ 31)) as [->|]; [right; done|].
    left. apply swrap_id; lia. }
  destruct ((0 <? as_i32 (a - prev)) && (as_i32 (a - prev) <? 254)) eqn:E1;
    [|destruct ((0 <=? as_i32 (a - prev)) && (as_i32 (a - prev) <=? 0x7FFF)) eqn:E2];
    zbool; eexists _, _; (split; [reflexivity|]).
  - destruct Hd as [Hd|[_ Hd]]; [|lia]. rewrite Hd in *. rewrite wrap_id by lia.
    unfold is_byte. split_and!; [lia..|]. destruct (Z.eqb_spec (a - prev) 254); [lia|].
    unfold mret, rd_ret. simpl. rewrite swrap_id by lia. do 2 f_equal. lia.
  - split_and!; [done|done|done|].
    destruct (ndx_diff_bytes (as_i32 (a - prev)) ltac:(lia)) as [Hh Hl].
    destruct Hd as [Hd|[_ Hd]]; [|lia]. simpl (254 =? 254).  cbv iota.
    erewrite rd_bind_run by (apply (read_exact_app [_; _] k 2); reflexivity).
    look. rewrite byte_small_has by done. rewrite Hl, Hd.
    unfold mret, rd_ret. rewrite swrap_id by lia. do 2 f_equal. lia.
  - split_and!; [done|done|done|]. cbn [Z.eqb Pos.eqb].
    erewrite rd_bind_run by (apply (read_exact_app [_; _] (_ :: _ :: k) 2); reflexivity).
    look. rewrite byte_or80_has.
    + erewrite rd_bind_run by (apply (read_exact_app [_; _] k 2); reflexivity). look.
      rewrite ndx_abs_bytes by done. done.
    + rewrite Z.shiftr_div_pow2, wrap_id by zlia. zlia.
Qed.

Lemma write_ndx_compact ndx st :
  ndx <> NDX_DONE ->
  write_ndx ndx st Compact =
  let neg := ndx <? 0 in
  let a := if neg then as_i32 (- ndx) else ndx in
  (Ok (set_ndx_prev neg a st), (if neg then [0xFF] else []) ++ ndx_body a (ndx_prev neg st)).
Proof.
  intros Hd. unfold write_ndx. change (bool_decide (Compact = FixedInt)) with false. cbv iota.
  destruct (Z.eqb_spec ndx NDX_DONE); [done|]. unfold ndx_body. cbv zeta.
  destruct (ndx <? 0); cbv iota beta; repeat split_if; unfold mbind, wr_bind, write_all, mret, wr_ret;
    rewrite ?app_nil_r; done.
Qed.

(** Any index but [i32::MIN] survives, and both ends hold the same state. *)
Lemma write_ndx_mirrors ndx st codec :
  ndx_state_ok st -> - 2 ^ 31 < ndx < 2 ^ 31 ->
  mirrors (write_ndx ndx st codec) (read_ndx st codec)
    (fun st1 '(v, st2) => v = ndx /\ st1 = st2 /\ ndx_state_ok st1).
Proof.
  intros Hst Hn. destruct codec.
  { unfold write_ndx, read_ndx. change (bool_decide (FixedInt = FixedInt)) with true. cbv iota.
    eapply mirrors_bind; [apply write_int_mirrors|]. simpl. intros _ v ->.
    apply mirrors_ret. rewrite swrap_id by lia. done. }
  destruct (decide (ndx = NDX_DONE)) as [->|Hd].
  { exists st, (NDX_DONE, st), [0]. split_and!; [done| |done|done|done]. intros k.
    unfold read_ndx. change (bool_decide (Compact = FixedInt)) with false. cbv iota.
    erewrite rd_bind_run by (apply (read_exact_app [0] k 1); reflexivity). done. }
  rewrite write_ndx_compact by done. cbv zeta.
  set (neg := ndx <? 0). set (a := if neg then as_i32 (- ndx) else ndx).
  assert (Ha : 0 <= a < 2 ^ 31 /\ ndx = if neg then as_i32 (- a) else a).
  { unfold a, neg. destruct (Z.ltb_spec ndx 0); [|lia].
    rewrite (swrap_id 32 (- ndx)) by lia. rewrite swrap_id by lia. lia. }
  destruct Ha as [Ha Heq].
  eexists _, (ndx, set_ndx_prev neg a st), _.
  split_and!; [reflexivity| |done|done|by apply set_ndx_prev_ok].
  intros k. pose proof (ndx_body_read a (ndx_prev neg st) k Ha (ndx_prev_bound neg st Hst))
    as (v & rest & -> & Hv0 & HvF & _ & Hbody).
  unfold read_ndx. change (bool_decide (Compact = FixedInt)) with false. cbv iota. clearbody neg a.
  destruct neg.
  - erewrite rd_bind_run by (apply (read_exact_app [_] (v :: rest ++ k) 1); reflexivity). look.
    cbn [Z.eqb Pos.eqb]. erewrite rd_bind_run; cycle 1.
    { erewrite rd_bind_run by (apply (read_exact_app [_] (rest ++ k) 1); reflexivity).
      reflexivity. }
    look. erewrite rd_bind_run by exact Hbody. rewrite Heq. done.
  - erewrite rd_bind_run by (apply (read_exact_app [_] (rest ++ k) 1); reflexivity). look.
    destruct (Z.eqb_spec v 0); [done|]. destruct (Z.eqb_spec v 255); [done|].
    unfold mbind at 1, rd_bind at 1, mret at 1, rd_ret at 1.
    erewrite rd_bind_run by exact Hbody. rewrite Heq. done.
Qed.

(** ** The remaining writers, and readers on arbitrary input *)

Lemma write_shortint_mirrors v :
  mirrors (write_shortint v) read_shortint (fun _ y => y = as_u16 v).
Proof.
  eapply mirrors_mono; [apply (mirrors_le_bytes 2 v (fun x => x))|]. simpl. intros _ ? ->. done.
Qed.

Lemma write_byte_mirrors v : mirrors (write_byte v) read_byte (fun _ y => y = v).
Proof.
  exists tt, v, [v]. split_and!; [done| |done]. intros k. unfold read_byte.
  erewrite rd_bind_run by (apply (read_exact_app [v] k 1); reflexivity). done.
Qed.

Lemma write_longint_mirrors v :
  in_i64 v -> mirrors (write_longint v) read_longint (fun _ y => y = v).
Proof.
  intros Hv. unfold write_longint, read_longint. destruct ((0 <=? v) && (v <=? 0x7FFFFFFF)) eqn:E.
  - zbool. destruct (write_int_mirrors (as_i32 v)) as ([] & b & bs & Hw & Hr & Hb).
    rewrite !swrap_id in Hb by (rewrite ?swrap_id by lia; lia). subst b.
    exists tt, v, bs. split_and!; [done| |done]. intros k. erewrite rd_bind_run by apply Hr.
    destruct (Z.eqb_spec v (-1)); [lia|done].
  - eapply mirrors_bind; [apply write_int_mirrors|]. intros [] y ->.
    rewrite swrap_id by lia. simpl.
    eapply mirrors_mono; [apply (mirrors_le_bytes 8 v as_i64)|]. intros ? ? ->.
    change (8 * Z.of_nat 8) with 64. rewrite <- (swrap_id 64 v) at 2 by lia. apply swrap_wrap.
Qed.

Lemma write_varint30_mirrors v codec :
  in_u32 v -> mirrors (write_varint30 v codec) (read_varint30 codec) (fun _ y => y = v).
Proof.
  intros Hv. destruct codec; [|by apply write_varint_mirrors].
  apply mirrors_map. eapply mirrors_mono; [apply write_int_mirrors|].
  intros _ ? ->. rewrite (swrap_id 32 (as_i32 v)) by (lia || (apply (swrap_range 32); lia)).
  by apply as_u32_as_i32.
Qed.

Lemma write_varlong_mirrors v m :
  (3 <= m <= 8)%nat -> in_i64 v -> varlong_range m v = true ->
  mirrors (write_varlong v m) (read_varlong m) (fun _ y => y = v).
Proof.
  intros Hm Hv Hr. destruct (varlong_roundtrip_aux m v Hm Hv) as (bs & Hw & Hb).
  rewrite Hr in Hb. exists tt, v, bs. done.
Qed.

Lemma write_varlong30_mirrors v m codec :
  (3 <= m <= 8)%nat -> in_i64 v -> (codec = Compact -> varlong_range m v = true) ->
  mirrors (write_varlong30 v m codec) (read_varlong30 m codec) (fun _ y => y = v).
Proof.
  intros Hm Hv Hr. destruct codec; [by apply write_longint_mirrors|].
  apply write_varlong_mirrors; auto.
Qed.

Lemma safe_read_le {A} (n : Z) (f : Z -> A) (P : A -> Prop) :
  0 <= n -> (forall x, 0 <= x < 2 ^ (8 * n) -> P (f x)) ->
  safe (buf ← read_exact n; mret (f (le_val buf))) P.
Proof.
  intros Hn HP. eapply safe_bind; [by apply safe_read_exact|]. intros buf [Hb Hl].
  apply safe_ret, HP. rewrite <- Hl. by apply le_val_bound.
Qed.

Lemma read_int_safe : safe read_int (fun v => in_i32 v).
Proof. apply (safe_read_le 4 as_i32); [lia|]. intros x _. apply (swrap_range 32). lia. Qed.

Lemma read_shortint_safe : safe read_shortint (fun v => in_u16 v).
Proof. apply (safe_read_le 2 (fun x => x)); [lia|]. done. Qed.

Lemma bytes_1 buf :
  Forall is_byte buf /\ Z.of_nat (length buf) = 1 -> exists b, buf = [b] /\ is_byte b.
Proof.
  intros [Hb Hl]. destruct buf as [|b [|]]; simpl in Hl; try lia.
  exists b. by inversion Hb.
Qed.

Lemma read_byte_safe : safe read_byte is_byte.
Proof.
  eapply safe_bind; [by apply safe_read_exact|].
  intros ? (b & -> & Hb)%bytes_1. by apply safe_ret.
Qed.

Lemma read_longint_safe : safe read_longint (fun v => in_i64 v).
Proof.
  eapply safe_bind; [apply read_int_safe|]. intros v Hv. apply safe_if; intros _.
  - apply safe_ret. simpl in Hv; lia.
  - apply (safe_read_le 8 as_i64); [lia|]. intros x _. apply (swrap_range 64). lia.
Qed.

Lemma INT_BYTE_EXTRA_total b :
  is_byte b -> exists e, INT_BYTE_EXTRA !! Z.to_nat (b / 4) = Some e /\ 0 <= e <= 6.
Proof.
  intros Hb.
  assert (H : forall b, 0 <= b < Z.of_nat 256 ->
    match INT_BYTE_EXTRA !! Z.to_nat (b / 4) with
    | Some e => (0 <=? e) && (e <=? 6) | None => false end = true) by byte_cases 256%nat.
  specialize (H b Hb). revert H. destruct (INT_BYTE_EXTRA !! Z.to_nat (b / 4)) as [e|]; [|done].
  intros H.   exists e. split; [done|]. zbool. lia.
Qed.

Lemma land_low_byte b k : is_byte b -> 0 <= k <= 8 -> 0 <= Z.land b (as_u8 (1 ≪ k) - 1) < 256.
Proof.
  intros Hb Hk.
  assert (H : forall b, 0 <= b < Z.of_nat 256 -> forallb (fun k =>
    (0 <=? Z.land b (as_u8 (1 ≪ k) - 1)) && (Z.land b (as_u8 (1 ≪ k) - 1) <? 256))
    [0; 1; 2; 3; 4; 5; 6; 7; 8] = true) by byte_cases 256%nat.
  specialize (H b Hb). rewrite forallb_forall in H. specialize (H k ltac:(simpl; lia)).
  zbool. lia.
Qed.

Lemma Forall_copy_at off src dst :
  Forall is_byte src -> Forall is_byte dst -> Forall is_byte (copy_at off src dst).
Proof.
  intros Hs Hd. unfold copy_at. rewrite !Forall_app.
  split_and!; [by apply Forall_take|done|by apply Forall_drop].
Qed.

Lemma read_varint_safe : safe read_varint (fun v => in_u32 v).
Proof.
  eapply safe_bind; [by apply safe_read_exact|]. intros ? (ch & -> & Hch)%bytes_1. look.
  destruct (INT_BYTE_EXTRA_total ch Hch) as (e & -> & He).
  apply safe_if; intros E1; [apply safe_ret; unfold is_byte in Hch; lia|].
  apply safe_if; intros E2; [apply safe_err|]. zbool.
  eapply safe_bind; [apply safe_read_exact; lia|]. intros got [Hg Hl]. apply safe_ret.
  assert (Hc : Forall is_byte (copy_at 0 got [0; 0; 0; 0])).
  { apply Forall_copy_at; [done|]. repeat constructor; done. }
  assert (Hlen : length (copy_at 0 got [0; 0; 0; 0]) = 4%nat).
  { unfold copy_at. rewrite !length_app, length_take, length_drop. simpl. lia. }
  change (2 ^ 32) with (2 ^ (8 * Z.of_nat 4)). rewrite <- Hlen.
  destruct (e <? 4) eqn:E3; [|by apply le_val_bound]. zbool.
  rewrite <- (length_insert _ (Z.to_nat e) (Z.land ch (as_u8 (1 ≪ (7 - e + 1)) - 1))).
  apply le_val_bound. apply Forall_insert; [done|]. apply land_low_byte; [done|lia].
Qed.

Lemma read_varlong_safe m : (1 <= m <= 8)%nat -> safe (read_varlong m) (fun v => in_i64 v).
Proof.
  intros Hm. unfold read_varlong.
  destruct (Nat.leb_spec 1 m); [|lia]. destruct (Nat.leb_spec m 8); [|lia]. cbn [negb andb].
  eapply safe_bind; [apply safe_read_exact; lia|]. intros got [Hg Hl].
  assert (Hb : is_byte (copy_at 0 got (replicate 8 0) !!! 0%nat)).
  { destruct got as [|g got]; [simpl in Hl; lia|]. by inversion Hg. }
  destruct (INT_BYTE_EXTRA_total _ Hb) as (e & -> & He).
  assert (R : forall l, in_i64 (as_i64 (le_val l))) by (intros; apply (swrap_range 64); lia).
  apply safe_if; intros E1; [|by apply safe_ret].
  apply safe_if; intros E2; [apply safe_err|]. zbool.
  eapply safe_bind; [apply safe_read_exact; lia|]. intros got2 _. by apply safe_ret.
Qed.

Lemma read_varint30_safe codec : safe (read_varint30 codec) (fun v => in_u32 v).
Proof.
  destruct codec; [|apply read_varint_safe]. eapply safe_bind; [apply read_int_safe|].
  intros v _. apply safe_ret. apply (wrap_range 32). lia.
Qed.

Lemma read_varlong30_safe m codec :
  (1 <= m <= 8)%nat -> safe (read_varlong30 m codec) (fun v => in_i64 v).
Proof. destruct codec; [intros; apply read_longint_safe|apply read_varlong_safe]. Qed.

#[export] Hint Resolve read_int_safe read_shortint_safe read_byte_safe read_longint_safe
  read_varint_safe read_varlong_safe read_varint30_safe read_varlong30_safe : wire.

(** Every primitive takes at least one byte. *)
Lemma read_byte_takes : takes 1 read_byte.
Proof. apply takes_bind; [apply (takes_exact 1)|auto with takes]. Qed.
Lemma read_int_takes : takes 1 read_int.
Proof. apply takes_bind; [|auto with takes]. intros i a k H. apply (takes_exact 4) in H. lia. Qed.
Lemma read_varint_takes : takes 1 read_varint.
Proof. apply takes_bind; [apply (takes_exact 1)|]. intros buf. solve_takes. Qed.
Lemma read_varint30_takes codec : takes 1 (read_varint30 codec).
Proof.
  destruct codec; [|apply read_varint_takes]. apply takes_bind; [apply read_int_takes|auto with takes].
Qed.
#[export] Hint Extern 1 (takes 0 read_byte) => exact (takes_weaken _ _ read_byte_takes) : takes.
#[export] Hint Extern 1 (takes 0 read_int) => exact (takes_weaken _ _ read_int_takes) : takes.
#[export] Hint Extern 1 (takes 0 read_varint) => exact (takes_weaken _ _ read_varint_takes) : takes.
#[export] Hint Extern 1 (takes 0 (read_varint30 _)) => exact (takes_weaken _ _ (read_varint30_takes _)) : takes.
Lemma read_varlong30_takes m codec : takes 0 (read_varlong30 m codec).
Proof. destruct codec; unfold read_varlong30, read_longint, read_varlong; solve_takes. Qed.
Lemma read_varlong_takes m : takes 0 (read_varlong m).
Proof. apply (read_varlong30_takes m Compact). Qed.
#[export] Hint Resolve read_varlong30_takes read_varlong_takes : takes.
Lemma read_ndx_takes st codec : takes 1 (read_ndx st codec).
Proof.
  unfold read_ndx. case_bool_decide.
  - apply takes_bind; [apply read_int_takes|]. intros. solve_takes.
  - apply takes_bind; [apply (takes_exact 1)|]. intros. solve_takes.
Qed.
Lemma read_ndx_safe st codec : safe (read_ndx st codec) (fun _ => True).
Proof.
  assert (H : forall n (f : list Z -> Z), 0 <= n -> safe (b ← read_exact n; mret (f b)) (fun _ => True)).
  { intros n f Hn. eapply safe_bind; [by apply safe_read_exact|]. intros. by apply safe_ret. }
  unfold read_ndx. apply safe_if; intros _.
  { eapply safe_bind; [apply read_int_safe|]. intros. by apply safe_ret. }
  eapply safe_bind; [by apply safe_read_exact|]. intros b _. cbv zeta. apply safe_if; intros _; [by apply safe_ret|].
  eapply (safe_bind _ _ (fun _ => True)); [apply safe_if; intros _; [by apply H|by apply safe_ret]|]. intros v _.
  eapply (safe_bind _ _ (fun _ => True)); [|intros; apply safe_if; intros _; by apply safe_ret].
  apply safe_if; intros _; [|by apply safe_ret]. eapply safe_bind; [by apply safe_read_exact|]. intros b2 _.
  apply safe_if; intros _; [|by apply safe_ret]. eapply safe_bind; [by apply safe_read_exact|]. intros. by apply safe_ret.
Qed.

Lemma write_ndxs_mirrors l st codec :
  ndx_state_ok st -> Forall (fun ndx => - 2 ^ 31 < ndx < 2 ^ 31) l ->
  mirrors (write_ndxs l st codec) (read_ndxs (length l) st codec)
    (fun st1 '(l', st2) => l' = l /\ st1 = st2).
Proof.
  intros Hst Hl. revert st Hst. induction Hl as [|ndx l Hn Hl IH]; intros st Hst.
  - by apply mirrors_ret.
  - eapply mirrors_bind; [by apply write_ndx_mirrors|]. intros st1 [v st2] (-> & <- & Hok).
    apply mirrors_map. eapply mirrors_mono; [by apply IH|].
    intros st3 [l' st4] [-> ->]. done.
Qed.

Lemma write_varint_length x :
  exists bs, write_varint x = (Ok tt, bs) /\ (1 <= length bs <= 5)%nat.
Proof.
  unfold write_varint. set (b := 0 :: le_bytes 4 x).
  assert (Hb : length b = 5%nat) by (subst b; cbn [length]; by rewrite length_le_bytes).
  repeat split_if; (eexists; split; [reflexivity|]);
    rewrite length_take, ?length_insert, ?Hb; try lia.
  destruct (highest_nonzero_spec b 1 4 ltac:(lia)) as [? _]. lia.
Qed.

(** ** Properties *)

(** The compact variable-length integer round-trips: for every [u32],
    [write_varint] emits between one and five bytes, and [read_varint] on those
    bytes, whatever follows them, consumes exactly them and returns the value. *)
Theorem varint_roundtrip x k :
  in_u32 x ->
  exists bs, write_varint x = (Ok tt, bs) /\ (1 <= length bs <= 5)%nat /\
    read_varint (bs ++ k) = Ok (x, k).
Proof.
  intros Hx. destruct (write_varint_length x) as (bs & Hw & Hl). exists bs. split_and!; [done|lia..|].
  destruct (mirrors_run _ _ _ bs tt k (write_varint_mirrors x Hx) Hw) as (b & -> & ->). done.
Qed.

Lemma varint_roundtrip_witness :
  in_u32 300000 /\
  exists bs, write_varint 300000 = (Ok tt, bs) /\ (1 <= length bs <= 5)%nat /\
    read_varint (bs ++ [7]) = Ok (300000, [7]).
Proof. split; [lia|]. apply (varint_roundtrip 300000 [7]). lia. Defined.



(** File-list indices: any run of indices other than [i32::MIN], positive,
    negative or [NDX_DONE], written from a synchronised state with either codec
    reads back as the same run, and leaves reader and writer with the same
    state again, ready for the next index. *)
Theorem ndx_run_roundtrip l st codec k :
  ndx_state_ok st -> Forall (fun ndx => - 2 ^ 31 < ndx < 2 ^ 31) l ->
  exists bs st', write_ndxs l st codec = (Ok st', bs) /\
    read_ndxs (length l) st codec (bs ++ k) = Ok ((l, st'), k).
Proof.
  intros Hst Hl.
  destruct (write_ndxs_mirrors l st codec Hst Hl) as (st' & [l' st2] & bs & Hw & Hr & [-> ->]).
  exists bs, st2. by rewrite Hr.
Qed.

Lemma ndx_run_roundtrip_witness :
  ndx_state_ok NdxState_default /\ Forall (fun ndx => - 2 ^ 31 < ndx < 2 ^ 31) [5; -1; 70000; -101; 6] /\
  exists bs st', write_ndxs [5; -1; 70000; -101; 6] NdxState_default Compact = (Ok st', bs) /\
    read_ndxs 5 NdxState_default Compact (bs ++ [9]) = Ok (([5; -1; 70000; -101; 6], st'), [9]).
Proof.
  split; [unfold ndx_state_ok; simpl; lia|]. split; [repeat constructor; lia|].
  apply (ndx_run_roundtrip [5; -1; 70000; -101; 6] NdxState_default Compact [9]).
  - unfold ndx_state_ok; simpl; lia.
  - repeat constructor; lia.
Defined.


