(* ===== verification/Multiplex.v ===== *)
(** Multiplexed I/O ([ferrosync-protocol/src/multiplex.rs]): frames, the
    message reader and writer, the staging-buffer demultiplexer behind
    [MuxConnection] and [BufferedMplexReader], and the channel demultiplexer.

    An [AsyncRead] poll is a function of the object's state and of what the
    transport answers to that poll; trace output is not modelled, except that
    [handle_control_message] records the message it was given. *)
From S2P Require Import Prelude Wire Types Utf8.

(** ** Message codes *)

Definition MAX_PAYLOAD : Z := 0x00FFFFFF.

Inductive MsgCode :=
  | Data | ErrorXfer | Info | Error | Warning | ErrorSocket | Log | Client | ErrorUtf8
  | Redo | Stats | IoError | IoTimeout | Noop | ErrorExit | Success | Deleted | NoSend.
#[export] Instance MsgCode_eq_dec : EqDecision MsgCode.
Proof. solve_decision. Defined.

(** The [repr(u8)] discriminants. *)
Definition MsgCode_u8 (c : MsgCode) : Z :=
  match c with
  | Data => 0 | ErrorXfer => 1 | Info => 2 | Error => 3 | Warning => 4 | ErrorSocket => 5
  | Log => 6 | Client => 7 | ErrorUtf8 => 8 | Redo => 9 | Stats => 10 | IoError => 22
  | IoTimeout => 33 | Noop => 42 | ErrorExit => 86 | Success => 100 | Deleted => 101
  | NoSend => 102
  end.

Definition from_tag (tag : Z) : result MsgCode :=
  if tag =? 0 then Ok Data
  else if tag =? 1 then Ok ErrorXfer
  else if tag =? 2 then Ok Info
  else if tag =? 3 then Ok Error
  else if tag =? 4 then Ok Warning
  else if tag =? 5 then Ok ErrorSocket
  else if tag =? 6 then Ok Log
  else if tag =? 7 then Ok Client
  else if tag =? 8 then Ok ErrorUtf8
  else if tag =? 9 then Ok Redo
  else if tag =? 10 then Ok Stats
  else if tag =? 22 then Ok IoError
  else if tag =? 33 then Ok IoTimeout
  else if tag =? 42 then Ok Noop
  else if tag =? 86 then Ok ErrorExit
  else if tag =? 100 then Ok Success
  else if tag =? 101 then Ok Deleted
  else if tag =? 102 then Ok NoSend
  else Err (UnexpectedMessageType tag).

(** Texts are the UTF-8 bytes of the Rust [String]. *)
Inductive MplexMessage :=
  | MData (b : list Z)
  | MInfo (text : list Z)
  | MError (code : MsgCode) (text : list Z)
  | MWarning (text : list Z)
  | MLog (text : list Z)
  | MRedo (idx : Z)
  | MSuccess (text : list Z)
  | MDeleted (text : list Z)
  | MNoSend (text : list Z)
  | MIoError (flags : Z)
  | MIoTimeout (t : Z)
  | MStats (b : list Z)
  | MNoop
  | MErrorExit (b : list Z).

(** ** Reader *)

Definition read_text (len : Z) : rd (list Z) :=
  buf ← read_exact len; mret (from_utf8_lossy buf).
Definition read_i32 : rd Z := buf ← read_exact 4; mret (as_i32 (le_val buf)).

Definition read_message : rd MplexMessage :=
  hdr ← read_exact 4;
  let raw := le_val hdr in
  let payload_len := Z.land raw MAX_PAYLOAD in
  let tag_byte := as_u8 (raw ≫ 24) in
  if tag_byte <? MPLEX_BASE then rd_err (InvalidMplexTag tag_byte)
  else
    code ← rd_lift (from_tag (tag_byte - MPLEX_BASE));
    match code with
    | Data => buf ← read_exact payload_len; mret (MData buf)
    | Info => text ← read_text payload_len; mret (MInfo text)
    | Warning => text ← read_text payload_len; mret (MWarning text)
    | Error | ErrorXfer | ErrorSocket | ErrorUtf8 =>
        text ← read_text payload_len; mret (MError code text)
    | Log | Client => text ← read_text payload_len; mret (MLog text)
    | Redo => i ← read_i32; mret (MRedo i)
    | Success => text ← read_text payload_len; mret (MSuccess text)
    | Deleted => text ← read_text payload_len; mret (MDeleted text)
    | NoSend => text ← read_text payload_len; mret (MNoSend text)
    | IoError => i ← read_i32; mret (MIoError i)
    | IoTimeout => i ← read_i32; mret (MIoTimeout i)
    | Stats => buf ← read_exact payload_len; mret (MStats buf)
    | Noop => mret MNoop
    | ErrorExit => buf ← read_exact payload_len; mret (MErrorExit buf)
    end.

(** [MplexReader]'s own state; [inner] is the byte stream it reads. *)
Record MplexReader := mkMplexReader {
  mr_inner : list Z;
  buffered_data : option (list Z);
  buffered_offset : nat;
}.

Definition MplexReader_new (inner : list Z) : MplexReader := mkMplexReader inner None 0.

(** [read_data] with a caller's buffer of [blen] bytes: the bytes copied, the
    control messages passed to the callback, the reader afterwards.  One round
    of the loop per unit of fuel; [None] when the fuel runs out. *)
Fixpoint read_data (fuel blen : nat) (r : MplexReader)
    : option (result (list Z * list MplexMessage * MplexReader)) :=
  match fuel with
  | O => None
  | S fuel' =>
      match buffered_data r with
      | Some data =>
          let remaining := (length data - buffered_offset r)%nat in
          let to_copy := (blen `min` remaining)%nat in
          let copied := take to_copy (drop (buffered_offset r) data) in
          let off := (buffered_offset r + to_copy)%nat in
          Some (Ok (copied, [],
            if (length data <=? off)%nat then mkMplexReader (mr_inner r) None 0
            else mkMplexReader (mr_inner r) (Some data) off))
      | None =>
          match read_message (mr_inner r) with
          | Ok (MData data, inner) =>
              let to_copy := (blen `min` length data)%nat in
              Some (Ok (take to_copy data, [],
                if (to_copy <? length data)%nat
                then mkMplexReader inner (Some data) to_copy
                else mkMplexReader inner None (buffered_offset r)))
          | Ok (ctrl, inner) =>
              match read_data fuel' blen (mkMplexReader inner None (buffered_offset r)) with
              | Some (Ok (b, cs, r')) => Some (Ok (b, ctrl :: cs, r'))
              | other => other
              end
          | Err e => Some (Err e)
          | Panic => Some Panic
          end
      end
  end.

(** ** Writer *)

Definition write_message (code : MsgCode) (payload : list Z) : wr unit :=
  let len := as_u32 (Z.of_nat (length payload)) in
  if MAX_PAYLOAD <? len then wr_err (FrameTooLarge len MAX_PAYLOAD)
  else
    let tag := as_u8 (MPLEX_BASE + MsgCode_u8 code) in
    let hdr := Z.lor (as_u32 (tag ≪ 24)) len in
    _ ← write_all (le_bytes 4 hdr);
    if negb (bool_decide (payload = [])) then write_all payload else mret tt.

Definition write_data (data : list Z) : wr unit :=
  wr_each (write_message Data) (chunks (Z.to_nat DATA_CHUNK_SIZE) data).

Definition write_index (code : MsgCode) (idx : Z) : wr unit :=
  write_message code (le_bytes 4 idx).
Definition write_info (text : list Z) : wr unit := write_message Info text.
Definition write_error (text : list Z) : wr unit := write_message Error text.

(** ** Shared frame parsing *)

(** The two texts [String::from_utf8_lossy(payload)] and slices of it. *)
Definition decode_control_message (code : Z) (payload : list Z) : MplexMessage :=
  match from_tag code with
  | Ok Info => MInfo (from_utf8_lossy payload)
  | Ok Warning => MWarning (from_utf8_lossy payload)
  | Ok ((Error | ErrorXfer | ErrorSocket | ErrorUtf8) as c) => MError c (from_utf8_lossy payload)
  | Ok (Log | Client) => MLog (from_utf8_lossy payload)
  | Ok Redo =>
      if (4 <=? length payload)%nat then MRedo (as_i32 (le_val (take 4 payload))) else MNoop
  | Ok Success => MSuccess (from_utf8_lossy payload)
  | Ok Deleted => MDeleted (from_utf8_lossy payload)
  | Ok NoSend => MNoSend (from_utf8_lossy payload)
  | Ok IoError =>
      if (4 <=? length payload)%nat then MIoError (as_i32 (le_val (take 4 payload))) else MNoop
  | Ok IoTimeout =>
      if (4 <=? length payload)%nat then MIoTimeout (as_i32 (le_val (take 4 payload))) else MNoop
  | Ok Stats => MStats payload
  | Ok Noop => MNoop
  | Ok ErrorExit => MErrorExit payload
  | _ => MNoop
  end.

(** Messages handed to [handle_control_message], in order. *)
Definition handle_control_message (msg : MplexMessage) (log : list MplexMessage)
    : list MplexMessage := log ++ [msg].

(** One round of the loop: [None] is [break]; otherwise the rest of the staging
    buffer, with [read_buf] and the log extended. *)
Definition parse_round (staging : list Z) (read_buf : list (list Z)) (log : list MplexMessage)
    : option (list Z * list (list Z) * list MplexMessage) :=
  if (length staging <? 4)%nat then None
  else
    let header := le_val (take 4 staging) in
    let tag_byte := as_u8 (header ≫ 24) in
    let payload_len := Z.to_nat (Z.land header MAX_PAYLOAD) in
    if (length staging <? 4 + payload_len)%nat then None
    else if tag_byte <? MPLEX_BASE then
      Some (drop (4 + payload_len) staging, read_buf, log)
    else
      let staging := drop 4 staging in
      let payload := take payload_len staging in
      let staging := drop payload_len staging in
      let code := tag_byte - MPLEX_BASE in
      if code =? 0 then Some (staging, read_buf ++ [payload], log)
      else Some (staging, read_buf, handle_control_message (decode_control_message code payload) log).

(** A round that does not break removes at least four bytes, so
    [length staging] rounds are enough. *)
Fixpoint parse_loop (fuel : nat) (staging : list Z) (read_buf : list (list Z))
    (log : list MplexMessage) : list Z * list (list Z) * list MplexMessage :=
  match fuel with
  | O => (staging, read_buf, log)
  | S fuel' =>
      match parse_round staging read_buf log with
      | None => (staging, read_buf, log)
      | Some (s, q, g) => parse_loop fuel' s q g
      end
  end.

Definition parse_frames_from_staging (staging : list Z) (read_buf : list (list Z))
    (log : list MplexMessage) : list Z * list (list Z) * list MplexMessage :=
  parse_loop (length staging) staging read_buf log.

(** ** Connection-driven reading

    The reading half of [MuxConnection] and the whole of [BufferedMplexReader]:
    the two types hold the same four fields and their [poll_read] bodies are the
    same, so one state serves both, and [into_split] / [from_split] move it. *)

Record MuxReader := mkMuxReader {
  staging : list Z;
  read_buf : list (list Z);
  current : option (list Z);
  offset : nat;
  control_log : list MplexMessage;
}.

Definition MuxConnection_new : MuxReader := mkMuxReader [] [] None 0 [].

(** What the transport answers when it is polled. *)
Inductive transport_poll :=
  | TReady (bytes : list Z)
  | TError
  | TPending.

(** What [poll_read] answers: the bytes put into the caller's buffer. *)
Inductive read_poll :=
  | PReady (bytes : list Z)
  | PError
  | PPending.

Definition parse_buffered_frames (st : MuxReader) : MuxReader :=
  let '(s, q, g) := parse_frames_from_staging (staging st) (read_buf st) (control_log st) in
  mkMuxReader s q (current st) (offset st) g.

Definition serve_chunk (data : list Z) (remaining : nat) (st : MuxReader) : read_poll * MuxReader :=
  let n := (length data `min` remaining)%nat in
  (PReady (take n data),
   if (n <? length data)%nat
   then mkMuxReader (staging st) (read_buf st) (Some data) n (control_log st)
   else st).

(** [if let Some(data) = read_buf.pop_front() { return serve_chunk(..) }] *)
Definition pop_and_serve (remaining : nat) (st : MuxReader) : option (read_poll * MuxReader) :=
  match read_buf st with
  | [] => None
  | data :: q =>
      Some (serve_chunk data remaining
              (mkMuxReader (staging st) q (current st) (offset st) (control_log st)))
  end.

Definition poll_read (remaining : nat) (ev : transport_poll) (st : MuxReader)
    : read_poll * MuxReader :=
  if (remaining =? 0)%nat then (PReady [], st)
  else
    match current st with
    | Some data =>
        let n := ((length data - offset st) `min` remaining)%nat in
        let off := (offset st + n)%nat in
        (PReady (take n (drop (offset st) data)),
         if (length data <=? off)%nat
         then mkMuxReader (staging st) (read_buf st) None 0 (control_log st)
         else mkMuxReader (staging st) (read_buf st) (Some data) off (control_log st))
    | None =>
        let st := parse_buffered_frames st in
        match pop_and_serve remaining st with
        | Some answer => answer
        | None =>
            match ev with
            | TReady [] => (PReady [], st)
            | TReady bytes =>
                let st := mkMuxReader (staging st ++ bytes) (read_buf st) (current st)
                            (offset st) (control_log st) in
                let st := parse_buffered_frames st in
                match pop_and_serve remaining st with
                | Some answer => answer
                | None => (PPending, st)
                end
            | TError => (PError, st)
            | TPending => (PPending, st)
            end
        end
    end.

(** [BufferedMplexReader]'s own copy of the body. *)
Definition buffered_poll_read : nat -> transport_poll -> MuxReader -> read_poll * MuxReader := poll_read.

(** What [flush] does to the reading half: the reads that complete before the
    flush does, in order. *)
Definition flush_read (ev : transport_poll) (st : MuxReader) : MuxReader :=
  match ev with
  | TReady [] => st
  | TReady bytes =>
      let '(s, q, g) :=
        parse_frames_from_staging (staging st ++ bytes) (read_buf st) (control_log st) in
      mkMuxReader s q (current st) (offset st) g
  | TError | TPending => st
  end.
Definition flush (reads : list transport_poll) (st : MuxReader) : MuxReader :=
  foldl (fun st ev => flush_read ev st) (parse_buffered_frames st) reads.

(** [MuxConnection] around any writer [W]. *)
Record MuxConnection (W : Type) := mkMuxConnection {
  mc_reader : MuxReader;
  mc_writer : W;
}.
Arguments mkMuxConnection {W} _ _.
Arguments mc_reader {W} _.
Arguments mc_writer {W} _.
Definition into_split {W} (c : MuxConnection W) : MuxReader * W := (mc_reader c, mc_writer c).
Definition from_split {W} (reader : MuxReader) (writer : W) : MuxConnection W :=
  mkMuxConnection reader writer.

(** ** Channel demultiplexer *)

(** [demux_channel_task]: the payloads it sends and the control messages it
    handles, until the stream fails.  [receiver_alive] bounds the sends that
    succeed before the receiving end is dropped. *)
Fixpoint demux_channel_task (fuel receiver_alive : nat) (i : list Z)
    : list (list Z) * list MplexMessage :=
  match fuel with
  | O => ([], [])
  | S fuel' =>
      match read_message i with
      | Ok (MData data, i') =>
          match receiver_alive with
          | O => ([], [])
          | S alive' =>
              let '(sent, log) := demux_channel_task fuel' alive' i' in (data :: sent, log)
          end
      | Ok (msg, i') =>
          let '(sent, log) := demux_channel_task fuel' receiver_alive i' in (sent, msg :: log)
      | _ => ([], [])
      end
  end.

Record ChannelReader := mkChannelReader {
  ch_current : option (list Z);
  ch_offset : nat;
}.
Definition ChannelReader_new : ChannelReader := mkChannelReader None 0.

(** What [poll_recv] answers; [RClosed] is [Ready(None)]. *)
Inductive recv_poll :=
  | RReady (data : list Z)
  | RClosed
  | RPending.

Definition channel_serve (data : list Z) (off remaining : nat) : read_poll * ChannelReader :=
  let n := ((length data - off) `min` remaining)%nat in
  (PReady (take n (drop off data)),
   if (length data <=? off + n)%nat then mkChannelReader None 0
   else mkChannelReader (Some data) (off + n)).

(** A received chunk becomes [current] and the loop goes back to serve it. *)
Definition channel_poll_read (remaining : nat) (ev : recv_poll) (st : ChannelReader)
    : read_poll * ChannelReader :=
  if (remaining =? 0)%nat then (PReady [], st)
  else
    match ch_current st with
    | Some data => channel_serve data (ch_offset st) remaining
    | None =>
        match ev with
        | RReady data => channel_serve data 0 remaining
        | RClosed => (PReady [], st)
        | RPending => (PPending, st)
        end
    end.

(** ** Vocabulary of the statements *)

(** The bytes [write_message] puts on the wire for a frame. *)
Definition frame (f : MsgCode * list Z) : list Z := (write_message f.1 f.2).2.

(** Frames both decoders read the same way: the fixed-size control payloads
    have four bytes and a keep-alive has none. *)
Definition frame_ok (f : MsgCode * list Z) : Prop :=
  Z.of_nat (length f.2) <= MAX_PAYLOAD /\ Forall is_byte f.2 /\
  match f.1 with
  | Redo | IoError | IoTimeout => length f.2 = 4%nat
  | Noop => f.2 = []
  | _ => True
  end.

(** What a frame says. *)
Definition message_of (f : MsgCode * list Z) : MplexMessage :=
  match f.1 with
  | Data => MData f.2
  | c => decode_control_message (MsgCode_u8 c) f.2
  end.

Definition data_frames (fs : list (MsgCode * list Z)) : list (list Z) :=
  omap (fun f => if bool_decide (f.1 = Data) then Some f.2 else None) fs.
Definition control_messages (fs : list (MsgCode * list Z)) : list MplexMessage :=
  omap (fun f => if bool_decide (f.1 = Data) then None else Some (message_of f)) fs.

(** The DATA payloads of a raw byte string, and the bytes of an incomplete last frame. *)
Definition payloads (s : list Z) : list (list Z) := (parse_frames_from_staging s [] []).1.2.
Definition leftover (s : list Z) : list Z := (parse_frames_from_staging s [] []).1.1.

(** What a connection has accepted from the transport and not served yet. *)
Definition pending (st : MuxReader) : list Z :=
  match current st with Some d => drop (offset st) d | None => [] end
  ++ concat (read_buf st) ++ concat (payloads (staging st)).

Definition served (p : read_poll) : list Z :=
  match p with PReady b => b | _ => [] end.

(** The bytes a poll takes from the transport: it reads only when it has
    nothing to serve. *)
Definition accepted (remaining : nat) (ev : transport_poll) (st : MuxReader) : list Z :=
  if (remaining =? 0)%nat then []
  else match current st, read_buf (parse_buffered_frames st), ev with
       | None, [], TReady bytes => bytes
       | _, _, _ => []
       end.

(** What a reading half goes through: polls by its consumer, and reads that
    complete while the writing half flushes. *)
Inductive mux_step :=
  | SPoll (remaining : nat) (ev : transport_poll)
  | SFlush (reads : list transport_poll).

Definition flush_accepted (reads : list transport_poll) : list Z :=
  concat (map (fun ev => match ev with TReady b => b | _ => [] end) reads).

(** A run of steps: the bytes served, the bytes accepted, the state reached. *)
Fixpoint mux_run (steps : list mux_step) (st : MuxReader) : list Z * list Z * MuxReader :=
  match steps with
  | [] => ([], [], st)
  | SPoll cap ev :: steps' =>
      let '(p, st1) := poll_read cap ev st in
      let '(out, acc, st2) := mux_run steps' st1 in
      (served p ++ out, accepted cap ev st ++ acc, st2)
  | SFlush reads :: steps' =>
      let '(out, acc, st2) := mux_run steps' (flush reads st) in
      (out, flush_accepted reads ++ acc, st2)
  end.

(** [offset] points into [current]. *)
Definition mux_ok (st : MuxReader) : Prop :=
  match current st with Some d => (offset st < length d)%nat | None => offset st = 0%nat end.

(** No payload waiting to be served is empty. *)
Definition no_empty_payload (st : MuxReader) : Prop :=
  Forall (fun d => d <> []) (read_buf st ++ payloads (staging st)).

(** ** Frames *)

Lemma from_tag_u8 c : from_tag (MsgCode_u8 c) = Ok c.
Proof. by destruct c. Qed.

Lemma MsgCode_u8_bound c : 0 <= MsgCode_u8 c <= 102.
Proof. destruct c; simpl; lia. Qed.

Lemma frame_header t len :
  0 <= t < 256 -> 0 <= len <= MAX_PAYLOAD ->
  let h := le_val (le_bytes 4 (Z.lor (as_u32 (t ≪ 24)) len)) in
  Z.land h MAX_PAYLOAD = len /\ as_u8 (h ≫ 24) = t.
Proof.
  intros Ht Hl. unfold MAX_PAYLOAD in *.
  rewrite Z.shiftl_mul_pow2, (wrap_id 32) by lia.
  rewrite (lor_disjoint _ _ 24 t) by lia. cbv zeta.
  rewrite le_val_le_bytes. change (2 ^ (8 * Z.of_nat 4)) with (2 ^ 32).
  rewrite Z.mod_small by lia. change 0x00FFFFFF with (Z.ones 24).
  rewrite Z.land_ones, Z.shiftr_div_pow2 by lia. split; [zlia|].
  rewrite wrap_id; zlia.
Qed.

Lemma write_message_frame c payload :
  Z.of_nat (length payload) <= MAX_PAYLOAD ->
  write_message c payload = (Ok tt,
    le_bytes 4 (Z.lor (as_u32 (as_u8 (MPLEX_BASE + MsgCode_u8 c) ≪ 24))
      (as_u32 (Z.of_nat (length payload)))) ++ payload).
Proof.
  intros Hl. unfold write_message. unfold MAX_PAYLOAD in *. rewrite (wrap_id 32 (Z.of_nat _)) by lia.
  destruct (Z.ltb_spec 0xFFFFFF (Z.of_nat (length payload))); [lia|].
  unfold mbind, wr_bind. cbn [write_all]. destruct (decide (payload = [])) as [->|Hn].
  - done.
  - by rewrite bool_decide_eq_false_2.
Qed.

Lemma frame_shape f :
  Z.of_nat (length f.2) <= MAX_PAYLOAD ->
  exists hdr, frame f = hdr ++ f.2 /\ length hdr = 4%nat /\ Forall is_byte hdr /\
    Z.land (le_val hdr) MAX_PAYLOAD = Z.of_nat (length f.2) /\
    as_u8 (le_val hdr ≫ 24) = MPLEX_BASE + MsgCode_u8 f.1.
Proof.
  intros Hl. unfold frame. rewrite write_message_frame by done.
  eexists. split_and!; [done|apply length_le_bytes|apply le_bytes_bytes|..].
  all: pose proof (MsgCode_u8_bound f.1); unfold MPLEX_BASE;
    rewrite (wrap_id 8 (7 + _)), (wrap_id 32 (Z.of_nat _)) by (unfold MAX_PAYLOAD in *; lia);
    apply frame_header; lia.
Qed.

Lemma read_message_header hdr k :
  length hdr = 4%nat -> forall t, as_u8 (le_val hdr ≫ 24) = MPLEX_BASE + MsgCode_u8 t ->
  forall n, Z.land (le_val hdr) MAX_PAYLOAD = n ->
  read_message (hdr ++ k) =
  match t with
    | Data => (buf ← read_exact n; mret (MData buf)) k
    | Info => (text ← read_text n; mret (MInfo text)) k
    | Warning => (text ← read_text n; mret (MWarning text)) k
    | Error | ErrorXfer | ErrorSocket | ErrorUtf8 =>
        (text ← read_text n; mret (MError t text)) k
    | Log | Client => (text ← read_text n; mret (MLog text)) k
    | Redo => (i ← read_i32; mret (MRedo i)) k
    | Success => (text ← read_text n; mret (MSuccess text)) k
    | Deleted => (text ← read_text n; mret (MDeleted text)) k
    | NoSend => (text ← read_text n; mret (MNoSend text)) k
    | IoError => (i ← read_i32; mret (MIoError i)) k
    | IoTimeout => (i ← read_i32; mret (MIoTimeout i)) k
    | Stats => (buf ← read_exact n; mret (MStats buf)) k
    | Noop => Ok (MNoop, k)
    | ErrorExit => (buf ← read_exact n; mret (MErrorExit buf)) k
    end.
Proof.
  intros Hl t Ht n Hn. unfold read_message.
  rewrite (rd_bind_run _ _ _ hdr k) by (apply read_exact_app; lia). cbv zeta. rewrite Ht, Hn.
  pose proof (MsgCode_u8_bound t). unfold MPLEX_BASE.
  destruct (Z.ltb_spec (7 + MsgCode_u8 t) 7); [lia|].
  replace (7 + MsgCode_u8 t - 7) with (MsgCode_u8 t) by lia. rewrite from_tag_u8.
  by destruct t.
Qed.

Lemma read_text_app buf k n :
  n = Z.of_nat (length buf) -> read_text n (buf ++ k) = Ok (from_utf8_lossy buf, k).
Proof. intros Hn. unfold read_text. by erewrite rd_bind_run by by apply read_exact_app. Qed.

Lemma read_i32_app buf k :
  length buf = 4%nat -> read_i32 (buf ++ k) = Ok (as_i32 (le_val buf), k).
Proof. intros Hn. unfold read_i32. erewrite rd_bind_run; [done|]. apply read_exact_app. lia. Qed.

Lemma read_message_frame f k :
  frame_ok f -> read_message (frame f ++ k) = Ok (message_of f, k).
Proof.
  intros (Hl & Hb & Hc). destruct (frame_shape f Hl) as (hdr & -> & Hlen & _ & Hn & Ht).
  rewrite <- app_assoc. rewrite (read_message_header _ _ Hlen _ Ht _ Hn).
  destruct f as [c p]. cbn [fst snd] in *. unfold message_of, decode_control_message.
  destruct c; cbn [fst snd MsgCode_u8]; cbn [from_tag Z.eqb Pos.eqb];
    try (by erewrite rd_bind_run by (apply read_text_app; reflexivity));
    try (by erewrite rd_bind_run by (apply read_exact_app; reflexivity));
    try (subst p; done);
    rewrite Hc, take_ge by lia; by erewrite rd_bind_run by by apply read_i32_app.
Qed.

(** ** The parsing loop *)

Lemma parse_round_progress s q g s' q' g' :
  parse_round s q g = Some (s', q', g') -> (length s' + 4 <= length s)%nat.
Proof.
  unfold parse_round. repeat split_if; intros; simplify_eq; zbool;
    rewrite ?length_drop in *; lia.
Qed.

(** The two accumulators are only ever extended. *)
Lemma parse_round_acc s q g :
  parse_round s q g =
  match parse_round s [] [] with
  | None => None
  | Some (s', q', g') => Some (s', q ++ q', g ++ g')
  end.
Proof. unfold parse_round. repeat split_if; cbn [app]; rewrite ?app_nil_r; done. Qed.

Lemma parse_loop_fuel n m s q g :
  (length s <= n)%nat -> (length s <= m)%nat -> parse_loop n s q g = parse_loop m s q g.
Proof.
  revert m s q g. induction n as [|n IH]; intros [|m] s q g Hn Hm; [done|..].
  - destruct s; [done|simpl in Hn; lia].
  - destruct s; [done|simpl in Hm; lia].
  - cbn [parse_loop]. destruct (parse_round s q g) as [[[s' q'] g']|] eqn:E; [|done].
    apply parse_round_progress in E. apply IH; lia.
Qed.

Lemma parse_unfold s q g :
  parse_frames_from_staging s q g =
  match parse_round s q g with
  | None => (s, q, g)
  | Some (s', q', g') => parse_frames_from_staging s' q' g'
  end.
Proof.
  unfold parse_frames_from_staging. rewrite (parse_loop_fuel _ (S (length s))) by lia.
  cbn [parse_loop]. destruct (parse_round s q g) as [[[s' q'] g']|] eqn:E; [|done].
  apply parse_round_progress in E. apply parse_loop_fuel; lia.
Qed.

(** Induction on the rounds of the loop. *)
Lemma parse_ind (P : list Z -> Prop) :
  (forall s, parse_round s [] [] = None -> P s) ->
  (forall s s' q' g', parse_round s [] [] = Some (s', q', g') -> P s' -> P s) ->
  forall s, P s.
Proof.
  intros H0 H1 s. remember (length s) as n eqn:En. revert s En.
  induction (lt_wf n) as [n _ IH]. intros s ->.
  destruct (parse_round s [] []) as [[[s' q'] g']|] eqn:E; [|by apply H0].
  eapply H1; [done|]. eapply IH; [|done]. apply parse_round_progress in E. lia.
Qed.

Definition controls (s : list Z) : list MplexMessage := (parse_frames_from_staging s [] []).2.

Lemma parse_acc s q g :
  parse_frames_from_staging s q g = (leftover s, q ++ payloads s, g ++ controls s).
Proof.
  unfold leftover, payloads, controls. revert q g. induction s as [s E|s s' q' g' E IH] using parse_ind;
    intros q g; rewrite !(parse_unfold s), parse_round_acc, E.
  - by rewrite !app_nil_r.
  - rewrite (IH (q ++ q')), (IH q' g'). cbn [fst snd]. by rewrite !app_assoc.
Qed.

Lemma parse_round_app s t s' q' g' :
  parse_round s [] [] = Some (s', q', g') -> parse_round (s ++ t) [] [] = Some (s' ++ t, q', g').
Proof.
  unfold parse_round.
  destruct (length s <? 4)%nat eqn:E4; [done|]. zbool.
  assert (Ht : take 4 (s ++ t) = take 4 s) by (rewrite take_app_le; [done|lia]). rewrite Ht.
  rewrite length_app. destruct (Nat.ltb_spec (length s + length t) 4); [lia|].
  destruct (length s <? _)%nat eqn:E5; [done|]. zbool.
  destruct (Nat.ltb_spec (length s + length t)
    (4 + Z.to_nat (Z.land (le_val (take 4 s)) MAX_PAYLOAD))); [lia|].
  rewrite !drop_app_le, !take_app_le by (rewrite ?length_drop; lia).
  repeat split_if; intros; simplify_eq; done.
Qed.

(** Bytes may arrive in two pieces. *)
Lemma parse_app s t :
  payloads (s ++ t) = payloads s ++ payloads (leftover s ++ t) /\
  controls (s ++ t) = controls s ++ controls (leftover s ++ t) /\
  leftover (s ++ t) = leftover (leftover s ++ t).
Proof.
  induction s as [s E|s s' q' g' E IH] using parse_ind.
  - assert (payloads s = [] /\ controls s = [] /\ leftover s = s) as (-> & -> & ->); [|done].
    unfold payloads, controls, leftover. rewrite parse_unfold, E. done.
  - destruct IH as (Hp & Hc & Hl). revert Hp Hc Hl.
    assert (Hs : payloads s = q' ++ payloads s' /\ controls s = g' ++ controls s' /\
                 leftover s = leftover s').
    { unfold payloads, controls, leftover. rewrite (parse_unfold s), E, parse_acc. done. }
    assert (Hst : payloads (s ++ t) = q' ++ payloads (s' ++ t) /\
                  controls (s ++ t) = g' ++ controls (s' ++ t) /\
                  leftover (s ++ t) = leftover (s' ++ t)).
    { pose proof (parse_round_app s t _ _ _ E) as E'.
      unfold payloads, controls, leftover. rewrite (parse_unfold (s ++ t)), E', parse_acc. done. }
    destruct Hs as (-> & -> & ->). destruct Hst as (-> & -> & ->).
    intros -> -> ->. by rewrite !app_assoc.
Qed.

(** What is left over has no complete frame. *)
Lemma leftover_stuck s : parse_round (leftover s) [] [] = None.
Proof.
  induction s as [s E|s s' q' g' E IH] using parse_ind; unfold leftover in *;
    rewrite parse_unfold, E; [done|]. by rewrite parse_acc.
Qed.

Lemma parse_leftover s : payloads (leftover s) = [] /\ leftover (leftover s) = leftover s.
Proof.
  pose proof (leftover_stuck s) as E. unfold payloads.
  split; [|unfold leftover at 1]; by rewrite parse_unfold, E.
Qed.

Lemma payloads_nil : payloads [] = [].
Proof. done. Qed.

(** ** Parsing written frames *)

Lemma parse_round_frame f k :
  Z.of_nat (length f.2) <= MAX_PAYLOAD ->
  parse_round (frame f ++ k) [] [] =
  Some (k, data_frames [f], if bool_decide (f.1 = Data) then []
                            else [decode_control_message (MsgCode_u8 f.1) f.2]).
Proof.
  intros Hl. destruct (frame_shape f Hl) as (hdr & -> & Hlen & _ & Hn & Ht).
  unfold parse_round. rewrite <- app_assoc, take_app_length' by done.
  rewrite Hn, Ht, Nat2Z.id, !length_app, Hlen, (drop_app_length' hdr _ 4) by lia.
  rewrite take_app_length, drop_app_length.
  pose proof (MsgCode_u8_bound f.1). unfold MPLEX_BASE.
  destruct (Nat.ltb_spec (4 + (length f.2 + length k)) 4); [lia|].
  destruct (Nat.ltb_spec (4 + (length f.2 + length k)) (4 + length f.2)); [lia|].
  destruct (Z.ltb_spec (7 + MsgCode_u8 f.1) 7); [lia|].
  replace (7 + MsgCode_u8 f.1 - 7) with (MsgCode_u8 f.1) by lia.
  destruct f as [c p]. cbn [fst snd]. by destruct c.
Qed.

Lemma parse_frames fs k :
  Forall frame_ok fs ->
  payloads (concat (map frame fs) ++ k) = data_frames fs ++ payloads k /\
  controls (concat (map frame fs) ++ k) = control_messages fs ++ controls k /\
  leftover (concat (map frame fs) ++ k) = leftover k.
Proof.
  induction 1 as [|f fs Hf Hfs IH]; [done|]. cbn [map concat]. rewrite <- app_assoc.
  destruct IH as (Hp & Hc & Hl). destruct (Hf) as (Hlen & _).
  revert Hp Hc Hl. generalize (concat (map frame fs) ++ k). intros t Hp Hc Hl.
  unfold payloads, controls, leftover.
  rewrite (parse_unfold (frame f ++ t)), parse_round_frame, parse_acc by done.
  cbn [fst snd]. rewrite Hp, Hc, Hl. unfold data_frames, control_messages.
  destruct f as [c p]. cbn [omap list_omap fst snd].
  destruct c; cbn [bool_decide decide_rel app]; try done.
Qed.

(** ** Conservation of the data bytes *)

(** What the connection will have to serve once [t] has arrived as well. *)
Definition pending_with (st : MuxReader) (t : list Z) : list Z :=
  match current st with Some d => drop (offset st) d | None => [] end
  ++ concat (read_buf st) ++ concat (payloads (staging st ++ t)).

Lemma pending_with_nil st : pending_with st [] = pending st.
Proof. unfold pending_with, pending. by rewrite app_nil_r. Qed.

Lemma parse_buffered_eq st :
  parse_buffered_frames st =
  mkMuxReader (leftover (staging st)) (read_buf st ++ payloads (staging st)) (current st)
    (offset st) (control_log st ++ controls (staging st)).
Proof. unfold parse_buffered_frames. by rewrite parse_acc. Qed.

Lemma pending_with_parse st t : pending_with (parse_buffered_frames st) t = pending_with st t.
Proof.
  rewrite parse_buffered_eq. unfold pending_with. cbn [staging read_buf current offset].
  destruct (parse_app (staging st) t) as (-> & _ & _). by rewrite !concat_app, <- !app_assoc.
Qed.

Lemma pending_with_extend st b t :
  pending_with (mkMuxReader (staging st ++ b) (read_buf st) (current st) (offset st)
                  (control_log st)) t = pending_with st (b ++ t).
Proof. unfold pending_with. cbn [staging read_buf current offset]. by rewrite <- (app_assoc (staging st) b t). Qed.

Lemma pop_and_serve_spec cap st p st1 t :
  current st = None -> pop_and_serve cap st = Some (p, st1) ->
  served p ++ pending_with st1 t = pending_with st t.
Proof.
  intros Hc. unfold pop_and_serve. destruct (read_buf st) as [|d q] eqn:Eq; [done|].
  intros [= <- <-]. unfold pending_with. cbn [served]. rewrite Hc, Eq.
  destruct (Nat.ltb_spec (length d `min` cap) (length d));
    cbn [staging read_buf current offset concat app];
    rewrite ?Hc, ?app_assoc; cbn [app]; [by rewrite take_drop|].
  by rewrite take_ge by lia.
Qed.

Lemma poll_read_conserves cap ev st t :
  served (poll_read cap ev st).1 ++ pending_with (poll_read cap ev st).2 t
  = pending_with st (accepted cap ev st ++ t).
Proof.
  unfold poll_read, accepted. destruct (cap =? 0)%nat; [done|].
  destruct (current st) as [d|] eqn:Ec.
  - cbn [fst snd served app]. unfold pending_with. rewrite Ec.
    destruct (Nat.leb_spec (length d) (offset st + (length d - offset st) `min` cap));
      cbn [staging read_buf current offset]; rewrite !app_assoc; f_equal; f_equal; cbn [app].
    + rewrite app_nil_r, take_ge; [done|]. rewrite length_drop. lia.
    + by rewrite <- drop_drop, take_drop.
  - set (st1 := parse_buffered_frames st).
    assert (Hc1 : current st1 = None) by (subst st1; by rewrite parse_buffered_eq).
    assert (Hp : forall u, pending_with st u = pending_with st1 u)
      by (intros u; symmetry; apply pending_with_parse).
    rewrite Hp. clearbody st1. clear Hp Ec. destruct (pop_and_serve cap st1) as [[p s1]|] eqn:Es.
    + replace (match read_buf st1 with [] => match ev with TReady bytes => bytes | _ => [] end
               | _ :: _ => [] end) with (@nil Z);
        [by apply (pop_and_serve_spec cap)|].
      unfold pop_and_serve in Es. by destruct (read_buf st1).
    + assert (read_buf st1 = []) as Hb
        by (unfold pop_and_serve in Es; by destruct (read_buf st1)).
      rewrite Hb. destruct ev as [[|b bs]| |]; try done.
      rewrite <- pending_with_extend, <- (pending_with_parse (mkMuxReader _ _ _ _ _)).
      set (st2 := parse_buffered_frames (mkMuxReader (staging st1 ++ b :: bs) [] (current st1)
        (offset st1) (control_log st1))).
      rewrite Hb. fold st2.
      assert (Hc2 : current st2 = None) by (subst st2; by rewrite parse_buffered_eq).
      destruct (pop_and_serve cap st2) as [[p s2]|] eqn:Es2; [|done].
      by apply (pop_and_serve_spec cap).
Qed.

Lemma flush_read_eq ev st :
  flush_read ev st = st \/
  exists b, ev = TReady b /\
  flush_read ev st = parse_buffered_frames (mkMuxReader (staging st ++ b) (read_buf st)
                       (current st) (offset st) (control_log st)).
Proof. destruct ev as [[|b bs]| |]; [by left| |by left..]. right. eexists. done. Qed.

Lemma flush_read_conserves ev st t :
  pending_with (flush_read ev st) t
  = pending_with st (match ev with TReady b => b | _ => [] end ++ t).
Proof.
  destruct ev as [[|b bs]| |]; try done.
  change (flush_read (TReady (b :: bs)) st) with (parse_buffered_frames
    (mkMuxReader (staging st ++ b :: bs) (read_buf st) (current st) (offset st) (control_log st))).
  by rewrite pending_with_parse, pending_with_extend.
Qed.

Lemma flush_conserves reads st t :
  pending_with (flush reads st) t = pending_with st (flush_accepted reads ++ t).
Proof.
  unfold flush. rewrite <- (pending_with_parse st). generalize (parse_buffered_frames st).
  clear st. revert t. induction reads as [|ev reads IH]; intros t st; [done|].
  cbn [foldl]. rewrite IH, flush_read_conserves. unfold flush_accepted. cbn [map concat].
  by rewrite app_assoc.
Qed.

Lemma mux_run_conserves steps st t :
  let '(out, acc, st') := mux_run steps st in
  out ++ pending_with st' t = pending_with st (acc ++ t).
Proof.
  revert st. induction steps as [|[cap ev|reads] steps IH]; intros st; [done|..]; cbn [mux_run].
  - pose proof (poll_read_conserves cap ev st) as H. destruct (poll_read cap ev st) as [p st1].
    specialize (IH st1). destruct (mux_run steps st1) as [[out acc] st2].
    rewrite <- !app_assoc, IH. apply H.
  - pose proof (flush_conserves reads st) as H. specialize (IH (flush reads st)).
    destruct (mux_run steps (flush reads st)) as [[out acc] st2].
    by rewrite IH, H, app_assoc.
Qed.

(** ** Draining *)

Lemma poll_read_pending cap st :
  current st = None -> (0 < cap)%nat ->
  poll_read cap TPending st =
  match pop_and_serve cap (parse_buffered_frames st) with
  | Some answer => answer
  | None => (PPending, parse_buffered_frames st)
  end.
Proof.
  intros Hc Hcap. unfold poll_read. destruct (Nat.eqb_spec cap 0); [lia|]. rewrite Hc. done.
Qed.

Lemma poll_read_drains cap ev st :
  (0 < cap)%nat -> mux_ok st -> no_empty_payload st -> pending st <> [] ->
  exists b st', poll_read cap ev st = (PReady b, st') /\ b <> [] /\
    b ++ pending st' = pending st /\ mux_ok st' /\ no_empty_payload st'.
Proof.
  intros Hcap Hok Hne Hp.
  assert (Hacc : accepted cap ev st = []).
  { unfold accepted. destruct (cap =? 0)%nat; [done|]. destruct (current st) eqn:Ec; [done|].
    destruct (read_buf (parse_buffered_frames st)) eqn:Eb; [|done].
    rewrite parse_buffered_eq in Eb. cbn [read_buf] in Eb. apply app_eq_nil in Eb as [E1 E2].
    destruct Hp. unfold pending. by rewrite Ec, E1, E2. }
  pose proof (poll_read_conserves cap ev st []) as Hcons.
  rewrite Hacc, !pending_with_nil in Hcons. revert Hcons. unfold poll_read.
  destruct (Nat.eqb_spec cap 0); [lia|]. unfold mux_ok in Hok.
  destruct (current st) as [d|] eqn:Ec.
  - intros Hcons. eexists _, _. split_and!; [done| |done|..].
    + intros E%(f_equal length). rewrite length_take, length_drop in E. simpl in E. lia.
    + unfold mux_ok. destruct (Nat.leb_spec (length d) (offset st + (length d - offset st) `min` cap));
        [done|]. simpl. lia.
    + unfold no_empty_payload. by split_if.
  - unfold no_empty_payload in Hne. unfold pending in Hp. rewrite Ec in Hp.
    rewrite parse_buffered_eq. unfold pop_and_serve. cbn [read_buf].
    destruct (parse_leftover (staging st)) as [Hl _].
    destruct (read_buf st ++ payloads (staging st)) as [|d q] eqn:Eq.
    { apply app_eq_nil in Eq as [E1 E2]. by rewrite E1, E2 in Hp. }
    intros Hcons. eexists _, _. split_and!; [reflexivity| |done|..].
    + inversion_clear Hne. intros E%(f_equal length). rewrite length_take in E.
      destruct d; [done|]. cbn [length] in E. lia.
    + unfold mux_ok. destruct (Nat.ltb_spec (length d `min` cap) (length d)); simpl; [lia|].
      by rewrite Ec.
    + inversion_clear Hne. unfold no_empty_payload. split_if; simpl; rewrite Hl, app_nil_r; done.
Qed.

Lemma poll_read_ok cap ev st : mux_ok st -> mux_ok (poll_read cap ev st).2.
Proof.
  assert (Hpop : forall st p st', current st = None -> offset st = 0%nat -> (0 < cap)%nat ->
    pop_and_serve cap st = Some (p, st') -> mux_ok st').
  { intros s p s' Hc Ho Hcap. unfold pop_and_serve. destruct (read_buf s) as [|d q]; [done|].
    intros [= _ <-]. unfold mux_ok.
    destruct (Nat.ltb_spec (length d `min` cap) (length d)); simpl; [lia|]. by rewrite Hc. }
  intros Hok. unfold poll_read. destruct (Nat.eqb_spec cap 0); [done|].
  unfold mux_ok in Hok. destruct (current st) as [d|] eqn:Ec.
  - unfold mux_ok.
    destruct (Nat.leb_spec (length d) (offset st + (length d - offset st) `min` cap)); [done|].
    simpl. lia.
  - rewrite parse_buffered_eq. cbv zeta. match goal with |- context [pop_and_serve cap ?s] =>
      destruct (pop_and_serve cap s) as [[p s1]|] eqn:Es end.
    { eapply Hpop; [| | |exact Es]; done || lia. }
    assert (Hm : forall s q g, mux_ok (mkMuxReader s q (current st) (offset st) g))
      by (intros; unfold mux_ok; simpl; by rewrite Ec).
    destruct ev as [[|b bs]| |]; [apply Hm| |apply Hm..].
    rewrite parse_buffered_eq. match goal with |- context [pop_and_serve cap ?s] =>
      destruct (pop_and_serve cap s) as [[p s2]|] eqn:Es2 end; [|apply Hm].
    eapply Hpop; [| | |exact Es2]; done || lia.
Qed.

Lemma flush_fields reads st :
  current (flush reads st) = current st /\ offset (flush reads st) = offset st.
Proof.
  unfold flush. assert (H : current (parse_buffered_frames st) = current st /\
    offset (parse_buffered_frames st) = offset st) by (by rewrite parse_buffered_eq).
  revert H. generalize (parse_buffered_frames st). induction reads as [|ev reads IH]; intros s Hs; [done|].
  cbn [foldl]. apply IH. destruct (flush_read_eq ev s) as [->|(b & _ & ->)]; [done|].
  by rewrite parse_buffered_eq.
Qed.

Lemma mux_run_ok steps st : mux_ok st -> mux_ok (mux_run steps st).2.
Proof.
  revert st. induction steps as [|[cap ev|reads] steps IH]; intros st Hok; [done|..]; cbn [mux_run].
  - pose proof (poll_read_ok cap ev st Hok) as H. destruct (poll_read cap ev st) as [p st1].
    specialize (IH st1 H). by destruct (mux_run steps st1) as [[out acc] st2].
  - assert (H : mux_ok (flush reads st)).
    { unfold mux_ok. destruct (flush_fields reads st) as [-> ->]. done. }
    specialize (IH _ H). by destruct (mux_run steps (flush reads st)) as [[out acc] st2].
Qed.

(** Polling a connection until nothing is pending takes at most one poll per byte. *)
Lemma mux_run_drain n cap st :
  (0 < cap)%nat -> mux_ok st -> no_empty_payload st -> (length (pending st) <= n)%nat ->
  (mux_run (replicate n (SPoll cap TPending)) st).1.1 = pending st.
Proof.
  intros Hcap. revert st. induction n as [|n IH]; intros st Hok Hne Hn.
  - cbn [replicate mux_run fst]. destruct (pending st); [done|]. simpl in Hn. lia.
  - cbn [replicate mux_run]. destruct (decide (pending st = [])) as [E|E].
    + pose proof (poll_read_conserves cap TPending st []) as Hc.
      pose proof (mux_run_conserves (replicate n (SPoll cap TPending))
        (poll_read cap TPending st).2 []) as Hr.
      assert (Ha : forall s, accepted cap TPending s = []).
      { intros s. unfold accepted. destruct (cap =? 0)%nat; [done|].
        destruct (current s), (read_buf (parse_buffered_frames s)); done. }
      assert (Hra : forall n s, (mux_run (replicate n (SPoll cap TPending)) s).1.2 = []).
      { clear -Ha. induction n as [|n IH]; intros s; [done|]. cbn [replicate mux_run].
        specialize (IH (poll_read cap TPending s).2). destruct (poll_read cap TPending s) as [p s1].
        cbn [snd] in IH. destruct (mux_run _ s1) as [[? ?] ?]. cbn [fst snd] in *.
        by rewrite Ha, IH. }
      rewrite Ha, !pending_with_nil, E in Hc. apply app_eq_nil in Hc as [Hc1 Hc2].
      destruct (poll_read cap TPending st) as [p st1]. cbn [fst snd] in *.
      specialize (Hra n st1). destruct (mux_run _ st1) as [[out acc] st2]. cbn [fst snd] in *.
      subst acc. cbn [app] in Hr. rewrite !pending_with_nil, Hc2 in Hr.
      apply app_eq_nil in Hr as [-> _]. by rewrite Hc1, E.
    + destruct (poll_read_drains cap TPending st Hcap Hok Hne E) as (b & st' & -> & Hb & Hp & Hok' & Hne').
      specialize (IH st' Hok' Hne'). destruct (mux_run _ st') as [[out acc] st2]. cbn [fst snd served] in *.
      rewrite IH; [done|]. rewrite <- Hp, length_app in Hn. destruct b; [done|]. simpl in Hn. lia.
Qed.

(** A run of flushes alone parses what arrived. *)
Lemma flush_parses reads :
  flush reads MuxConnection_new =
  let s := flush_accepted reads in mkMuxReader (leftover s) (payloads s) None 0 (controls s).
Proof.
  assert (H : forall st t, st = mkMuxReader (leftover t) (payloads t) None 0 (controls t) ->
    foldl (fun st ev => flush_read ev st) st reads =
    let s := t ++ flush_accepted reads in mkMuxReader (leftover s) (payloads s) None 0 (controls s)).
  { induction reads as [|ev reads IH]; intros st t Hst.
    - cbn [foldl]. unfold flush_accepted. cbn [map concat]. by rewrite app_nil_r.
    - cbn [foldl]. rewrite (IH _ (t ++ match ev with TReady b => b | _ => [] end)).
      + unfold flush_accepted. cbn [map concat]. by rewrite app_assoc.
      + assert (E : flush_read ev st = parse_buffered_frames (mkMuxReader
          (staging st ++ match ev with TReady b => b | _ => [] end) (read_buf st)
          (current st) (offset st) (control_log st))).
        { assert (Hid : parse_buffered_frames (mkMuxReader (staging st ++ []) (read_buf st)
            (current st) (offset st) (control_log st)) = st).
          { rewrite parse_buffered_eq, Hst. cbn [staging read_buf current offset control_log].
            pose proof (leftover_stuck t) as E. rewrite app_nil_r. unfold payloads at 2, controls at 2.
            unfold leftover at 1. rewrite (parse_unfold (leftover t)), E. cbn [fst snd].
            by rewrite !app_nil_r. }
          destruct ev as [[|b bs]| |]; [by rewrite Hid|done|by rewrite Hid..]. }
        rewrite E, parse_buffered_eq, Hst. cbn [staging read_buf current offset control_log].
        destruct (parse_app t match ev with TReady b => b | _ => [] end) as (Hp & Hc & Hl).
        by rewrite Hp, Hc, Hl. }
  unfold flush. rewrite (H _ []); [done|]. done.
Qed.

(** ** Writing data *)

Lemma chunk_size : Z.of_nat (Z.to_nat DATA_CHUNK_SIZE) = 32768.
Proof. done. Qed.
Lemma chunk_size_pos : (0 < Z.to_nat DATA_CHUNK_SIZE)%nat.
Proof. pose proof chunk_size. lia. Qed.

Lemma write_data_frames data :
  write_data data =
  (Ok tt, concat (map (fun c => frame (Data, c)) (chunks (Z.to_nat DATA_CHUNK_SIZE) data))).
Proof.
  unfold write_data. pose proof (chunks_length (Z.to_nat DATA_CHUNK_SIZE) data chunk_size_pos) as H.
  induction H as [|c cs Hc Hcs IH]; [done|]. cbn [wr_each map concat].
  unfold frame at 1. cbn [fst snd]. unfold mbind, wr_bind in *. rewrite IH.
  rewrite write_message_frame; [done|]. pose proof chunk_size. unfold MAX_PAYLOAD. lia.
Qed.

Lemma chunk_frames_ok data :
  Forall is_byte data ->
  Forall frame_ok (map (fun c => (Data, c)) (chunks (Z.to_nat DATA_CHUNK_SIZE) data)).
Proof.
  intros Hb. rewrite Forall_map. rewrite <- (concat_chunks (Z.to_nat DATA_CHUNK_SIZE) data) in Hb by apply chunk_size_pos.
  pose proof (chunks_length (Z.to_nat DATA_CHUNK_SIZE) data chunk_size_pos) as H.
  rewrite Forall_concat in Hb. eapply Forall_impl; [apply Forall_and; exact (conj Hb H)|].
  intros c [Hcb Hc]. pose proof chunk_size. unfold frame_ok, MAX_PAYLOAD. cbn [fst snd].
  split_and!; [lia|done|done].
Qed.

Lemma data_frames_chunks (cs : list (list Z)) : data_frames (map (fun c => (Data, c)) cs) = cs.
Proof.
  unfold data_frames. induction cs as [|c cs IH]; [done|]. cbn [map omap list_omap fst snd].
  rewrite bool_decide_eq_true_2 by done. f_equal. apply IH.
Qed.

(** ** The readers on arbitrary bytes *)

Definition message_typed (m : MplexMessage) : Prop :=
  match m with
  | MData b | MStats b | MErrorExit b => Forall is_byte b
  | MRedo i | MIoError i | MIoTimeout i => in_i32 i
  | _ => True
  end.

Lemma read_text_safe n : 0 <= n -> safe (read_text n) (fun _ => True).
Proof. intros Hn. eapply safe_bind; [by apply safe_read_exact|]. intros. by apply safe_ret. Qed.

Lemma read_i32_safe : safe read_i32 (fun v => in_i32 v).
Proof.
  eapply safe_bind; [by apply safe_read_exact|]. intros b _. apply safe_ret.
  apply (swrap_range 32). lia.
Qed.

Lemma from_tag_safe t : safe (rd_lift (from_tag t)) (fun _ => True).
Proof. intros i Hi. unfold from_tag, rd_lift. by repeat (destruct (_ =? _); [done|]). Qed.

Lemma read_message_safe_aux : safe read_message message_typed.
Proof.
  eapply safe_bind; [by apply safe_read_exact|]. intros hdr [Hb Hl]. cbv zeta.
  assert (Hp : 0 <= Z.land (le_val hdr) MAX_PAYLOAD) by (apply Z.land_nonneg; right; done).
  apply safe_if; intros _; [apply safe_err|].
  eapply safe_bind; [apply from_tag_safe|]. intros code _.
  destruct code;
    first [ eapply safe_bind; [by apply read_text_safe|]; intros; by apply safe_ret
          | eapply safe_bind; [apply read_i32_safe|]; intros; by apply safe_ret
          | eapply safe_bind; [by apply safe_read_exact|]; intros ? []; by apply safe_ret
          | by apply safe_ret ].
Qed.

Lemma read_exact_shrinks n i b k : read_exact n i = Ok (b, k) -> (length k <= length i)%nat.
Proof.
  unfold read_exact. destruct (_ <? _); [done|]. intros [= <- <-]. rewrite length_drop. lia.
Qed.

(** A reader that only ever drops a prefix of its input. *)
Definition shrinks {A} (r : rd A) : Prop :=
  forall i a k, r i = Ok (a, k) -> (length k <= length i)%nat.

Lemma shrinks_bind {A B} (r : rd A) (f : A -> rd B) :
  shrinks r -> (forall a, shrinks (f a)) -> shrinks (r ≫= f).
Proof.
  intros Hr Hf i b k. unfold mbind, rd_bind. destruct (r i) as [[a i']| |] eqn:E; [|done..].
  intros H. apply Hr in E. apply Hf in H. lia.
Qed.

Lemma shrinks_lift {A} (m : result A) : shrinks (rd_lift m).
Proof. intros i a k. unfold rd_lift. destruct m; [|done..]. intros [= _ <-]. done. Qed.

Lemma shrinks_ret {A} (a : A) : shrinks (mret a).
Proof. intros i b k [= _ <-]. done. Qed.

Lemma shrinks_read_exact n : shrinks (read_exact n).
Proof. intros i b k. apply read_exact_shrinks. Qed.

Lemma read_message_shrinks i m k : read_message i = Ok (m, k) -> (length k + 4 <= length i)%nat.
Proof.
  unfold read_message. set (cont := fun hdr : list Z => _).
  assert (Hc : forall hdr, shrinks (cont hdr)).
  { intros hdr. subst cont. cbv beta zeta. destruct (_ <? _); [apply shrinks_lift|].
    apply shrinks_bind; [apply shrinks_lift|]. intros code.
    destruct code; repeat first [ apply shrinks_bind; [|intros ?] | apply shrinks_read_exact
                                | apply shrinks_ret ]. }
  unfold mbind, rd_bind. destruct (read_exact 4 i) as [[hdr i']| |] eqn:E; [|done..].
  intros H. apply Hc in H. unfold read_exact in E.
  destruct (Z.ltb_spec (Z.of_nat (length i)) 4); [done|]. injection E as _ <-.
  rewrite length_drop in H. change (Z.to_nat 4) with 4%nat in H. lia.
Qed.

(** [read_data] never slices out of range when this holds. *)
Definition mplex_ok (r : MplexReader) : Prop :=
  Forall is_byte (mr_inner r) /\
  match buffered_data r with
  | Some d => (buffered_offset r < length d)%nat
  | None => buffered_offset r = 0%nat
  end.

Lemma read_data_total_aux fuel blen r :
  mplex_ok r -> (length (mr_inner r) < fuel)%nat ->
  match read_data fuel blen r with
  | Some (Ok (b, cs, r')) => (length b <= blen)%nat /\ mplex_ok r' /\
      Forall (fun m => forall d, m <> MData d) cs
  | Some (Err _) => True
  | _ => False
  end.
Proof.
  revert r. induction fuel as [|fuel IH]; intros r [Hb Hok] Hf; [lia|]. cbn [read_data].
  destruct (buffered_data r) as [d|] eqn:Eb.
  - split_and!; [rewrite length_take; lia| |done].
    destruct (Nat.leb_spec (length d) (buffered_offset r + blen `min` (length d - buffered_offset r))).
    + done.
    + split; [done|]. simpl. lia.
  - pose proof (read_message_safe_aux (mr_inner r) Hb) as Hs.
    destruct (read_message (mr_inner r)) as [[m k]| |] eqn:Em; [|done..].
    destruct Hs as [_ Hk]. apply read_message_shrinks in Em.
    assert (IHk := IH (mkMplexReader k None (buffered_offset r)) (conj Hk Hok) ltac:(simpl; lia)).
    destruct m;
      try (destruct (read_data fuel blen _) as [[[[out cs] r']| |]|]; [|done..];
           destruct IHk as (? & ? & ?); split_and!; [done|done|]; by constructor).
    split_and!; [rewrite length_take; lia| |done].
    destruct (Nat.ltb_spec (blen `min` length b) (length b)); split; try done; simpl; lia.
Qed.

(** ** The channel demultiplexer *)

Lemma demux_channel_frames fs fuel alive :
  Forall frame_ok fs -> (length fs < fuel)%nat -> (length (data_frames fs) <= alive)%nat ->
  demux_channel_task fuel alive (concat (map frame fs)) = (data_frames fs, control_messages fs).
Proof.
  intros Hf. revert fuel alive. induction Hf as [|f fs Hok Hf IH]; intros [|fuel] alive Hfuel Ha;
    try (simpl in Hfuel; lia); [done|].
  cbn [map concat demux_channel_task]. rewrite read_message_frame by done.
  destruct f as [c p]. unfold data_frames, control_messages in *. cbn [omap list_omap fst snd] in *.
  cbn [length] in Hfuel. destruct (decide (c = Data)) as [->|Hc].
  - rewrite bool_decide_eq_true_2 in * by done. cbn [message_of fst snd length] in *.
    destruct alive as [|alive]; [lia|]. rewrite IH by lia. done.
  - rewrite bool_decide_eq_false_2 in * by done.
    assert (Hm : forall d, message_of (c, p) <> MData d).
    { intros d. unfold message_of, decode_control_message. cbn [fst snd].
      destruct c; try done; rewrite from_tag_u8; try done; by destruct (4 <=? length p)%nat. }
    rewrite IH by lia. destruct (message_of (c, p)) eqn:E; try done. by destruct (Hm b).
Qed.

(** ** Properties *)

(** C1. End-to-end delivery: take any sequence of frames (DATA frames with a
    non-empty payload, and control frames of the shape both decoders expect)
    and let their bytes arrive in arbitrary pieces while the connection
    flushes. Then polling with any positive buffer size, with nothing more
    coming from the transport, serves exactly the concatenation of the DATA
    payloads, in at most one poll per byte, and exactly the control messages
    of the sequence have been handled, in order. *)
Theorem mux_delivery fs reads cap n :
  Forall frame_ok fs -> Forall (fun d => d <> []) (data_frames fs) ->
  flush_accepted reads = concat (map frame fs) ->
  (0 < cap)%nat -> (length (concat (data_frames fs)) <= n)%nat ->
  let st := flush reads MuxConnection_new in
  (mux_run (replicate n (SPoll cap TPending)) st).1.1 = concat (data_frames fs) /\
  control_log st = control_messages fs.
Proof.
  intros Hfs Hne Ha Hcap Hn. rewrite flush_parses, Ha. cbv zeta.
  destruct (parse_frames fs [] Hfs) as (Hp & Hc & Hl). rewrite app_nil_r in Hp, Hc, Hl.
  change (payloads []) with (@nil (list Z)) in Hp. change (controls []) with (@nil MplexMessage) in Hc.
  change (leftover []) with (@nil Z) in Hl. rewrite app_nil_r in Hp, Hc. rewrite Hp, Hc, Hl.
  assert (E : pending (mkMuxReader [] (data_frames fs) None 0 (control_messages fs))
              = concat (data_frames fs)).
  { unfold pending. cbn [current read_buf staging app]. rewrite payloads_nil. simpl. by rewrite app_nil_r. }
  split; [|done]. rewrite mux_run_drain; rewrite ?E; try done.
  unfold no_empty_payload. cbn [read_buf staging]. by rewrite payloads_nil, app_nil_r.
Qed.

Definition delivery_frames : list (MsgCode * list Z) :=
  [(Info, [104; 105]); (Data, [1; 2; 3]); (Noop, []); (Redo, [7; 0; 0; 0]); (Data, [4])].
Definition delivery_reads : list transport_poll :=
  [TReady (take 7 (concat (map frame delivery_frames))); TPending;
   TReady (drop 7 (concat (map frame delivery_frames)))].

Lemma mux_delivery_witness :
  Forall frame_ok delivery_frames /\
  (mux_run (replicate 4 (SPoll 2 TPending)) (flush delivery_reads MuxConnection_new)).1.1
    = [1; 2; 3; 4] /\
  control_log (flush delivery_reads MuxConnection_new)
    = [MInfo [104; 105]; MNoop; MRedo 7].
Proof.
  assert (H : Forall frame_ok delivery_frames)
    by (repeat constructor; unfold MAX_PAYLOAD; simpl; lia).
  split; [exact H|]. apply (mux_delivery delivery_frames delivery_reads 2 4 H).
  - repeat constructor; discriminate.
  - vm_compute. reflexivity.
  - lia.
  - vm_compute. lia.
Defined.

(** C2. Conservation of data: whatever interleaving of polls (with any buffer
    sizes and any transport answers, errors included) and flushes a connection
    goes through, the bytes served so far followed by the bytes still pending
    are exactly the DATA payloads of the bytes accepted from the transport:
    nothing is lost, duplicated or reordered, however the frames were cut; and
    the read offset stays inside the current chunk. *)
Theorem mux_conservation steps :
  let '(out, acc, st) := mux_run steps MuxConnection_new in
  out ++ pending st = concat (payloads acc) /\ mux_ok st.
Proof.
  pose proof (mux_run_conserves steps MuxConnection_new []) as H.
  pose proof (mux_run_ok steps MuxConnection_new eq_refl) as Hok.
  destruct (mux_run steps MuxConnection_new) as [[out acc] st]. split; [|done].
  rewrite pending_with_nil in H. rewrite H. unfold pending_with. simpl. by rewrite app_nil_r.
Qed.

(** The three demultiplexers agree: on the bytes of any sequence of frames
    of the shape both decoders expect, the channel task (reading message by
    message) and the staging parser extract the same DATA payloads and the same
    control messages, and the message reader reads each frame as what the frame
    says, wherever the stream continues. *)
Theorem demultiplexers_agree fs fuel alive q g :
  Forall frame_ok fs -> (length fs < fuel)%nat -> (length (data_frames fs) <= alive)%nat ->
  demux_channel_task fuel alive (concat (map frame fs)) = (data_frames fs, control_messages fs) /\
  parse_frames_from_staging (concat (map frame fs)) q g
    = ([], q ++ data_frames fs, g ++ control_messages fs) /\
  Forall (fun f => forall k, read_message (frame f ++ k) = Ok (message_of f, k)) fs.
Proof.
  intros Hfs Hfuel Ha. split_and!.
  - by apply demux_channel_frames.
  - destruct (parse_frames fs [] Hfs) as (Hp & Hc & Hl). rewrite app_nil_r in Hp, Hc, Hl.
    rewrite parse_acc, Hp, Hc, Hl. change (payloads []) with (@nil (list Z)).
    change (controls []) with (@nil MplexMessage). by rewrite !app_nil_r.
  - eapply Forall_impl; [done|]. intros f Hf k. by apply read_message_frame.
Qed.

Lemma demultiplexers_agree_witness :
  Forall frame_ok delivery_frames /\
  demux_channel_task 6 2 (concat (map frame delivery_frames))
    = ([[1; 2; 3]; [4]], [MInfo [104; 105]; MNoop; MRedo 7]).
Proof.
  assert (H : Forall frame_ok delivery_frames)
    by (repeat constructor; unfold MAX_PAYLOAD; simpl; lia).
  split; [exact H|]. apply (demultiplexers_agree delivery_frames 6 2 [] [] H).
  - simpl. lia.
  - vm_compute. lia.
Defined.

(** [write_data] and the frame size limit: a payload of up to 2^24-1 bytes
    is written as one header and the payload, a longer one (below 4 GiB, where
    the length still fits the header's [u32]) is refused with [FrameTooLarge]
    and nothing is written; and [write_data] of any data is a sequence of DATA
    frames, none empty and none above 32 KiB, whose payloads concatenate to the
    data. *)
Theorem write_data_and_limits code payload data :
  Z.of_nat (length payload) < 2 ^ 32 ->
  (Z.of_nat (length payload) <= MAX_PAYLOAD ->
     exists hdr, write_message code payload = (Ok tt, hdr ++ payload) /\ length hdr = 4%nat) /\
  (MAX_PAYLOAD < Z.of_nat (length payload) ->
     write_message code payload
       = (Err (FrameTooLarge (Z.of_nat (length payload)) MAX_PAYLOAD), [])) /\
  exists cs, write_data data = (Ok tt, concat (map (fun c => frame (Data, c)) cs)) /\
    Forall (fun c => (0 < length c)%nat /\ Z.of_nat (length c) <= 32 * 1024) cs /\
    concat cs = data.
Proof.
  intros H32. split_and!.
  - intros Hl. eexists. split; [by apply write_message_frame|]. apply length_le_bytes.
  - intros Hl. unfold write_message. rewrite (wrap_id 32) by lia.
    destruct (Z.ltb_spec MAX_PAYLOAD (Z.of_nat (length payload))); [done|lia].
  - exists (chunks (Z.to_nat DATA_CHUNK_SIZE) data). split_and!.
    + apply write_data_frames.
    + eapply Forall_impl; [apply chunks_length, chunk_size_pos|].
      intros c Hc. pose proof chunk_size. simpl in Hc. lia.
    + apply concat_chunks, chunk_size_pos.
Qed.

Lemma write_data_and_limits_witness :
  Z.of_nat (length [1; 2; 3]) < 2 ^ 32 /\
  (exists hdr, write_message Stats [1; 2; 3] = (Ok tt, hdr ++ [1; 2; 3]) /\ length hdr = 4%nat) /\
  exists cs, write_data [5; 6] = (Ok tt, concat (map (fun c => frame (Data, c)) cs)) /\
    Forall (fun c => (0 < length c)%nat /\ Z.of_nat (length c) <= 32 * 1024) cs /\
    concat cs = [5; 6].
Proof.
  destruct (write_data_and_limits Stats [1; 2; 3] [5; 6]) as (H1 & _ & H3); [simpl; lia|].
  split; [simpl; lia|]. split; [apply H1; unfold MAX_PAYLOAD; simpl; lia|exact H3].
Defined.

(** Hostile input: on any bytes the message reader does not panic and
    returns well-typed messages, and [read_data], from any reachable reader,
    terminates: it needs no more rounds than there are bytes on the stream,
    never copies more than the caller's buffer, leaves the reader reachable
    again, and never hands a DATA message to the control callback. *)
Theorem read_data_total blen r :
  mplex_ok r ->
  safe read_message message_typed /\
  match read_data (S (length (mr_inner r))) blen r with
  | Some (Ok (b, cs, r')) => (length b <= blen)%nat /\ mplex_ok r' /\
      Forall (fun m => forall d, m <> MData d) cs
  | Some (Err _) => True
  | _ => False
  end.
Proof.
  intros Hok. split; [apply read_message_safe_aux|]. apply read_data_total_aux; [done|lia].
Qed.

Lemma read_data_total_witness :
  mplex_ok (MplexReader_new (concat (map frame delivery_frames))) /\
  match read_data (S (length (concat (map frame delivery_frames)))) 2
          (MplexReader_new (concat (map frame delivery_frames))) with
  | Some (Ok (b, cs, r')) => (length b <= 2)%nat /\ mplex_ok r' /\
      Forall (fun m => forall d, m <> MData d) cs
  | Some (Err _) => True
  | _ => False
  end.
Proof.
  assert (H : mplex_ok (MplexReader_new (concat (map frame delivery_frames)))).
  { split; [|reflexivity]. vm_compute. repeat constructor; discriminate. }
  split; [exact H|]. apply (read_data_total 2 _ H).
Defined.

(** Two frames the demultiplexers get wrong: a DATA frame with an empty
    payload makes a poll report end of file (zero bytes) although later data
    is already pending, whatever that data is; and a keep-alive frame with a
    payload is skipped whole by the staging parser, while the message reader
    leaves its payload on the stream and takes it for the next header. *)
Theorem empty_data_and_noop_payload cap ev d p k :
  (0 < cap)%nat -> Z.of_nat (length d) <= MAX_PAYLOAD -> Z.of_nat (length p) <= MAX_PAYLOAD ->
  let st := mkMuxReader (frame (Data, []) ++ frame (Data, d)) [] None 0 [] in
  (poll_read cap ev st).1 = PReady [] /\ pending (poll_read cap ev st).2 = d /\
  read_message (frame (Noop, p) ++ k) = Ok (MNoop, p ++ k) /\
  payloads (frame (Noop, p) ++ k) = payloads k.
Proof.
  intros Hcap Hd Hp. cbv zeta. set (st := mkMuxReader _ _ _ _ _).
  assert (Hst : payloads (frame (Data, []) ++ frame (Data, d)) = [[]; d]).
  { rewrite <- (app_nil_r (frame (Data, d))).
    unfold payloads. rewrite parse_unfold, parse_round_frame, parse_unfold, parse_round_acc,
      parse_round_frame by (done || (simpl; unfold MAX_PAYLOAD; lia)). done. }
  assert (E : poll_read cap ev st = (PReady [], mkMuxReader (leftover (staging st)) [d] None 0
    (controls (staging st)))).
  { unfold poll_read. destruct (Nat.eqb_spec cap 0); [lia|]. rewrite parse_buffered_eq.
    subst st. cbn [current staging read_buf offset control_log app]. rewrite Hst. done. }
  rewrite E. destruct (parse_leftover (staging st)) as [Hl _]. split_and!; [done|..].
  - unfold pending. cbn [snd current staging read_buf app concat]. rewrite Hl. simpl.
    by rewrite !app_nil_r.
  - destruct (frame_shape (Noop, p) Hp) as (hdr & -> & Hlen & _ & Hn & Ht). rewrite <- app_assoc.
    by rewrite (read_message_header _ _ Hlen _ Ht _ Hn).
  - unfold payloads at 1. rewrite parse_unfold, parse_round_frame, parse_acc by done. done.
Qed.

Lemma empty_data_and_noop_payload_witness :
  (poll_read 8 TPending
     (mkMuxReader (frame (Data, []) ++ frame (Data, [1; 2])) [] None 0 [])).1 = PReady [].
Proof.
  apply (empty_data_and_noop_payload 8 TPending [1; 2] [9] []);
    unfold MAX_PAYLOAD; simpl; lia.
Defined.
