(* ===== verification/Proc.v ===== *)
(** Two processes talking over a pair of byte streams.

    The asynchronous functions of the protocol that both read and write are
    modelled as processes: trees of reads and writes ([io]).  Two processes are
    connected by two unbounded FIFO queues; either side may take its next step
    whenever it can, so a run is any interleaving.  A read waits for enough
    bytes, and reports end of file only once the peer has finished.

    The main lemma is [random_descent]: if one schedule brings the two
    processes to completion, every schedule does, with the same outcome. *)
From S2P Require Import Prelude Wire.

(** ** Processes *)

Inductive io (A : Type) : Type :=
  | IoDone (outcome : result A)
  | IoRead {X : Set} (r : rd X) (k : result X -> io A)
  | IoWrite (w : wr unit) (k : result unit -> io A).
Arguments IoDone {A} _.
Arguments IoRead {A X} _ _.
Arguments IoWrite {A} _ _.

Fixpoint io_bind_fix {A B} (f : A -> io B) (m : io A) : io B :=
  match m with
  | IoDone (Ok a) => f a
  | IoDone (Err e) => IoDone (Err e)
  | IoDone Panic => IoDone Panic
  | IoRead r k => IoRead r (fun x => io_bind_fix f (k x))
  | IoWrite w k => IoWrite w (fun x => io_bind_fix f (k x))
  end.

#[export] Instance io_ret : MRet io := fun A a => IoDone (Ok a).
#[export] Instance io_bind : MBind io := fun A B f m => io_bind_fix f m.

(** [r(..).await?], [w(..).await?], [result?] *)
Definition io_read {X : Set} (r : rd X) : io X := IoRead r IoDone.
Definition io_write (w : wr unit) : io unit := IoWrite w IoDone.
Definition io_lift {A} (m : result A) : io A := IoDone m.

(** [let _ = r(..).await;] and [let _ = w(..).await;]: the outcome is dropped. *)
Definition io_try_read {X : Set} (r : rd X) : io unit := IoRead r (fun _ => IoDone (Ok tt)).
Definition io_try_write (w : wr unit) : io unit := IoWrite w (fun _ => IoDone (Ok tt)).

(** ** Steps *)

Record config (A B : Type) := mkConfig {
  left : io A;
  right : io B;
  to_right : list Z;
  to_left : list Z;
}.
Arguments mkConfig {A B} _ _ _ _.
Arguments left {A B} _.
Arguments right {A B} _.
Arguments to_right {A B} _.
Arguments to_left {A B} _.

Definition is_done {A} (p : io A) : bool :=
  match p with IoDone _ => true | _ => false end.

(** A read on the bytes [q] that have arrived: [None] while it has to wait. *)
Definition read_step {X} (r : rd X) (q : list Z) (peer_done : bool) : option (result X * list Z) :=
  match r q with
  | Ok (x, rest) => Some (Ok x, rest)
  | Err (Io UnexpectedEof) => if peer_done then Some (Err (Io UnexpectedEof), []) else None
  | Err e => Some (Err e, q)
  | Panic => Some (Panic, q)
  end.

(** One step of a process: its incoming queue, what it adds to the outgoing one. *)
Definition proc_step {A} (p : io A) (q : list Z) (peer_done : bool)
    : option (io A * list Z * list Z) :=
  match p with
  | IoDone _ => None
  | IoRead r k =>
      match read_step r q peer_done with
      | Some (x, q') => Some (k x, q', [])
      | None => None
      end
  | IoWrite w k => Some (k w.1, q, w.2)
  end.

Definition step_left {A B} (c : config A B) : option (config A B) :=
  match proc_step (left c) (to_left c) (is_done (right c)) with
  | Some (p, q, out) => Some (mkConfig p (right c) (to_right c ++ out) q)
  | None => None
  end.
Definition step_right {A B} (c : config A B) : option (config A B) :=
  match proc_step (right c) (to_right c) (is_done (left c)) with
  | Some (p, q, out) => Some (mkConfig (left c) p q (to_left c ++ out))
  | None => None
  end.

Definition step {A B} (c c' : config A B) : Prop :=
  step_left c = Some c' \/ step_right c = Some c'.

Definition finished {A B} (c : config A B) : Prop :=
  is_done (left c) = true /\ is_done (right c) = true.

(** ** Readers that can wait for more bytes *)

Definition resumable {X} (r : rd X) : Prop :=
  forall i t,
  match r i with
  | Ok (a, k) => r (i ++ t) = Ok (a, k ++ t)
  | Err e => e <> Io UnexpectedEof -> r (i ++ t) = Err e
  | Panic => r (i ++ t) = Panic
  end.

Fixpoint resumable_io {A} (p : io A) : Prop :=
  match p with
  | IoDone _ => True
  | IoRead r k => resumable r /\ forall x, resumable_io (k x)
  | IoWrite w k => forall x, resumable_io (k x)
  end.

Lemma resumable_ret {X} (a : X) : resumable (mret a).
Proof. intros i t. done. Qed.

Lemma resumable_lift {X} (m : result X) : resumable (rd_lift m).
Proof. intros i t. unfold rd_lift. by destruct m. Qed.

Lemma resumable_read_exact n : resumable (read_exact n).
Proof.
  intros i t. unfold read_exact. rewrite length_app.
  destruct (Z.ltb_spec (Z.of_nat (length i)) n); [done|].
  destruct (Z.ltb_spec (Z.of_nat (length i + length t)) n); [lia|].
  rewrite take_app_le, drop_app_le by lia. done.
Qed.

Lemma resumable_bind {X Y} (r : rd X) (f : X -> rd Y) :
  resumable r -> (forall x, resumable (f x)) -> resumable (r ≫= f).
Proof.
  intros Hr Hf i t. unfold mbind, rd_bind. specialize (Hr i t).
  destruct (r i) as [[a k]| |].
  - rewrite Hr. apply Hf.
  - intros He. by rewrite Hr.
  - by rewrite Hr.
Qed.

Lemma resumable_if {X} (c : bool) (r1 r2 : rd X) :
  resumable r1 -> resumable r2 -> resumable (if c then r1 else r2).
Proof. by destruct c. Qed.

Lemma resumable_io_bind {A B} (m : io A) (f : A -> io B) :
  resumable_io m -> (forall a, resumable_io (f a)) -> resumable_io (m ≫= f).
Proof.
  intros Hm Hf. induction m as [[a|e|]|X r k IH|w k IH]; simpl in *; auto.
  destruct Hm as [? Hk]. split; [done|]. intros x. apply IH, Hk.
Qed.

Lemma resumable_io_read {X : Set} (r : rd X) : resumable r -> resumable_io (io_read r).
Proof. simpl. auto. Qed.

(** A loop whose bound on the rounds is large enough, and does not matter then. *)
Lemma resumable_loop {St A} (rounds : nat -> nat) (body : St -> rd (St + A)) (mu : St -> nat -> nat) s :
  (forall s, resumable (body s)) ->
  (forall s i s' i', body s i = Ok (inl s', i') -> (mu s' (length i') < mu s (length i))%nat) ->
  (forall n, (mu s n < rounds n)%nat) ->
  resumable (rd_while_within rounds body s).
Proof.
  intros Hb Hmu Hr i t. unfold rd_while_within.
  assert (H : forall f f' s i, (mu s (length i) < f)%nat -> (mu s (length (i ++ t)) < f')%nat ->
    match rd_loop body f s i with
    | Ok (a, k) => rd_loop body f' s (i ++ t) = Ok (a, k ++ t)
    | Err e => e <> Io UnexpectedEof -> rd_loop body f' s (i ++ t) = Err e
    | Panic => rd_loop body f' s (i ++ t) = Panic
    end); [|by apply H].
  clear s i Hr. induction f as [|f IH]; intros [|f'] s i H1 H2; try lia. cbn [rd_loop]. unfold mbind, rd_bind.
  specialize (Hb s i t). destruct (body s i) as [[[s'|a] k]|e|] eqn:E.
  - rewrite Hb. apply Hmu in E. apply Hmu in Hb. apply IH; lia.
  - by rewrite Hb.
  - intros He. by rewrite Hb.
  - by rewrite Hb.
Qed.

Lemma resumable_while {St A} (body : St -> rd (St + A)) s :
  (forall s, resumable (body s)) -> (forall s, takes 1 (body s)) -> resumable (rd_while body s).
Proof.
  intros Hb Ht. apply (resumable_loop (fun n => S n) body (fun _ n => n)); [done| |lia].
  intros s1 i s' i' E. apply Ht in E. lia.
Qed.

Lemma resumable_repeat {X} n (r : rd X) : resumable r -> resumable (rd_repeat n r).
Proof.
  intros Hr. induction n as [|n IH]; cbn [rd_repeat]; [apply resumable_ret|].
  apply resumable_bind; [done|]. intros x. apply resumable_bind; [done|]. intros l. apply resumable_ret.
Qed.

#[export] Hint Resolve resumable_ret resumable_lift resumable_read_exact resumable_io_read : wire.

(** Decide [resumable] on a reader written with the combinators. *)
Ltac resume :=
  repeat first
    [ apply resumable_ret | apply resumable_lift | apply resumable_read_exact
    | apply resumable_bind; [|intros ?] | apply resumable_if
    | progress cbv zeta | progress case_match ].

(** ** Confluence *)

Lemma read_step_more {X} (r : rd X) q t d x q' :
  resumable r -> read_step r q false = Some (x, q') ->
  read_step r (q ++ t) d = Some (x, q' ++ t).
Proof.
  intros Hr. unfold read_step. specialize (Hr q t). destruct (r q) as [[a k]|e|].
  - rewrite Hr. by intros [= <- <-].
  - destruct e as [| | | | | | | | | | |[]]; try done; rewrite Hr by done; by intros [= <- <-].
  - rewrite Hr. by intros [= <- <-].
Qed.

Lemma proc_step_more {A} (p : io A) q t d p' q' out :
  resumable_io p -> proc_step p q false = Some (p', q', out) ->
  proc_step p (q ++ t) d = Some (p', q' ++ t, out).
Proof.
  destruct p as [o|X r k|w k]; [done| |].
  - intros [Hr _]. cbn [proc_step]. destruct (read_step r q false) as [[x q1]|] eqn:E; [|done].
    intros [= <- <- <-]. by rewrite (read_step_more _ _ _ _ _ _ Hr E).
  - intros _ [= <- <- <-]. done.
Qed.

Lemma proc_step_not_done {A} (p : io A) q d x : proc_step p q d = Some x -> is_done p = false.
Proof. by destruct p. Qed.

Lemma proc_step_resumable {A} (p : io A) q d p' q' out :
  resumable_io p -> proc_step p q d = Some (p', q', out) -> resumable_io p'.
Proof.
  destruct p as [o|X r k|w k]; [done| |]; simpl.
  - intros [_ Hk]. destruct (read_step r q d) as [[x q1]|]; [|done]. intros [= <- _ _]. apply Hk.
  - intros Hk [= <- _ _]. apply Hk.
Qed.

Definition resumable_config {A B} (c : config A B) : Prop :=
  resumable_io (left c) /\ resumable_io (right c).

Lemma step_resumable {A B} (c c' : config A B) :
  resumable_config c -> step c c' -> resumable_config c'.
Proof.
  intros [Hl Hr] [H|H]; unfold step_left, step_right in H;
    destruct (proc_step _ _ _) as [[[p q] out]|] eqn:E; simplify_eq;
    split; simpl; try done; by eapply proc_step_resumable.
Qed.

Lemma step_diamond {A B} (c c1 c2 : config A B) :
  resumable_config c -> step_left c = Some c1 -> step_right c = Some c2 ->
  exists c3, step_right c1 = Some c3 /\ step_left c2 = Some c3.
Proof.
  intros [Hl Hr] H1 H2. unfold step_left, step_right in H1, H2.
  destruct (proc_step (left c) (to_left c) (is_done (right c))) as [[[p q] o]|] eqn:E1; [|done].
  destruct (proc_step (right c) (to_right c) (is_done (left c))) as [[[p' q'] o']|] eqn:E2; [|done].
  rewrite (proc_step_not_done _ _ _ _ E1) in E2. rewrite (proc_step_not_done _ _ _ _ E2) in E1.
  simplify_eq. eexists. unfold step_left, step_right. cbn [left right to_left to_right].
  rewrite (proc_step_more _ _ o _ _ _ _ Hr E2), (proc_step_more _ _ o' _ _ _ _ Hl E1).
  split; [reflexivity|]. done.
Qed.

(** Random descent: all schedules from a configuration that some schedule of
    [n] steps finishes are prefixes of schedules of [n] steps to the same end. *)
Lemma random_descent {A B} n (c f : config A B) :
  resumable_config c -> nsteps step n c f -> finished f ->
  forall m d, nsteps step m c d -> exists k, n = (m + k)%nat /\ nsteps step k d f.
Proof.
  intros Hc Hn Hf.
  assert (Hfin : forall d, step f d -> False).
  { destruct Hf as [F1 F2]. intros d [H|H]; unfold step_left, step_right in H;
      destruct (proc_step _ _ _) as [x|] eqn:E; try done;
      apply proc_step_not_done in E; congruence. }
  (* one step away from the known schedule *)
  assert (Hone : forall n c d, resumable_config c -> nsteps step n c f -> step c d ->
    exists k, n = S k /\ nsteps step k d f).
  { clear n c Hc Hn. induction n as [|n IH]; intros c d Hc Hn Hd; inversion Hn; simplify_eq.
    - by destruct (Hfin d).
    - rename y into e. exists n. split; [done|].
      assert (Hcase : e = d \/ exists g, step e g /\ step d g).
      { destruct H0 as [He|He], Hd as [Hd|Hd].
        - left. congruence.
        - destruct (step_diamond c e d Hc He Hd) as (g & ? & ?). right. exists g. split; [by right|by left].
        - destruct (step_diamond c d e Hc Hd He) as (g & ? & ?). right. exists g. split; [by left|by right].
        - left. congruence. }
      destruct Hcase as [<-|(g & Heg & Hdg)]; [done|].
      destruct (IH e g (step_resumable c e Hc H0) H1 Heg) as (k & -> & Hk).
      econstructor; done. }
  intros m. revert n c Hc Hn. induction m as [|m IH]; intros n c Hc Hn d Hd; inversion Hd; simplify_eq.
  - by exists n.
  - destruct (Hone n c y Hc Hn H0) as (k & -> & Hk).
    destruct (IH k y (step_resumable _ _ Hc H0) Hk d H1) as (j & -> & Hj). by exists j.
Qed.

(** ** Exchanges

    One side writes what the other is about to read, with empty queues. *)

Lemma exchange_right {A B} {X : Set} (w : wr unit) (r : rd X) (p : result unit -> io A)
    (q : result X -> io B) (R : unit -> X -> Prop) f :
  mirrors w r R ->
  (forall x, R tt x -> rtc step (mkConfig (p (Ok tt)) (q (Ok x)) [] []) f) ->
  rtc step (mkConfig (IoWrite w p) (IoRead r q) [] []) f.
Proof.
  intros ([] & x & bs & -> & Hr & HR) Hf.
  eapply rtc_l; [left; reflexivity|]. cbn [fst snd app right to_right].
  specialize (Hr []). rewrite app_nil_r in Hr.
  eapply rtc_l; [right; unfold step_right; cbn [left right to_left to_right proc_step];
    unfold read_step; rewrite Hr; reflexivity|]. by apply Hf.
Qed.

Lemma exchange_left {A B} {X : Set} (w : wr unit) (r : rd X) (p : result X -> io A)
    (q : result unit -> io B) (R : unit -> X -> Prop) f :
  mirrors w r R ->
  (forall x, R tt x -> rtc step (mkConfig (p (Ok x)) (q (Ok tt)) [] []) f) ->
  rtc step (mkConfig (IoRead r p) (IoWrite w q) [] []) f.
Proof.
  intros ([] & x & bs & -> & Hr & HR) Hf.
  eapply rtc_l; [right; reflexivity|]. cbn [fst snd app right to_left].
  specialize (Hr []). rewrite app_nil_r in Hr.
  eapply rtc_l; [left; unfold step_left; cbn [left right to_left to_right proc_step];
    unfold read_step; rewrite Hr; reflexivity|]. by apply Hf.
Qed.

(** Run a schedule: [true] is a step of the left process. *)
Fixpoint run_schedule {A B} (s : list bool) (c : config A B) : option (config A B) :=
  match s with
  | [] => Some c
  | b :: s' =>
      match (if b then step_left c else step_right c) with
      | Some c' => run_schedule s' c'
      | None => None
      end
  end.

Lemma run_schedule_reaches {A B} s (c f : config A B) :
  run_schedule s c = Some f -> rtc step c f.
Proof.
  revert c. induction s as [|b s IH]; intros c; [by intros [= <-]|]. cbn [run_schedule].
  destruct (if b then step_left c else step_right c) as [c'|] eqn:E; [|done].
  intros H. apply (rtc_l _ _ c'); [|by apply IH]. destruct b; [by left|by right].
Qed.

(** Every run ends, in [f], and never later than the longest. *)
Definition always_ends_in {A B} (c f : config A B) : Prop :=
  finished f /\
  exists n, forall m d, nsteps step m c d -> exists k, n = (m + k)%nat /\ nsteps step k d f.

Lemma reaches_always {A B} (c f : config A B) :
  resumable_config c -> rtc step c f -> finished f -> always_ends_in c f.
Proof.
  intros Hc [n Hn]%rtc_nsteps Hf. split; [done|]. exists n. by apply random_descent.
Qed.

(** ** One process against any input *)

(** [outcomes P p]: whatever the reads give, a process that completes without
    an error completes with a value in [P]. *)
Fixpoint outcomes {A} (P : A -> Prop) (p : io A) : Prop :=
  match p with
  | IoDone (Ok a) => P a
  | IoDone _ => True
  | IoRead r k => forall x, outcomes P (k x)
  | IoWrite w k => forall x, outcomes P (k x)
  end.

Lemma outcomes_bind {A B} (P : A -> Prop) (Q : B -> Prop) (m : io A) (f : A -> io B) :
  outcomes P m -> (forall a, P a -> outcomes Q (f a)) -> outcomes Q (m ≫= f).
Proof.
  intros Hm Hf. induction m as [[a|e|]|X r k IH|w k IH]; simpl in *; auto.
Qed.
