(* ===== verification/WireFormat.v ===== *)
(** Version-dependent wire decisions ([ferrosync-protocol/src/wire_format.rs]):
    [WireFormat], item flags, transfer statistics and the goodbye exchanges. *)
From S2P Require Import Prelude Wire Types Varint Multiplex Proc.

Record WireFormat := mkWireFormat {
  int_codec : IntCodec;
  flags_codec : FlagsCodec;
  device_codec : DeviceCodec;
  has_inline_names : bool;
  has_nanoseconds : bool;
  special_rdev : bool;
  phase_count : Z;
  has_iflags : bool;
  has_error_exit_sync : bool;
  supports_incremental_flist : bool;
  trailing_io_error : bool;
  negotiated_version : Z;
}.

Definition WireFormat_new (version cf : Z) : WireFormat :=
  let varint_flist := has_bits cf compat_flags.VARINT_FLIST_FLAGS in
  {| int_codec := if 30 <=? version then Compact else FixedInt;
     flags_codec := if varint_flist then FVarint
                    else if 28 <=? version then ByteExtended else FByte;
     device_codec := if version <? 28 then SingleInt else MajorMinor (30 <=? version);
     has_inline_names := 30 <=? version;
     has_nanoseconds := 31 <=? version;
     special_rdev := version <? 31;
     phase_count := if 29 <=? version then 2 else 1;
     has_iflags := 29 <=? version;
     has_error_exit_sync := 31 <=? version;
     supports_incremental_flist := (30 <=? version) && has_bits cf compat_flags.INC_RECURSE;
     trailing_io_error := version <? 30;
     negotiated_version := version |}.

(** ** Item flags *)

Definition read_iflags (wf : WireFormat) : rd Z :=
  if negb (has_iflags wf) then mret 0
  else
    buf ← read_exact 2;
    let iflags := le_val buf in
    _ ← (if has_bits iflags 0x0800 then _ ← read_exact 1; mret tt else mret tt);
    _ ← (if has_bits iflags 0x1000 then
           name_len ← read_varint;
           if 0x10000 <? name_len then rd_err (WireValueOutOfRange "xname_len" name_len 0x10000)
           else _ ← read_exact name_len; mret tt
         else mret tt);
    mret iflags.

Definition write_iflags (wf : WireFormat) (iflags : Z) : wr unit :=
  if negb (has_iflags wf) then mret tt
  else _ ← write_shortint iflags; mret tt.

Definition write_iflags_echo (wf : WireFormat) (iflags : Z) : wr unit :=
  if negb (has_iflags wf) then mret tt
  else
    _ ← write_shortint iflags;
    _ ← (if has_bits iflags 0x0800 then write_all [0] else mret tt);
    if has_bits iflags 0x1000 then write_varint 0 else mret tt.

(** ** Statistics *)

(** The bytes written to the local [Vec] before they go to the multiplexer. *)
Definition stats_buf (wf : WireFormat) (stats : TransferStats) : wr unit :=
  let codec := int_codec wf in
  _ ← write_varlong30 0 3 codec;
  _ ← write_varlong30 (as_i64 (bytes_sent stats)) 3 codec;
  _ ← write_varlong30 (as_i64 (total_size stats)) 3 codec;
  if has_iflags wf then
    _ ← write_varlong30 0 3 codec;
    write_varlong30 0 3 codec
  else mret tt.

Definition write_stats (wf : WireFormat) (stats : TransferStats) : wr unit :=
  let '(r, buf) := stats_buf wf stats in
  match r with
  | Ok _ => write_data buf
  | Err e => wr_err e
  | Panic => wr_lift Panic
  end.

Definition read_stats (wf : WireFormat) : rd unit :=
  let codec := int_codec wf in
  _ ← read_varlong30 3 codec;
  _ ← read_varlong30 3 codec;
  _ ← read_varlong30 3 codec;
  if has_iflags wf then
    _ ← read_varlong30 3 codec;
    _ ← read_varlong30 3 codec;
    mret tt
  else mret tt.

(** ** Goodbye exchanges

    [send] is [MplexWriter::write_data] on the output of the process; the
    reads are on the demultiplexed stream. *)
Section goodbye.
  Context (send : list Z -> wr unit).

Definition goodbye_done (st : NdxState) (codec : IntCodec) : NdxState * list Z :=
  let '(r, buf) := write_ndx NDX_DONE st codec in
  (match r with Ok st' => st' | _ => st end, buf).

Definition write_goodbye_done (st : NdxState) (codec : IntCodec) : io NdxState :=
  let '(st', buf) := goodbye_done st codec in
  _ ← io_try_write (send buf);
  mret st'.

(** [let _ = read_ndx(..).await]: a failed read leaves the state as it was. *)
Definition try_read_ndx (st : NdxState) (codec : IntCodec) : io NdxState :=
  IoRead (p ← read_ndx st codec; mret (p.2))
    (fun x => mret (match x with Ok st' => st' | _ => st end)).

Definition sender_goodbye (wf : WireFormat) : io unit :=
  let codec := int_codec wf in
  let read_state := NdxState_default in
  let write_state := NdxState_default in
  if has_error_exit_sync wf then
    read_state ← try_read_ndx read_state codec;
    _ ← write_goodbye_done write_state codec;
    _ ← try_read_ndx read_state codec;
    mret tt
  else
    _ ← try_read_ndx read_state codec;
    mret tt.

Definition receiver_goodbye (wf : WireFormat) : io unit :=
  let codec := int_codec wf in
  let gen_ndx_state := NdxState_default in
  let recv_ndx_state := NdxState_default in
  gen_ndx_state ← write_goodbye_done gen_ndx_state codec;
  _ ← try_read_ndx recv_ndx_state codec;
  gen_ndx_state ← write_goodbye_done gen_ndx_state codec;
  if has_error_exit_sync wf then
    _ ← write_goodbye_done gen_ndx_state codec; mret tt
  else mret tt.

Definition server_sender_goodbye (wf : WireFormat) : io unit :=
  let codec := int_codec wf in
  let send_ndx_state := NdxState_default in
  let gen_ndx_state := NdxState_default in
  _ ← write_goodbye_done send_ndx_state codec;
  gen_ndx_state ← try_read_ndx gen_ndx_state codec;
  gen_ndx_state ← try_read_ndx gen_ndx_state codec;
  if has_error_exit_sync wf then
    _ ← try_read_ndx gen_ndx_state codec; mret tt
  else mret tt.

Definition server_receiver_goodbye (wf : WireFormat) : io unit :=
  let codec := int_codec wf in
  let gen_ndx_state := NdxState_default in
  gen_ndx_state ← write_goodbye_done gen_ndx_state codec;
  if has_error_exit_sync wf then
    _ ← write_goodbye_done gen_ndx_state codec; mret tt
  else mret tt.

End goodbye.

(** ** Vocabulary *)

(** A total the statistics can carry: with the compact codec [write_varlong]
    loses what needs the eighth byte (see [Varint.varlong_exact]). *)
Definition stat_ok (wf : WireFormat) (v : Z) : Prop :=
  0 <= v < 2 ^ 63 /\ (int_codec wf = Compact -> v < 2 ^ 58).

Definition ndx_done_bytes (codec : IntCodec) : list Z :=
  match codec with FixedInt => [255; 255; 255; 255] | Compact => [0] end.

(** ** Lemmas *)

Lemma write_iflags_echo_mirrors wf iflags :
  in_u16 iflags ->
  mirrors (write_iflags_echo wf iflags) (read_iflags wf)
    (fun _ v => v = if has_iflags wf then iflags else 0).
Proof.
  intros Hf. unfold write_iflags_echo, read_iflags. destruct (has_iflags wf); [|by apply mirrors_ret].
  cbn [negb]. eapply mirrors_bind.
  { apply (mirrors_write_exact 2 (le_bytes 2 iflags)). by rewrite length_le_bytes. }
  intros [] ? ->. cbv zeta. rewrite le_val_le_bytes. change (2 ^ (8 * Z.of_nat 2)) with (2 ^ 16).
  rewrite Z.mod_small by done.
  eapply (mirrors_bind _ _ _ _ (fun _ _ => True)).
  { destruct (has_bits iflags 0x0800); [|by apply mirrors_ret].
    apply (mirrors_map _ _ (fun _ => tt)). eapply mirrors_mono; [by apply mirrors_write_exact|]. done. }
  intros [] [] _. apply (mirrors_map _ _ (fun _ => iflags)).
  destruct (has_bits iflags 0x1000); [|by apply mirrors_ret].
  destruct (write_varint_mirrors 0 ltac:(lia)) as ([] & b & bs & Hw & Hr & ->).
  exists tt, tt, bs. split_and!; [done| |done]. intros k. erewrite rd_bind_run by apply Hr.
  change (0x10000 <? 0) with false. cbv iota. by erewrite rd_bind_run by (apply (read_exact_app []); done).
Qed.

Lemma write_varlong30_skip wf v :
  stat_ok wf v ->
  mirrors (write_varlong30 v 3 (int_codec wf)) (read_varlong30 3 (int_codec wf)) (fun _ _ => True).
Proof.
  intros [Hv Hc]. eapply mirrors_mono; [apply write_varlong30_mirrors; [lia|lia|]|done].
  intros E. specialize (Hc E). unfold varlong_range. change (55 + Z.of_nat 3) with 58.
  destruct (Z.leb_spec 0 v), (Z.ltb_spec v (2 ^ 58)); simpl; lia.
Qed.

Lemma stats_buf_mirrors wf stats :
  stat_ok wf (bytes_sent stats) -> stat_ok wf (total_size stats) ->
  mirrors (stats_buf wf stats) (read_stats wf) (fun _ _ => True).
Proof.
  intros Hb Ht. unfold stats_buf, read_stats. cbv zeta.
  assert (H0 : stat_ok wf 0) by (split; lia).
  assert (E : forall v, stat_ok wf v -> as_i64 v = v) by (intros v [Hv _]; apply swrap_id; lia).
  rewrite !E by done.
  eapply mirrors_bind; [by apply write_varlong30_skip|]. intros _ _ _.
  eapply mirrors_bind; [by apply write_varlong30_skip|]. intros _ _ _.
  eapply mirrors_bind; [by apply write_varlong30_skip|]. intros _ _ _.
  destruct (has_iflags wf); [|by apply mirrors_ret].
  eapply mirrors_bind; [by apply write_varlong30_skip|]. intros _ _ _.
  apply (mirrors_map _ _ (fun _ => tt)). eapply mirrors_mono; [by apply write_varlong30_skip|done].
Qed.

Lemma goodbye_done_eq st codec : goodbye_done st codec = (st, ndx_done_bytes codec).
Proof. by destruct codec. Qed.

Lemma read_ndx_done st codec k : read_ndx st codec (ndx_done_bytes codec ++ k) = Ok ((NDX_DONE, st), k).
Proof.
  destruct codec.
  - unfold read_ndx, read_int. change (bool_decide (FixedInt = FixedInt)) with true. cbv iota.
    change (ndx_done_bytes FixedInt) with [255; 255; 255; 255].
    erewrite rd_bind_run; [|by erewrite rd_bind_run by (apply (read_exact_app [_; _; _; _] k 4); reflexivity)].
    done.
  - unfold read_ndx. change (bool_decide (Compact = FixedInt)) with false. cbv iota.
    by erewrite rd_bind_run by apply read_exact_cons.
Qed.

Lemma resumable_read_ndx st codec : resumable (read_ndx st codec).
Proof. unfold read_ndx, read_int. resume. Qed.

Lemma resumable_write_goodbye send st codec : resumable_io (write_goodbye_done send st codec).
Proof. unfold write_goodbye_done. by destruct codec. Qed.

Lemma resumable_try_read_ndx st codec : resumable_io (try_read_ndx st codec).
Proof.
  split; [|done]. apply resumable_bind; [apply resumable_read_ndx|].
  intros. apply resumable_ret.
Qed.

(** Decide [resumable_io] on the goodbye functions. *)
Ltac goodbye_resumable :=
  cbv zeta;
  repeat first
    [ exact I | apply resumable_write_goodbye | apply resumable_try_read_ndx
    | apply resumable_io_bind; [|intros ?] | case_match ].

Lemma goodbye_resumable send wf :
  resumable_io (sender_goodbye send wf) /\ resumable_io (receiver_goodbye send wf) /\
  resumable_io (server_sender_goodbye send wf) /\ resumable_io (server_receiver_goodbye send wf).
Proof.
  unfold sender_goodbye, receiver_goodbye, server_sender_goodbye, server_receiver_goodbye.
  split_and!; goodbye_resumable.
Qed.

(** ** Properties *)

(** Item flags: [read_iflags] consumes exactly what [write_iflags_echo]
    wrote, trailing basis type and name included, and returns the flags (or 0
    where the protocol has none). *)
Theorem iflags_echo_roundtrip wf iflags k :
  in_u16 iflags ->
  exists bs, write_iflags_echo wf iflags = (Ok tt, bs) /\
    read_iflags wf (bs ++ k) = Ok (if has_iflags wf then iflags else 0, k).
Proof.
  intros Hf. destruct (write_iflags_echo_mirrors wf iflags Hf) as ([] & v & bs & Hw & Hr & ->).
  by exists bs.
Qed.

Lemma iflags_echo_roundtrip_witness :
  in_u16 0x9804 /\
  exists bs, write_iflags_echo (WireFormat_new 31 0) 0x9804 = (Ok tt, bs) /\
    read_iflags (WireFormat_new 31 0) (bs ++ [42]) = Ok (0x9804, [42]).
Proof. split; [lia|]. apply (iflags_echo_roundtrip (WireFormat_new 31 0) 0x9804 [42]). lia. Defined.

(** Statistics: for totals the codec can carry, [write_stats] sends DATA
    frames only, and the peer's [read_stats] consumes exactly the bytes those
    frames deliver, for every protocol version. *)
Theorem stats_exchange wf stats k :
  stat_ok wf (bytes_sent stats) -> stat_ok wf (total_size stats) ->
  exists cs, write_stats wf stats = (Ok tt, concat (map (fun c => frame (Data, c)) cs)) /\
    read_stats wf (concat cs ++ k) = Ok (tt, k).
Proof.
  intros Hb Ht. destruct (stats_buf_mirrors wf stats Hb Ht) as ([] & [] & bs & Hw & Hr & _).
  exists (chunks (Z.to_nat DATA_CHUNK_SIZE) bs). unfold write_stats. rewrite Hw. split.
  - apply write_data_frames.
  - rewrite concat_chunks by apply chunk_size_pos. apply Hr.
Qed.

Definition example_stats : TransferStats := mkTransferStats 1 1 70000 12 1000000 0 0 0 0 0 0.

Lemma stats_exchange_witness :
  stat_ok (WireFormat_new 31 0) 70000 /\
  exists cs, write_stats (WireFormat_new 31 0) example_stats
      = (Ok tt, concat (map (fun c => frame (Data, c)) cs)) /\
    read_stats (WireFormat_new 31 0) (concat cs ++ [3]) = Ok (tt, [3]).
Proof.
  split; [split; lia|]. apply (stats_exchange (WireFormat_new 31 0) example_stats [3]); split; simpl; lia.
Defined.

(** The goodbye exchanges cannot deadlock: for every protocol version the
    client's sender with the server's receiver, and the client's receiver with
    the server's sender, come to an end under every interleaving of their
    steps. The second pair leaves no byte unread; in the first one the
    server's receiver never reads the acknowledgement that the client's sender
    writes from protocol 31 on. *)
Theorem goodbye_completes wf :
  always_ends_in
    (mkConfig (sender_goodbye write_all wf) (server_receiver_goodbye write_all wf) [] [])
    (mkConfig (IoDone (Ok tt)) (IoDone (Ok tt))
       (if has_error_exit_sync wf then ndx_done_bytes (int_codec wf) else []) []) /\
  always_ends_in
    (mkConfig (receiver_goodbye write_all wf) (server_sender_goodbye write_all wf) [] [])
    (mkConfig (IoDone (Ok tt)) (IoDone (Ok tt)) [] []).
Proof.
  destruct (goodbye_resumable write_all wf) as (H1 & H2 & H3 & H4).
  split; (apply reaches_always; [by split| |by split]); clear;
    destruct wf as [codec ? ? ? ? ? ? ? sync ? ? ?]; destruct codec, sync.
  1, 3: apply (run_schedule_reaches [false; true; true; false; true]); vm_compute; reflexivity.
  1, 2: apply (run_schedule_reaches [false; true]); vm_compute; reflexivity.
  1, 3: apply (run_schedule_reaches [true; false; true; true; true; false; false; false]);
    vm_compute; reflexivity.
  all: apply (run_schedule_reaches [true; false; true; true; false; false]);
    vm_compute; reflexivity.
Qed.
