(* ===== verification/Handshake.v ===== *)
(** The protocol handshake ([ferrosync-protocol/src/handshake.rs]).

    Client and server are processes over a pair of streams (see [Proc]).  A Rust
    [&str] is the list of its UTF-8 bytes.  The checksum seed the server draws
    from the clock and its process id is a parameter. *)
From S2P Require Import Prelude Wire Types Utf8 Varint Proc WireFormat.

Definition MIN_PROTOCOL_VERSION : Z := 27.
Definition MAX_PROTOCOL_VERSION : Z := 32.

Record NegotiatedProtocol := mkNegotiatedProtocol {
  version : Z;
  compat_flags : Z;
  checksum_type : ChecksumType;
  compress : CompressType;
  proper_seed_order : bool;
  seed : Z;
  chunking : ChunkingStrategy;
  wire : WireFormat;
}.

(** ** Capability string *)

Definition build_capability_string (inc_recurse symlink_times iconv : bool) : list Z :=
  let caps := str_bytes "." in
  let caps := if inc_recurse then caps ++ str_bytes "i" else caps in
  let caps := if symlink_times then caps ++ str_bytes "L" else caps in
  let caps := if iconv then caps ++ str_bytes "s" else caps in
  let caps := caps ++ str_bytes "f" in
  let caps := caps ++ str_bytes "x" in
  let caps := caps ++ str_bytes "C" in
  let caps := caps ++ str_bytes "I" in
  let caps := caps ++ str_bytes "v" in
  caps ++ str_bytes "u".

(** [for ch in info.chars()]: the flags are ASCII characters, and no byte of a
    multi-byte character is one.  The [cfg(unix)] build. *)
Definition build_compat_flags_from_client_info (info : list Z) : Z :=
  let flags := Z.lor 0 compat_flags.INC_RECURSE in
  let flags := Z.lor flags compat_flags.SYMLINK_TIMES in
  foldl (fun flags ch =>
    if ch =? 102 then Z.lor flags compat_flags.SAFE_FLIST
    else if ch =? 120 then Z.lor flags compat_flags.AVOID_XATTR_OPTIM
    else if ch =? 67 then Z.lor flags compat_flags.CHKSUM_SEED_FIX
    else if ch =? 73 then Z.lor flags compat_flags.INPLACE_PARTIAL_DIR
    else if ch =? 118 then Z.lor flags compat_flags.VARINT_FLIST_FLAGS
    else if ch =? 117 then Z.lor flags compat_flags.ID0_NAMES
    else flags) flags info.

(** ** Length-prefixed strings *)

Definition read_vstring : rd (list Z) :=
  first ← read_byte;
  len ← (if has_bits first 0x80 then
           second ← read_byte;
           mret (Z.lor (Z.land first 0x7F ≪ 8) second)
         else mret first);
  buf ← read_exact len;
  mret (from_utf8_lossy buf).

Definition write_vstring (s : list Z) : wr unit :=
  let len := Z.of_nat (length s) in
  if 32767 <? len then wr_err (Handshake ("vstring too long: " +:+ pretty len))
  else
    _ ← (if len <=? 127 then write_all [as_u8 len]
         else write_all [Z.lor (as_u8 (len ≫ 8)) 0x80; as_u8 (Z.land len 0xFF)]);
    write_all s.

(** ** Algorithm lists *)

Definition CHECKSUM_LIST : list Z := str_bytes "blake3 xxh128 xxh3 md5 md4 none".
Definition COMPRESS_LIST : list Z := str_bytes "zlibx zlib none".

(** The length of the Unicode white space character [l] starts with, or 0. *)
Definition whitespace_len (l : list Z) : nat :=
  match l with
  | b0 :: l1 =>
      if in_range 9 13 b0 || (b0 =? 32) then 1%nat
      else match l1 with
      | b1 :: l2 =>
          if (b0 =? 0xC2) && ((b1 =? 0x85) || (b1 =? 0xA0)) then 2%nat
          else match l2 with
          | b2 :: _ =>
              if (b0 =? 0xE1) && (b1 =? 0x9A) && (b2 =? 0x80) then 3%nat
              else if (b0 =? 0xE2) && (b1 =? 0x80)
                      && (in_range 0x80 0x8A b2 || in_range 0xA8 0xA9 b2 || (b2 =? 0xAF)) then 3%nat
              else if (b0 =? 0xE2) && (b1 =? 0x81) && (b2 =? 0x9F) then 3%nat
              else if (b0 =? 0xE3) && (b1 =? 0x80) && (b2 =? 0x80) then 3%nat
              else 0%nat
          | [] => 0%nat
          end
      | [] => 0%nat
      end
  | [] => 0%nat
  end.

(** [str::split_whitespace], one byte or one white space character per round. *)
Fixpoint split_ws_aux (fuel : nat) (cur l : list Z) : list (list Z) :=
  let emit rest := match cur with [] => rest | _ => cur :: rest end in
  match fuel with
  | O => emit []
  | S fuel' =>
      match l with
      | [] => emit []
      | b :: l' =>
          match whitespace_len l with
          | O => split_ws_aux fuel' (cur ++ [b]) l'
          | n => emit (split_ws_aux fuel' [] (drop n l))
          end
      end
  end.
Definition split_whitespace (l : list Z) : list (list Z) := split_ws_aux (S (length l)) [] l.

Definition bytes_str (l : list Z) : string :=
  fold_right (fun b s => String (Ascii.ascii_of_nat (Z.to_nat b)) s) "" l.

Fixpoint negotiate_loop {T} (names receiver : list (list Z)) (parse_fn : list Z -> option T)
    : option T :=
  match names with
  | [] => None
  | name :: names' =>
      if existsb (fun r => bool_decide (r = name)) receiver then
        match parse_fn name with
        | Some algo => Some algo
        | None => negotiate_loop names' receiver parse_fn
        end
      else negotiate_loop names' receiver parse_fn
  end.

Definition negotiate_algorithm {T} (sender_list receiver_list : list Z)
    (parse_fn : list Z -> option T) : result T :=
  match negotiate_loop (split_whitespace sender_list) (split_whitespace receiver_list) parse_fn with
  | Some algo => Ok algo
  | None => Err (Handshake ("no common algorithm: sender=[" +:+ bytes_str sender_list
                             +:+ "], receiver=[" +:+ bytes_str receiver_list +:+ "]"))
  end.

Definition checksum_from_name (name : list Z) : option ChecksumType :=
  ChecksumType.from_name (bytes_str name).
Definition compress_from_name (name : list Z) : option CompressType :=
  CompressType.from_name (bytes_str name).

Definition unwrap_or {A} (o : option A) (d : A) : A := match o with Some a => a | None => d end.

(** ** The two handshakes *)

Definition client_handshake (am_sender use_compress : bool)
    (checksum_choice compress_choice : option (list Z)) : io NegotiatedProtocol :=
  _ ← io_write (write_int (as_i32 MAX_PROTOCOL_VERSION));
  v ← io_read read_int;
  let remote_version := as_u8 v in
  let version := Z.min MAX_PROTOCOL_VERSION remote_version in
  if version <? MIN_PROTOCOL_VERSION then
    io_lift (Err (UnsupportedVersion remote_version MIN_PROTOCOL_VERSION MAX_PROTOCOL_VERSION))
  else
    flags ← (if 30 <=? version then io_read read_varint else mret 0);
    let do_negotiated_strings := has_bits flags compat_flags.VARINT_FLIST_FLAGS in
    let proper_seed_order := has_bits flags compat_flags.CHKSUM_SEED_FIX in
    let checksum := ChecksumType.default_for_version version in
    let compress := if use_compress then Zlib else CpNone in
    algos ← (
      if do_negotiated_strings then
        let our_checksum_list := unwrap_or checksum_choice CHECKSUM_LIST in
        let our_compress_list := unwrap_or compress_choice COMPRESS_LIST in
        _ ← io_write (write_vstring our_checksum_list);
        remote_checksums ← io_read read_vstring;
        checksum ← io_lift (
          if am_sender then negotiate_algorithm our_checksum_list remote_checksums checksum_from_name
          else negotiate_algorithm remote_checksums our_checksum_list checksum_from_name);
        compress ← (
          if use_compress then
            _ ← io_write (write_vstring our_compress_list);
            remote_compress ← io_read read_vstring;
            io_lift (
              if am_sender then negotiate_algorithm our_compress_list remote_compress compress_from_name
              else negotiate_algorithm remote_compress our_compress_list compress_from_name)
          else mret compress);
        mret (checksum, compress)
      else mret (checksum, compress));
    seed ← io_read read_int;
    mret (mkNegotiatedProtocol version flags (fst algos) (snd algos) proper_seed_order seed
            ChunkingStrategy.default (WireFormat_new version flags)).

Definition server_handshake (client_info : list Z) (am_sender use_compress : bool)
    (generate_seed : Z) : io NegotiatedProtocol :=
  v ← io_read read_int;
  let remote_version := as_u8 v in
  _ ← io_write (write_int (as_i32 MAX_PROTOCOL_VERSION));
  let version := Z.min MAX_PROTOCOL_VERSION remote_version in
  if version <? MIN_PROTOCOL_VERSION then
    io_lift (Err (UnsupportedVersion remote_version MIN_PROTOCOL_VERSION MAX_PROTOCOL_VERSION))
  else
    flags ← (
      if 30 <=? version then
        let flags := build_compat_flags_from_client_info client_info in
        _ ← io_write (write_varint flags);
        mret flags
      else mret 0);
    let do_negotiated_strings := has_bits flags compat_flags.VARINT_FLIST_FLAGS in
    let proper_seed_order := has_bits flags compat_flags.CHKSUM_SEED_FIX in
    let checksum := ChecksumType.default_for_version version in
    let compress := if use_compress then Zlib else CpNone in
    algos ← (
      if do_negotiated_strings then
        remote_checksums ← io_read read_vstring;
        _ ← io_write (write_vstring CHECKSUM_LIST);
        checksum ← io_lift (
          if am_sender then negotiate_algorithm CHECKSUM_LIST remote_checksums checksum_from_name
          else negotiate_algorithm remote_checksums CHECKSUM_LIST checksum_from_name);
        compress ← (
          if use_compress then
            remote_compress ← io_read read_vstring;
            _ ← io_write (write_vstring COMPRESS_LIST);
            io_lift (
              if am_sender then negotiate_algorithm COMPRESS_LIST remote_compress compress_from_name
              else negotiate_algorithm remote_compress COMPRESS_LIST compress_from_name)
          else mret compress);
        mret (checksum, compress)
      else mret (checksum, compress));
    let seed := generate_seed in
    _ ← io_write (write_int seed);
    mret (mkNegotiatedProtocol version flags (fst algos) (snd algos) proper_seed_order seed
            ChunkingStrategy.default (WireFormat_new version flags)).

(** ** Specification *)

(** What the two sides are to agree on: the preference order is the sending
    side's, and a server knows only its built-in lists. *)
Definition agreed (client_info : list Z) (client_sends use_compress : bool)
    (checksum_choice compress_choice : option (list Z)) (seed : Z) : result NegotiatedProtocol :=
  let flags := build_compat_flags_from_client_info client_info in
  let pick {T} (client server : list Z) (parse : list Z -> option T) :=
    if client_sends then negotiate_algorithm client server parse
    else negotiate_algorithm server client parse in
  algos ← (
    if has_bits flags compat_flags.VARINT_FLIST_FLAGS then
      ck ← pick (unwrap_or checksum_choice CHECKSUM_LIST) CHECKSUM_LIST checksum_from_name;
      cp ← (if use_compress
            then pick (unwrap_or compress_choice COMPRESS_LIST) COMPRESS_LIST compress_from_name
            else mret CpNone);
      mret (ck, cp)
    else mret (Md5, if use_compress then Zlib else CpNone));
  mret (mkNegotiatedProtocol 32 flags (fst algos) (snd algos)
          (has_bits flags compat_flags.CHKSUM_SEED_FIX) seed ChunkingStrategy.default
          (WireFormat_new 32 flags)).

(** A list a user may pass: valid UTF-8 that a vstring can carry. *)
Definition choice_ok (c : option (list Z)) : Prop :=
  match c with
  | Some s => utf8_valid s = true /\ Forall is_byte s /\ Z.of_nat (length s) <= 32767
  | None => True
  end.

(** ** Lemmas *)

Lemma write_vstring_mirrors s :
  utf8_valid s = true -> Z.of_nat (length s) <= 32767 ->
  mirrors (write_vstring s) read_vstring (fun _ b => b = s).
Proof.
  intros Hu Hl. unfold write_vstring, read_vstring. cbv zeta.
  remember (Z.of_nat (length s)) as len eqn:El.
  destruct (Z.ltb_spec 32767 len); [lia|].
  assert (Htail : forall k, (buf ← read_exact len; mret (from_utf8_lossy buf)) (s ++ k) = Ok (s, k)).
  { intros k. erewrite rd_bind_run by (apply read_exact_app; exact El).
    by rewrite from_utf8_lossy_valid. }
  destruct (Z.leb_spec len 127); eexists tt, s, _; (split_and!; [reflexivity| |done]); intros k.
  - cbn [app]. unfold read_byte. rewrite (wrap_id 8) by lia.
    erewrite rd_bind_run; [|by erewrite rd_bind_run by apply read_exact_cons]. look.
    rewrite byte_small_has by lia. by erewrite rd_bind_run.
  - cbn [app]. unfold read_byte. destruct (ndx_diff_bytes len) as [Hh Hd]; [lia|].
    erewrite rd_bind_run; [|by erewrite rd_bind_run by apply read_exact_cons]. look.
    rewrite byte_or80_has by done. cbv iota.
    erewrite rd_bind_run; [apply Htail|].
    erewrite rd_bind_run; [|by erewrite rd_bind_run by apply read_exact_cons]. look.
    rewrite byte_or80_and7f, Hd by done. done.
Qed.

Lemma list_mirrors c d :
  choice_ok c -> utf8_valid d = true -> Z.of_nat (length d) <= 32767 ->
  mirrors (write_vstring (unwrap_or c d)) read_vstring (fun _ b => b = unwrap_or c d).
Proof. intros Hc Hu Hl. destruct c as [s|]; [destruct Hc as (? & ? & ?)|]; by apply write_vstring_mirrors. Qed.

Lemma builtin_lists :
  utf8_valid CHECKSUM_LIST = true /\ Z.of_nat (length CHECKSUM_LIST) <= 32767 /\
  utf8_valid COMPRESS_LIST = true /\ Z.of_nat (length COMPRESS_LIST) <= 32767.
Proof. split_and!; vm_compute; done. Qed.

Lemma client_flags_fold_range info flags :
  0 <= flags < 2 ^ 9 ->
  0 <= foldl (fun flags ch =>
    if ch =? 102 then Z.lor flags compat_flags.SAFE_FLIST
    else if ch =? 120 then Z.lor flags compat_flags.AVOID_XATTR_OPTIM
    else if ch =? 67 then Z.lor flags compat_flags.CHKSUM_SEED_FIX
    else if ch =? 73 then Z.lor flags compat_flags.INPLACE_PARTIAL_DIR
    else if ch =? 118 then Z.lor flags compat_flags.VARINT_FLIST_FLAGS
    else if ch =? 117 then Z.lor flags compat_flags.ID0_NAMES
    else flags) flags info < 2 ^ 9.
Proof.
  revert flags. induction info as [|ch info IH]; intros flags Hf; [done|]. cbn [foldl]. apply IH.
  assert (Hlor : forall m, 0 <= m < 2 ^ 9 -> 0 <= Z.lor flags m < 2 ^ 9).
  { intros m Hm. split; [apply Z.lor_nonneg; lia|].
    destruct (Z.eq_dec (Z.lor flags m) 0) as [->|]; [done|].
    pose proof (proj2 (Z.lor_nonneg flags m) ltac:(lia)).
    apply Z.log2_lt_pow2; [lia|]. rewrite Z.log2_lor by lia.
    apply Z.max_lub_lt.
    - destruct (Z.eq_dec flags 0) as [->|]; [done|]. apply Z.log2_lt_pow2; lia.
    - destruct (Z.eq_dec m 0) as [->|]; [done|]. apply Z.log2_lt_pow2; lia. }
  repeat split_if; try apply Hlor; try (vm_compute; split; congruence); done.
Qed.

Lemma client_flags_range info : in_u32 (build_compat_flags_from_client_info info).
Proof.
  pose proof (client_flags_fold_range info
    (Z.lor (Z.lor 0 compat_flags.INC_RECURSE) compat_flags.SYMLINK_TIMES)
    ltac:(vm_compute; split; congruence)) as H.
  unfold build_compat_flags_from_client_info. lia.
Qed.

(** The server sets [INC_RECURSE] whatever the client announced. *)
Lemma has_bits_lor_mono flags m b :
  has_bits flags b = true -> has_bits (Z.lor flags m) b = true.
Proof.
  unfold has_bits. rewrite !negb_true_iff, !Z.eqb_neq, Z.land_lor_distr_l. intros H E.
  apply Z.lor_eq_0_iff in E. tauto.
Qed.

Lemma flags_fold_inc_recurse info flags :
  has_bits flags compat_flags.INC_RECURSE = true ->
  has_bits (foldl (fun flags ch =>
    if ch =? 102 then Z.lor flags compat_flags.SAFE_FLIST
    else if ch =? 120 then Z.lor flags compat_flags.AVOID_XATTR_OPTIM
    else if ch =? 67 then Z.lor flags compat_flags.CHKSUM_SEED_FIX
    else if ch =? 73 then Z.lor flags compat_flags.INPLACE_PARTIAL_DIR
    else if ch =? 118 then Z.lor flags compat_flags.VARINT_FLIST_FLAGS
    else if ch =? 117 then Z.lor flags compat_flags.ID0_NAMES
    else flags) flags info) compat_flags.INC_RECURSE = true.
Proof.
  revert flags. induction info as [|ch info IH]; intros flags Hf; [done|]. cbn [foldl]. apply IH.
  repeat split_if; try done; by apply has_bits_lor_mono.
Qed.

Lemma server_sets_inc_recurse info :
  has_bits (build_compat_flags_from_client_info info) compat_flags.INC_RECURSE = true.
Proof. apply flags_fold_inc_recurse. done. Qed.

(** Bring a process to its next action. *)
Ltac to_action :=
  cbn [mbind io_bind io_bind_fix io_write io_read io_lift mret io_ret].

(** One exchange of the two processes, with the mirroring lemma [H]. *)
Ltac exchange H :=
  to_action;
  first [ eapply exchange_right; [exact H|] | eapply exchange_left; [exact H|] ];
  let x := fresh "x" in let Hx := fresh "Hx" in
  intros x Hx; simpl in Hx; subst x; to_action.

Lemma handshake_reaches info client_sends use_compress cc zc seed :
  choice_ok cc -> choice_ok zc -> in_i32 seed ->
  rtc step
    (mkConfig (client_handshake client_sends use_compress cc zc)
       (server_handshake info (negb client_sends) use_compress seed) [] [])
    (mkConfig (IoDone (agreed info client_sends use_compress cc zc seed))
       (IoDone (agreed info client_sends use_compress cc zc seed)) [] []).
Proof.
  intros Hcc Hzc Hs. destruct builtin_lists as (U1 & L1 & U2 & L2).
  pose proof (client_flags_range info) as Hf.
  unfold client_handshake, server_handshake, agreed.
  remember (build_compat_flags_from_client_info info) as flags eqn:Ef. clear Ef.
  assert (Hseed : mirrors (write_int seed) read_int (fun _ y => y = seed)).
  { eapply mirrors_mono; [apply write_int_mirrors|]. intros _ ? ->. apply swrap_id; lia. }
  exchange (write_int_mirrors (as_i32 MAX_PROTOCOL_VERSION)).
  exchange (write_int_mirrors (as_i32 MAX_PROTOCOL_VERSION)).
  change (as_u8 (as_i32 (as_i32 MAX_PROTOCOL_VERSION))) with 32.
  change (MAX_PROTOCOL_VERSION `min` 32) with 32. change (32 <? MIN_PROTOCOL_VERSION) with false.
  change (30 <=? 32) with true. cbv iota zeta.
  exchange (write_varint_mirrors flags Hf).
  destruct (has_bits flags compat_flags.VARINT_FLIST_FLAGS).
  2: { exchange Hseed. reflexivity. }
  exchange (list_mirrors cc CHECKSUM_LIST Hcc U1 L1).
  exchange (write_vstring_mirrors CHECKSUM_LIST U1 L1).
  destruct client_sends; cbn [negb].
  all: match goal with |- context [negotiate_algorithm ?a ?b checksum_from_name] =>
         destruct (negotiate_algorithm a b checksum_from_name) as [ck|e|] end; to_action;
       try reflexivity.
  all: destruct use_compress; to_action; [|exchange Hseed; reflexivity].
  all: exchange (list_mirrors zc COMPRESS_LIST Hzc U2 L2).
  all: exchange (write_vstring_mirrors COMPRESS_LIST U2 L2).
  all: match goal with |- context [negotiate_algorithm ?a ?b compress_from_name] =>
         destruct (negotiate_algorithm a b compress_from_name) as [cp|e|] end; to_action;
       try reflexivity.
  all: exchange Hseed; reflexivity.
Qed.

Lemma resumable_read_int : resumable read_int.
Proof. unfold read_int. resume. Qed.

Lemma resumable_read_varint : resumable read_varint.
Proof. unfold read_varint. resume. Qed.

Lemma resumable_read_vstring : resumable read_vstring.
Proof. unfold read_vstring, read_byte. resume. Qed.

(** Decide [resumable_io] on a handshake. *)
Ltac handshake_resumable :=
  repeat first
    [ exact I | apply resumable_io_bind; [|intros ?]
    | apply resumable_io_read;
      first [apply resumable_read_int | apply resumable_read_varint | apply resumable_read_vstring]
    | progress cbv zeta | progress (cbn [resumable_io io_write io_lift]; intros) | case_match ].

Lemma client_resumable am_sender use_compress cc zc :
  resumable_io (client_handshake am_sender use_compress cc zc).
Proof. unfold client_handshake. handshake_resumable. Qed.

Lemma server_resumable info am_sender use_compress seed :
  resumable_io (server_handshake info am_sender use_compress seed).
Proof. unfold server_handshake. handshake_resumable. Qed.

(** What a completed handshake guarantees, whatever the peer sends. *)
Definition negotiated_ok (p : NegotiatedProtocol) : Prop :=
  MIN_PROTOCOL_VERSION <= version p <= MAX_PROTOCOL_VERSION /\
  (version p < 30 -> compat_flags p = 0) /\
  wire p = WireFormat_new (version p) (compat_flags p) /\
  proper_seed_order p = has_bits (compat_flags p) compat_flags.CHKSUM_SEED_FIX /\
  (has_bits (compat_flags p) compat_flags.VARINT_FLIST_FLAGS = false ->
     checksum_type p = ChecksumType.default_for_version (version p)).

Lemma outcomes_true {A} (m : io A) : outcomes (fun _ => True) m.
Proof. induction m as [[]| |]; simpl; auto. Qed.

Lemma outcomes_any {A B} (Q : B -> Prop) (m : io A) (f : A -> io B) :
  (forall a, outcomes Q (f a)) -> outcomes Q (m ≫= f).
Proof. intros Hf. eapply outcomes_bind; [apply outcomes_true|]. auto. Qed.

Lemma finish_ok version flags algos sd :
  MIN_PROTOCOL_VERSION <= version <= MAX_PROTOCOL_VERSION ->
  (version < 30 -> flags = 0) ->
  (has_bits flags compat_flags.VARINT_FLIST_FLAGS = false ->
     fst algos = ChecksumType.default_for_version version) ->
  negotiated_ok (mkNegotiatedProtocol version flags (fst algos) (snd algos)
    (has_bits flags compat_flags.CHKSUM_SEED_FIX) sd ChunkingStrategy.default
    (WireFormat_new version flags)).
Proof. intros Hv Hf Ha. unfold negotiated_ok. simpl. tauto. Qed.

(** ** Properties *)

(** C31. The handshake implements its specification and cannot deadlock: for any
    capability string, direction, compression setting, user-chosen algorithm
    lists and seed, a client and a server connected to each other come to an
    end under every interleaving of their steps, with no byte left unread, and
    both with the outcome [agreed] prescribes: the same protocol, or the same
    failed negotiation. *)
Theorem handshake_agreement info client_sends use_compress cc zc seed :
  choice_ok cc -> choice_ok zc -> in_i32 seed ->
  let outcome := agreed info client_sends use_compress cc zc seed in
  always_ends_in
    (mkConfig (client_handshake client_sends use_compress cc zc)
       (server_handshake info (negb client_sends) use_compress seed) [] [])
    (mkConfig (IoDone outcome) (IoDone outcome) [] []).
Proof.
  intros Hcc Hzc Hs. apply reaches_always; [|by apply handshake_reaches|done].
  split; [apply client_resumable|apply server_resumable].
Qed.

Definition example_outcome : NegotiatedProtocol :=
  mkNegotiatedProtocol 32 507 Md5 Zlibx true 77 ChunkingStrategy.default (WireFormat_new 32 507).

Lemma handshake_agreement_witness :
  choice_ok (Some (str_bytes "md5 xxh3")) /\
  always_ends_in
    (mkConfig (client_handshake true true (Some (str_bytes "md5 xxh3")) None)
       (server_handshake (build_capability_string false true false) false true 77) [] [])
    (mkConfig (IoDone (Ok example_outcome)) (IoDone (Ok example_outcome)) [] []).
Proof.
  assert (H : choice_ok (Some (str_bytes "md5 xxh3"))).
  { split_and!; [vm_compute; reflexivity|vm_compute; repeat constructor; discriminate|].
    vm_compute. discriminate. }
  split; [exact H|].
  apply (handshake_agreement (build_capability_string false true false) true true
    (Some (str_bytes "md5 xxh3")) None 77 H I). lia.
Defined.

(** A handshake against an arbitrary peer: whatever bytes the other side
    sends, a client or server handshake that completes has agreed on a version
    between 27 and 32, takes no compatibility flags below version 30, resolves
    the wire format from exactly the version and flags it reports, and falls
    back to the version's default checksum when no lists were exchanged. *)
Theorem handshake_outcomes info am_sender use_compress cc zc seed :
  outcomes negotiated_ok (client_handshake am_sender use_compress cc zc) /\
  outcomes negotiated_ok (server_handshake info am_sender use_compress seed).
Proof.
  assert (Hv : forall v, (MAX_PROTOCOL_VERSION `min` as_u8 v <? MIN_PROTOCOL_VERSION) = false ->
    MIN_PROTOCOL_VERSION <= MAX_PROTOCOL_VERSION `min` as_u8 v <= MAX_PROTOCOL_VERSION)
    by (intros v H; zbool; lia).
  split.
  - unfold client_handshake. apply outcomes_any. intros _. apply outcomes_any. intros v. cbv zeta.
    destruct (_ <? MIN_PROTOCOL_VERSION) eqn:E; [exact I|]. apply Hv in E.
    eapply (outcomes_bind (fun flags => MAX_PROTOCOL_VERSION `min` as_u8 v < 30 -> flags = 0)).
    { destruct (Z.leb_spec 30 (MAX_PROTOCOL_VERSION `min` as_u8 v)); [|done].
      intros [f| |]; simpl; done || lia. }
    intros flags Hf. eapply (outcomes_bind (fun algos =>
      has_bits flags compat_flags.VARINT_FLIST_FLAGS = false ->
      fst algos = ChecksumType.default_for_version (MAX_PROTOCOL_VERSION `min` as_u8 v))).
    { destruct (has_bits flags _); [|done].
      repeat (apply outcomes_any; intros ?). simpl. done. }
    intros algos Ha. apply outcomes_any. intros sd. by apply finish_ok.
  - unfold server_handshake. apply outcomes_any. intros v. apply outcomes_any. intros _. cbv zeta.
    destruct (_ <? MIN_PROTOCOL_VERSION) eqn:E; [exact I|]. apply Hv in E.
    eapply (outcomes_bind (fun flags => MAX_PROTOCOL_VERSION `min` as_u8 v < 30 -> flags = 0)).
    { destruct (Z.leb_spec 30 (MAX_PROTOCOL_VERSION `min` as_u8 v)); [|done].
      intros [f| |]; simpl; done || lia. }
    intros flags Hf. eapply (outcomes_bind (fun algos =>
      has_bits flags compat_flags.VARINT_FLIST_FLAGS = false ->
      fst algos = ChecksumType.default_for_version (MAX_PROTOCOL_VERSION `min` as_u8 v))).
    { destruct (has_bits flags _); [|done].
      repeat (apply outcomes_any; intros ?). simpl. done. }
    intros algos Ha. apply outcomes_any. intros _. by apply finish_ok.
Qed.

(** Incremental recursion cannot be declined: a server's compatibility
    flags contain [INC_RECURSE] whatever capability string the client sent, so
    every agreement reached with it switches incremental file lists on, also
    when the client left the [i] capability out. *)
Theorem inc_recurse_always_on info client_sends use_compress cc zc seed p :
  agreed info client_sends use_compress cc zc seed = Ok p ->
  supports_incremental_flist (wire p) = true.
Proof.
  pose proof (server_sets_inc_recurse info) as H. unfold agreed. cbv zeta.
  match goal with |- context [mbind (M := res ProtocolError) _ ?m] => destruct m as [algos|e|] end;
    [|done..].
  intros E. injection E as <-. cbn [wire WireFormat_new supports_incremental_flist]. by rewrite H.
Qed.

Lemma inc_recurse_always_on_witness :
  existsb (Z.eqb 105) (build_capability_string false true false) = false /\
  supports_incremental_flist (wire example_outcome) = true.
Proof.
  split; [vm_compute; reflexivity|].
  apply (inc_recurse_always_on (build_capability_string false true false) true true
    (Some (str_bytes "md5 xxh3")) None 77). vm_compute. reflexivity.
Defined.
