(* ===== verification/Checksum.v ===== *)
(** Block and file checksums ([ferrosync-delta/src/checksum.rs]) and the
    protocol context they are computed in ([ferrosync-delta/src/lib.rs]).

    The hash functions come from third-party crates.  They are a parameter,
    [HashLib], with the streaming interface the code drives; [HashLaws] is what
    their documentation promises: feeding in pieces is feeding the whole, the
    streaming and one-shot xxh3 agree, digests have their nominal length. *)
From S2P Require Import Prelude Wire Types WireFormat Handshake.

Definition MAX_DIGEST_LEN : Z := 32.
Definition CHAR_OFFSET_V30 : Z := 0.
Definition CHAR_OFFSET_OLD : Z := 31.

Record ProtocolContext := mkProtocolContext {
  ctx_seed : Z;
  ctx_checksum_type : ChecksumType;
  char_offset : Z;
  ctx_proper_seed_order : bool;
  block_size_override : option Z;
}.

Definition from_protocol (proto : NegotiatedProtocol) : ProtocolContext :=
  let char_offset :=
    if bool_decide (int_codec (wire proto) = Compact) then CHAR_OFFSET_V30 else CHAR_OFFSET_OLD in
  mkProtocolContext (seed proto) (checksum_type proto) char_offset (Handshake.proper_seed_order proto) None.

(** ** Rolling checksum *)

(** The two accumulators; [wrapping_add] throughout. *)
Fixpoint checksum1_loop (data : list Z) (char_offset s1 s2 : Z) : Z * Z :=
  match data with
  | [] => (s1, s2)
  | byte :: data' =>
      let s1 := as_u32 (s1 + as_u32 (byte + char_offset)) in
      let s2 := as_u32 (s2 + s1) in
      checksum1_loop data' char_offset s1 s2
  end.

Definition checksum1 (data : list Z) (char_offset : Z) : Z :=
  let '(s1, s2) := checksum1_loop data char_offset 0 0 in
  Z.lor (Z.land s1 0xFFFF) (as_u32 (s2 ≪ 16)).

Record RollingChecksum := mkRolling {
  r_s1 : Z;
  r_s2 : Z;
  r_count : Z;
  r_char_offset : Z;
}.

Definition RollingChecksum_new (char_offset : Z) : RollingChecksum := mkRolling 0 0 0 char_offset.

Definition rolling_compute (r : RollingChecksum) (data : list Z) : RollingChecksum :=
  let '(s1, s2) := checksum1_loop data (r_char_offset r) 0 0 in
  mkRolling s1 s2 (as_u32 (Z.of_nat (length data))) (r_char_offset r).

Definition rolling_roll (r : RollingChecksum) (old_byte new_byte : Z) : RollingChecksum :=
  let s1 := as_u32 (as_u32 (r_s1 r + new_byte) - old_byte) in
  let s2 := as_u32 (as_u32 (r_s2 r + s1)
                    - as_u32 (r_count r * as_u32 (old_byte + r_char_offset r))) in
  mkRolling s1 s2 (r_count r) (r_char_offset r).

Definition rolling_digest (r : RollingChecksum) : Z :=
  Z.lor (Z.land (r_s1 r) 0xFFFF) (as_u32 (r_s2 r ≪ 16)).

(** ** Strong checksums *)

(** A [Digest] of the RustCrypto crates, [blake3::Hasher]. *)
Record Digest := mkDigest {
  dg_state : Type;
  dg_new : dg_state;
  dg_update : dg_state -> list Z -> dg_state;
  dg_finalize : dg_state -> list Z;
}.

(** [xxhash_rust::xxh3]: the one-shot functions and the streaming state. *)
Record HashLib := mkHashLib {
  md4 : Digest;
  md5 : Digest;
  blake3 : Digest;
  xxh3_64 : list Z -> Z;
  xxh3_128 : list Z -> Z;
  xxh3_64_with_seed : list Z -> Z -> Z;
  xxh3_128_with_seed : list Z -> Z -> Z;
  Xxh3_state : Type;
  Xxh3_new : Xxh3_state;
  Xxh3_update : Xxh3_state -> list Z -> Xxh3_state;
  Xxh3_digest : Xxh3_state -> Z;
  Xxh3_digest128 : Xxh3_state -> Z;
}.

Class DigestLaws (d : Digest) (len : nat) : Prop := {
  dg_update_app : forall s a b, dg_update d (dg_update d s a) b = dg_update d s (a ++ b);
  dg_update_nil : forall s, dg_update d s [] = s;
  dg_length : forall s, length (dg_finalize d s) = len;
  dg_bytes : forall s, Forall is_byte (dg_finalize d s);
}.

Class HashLaws (H : HashLib) : Prop := {
  md4_laws : DigestLaws (md4 H) 16;
  md5_laws : DigestLaws (md5 H) 16;
  blake3_laws : DigestLaws (blake3 H) 32;
  Xxh3_update_app : forall s a b, Xxh3_update H (Xxh3_update H s a) b = Xxh3_update H s (a ++ b);
  Xxh3_update_nil : forall s, Xxh3_update H s [] = s;
  Xxh3_one_shot : forall data, Xxh3_digest H (Xxh3_update H (Xxh3_new H) data) = xxh3_64 H data;
  Xxh3_one_shot128 :
    forall data, Xxh3_digest128 H (Xxh3_update H (Xxh3_new H) data) = xxh3_128 H data;
}.

Section strong.
  Context (H : HashLib).

Definition seeded (d : Digest) (proper_seed_order : bool) (seed_bytes data : list Z) : list Z :=
  let h := dg_new d in
  let h := if proper_seed_order then dg_update d (dg_update d h seed_bytes) data
           else dg_update d (dg_update d h data) seed_bytes in
  dg_finalize d h.

Definition checksum2 (data : list Z) (ctx : ProtocolContext) : list Z :=
  let seed_bytes := le_bytes 4 (ctx_seed ctx) in
  match ctx_checksum_type ctx with
  | Md4 => seeded (md4 H) (ctx_proper_seed_order ctx) seed_bytes data
  | Md5 => seeded (md5 H) (ctx_proper_seed_order ctx) seed_bytes data
  | Blake3 => seeded (blake3 H) (ctx_proper_seed_order ctx) seed_bytes data
  | Xxh3 => le_bytes 8 (xxh3_64_with_seed H data (as_u64 (ctx_seed ctx)))
  | Xxh128 => le_bytes 16 (xxh3_128_with_seed H data (as_u64 (ctx_seed ctx)))
  | CkNone => replicate (ChecksumType.digest_len (ctx_checksum_type ctx)) 0
  end.

Definition file_checksum (data : list Z) (ctx : ProtocolContext) : list Z :=
  match ctx_checksum_type ctx with
  | Md4 => dg_finalize (md4 H) (dg_update (md4 H) (dg_new (md4 H)) data)
  | Md5 => dg_finalize (md5 H) (dg_update (md5 H) (dg_new (md5 H)) data)
  | Blake3 => dg_finalize (blake3 H) (dg_update (blake3 H) (dg_new (blake3 H)) data)
  | Xxh3 => le_bytes 8 (xxh3_64 H data)
  | Xxh128 => le_bytes 16 (xxh3_128 H data)
  | CkNone => replicate (ChecksumType.digest_len (ctx_checksum_type ctx)) 0
  end.

Inductive IncrementalChecksum :=
  | IncMd4 (h : dg_state (md4 H))
  | IncMd5 (h : dg_state (md5 H))
  | IncBlake3 (h : dg_state (blake3 H))
  | IncXxh3 (h : Xxh3_state H)
  | IncXxh128 (h : Xxh3_state H)
  | IncNone (len : nat).

Definition IncrementalChecksum_new (checksum_type : ChecksumType) : IncrementalChecksum :=
  match checksum_type with
  | Md4 => IncMd4 (dg_new (md4 H))
  | Md5 => IncMd5 (dg_new (md5 H))
  | Blake3 => IncBlake3 (dg_new (blake3 H))
  | Xxh3 => IncXxh3 (Xxh3_new H)
  | Xxh128 => IncXxh128 (Xxh3_new H)
  | CkNone => IncNone (ChecksumType.digest_len checksum_type)
  end.

Definition inc_update (c : IncrementalChecksum) (data : list Z) : IncrementalChecksum :=
  match c with
  | IncMd4 h => IncMd4 (dg_update (md4 H) h data)
  | IncMd5 h => IncMd5 (dg_update (md5 H) h data)
  | IncBlake3 h => IncBlake3 (dg_update (blake3 H) h data)
  | IncXxh3 h => IncXxh3 (Xxh3_update H h data)
  | IncXxh128 h => IncXxh128 (Xxh3_update H h data)
  | IncNone len => IncNone len
  end.

Definition inc_finalize (c : IncrementalChecksum) : list Z :=
  match c with
  | IncMd4 h => dg_finalize (md4 H) h
  | IncMd5 h => dg_finalize (md5 H) h
  | IncBlake3 h => dg_finalize (blake3 H) h
  | IncXxh3 h => le_bytes 8 (Xxh3_digest H h)
  | IncXxh128 h => le_bytes 16 (Xxh3_digest128 H h)
  | IncNone len => replicate len 0
  end.

(** ** Lemmas on the strong checksums *)

Lemma seeded_length d len order sb data :
  DigestLaws d len -> length (seeded d order sb data) = len.
Proof. intros HL. unfold seeded. apply dg_length. Qed.

Lemma checksum2_length data ctx :
  HashLaws H -> length (checksum2 data ctx) = ChecksumType.digest_len (ctx_checksum_type ctx).
Proof.
  intros HL. unfold checksum2. destruct (ctx_checksum_type ctx); cbn [ChecksumType.digest_len];
    rewrite ?length_le_bytes; try done; apply seeded_length; apply HL.
Qed.

Lemma seeded_bytes d len order sb data :
  DigestLaws d len -> Forall is_byte (seeded d order sb data).
Proof. intros HL. unfold seeded. apply (dg_bytes (len := len)). Qed.

Lemma checksum2_bytes data ctx : HashLaws H -> Forall is_byte (checksum2 data ctx).
Proof.
  intros HL. unfold checksum2. destruct (ctx_checksum_type ctx).
  - by constructor.
  - eapply seeded_bytes, md4_laws.
  - eapply seeded_bytes, md5_laws.
  - eapply seeded_bytes, blake3_laws.
  - apply le_bytes_bytes.
  - apply le_bytes_bytes.
Qed.

Lemma inc_update_fold c chunks :
  HashLaws H -> foldl inc_update c chunks = inc_update c (concat chunks).
Proof.
  intros HL. revert c. induction chunks as [|x chunks IH]; intros c; cbn [foldl concat].
  - destruct HL as [[_ U4 _ _] [_ U5 _ _] [_ U3 _ _] _ X _ _]. destruct c; cbn [inc_update]; congruence.
  - rewrite IH. destruct HL as [[A4 _ _ _] [A5 _ _ _] [A3 _ _ _] X _ _ _].
    destruct c; cbn [inc_update]; congruence.
Qed.

Lemma inc_one_shot ctx data : HashLaws H ->
  inc_finalize (inc_update (IncrementalChecksum_new (ctx_checksum_type ctx)) data) = file_checksum data ctx.
Proof.
  intros HL. unfold file_checksum.
  destruct (ctx_checksum_type ctx); cbn [IncrementalChecksum_new inc_update inc_finalize]; try done.
  - by rewrite Xxh3_one_shot.
  - by rewrite Xxh3_one_shot128.
Qed.

Lemma file_checksum_length data ctx :
  HashLaws H -> length (file_checksum data ctx) = ChecksumType.digest_len (ctx_checksum_type ctx).
Proof.
  intros HL. unfold file_checksum. destruct (ctx_checksum_type ctx); cbn [ChecksumType.digest_len];
    rewrite ?length_le_bytes, ?length_replicate; try done;
    [apply (dg_length (DigestLaws := md4_laws))|apply (dg_length (DigestLaws := md5_laws))
    |apply (dg_length (DigestLaws := blake3_laws))].
Qed.

End strong.

(** ** Lemmas on the rolling checksum *)

(** The two sums over the integers, before any wrap-around. *)
Fixpoint sum1_of (off : Z) (l : list Z) : Z :=
  match l with [] => 0 | b :: l' => (b + off) + sum1_of off l' end.
Fixpoint sum2_of (off : Z) (l : list Z) : Z :=
  match l with [] => 0 | b :: l' => Z.of_nat (S (length l')) * (b + off) + sum2_of off l' end.

Lemma wrap_add_l w x y : wrap w (wrap w x + y) = wrap w (x + y).
Proof. unfold wrap. by rewrite Zplus_mod_idemp_l. Qed.
Lemma wrap_add_r w x y : wrap w (x + wrap w y) = wrap w (x + y).
Proof. unfold wrap. by rewrite Zplus_mod_idemp_r. Qed.

Lemma checksum1_loop_sums off l s1 s2 :
  checksum1_loop l off (as_u32 s1) (as_u32 s2) =
  (as_u32 (s1 + sum1_of off l), as_u32 (s2 + Z.of_nat (length l) * s1 + sum2_of off l)).
Proof.
  revert s1 s2. induction l as [|b l IH]; intros s1 s2; cbn [checksum1_loop sum1_of sum2_of length].
  - f_equal; f_equal; lia.
  - rewrite wrap_add_r, !wrap_add_l. rewrite wrap_add_r.
    rewrite IH. f_equal; f_equal; lia.
Qed.

Lemma checksum1_loop_0 off l :
  checksum1_loop l off 0 0 = (as_u32 (sum1_of off l), as_u32 (sum2_of off l)).
Proof.
  pose proof (checksum1_loop_sums off l 0 0) as E. rewrite !Z.mul_0_r, !Z.add_0_l in E. exact E.
Qed.

Lemma sum1_snoc off l b : sum1_of off (l ++ [b]) = sum1_of off l + (b + off).
Proof. induction l as [|a l IH]; cbn [sum1_of app]; lia. Qed.

Lemma sum2_snoc off l b : sum2_of off (l ++ [b]) = sum2_of off l + sum1_of off l + (b + off).
Proof.
  induction l as [|a l IH]; cbn [sum1_of sum2_of app length]; [lia|].
  rewrite IH, length_app. cbn [length]. lia.
Qed.

Lemma rolling_compute_sums r l :
  rolling_compute r l = mkRolling (as_u32 (sum1_of (r_char_offset r) l))
    (as_u32 (sum2_of (r_char_offset r) l)) (as_u32 (Z.of_nat (length l))) (r_char_offset r).
Proof. unfold rolling_compute. by rewrite checksum1_loop_0. Qed.

Lemma roll_window r old w new :
  rolling_roll (rolling_compute r (old :: w)) old new = rolling_compute r (w ++ [new]).
Proof.
  rewrite !rolling_compute_sums. unfold rolling_roll. cbn [r_s1 r_s2 r_count r_char_offset].
  rewrite sum1_snoc, sum2_snoc, length_app. cbn [sum1_of sum2_of length].
  f_equal; unwrap; lia.
Qed.

Lemma rolling_digest_compute r l :
  rolling_digest (rolling_compute r l) = checksum1 l (r_char_offset r).
Proof. unfold rolling_digest, rolling_compute, checksum1. by destruct (checksum1_loop _ _ _ _). Qed.

Lemma as_u32_shl16 x : exists q, as_u32 (x ≪ 16) = q * 2 ^ 16 /\ 0 <= q < 2 ^ 16.
Proof.
  exists (x mod 2 ^ 16). rewrite Z.shiftl_mul_pow2 by lia. split; [|apply Z.mod_pos_bound; lia].
  unfold wrap. change (2 ^ 32) with (2 ^ 16 * 2 ^ 16). rewrite Z.mul_mod_distr_r by lia. lia.
Qed.

Lemma checksum1_range l off : in_u32 (checksum1 l off).
Proof.
  unfold checksum1. rewrite checksum1_loop_0. change 0xFFFF with (Z.ones 16).
  rewrite Z.land_ones by lia. destruct (as_u32_shl16 (as_u32 (sum2_of off l))) as (q & -> & Hq).
  pose proof (Z.mod_pos_bound (as_u32 (sum1_of off l)) (2 ^ 16) ltac:(lia)).
  rewrite Z.lor_comm, (lor_disjoint _ _ 16 q) by (done || lia). lia.
Qed.

(** ** A concrete instance

    A toy hash that satisfies the laws, to evaluate the theorems on examples. *)

Definition toy_poly (l : list Z) : Z := foldl (fun a b => a * 257 + b + 1) 0 l.
Definition toy_digest (len : nat) : Digest :=
  mkDigest (list Z) [] (fun s data => s ++ data) (fun s => le_bytes len (toy_poly s)).
Definition toy_hash : HashLib :=
  mkHashLib (toy_digest 16) (toy_digest 16) (toy_digest 32) toy_poly toy_poly
    (fun data seed => toy_poly (le_bytes 8 seed ++ data))
    (fun data seed => toy_poly (le_bytes 8 seed ++ data))
    (list Z) [] (fun s data => s ++ data) toy_poly toy_poly.

#[export] Instance toy_digest_laws len : DigestLaws (toy_digest len) len.
Proof.
  split; intros; simpl.
  - by rewrite app_assoc.
  - by rewrite app_nil_r.
  - apply length_le_bytes.
  - apply le_bytes_bytes.
Qed.

#[export] Instance toy_hash_laws : HashLaws toy_hash.
Proof.
  split; try apply toy_digest_laws; intros; simpl; by rewrite ?app_assoc, ?app_nil_r.
Qed.

(** ** Properties *)

(** The rolling checksum is exact: computing it over a window and then
    rolling over the following bytes one by one gives, for every number of
    steps and every offset, the state (and so the digest [checksum1]) of
    computing it afresh over the shifted window. *)
Theorem rolling_is_recompute off (w news : list Z) :
  w <> [] ->
  let step r i := rolling_roll r ((w ++ news) !!! i) ((w ++ news) !!! (i + length w)%nat) in
  let window := drop (length news) (w ++ news) in
  let final := foldl step (rolling_compute (RollingChecksum_new off) w) (seq 0 (length news)) in
  final = rolling_compute (RollingChecksum_new off) window /\
  rolling_digest final = checksum1 window off.
Proof.
  intros Hw. cbv zeta.
  assert (H : forall n, (n <= length news)%nat ->
    foldl (fun r i => rolling_roll r ((w ++ news) !!! i) ((w ++ news) !!! (i + length w)%nat))
      (rolling_compute (RollingChecksum_new off) w) (seq 0 n)
    = rolling_compute (RollingChecksum_new off) (take (length w) (drop n (w ++ news)))).
  { induction n as [|n IH]; intros Hn.
    - by rewrite drop_0, take_app_length.
    - rewrite seq_S, foldl_app, IH by lia. cbn [foldl]. rewrite Nat.add_0_l.
      assert (Hl : length (w ++ news) = (length w + length news)%nat) by apply length_app.
      assert (0 < length w)%nat by (destruct w; [done|simpl; lia]).
      destruct (length w) as [|m] eqn:Em; [lia|].
      rewrite (drop_S (w ++ news) ((w ++ news) !!! n) n) by (apply list_lookup_lookup_total_lt; lia).
      cbn [firstn take]. rewrite roll_window. f_equal.
      rewrite (take_S_r _ m ((w ++ news) !!! (n + S m)%nat)); [done|].
      rewrite lookup_drop. rewrite list_lookup_lookup_total_lt by lia. do 2 f_equal. lia. }
  rewrite H by done. rewrite take_ge by (rewrite length_drop, length_app; lia).
  split; [done|]. apply rolling_digest_compute.
Qed.

Lemma rolling_is_recompute_witness :
  let step r i := rolling_roll r ([250; 3; 255; 7; 9] !!! i) ([250; 3; 255; 7; 9] !!! (i + 3)%nat) in
  rolling_digest (foldl step (rolling_compute (RollingChecksum_new 31) [250; 3; 255]) [0; 1]%nat)
  = checksum1 [255; 7; 9] 31.
Proof. apply (rolling_is_recompute 31 [250; 3; 255] [7; 9]). discriminate. Defined.

(** The incremental file checksum agrees with the one-shot one: for every
    algorithm, feeding a file in any pieces, empty ones included, and
    finalising gives [file_checksum] of the whole, and every block and file
    digest has the length the wire format expects for its algorithm. *)
Theorem incremental_checksum_agrees (H : HashLib) (HL : HashLaws H) ctx chunks :
  inc_finalize H (foldl (inc_update H) (IncrementalChecksum_new H (ctx_checksum_type ctx)) chunks)
  = file_checksum H (concat chunks) ctx /\
  length (checksum2 H (concat chunks) ctx) = ChecksumType.digest_len (ctx_checksum_type ctx).
Proof.
  split; [|by apply checksum2_length]. rewrite inc_update_fold by done. by apply inc_one_shot.
Qed.

Lemma incremental_checksum_agrees_witness :
  inc_finalize toy_hash (foldl (inc_update toy_hash) (IncrementalChecksum_new toy_hash Xxh3)
    [[1; 2]; []; [3]])
  = file_checksum toy_hash [1; 2; 3] (mkProtocolContext 5 Xxh3 0 true None).
Proof.
  apply (incremental_checksum_agrees toy_hash toy_hash_laws
    (mkProtocolContext 5 Xxh3 0 true None) [[1; 2]; []; [3]]).
Defined.
