(* ===== verification/Sum.v ===== *)
(** Block signatures ([ferrosync-delta/src/sum.rs]) and the chunker they are
    cut with ([ferrosync-delta/src/chunker.rs]).

    The two floating-point computations are modelled by their exact integer
    counterparts: [(n as f64).sqrt() as i32] clamped to [MAX_BLOCK_LEN] is the
    clamped integer square root (a double square root can only round up to the
    next integer above [2^26], where the clamp has long taken over), and
    [ceil((80 + log2 c) / 8)] is computed from the ceiling of the logarithm
    (exact for block counts below [2^46], i.e. files below [2^46] blocks).
    FastCDC is a third-party crate: its chunking function is a parameter. *)
From S2P Require Import Prelude Wire Types Varint Checksum.

Record SumHead := mkSumHead {
  count : Z;
  blength : Z;
  s2length : Z;
  remainder : Z;
}.
Definition SumHead_default : SumHead := mkSumHead 0 0 0 0.

Record SumEntry := mkSumEntry {
  sum1 : Z;
  sum2 : list Z;
  block_len : option Z;
}.

Record SumStruct := mkSumStruct {
  head : SumHead;
  sums : list SumEntry;
}.

(** ** Parameters *)

Definition compute_block_length (file_len : Z) : Z :=
  if file_len <=? 0 then MIN_BLOCK_LEN
  else
    let blength := Z.sqrt file_len in
    let blength := Z.max MIN_BLOCK_LEN (Z.min blength MAX_BLOCK_LEN) in
    Z.land (blength + 7) (Z.lnot 7).

(** The division panics on a zero [blength]; the logarithm of a non-positive
    count is [-inf] or NaN, and both end at the lower bound. *)
Definition compute_s2length (file_len blength : Z) : result Z :=
  if file_len <=? 0 then Ok 2
  else if blength =? 0 then Panic
  else
    let block_count := Z.quot (as_i64 (file_len + blength - 1)) blength in
    let s2length := if block_count <=? 0 then 0 else (80 + Z.log2_up block_count + 7) / 8 in
    Ok (Z.max (Z.min s2length MAX_DIGEST_LEN) 2).

(** ** chunker.rs *)

Record ChunkInfo := mkChunkInfo { ci_offset : nat; ci_length : nat }.

Fixpoint fixed_chunks (fuel len bs offset : nat) : list ChunkInfo :=
  match fuel with
  | O => []
  | S fuel' =>
      if (offset <? len)%nat then
        let length := (bs `min` (len - offset))%nat in
        mkChunkInfo offset length :: fixed_chunks fuel' len bs (offset + length)
      else []
  end.

Section signatures.
  Context (H : HashLib).
  Context (FastCDC_new : list Z -> Z -> Z -> Z -> list ChunkInfo).

Definition chunk_data (data : list Z) (strategy : ChunkingStrategy) : list ChunkInfo :=
  if bool_decide (data = []) then []
  else
    match strategy with
    | Fixed block_size =>
        if (block_size =? 0)%nat then [] else fixed_chunks (length data) (length data) block_size 0
    | FastCDC min avg max =>
        FastCDC_new data (as_u32 (Z.of_nat min)) (as_u32 (Z.of_nat avg)) (as_u32 (Z.of_nat max))
    end.

(** ** Signatures *)

(** [strong[..s2length as usize].to_vec()] *)
Definition truncate_strong (strong : list Z) (s2length : Z) : result (list Z) :=
  let n := Z.to_nat (as_u64 s2length) in
  if (n <=? length strong)%nat then Ok (take n strong) else Panic.

Definition sum_entry (block : list Z) (ctx : ProtocolContext) (s2length : Z)
    (block_len : option Z) : result SumEntry :=
  let sum1 := checksum1 block (char_offset ctx) in
  let strong := checksum2 H block ctx in
  sum2 ← truncate_strong strong s2length;
  mret (mkSumEntry sum1 sum2 block_len).

(** [&data[offset..end]] *)
Definition slice (data : list Z) (offset end_ : Z) : result (list Z) :=
  if (offset <=? end_) && (end_ <=? Z.of_nat (length data))
  then Ok (take (Z.to_nat (end_ - offset)) (drop (Z.to_nat offset) data))
  else Panic.

(** Each round moves [offset] forward, so [length data] rounds are enough. *)
Fixpoint signature_loop (fuel : nat) (data : list Z) (ctx : ProtocolContext)
    (blength s2length offset : Z) : result (list SumEntry) :=
  match fuel with
  | O => Ok []
  | S fuel' =>
      if offset <? Z.of_nat (length data) then
        let end_ := Z.min (as_u64 (offset + as_u64 blength)) (Z.of_nat (length data)) in
        block ← slice data offset end_;
        entry ← sum_entry block ctx s2length None;
        rest ← signature_loop fuel' data ctx blength s2length end_;
        mret (entry :: rest)
      else Ok []
  end.

Definition compute_signatures (data : list Z) (ctx : ProtocolContext) : result SumStruct :=
  if bool_decide (data = []) then Ok (mkSumStruct SumHead_default [])
  else
    let file_len := Z.of_nat (length data) in
    let blength :=
      match block_size_override ctx with Some b => b | None => compute_block_length file_len end in
    s2length ← compute_s2length file_len blength;
    sums ← signature_loop (length data) data ctx blength s2length 0;
    let remainder :=
      if file_len mod as_u64 blength =? 0 then blength
      else as_i32 (file_len mod as_u64 blength) in
    mret (mkSumStruct (mkSumHead (as_i32 (Z.of_nat (length sums))) blength s2length remainder) sums).

Fixpoint cdc_entries (data : list Z) (ctx : ProtocolContext) (s2length : Z) (is_cdc : bool)
    (chunks : list ChunkInfo) : result (list SumEntry) :=
  match chunks with
  | [] => mret []
  | c :: chunks' =>
      block ← slice data (Z.of_nat (ci_offset c)) (Z.of_nat (ci_offset c + ci_length c));
      entry ← sum_entry block ctx s2length
                (if is_cdc then Some (as_u32 (Z.of_nat (ci_length c))) else None);
      rest ← cdc_entries data ctx s2length is_cdc chunks';
      mret (entry :: rest)
  end.

Definition compute_signatures_cdc (data : list Z) (ctx : ProtocolContext)
    (strategy : ChunkingStrategy) : result SumStruct :=
  if bool_decide (data = []) then Ok (mkSumStruct SumHead_default [])
  else
    let is_cdc := match strategy with FastCDC _ _ _ => true | Fixed _ => false end in
    let chunks := chunk_data data strategy in
    let blength :=
      match strategy with
      | Fixed block_size => as_i32 (Z.of_nat block_size)
      | FastCDC _ avg _ => as_i32 (Z.of_nat avg)
      end in
    let file_len := Z.of_nat (length data) in
    s2length ← compute_s2length file_len blength;
    sums ← cdc_entries data ctx s2length is_cdc chunks;
    let remainder :=
      match last chunks with Some c => as_i32 (Z.of_nat (ci_length c)) | None => 0 end in
    mret (mkSumStruct (mkSumHead (as_i32 (Z.of_nat (length sums))) blength s2length remainder) sums).

End signatures.

(** ** Wire format *)

Definition write_sum_head (head : SumHead) : wr unit :=
  _ ← write_int (count head);
  _ ← write_int (blength head);
  _ ← write_int (s2length head);
  _ ← write_int (remainder head);
  mret tt.

Definition read_sum_head : rd SumHead :=
  count ← read_int;
  blength ← read_int;
  s2length ← read_int;
  remainder ← read_int;
  mret (mkSumHead count blength s2length remainder).

Definition write_sums (s : SumStruct) : wr unit :=
  _ ← write_sum_head (head s);
  wr_each (fun entry =>
    _ ← write_all (le_bytes 4 (sum1 entry));
    write_all (sum2 entry)) (sums s).

Definition write_sums_cdc (s : SumStruct) : wr unit :=
  _ ← write_sum_head (head s);
  wr_each (fun entry =>
    let bl := match block_len entry with Some bl => bl | None => as_u32 (blength (head s)) end in
    _ ← write_all (le_bytes 4 bl);
    _ ← write_all (le_bytes 4 (sum1 entry));
    write_all (sum2 entry)) (sums s).

Definition MAX_BLOCK_COUNT : Z := 16 * 1024 * 1024.

Definition read_sums : rd SumStruct :=
  head ← read_sum_head;
  if (count head <? 0) || (MAX_BLOCK_COUNT <? count head) then
    rd_err (WireValueOutOfRange "sum_count" (count head) MAX_BLOCK_COUNT)
  else if (s2length head <? 0) || (64 <? s2length head) then
    rd_err (WireValueOutOfRange "sum_s2length" (s2length head) 64)
  else
    sums ← rd_repeat (Z.to_nat (count head))
      (sum1_buf ← read_exact 4;
       sum2 ← read_exact (s2length head);
       mret (mkSumEntry (le_val sum1_buf) sum2 None));
    mret (mkSumStruct head sums).

Definition read_sums_cdc : rd SumStruct :=
  head ← read_sum_head;
  if (count head <? 0) || (MAX_BLOCK_COUNT <? count head) then
    rd_err (WireValueOutOfRange "sum_count" (count head) MAX_BLOCK_COUNT)
  else if (s2length head <? 0) || (64 <? s2length head) then
    rd_err (WireValueOutOfRange "sum_s2length" (s2length head) 64)
  else
    sums ← rd_repeat (Z.to_nat (count head))
      (bl_buf ← read_exact 4;
       sum1_buf ← read_exact 4;
       sum2 ← read_exact (s2length head);
       mret (mkSumEntry (le_val sum1_buf) sum2 (Some (le_val bl_buf))));
    mret (mkSumStruct head sums).

(** ** Vocabulary *)

(** Signatures that fit the wire format; [len_ok] says how block lengths are sent. *)
Definition entry_ok (s2 : Z) (len_ok : option Z -> Prop) (e : SumEntry) : Prop :=
  in_u32 (sum1 e) /\ Forall is_byte (sum2 e) /\ Z.of_nat (length (sum2 e)) = s2 /\
  len_ok (block_len e).

Definition sums_ok (len_ok : option Z -> Prop) (s : SumStruct) : Prop :=
  Z.of_nat (length (sums s)) = count (head s) /\
  0 <= count (head s) <= MAX_BLOCK_COUNT /\ 0 <= s2length (head s) <= 64 /\
  in_i32 (blength (head s)) /\ in_i32 (remainder (head s)) /\
  Forall (entry_ok (s2length (head s)) len_ok) (sums s).

Definition implicit_len (l : option Z) : Prop := l = None.
Definition explicit_len (l : option Z) : Prop := exists n, l = Some n /\ in_u32 n.

(** The signature of one block, the digest truncated without a bounds check. *)
Definition block_signature (H : HashLib) (ctx : ProtocolContext) (s2 : Z) (block : list Z)
    : SumEntry :=
  mkSumEntry (checksum1 block (char_offset ctx)) (take (Z.to_nat s2) (checksum2 H block ctx)) None.

Definition effective_blength (data : list Z) (ctx : ProtocolContext) : Z :=
  match block_size_override ctx with
  | Some b => b
  | None => compute_block_length (Z.of_nat (length data))
  end.

(** ** Parameters *)

Lemma round_up_8 b : Z.land (b + 7) (Z.lnot 7) = (b + 7) / 8 * 8.
Proof.
  change (Z.lnot 7) with (Z.lnot (Z.ones 3)). rewrite <- Z.ldiff_land, Z.ldiff_ones_r by lia.
  by rewrite Z.shiftr_div_pow2, Z.shiftl_mul_pow2 by lia.
Qed.

Lemma block_length_bounds n :
  0 < n ->
  704 <= compute_block_length n <= 131072 /\ compute_block_length n mod 8 = 0 /\
  (MIN_BLOCK_LEN <= Z.sqrt n <= MAX_BLOCK_LEN ->
     Z.sqrt n <= compute_block_length n < Z.sqrt n + 8).
Proof.
  intros Hn. unfold compute_block_length. destruct (Z.leb_spec n 0); [lia|]. cbv zeta.
  rewrite round_up_8. unfold MIN_BLOCK_LEN. change MAX_BLOCK_LEN with 131072.
  remember (Z.max 700 (Z.min (Z.sqrt n) 131072)) as b eqn:Eb.
  split_and!; [zlia|zlia|by rewrite Z.mod_mul|..]; intros; assert (b = Z.sqrt n) by lia; zlia.
Qed.

Lemma s2length_value n b :
  0 < n -> 0 < b -> n + b < 2 ^ 63 ->
  compute_s2length n b
  = Ok (Z.min ((80 + Z.log2_up ((n + b - 1) / b) + 7) / 8) MAX_DIGEST_LEN) /\
  10 <= Z.min ((80 + Z.log2_up ((n + b - 1) / b) + 7) / 8) MAX_DIGEST_LEN.
Proof.
  intros Hn Hb Hs. unfold compute_s2length.
  destruct (Z.leb_spec n 0); [lia|]. destruct (Z.eqb_spec b 0); [lia|].
  rewrite (swrap_id 64), Z.quot_div_nonneg by lia. cbv zeta.
  assert (1 <= (n + b - 1) / b) by (apply Z.div_le_lower_bound; lia).
  destruct (Z.leb_spec ((n + b - 1) / b) 0); [lia|].
  pose proof (Z.log2_up_nonneg ((n + b - 1) / b)). unfold MAX_DIGEST_LEN.
  assert (10 <= (80 + Z.log2_up ((n + b - 1) / b) + 7) / 8) by zlia.
  split; [|lia]. f_equal. lia.
Qed.

(** The truncated digest is wide enough for the number of blocks. *)
Lemma s2length_collisions c : 1 <= c -> c * 2 ^ 80 <= 2 ^ (8 * ((80 + Z.log2_up c + 7) / 8)).
Proof.
  intros Hc. pose proof (Z.log2_up_nonneg c).
  assert (c <= 2 ^ Z.log2_up c).
  { destruct (Z.eq_dec c 1) as [->|]; [done|]. apply Z.log2_up_spec. lia. }
  transitivity (2 ^ (Z.log2_up c + 80)).
  - rewrite Z.pow_add_r by lia. apply Z.mul_le_mono_nonneg_r; lia.
  - apply Z.pow_le_mono_r; zlia.
Qed.

(** ** The signature loop *)

Lemma truncate_strong_eq strong s2 :
  0 <= s2 < 2 ^ 64 ->
  truncate_strong strong s2 =
  if s2 <=? Z.of_nat (length strong) then Ok (take (Z.to_nat s2) strong) else Panic.
Proof.
  intros Hs. unfold truncate_strong. rewrite wrap_id by done. cbv zeta.
  destruct (Nat.leb_spec (Z.to_nat s2) (length strong)), (Z.leb_spec s2 (Z.of_nat (length strong)));
    done || lia.
Qed.

Lemma slice_eq data (a b : nat) :
  (a <= b <= length data)%nat ->
  slice data (Z.of_nat a) (Z.of_nat b) = Ok (take (b - a) (drop a data)).
Proof.
  intros Hab. unfold slice. destruct (Z.leb_spec (Z.of_nat a) (Z.of_nat b)); [|lia].
  destruct (Z.leb_spec (Z.of_nat b) (Z.of_nat (length data))); [|lia]. cbn [andb].
  rewrite Nat2Z.id. do 3 f_equal. lia.
Qed.

Section loop.
  Context (H : HashLib) {HL : HashLaws H}.

Lemma sum_entry_eq block ctx s2 :
  0 <= s2 < 2 ^ 64 ->
  sum_entry H block ctx s2 None =
  if s2 <=? Z.of_nat (ChecksumType.digest_len (ctx_checksum_type ctx))
  then Ok (block_signature H ctx s2 block) else Panic.
Proof.
  intros Hs. unfold sum_entry. cbv zeta. rewrite truncate_strong_eq, checksum2_length by done.
  by destruct (s2 <=? _).
Qed.

Lemma signature_loop_ok fuel data ctx (b : nat) s2 (offset : nat) :
  (0 < b)%nat -> Z.of_nat (length data) + Z.of_nat b < 2 ^ 64 -> 0 <= s2 ->
  s2 <= Z.of_nat (ChecksumType.digest_len (ctx_checksum_type ctx)) ->
  (offset <= length data)%nat -> (length data - offset <= fuel)%nat ->
  signature_loop H fuel data ctx (Z.of_nat b) s2 (Z.of_nat offset) =
  Ok (map (block_signature H ctx s2) (chunks b (drop offset data))).
Proof.
  intros Hb Hlen Hs0 Hs. revert offset. induction fuel as [|fuel IH]; intros offset Ho Hf.
  { rewrite drop_ge by lia. done. }
  cbn [signature_loop]. destruct (Z.ltb_spec (Z.of_nat offset) (Z.of_nat (length data))).
  2: { rewrite drop_ge by lia. done. }
  assert (Hd : drop offset data <> []).
  { intros E%(f_equal length). rewrite length_drop in E. simpl in E. lia. }
  rewrite (wrap_id 64 (Z.of_nat b)), (wrap_id 64) by lia. cbv zeta.
  replace (Z.min (Z.of_nat offset + Z.of_nat b) (Z.of_nat (length data)))
    with (Z.of_nat ((offset + b) `min` length data)%nat) by lia.
  rewrite slice_eq by lia. rewrite chunks_unfold by done. cbn [map].
  unfold mbind at 1, res_bind at 1. rewrite sum_entry_eq.
  2: { destruct (ctx_checksum_type ctx); simpl in Hs; lia. }
  destruct (Z.leb_spec s2 (Z.of_nat (ChecksumType.digest_len (ctx_checksum_type ctx)))); [|lia].
  unfold mbind at 1, res_bind at 1. rewrite IH by lia. unfold mbind, res_bind, mret, res_ret.
  rewrite drop_drop. f_equal. f_equal.
  - f_equal. destruct (decide (offset + b <= length data)%nat).
    + f_equal. lia.
    + rewrite !take_ge; [done|..]; rewrite length_drop; lia.
  - f_equal. destruct (decide (offset + b <= length data)%nat).
    + do 2 f_equal. lia.
    + rewrite !drop_ge; [done|..]; lia.
Qed.

Lemma signature_loop_panics fuel data ctx b s2 :
  0 < b -> 0 < Z.of_nat (length data) < 2 ^ 63 -> b < 2 ^ 63 -> 0 <= s2 < 2 ^ 64 ->
  Z.of_nat (ChecksumType.digest_len (ctx_checksum_type ctx)) < s2 ->
  signature_loop H (S fuel) data ctx b s2 0 = Panic.
Proof.
  intros Hb Hd Hb2 Hs2 Hs. cbn [signature_loop].
  destruct (Z.ltb_spec 0 (Z.of_nat (length data))); [|lia]. cbv zeta.
  rewrite (wrap_id 64 b), (wrap_id 64) by lia.
  replace (Z.min (0 + b) (Z.of_nat (length data)))
    with (Z.of_nat (Z.to_nat (Z.min b (Z.of_nat (length data))))) by lia.
  rewrite (slice_eq data 0) by lia.
  unfold mbind at 1, res_bind at 1. rewrite sum_entry_eq by done.
  destruct (Z.leb_spec s2 (Z.of_nat (ChecksumType.digest_len (ctx_checksum_type ctx)))); [lia|done].
Qed.

End loop.

(** ** Wire format *)

Lemma write_sum_head_mirrors h :
  in_i32 (count h) -> in_i32 (blength h) -> in_i32 (s2length h) -> in_i32 (remainder h) ->
  mirrors (write_sum_head h) read_sum_head (fun _ h' => h' = h).
Proof.
  intros H1 H2 H3 H4. unfold write_sum_head, read_sum_head.
  assert (Hi : forall v, in_i32 v -> mirrors (write_int v) read_int (fun _ y => y = v)).
  { intros v Hv. eapply mirrors_mono; [apply write_int_mirrors|]. intros _ ? ->. apply swrap_id; lia. }
  eapply mirrors_bind; [by apply Hi|]. intros _ ? ->.
  eapply mirrors_bind; [by apply Hi|]. intros _ ? ->.
  eapply mirrors_bind; [by apply Hi|]. intros _ ? ->.
  eapply mirrors_bind; [by apply Hi|]. intros _ ? ->.
  apply mirrors_ret. by destruct h.
Qed.

Lemma mirrors_u32 v :
  in_u32 v -> mirrors (write_all (le_bytes 4 v)) (read_exact 4) (fun _ b => le_val b = v).
Proof.
  intros Hv. eapply mirrors_mono; [apply mirrors_write_exact; by rewrite length_le_bytes|].
  intros _ ? ->. rewrite le_val_le_bytes. by apply Z.mod_small.
Qed.

(** The two readers after their head checks. *)
Lemma read_checked_head {A} (h : SumHead) (k : rd A) i :
  0 <= count h <= MAX_BLOCK_COUNT -> 0 <= s2length h <= 64 ->
  (if (count h <? 0) || (MAX_BLOCK_COUNT <? count h) then
     rd_err (WireValueOutOfRange "sum_count" (count h) MAX_BLOCK_COUNT)
   else if (s2length h <? 0) || (64 <? s2length h) then
     rd_err (WireValueOutOfRange "sum_s2length" (s2length h) 64)
   else k) i = k i.
Proof.
  intros Hc Hs. destruct (Z.ltb_spec (count h) 0), (Z.ltb_spec MAX_BLOCK_COUNT (count h)),
    (Z.ltb_spec (s2length h) 0), (Z.ltb_spec 64 (s2length h)); try lia. done.
Qed.

Lemma mirrors_ext {A B} (w : wr A) (r r' : rd B) Q :
  (forall i, r i = r' i) -> mirrors w r' Q -> mirrors w r Q.
Proof.
  intros E (a & b & bs & Hw & Hr & HQ). exists a, b, bs. split_and!; [done| |done].
  intros k. by rewrite E.
Qed.

Lemma write_entries_mirrors {A} (s : SumStruct) len_ok (f : SumEntry -> wr unit) (r : rd SumEntry)
    (g : list SumEntry -> A) :
  sums_ok len_ok s ->
  (forall e, entry_ok (s2length (head s)) len_ok e -> mirrors (f e) r (fun _ e' => e' = e)) ->
  mirrors (wr_each f (sums s))
    (l ← rd_repeat (Z.to_nat (count (head s))) r; mret (g l)) (fun _ x => x = g (sums s)).
Proof.
  intros (Hc & _ & _ & _ & _ & He) Hf. apply mirrors_map. rewrite <- Hc, Nat2Z.id.
  eapply mirrors_mono; [apply (mirrors_each f r (fun e e' => e' = e))|].
  - intros e Hin. apply Hf. rewrite Forall_forall in He. by apply He.
  - simpl. intros _ l Hl. f_equal. clear -Hl. induction Hl as [|e e' ? ? -> ? IH]; [done|]. by rewrite IH.
Qed.

Lemma write_sums_mirrors s :
  sums_ok implicit_len s -> mirrors (write_sums s) read_sums (fun _ s' => s' = s).
Proof.
  intros Hok. pose proof Hok as (Hlen & Hc & Hs2 & Hb & Hr & He). unfold MAX_BLOCK_COUNT in Hc.
  unfold write_sums, read_sums.
  eapply mirrors_bind; [apply write_sum_head_mirrors; lia|]. intros _ h ->.
  eapply mirrors_ext; [intros i; by apply read_checked_head|].
  eapply mirrors_mono; [apply (write_entries_mirrors s implicit_len _ _ (mkSumStruct (head s)) Hok)|].
  - intros e (H1 & H2 & H3 & H4). eapply mirrors_bind; [by apply mirrors_u32|]. intros [] b Hbv. cbn beta in Hbv.
    apply mirrors_map. eapply mirrors_mono; [by apply mirrors_write_exact|]. simpl. intros _ ? ->.
    destruct e as [e1 e2 e3]. simpl in *. rewrite Hbv, H4. done.
  - simpl. intros _ ? ->. by destruct s.
Qed.

Lemma write_sums_cdc_mirrors s :
  sums_ok explicit_len s -> mirrors (write_sums_cdc s) read_sums_cdc (fun _ s' => s' = s).
Proof.
  intros Hok. pose proof Hok as (Hlen & Hc & Hs2 & Hb & Hr & He). unfold MAX_BLOCK_COUNT in Hc.
  unfold write_sums_cdc, read_sums_cdc.
  eapply mirrors_bind; [apply write_sum_head_mirrors; lia|]. intros _ h ->.
  eapply mirrors_ext; [intros i; by apply read_checked_head|].
  eapply mirrors_mono; [apply (write_entries_mirrors s explicit_len _ _ (mkSumStruct (head s)) Hok)|].
  - intros [e1 e2 e3] (H1 & H2 & H3 & n & Hn & Hn32). cbn [block_len sum1 sum2] in *. subst e3.
    eapply mirrors_bind; [by apply mirrors_u32|]. intros [] b0 Hb0. cbn beta in Hb0.
    eapply mirrors_bind; [by apply mirrors_u32|]. intros [] b Hbv. cbn beta in Hbv.
    apply mirrors_map. eapply mirrors_mono; [by apply mirrors_write_exact|]. simpl. intros _ ? ->.
    by rewrite Hb0, Hbv.
  - simpl. intros _ ? ->. by destruct s.
Qed.

Lemma read_sum_head_safe :
  safe read_sum_head (fun h => in_i32 (count h) /\ in_i32 (blength h) /\
                               in_i32 (s2length h) /\ in_i32 (remainder h)).
Proof.
  unfold read_sum_head. repeat (eapply safe_bind; [apply read_int_safe|]; intros ? ?).
  apply safe_ret. done.
Qed.

Lemma read_u32_safe : safe (read_exact 4) (fun b => in_u32 (le_val b)).
Proof.
  eapply safe_mono; [by apply safe_read_exact|]. intros b [Hb Hl].
  pose proof (le_val_bound b Hb) as Hv. rewrite Hl in Hv. exact Hv.
Qed.

Lemma read_entries_safe len_ok (r : SumHead -> rd SumEntry) :
  (forall h, 0 <= s2length h <= 64 -> safe (r h) (entry_ok (s2length h) len_ok)) ->
  safe (head ← read_sum_head;
    if (count head <? 0) || (MAX_BLOCK_COUNT <? count head) then
      rd_err (WireValueOutOfRange "sum_count" (count head) MAX_BLOCK_COUNT)
    else if (s2length head <? 0) || (64 <? s2length head) then
      rd_err (WireValueOutOfRange "sum_s2length" (s2length head) 64)
    else
      sums ← rd_repeat (Z.to_nat (count head)) (r head);
      mret (mkSumStruct head sums)) (sums_ok len_ok).
Proof.
  intros Hr. eapply safe_bind; [apply read_sum_head_safe|]. intros h (Hc & Hb & Hs & Hrem).
  apply safe_if; intros E1; [apply safe_err|]. apply safe_if; intros E2; [apply safe_err|]. zbool.
  eapply safe_bind; [apply safe_repeat, Hr; lia|]. intros l [Hl Hlen]. apply safe_ret.
  unfold sums_ok. cbn [head sums]. rewrite Hlen. split_and!; done || lia.
Qed.

Lemma read_sums_safe : safe read_sums (sums_ok implicit_len).
Proof.
  apply read_entries_safe. intros h Hs. eapply safe_bind; [apply read_u32_safe|]. intros b Hb.
  eapply safe_bind; [apply safe_read_exact; lia|]. intros b2 [Hb2 Hl]. apply safe_ret. done.
Qed.

Lemma read_sums_cdc_safe : safe read_sums_cdc (sums_ok explicit_len).
Proof.
  apply read_entries_safe. intros h Hs. eapply safe_bind; [apply read_u32_safe|]. intros b Hb.
  eapply safe_bind; [apply read_u32_safe|]. intros b1 Hb1.
  eapply safe_bind; [apply safe_read_exact; lia|]. intros b2 [Hb2 Hl]. apply safe_ret.
  unfold entry_ok, explicit_len. cbn [sum1 sum2 block_len]. eauto 10.
Qed.

(** ** Well-formed signatures *)

Lemma block_signature_ok H (HL : HashLaws H) ctx s2 block :
  0 <= s2 <= Z.of_nat (ChecksumType.digest_len (ctx_checksum_type ctx)) ->
  entry_ok s2 implicit_len (block_signature H ctx s2 block).
Proof.
  intros Hs. pose proof (checksum2_length H block ctx HL) as Hl. split_and!; simpl.
  - apply checksum1_range.
  - apply checksum1_range.
  - apply Forall_take, checksum2_bytes, HL.
  - rewrite length_take. lia.
  - done.
Qed.

Lemma compute_signatures_eq (H : HashLib) (HL : HashLaws H) data ctx :
  data <> [] -> Z.of_nat (length data) < 2 ^ 31 ->
  let b := effective_blength data ctx in
  let n := Z.of_nat (length data) in
  0 < b < 2 ^ 31 ->
  let s2 := Z.min ((80 + Z.log2_up ((n + b - 1) / b) + 7) / 8) MAX_DIGEST_LEN in
  let digest := Z.of_nat (ChecksumType.digest_len (ctx_checksum_type ctx)) in
  let blocks := chunks (Z.to_nat b) data in
  (digest < s2 -> compute_signatures H data ctx = Panic) /\
  (s2 <= digest ->
     compute_signatures H data ctx =
     Ok (mkSumStruct
           (mkSumHead (as_i32 (Z.of_nat (length blocks))) b s2 (if n mod b =? 0 then b else n mod b))
           (map (block_signature H ctx s2) blocks))) /\
  (ctx_checksum_type ctx = Xxh3 \/ ctx_checksum_type ctx = CkNone -> digest < s2).
Proof.
  intros Hd Hn b n Hb. cbv zeta.
  assert (0 < n) by (subst n; destruct data; [done|simpl; lia]).
  destruct (s2length_value n b ltac:(lia) ltac:(lia) ltac:(lia)) as [Hs2 Hs10].
  remember (Z.min ((80 + Z.log2_up ((n + b - 1) / b) + 7) / 8) MAX_DIGEST_LEN) as s2 eqn:Es2.
  assert (s2 <= 32) by (subst s2; unfold MAX_DIGEST_LEN; lia).
  unfold compute_signatures. rewrite bool_decide_eq_false_2 by done. cbv zeta.
  fold (effective_blength data ctx). fold b. fold n. rewrite Hs2.
  unfold mbind at 1 3, res_bind at 1 3. split_and!.
  - intros Hp. destruct (length data) as [|m] eqn:El; [lia|].
    rewrite (signature_loop_panics H) by lia. done.
  - intros Hok. pose proof (signature_loop_ok H (length data) data ctx (Z.to_nat b) s2 0
      ltac:(lia) ltac:(lia) ltac:(lia) Hok ltac:(lia) ltac:(lia)) as E.
    rewrite Z2Nat.id in E by lia. change (Z.of_nat 0) with 0 in E. rewrite E, drop_0.
    unfold mbind, res_bind, mret, res_ret. rewrite length_map, (wrap_id 64) by lia. do 3 f_equal.
    rewrite swrap_id; [done|lia|]. pose proof (Z.mod_pos_bound n b). lia.
  - intros [-> | ->]; simpl; lia.
Qed.

(** ** Properties *)

(** Block signatures, functionally: with a block length between 1 and
    2^31-1, [compute_signatures] of a non-empty file under 2^31 bytes cuts it
    into consecutive blocks of that length (the last one may be shorter), and
    signs each with the rolling checksum and the digest truncated to
    [s2length]; unless [s2length] exceeds the digest of the algorithm, where
    it panics. Since [s2length] is at least 10, it always panics for xxh3 (8
    bytes) and [none] (0 bytes). *)
Theorem compute_signatures_spec (H : HashLib) (HL : HashLaws H) data ctx :
  data <> [] -> Z.of_nat (length data) < 2 ^ 31 ->
  let b := effective_blength data ctx in
  let n := Z.of_nat (length data) in
  0 < b < 2 ^ 31 ->
  let s2 := Z.min ((80 + Z.log2_up ((n + b - 1) / b) + 7) / 8) MAX_DIGEST_LEN in
  let digest := Z.of_nat (ChecksumType.digest_len (ctx_checksum_type ctx)) in
  let blocks := chunks (Z.to_nat b) data in
  (digest < s2 -> compute_signatures H data ctx = Panic) /\
  (s2 <= digest ->
     compute_signatures H data ctx =
     Ok (mkSumStruct
           (mkSumHead (as_i32 (Z.of_nat (length blocks))) b s2 (if n mod b =? 0 then b else n mod b))
           (map (block_signature H ctx s2) blocks))) /\
  (ctx_checksum_type ctx = Xxh3 \/ ctx_checksum_type ctx = CkNone -> digest < s2).
Proof. by apply compute_signatures_eq. Qed.

Lemma compute_signatures_spec_witness :
  [1; 2; 3; 4; 5] <> [] /\
  compute_signatures toy_hash [1; 2; 3; 4; 5] (mkProtocolContext 9 Md5 0 true (Some 2)) =
    Ok (mkSumStruct (mkSumHead 3 2 11 1)
      (map (block_signature toy_hash (mkProtocolContext 9 Md5 0 true (Some 2)) 11)
         [[1; 2]; [3; 4]; [5]])) /\
  compute_signatures toy_hash [1; 2; 3; 4; 5] (mkProtocolContext 9 Xxh3 0 true None) = Panic.
Proof.
  split; [discriminate|]. split.
  - refine (proj1 (proj2 (compute_signatures_spec toy_hash toy_hash_laws [1; 2; 3; 4; 5]
      (mkProtocolContext 9 Md5 0 true (Some 2)) _ _ _)) _).
    + discriminate.
    + vm_compute. reflexivity.
    + vm_compute. split; reflexivity.
    + vm_compute. discriminate.
  - refine (proj1 (compute_signatures_spec toy_hash toy_hash_laws [1; 2; 3; 4; 5]
      (mkProtocolContext 9 Xxh3 0 true None) _ _ _) _).
    + discriminate.
    + vm_compute. reflexivity.
    + vm_compute. split; reflexivity.
    + vm_compute. reflexivity.
Defined.

(** The signature parameters: for a non-empty file the block length is a
    multiple of 8 between 704 and 131072, the square root of the file size
    rounded up to that multiple whenever that lies in the clamp; and while the
    digest length is not capped at 32 bytes, it keeps the chance of a false
    match of one window against all blocks below 2^-80. *)
Theorem signature_parameters n b :
  0 < n -> 0 < b -> n + b < 2 ^ 63 ->
  let bl := compute_block_length n in
  704 <= bl <= 131072 /\ bl mod 8 = 0 /\
  (MIN_BLOCK_LEN <= Z.sqrt n <= MAX_BLOCK_LEN -> Z.sqrt n <= bl < Z.sqrt n + 8) /\
  exists s2, compute_s2length n b = Ok s2 /\ 10 <= s2 <= 32 /\
    (s2 < 32 -> (n + b - 1) / b * 2 ^ 80 <= 2 ^ (8 * s2)).
Proof.
  intros Hn Hb Hs. cbv zeta. destruct (block_length_bounds n Hn) as (? & ? & ?).
  split_and!; [lia|lia|done|auto..]; try tauto.
  destruct (s2length_value n b Hn Hb Hs) as [E H10]. eexists. split; [exact E|].
  unfold MAX_DIGEST_LEN in *. split; [lia|]. intros Hlt.
  replace (Z.min ((80 + Z.log2_up ((n + b - 1) / b) + 7) / 8) 32)
    with ((80 + Z.log2_up ((n + b - 1) / b) + 7) / 8) by lia.
  apply s2length_collisions. apply Z.div_le_lower_bound; lia.
Qed.

Lemma signature_parameters_witness :
  0 < 1000000 /\ 704 <= compute_block_length 1000000 <= 131072 /\
  exists s2, compute_s2length 1000000 1000 = Ok s2 /\ 10 <= s2 <= 32 /\
    (s2 < 32 -> (1000000 + 1000 - 1) / 1000 * 2 ^ 80 <= 2 ^ (8 * s2)).
Proof.
  destruct (signature_parameters 1000000 1000) as (H1 & _ & _ & H2); [lia..|].
  split; [lia|]. split; [exact H1|exact H2].
Defined.

(** Signatures on the wire: both formats, the fixed-block one and the one
    with a length per block, read back exactly as written, for at most 2^24
    blocks with digests of at most 64 bytes; and on arbitrary bytes neither
    reader panics, and whatever it accepts is within those limits. *)
Theorem sums_wire_format s1 s2 k :
  sums_ok implicit_len s1 -> sums_ok explicit_len s2 ->
  (exists bs, write_sums s1 = (Ok tt, bs) /\ read_sums (bs ++ k) = Ok (s1, k)) /\
  (exists bs, write_sums_cdc s2 = (Ok tt, bs) /\ read_sums_cdc (bs ++ k) = Ok (s2, k)) /\
  safe read_sums (sums_ok implicit_len) /\ safe read_sums_cdc (sums_ok explicit_len).
Proof.
  intros H1 H2.
  destruct (write_sums_mirrors s1 H1) as ([] & ? & bs1 & Hw1 & Hr1 & ->).
  destruct (write_sums_cdc_mirrors s2 H2) as ([] & ? & bs2 & Hw2 & Hr2 & ->).
  split_and!; [by exists bs1|by exists bs2|apply read_sums_safe|apply read_sums_cdc_safe].
Qed.

Definition example_sums (l : option Z) : SumStruct :=
  mkSumStruct (mkSumHead 1 704 2 7) [mkSumEntry 77 [1; 2] l].

Lemma sums_wire_format_witness :
  sums_ok implicit_len (example_sums None) /\ sums_ok explicit_len (example_sums (Some 7)) /\
  exists bs, write_sums_cdc (example_sums (Some 7)) = (Ok tt, bs) /\
    read_sums_cdc (bs ++ [5]) = Ok (example_sums (Some 7), [5]).
Proof.
  assert (H1 : sums_ok implicit_len (example_sums None)).
  { unfold sums_ok, entry_ok, MAX_BLOCK_COUNT. simpl. split_and!; try lia.
    repeat constructor; simpl; try lia. }
  assert (H2 : sums_ok explicit_len (example_sums (Some 7))).
  { unfold sums_ok, entry_ok, MAX_BLOCK_COUNT. simpl. split_and!; try lia.
    repeat constructor; simpl; try lia. exists 7. split; [done|lia]. }
  split; [exact H1|]. split; [exact H2|].
  destruct (sums_wire_format (example_sums None) (example_sums (Some 7)) [5] H1 H2)
    as (_ & H & _). exact H.
Defined.
