(* ===== verification/Matcher.v ===== *)
(** Delta computation ([ferrosync-delta/src/ops.rs], [matcher.rs]): diff
    operations and their application, the batch matcher and the streaming one. *)
From S2P Require Import Prelude Wire Types Checksum Sum.

(** ** ops.rs *)

Record BasisRef := mkBasisRef { br_offset : Z; br_length : Z }.

Inductive DiffOp :=
  | Literal (data : list Z)
  | Copy (bref : BasisRef).

(** Without the debug assertions; the division panics on zero. *)
Definition block_index (bref : BasisRef) (blength : Z) : result Z :=
  if blength =? 0 then Panic else Ok (as_i32 (br_offset bref / blength)).

Definition apply_diffop (basis : list Z) (op : DiffOp) : list Z :=
  match op with
  | Literal data => data
  | Copy bref =>
      let offset := br_offset bref in
      let end_ := Z.min (as_u64 (offset + br_length bref)) (Z.of_nat (length basis)) in
      if offset <? Z.of_nat (length basis)
      then take (Z.to_nat (end_ - offset)) (drop (Z.to_nat offset) basis)
      else []
  end.
Definition apply_diffops (basis : list Z) (ops : list DiffOp) : list Z :=
  foldl (fun output op => output ++ apply_diffop basis op) [] ops.

(** ** matcher.rs *)

Definition block_byte_length (idx blength block_count remainder : nat) : Z :=
  if (0 <? block_count)%nat && (idx =? block_count - 1)%nat && (0 <? remainder)%nat
     && (remainder <? blength)%nat
  then as_u32 (Z.of_nat remainder) else as_u32 (Z.of_nat blength).

(** [HashMap<u32, Vec<usize>>]: [table.entry(sum1).or_default().push(i)]. *)
Definition push_index (table : gmap Z (list nat)) (key : Z) (i : nat) : gmap Z (list nat) :=
  <[key := match table !! key with Some v => v | None => [] end ++ [i]]> table.
Fixpoint build_hash_table_from (i : nat) (sums : list SumEntry) (table : gmap Z (list nat))
    : gmap Z (list nat) :=
  match sums with
  | [] => table
  | entry :: sums' => build_hash_table_from (S i) sums' (push_index table (sum1 entry) i)
  end.
Definition build_hash_table (sums : list SumEntry) : gmap Z (list nat) :=
  build_hash_table_from 0 sums ∅.

(** [sums[idx].sum2]; every index in the table is in range ([hash_table_spec]). *)
Definition sum2_at (sums : list SumEntry) (idx : nat) : list Z :=
  match sums !! idx with Some e => sum2 e | None => [] end.

Definition literal_if (data : list Z) : list DiffOp :=
  match data with [] => [] | _ => [Literal data] end.

(** [&source[a..b]] *)
Definition sub (l : list Z) (a b : nat) : list Z := take (b - a) (drop a l).

Section matcher.
  Context (H : HashLib).

(** The matching parameters a matcher takes from the signatures. *)
Record MatchConfig := mkMatchConfig {
  mc_table : gmap Z (list nat);
  mc_sums : list SumEntry;
  mc_blength : nat;
  mc_s2length : nat;
  mc_block_count : nat;
  mc_remainder : nat;
  mc_ctx : ProtocolContext;
}.

Definition as_usize (x : Z) : nat := Z.to_nat (as_u64 x).

Definition match_config (s : SumStruct) (ctx : ProtocolContext) : MatchConfig :=
  mkMatchConfig (build_hash_table (sums s)) (sums s) (as_usize (blength (head s)))
    (as_usize (s2length (head s))) (as_usize (count (head s))) (as_usize (remainder (head s))) ctx.

(** The candidate whose strong checksum is that of the window. *)
Definition find_match (mc : MatchConfig) (digest : Z) (window : list Z) : option nat :=
  match mc_table mc !! digest with
  | Some candidates =>
      let strong := checksum2 H window (mc_ctx mc) in
      let strong_truncated := take (mc_s2length mc `min` length strong) strong in
      List.find (fun idx => bool_decide (sum2_at (mc_sums mc) idx = strong_truncated)) candidates
  | None => None
  end.

Definition copy_op (mc : MatchConfig) (idx : nat) : DiffOp :=
  Copy (mkBasisRef (as_u64 (Z.of_nat idx * Z.of_nat (mc_blength mc)))
          (block_byte_length idx (mc_blength mc) (mc_block_count mc) (mc_remainder mc))).

(** The scan: [pos], [literal_start] and the rolling state, one window per
    round; each round moves [pos] forward, so [length source] rounds are enough. *)
Fixpoint match_loop (fuel : nat) (mc : MatchConfig) (source : list Z) (pos literal_start : nat)
    (rolling : RollingChecksum) (ops : list DiffOp) : list DiffOp * nat :=
  match fuel with
  | O => (ops, literal_start)
  | S fuel' =>
      if (length source <? pos + mc_blength mc)%nat then (ops, literal_start)
      else
        match find_match mc (rolling_digest rolling) (sub source pos (pos + mc_blength mc)) with
        | Some idx =>
            let ops := if (literal_start <? pos)%nat
                       then ops ++ [Literal (sub source literal_start pos)] else ops in
            let ops := ops ++ [copy_op mc idx] in
            let pos := (pos + mc_blength mc)%nat in
            let rolling := if (pos + mc_blength mc <=? length source)%nat
                           then rolling_compute rolling (sub source pos (pos + mc_blength mc))
                           else rolling in
            match_loop fuel' mc source pos pos rolling ops
        | None =>
            let old_byte := source !!! pos in
            let pos := S pos in
            let rolling := if (pos + mc_blength mc <=? length source)%nat
                           then rolling_roll rolling old_byte (source !!! (pos + mc_blength mc - 1)%nat)
                           else rolling in
            match_loop fuel' mc source pos literal_start rolling ops
        end
  end.

Definition match_blocks (source : list Z) (s : SumStruct) (ctx : ProtocolContext) : list DiffOp :=
  if bool_decide (source = []) then []
  else if (count (head s) <=? 0) || (blength (head s) <=? 0) then [Literal source]
  else
    let mc := match_config s ctx in
    if (length source <? mc_blength mc)%nat then [Literal source]
    else
      let rolling := rolling_compute (RollingChecksum_new (char_offset ctx))
                       (take (mc_blength mc) source) in
      let '(ops, literal_start) := match_loop (S (length source)) mc source 0 0 rolling [] in
      if (literal_start <? length source)%nat then ops ++ [Literal (drop literal_start source)] else ops.

(** ** The streaming matcher

    The reader is the list of bytes still to come; [read_fill] gets as many as
    fit (reads that fail abort the transfer and are not modelled). *)

Definition DEFAULT_STREAM_CHUNK : nat := 256 * 1024.

Record StreamingMatcher := mkStreaming {
  sm_config : MatchConfig;
  sm_chunk_size : nat;
  sm_no_sums : bool;
  sm_rolling : RollingChecksum;
  sm_buf : list Z;
  sm_buf_len : nat;
  sm_pos : nat;
  sm_literal_start : nat;
  sm_initialized : bool;
  sm_exhausted : bool;
  sm_need_rolling_init : bool;
}.

Definition StreamingMatcher_new (s : SumStruct) (ctx : ProtocolContext) (chunk_size : nat)
    : StreamingMatcher :=
  let no_sums := (count (head s) <=? 0) || (blength (head s) <=? 0) in
  let mc := match_config s ctx in
  let blength := if no_sums then 0%nat else mc_blength mc in
  let mc := mkMatchConfig (mc_table mc) (mc_sums mc) blength (mc_s2length mc) (mc_block_count mc)
              (mc_remainder mc) ctx in
  {| sm_config := mc; sm_chunk_size := chunk_size; sm_no_sums := no_sums;
     sm_rolling := RollingChecksum_new (char_offset ctx);
     sm_buf := replicate (blength + chunk_size) 0; sm_buf_len := 0; sm_pos := 0;
     sm_literal_start := 0; sm_initialized := false; sm_exhausted := false;
     sm_need_rolling_init := true |}.

Definition read_fill (reader : list Z) (n : nat) : list Z * list Z := (take n reader, drop n reader).

(** Step 1 of [process_chunk] when it only reads: the fresh bytes go to [at]. *)
Definition fill_at (at_ : nat) (m : StreamingMatcher) (reader : list Z)
    : StreamingMatcher * list Z * list Z :=
  let '(fresh, reader) := read_fill reader (sm_chunk_size m) in
  (mkStreaming (sm_config m) (sm_chunk_size m) (sm_no_sums m) (sm_rolling m)
     (copy_at at_ fresh (sm_buf m)) (at_ + length fresh) (sm_pos m) (sm_literal_start m) true
     (if (length fresh <? sm_chunk_size m)%nat then true else sm_exhausted m)
     (sm_need_rolling_init m), fresh, reader).

(** The shift of the overlap window to the front of the buffer, and the literal
    it pushes out. *)
Definition shift_overlap (m : StreamingMatcher) : StreamingMatcher * list DiffOp :=
  let shift_by := (sm_buf_len m - mc_blength (sm_config m))%nat in
  let ops := if (sm_literal_start m <? shift_by)%nat
             then [Literal (sub (sm_buf m) (sm_literal_start m) shift_by)] else [] in
  let literal_start := if (sm_literal_start m <? shift_by)%nat then shift_by else sm_literal_start m in
  (mkStreaming (sm_config m) (sm_chunk_size m) (sm_no_sums m) (sm_rolling m)
     (copy_at 0 (sub (sm_buf m) shift_by (sm_buf_len m)) (sm_buf m)) (sm_buf_len m)
     (sm_pos m - shift_by) (literal_start - shift_by) (sm_initialized m) (sm_exhausted m)
     (sm_need_rolling_init m), ops).

Definition fill_buffer (m : StreamingMatcher) (reader : list Z)
    : StreamingMatcher * list DiffOp * list Z * list Z :=
  if negb (sm_initialized m) || sm_no_sums m || (mc_blength (sm_config m) =? 0)%nat then
    let '(m, fresh, reader) := fill_at 0 m reader in (m, [], fresh, reader)
  else
    let '(m, ops) := shift_overlap m in
    let '(m, fresh, reader) := fill_at (mc_blength (sm_config m)) m reader in
    (m, ops, fresh, reader).

(** Step 4: the loop over the windows of the buffer. *)
Fixpoint stream_loop (fuel : nat) (mc : MatchConfig) (buf : list Z) (buf_len pos literal_start : nat)
    (rolling : RollingChecksum) (need_init : bool) (ops : list DiffOp)
    : list DiffOp * nat * nat * RollingChecksum * bool :=
  match fuel with
  | O => (ops, pos, literal_start, rolling, need_init)
  | S fuel' =>
      if (buf_len <? pos + mc_blength mc)%nat then (ops, pos, literal_start, rolling, need_init)
      else
        match find_match mc (rolling_digest rolling) (sub buf pos (pos + mc_blength mc)) with
        | Some idx =>
            let ops := if (literal_start <? pos)%nat
                       then ops ++ [Literal (sub buf literal_start pos)] else ops in
            let ops := ops ++ [copy_op mc idx] in
            let pos := (pos + mc_blength mc)%nat in
            if (pos + mc_blength mc <=? buf_len)%nat then
              stream_loop fuel' mc buf buf_len pos pos
                (rolling_compute rolling (sub buf pos (pos + mc_blength mc))) need_init ops
            else stream_loop fuel' mc buf buf_len pos pos rolling true ops
        | None =>
            let old_byte := buf !!! pos in
            let pos := S pos in
            let rolling := if (pos + mc_blength mc <=? buf_len)%nat
                           then rolling_roll rolling old_byte (buf !!! (pos + mc_blength mc - 1)%nat)
                           else rolling in
            stream_loop fuel' mc buf buf_len pos literal_start rolling need_init ops
        end
  end.

(** Steps 3 and 4 on a filled buffer. *)
Definition scan_buffer (m : StreamingMatcher) (ops : list DiffOp) : StreamingMatcher * list DiffOp :=
  let mc := sm_config m in
  let rolling := if sm_need_rolling_init m
                 then rolling_compute (sm_rolling m)
                        (sub (sm_buf m) (sm_pos m) (sm_pos m + mc_blength mc))
                 else sm_rolling m in
  let '(ops, pos, literal_start, rolling, need_init) :=
    stream_loop (S (sm_buf_len m)) mc (sm_buf m) (sm_buf_len m) (sm_pos m) (sm_literal_start m)
      rolling false ops in
  (mkStreaming mc (sm_chunk_size m) (sm_no_sums m) rolling (sm_buf m) (sm_buf_len m) pos
     literal_start (sm_initialized m) (sm_exhausted m) need_init, ops).

(** [process_chunk]: the operations found, whether the stream is done, the
    matcher, the rest of the reader and the checksum afterwards. *)
Definition process_chunk (m : StreamingMatcher) (reader : list Z) (checksum : IncrementalChecksum H)
    : list DiffOp * bool * StreamingMatcher * list Z * IncrementalChecksum H :=
  let '(m, ops, fresh, reader) := fill_buffer m reader in
  let checksum := if (0 <? length fresh)%nat then inc_update H checksum fresh else checksum in
  if (sm_buf_len m =? 0)%nat then (ops, true, m, reader, checksum)
  else if sm_no_sums m then
    (ops ++ [Literal (take (sm_buf_len m) (sm_buf m))], sm_exhausted m, m, reader, checksum)
  else if (sm_buf_len m <? mc_blength (sm_config m))%nat then
    (ops ++ [Literal (take (sm_buf_len m) (sm_buf m))], true, m, reader, checksum)
  else
    let '(m, ops) := scan_buffer m ops in
    if sm_exhausted m then
      (if (sm_literal_start m <? sm_buf_len m)%nat
       then ops ++ [Literal (sub (sm_buf m) (sm_literal_start m) (sm_buf_len m))] else ops,
       true, m, reader, checksum)
    else (ops, false, m, reader, checksum).

(** The caller's loop: process chunks until done; [None] when the fuel ends. *)
Fixpoint stream_all (fuel : nat) (m : StreamingMatcher) (reader : list Z)
    (checksum : IncrementalChecksum H) : option (list DiffOp * list Z * IncrementalChecksum H) :=
  match fuel with
  | O => None
  | S fuel' =>
      let '(ops, done, m, reader, checksum) := process_chunk m reader checksum in
      if done : bool then Some (ops, reader, checksum)
      else
        match stream_all fuel' m reader checksum with
        | Some (ops', reader, checksum) => Some (ops ++ ops', reader, checksum)
        | None => None
        end
  end.

(** ** Specification *)

(** The reference matcher: at each position look through all signatures, in
    order, recomputing both checksums from scratch. *)
Definition naive_find (mc : MatchConfig) (window : list Z) : option nat :=
  List.find (fun idx =>
      match mc_sums mc !! idx with
      | Some e =>
          bool_decide (sum1 e = checksum1 window (char_offset (mc_ctx mc)))
          && bool_decide (sum2 e = take (mc_s2length mc) (checksum2 H window (mc_ctx mc)))
      | None => false
      end)
    (seq 0 (length (mc_sums mc))).

Fixpoint reference_match (fuel : nat) (mc : MatchConfig) (rest literal : list Z) : list DiffOp :=
  match fuel with
  | O => literal_if (literal ++ rest)
  | S fuel' =>
      if (length rest <? mc_blength mc)%nat then literal_if (literal ++ rest)
      else
        match naive_find mc (take (mc_blength mc) rest) with
        | Some idx =>
            literal_if literal ++ [copy_op mc idx]
            ++ reference_match fuel' mc (drop (mc_blength mc) rest) []
        | None =>
            match rest with
            | [] => literal_if literal
            | b :: rest' => reference_match fuel' mc rest' (literal ++ [b])
            end
        end
  end.

(** [w] is a window of [source]. *)
Definition window_of (source : list Z) (b : nat) (w : list Z) : Prop :=
  exists o, (o + b <= length source)%nat /\ w = sub source o (o + b).

(** What the strong checksum is trusted for: a window of the source whose
    rolling and truncated strong checksums are those of a block of the basis
    is that block. *)
Definition collision_free (ctx : ProtocolContext) (b : nat) (s2 : Z) (basis source : list Z) : Prop :=
  forall w block, window_of source b w -> block ∈ chunks b basis ->
    take (Z.to_nat s2) (checksum2 H block ctx) = take (Z.to_nat s2) (checksum2 H w ctx) -> block = w.

(** Every match the matcher can take on the windows of [source] is genuine. *)
Definition sound_matches (mc : MatchConfig) (basis source : list Z) : Prop :=
  forall d w idx, window_of source (mc_blength mc) w -> find_match mc d w = Some idx ->
    apply_diffop basis (copy_op mc idx) = w.

(** ** Diff operations *)

Lemma apply_diffops_concat basis ops :
  apply_diffops basis ops = concat (map (apply_diffop basis) ops).
Proof.
  unfold apply_diffops. assert (E : forall acc, foldl (fun output op => output ++ apply_diffop basis op) acc ops
    = acc ++ concat (map (apply_diffop basis) ops)).
  { induction ops as [|op ops IH]; intros acc; cbn [foldl map concat].
    - by rewrite app_nil_r.
    - by rewrite IH, app_assoc. }
  apply E.
Qed.

Lemma apply_diffops_app basis o1 o2 :
  apply_diffops basis (o1 ++ o2) = apply_diffops basis o1 ++ apply_diffops basis o2.
Proof. by rewrite !apply_diffops_concat, map_app, concat_app. Qed.

Lemma apply_literal basis l : apply_diffops basis [Literal l] = l.
Proof. done. Qed.

Lemma apply_one basis op : apply_diffops basis [op] = apply_diffop basis op.
Proof. done. Qed.

Lemma apply_flush basis ops (c : bool) l :
  (c = false -> l = []) ->
  apply_diffops basis (if c then ops ++ [Literal l] else ops) = apply_diffops basis ops ++ l.
Proof.
  intros Hc. destruct c.
  - by rewrite apply_diffops_app, apply_literal.
  - rewrite Hc by done. by rewrite app_nil_r.
Qed.

Lemma take_sub (l : list Z) a b : (a <= b)%nat -> take a l ++ sub l a b = take b l.
Proof.
  intros Hab. unfold sub. rewrite <- (take_drop a (take b l)), take_take, Nat.min_l by done.
  f_equal. by rewrite skipn_firstn_comm.
Qed.

Lemma sub_empty (l : list Z) a : sub l a a = [].
Proof. unfold sub. by rewrite Nat.sub_diag. Qed.

Lemma length_sub (l : list Z) a b : (b <= length l)%nat -> length (sub l a b) = (b - a)%nat.
Proof. intros Hb. unfold sub. rewrite length_take, length_drop. lia. Qed.

(** ** The batch matcher is sound *)

Lemma match_loop_sound fuel mc basis source pos ls rolling ops :
  sound_matches mc basis source -> (0 < mc_blength mc)%nat -> (ls <= pos <= length source)%nat ->
  apply_diffops basis ops = take ls source ->
  let '(ops', ls') := match_loop fuel mc source pos ls rolling ops in
  apply_diffops basis ops' = take ls' source /\ (ls' <= length source)%nat.
Proof.
  intros Hs Hb. revert pos ls rolling ops. induction fuel as [|fuel IH]; intros pos ls rolling ops Hp Hops.
  { simpl. split; [done|lia]. }
  cbn [match_loop]. destruct (Nat.ltb_spec (length source) (pos + mc_blength mc)); [split; [done|lia]|].
  destruct (find_match mc (rolling_digest rolling) (sub source pos (pos + mc_blength mc))) as [idx|] eqn:E.
  - apply IH; [lia|]. rewrite apply_diffops_app, apply_flush, Hops, take_sub, apply_one.
    2: lia.
    2: { intros Hf. zbool. replace ls with pos by lia. apply sub_empty. }
    rewrite (Hs _ _ _ (ex_intro _ pos (conj H0 eq_refl)) E). apply take_sub. lia.
  - apply IH; [lia|done].
Qed.

(** ** The hash table *)

Definition with_sum1 (sums : list SumEntry) (i : nat) (d : Z) (idx : nat) : bool :=
  match sums !! (idx - i)%nat with
  | Some e => bool_decide (sum1 e = d)
  | None => false
  end.

Lemma hash_table_from_spec i sums table d :
  match build_hash_table_from i sums table !! d with Some v => v | None => [] end =
  match table !! d with Some v => v | None => [] end
  ++ List.filter (with_sum1 sums i d) (seq i (length sums)).
Proof.
  revert i table. induction sums as [|e sums IH]; intros i table; cbn [build_hash_table_from length seq].
  { by rewrite app_nil_r. }
  rewrite IH. cbn [List.filter]. unfold with_sum1 at 2. rewrite Nat.sub_diag. cbn [lookup list_lookup].
  assert (E : List.filter (with_sum1 sums (S i) d) (seq (S i) (length sums))
            = List.filter (with_sum1 (e :: sums) i d) (seq (S i) (length sums))).
  { apply filter_ext_in. intros j Hj%in_seq. unfold with_sum1.
    by replace (j - i)%nat with (S (j - S i)) by lia. }
  rewrite E. unfold push_index. destruct (decide (sum1 e = d)) as [->|Hd].
  - rewrite lookup_insert_eq, bool_decide_eq_true_2 by done. by rewrite <- app_assoc.
  - rewrite lookup_insert_ne, bool_decide_eq_false_2 by done. done.
Qed.

Lemma hash_table_spec sums d :
  match build_hash_table sums !! d with Some v => v | None => [] end =
  List.filter (with_sum1 sums 0 d) (seq 0 (length sums)).
Proof. pose proof (hash_table_from_spec 0 sums ∅ d) as E. rewrite lookup_empty in E. exact E. Qed.

Lemma find_filter {A} (P Q : A -> bool) l :
  List.find P (List.filter Q l) = List.find (fun x => Q x && P x) l.
Proof.
  induction l as [|x l IH]; [done|]. cbn [List.filter List.find].
  destruct (Q x); cbn [andb List.find]; [|done]. by destruct (P x).
Qed.

Lemma find_ext_in {A} (P Q : A -> bool) l :
  (forall x, In x l -> P x = Q x) -> List.find P l = List.find Q l.
Proof.
  induction l as [|x l IH]; intros Hl; [done|]. cbn [List.find]. rewrite (Hl x) by (by left).
  destruct (Q x); [done|]. apply IH. intros y Hy. apply Hl. by right.
Qed.

(** The lookup in the hash table is the search through all signatures. *)
Lemma find_match_naive mc window :
  mc_table mc = build_hash_table (mc_sums mc) ->
  find_match mc (checksum1 window (char_offset (mc_ctx mc))) window = naive_find mc window.
Proof.
  intros Ht. unfold find_match, naive_find. rewrite Ht.
  set (d := checksum1 window (char_offset (mc_ctx mc))).
  pose proof (hash_table_spec (mc_sums mc) d) as Hh.
  set (P := fun idx => bool_decide (sum2_at (mc_sums mc) idx = take (mc_s2length mc `min` length
    (checksum2 H window (mc_ctx mc))) (checksum2 H window (mc_ctx mc)))).
  assert (E : match build_hash_table (mc_sums mc) !! d with
              | Some c => List.find P c | None => None end
            = List.find P (match build_hash_table (mc_sums mc) !! d with Some v => v | None => [] end))
    by (by destruct (build_hash_table (mc_sums mc) !! d)).
  etransitivity; [exact E|]. rewrite Hh, find_filter. apply find_ext_in. intros idx Hi%in_seq.
  unfold with_sum1, P, sum2_at. rewrite Nat.sub_0_r.
  destruct (mc_sums mc !! idx) as [e|]; [|done]. do 3 f_equal.
  destruct (decide (mc_s2length mc <= length (checksum2 H window (mc_ctx mc)))%nat).
  - by rewrite Nat.min_l.
  - rewrite !take_ge; [done|lia|lia].
Qed.

(** ** The batch matcher is the reference matcher *)

Lemma sub_drop (l : list Z) a b : sub l a (a + b) = take b (drop a l).
Proof. unfold sub. f_equal. lia. Qed.

Lemma sub_snoc (l : list Z) a b :
  (a <= b < length l)%nat -> sub l a (S b) = sub l a b ++ [l !!! b].
Proof.
  intros Hab. unfold sub. replace (S b - a)%nat with (S (b - a)) by lia.
  apply take_S_r. rewrite lookup_drop. rewrite list_lookup_lookup_total_lt by lia.
  do 2 f_equal. lia.
Qed.

Lemma literal_if_sub (source : list Z) ls pos :
  (pos <= length source)%nat ->
  (if (ls <? pos)%nat then [Literal (sub source ls pos)] else []) = literal_if (sub source ls pos).
Proof.
  intros Hp. destruct (Nat.ltb_spec ls pos).
  - assert (Hl : length (sub source ls pos) = (pos - ls)%nat) by by apply length_sub.
    destruct (sub source ls pos); [simpl in Hl; lia|done].
  - unfold sub. replace (pos - ls)%nat with 0%nat by lia. done.
Qed.

Lemma roll_at r (source : list Z) pos b :
  (0 < b)%nat -> (S pos + b <= length source)%nat ->
  rolling_roll (rolling_compute r (sub source pos (pos + b))) (source !!! pos)
    (source !!! (S pos + b - 1)%nat)
  = rolling_compute r (sub source (S pos) (S pos + b)).
Proof.
  intros Hb Hl. rewrite !sub_drop.
  rewrite (drop_S source (source !!! pos) pos) by (apply list_lookup_lookup_total_lt; lia).
  destruct b as [|b]; [lia|]. cbn [take]. rewrite roll_window. f_equal.
  symmetry. apply take_S_r. rewrite lookup_drop, list_lookup_lookup_total_lt by lia.
  do 2 f_equal. lia.
Qed.

(** The rolling state is that of the current window, when there is one. *)
Definition rolling_ok (mc : MatchConfig) (source : list Z) (pos : nat) (r : RollingChecksum) : Prop :=
  (pos + mc_blength mc <= length source)%nat ->
  r = rolling_compute (RollingChecksum_new (char_offset (mc_ctx mc)))
        (sub source pos (pos + mc_blength mc)).

Lemma rolling_compute_again off l l' :
  rolling_compute (rolling_compute (RollingChecksum_new off) l) l'
  = rolling_compute (RollingChecksum_new off) l'.
Proof. by rewrite !rolling_compute_sums. Qed.

Lemma rolling_compute_offset r l : r_char_offset (rolling_compute r l) = r_char_offset r.
Proof. by rewrite rolling_compute_sums. Qed.

Definition final_flush (source : list Z) (p : list DiffOp * nat) : list DiffOp :=
  if (p.2 <? length source)%nat then p.1 ++ [Literal (drop p.2 source)] else p.1.

Lemma final_flush_eq source ops ls :
  final_flush source (ops, ls) = ops ++ literal_if (drop ls source).
Proof.
  unfold final_flush. cbn [fst snd]. destruct (Nat.ltb_spec ls (length source)).
  - destruct (drop ls source) eqn:E; [|done].
    apply (f_equal length) in E. rewrite length_drop in E. simpl in E. lia.
  - rewrite drop_ge by lia. by rewrite app_nil_r.
Qed.

Lemma match_loop_reference fuel mc source pos ls r ops :
  mc_table mc = build_hash_table (mc_sums mc) -> (0 < mc_blength mc)%nat ->
  (ls <= pos <= length source)%nat -> rolling_ok mc source pos r ->
  (length source - pos < fuel)%nat ->
  final_flush source (match_loop fuel mc source pos ls r ops)
  = ops ++ reference_match fuel mc (drop pos source) (sub source ls pos).
Proof.
  intros Ht Hb. revert pos ls r ops. induction fuel as [|fuel IH]; intros pos ls r ops Hp Hr Hf; [lia|].
  cbn [match_loop reference_match]. rewrite length_drop.
  assert (Hend : sub source ls pos ++ drop pos source = drop ls source).
  { unfold sub. rewrite <- (take_drop (pos - ls) (drop ls source)) at 2. rewrite drop_drop.
    do 2 f_equal. lia. }
  destruct (Nat.ltb_spec (length source) (pos + mc_blength mc)) as [Hs|Hs].
  { destruct (Nat.ltb_spec (length source - pos) (mc_blength mc)); [|lia].
    by rewrite final_flush_eq, Hend. }
  destruct (Nat.ltb_spec (length source - pos) (mc_blength mc)); [lia|].
  specialize (Hr Hs). subst r. rewrite rolling_digest_compute, <- sub_drop.
  change (r_char_offset (RollingChecksum_new (char_offset (mc_ctx mc)))) with (char_offset (mc_ctx mc)).
  rewrite find_match_naive by done.
  destruct (naive_find mc (sub source pos (pos + mc_blength mc))) as [idx|] eqn:E.
  - rewrite IH; [|lia| |lia].
    + rewrite sub_empty, drop_drop, <- literal_if_sub by lia.
      destruct (ls <? pos)%nat; rewrite <- ?app_assoc; done.
    + intros Hw. destruct (Nat.leb_spec (pos + mc_blength mc + mc_blength mc) (length source)); [|lia].
      apply rolling_compute_again.
  - rewrite (drop_S source (source !!! pos) pos) by (apply list_lookup_lookup_total_lt; lia).
    rewrite IH; [|lia| |lia].
    + by rewrite sub_snoc by lia.
    + intros Hw. destruct (Nat.leb_spec (S pos + mc_blength mc) (length source)); [|lia].
      by apply roll_at.
Qed.

Lemma reference_small fuel mc s : (length s < mc_blength mc)%nat ->
  reference_match fuel mc s [] = literal_if s.
Proof.
  intros Hl. destruct fuel as [|fuel]; cbn [reference_match]; [done|].
  by destruct (Nat.ltb_spec (length s) (mc_blength mc)); [|lia].
Qed.

(** ** Genuine matches *)

Lemma chunks_lookup {A} b (l : list A) i c :
  (0 < b)%nat -> chunks b l !! i = Some c -> c = take b (drop (i * b) l) /\ (i * b < length l)%nat.
Proof.
  intros Hb. revert l. induction i as [|i IH]; intros l Hc.
  - destruct l as [|a l]; [done|]. rewrite chunks_unfold in Hc by done. simpl in Hc. simplify_eq.
    simpl. split; [done|lia].
  - destruct (decide (l = [])) as [->|Hl]; [done|]. rewrite chunks_unfold in Hc by done.
    cbn [lookup list_lookup] in Hc. destruct (IH _ Hc) as [-> Hi]. rewrite drop_drop, length_drop in *.
    split; [|lia]. do 2 f_equal.
Qed.

Lemma chunks_count {A} b (l : list A) :
  (0 < b)%nat -> (length l <= length (chunks b l) * b)%nat /\ (length (chunks b l) <= length l)%nat.
Proof.
  intros Hb. remember (length l) as n eqn:En. revert l En. induction (lt_wf n) as [n _ IH].
  intros l ->. destruct (decide (l = [])) as [->|Hl]; [simpl; lia|].
  rewrite chunks_unfold by done. cbn [length]. destruct l as [|a l]; [done|].
  destruct (IH (length (drop b (a :: l)))%nat) with (l := drop b (a :: l)) as [H1 H2];
    [rewrite length_drop; simpl; lia|done|].
  rewrite length_drop in *. simpl length in *. lia.
Qed.

Lemma find_match_inv mc d w idx :
  mc_table mc = build_hash_table (mc_sums mc) -> find_match mc d w = Some idx ->
  exists e, mc_sums mc !! idx = Some e /\ sum1 e = d /\
    sum2 e = take (mc_s2length mc) (checksum2 H w (mc_ctx mc)).
Proof.
  intros Ht. unfold find_match. rewrite Ht. pose proof (hash_table_spec (mc_sums mc) d) as Hh.
  destruct (build_hash_table (mc_sums mc) !! d) as [c|]; [|done]. subst c.
  intros [Hin Heq]%List.find_some. apply filter_In in Hin as [_ Hin]. unfold with_sum1 in Hin.
  rewrite Nat.sub_0_r in Hin. unfold sum2_at in Heq.
  destruct (mc_sums mc !! idx) as [e|]; [|done]. exists e. apply bool_decide_eq_true_1 in Hin, Heq.
  split_and!; [done|done|]. rewrite Heq.
  destruct (decide (mc_s2length mc <= length (checksum2 H w (mc_ctx mc)))%nat).
  - by rewrite Nat.min_l.
  - rewrite !take_ge; [done|lia|lia].
Qed.

(** The signatures [compute_signatures] produces (see [Sum.compute_signatures_spec]). *)
Definition signatures_of (basis : list Z) (b s2 : Z) (ctx : ProtocolContext) : SumStruct :=
  let blocks := chunks (Z.to_nat b) basis in
  let n := Z.of_nat (length basis) in
  mkSumStruct (mkSumHead (as_i32 (Z.of_nat (length blocks))) b s2 (if n mod b =? 0 then b else n mod b))
    (map (block_signature H ctx s2) blocks).

Lemma as_usize_nonneg x : 0 <= x < 2 ^ 63 -> as_usize x = Z.to_nat x.
Proof. intros Hx. unfold as_usize. rewrite wrap_id; [done|lia]. Qed.

Lemma block_byte_length_full basis b s2 ctx idx :
  0 < b < 2 ^ 31 -> Z.of_nat (length basis) < 2 ^ 31 ->
  (idx * Z.to_nat b + Z.to_nat b <= length basis)%nat ->
  let mc := match_config (signatures_of basis b s2 ctx) ctx in
  block_byte_length idx (mc_blength mc) (mc_block_count mc) (mc_remainder mc) = b.
Proof.
  intros Hb Hn Hi. unfold block_byte_length, match_config, signatures_of.
  cbn [mc_blength mc_block_count mc_remainder head count blength remainder].
  destruct (chunks_count (Z.to_nat b) basis ltac:(lia)) as [Hc1 Hc2].
  remember (length (chunks (Z.to_nat b) basis)) as c eqn:Ec.
  rewrite (swrap_id 32), (as_usize_nonneg b) by lia.
  rewrite (as_usize_nonneg (Z.of_nat c)), Nat2Z.id by lia.
  pose proof (Z.mod_pos_bound (Z.of_nat (length basis)) b ltac:(lia)) as Hm.
  rewrite as_usize_nonneg by (destruct (_ =? 0); lia).
  destruct (_ && _) eqn:E; rewrite (wrap_id 32) by (destruct (_ =? 0); lia); [|lia].
  zbool. destruct (Z.eqb_spec (Z.of_nat (length basis) mod b) 0); [lia|].
  assert (Hlen : (length basis = c * Z.to_nat b)%nat).
  { destruct c as [|c]; [lia|]. replace idx with c in Hi by lia. lia. }
  assert (Hidx : Z.of_nat (length basis) = b * Z.of_nat c).
  { rewrite Hlen, Nat2Z.inj_mul, Z2Nat.id by lia. lia. }
  rewrite Hidx, Z.mul_comm, Z.mod_mul in * by lia. lia.
Qed.

Lemma signatures_sound basis source b s2 ctx :
  0 < b < 2 ^ 31 -> Z.of_nat (length basis) < 2 ^ 31 -> 0 <= s2 < 2 ^ 63 ->
  collision_free ctx (Z.to_nat b) s2 basis source ->
  sound_matches (match_config (signatures_of basis b s2 ctx) ctx) basis source.
Proof.
  intros Hb Hn Hs2 Hcf d w idx Hw Hm. apply find_match_inv in Hm as (e & He & _ & Hsum2); [|done].
  unfold match_config, signatures_of in He. cbn [mc_sums sums] in He.
  apply list_lookup_fmap_Some in He as (block & -> & Hblock).
  assert (Hbl : mc_blength (match_config (signatures_of basis b s2 ctx) ctx) = Z.to_nat b)
    by (apply as_usize_nonneg; simpl; lia).
  rewrite Hbl in Hw. change (mc_s2length _) with (as_usize s2) in Hsum2.
  rewrite as_usize_nonneg in Hsum2 by lia. cbn [sum2 block_signature] in Hsum2.
  change (mc_ctx _) with ctx in Hsum2.
  assert (block = w) as <- by (apply Hcf; [done|by eapply list_elem_of_lookup_2|done]).
  destruct (chunks_lookup (Z.to_nat b) basis idx block ltac:(lia) Hblock) as [Hbk Hlt].
  destruct Hw as (o & Ho & Hwo). apply (f_equal length) in Hwo. rewrite length_sub in Hwo by done.
  rewrite Hbk, length_take, length_drop in Hwo.
  unfold copy_op. rewrite block_byte_length_full by (done || lia). rewrite Hbl.
  cbn [apply_diffop br_offset br_length]. rewrite (wrap_id 64) by nia. rewrite (wrap_id 64) by nia.
  destruct (Z.ltb_spec (Z.of_nat idx * Z.of_nat (Z.to_nat b)) (Z.of_nat (length basis))); [|nia].
  rewrite Hbk. f_equal; [nia|]. f_equal. nia.
Qed.

(** ** The streaming matcher is sound *)

Lemma take_take_sub (l : list Z) o b n : (o + b <= n)%nat -> sub (take n l) o (o + b) = sub l o (o + b).
Proof.
  intros Ho. unfold sub. rewrite skipn_firstn_comm, take_take. f_equal. lia.
Qed.

Lemma sub_sub (l : list Z) B n o b :
  (o + b <= n)%nat -> sub (sub l B (B + n)) o (o + b) = sub l (B + o) (B + o + b).
Proof.
  intros Ho. rewrite (sub_drop l B n), take_take_sub by done. unfold sub. rewrite drop_drop.
  f_equal. lia.
Qed.

Lemma stream_loop_sound fuel mc basis source buf buf_len pos ls r ni pre ops P :
  sound_matches mc basis source -> (0 < mc_blength mc)%nat ->
  (forall o, (o + mc_blength mc <= buf_len)%nat ->
     window_of source (mc_blength mc) (sub buf o (o + mc_blength mc))) ->
  (ls <= pos <= buf_len)%nat -> (buf_len - pos < fuel)%nat ->
  pre ++ apply_diffops basis ops = P ++ take ls buf ->
  let '(ops', pos', ls', _, _) := stream_loop fuel mc buf buf_len pos ls r ni ops in
  pre ++ apply_diffops basis ops' = P ++ take ls' buf /\
  (ls' <= pos' <= buf_len)%nat /\ (buf_len < pos' + mc_blength mc)%nat.
Proof.
  intros Hs Hb Hw. revert pos ls r ni ops. induction fuel as [|fuel IH]; intros pos ls r ni ops Hp Hf Hops;
    [lia|].
  cbn [stream_loop]. destruct (Nat.ltb_spec buf_len (pos + mc_blength mc)); [done|].
  destruct (find_match mc (rolling_digest r) (sub buf pos (pos + mc_blength mc))) as [idx|] eqn:E.
  - assert (Hops' : pre ++ apply_diffops basis
      ((if (ls <? pos)%nat then ops ++ [Literal (sub buf ls pos)] else ops) ++ [copy_op mc idx])
      = P ++ take (pos + mc_blength mc) buf).
    { rewrite apply_diffops_app, apply_flush, !app_assoc, Hops, apply_one.
      - rewrite (Hs _ _ _ (Hw pos ltac:(lia)) E), <- !app_assoc. f_equal.
        rewrite app_assoc, take_sub, take_sub by lia. done.
      - intros Hfl. zbool. replace ls with pos by lia. apply sub_empty. }
    destruct (_ <=? buf_len)%nat; apply IH; done || lia.
  - apply IH; done || lia.
Qed.

(** The buffer of a matcher holds the bytes of [source] from [B] on, the reader
    what comes after it; the bytes [pre] made by earlier calls and the operations
    of this one make up everything before the pending literal. *)
Definition filled (basis source : list Z) (B : nat) (m : StreamingMatcher) (reader : list Z)
    (pre : list Z) (ops : list DiffOp) : Prop :=
  (B + sm_buf_len m <= length source)%nat /\
  take (sm_buf_len m) (sm_buf m) = sub source B (B + sm_buf_len m) /\
  reader = drop (B + sm_buf_len m) source /\
  (sm_literal_start m <= sm_pos m <= sm_buf_len m)%nat /\
  pre ++ apply_diffops basis ops = take (B + sm_literal_start m) source /\
  (sm_exhausted m = true -> reader = []).

Lemma filled_prefix basis source B m reader pre ops n :
  filled basis source B m reader pre ops -> (n <= sm_buf_len m)%nat ->
  take B source ++ take n (sm_buf m) = take (B + n) source.
Proof.
  intros (HB & Hbuf & _) Hn. rewrite <- (Nat.min_l n (sm_buf_len m)) by done.
  rewrite <- take_take, Hbuf, sub_drop, take_take, !Nat.min_l by done.
  rewrite <- sub_drop. apply take_sub. lia.
Qed.

Lemma scan_buffer_sound basis source B m reader pre ops :
  sound_matches (sm_config m) basis source -> (0 < mc_blength (sm_config m))%nat ->
  filled basis source B m reader pre ops ->
  let '(m', ops') := scan_buffer m ops in
  filled basis source B m' reader pre ops' /\ (sm_buf_len m' < sm_pos m' + mc_blength (sm_config m'))%nat /\
  sm_config m' = sm_config m /\ sm_chunk_size m' = sm_chunk_size m /\ sm_no_sums m' = sm_no_sums m /\
  sm_buf m' = sm_buf m /\ sm_buf_len m' = sm_buf_len m /\
  sm_initialized m' = sm_initialized m /\ sm_exhausted m' = sm_exhausted m.
Proof.
  intros Hs Hb Hfill. pose proof Hfill as (HB & Hbuf & Hreader & Hp & Hops & Hex).
  assert (Hw : forall o, (o + mc_blength (sm_config m) <= sm_buf_len m)%nat ->
    window_of source (mc_blength (sm_config m)) (sub (sm_buf m) o (o + mc_blength (sm_config m)))).
  { intros o Ho. exists (B + o)%nat. split; [lia|].
    rewrite <- (take_take_sub (sm_buf m) o _ (sm_buf_len m)), Hbuf by done. by apply sub_sub. }
  unfold scan_buffer. set (rolling := if sm_need_rolling_init m then _ else _).
  rewrite <- (filled_prefix _ _ _ _ _ _ _ _ Hfill) in Hops by lia.
  pose proof (stream_loop_sound (S (sm_buf_len m)) (sm_config m) basis source (sm_buf m) (sm_buf_len m)
    (sm_pos m) (sm_literal_start m) rolling false pre ops (take B source) Hs Hb Hw Hp ltac:(lia) Hops) as Hl.
  destruct (stream_loop _ _ _ _ _ _ _ _ _) as [[[[ops' pos'] ls'] r'] ni'].
  destruct Hl as (Hops' & Hp' & Hend). split; [|done].
  rewrite (filled_prefix _ _ _ _ _ _ _ _ Hfill) in Hops' by lia.
  unfold filled. cbn [sm_buf_len sm_buf sm_pos sm_literal_start sm_exhausted]. done.
Qed.

(** A matcher between two calls, when the stream is not done. *)
Definition between (basis source : list Z) (m : StreamingMatcher) (reader : list Z) (out : list Z) : Prop :=
  exists B, filled basis source B m reader out [] /\
  sound_matches (sm_config m) basis source /\
  (0 < mc_blength (sm_config m) <= sm_buf_len m)%nat /\
  (sm_buf_len m < sm_pos m + mc_blength (sm_config m))%nat /\
  (mc_blength (sm_config m) <= sm_chunk_size m)%nat /\
  length (sm_buf m) = (mc_blength (sm_config m) + sm_chunk_size m)%nat /\
  sm_no_sums m = false /\ sm_initialized m = true /\ sm_exhausted m = false.

(** Steps 2 to 5 on a freshly filled buffer. *)
Definition after_fill (m : StreamingMatcher) (ops : list DiffOp) : list DiffOp * bool * StreamingMatcher :=
  if (sm_buf_len m =? 0)%nat then (ops, true, m)
  else if sm_no_sums m then (ops ++ [Literal (take (sm_buf_len m) (sm_buf m))], sm_exhausted m, m)
  else if (sm_buf_len m <? mc_blength (sm_config m))%nat then
    (ops ++ [Literal (take (sm_buf_len m) (sm_buf m))], true, m)
  else
    let '(m, ops) := scan_buffer m ops in
    if sm_exhausted m then
      (if (sm_literal_start m <? sm_buf_len m)%nat
       then ops ++ [Literal (sub (sm_buf m) (sm_literal_start m) (sm_buf_len m))] else ops, true, m)
    else (ops, false, m).

Lemma process_chunk_eq m reader ck :
  process_chunk m reader ck =
  let '(m1, ops, fresh, reader1) := fill_buffer m reader in
  let '(ops', done, m2) := after_fill m1 ops in
  (ops', done, m2, reader1, if (0 <? length fresh)%nat then inc_update H ck fresh else ck).
Proof.
  unfold process_chunk, after_fill. destruct (fill_buffer m reader) as [[[m1 ops] fresh] reader1].
  destruct (sm_buf_len m1 =? 0)%nat; [done|]. destruct (sm_no_sums m1); [done|].
  destruct (sm_buf_len m1 <? mc_blength (sm_config m1))%nat; [done|].
  destruct (scan_buffer m1 ops) as [m2 ops2]. by destruct (sm_exhausted m2).
Qed.

Lemma fill_at_filled basis source B n m reader pre ops :
  (n + sm_chunk_size m <= length (sm_buf m))%nat ->
  (B + n <= length source)%nat -> take n (sm_buf m) = sub source B (B + n) ->
  reader = drop (B + n) source ->
  (sm_literal_start m <= sm_pos m <= n)%nat -> sm_exhausted m = false ->
  pre ++ apply_diffops basis ops = take (B + sm_literal_start m) source ->
  let '(m', fresh, reader') := fill_at n m reader in
  filled basis source B m' reader' pre ops /\
  fresh = take (sm_chunk_size m) reader /\ reader' = drop (sm_chunk_size m) reader /\
  sm_buf_len m' = (n + length fresh)%nat /\
  length (sm_buf m') = length (sm_buf m) /\
  sm_config m' = sm_config m /\ sm_chunk_size m' = sm_chunk_size m /\
  sm_no_sums m' = sm_no_sums m /\ sm_initialized m' = true /\
  (sm_exhausted m' = false -> (sm_chunk_size m <= length reader)%nat) /\
  ((length fresh < sm_chunk_size m)%nat -> sm_exhausted m' = true).
Proof.
  intros Hcap HB Hbuf Hr Hp Hex Hops. unfold fill_at, read_fill.
  set (fresh := take (sm_chunk_size m) reader).
  assert (Hfl : (length fresh <= sm_chunk_size m)%nat) by (subst fresh; rewrite length_take; lia).
  assert (Hfs : (length fresh <= length source - (B + n))%nat)
    by (subst fresh; rewrite length_take, Hr, length_drop; lia).
  assert (Hd : drop (sm_chunk_size m) reader = drop (length fresh) reader).
  { subst fresh. rewrite length_take. destruct (decide (sm_chunk_size m <= length reader)%nat).
    - by rewrite Nat.min_l.
    - rewrite !drop_ge; [done|lia|lia]. }
  split_and!; try done.
  - unfold filled. cbn [sm_buf_len sm_buf sm_pos sm_literal_start sm_exhausted]. split_and!; try lia.
    + unfold copy_at. rewrite app_assoc, take_app_length'.
      2: { rewrite length_app, length_take. lia. }
      assert (Ef : fresh = take (length fresh) (drop n (drop B source))).
      { rewrite drop_drop, <- Hr. subst fresh. rewrite length_take.
        rewrite <- (take_take reader), (take_ge reader (length reader)) by lia. done. }
      rewrite Hbuf, sub_drop, sub_drop. rewrite Ef at 1. apply take_take_drop.
    + rewrite Hd, Hr, drop_drop. f_equal. lia.
    + done.
    + rewrite Hex. destruct (Nat.ltb_spec (length fresh) (sm_chunk_size m)); [|done]. intros _.
      apply drop_ge. subst fresh. rewrite length_take in *. lia.
  - cbn [sm_buf]. unfold copy_at. rewrite !length_app, length_take, length_drop. lia.
  - cbn [sm_exhausted]. destruct (Nat.ltb_spec (length fresh) (sm_chunk_size m)); [done|]. intros _.
    subst fresh. rewrite length_take in *. lia.
  - cbn [sm_exhausted]. intros Hlt. by destruct (Nat.ltb_spec (length fresh) (sm_chunk_size m)); [|lia].
Qed.

Lemma after_fill_sound basis source B m reader pre ops :
  sound_matches (sm_config m) basis source ->
  (0 < mc_blength (sm_config m) <= sm_chunk_size m)%nat ->
  filled basis source B m reader pre ops -> sm_no_sums m = false -> sm_initialized m = true ->
  length (sm_buf m) = (mc_blength (sm_config m) + sm_chunk_size m)%nat ->
  (mc_blength (sm_config m) <= sm_buf_len m)%nat \/
    sm_literal_start m = 0%nat /\ sm_exhausted m = true ->
  let '(ops', done, m') := after_fill m ops in
  if done : bool then pre ++ apply_diffops basis ops' = source /\ reader = []
  else between basis source m' reader (pre ++ apply_diffops basis ops') /\
       sm_chunk_size m' = sm_chunk_size m /\ sm_exhausted m = false.
Proof.
  intros Hs Hb Hfill Hns Hini Hlen Hbig. unfold after_fill.
  assert (Hdone : forall m ops, filled basis source B m reader pre ops -> sm_exhausted m = true ->
    pre ++ apply_diffops basis (if (sm_literal_start m <? sm_buf_len m)%nat
      then ops ++ [Literal (sub (sm_buf m) (sm_literal_start m) (sm_buf_len m))] else ops) = source
    /\ reader = []).
  { intros m0 ops0 Hf0 Hex. pose proof Hf0 as (HB & Hbuf & Hreader & Hp & Hops & Hr0).
    rewrite (Hr0 Hex) in *. split; [|done]. rewrite apply_flush, app_assoc, Hops.
    - rewrite <- (filled_prefix _ _ _ _ _ _ _ _ Hf0), <- app_assoc, take_sub by lia.
      rewrite (filled_prefix _ _ _ _ _ _ _ _ Hf0) by lia. apply take_ge.
      apply (f_equal length) in Hreader. rewrite length_drop in Hreader. simpl in Hreader. lia.
    - intros Hfl. zbool. replace (sm_literal_start m0) with (sm_buf_len m0) by lia. apply sub_empty. }
  pose proof Hfill as (HB & Hbuf & Hreader & Hp & Hops & Hr0).
  destruct (Nat.eqb_spec (sm_buf_len m) 0) as [E0|E0].
  { destruct Hbig as [?|[Hls Hex]]; [lia|]. destruct (Hdone m ops Hfill Hex) as [Hd Hr].
    rewrite E0, Hls in Hd. done. }
  rewrite Hns. destruct (Nat.ltb_spec (sm_buf_len m) (mc_blength (sm_config m))) as [El|El].
  { destruct Hbig as [?|[Hls Hex]]; [lia|]. destruct (Hdone m ops Hfill Hex) as [Hd Hr].
    rewrite Hls in Hd. destruct (Nat.ltb_spec 0 (sm_buf_len m)); [|lia].
    unfold sub in Hd. rewrite drop_0, Nat.sub_0_r in Hd. done. }
  pose proof (scan_buffer_sound basis source B m reader pre ops Hs ltac:(lia) Hfill) as Hsc.
  destruct (scan_buffer m ops) as [m' ops'].
  destruct Hsc as (Hf' & Hend & Ec & Ech & Ens & Ebuf & Elen & Eini & Eex).
  destruct (sm_exhausted m') eqn:Hex'.
  - by apply Hdone.
  - split; [|split; congruence]. exists B. destruct Hf' as (H1 & H2 & H3 & H4 & H5 & H6).
    rewrite <- Elen in El. rewrite Ec in *. rewrite Ech, Ens, Ebuf, Eini, Hex'.
    rewrite Ebuf in H2. split; [|by split_and!; done || lia].
    unfold filled. rewrite Ebuf, Hex'. split_and!; try done; try lia. by rewrite app_nil_r.
Qed.

Lemma shift_overlap_filled basis source m reader out :
  between basis source m reader out ->
  let '(m1, ops) := shift_overlap m in
  exists B, (B + mc_blength (sm_config m) <= length source)%nat /\
  take (mc_blength (sm_config m)) (sm_buf m1) = sub source B (B + mc_blength (sm_config m)) /\
  reader = drop (B + mc_blength (sm_config m)) source /\
  (sm_literal_start m1 <= sm_pos m1 <= mc_blength (sm_config m))%nat /\
  out ++ apply_diffops basis ops = take (B + sm_literal_start m1) source /\
  length (sm_buf m1) = length (sm_buf m).
Proof.
  intros (B & Hfill & Hs & Hb & Hend & Hch & Hlen & _). unfold shift_overlap.
  pose proof Hfill as (HB & Hbuf & Hreader & Hp & Hops & _). rewrite app_nil_r in Hops.
  remember (mc_blength (sm_config m)) as b eqn:Eb.
  cbn [sm_buf sm_literal_start sm_pos]. exists (B + (sm_buf_len m - b))%nat.
  assert (Hsub : sub (sm_buf m) (sm_buf_len m - b) (sm_buf_len m)
                 = sub source (B + (sm_buf_len m - b)) (B + sm_buf_len m)).
  { replace (sm_buf_len m) with (sm_buf_len m - b + b)%nat at 2 by lia.
    rewrite <- (take_take_sub (sm_buf m) _ _ (sm_buf_len m)), Hbuf, sub_sub by lia. f_equal. lia. }
  assert (Hl : length (sub (sm_buf m) (sm_buf_len m - b) (sm_buf_len m)) = b)
    by (pose proof (f_equal length Hbuf) as Hlb; rewrite length_take, length_sub in Hlb by lia;
        rewrite length_sub; lia).
  split_and!.
  - lia.
  - unfold copy_at. rewrite take_0. cbn [app]. rewrite take_app_length' by done. rewrite Hsub. f_equal. lia.
  - rewrite Hreader. f_equal. lia.
  - destruct (Nat.ltb_spec (sm_literal_start m) (sm_buf_len m - b)); lia.
  - lia.
  - destruct (Nat.ltb_spec (sm_literal_start m) (sm_buf_len m - b)).
    + rewrite apply_literal, Hops, <- (filled_prefix _ _ _ _ _ _ _ _ Hfill), <- app_assoc, take_sub by lia.
      rewrite (filled_prefix _ _ _ _ _ _ _ _ Hfill) by lia. f_equal. lia.
    + rewrite app_nil_r, Hops. f_equal. lia.
  - unfold copy_at. rewrite !length_app, length_take, length_drop, Hl. lia.
Qed.

Lemma process_between basis source m reader out ck :
  between basis source m reader out ->
  let '(ops, done, m', reader', _) := process_chunk m reader ck in
  (if done : bool then out ++ apply_diffops basis ops = source /\ reader' = []
   else between basis source m' reader' (out ++ apply_diffops basis ops)) /\
  reader' = drop (sm_chunk_size m) reader /\ (done = false -> (sm_chunk_size m <= length reader)%nat /\
    sm_chunk_size m' = sm_chunk_size m).
Proof.
  intros Hbt. pose proof (shift_overlap_filled _ _ _ _ _ Hbt) as Hsh.
  destruct Hbt as (B0 & Hfill & Hs & Hb & Hend & Hch & Hlen & Hns & Hini & Hex).
  rewrite process_chunk_eq. unfold fill_buffer. rewrite Hini, Hns.
  destruct (Nat.eqb_spec (mc_blength (sm_config m)) 0); [lia|]. cbn [negb orb].
  destruct (shift_overlap m) as [m1 ops1] eqn:Em1. destruct Hsh as (B & HB & Hbuf & Hr & Hp & Hops & Hl1).
  assert (Heq : sm_config m1 = sm_config m /\ sm_chunk_size m1 = sm_chunk_size m /\
    sm_no_sums m1 = sm_no_sums m /\ sm_exhausted m1 = sm_exhausted m)
    by (unfold shift_overlap in Em1; by simplify_eq).
  destruct Heq as (Ec1 & Ech1 & Ens1 & Eex1).
  pose proof (fill_at_filled basis source B (mc_blength (sm_config m)) m1 reader out ops1
    ltac:(lia) HB Hbuf Hr Hp ltac:(congruence) Hops) as Hfa.
  rewrite Ec1. destruct (fill_at _ m1 reader) as [[m2 fresh] reader2].
  destruct Hfa as (Hf2 & Efr & Er2 & Elen2 & El2 & Ec2 & Ech2 & Ens2 & Eini2 & Hf3).
  pose proof (after_fill_sound basis source B m2 reader2 out ops1) as Haf.
  rewrite Ec2, Ec1, Ech2, Ech1 in Haf. specialize (Haf Hs ltac:(lia) Hf2 ltac:(congruence) Eini2
    ltac:(lia) ltac:(left; lia)).
  destruct (after_fill m2 ops1) as [[ops3 d] m3]. destruct Hf3 as [Hf3 Hf4].
  rewrite Ech1 in *. split; [|split; [done|]].
  - destruct d; [done|]. apply Haf.
  - intros ->. destruct Haf as (_ & Hcs & Hx). split; [by apply Hf3|congruence].
Qed.

Lemma stream_all_between fuel basis source m reader out ck :
  between basis source m reader out -> (length reader < fuel)%nat ->
  exists ops ck', stream_all fuel m reader ck = Some (ops, [], ck') /\
    out ++ apply_diffops basis ops = source.
Proof.
  revert m reader out ck. induction fuel as [|fuel IH]; intros m reader out ck Hbt Hf; [lia|].
  cbn [stream_all]. pose proof (process_between basis source m reader out ck Hbt) as Hp.
  assert (Hch : (0 < sm_chunk_size m)%nat) by (destruct Hbt as (B & _ & _ & ? & _ & ? & _); lia).
  destruct (process_chunk m reader ck) as [[[[ops done] m'] reader'] ck'].
  destruct Hp as (Hcase & Hr & Hshrink). destruct done.
  - destruct Hcase as [Hout ->]. by exists ops, ck'.
  - destruct (Hshrink eq_refl) as [Hlen _].
    destruct (IH m' reader' (out ++ apply_diffops basis ops) ck' Hcase) as (ops' & ck'' & -> & Hout).
    { rewrite Hr, length_drop. lia. }
    eexists _, _. split; [done|]. by rewrite apply_diffops_app, app_assoc.
Qed.

(** The checksum the matcher feeds sees every byte it reads. *)
Lemma stream_all_checksum fuel m reader ck ops rest ck' :
  HashLaws H -> stream_all fuel m reader ck = Some (ops, rest, ck') ->
  exists read, reader = read ++ rest /\ ck' = inc_update H ck read.
Proof.
  intros HL. revert m reader ck ops rest ck'.
  assert (Hstep : forall m reader ck, let '(_, _, _, reader', ck') := process_chunk m reader ck in
    exists fresh, reader = fresh ++ reader' /\ ck' = inc_update H ck fresh).
  { intros m reader ck. rewrite process_chunk_eq.
    assert (Hfill : let '(_, _, fresh, reader') := fill_buffer m reader in reader = fresh ++ reader').
    { unfold fill_buffer, shift_overlap, fill_at, read_fill. by destruct (_ || _); rewrite take_drop. }
    destruct (fill_buffer m reader) as [[[m1 ops1] fresh] reader1]. destruct (after_fill m1 ops1) as [[? ?] ?].
    exists fresh. split; [done|]. destruct (Nat.ltb_spec 0 (length fresh)); [done|].
    destruct fresh; [|simpl in *; lia]. by apply (inc_update_fold H ck []). }
  induction fuel as [|fuel IH]; intros m reader ck ops rest ck'; [done|]. cbn [stream_all].
  specialize (Hstep m reader ck). destruct (process_chunk m reader ck) as [[[[ops1 done] m1] reader1] ck1].
  destruct Hstep as (fresh & -> & ->). destruct done; [intros; simplify_eq; eauto|].
  destruct (stream_all fuel m1 reader1 _) as [[[ops2 rest2] ck2]|] eqn:E; [|done]. intros; simplify_eq.
  apply IH in E as (read & -> & ->). exists (fresh ++ read). rewrite app_assoc. split; [done|].
  pose proof (inc_update_fold H ck [fresh; read] HL) as Hu. cbn [foldl concat] in Hu.
  by rewrite app_nil_r in Hu.
Qed.

Lemma stream_all_new basis source s ctx chunk_size ck :
  sound_matches (match_config s ctx) basis source ->
  (0 < mc_blength (match_config s ctx) <= chunk_size)%nat ->
  0 < count (head s) -> 0 < blength (head s) ->
  exists ops ck', stream_all (S (S (length source))) (StreamingMatcher_new s ctx chunk_size) source ck
    = Some (ops, [], ck') /\ apply_diffops basis ops = source.
Proof.
  intros Hs Hb Hc Hbl. set (m0 := StreamingMatcher_new s ctx chunk_size).
  assert (Hns : (count (head s) <=? 0) || (blength (head s) <=? 0) = false).
  { destruct (Z.leb_spec (count (head s)) 0), (Z.leb_spec (blength (head s)) 0); done || lia. }
  assert (Hm0 : sm_config m0 = match_config s ctx /\ sm_no_sums m0 = false /\
    length (sm_buf m0) = (mc_blength (match_config s ctx) + chunk_size)%nat).
  { subst m0. unfold StreamingMatcher_new. cbn [sm_config sm_no_sums sm_buf]. rewrite Hns, length_replicate. done. }
  destruct Hm0 as (Ec & Ens & Elen).
  remember (S (length source)) as fuel eqn:Efuel.
  cbn [stream_all]. rewrite process_chunk_eq. unfold fill_buffer.
  change (sm_initialized m0) with false. cbn [negb orb].
  pose proof (fill_at_filled basis source 0 0 m0 source [] [] ltac:(rewrite Elen; subst m0; simpl; lia)
    ltac:(lia) eq_refl eq_refl ltac:(simpl; lia) eq_refl eq_refl) as Hfa.
  destruct (fill_at 0 m0 source) as [[m1 fresh] reader1].
  destruct Hfa as (Hf1 & Efr & Er1 & Elen1 & El1 & Ec1 & Ech1 & Ens1 & Eini1 & Hx1 & Hx2).
  change (sm_chunk_size m0) with chunk_size in *.
  pose proof (after_fill_sound basis source 0 m1 reader1 [] []) as Haf.
  rewrite Ec1, Ec, Ech1 in Haf. specialize (Haf Hs Hb Hf1 ltac:(congruence) Eini1 ltac:(congruence)).
  assert (Hls : sm_literal_start m1 = 0%nat).
  { pose proof Hf1 as (Hle & _ & _ & Hle2 & Hops & _). apply (f_equal length) in Hops.
    rewrite length_take in Hops. simpl in Hops. lia. }
  specialize (Haf ltac:(destruct (decide (mc_blength (match_config s ctx) <= sm_buf_len m1)%nat);
    [by left|right; split; [done|apply Hx2; lia]])).
  destruct (after_fill m1 []) as [[ops1 done] m2]. destruct done.
  - destruct Haf as [Hout ->]. eauto.
  - destruct Haf as (Hbt & _ & _).
    destruct (stream_all_between fuel basis source m2 reader1 _
      (if (0 <? length fresh)%nat then inc_update H ck fresh else ck) Hbt) as (ops' & ck' & -> & Hout).
    { rewrite Er1, length_drop. lia. }
    eexists _, _. split; [done|]. by rewrite apply_diffops_app.
Qed.

(** ** What the copies refer to *)

(** A literal, or the copy of a block the signatures have. *)
Definition known_copy (mc : MatchConfig) (op : DiffOp) : Prop :=
  match op with
  | Literal _ => True
  | Copy _ => exists idx, (idx < length (mc_sums mc))%nat /\ op = copy_op mc idx
  end.

Lemma found_known mc d w idx :
  mc_table mc = build_hash_table (mc_sums mc) -> find_match mc d w = Some idx -> known_copy mc (copy_op mc idx).
Proof.
  intros Ht (e & He & _)%find_match_inv; [|done]. exists idx. split; [|done]. by eapply lookup_lt_Some.
Qed.

Lemma known_flush mc (c : bool) d ops : Forall (known_copy mc) ops ->
  Forall (known_copy mc) (if c then ops ++ [Literal d] else ops).
Proof. intros Ho. destruct c; [|done]. apply Forall_app. split; [done|]. by apply Forall_singleton. Qed.

Lemma known_matched mc (c : bool) d ops op : Forall (known_copy mc) ops -> known_copy mc op ->
  Forall (known_copy mc) ((if c then ops ++ [Literal d] else ops) ++ [op]).
Proof. intros Ho Hop. apply Forall_app. split; [by apply known_flush|by apply Forall_singleton]. Qed.

Lemma match_loop_known fuel mc source pos ls r ops :
  mc_table mc = build_hash_table (mc_sums mc) -> Forall (known_copy mc) ops ->
  Forall (known_copy mc) (match_loop fuel mc source pos ls r ops).1.
Proof.
  intros Ht. revert pos ls r ops. induction fuel as [|fuel IH]; intros pos ls r ops Ho; [done|].
  cbn [match_loop]. destruct (_ <? _)%nat; [done|].
  destruct (find_match _ _ _) eqn:E; [|by apply IH]. apply IH, known_matched; [done|by eapply found_known].
Qed.

Lemma match_blocks_known source s ctx : Forall (known_copy (match_config s ctx)) (match_blocks source s ctx).
Proof.
  unfold match_blocks. destruct (bool_decide _); [constructor|]. destruct (_ || _); [by repeat constructor|].
  destruct (_ <? _)%nat; [by repeat constructor|].
  pose proof (match_loop_known (S (length source)) (match_config s ctx) source 0 0
    (rolling_compute (RollingChecksum_new (char_offset ctx)) (take (mc_blength (match_config s ctx)) source)) []
    eq_refl ltac:(constructor)) as Hk.
  destruct (match_loop _ _ _ _ _ _ _) as [ops ls]. by apply known_flush.
Qed.

Lemma stream_loop_known fuel mc buf n pos ls r (need : bool) ops :
  mc_table mc = build_hash_table (mc_sums mc) -> Forall (known_copy mc) ops ->
  let '(ops', _, _, _, _) := stream_loop fuel mc buf n pos ls r need ops in Forall (known_copy mc) ops'.
Proof.
  intros Ht. revert pos ls r need ops. induction fuel as [|fuel IH]; intros pos ls r need ops Ho; [done|].
  cbn [stream_loop]. destruct (_ <? _)%nat; [done|].
  destruct (find_match _ _ _) eqn:E; [|by apply IH].
  destruct (_ <=? _)%nat; apply IH, known_matched; done || by eapply found_known.
Qed.

Lemma process_chunk_known m reader ck : mc_table (sm_config m) = build_hash_table (mc_sums (sm_config m)) ->
  let '(ops, _, m', _, _) := process_chunk m reader ck in
  Forall (known_copy (sm_config m)) ops /\ sm_config m' = sm_config m.
Proof.
  intros Ht. unfold process_chunk.
  assert (Hf : let '(m1, ops, _, _) := fill_buffer m reader in
    sm_config m1 = sm_config m /\ Forall (known_copy (sm_config m)) ops).
  { unfold fill_buffer. destruct (_ || _); [by split; [|constructor]|]. unfold shift_overlap, fill_at, read_fill. cbn.
    split; [done|]. case_match; by repeat constructor. }
  destruct (fill_buffer m reader) as [[[m1 ops] fresh] reader1]. destruct Hf as [Hc Ho].
  assert (Hl : forall l, Forall (known_copy (sm_config m)) (ops ++ [Literal l]))
    by (intros l; apply Forall_app; split; [done|by repeat constructor]).
  destruct (sm_buf_len m1 =? 0)%nat; [done|]. destruct (sm_no_sums m1); [by split|].
  destruct (sm_buf_len m1 <? _)%nat; [by split|]. unfold scan_buffer. rewrite Hc.
  pose proof (stream_loop_known (S (sm_buf_len m1)) (sm_config m) (sm_buf m1) (sm_buf_len m1) (sm_pos m1)
    (sm_literal_start m1) (if sm_need_rolling_init m1 then rolling_compute (sm_rolling m1)
      (sub (sm_buf m1) (sm_pos m1) (sm_pos m1 + mc_blength (sm_config m))) else sm_rolling m1) false ops Ht Ho) as Hk.
  destruct (stream_loop _ _ _ _ _ _ _ _ _) as [[[[ops2 p] l] r] i]. cbn [sm_exhausted].
  destruct (sm_exhausted m1); [|done]. split; [|done]. by apply known_flush.
Qed.

Lemma stream_all_known fuel m reader ck ops rest ck' :
  mc_table (sm_config m) = build_hash_table (mc_sums (sm_config m)) ->
  stream_all fuel m reader ck = Some (ops, rest, ck') -> Forall (known_copy (sm_config m)) ops.
Proof.
  revert m reader ck ops rest ck'. induction fuel as [|fuel IH]; intros m reader ck ops rest ck' Ht; [done|].
  cbn [stream_all]. pose proof (process_chunk_known m reader ck Ht) as Hp.
  destruct (process_chunk m reader ck) as [[[[ops1 done] m1] reader1] ck1]. destruct Hp as [Ho Hc].
  destruct done; [by intros [= <- _ _]|].
  destruct (stream_all fuel m1 reader1 ck1) as [[[ops2 rest2] ck2]|] eqn:E; [|done]. intros [= <- _ _].
  apply Forall_app. split; [done|]. rewrite <- Hc. eapply IH; [|exact E]. by rewrite Hc.
Qed.

(** Without signatures the stream is sent as it is read. *)
Lemma stream_all_no_sums fuel m reader ck :
  sm_no_sums m = true -> (0 < sm_chunk_size m)%nat -> (length reader < fuel)%nat ->
  (sm_chunk_size m <= length (sm_buf m))%nat -> sm_exhausted m = false ->
  exists ops ck', stream_all fuel m reader ck = Some (ops, [], ck') /\ forall basis, apply_diffops basis ops = reader.
Proof.
  revert m reader ck. induction fuel as [|fuel IH]; intros m reader ck Hns Hch Hf Hbuf Hex; [lia|].
  cbn [stream_all]. unfold process_chunk, fill_buffer. rewrite Hns, orb_true_r. cbn [orb fill_at read_fill].
  unfold fill_at, read_fill. cbn [sm_buf_len sm_no_sums sm_exhausted sm_buf]. rewrite Hns, Nat.add_0_l, length_take.
  destruct (Nat.eqb_spec (sm_chunk_size m `min` length reader) 0) as [E0|E0].
  { assert (reader = []) as -> by (destruct reader; [done|cbn in E0; lia]). rewrite drop_nil. by eexists _, _. }
  assert (Hcopy : take (sm_chunk_size m `min` length reader) (copy_at 0 (take (sm_chunk_size m) reader) (sm_buf m))
    = take (sm_chunk_size m) reader).
  { unfold copy_at. rewrite take_0. cbn [app]. rewrite take_app_le by (rewrite length_take; lia).
    apply take_ge. rewrite length_take. lia. }
  rewrite Hcopy. destruct (Nat.ltb_spec (sm_chunk_size m `min` length reader) (sm_chunk_size m)).
  - rewrite drop_ge by lia. eexists _, _. split; [done|]. intros basis. unfold apply_diffops. cbn. apply take_ge. lia.
  - rewrite Hex. match goal with |- exists _ _, match stream_all _ ?m' _ ?c with _ => _ end = _ /\ _ =>
      destruct (IH m' (drop (sm_chunk_size m) reader) c) as (ops & ck' & -> & Hops) end; cbn; try done.
    + rewrite length_drop. lia.
    + unfold copy_at. rewrite !length_app, length_take, length_drop, length_take. lia.
    + eexists _, _. split; [done|]. intros basis. rewrite apply_diffops_concat. cbn [app map concat apply_diffop].
      rewrite <- apply_diffops_concat, Hops. apply take_drop.
Qed.

End matcher.

(** ** Putting the parts together *)

Lemma effective_blength_override basis ctx b :
  block_size_override ctx = Some b -> effective_blength basis ctx = b.
Proof. intros E. unfold effective_blength. by rewrite E. Qed.

(** What a successful [compute_signatures] of a non-empty basis returns. *)
Lemma compute_signatures_inv H (HL : HashLaws H) basis ctx s :
  basis <> [] -> Z.of_nat (length basis) < 2 ^ 31 -> 0 < effective_blength basis ctx < 2 ^ 31 ->
  compute_signatures H basis ctx = Ok s ->
  exists s2, 0 <= s2 <= 32 /\ s = signatures_of H basis (effective_blength basis ctx) s2 ctx /\
    s2length (head s) = s2.
Proof.
  intros Hne Hn Hb Hs.
  destruct (compute_signatures_eq H HL basis ctx Hne Hn Hb) as (Hpanic & Hok & _).
  remember (Z.min ((80 + Z.log2_up ((Z.of_nat (length basis) + effective_blength basis ctx - 1)
    / effective_blength basis ctx) + 7) / 8) MAX_DIGEST_LEN) as s2 eqn:Es2.
  destruct (Z.leb_spec s2 (Z.of_nat (ChecksumType.digest_len (ctx_checksum_type ctx)))) as [Hle|Hlt].
  - rewrite Hok in Hs by done. injection Hs as <-. exists s2. split; [|done].
    pose proof (Z.log2_up_nonneg ((Z.of_nat (length basis) + effective_blength basis ctx - 1)
      / effective_blength basis ctx)). split; [|subst s2; unfold MAX_DIGEST_LEN; lia].
    subst s2. apply Z.min_glb; [apply Z.div_pos; lia|done].
  - rewrite Hpanic in Hs by done. done.
Qed.

Lemma match_blocks_sound H basis source s ctx :
  sound_matches H (match_config s ctx) basis source -> blength (head s) < 2 ^ 63 ->
  apply_diffops basis (match_blocks H source s ctx) = source.
Proof.
  intros Hs Hbl. unfold match_blocks. destruct (decide (source = [])) as [->|Hne]; [done|].
  rewrite bool_decide_eq_false_2 by done.
  destruct ((count (head s) <=? 0) || (blength (head s) <=? 0)) eqn:E; [done|]. zbool.
  destruct (length source <? mc_blength (match_config s ctx))%nat eqn:El; [done|].
  assert (Hb : (0 < mc_blength (match_config s ctx))%nat)
    by (cbn [match_config mc_blength]; rewrite as_usize_nonneg by lia; lia).
  pose proof (match_loop_sound H (S (length source)) (match_config s ctx) basis source 0 0
    (rolling_compute (RollingChecksum_new (char_offset ctx)) (take (mc_blength (match_config s ctx)) source))
    [] Hs Hb ltac:(lia) eq_refl) as Hl.
  destruct (match_loop _ _ _ _ _ _ _ _) as [ops ls]. destruct Hl as [Hops Hls].
  rewrite apply_flush, Hops; [apply take_drop|]. intros Hf. zbool. apply drop_ge. lia.
Qed.

Lemma match_blocks_reference_eq H source s ctx :
  0 < count (head s) -> 0 < blength (head s) < 2 ^ 63 ->
  match_blocks H source s ctx
  = reference_match H (S (length source)) (match_config s ctx) source [].
Proof.
  intros Hc Hb. unfold match_blocks.
  assert (Hbl : mc_blength (match_config s ctx) = Z.to_nat (blength (head s)))
    by (apply as_usize_nonneg; lia).
  destruct (decide (source = [])) as [->|Hne].
  { rewrite reference_small; [done|]. simpl length. lia. }
  rewrite bool_decide_eq_false_2 by done.
  destruct (Z.leb_spec (count (head s)) 0), (Z.leb_spec (blength (head s)) 0); try lia. cbn [orb].
  destruct (Nat.ltb_spec (length source) (mc_blength (match_config s ctx))) as [Hs|Hs].
  { rewrite reference_small by done. by destruct source. }
  pose proof (match_loop_reference H (S (length source)) (match_config s ctx) source 0 0
    (rolling_compute (RollingChecksum_new (char_offset ctx)) (take (mc_blength (match_config s ctx)) source))
    [] eq_refl ltac:(lia) ltac:(lia)) as Hr.
  unfold final_flush in Hr. destruct (match_loop _ _ _ _ _ _ _ _) as [ops ls].
  cbn [fst snd] in Hr. rewrite Hr; [by rewrite sub_empty| |lia].
  intros _. by rewrite sub_drop, drop_0.
Qed.

(** ** Properties *)

(** C7. The optimised matcher is the reference matcher: hash table, rolling
    window and bookkeeping together produce, operation for operation, what one
    gets by searching all signatures in order at every position and recomputing
    both checksums of the window from scratch. No assumption on the hashes. *)
Theorem match_blocks_is_reference H source s ctx :
  0 < count (head s) -> 0 < blength (head s) < 2 ^ 63 ->
  match_blocks H source s ctx
  = reference_match H (S (length source)) (match_config s ctx) source [].
Proof. apply match_blocks_reference_eq. Qed.

Definition ex_ctx : ProtocolContext := mkProtocolContext 9 Md5 0 true (Some 3).
Definition ex_basis : list Z := [1; 2; 3; 4; 5; 6; 7].
Definition ex_source : list Z := [9; 8; 7; 6; 1; 2; 3; 4; 5; 6].
Definition ex_sums : SumStruct := signatures_of toy_hash ex_basis 3 11 ex_ctx.
Definition ex_ops : list DiffOp := [Literal [9; 8; 7; 6]; Copy (mkBasisRef 0 3); Copy (mkBasisRef 3 3)].

Lemma match_blocks_is_reference_witness :
  0 < count (head ex_sums) /\
  ex_ops = reference_match toy_hash 11 (match_config ex_sums ex_ctx) ex_source [].
Proof.
  assert (E : match_blocks toy_hash ex_source ex_sums ex_ctx = ex_ops) by (vm_compute; reflexivity).
  split; [vm_compute; reflexivity|]. rewrite <- E.
  apply (match_blocks_is_reference toy_hash ex_source ex_sums ex_ctx); vm_compute; split || idtac; reflexivity.
Defined.

(** C6. Delta transfer, end to end: sign any basis file (empty included), match
    any source against the signatures, apply the operations to the basis: the
    result is the source. Trusted is only that a window of the source with the
    same (truncated) strong checksum as a block of the basis is that block. *)
Theorem delta_roundtrip H (HL : HashLaws H) basis source ctx s :
  Z.of_nat (length basis) < 2 ^ 31 -> 0 < effective_blength basis ctx < 2 ^ 31 ->
  compute_signatures H basis ctx = Ok s ->
  collision_free H ctx (Z.to_nat (effective_blength basis ctx)) (s2length (head s)) basis source ->
  apply_diffops basis (match_blocks H source s ctx) = source.
Proof.
  intros Hn Hb Hs Hcf. destruct (decide (basis = [])) as [->|Hne].
  { injection Hs as <-. unfold match_blocks. destruct (decide (source = [])) as [->|Hsrc]; [done|].
    by rewrite bool_decide_eq_false_2. }
  destruct (compute_signatures_inv H HL basis ctx s Hne Hn Hb Hs) as (s2 & Hs2 & -> & Eh).
  rewrite Eh in Hcf. apply match_blocks_sound; [|simpl; lia].
  apply signatures_sound; done || lia.
Qed.

(** A decision procedure for [collision_free] on examples. *)
Definition collision_free_b H (ctx : ProtocolContext) (b : nat) (s2 : Z) (basis source : list Z) : bool :=
  forallb (fun o =>
    let w := sub source o (o + b) in
    forallb (fun block =>
      bool_decide (block = w)
      || negb (bool_decide (take (Z.to_nat s2) (checksum2 H block ctx)
                            = take (Z.to_nat s2) (checksum2 H w ctx)))) (chunks b basis))
    (seq 0 (S (length source - b))).

Lemma collision_free_dec H ctx b s2 basis source :
  collision_free_b H ctx b s2 basis source = true -> collision_free H ctx b s2 basis source.
Proof.
  unfold collision_free_b. rewrite forallb_forall. intros Hall w block (o & Ho & ->) Hin Heq.
  specialize (Hall o ltac:(apply in_seq; lia)). cbv beta zeta in Hall. rewrite forallb_forall in Hall.
  specialize (Hall block ltac:(by apply list_elem_of_In)).
  apply orb_true_iff in Hall as [Hb|Hb]; [by apply bool_decide_eq_true_1 in Hb|].
  apply negb_true_iff, bool_decide_eq_false_1 in Hb. done.
Qed.

Lemma delta_roundtrip_witness :
  compute_signatures toy_hash ex_basis ex_ctx = Ok ex_sums /\
  collision_free toy_hash ex_ctx 3 11 ex_basis ex_source /\
  apply_diffops ex_basis ex_ops = ex_source.
Proof.
  assert (E : match_blocks toy_hash ex_source ex_sums ex_ctx = ex_ops) by (vm_compute; reflexivity).
  assert (E1 : compute_signatures toy_hash ex_basis ex_ctx = Ok ex_sums) by (vm_compute; reflexivity).
  assert (E2 : collision_free toy_hash ex_ctx 3 11 ex_basis ex_source)
    by (apply collision_free_dec; vm_compute; reflexivity).
  split; [exact E1|]. split; [exact E2|]. rewrite <- E.
  apply (delta_roundtrip toy_hash toy_hash_laws ex_basis ex_source ex_ctx ex_sums).
  - vm_compute. reflexivity.
  - vm_compute. split; reflexivity.
  - exact E1.
  - exact E2.
Defined.

(** C8. The streaming matcher: with a chunk size of at least the block length
    it terminates within one call per byte and consumes the whole reader; its
    operations applied to the basis give the source; and the checksum it fed
    along the way finalises to the file checksum of the source. *)
Theorem streaming_roundtrip H (HL : HashLaws H) basis source ctx s chunk_size :
  basis <> [] -> Z.of_nat (length basis) < 2 ^ 31 -> 0 < effective_blength basis ctx < 2 ^ 31 ->
  compute_signatures H basis ctx = Ok s ->
  collision_free H ctx (Z.to_nat (effective_blength basis ctx)) (s2length (head s)) basis source ->
  effective_blength basis ctx <= Z.of_nat chunk_size ->
  exists ops ck,
    stream_all H (S (S (length source))) (StreamingMatcher_new s ctx chunk_size) source
      (IncrementalChecksum_new H (ctx_checksum_type ctx)) = Some (ops, [], ck) /\
    apply_diffops basis ops = source /\ inc_finalize H ck = file_checksum H source ctx.
Proof.
  intros Hne Hn Hb Hs Hcf Hch.
  destruct (compute_signatures_inv H HL basis ctx s Hne Hn Hb Hs) as (s2 & Hs2 & -> & Eh).
  rewrite Eh in Hcf.
  destruct (stream_all_new H basis source (signatures_of H basis (effective_blength basis ctx) s2 ctx) ctx
    chunk_size (IncrementalChecksum_new H (ctx_checksum_type ctx))) as (ops & ck & Hrun & Hops).
  - apply signatures_sound; done || lia.
  - cbn [match_config mc_blength signatures_of head blength]. rewrite as_usize_nonneg by lia. lia.
  - cbn [signatures_of head count].
    destruct (chunks_count (Z.to_nat (effective_blength basis ctx)) basis ltac:(lia)) as [H1 H2].
    rewrite swrap_id by lia. destruct basis; [done|]. simpl length in *. nia.
  - simpl. lia.
  - exists ops, ck. split_and!; [done|done|].
    destruct (stream_all_checksum H _ _ _ _ _ _ _ HL Hrun) as (read & Hread & ->).
    rewrite app_nil_r in Hread. subst read. by apply inc_one_shot.
Qed.

Lemma streaming_roundtrip_witness :
  ex_basis <> [] /\
  exists ops ck,
    stream_all toy_hash 12 (StreamingMatcher_new ex_sums ex_ctx 4) ex_source
      (IncrementalChecksum_new toy_hash Md5) = Some (ops, [], ck) /\
    apply_diffops ex_basis ops = ex_source /\
    inc_finalize toy_hash ck = file_checksum toy_hash ex_source ex_ctx.
Proof.
  split; [discriminate|].
  apply (streaming_roundtrip toy_hash toy_hash_laws ex_basis ex_source ex_ctx ex_sums 4).
  - discriminate.
  - vm_compute. reflexivity.
  - vm_compute. split; reflexivity.
  - vm_compute. reflexivity.
  - apply collision_free_dec. vm_compute. reflexivity.
  - vm_compute. discriminate.
Defined.

(** Streaming is not the batch algorithm. When the last window of a buffer
    does not match, the rolling state carried into the next call is one byte
    behind, and matches the batch matcher finds are missed; and when the chunk
    size is smaller than the block length, the first call reports completion
    with the rest of the file unread. Both on concrete signatures. *)
Theorem streaming_differs_from_batch :
  let run chunk_size :=
    match stream_all toy_hash 12 (StreamingMatcher_new ex_sums ex_ctx chunk_size) ex_source
            (IncrementalChecksum_new toy_hash Md5) with
    | Some (ops, rest, _) => Some (ops, rest)
    | None => None
    end in
  match_blocks toy_hash ex_source ex_sums ex_ctx = ex_ops /\
  run 4%nat = Some ([Literal [9]; Literal [8; 7; 6; 1]; Literal [2; 3; 4; 5; 6]], []) /\
  run 2%nat = Some ([Literal [9; 8]], [7; 6; 1; 2; 3; 4; 5; 6]).
Proof. cbv zeta. split_and!; vm_compute; reflexivity. Qed.
