(* ===== verification/Compress.v ===== *)
(** Compression backends ([ferrosync-protocol/src/compress.rs]).

    The crates [flate2], [zstd] and [lz4_flex] are parameters ([Backends]): a
    streaming call takes the input that is left and the room in the output
    buffer, and reports how much it consumed and what it produced. The loops
    around these calls, and the enum dispatch, are modelled. A loop takes fuel
    and is [Panic] without it; the lemmas say how much is enough.

    [Compression] is what the token codec needs of this file, [backends] the
    implementation, and [CompressionLaws] the promise it relies on. *)
From S2P Require Import Prelude Wire Types.

Inductive Status := StOk | StBufError | StStreamEnd.

(** A call that can fail yields [None]. [zc]/[zd] are [flate2::Compress] and
    [Decompress], used with a sync flush, [sc]/[sd] the raw zstd encoder and
    decoder. *)
Record Backends := mkBackends {
  zc : Type;
  zc_new : Z -> zc;
  zc_compress : zc -> list Z -> nat -> option (Status * nat * list Z * zc);
  zc_reset : zc -> zc;
  zd : Type;
  zd_new : zd;
  zd_decompress : zd -> list Z -> nat -> option (Status * nat * list Z * zd);
  zd_reset : zd -> zd;
  sc : Type;
  sc_new : Z -> option sc;
  sc_run : sc -> list Z -> nat -> option (nat * list Z * sc);
  sc_flush : sc -> nat -> option (nat * list Z * sc);
  sc_reinit : sc -> option sc;
  sd : Type;
  sd_new : option sd;
  sd_run : sd -> list Z -> nat -> option (nat * list Z * sd);
  sd_reinit : sd -> option sd;
  lz4_compress : list Z -> list Z;
  lz4_decompress : list Z -> option (list Z);
}.

Definition io {A} (m : option A) : result A :=
  match m with Some a => Ok a | None => Err (Io OtherIo) end.

(** One round of the zlib loops: [n] bytes of the output buffer are taken. *)
Definition grow (reserve out_len n : nat) : nat :=
  if (out_len - n <? reserve)%nat then (out_len * 2)%nat else out_len.

Section backends.
  Context (B : Backends) (fuel : nat).

(** ** zlib *)

(** The loop both zlib directions share: [step] is the library call, [reserve]
    the room below which the buffer is doubled. The test that ends the loop is
    on the input consumed before the call. *)
Fixpoint zlib_loop {X} (step : X -> list Z -> nat -> option (Status * nat * list Z * X)) (reserve : nat)
    (f : nat) (st : X) (data : list Z) (in_consumed : nat) (output : list Z) (out_len : nat)
    : result (list Z * X) :=
  match f with
  | O => Panic
  | S f' =>
      let out_len := grow reserve out_len (length output) in
      p ← io (step st (drop in_consumed data) (out_len - length output)%nat);
      let '(status, k, produced, st) := (p : Status * nat * list Z * X) in
      let output := output ++ produced in
      match status with
      | StStreamEnd => Ok (output, st)
      | StOk | StBufError =>
          if (length data <=? in_consumed)%nat then Ok (output, st)
          else zlib_loop step reserve f' st data (in_consumed + k)%nat output out_len
      end
  end.

Definition zlib_compress (c : zc B) (data : list Z) : result (list Z * zc B) :=
  zlib_loop (zc_compress B) 64 fuel c data 0 [] (length data + length data / 100 + 100)%nat.

Definition zlib_decompress (d : zd B) (compressed : list Z) (expected_len : Z) : result (list Z * zd B) :=
  zlib_loop (zd_decompress B) 256 fuel d compressed 0 [] (length compressed * 4 + 256)%nat.

(** ** zstd *)

Fixpoint zstd_feed (f : nat) (c : sc B) (data : list Z) (pos : nat) (output : list Z)
    : result (list Z * sc B) :=
  match f with
  | O => Panic
  | S f' =>
      p ← io (sc_run B c (drop pos data) (length data + 256)%nat);
      let '(k, out, c) := (p : nat * list Z * sc B) in
      let pos := (pos + k)%nat in
      if (length data <=? pos)%nat then Ok (output ++ out, c)
      else zstd_feed f' c data pos (output ++ out)
  end.

Fixpoint zstd_flush (f : nat) (c : sc B) (output : list Z) : result (list Z * sc B) :=
  match f with
  | O => Panic
  | S f' =>
      p ← io (sc_flush B c 256);
      let '(remaining, out, c) := (p : nat * list Z * sc B) in
      if (remaining =? 0)%nat then Ok (output ++ out, c) else zstd_flush f' c (output ++ out)
  end.

Definition zstd_compress (c : sc B) (data : list Z) : result (list Z * sc B) :=
  p ← zstd_feed fuel c data 0 [];
  zstd_flush fuel p.2 p.1.

Fixpoint zstd_decompress_loop (f : nat) (d : sd B) (compressed : list Z) (expected_len : Z) (pos : nat)
    (output : list Z) : result (list Z * sd B) :=
  match f with
  | O => Panic
  | S f' =>
      p ← io (sd_run B d (drop pos compressed) (Z.to_nat expected_len + 256)%nat);
      let '(k, out, d) := (p : nat * list Z * sd B) in
      let pos := (pos + k)%nat in
      if (length compressed <=? pos)%nat || (length out =? 0)%nat then Ok (output ++ out, d)
      else zstd_decompress_loop f' d compressed expected_len pos (output ++ out)
  end.

Definition zstd_decompress (d : sd B) (compressed : list Z) (expected_len : Z) : result (list Z * sd B) :=
  zstd_decompress_loop fuel d compressed expected_len 0 [].

(** ** Dispatch *)

Inductive CompressorType := CtZlib | CtZstd | CtLz4.
#[export] Instance CompressorType_eq_dec : EqDecision CompressorType.
Proof. solve_decision. Defined.

Inductive Compressor := CompZlib (c : zc B) | CompZstd (c : sc B) | CompLz4.
Inductive Decompressor := DecompZlib (d : zd B) | DecompZstd (d : sd B) | DecompLz4.

Definition Compressor_new (level : Z) : Compressor := CompZlib (zc_new B level).
Definition Compressor_new_zstd (level : Z) : result Compressor := c ← io (sc_new B level); mret (CompZstd c).
Definition Compressor_from_type (t : CompressType) (level : Z) : result Compressor :=
  match t with
  | Zlib | Zlibx | CpNone => Ok (Compressor_new level)
  | Zstd => Compressor_new_zstd (as_i32 level)
  | Lz4 => Ok CompLz4
  end.

Definition compressor_type (c : Compressor) : CompressorType :=
  match c with CompZlib _ => CtZlib | CompZstd _ => CtZstd | CompLz4 => CtLz4 end.

Definition compressor_compress (c : Compressor) (data : list Z) : result (list Z * Compressor) :=
  match c with
  | CompZlib z => p ← zlib_compress z data; mret (p.1, CompZlib p.2)
  | CompZstd z => p ← zstd_compress z data; mret (p.1, CompZstd p.2)
  | CompLz4 => mret (lz4_compress B data, CompLz4)
  end.

Definition compressor_reset (c : Compressor) : result Compressor :=
  match c with
  | CompZlib z => Ok (CompZlib (zc_reset B z))
  | CompZstd z => c ← io (sc_reinit B z); mret (CompZstd c)
  | CompLz4 => Ok CompLz4
  end.

Definition Decompressor_new : Decompressor := DecompZlib (zd_new B).
Definition Decompressor_new_zstd : result Decompressor := d ← io (sd_new B); mret (DecompZstd d).
Definition Decompressor_from_type (t : CompressType) : result Decompressor :=
  match t with
  | Zlib | Zlibx | CpNone => Ok Decompressor_new
  | Zstd => Decompressor_new_zstd
  | Lz4 => Ok DecompLz4
  end.

Definition decompressor_type (d : Decompressor) : CompressorType :=
  match d with DecompZlib _ => CtZlib | DecompZstd _ => CtZstd | DecompLz4 => CtLz4 end.

Definition decompressor_decompress (d : Decompressor) (compressed : list Z) (expected_len : Z)
    : result (list Z * Decompressor) :=
  match d with
  | DecompZlib z => p ← zlib_decompress z compressed expected_len; mret (p.1, DecompZlib p.2)
  | DecompZstd z => p ← zstd_decompress z compressed expected_len; mret (p.1, DecompZstd p.2)
  | DecompLz4 => out ← io (lz4_decompress B compressed); mret (out, DecompLz4)
  end.

Definition decompressor_reset (d : Decompressor) : result Decompressor :=
  match d with
  | DecompZlib z => Ok (DecompZlib (zd_reset B z))
  | DecompZstd z => d ← io (sd_reinit B z); mret (DecompZstd d)
  | DecompLz4 => Ok DecompLz4
  end.

End backends.
Arguments CompZlib {B} c.
Arguments CompZstd {B} c.
Arguments CompLz4 {B}.
Arguments DecompZlib {B} d.
Arguments DecompZstd {B} d.
Arguments DecompLz4 {B}.

(** ** The interface to the token codec *)

Record Compression := mkCompression {
  comp : Type;
  comp_type : comp -> CompressorType;
  comp_reset : comp -> result comp;
  comp_compress : comp -> list Z -> result (list Z * comp);
  decomp : Type;
  decomp_type : decomp -> CompressorType;
  decomp_reset : decomp -> result decomp;
  decomp_decompress : decomp -> list Z -> Z -> result (list Z * decomp);
}.

Definition backends (B : Backends) (fuel : nat) : Compression :=
  mkCompression (Compressor B) (compressor_type B) (compressor_reset B) (compressor_compress B fuel)
    (Decompressor B) (decompressor_type B) (decompressor_reset B) (decompressor_decompress B fuel).

(** [Z_SYNC_FLUSH] ends its output with an empty stored block. *)
Definition SYNC_FLUSH_TRAILER : list Z := [0x00; 0x00; 0xFF; 0xFF].

(** Largest payload of a compressed-data frame (14-bit length). *)
Definition MAX_DATA_COUNT : Z := 16383.

Definition one_frame (t : CompressorType) (out : list Z) : Prop :=
  match t with
  | CtZlib => exists body, out = body ++ SYNC_FLUSH_TRAILER /\ 0 < Z.of_nat (length body) <= MAX_DATA_COUNT
  | _ => 0 < Z.of_nat (length out) <= MAX_DATA_COUNT
  end.

(** A compressor and a decompressor in step: resetting both gives such a pair
    whatever their histories, and a chunk that [fits] is compressed to one
    frame that the decompressor turns back into the chunk. *)
Class CompressionLaws (C : Compression) := {
  in_sync : comp C -> decomp C -> Prop;
  fits : list Z -> Prop;
  law_type c d : in_sync c d -> comp_type C c = decomp_type C d;
  law_reset c d : comp_type C c = decomp_type C d ->
    exists c' d', comp_reset C c = Ok c' /\ decomp_reset C d = Ok d' /\ in_sync c' d' /\
      comp_type C c' = comp_type C c;
  law_chunk c d data : in_sync c d -> fits data -> data <> [] ->
    exists out c' d', comp_compress C c data = Ok (out, c') /\ one_frame (comp_type C c) out /\
      decomp_decompress C d out DATA_CHUNK_SIZE = Ok (data, d') /\ in_sync c' d' /\
      comp_type C c' = comp_type C c;
}.

(** ** Streaming calls

    What [deflate], [inflate] and their zstd counterparts document: a call
    consumes input and produces output, until the input is used up or the
    output buffer is full. [enc st data] is everything the state will emit for
    [data] and the flush, [aft st data] the state that leaves. *)
Definition stream_law {X} (step : X -> list Z -> nat -> option (Status * nat * list Z * X))
    (enc : X -> list Z -> list Z) (aft : X -> list Z -> X) : Prop :=
  forall st data room, (0 < room)%nat ->
  exists status k o st', step st data room = Some (status, k, o, st') /\
    status <> StStreamEnd /\ (k <= length data)%nat /\ (length o <= room)%nat /\
    enc st data = o ++ enc st' (drop k data) /\ aft st data = aft st' (drop k data) /\
    ((length o < room)%nat -> k = length data /\ enc st' [] = [] /\ aft st' [] = st').

(** A decoder that buffers: it consumes all it is given and hands the output
    out as room allows. *)
Definition buffering_law {X} (step : X -> list Z -> nat -> option (Status * nat * list Z * X))
    (enc : X -> list Z -> list Z) : Prop :=
  forall st data room, exists st', step st data room = Some (StOk, length data, take room (enc st data), st') /\
    enc st' [] = drop room (enc st data).

Section loops.
  Context {X : Type} (step : X -> list Z -> nat -> option (Status * nat * list Z * X)).
  Context (enc : X -> list Z -> list Z) (aft : X -> list Z -> X).

Lemma grow_ge reserve out_len n : (out_len <= grow reserve out_len n)%nat.
Proof. unfold grow. destruct (_ <? _)%nat; lia. Qed.

Lemma zlib_loop_complete (reserve f out_len : nat) (st : X) (data : list Z) :
  stream_law step enc aft -> (2 <= f)%nat -> (length (enc st data) < out_len)%nat ->
  zlib_loop step reserve f st data 0 [] out_len = Ok (enc st data, aft st data).
Proof.
  intros law Hf Hlen. destruct f as [|[|f]]; [lia..|]. cbn [zlib_loop length].
  pose proof (grow_ge reserve out_len 0) as Hg.
  destruct (law st data (grow reserve out_len 0 - 0)%nat ltac:(lia)) as (s & k & o & st' & E & Hs & Hk & Ho & He & Ha & Hd).
  rewrite drop_0, E. cbn [io]. unfold mbind, res_bind. cbn [app].
  assert (Hol : (length o < out_len)%nat) by (rewrite He, length_app in Hlen; lia).
  destruct (Hd ltac:(lia)) as (-> & He' & Ha'). rewrite drop_all in He, Ha. rewrite He', app_nil_r in He.
  rewrite Ha' in Ha. rewrite He, Ha.
  assert (Hfin : forall g, zlib_loop step reserve (S g) st' data (length data) o (grow reserve out_len 0) = Ok (o, st')).
  { intros g. cbn [zlib_loop]. rewrite drop_all.
    pose proof (grow_ge reserve (grow reserve out_len 0) (length o)) as Hg2.
    destruct (law st' [] (grow reserve (grow reserve out_len 0) (length o) - length o)%nat ltac:(lia))
      as (s2 & k2 & o2 & st2 & E2 & Hs2 & Hk2 & Ho2 & He2 & Ha2 & Hd2).
    rewrite E2. cbn [io]. unfold mbind, res_bind.
    rewrite He' in He2. symmetry in He2. apply app_eq_nil in He2 as [-> _].
    destruct (Hd2 ltac:(cbn [length]; lia)) as (-> & He3 & Ha3). cbn in Ha2. rewrite Ha', Ha3 in Ha2. subst st2.
    rewrite Nat.leb_refl, app_nil_r. by destruct s2. }
  destruct s; [| |done]; (destruct (length data <=? 0)%nat; [done|]; rewrite Nat.add_0_l; apply Hfin).
Qed.

Lemma zlib_loop_buffering (reserve f out_len : nat) (st : X) (data : list Z) :
  buffering_law step enc -> (2 <= f)%nat -> data <> [] -> (reserve <= out_len)%nat -> (0 < reserve)%nat ->
  exists st', zlib_loop step reserve f st data 0 [] out_len = Ok (take (out_len * 2) (enc st data), st').
Proof.
  intros law Hf Hd Hr Hr0. destruct f as [|[|f]]; [lia..|]. cbn [zlib_loop length].
  assert (Hg : grow reserve out_len 0 = out_len).
  { unfold grow. destruct (Nat.ltb_spec (out_len - 0) reserve); lia. }
  rewrite Hg, Nat.sub_0_r, drop_0.
  destruct (law st data out_len) as (st' & -> & He). cbn [io]. unfold mbind, res_bind. cbn [app].
  destruct (Nat.leb_spec (length data) 0); [destruct data; simpl in *; [done|lia]|].
  rewrite drop_ge by lia. set (e := enc st data) in *. unfold grow. rewrite length_take.
  destruct (Nat.ltb_spec (out_len - out_len `min` length e) reserve).
  - destruct (law st' [] (out_len * 2 - out_len `min` length e)%nat) as (st2 & -> & _). cbn [io].
    unfold res_bind. cbn [length]. rewrite Nat.leb_refl. exists st2. f_equal. f_equal.
    rewrite He. destruct (Nat.le_ge_cases (length e) out_len).
    + rewrite (drop_ge e) by lia. rewrite !(take_ge e) by lia. by rewrite take_nil, app_nil_r.
    + rewrite Nat.min_l by lia. rewrite take_take_drop. f_equal. lia.
  - destruct (law st' [] (out_len - out_len `min` length e)%nat) as (st2 & -> & _). cbn [io].
    unfold res_bind. rewrite Nat.leb_refl. exists st2. f_equal. f_equal.
    rewrite He, (drop_ge e), take_nil, app_nil_r, !take_ge by lia. done.
Qed.

End loops.

(** ** zstd *)

(** What the streaming zstd encoder documents: a call consumes input or
    produces output, and [flush] reports whether anything is left. *)
Record zstd_law (B : Backends) (enc : sc B -> list Z -> list Z) (aft : sc B -> list Z -> sc B) : Prop := {
  sc_run_law c data room : (0 < room)%nat ->
    exists k o c', sc_run B c data room = Some (k, o, c') /\ (k <= length data)%nat /\
      enc c data = o ++ enc c' (drop k data) /\ aft c data = aft c' (drop k data) /\
      (data <> [] -> (0 < k + length o)%nat);
  sc_flush_law c room : (0 < room)%nat ->
    exists rem o c', sc_flush B c room = Some (rem, o, c') /\
      enc c [] = o ++ enc c' [] /\ aft c [] = aft c' [] /\
      (rem = 0%nat -> enc c' [] = [] /\ aft c' [] = c') /\ (rem <> 0%nat -> o <> []);
}.

Section zstd.
  Context (B : Backends) (enc : sc B -> list Z -> list Z) (aft : sc B -> list Z -> sc B).
  Context (law : zstd_law B enc aft).

Lemma zstd_feed_complete f c data pos output :
  (pos <= length data)%nat ->
  (length (drop pos data) + length (enc c (drop pos data)) < f)%nat ->
  exists out c', zstd_feed B f c data pos output = Ok (output ++ out, c') /\
    enc c (drop pos data) = out ++ enc c' [] /\ aft c (drop pos data) = aft c' [].
Proof.
  revert c pos output. induction f as [|f IH]; intros c pos output Hp Hf; [lia|]. cbn [zstd_feed].
  destruct (sc_run_law _ _ _ law c (drop pos data) (length data + 256)%nat ltac:(lia))
    as (k & o & c' & -> & Hk & He & Ha & Hprog).
  cbn [io]. unfold mbind, res_bind. rewrite length_drop in Hk, Hf. rewrite drop_drop in He, Ha.
  destruct (Nat.leb_spec (length data) (pos + k)).
  - exists o, c'. rewrite (drop_ge data (pos + k)%nat) in He, Ha by lia. done.
  - assert (Hne : drop pos data <> []) by (intros E; apply (f_equal length) in E; rewrite length_drop in E; simpl in E; lia).
    specialize (Hprog Hne).
    destruct (IH c' (pos + k)%nat (output ++ o)) as (out & c2 & -> & He2 & Ha2); [lia| |].
    { rewrite length_drop. rewrite He, length_app in Hf. lia. }
    exists (o ++ out), c2. rewrite <- !app_assoc. split_and!; [done|by rewrite He, He2|by rewrite Ha].
Qed.

Lemma zstd_flush_complete f c output :
  (length (enc c []) < f)%nat -> zstd_flush B f c output = Ok (output ++ enc c [], aft c []).
Proof.
  revert c output. induction f as [|f IH]; intros c output Hf; [lia|]. cbn [zstd_flush].
  destruct (sc_flush_law _ _ _ law c 256 ltac:(lia)) as (rem & o & c' & -> & He & Ha & H0 & Hn).
  cbn [io]. unfold mbind, res_bind. destruct (Nat.eqb_spec rem 0) as [->|Hr].
  - destruct (H0 eq_refl) as [He' Ha']. rewrite He, Ha, He', Ha', app_nil_r. done.
  - specialize (Hn Hr). rewrite IH.
    + rewrite He, Ha, <- app_assoc. done.
    + rewrite He, length_app in Hf. destruct o; [done|]. simpl in Hf. lia.
Qed.

Lemma zstd_compress_eq fuel c data :
  (length data + length (enc c data) < fuel)%nat ->
  zstd_compress B fuel c data = Ok (enc c data, aft c data).
Proof.
  intros Hf. unfold zstd_compress.
  destruct (zstd_feed_complete fuel c data 0 [] ltac:(lia)) as (out & c' & -> & He & Ha); [by rewrite drop_0|].
  rewrite drop_0 in He, Ha. unfold mbind, res_bind. cbn [fst snd app].
  rewrite zstd_flush_complete; [by rewrite He, Ha|]. rewrite He, length_app in Hf. lia.
Qed.

End zstd.

(** The zstd decoder is called once when the output fits the buffer. *)
Definition zstd_decode_law (B : Backends) (dec : sd B -> list Z -> list Z) (aft : sd B -> list Z -> sd B) : Prop :=
  forall d data room, (0 < room)%nat ->
  exists k o d', sd_run B d data room = Some (k, o, d') /\ (k <= length data)%nat /\ (length o <= room)%nat /\
    dec d data = o ++ dec d' (drop k data) /\ aft d data = aft d' (drop k data) /\
    ((length o < room)%nat -> k = length data /\ dec d' [] = [] /\ aft d' [] = d').

Lemma zstd_decompress_complete B dec aft fuel d data expected_len :
  zstd_decode_law B dec aft -> (1 <= fuel)%nat ->
  (length (dec d data) < Z.to_nat expected_len + 256)%nat ->
  zstd_decompress B fuel d data expected_len = Ok (dec d data, aft d data).
Proof.
  intros law Hf Hlen. unfold zstd_decompress. destruct fuel as [|f]; [lia|]. cbn [zstd_decompress_loop].
  rewrite drop_0. destruct (law d data (Z.to_nat expected_len + 256)%nat ltac:(lia))
    as (k & o & d' & -> & Hk & Ho & He & Ha & Hd).
  rewrite He, length_app in Hlen. destruct (Hd ltac:(lia)) as (-> & He' & Ha').
  cbn [io]. unfold mbind, res_bind. rewrite Nat.add_0_l, Nat.leb_refl. cbn [orb app].
  rewrite He, Ha, drop_all, He', Ha', app_nil_r. done.
Qed.

(** ** The backends implement the interface *)

(** What ferrosync relies on of the three crates. The relations [zsync] and
    [ssync] say that a decoder has seen what its encoder emitted. *)
Class BackendLaws (B : Backends) := {
  deflate : zc B -> list Z -> list Z;
  deflated : zc B -> list Z -> zc B;
  inflate : zd B -> list Z -> list Z;
  inflated : zd B -> list Z -> zd B;
  zenc : sc B -> list Z -> list Z;
  zaft : sc B -> list Z -> sc B;
  zdec : sd B -> list Z -> list Z;
  zdaft : sd B -> list Z -> sd B;
  deflate_law : stream_law (zc_compress B) deflate deflated;
  inflate_law : stream_law (zd_decompress B) inflate inflated;
  zstd_encode_law : zstd_law B zenc zaft;
  zstd_decoder_law : zstd_decode_law B zdec zdaft;
  zsync : zc B -> zd B -> Prop;
  zsync_reset c d : zsync (zc_reset B c) (zd_reset B d);
  zsync_chunk c d data : zsync c d ->
    inflate d (deflate c data) = data /\ zsync (deflated c data) (inflated d (deflate c data));
  deflate_trailer c data : data <> [] ->
    exists body, deflate c data = body ++ SYNC_FLUSH_TRAILER /\ body <> [];
  ssync : sc B -> sd B -> Prop;
  ssync_reinit c d : exists c' d', sc_reinit B c = Some c' /\ sd_reinit B d = Some d' /\ ssync c' d';
  ssync_chunk c d data : ssync c d ->
    zdec d (zenc c data) = data /\ ssync (zaft c data) (zdaft d (zenc c data));
  zenc_nonempty c data : data <> [] -> zenc c data <> [];
  lz4_inverse data : lz4_decompress B (lz4_compress B data) = Some data;
  lz4_nonempty data : lz4_compress B data <> [];
}.

Section implementation.
  Context (B : Backends) {L : BackendLaws B} (fuel : nat).

(** A chunk the encoders do not expand past a frame or past their buffers, and
    that the decoder's buffer holds. *)
Definition chunk_fits (data : list Z) : Prop :=
  Z.of_nat (length data) <= DATA_CHUNK_SIZE /\ (2 <= fuel)%nat /\
  (forall c d, zsync c d ->
             Z.of_nat (length (deflate c data)) <= MAX_DATA_COUNT + 4 /\
             (length (deflate c data) < length data + length data / 100 + 100)%nat /\
             (length data < length (deflate c data) * 4 + 256)%nat) /\
  (forall c d, ssync c d ->
             Z.of_nat (length (zenc c data)) <= MAX_DATA_COUNT /\
             (length data + length (zenc c data) < fuel)%nat) /\
  Z.of_nat (length (lz4_compress B data)) <= MAX_DATA_COUNT.

Definition backend_sync (c : Compressor B) (d : Decompressor B) : Prop :=
  match c, d with
  | CompZlib c, DecompZlib d => zsync c d
  | CompZstd c, DecompZstd d => ssync c d
  | CompLz4, DecompLz4 => True
  | _, _ => False
  end.

Lemma zlib_compress_eq c data :
  (2 <= fuel)%nat -> (length (deflate c data) < length data + length data / 100 + 100)%nat ->
  zlib_compress B fuel c data = Ok (deflate c data, deflated c data).
Proof. intros. apply zlib_loop_complete; [apply deflate_law|done|done]. Qed.

Lemma zlib_decompress_eq d data expected_len :
  (2 <= fuel)%nat -> (length (inflate d data) < length data * 4 + 256)%nat ->
  zlib_decompress B fuel d data expected_len = Ok (inflate d data, inflated d data).
Proof. intros. apply zlib_loop_complete; [apply inflate_law|done|done]. Qed.

Lemma length_pos {A} (l : list A) : l <> [] -> 0 < Z.of_nat (length l).
Proof. destruct l; [done|]. cbn [length]. lia. Qed.

Lemma backends_reset c d : compressor_type B c = decompressor_type B d ->
  exists c' d', compressor_reset B c = Ok c' /\ decompressor_reset B d = Ok d' /\ backend_sync c' d' /\
    compressor_type B c' = compressor_type B c.
Proof.
  destruct c as [c|c|], d as [d|d|]; intros E; try discriminate E.
  - exists (CompZlib (zc_reset B c)), (DecompZlib (zd_reset B d)). split_and!; [done..| |done].
    apply zsync_reset.
  - destruct (ssync_reinit c d) as (c' & d' & Ec & Ed & Hs). exists (CompZstd c'), (DecompZstd d').
    split_and!; [| |done..].
    + cbn [compressor_reset]. by rewrite Ec.
    + cbn [decompressor_reset]. by rewrite Ed.
  - exists CompLz4, DecompLz4. done.
Qed.

Lemma backends_chunk c d data : backend_sync c d -> chunk_fits data -> data <> [] ->
  exists out c' d', compressor_compress B fuel c data = Ok (out, c') /\ one_frame (compressor_type B c) out /\
    decompressor_decompress B fuel d out DATA_CHUNK_SIZE = Ok (data, d') /\ backend_sync c' d' /\
    compressor_type B c' = compressor_type B c.
Proof.
  intros Hs (Hl & Hf & Hz & Hd & Hlz) Hne.
  destruct c as [c|c|], d as [d|d|]; try done; cbn [backend_sync compressor_type one_frame] in *.
  - destruct (Hz c d Hs) as (H1 & H2 & H3). destruct (zsync_chunk c d data Hs) as [E Hs'].
    exists (deflate c data), (CompZlib (deflated c data)), (DecompZlib (inflated d (deflate c data))).
    cbn [compressor_compress decompressor_decompress]. rewrite zlib_compress_eq by done.
    rewrite zlib_decompress_eq by (rewrite ?E; done). rewrite E. split_and!; try done.
    destruct (deflate_trailer c data Hne) as (body & Eb & Hb). exists body. split; [done|].
    rewrite Eb, length_app in H1. apply length_pos in Hb. cbn [length SYNC_FLUSH_TRAILER] in H1. lia.
  - destruct (Hd c d Hs) as (H1 & H2). destruct (ssync_chunk c d data Hs) as [E Hs'].
    exists (zenc c data), (CompZstd (zaft c data)), (DecompZstd (zdaft d (zenc c data))).
    cbn [compressor_compress decompressor_decompress].
    rewrite (zstd_compress_eq B zenc zaft) by (done || apply zstd_encode_law).
    rewrite (zstd_decompress_complete B zdec zdaft) by
      (apply zstd_decoder_law || lia || (rewrite E; unfold DATA_CHUNK_SIZE in *; lia)).
    rewrite E. split_and!; try done. by apply length_pos, zenc_nonempty.
  - exists (lz4_compress B data), CompLz4, DecompLz4. cbn [compressor_compress decompressor_decompress].
    rewrite lz4_inverse. split_and!; try done. apply length_pos, lz4_nonempty.
Qed.

Lemma backends_type c d : backend_sync c d -> compressor_type B c = decompressor_type B d.
Proof. destruct c, d; done. Qed.

#[export] Instance backends_laws : CompressionLaws (backends B fuel) := {
  in_sync := backend_sync : comp (backends B fuel) -> decomp (backends B fuel) -> Prop;
  fits := chunk_fits;
  law_type := backends_type;
  law_reset := backends_reset;
  law_chunk := backends_chunk;
}.

End implementation.

(** ** A concrete backend

    Coders without compression, to instantiate the laws: the zlib pair stores
    the data followed by the flush marker, the others the data alone. A state
    is the output not handed out yet. *)

Definition stored_step (f : list Z -> list Z) (pending data : list Z) (room : nat)
    : option (Status * nat * list Z * list Z) :=
  let all := pending ++ f data in Some (StOk, length data, take room all, drop room all).

Definition stored_deflate (data : list Z) : list Z :=
  match data with [] => [] | _ => data ++ SYNC_FLUSH_TRAILER end.
Definition stored_inflate (data : list Z) : list Z := take (length data - 4) data.

Definition stored_run (pending data : list Z) (room : nat) : option (nat * list Z * list Z) :=
  let all := pending ++ data in Some (length data, take room all, drop room all).
Definition stored_flush (pending : list Z) (room : nat) : option (nat * list Z * list Z) :=
  Some (length (drop room pending), take room pending, drop room pending).

Definition stored_backends : Backends :=
  mkBackends (list Z) (fun _ => []) (stored_step stored_deflate) (fun _ => [])
    (list Z) [] (stored_step stored_inflate) (fun _ => [])
    (list Z) (fun _ => Some []) stored_run stored_flush (fun _ => Some [])
    (list Z) (Some []) stored_run (fun _ => Some [])
    (fun data => 0 :: data) (fun data => Some (drop 1 data)).

Lemma stored_step_law f : f [] = [] -> stream_law (stored_step f) (fun st data => st ++ f data) (fun _ _ => []).
Proof.
  intros Hf st data room Hr. do 4 eexists. split; [reflexivity|]. split_and!; try done.
  - rewrite length_take. lia.
  - rewrite drop_all, Hf, app_nil_r. by rewrite take_drop.
  - intros Hlt. rewrite length_take in Hlt. rewrite drop_ge by lia. rewrite Hf. done.
Qed.

Lemma stored_step_buffering f : f [] = [] -> buffering_law (stored_step f) (fun st data => st ++ f data).
Proof. intros Hf st data room. eexists. split; [reflexivity|]. cbn beta. by rewrite Hf, app_nil_r. Qed.

Lemma stored_run_law st data room : (0 < room)%nat ->
  exists k o st', stored_run st data room = Some (k, o, st') /\ (k <= length data)%nat /\ (length o <= room)%nat /\
    st ++ data = o ++ st' ++ drop k data /\ ((length o < room)%nat -> k = length data /\ st' = []).
Proof.
  intros Hr. do 3 eexists. split; [reflexivity|]. rewrite length_take, drop_all, app_nil_r, take_drop.
  split_and!; [done|lia|done|]. intros Hlt. split; [done|]. apply drop_ge. lia.
Qed.

Lemma stored_encode_law : zstd_law stored_backends (fun st data => st ++ data) (fun _ _ => []).
Proof.
  split; cbn [sc stored_backends sc_run sc_flush].
  - intros c data room Hr. destruct (stored_run_law c data room Hr) as (k & o & st' & E & Hk & Ho & He & Hd).
    exists k, o, st'. split_and!; try done. intros Hne. assert (k = length data) as -> by (inversion E; done).
    destruct data; [done|]. cbn [length]. lia.
  - intros c room Hr. do 3 eexists. split; [reflexivity|]. rewrite !app_nil_r, take_drop.
    split_and!; try done.
    + intros E. by apply nil_length_inv in E as ->.
    + intros Hn Ht. apply Hn. rewrite length_drop. apply (f_equal length) in Ht. rewrite length_take in Ht.
      cbn [length] in Ht. lia.
Qed.

Lemma stored_decode_law : zstd_decode_law stored_backends (fun st data => st ++ data) (fun _ _ => []).
Proof.
  intros d data room Hr. destruct (stored_run_law d data room Hr) as (k & o & st' & E & Hk & Ho & He & Hd).
  exists k, o, st'. split_and!; try done. intros Hlt. destruct (Hd Hlt) as [-> ->]. done.
Qed.

Lemma stored_deflate_inflate data : stored_inflate (stored_deflate data) = data.
Proof.
  destruct data as [|b data]; [done|]. unfold stored_inflate, stored_deflate. rewrite length_app.
  cbn [length SYNC_FLUSH_TRAILER]. rewrite Nat.add_sub. exact (take_app_length (b :: data) _).
Qed.

#[export, refine] Instance stored_laws : BackendLaws stored_backends := {
  deflate := fun st data => st ++ stored_deflate data : list Z;
  deflated := fun _ _ => [] : list Z;
  inflate := fun st data => st ++ stored_inflate data : list Z;
  inflated := fun _ _ => [] : list Z;
  zenc := fun st data => st ++ data : list Z;
  zaft := fun _ _ => [] : list Z;
  zdec := fun st data => st ++ data : list Z;
  zdaft := fun _ _ => [] : list Z;
  deflate_law := stored_step_law stored_deflate eq_refl;
  inflate_law := stored_step_law stored_inflate eq_refl;
  zstd_encode_law := stored_encode_law;
  zstd_decoder_law := stored_decode_law;
  zsync := fun c d => c = ([] : list Z) /\ d = ([] : list Z);
  ssync := fun c d => c = ([] : list Z) /\ d = ([] : list Z);
}.
Proof.
  - done.
  - intros c d data [-> ->]. cbn [app]. by rewrite stored_deflate_inflate.
  - intros c [|b data] Hd; [done|]. exists (c ++ b :: data). unfold stored_deflate. rewrite app_assoc.
    split; [done|]. by destruct c.
  - intros c d. by exists [], [].
  - intros c d data [-> ->]. done.
  - intros c data Hd E. apply app_eq_nil in E as [_ ->]. done.
  - done.
  - done.
Defined.

(** ** Properties *)

(** Chunk after chunk through a compressor and a decompressor. *)
Fixpoint run_chunks (C : Compression) (c : comp C) (d : decomp C) (cs : list (list Z)) : result (list (list Z)) :=
  match cs with
  | [] => mret []
  | chunk :: cs' =>
      p ← comp_compress C c chunk;
      q ← decomp_decompress C d p.1 DATA_CHUNK_SIZE;
      rest ← run_chunks C p.2 q.2 cs';
      mret (q.1 :: rest)
  end.



(** Compression round trip across a file: after both sides are reset, any
    run of non-empty chunks that fit comes back chunk by chunk, for all three
    backends, whatever the two sides did before. *)
Theorem chunks_roundtrip (B : Backends) `{BackendLaws B} (fuel : nat)
    (c : Compressor B) (d : Decompressor B) (cs : list (list Z)) :
  compressor_type B c = decompressor_type B d ->
  Forall (fun chunk => chunk <> [] /\ chunk_fits B fuel chunk) cs ->
  exists c' d', compressor_reset B c = Ok c' /\ decompressor_reset B d = Ok d' /\
    run_chunks (backends B fuel) c' d' cs = Ok cs.
Proof.
  intros Ht Hcs. destruct (backends_reset B c d Ht) as (c' & d' & Ec & Ed & Hs & _).
  exists c', d'. split_and!; [done..|]. clear Ec Ed Ht c d. revert c' d' Hs.
  induction Hcs as [|chunk cs [Hne Hfit] Hcs IH]; intros c d Hs; [done|]. cbn [run_chunks].
  destruct (backends_chunk B fuel c d chunk Hs Hfit Hne) as (out & c' & d' & Ec & _ & Ed & Hs' & _).
  cbn [backends comp_compress decomp_decompress]. rewrite Ec. unfold mbind, res_bind. cbn [fst snd].
  rewrite Ed. cbn [fst snd]. by rewrite (IH c' d' Hs').
Qed.

Lemma chunks_roundtrip_witness :
  exists c' d', compressor_reset stored_backends (@CompZlib stored_backends [1]) = Ok c' /\
    decompressor_reset stored_backends (@DecompZlib stored_backends [2]) = Ok d' /\
    run_chunks (backends stored_backends 9) c' d' [[7; 8]; [9]] = Ok [[7; 8]; [9]].
Proof.
  apply (chunks_roundtrip stored_backends 9 (@CompZlib stored_backends [1]) (@DecompZlib stored_backends [2]) [[7; 8]; [9]]); [reflexivity|].
  assert (Hfit : forall chunk, chunk <> [] -> (length chunk <= 2)%nat -> chunk_fits stored_backends 9 chunk).
  { intros [|a [|b [|]]] Hne Hl; try done; cbn in Hl; try lia;
      (split_and!; [vm_compute; congruence|lia| | |vm_compute; congruence]);
      intros c d [-> ->]; vm_compute; (split_and!; congruence || lia). }
  apply Forall_forall. intros x Hx. rewrite !elem_of_cons in Hx.
  destruct Hx as [-> | [-> | Hx]]; [| |by apply not_elem_of_nil in Hx];
    (split; [done|]); apply Hfit; done || (cbn; lia).
Defined.

(** A decoder that expands every byte 600 times and buffers its output. *)
Definition expanding_backends : Backends :=
  mkBackends (list Z) (fun _ => []) (stored_step stored_deflate) (fun _ => [])
    (list Z) [] (stored_step (fun data => concat (map (replicate 600) data))) (fun _ => [])
    (list Z) (fun _ => Some []) stored_run stored_flush (fun _ => Some [])
    (list Z) (Some []) stored_run (fun _ => Some [])
    (fun data => 0 :: data) (fun data => Some (drop 1 data)).

(** The bound is needed: with an inflater that takes all its input at once
    and hands the output out as room allows, [zlib_decompress] makes one more
    call after the input is gone and stops, so that it returns at most twice
    its initial buffer, [2 * (4 * n + 256)] bytes for [n] compressed ones. The
    rest stays in the inflater. *)
Theorem zlib_decompress_truncates (B : Backends) (dec : zd B -> list Z -> list Z) (fuel : nat) d
    (bytes : list Z) (expected_len : Z) :
  buffering_law (zd_decompress B) dec -> (2 <= fuel)%nat -> bytes <> [] ->
  exists d', zlib_decompress B fuel d bytes expected_len =
    Ok (take (2 * (4 * length bytes + 256)) (dec d bytes), d').
Proof.
  intros law Hf Hb. destruct (zlib_loop_buffering (zd_decompress B) dec 256 fuel (length bytes * 4 + 256)%nat d bytes)
    as (d' & E); [done|done|done|lia|lia|].
  exists d'. unfold zlib_decompress. rewrite E. do 3 f_equal. lia.
Qed.

Lemma zlib_decompress_truncates_witness :
  exists d', zlib_decompress expanding_backends 3 [] [7] 32768 = Ok (replicate 520 7, d').
Proof.
  destruct (zlib_decompress_truncates expanding_backends
    (fun st data => st ++ concat (map (replicate 600) data)) 3 [] [7] 32768) as (d' & E).
  - apply stored_step_buffering. reflexivity.
  - lia.
  - congruence.
  - exists d'. rewrite E. vm_compute. reflexivity.
Defined.
