(* ===== verification/Token.v ===== *)
(** Delta tokens on the wire ([ferrosync-delta/src/token.rs]): the plain and
    the compressed encodings.

    The codec is a client of the interface [Compression] of [Compress.v], which
    the dispatch of [compress.rs] implements. [TokenTransport] is the contract
    between a token writer and a token reader, and both encodings implement
    it; what is said of a file's token stream is proved against the contract. *)
From S2P Require Import Prelude Wire Types Varint Matcher Compress.

Definition END_FLAG : Z := 0x00.
Definition TOKEN_LONG : Z := 0x20.
Definition TOKENRUN_LONG : Z := 0x21.
Definition DEFLATED_DATA : Z := 0x40.
Definition TOKEN_REL : Z := 0x80.
Definition TOKENRUN_REL : Z := 0xC0.

Inductive Token :=
  | TData (data : list Z)
  | TBlockMatch (index : Z)
  | TEndOfFile.

(** ** Plain tokens *)

Definition send_data (data : list Z) : wr unit :=
  wr_each (fun chunk =>
    _ ← write_int (as_i32 (Z.of_nat (length chunk)));
    write_all chunk) (chunks (Z.to_nat DATA_CHUNK_SIZE) data).

(** [checked_add(1)] and [checked_neg()] on an [i32]. *)
Definition send_block_match (block_index : Z) : wr unit :=
  let out_of_range := WireValueOutOfRange "block_index" block_index (2 ^ 31 - 1) in
  if 2 ^ 31 - 1 <? block_index + 1 then wr_err out_of_range
  else if block_index + 1 =? - 2 ^ 31 then wr_err out_of_range
  else write_int (- (block_index + 1)).

Definition send_eof : wr unit := write_int 0.

Definition recv_token : rd Token :=
  token ← read_int;
  if token =? 0 then mret TEndOfFile
  else if 0 <? token then
    if MAX_WIRE_ALLOC <? token then
      rd_err (WireValueOutOfRange "token_data_len" token MAX_WIRE_ALLOC)
    else buf ← read_exact token; mret (TData buf)
  else mret (TBlockMatch (as_i32 (- as_i32 (token + 1)))).

(** ** Trailers and frames *)

Definition maybe_strip_trailer (compressed : list Z) (ctype : CompressorType) : list Z :=
  let n := length compressed in
  if bool_decide (ctype = CtZlib) && (4 <=? n)%nat
     && bool_decide (drop (n - 4) compressed = SYNC_FLUSH_TRAILER)
  then take (n - 4) compressed else compressed.

Definition maybe_append_trailer (compressed : list Z) (dtype : CompressorType) : list Z :=
  if bool_decide (dtype = CtZlib) then compressed ++ SYNC_FLUSH_TRAILER else compressed.

(** One DEFLATED_DATA frame. *)
Definition write_frame (output : list Z) : wr unit :=
  let n := Z.of_nat (length output) in
  _ ← write_all [as_u8 (DEFLATED_DATA + as_u8 (n ≫ 8)); as_u8 (Z.land n 0xFF)];
  write_all output.

Definition write_frames (output : list Z) : wr unit :=
  if bool_decide (output = []) then mret tt
  else if MAX_DATA_COUNT <? Z.of_nat (length output) then
    wr_each write_frame (chunks (Z.to_nat MAX_DATA_COUNT) output)
  else write_frame output.

Section compressed.
  Context (C : Compression).

(** ** Compressed writer *)

Record CompressedTokenWriter := mkTokenWriter {
  last_token : Z;
  run_start : Z;
  last_run_end : Z;
  flush_pending : bool;
  compressor : comp C;
  trait_pending_data : list Z;
}.

Definition CompressedTokenWriter_new (c : comp C) : CompressedTokenWriter :=
  mkTokenWriter (-1) 0 0 false c [].

(** Setters for the fields the methods assign. *)
Definition set_run_start (s : Z) (t : CompressedTokenWriter) : CompressedTokenWriter :=
  mkTokenWriter (last_token t) s (last_run_end t) (flush_pending t) (compressor t) (trait_pending_data t).
Definition set_last_token (s : Z) (t : CompressedTokenWriter) : CompressedTokenWriter :=
  mkTokenWriter s (run_start t) (last_run_end t) (flush_pending t) (compressor t) (trait_pending_data t).
Definition set_last_run_end (s : Z) (t : CompressedTokenWriter) : CompressedTokenWriter :=
  mkTokenWriter (last_token t) (run_start t) s (flush_pending t) (compressor t) (trait_pending_data t).
Definition set_flush_pending (s : bool) (t : CompressedTokenWriter) : CompressedTokenWriter :=
  mkTokenWriter (last_token t) (run_start t) (last_run_end t) s (compressor t) (trait_pending_data t).
Definition set_compressor (s : comp C) (t : CompressedTokenWriter) : CompressedTokenWriter :=
  mkTokenWriter (last_token t) (run_start t) (last_run_end t) (flush_pending t) s (trait_pending_data t).
Definition set_pending_data (s : list Z) (t : CompressedTokenWriter) : CompressedTokenWriter :=
  mkTokenWriter (last_token t) (run_start t) (last_run_end t) (flush_pending t) (compressor t) s.

Definition flush_run (t : CompressedTokenWriter) : wr CompressedTokenWriter :=
  let r := as_i32 (run_start t - last_run_end t) in
  let n := as_i32 (last_token t - run_start t) in
  _ ← (if (0 <=? r) && (r <=? 63) then
         let flag := if n =? 0 then as_u8 (TOKEN_REL + as_u8 r) else as_u8 (TOKENRUN_REL + as_u8 r) in
         write_all [flag]
       else
         let flag := if n =? 0 then TOKEN_LONG else TOKENRUN_LONG in
         _ ← write_all [flag];
         write_int (run_start t));
  _ ← (if negb (n =? 0) then write_all [as_u8 n; as_u8 (n ≫ 8)] else mret tt);
  mret (set_last_run_end (last_token t) t).

(** The loop of [compress_and_send] over the chunks of the data. *)
Fixpoint compress_chunks (ctype : CompressorType) (cs : list (list Z)) (do_flush : bool) (c : comp C)
    : wr (comp C) :=
  match cs with
  | [] => mret c
  | chunk :: cs' =>
      let is_last := bool_decide (cs' = []) in
      p ← wr_lift (comp_compress C c chunk);
      let '(compressed, c) := (p : list Z * comp C) in
      let output := if is_last && do_flush then maybe_strip_trailer compressed ctype else compressed in
      _ ← write_frames output;
      compress_chunks ctype cs' do_flush c
  end.

Definition compress_and_send (data : list Z) (do_flush : bool) (t : CompressedTokenWriter)
    : wr CompressedTokenWriter :=
  let cs := match data with
            | [] => if flush_pending t then [[]] else []
            | _ => chunks (Z.to_nat DATA_CHUNK_SIZE) data
            end in
  c ← compress_chunks (comp_type C (compressor t)) cs do_flush (compressor t);
  mret (set_compressor c t).

(** The first statement of [send_token]: start, continue or output a run. *)
Definition start_run (has_data : bool) (token : Z) (t : CompressedTokenWriter) : wr CompressedTokenWriter :=
  if last_token t =? -1 then
    c ← wr_lift (comp_reset C (compressor t));
    mret (set_flush_pending false (set_run_start token (set_last_run_end 0 (set_compressor c t))))
  else if last_token t =? -2 then mret (set_run_start token t)
  else if has_data || negb (token =? as_i32 (last_token t + 1))
          || (as_i32 (run_start t + 65536) <=? token) then
    t ← flush_run t;
    mret (set_run_start token t)
  else mret t.

Definition send_token (data : list Z) (token : Z) (t : CompressedTokenWriter)
    : wr CompressedTokenWriter :=
  let has_data := negb (bool_decide (data = [])) in
  t ← start_run has_data token t;
  let t := set_last_token token t in
  t ← (if has_data || flush_pending t then
         t ← compress_and_send data (negb (token =? -2)) t;
         mret (set_flush_pending (token =? -2) t)
       else mret t);
  _ ← (if token =? -1 then write_all [END_FLAG] else mret tt);
  mret t.

(** The [TokenWriter] implementation. *)
Definition c_write_data (data : list Z) (t : CompressedTokenWriter) : wr CompressedTokenWriter :=
  if bool_decide (trait_pending_data t = []) then mret (set_pending_data data t)
  else
    let prev := trait_pending_data t in
    send_token prev (-2) (set_pending_data data t).
Definition c_write_block_match (index : Z) (t : CompressedTokenWriter) : wr CompressedTokenWriter :=
  send_token (trait_pending_data t) index (set_pending_data [] t).
Definition c_write_eof (t : CompressedTokenWriter) : wr CompressedTokenWriter :=
  send_token (trait_pending_data t) (-1) (set_pending_data [] t).

(** ** Compressed reader *)

Inductive CompressRecvState := RInit | RIdle | RRunning.
#[export] Instance CompressRecvState_eq_dec : EqDecision CompressRecvState.
Proof. solve_decision. Defined.

Record CompressedTokenReader := mkTokenReader {
  decompressor : decomp C;
  rx_token : Z;
  rx_run : Z;
  rstate : CompressRecvState;
}.

Definition CompressedTokenReader_new (d : decomp C) : CompressedTokenReader :=
  mkTokenReader d 0 0 RInit.

(** The block-match arm: the flag has been read. *)
Definition recv_block_match (flag : Z) (st : CompressedTokenReader)
    : rd (Token * CompressedTokenReader) :=
  if has_bits flag TOKEN_REL then
    let token := as_i32 (rx_token st + Z.land flag 0x3F) in
    let shifted := flag ≫ 6 in
    if has_bits shifted 1 then
      lo ← read_byte;
      hi ← read_byte;
      mret (TBlockMatch token, mkTokenReader (decompressor st) token (lo + (hi ≪ 8)) RRunning)
    else mret (TBlockMatch token, mkTokenReader (decompressor st) token (rx_run st) (rstate st))
  else
    token ← read_int;
    if token <? 0 then rd_err (Handshake "invalid token number in compressed stream")
    else if has_bits flag 1 then
      lo ← read_byte;
      hi ← read_byte;
      mret (TBlockMatch token, mkTokenReader (decompressor st) token (lo + (hi ≪ 8)) RRunning)
    else mret (TBlockMatch token, mkTokenReader (decompressor st) token (rx_run st) (rstate st)).

(** One round per unit of fuel; a round that continues takes two bytes off the
    stream or leaves [RInit], so [length i + 2] rounds are enough, and running
    out of fuel ([Panic] here) does not happen ([recv_compressed_safe]). *)
Fixpoint recv_loop (dtype : CompressorType) (fuel : nat) (st : CompressedTokenReader)
    : rd (Token * CompressedTokenReader) :=
  match fuel with
  | O => rd_lift Panic
  | S fuel' =>
      match rstate st with
      | RInit =>
          d ← rd_lift (decomp_reset C (decompressor st));
          recv_loop dtype fuel' (mkTokenReader d 0 (rx_run st) RIdle)
      | RRunning =>
          let token := as_i32 (rx_token st + 1) in
          let run := as_i32 (rx_run st - 1) in
          mret (TBlockMatch token,
                mkTokenReader (decompressor st) token run (if run =? 0 then RIdle else RRunning))
      | RIdle =>
          flag ← read_byte;
          if Z.land flag 0xC0 =? DEFLATED_DATA then
            b ← read_byte;
            let n := (Z.land flag 0x3F ≪ 8) + b in
            if n =? 0 then recv_loop dtype fuel' st
            else if MAX_DATA_COUNT <? n then
              rd_err (WireValueOutOfRange "compressed_data_len" n MAX_DATA_COUNT)
            else
              compressed ← read_exact n;
              let compressed := maybe_append_trailer compressed dtype in
              p ← rd_lift (decomp_decompress C (decompressor st) compressed DATA_CHUNK_SIZE);
              let '(decompressed, d) := (p : list Z * decomp C) in
              let st := mkTokenReader d (rx_token st) (rx_run st) (rstate st) in
              if negb (bool_decide (decompressed = [])) then mret (TData decompressed, st)
              else recv_loop dtype fuel' st
          else if flag =? END_FLAG then
            mret (TEndOfFile, mkTokenReader (decompressor st) (rx_token st) (rx_run st) RInit)
          else recv_block_match flag st
      end
  end.

Definition recv_compressed (st : CompressedTokenReader) : rd (Token * CompressedTokenReader) :=
  fun i => recv_loop (decomp_type C (decompressor st)) (length i + 2) st i.

End compressed.
Arguments last_token {C} _.
Arguments run_start {C} _.
Arguments last_run_end {C} _.
Arguments flush_pending {C} _.
Arguments compressor {C} _.
Arguments trait_pending_data {C} _.
Arguments decompressor {C} _.
Arguments rx_token {C} _.
Arguments rx_run {C} _.
Arguments rstate {C} _.
Arguments mkTokenReader {C} _ _ _ _.

(** ** The [TokenWriter] / [TokenReaderT] traits and the generic functions *)

Class TokenWriter (W : Type) := {
  tw_write_data : list Z -> W -> wr W;
  tw_write_block_match : Z -> W -> wr W;
  tw_write_eof : W -> wr W;
}.
Class TokenReaderT (R : Type) := {
  tr_read_token : R -> rd (Token * R);
}.

Inductive PlainTokenWriter := mkPlainWriter.
Inductive PlainTokenReader := mkPlainReader.

#[export] Instance plain_writer : TokenWriter PlainTokenWriter := {
  tw_write_data := fun data w => _ ← send_data data; mret w;
  tw_write_block_match := fun index w => _ ← send_block_match index; mret w;
  tw_write_eof := fun w => _ ← send_eof; mret w;
}.
#[export] Instance plain_reader : TokenReaderT PlainTokenReader := {
  tr_read_token := fun r => t ← recv_token; mret (t, r);
}.
#[export] Instance compressed_writer (C : Compression) : TokenWriter (CompressedTokenWriter C) := {
  tw_write_data := c_write_data C;
  tw_write_block_match := c_write_block_match C;
  tw_write_eof := c_write_eof C;
}.
#[export] Instance compressed_reader (C : Compression) : TokenReaderT (CompressedTokenReader C) := {
  tr_read_token := recv_compressed C;
}.

Fixpoint write_diffops {W} `{TokenWriter W} (writer : W) (ops : list DiffOp) (blength : Z) : wr W :=
  match ops with
  | [] => mret writer
  | Literal data :: ops' =>
      writer ← tw_write_data data writer;
      write_diffops writer ops' blength
  | Copy bref :: ops' =>
      index ← wr_lift (block_index bref blength);
      writer ← tw_write_block_match index writer;
      write_diffops writer ops' blength
  end.

(** ** The stateless compressed functions *)

Definition send_data_compressed (C : Compression) (data : list Z) (c : comp C) : wr (comp C) :=
  let ctype := comp_type C c in
  (fix go (cs : list (list Z)) (c : comp C) : wr (comp C) :=
     match cs with
     | [] => mret c
     | chunk :: cs' =>
         p ← wr_lift (comp_compress C c chunk);
         let '(compressed, c) := (p : list Z * comp C) in
         _ ← write_frames (maybe_strip_trailer compressed ctype);
         go cs' c
     end) (chunks (Z.to_nat DATA_CHUNK_SIZE) data) c.

Definition send_block_match_compressed (block_index : Z) : wr unit :=
  _ ← write_all [TOKEN_LONG]; write_int block_index.
Definition send_eof_compressed : wr unit := write_all [END_FLAG].

Definition recv_token_compressed (C : Compression) (d : decomp C) : rd (Token * decomp C) :=
  let dtype := decomp_type C d in
  flag ← read_byte;
  if flag =? END_FLAG then mret (TEndOfFile, d)
  else if Z.land flag 0xC0 =? DEFLATED_DATA then
    b ← read_byte;
    let n := (Z.land flag 0x3F ≪ 8) + b in
    if n =? 0 then mret (TData [], d)
    else if MAX_DATA_COUNT <? n then
      rd_err (WireValueOutOfRange "compressed_data_len" n MAX_DATA_COUNT)
    else
      compressed ← read_exact n;
      let compressed := maybe_append_trailer compressed dtype in
      p ← rd_lift (decomp_decompress C d compressed DATA_CHUNK_SIZE);
      let '(decompressed, d) := (p : list Z * decomp C) in
      mret (TData decompressed, d)
  else if has_bits flag TOKEN_REL then
    rd_err (Handshake "recv_token_compressed: TOKEN_REL requires stateful decoding; use CompressedTokenReader instead")
  else if flag =? TOKENRUN_LONG then
    rd_err (Handshake "recv_token_compressed: TOKENRUN_LONG requires stateful decoding; use CompressedTokenReader instead")
  else
    block_index ← read_int;
    mret (TBlockMatch block_index, d).

(** ** What a token stream says *)

(** Tokens up to the cutting of literal data: bytes, block references and ends
    of file. *)
Inductive item := IByte (b : Z) | IBlock (index : Z) | IEnd.

Definition token_items (t : Token) : list item :=
  match t with
  | TData d => map IByte d
  | TBlockMatch i => [IBlock i]
  | TEndOfFile => [IEnd]
  end.
Definition items (ts : list Token) : list item := concat (map token_items ts).

Definition op_items (blength : Z) (op : DiffOp) : list item :=
  match op with
  | Literal d => map IByte d
  | Copy bref => [IBlock (as_i32 (br_offset bref / blength))]
  end.

(** From [r], the bytes [bs] read as the tokens [ts], leaving [r']. *)
Inductive reads {R} `{TokenReaderT R} : R -> list Z -> list Token -> R -> Prop :=
  | reads_nil r : reads r [] [] r
  | reads_cons r bs t r1 bs' ts r2 :
      (forall k, tr_read_token r (bs ++ k) = Ok ((t, r1), k)) ->
      reads r1 bs' ts r2 -> reads r (bs ++ bs') (t :: ts) r2.

Fixpoint read_tokens {R} `{TokenReaderT R} (n : nat) (r : R) : rd (list Token * R) :=
  match n with
  | O => mret ([], r)
  | S n' =>
      p ← tr_read_token r;
      q ← read_tokens n' p.2;
      mret (p.1 :: q.1, q.2)
  end.

(** The contract between a token writer and a token reader: [held w h r] says
    that the writer holds back the items [h] and the reader stands where the
    writer's output ends. Every write turns what was held, plus what it was
    given, into tokens the reader reads and into what is held afterwards; the
    end of file holds nothing back. [ok_data] is what data a writer can take
    in a state. *)
Class TokenTransport (W R : Type) `{TokenWriter W} `{TokenReaderT R} := {
  held : W -> list item -> R -> Prop;
  ok_data : W -> list Z -> Prop;
  tt_data w h r d : held w h r -> ok_data w d ->
    exists w' bs ts r' h', tw_write_data d w = (Ok w', bs) /\ reads r bs ts r' /\ held w' h' r' /\
      h ++ map IByte d = items ts ++ h';
  tt_block w h r i : held w h r -> 0 <= i < 2 ^ 31 - 1 ->
    exists w' bs ts r' h', tw_write_block_match i w = (Ok w', bs) /\ reads r bs ts r' /\ held w' h' r' /\
      h ++ [IBlock i] = items ts ++ h';
  tt_eof w h r : held w h r ->
    exists w' bs ts r', tw_write_eof w = (Ok w', bs) /\ reads r bs (ts ++ [TEndOfFile]) r' /\
      held w' [] r' /\ h = items ts;
}.

(** The writer can take every literal of the operations when it comes to it. *)
Fixpoint accepts {W R} `{TokenTransport W R} (blength : Z) (w : W) (ops : list DiffOp) : Prop :=
  match ops with
  | [] => True
  | Literal d :: ops' =>
      ok_data w d /\ forall w' bs, tw_write_data d w = (Ok w', bs) -> accepts blength w' ops'
  | Copy bref :: ops' =>
      forall i w' bs, block_index bref blength = Ok i -> tw_write_block_match i w = (Ok w', bs) ->
      accepts blength w' ops'
  end.

(** One file after the other through the same writer, and what it can take. *)
Fixpoint write_files {W} `{TokenWriter W} (blength : Z) (w : W) (files : list (list DiffOp)) : wr W :=
  match files with
  | [] => mret w
  | ops :: files' =>
      w ← write_diffops w ops blength;
      w ← tw_write_eof w;
      write_files blength w files'
  end.

Fixpoint accepts_files {W R} `{TokenTransport W R} (blength : Z) (w : W) (files : list (list DiffOp)) : Prop :=
  match files with
  | [] => True
  | ops :: files' =>
      accepts blength w ops /\
      forall w1 w2 bs bs', write_diffops w ops blength = (Ok w1, bs) -> tw_write_eof w1 = (Ok w2, bs') ->
      accepts_files blength w2 files'
  end.

(** Operations whose copies are block references of the given block length. *)
Definition copies_ok (blength : Z) (ops : list DiffOp) : Prop :=
  0 < blength /\
  Forall (fun op => match op with
                    | Copy bref => 0 <= br_offset bref / blength < 2 ^ 31 - 1
                    | Literal _ => True
                    end) ops.

(** ** Lemmas against the contract *)

Lemma reads_app {R} `{TokenReaderT R} r bs ts r1 bs' ts' r2 :
  reads r bs ts r1 -> reads r1 bs' ts' r2 -> reads r (bs ++ bs') (ts ++ ts') r2.
Proof.
  induction 1 as [|r bs t r1 bs1 ts r3 Hr Hrest IH]; intros H2; [done|].
  rewrite <- app_assoc. cbn [app]. econstructor; [done|]. by apply IH.
Qed.

Lemma reads_one {R} `{TokenReaderT R} r bs t r' :
  (forall k, tr_read_token r (bs ++ k) = Ok ((t, r'), k)) -> reads r bs [t] r'.
Proof. intros Hr. rewrite <- (app_nil_r bs). econstructor; [done|]. constructor. Qed.

Lemma reads_run {R} `{TokenReaderT R} r bs ts r' k :
  reads r bs ts r' -> read_tokens (length ts) r (bs ++ k) = Ok ((ts, r'), k).
Proof.
  induction 1 as [|r bs t r1 bs1 ts r3 Hr Hrest IH]; [done|]. cbn [length read_tokens].
  rewrite <- app_assoc. erewrite rd_bind_run by apply Hr. cbn [fst snd].
  erewrite rd_bind_run by apply IH. done.
Qed.

Lemma items_app ts ts' : items (ts ++ ts') = items ts ++ items ts'.
Proof. unfold items. by rewrite map_app, concat_app. Qed.

Lemma items_data cs : items (map TData cs) = map IByte (concat cs).
Proof.
  unfold items. induction cs as [|c cs IH]; [done|]. cbn [map concat token_items].
  by rewrite map_app, IH.
Qed.

Section client.
  Context {W R : Type} `{HT : TokenTransport W R}.

Lemma write_diffops_held w h r ops blength :
  held w h r -> accepts blength w ops -> copies_ok blength ops ->
  exists w' bs ts r' h', write_diffops w ops blength = (Ok w', bs) /\ reads r bs ts r' /\
    held w' h' r' /\ h ++ concat (map (op_items blength) ops) = items ts ++ h'.
Proof.
  revert w h r. induction ops as [|op ops IH]; intros w h r Hh Ha [Hb Hc].
  - exists w, [], [], r, h. split_and!; [done|constructor|done|]. simpl. by rewrite app_nil_r.
  - inversion_clear Hc as [|? ? Hop Hops]. destruct op as [d|bref]; cbn [write_diffops map concat op_items].
    + destruct Ha as [Hd Ha]. destruct (tt_data w h r d Hh Hd) as (w1 & bs & ts & r1 & h1 & Hw & Hr & Hh1 & Hi).
      destruct (IH w1 h1 r1 Hh1 (Ha _ _ Hw) (conj Hb Hops)) as (w2 & bs2 & ts2 & r2 & h2 & Hw2 & Hr2 & Hh2 & Hi2).
      exists w2, (bs ++ bs2), (ts ++ ts2), r2, h2. split_and!; [|by eapply reads_app|done|].
      * rewrite Hw. unfold mbind, wr_bind. by rewrite Hw2.
      * by rewrite app_assoc, Hi, <- app_assoc, Hi2, items_app, app_assoc.
    + assert (Hi32 : as_i32 (br_offset bref / blength) = br_offset bref / blength) by (apply swrap_id; lia).
      assert (Hbi : block_index bref blength = Ok (br_offset bref / blength)).
      { unfold block_index. destruct (Z.eqb_spec blength 0); [lia|]. by rewrite Hi32. }
      rewrite Hbi, Hi32.
      destruct (tt_block w h r _ Hh Hop) as (w1 & bs & ts & r1 & h1 & Hw & Hr & Hh1 & Hi).
      destruct (IH w1 h1 r1 Hh1 (Ha _ _ _ Hbi Hw) (conj Hb Hops)) as (w2 & bs2 & ts2 & r2 & h2 & Hw2 & Hr2 & Hh2 & Hi2).
      exists w2, (bs ++ bs2), (ts ++ ts2), r2, h2. split_and!; [|by eapply reads_app|done|].
      * unfold wr_lift, mbind at 1, wr_bind at 1. cbn [app]. unfold mbind, wr_bind. rewrite Hw, Hw2. done.
      * by rewrite app_assoc, Hi, <- app_assoc, Hi2, items_app, app_assoc.
Qed.

(** Whole files: the operations and the end of each. *)
Lemma files_delivered w r files blength :
  held w [] r -> accepts_files blength w files -> Forall (copies_ok blength) files ->
  exists w' bs tss r', write_files blength w files = (Ok w', bs) /\
    reads r bs (concat (map (fun ts => ts ++ [TEndOfFile]) tss)) r' /\ held w' [] r' /\
    map items tss = map (fun ops => concat (map (op_items blength) ops)) files.
Proof.
  intros Hh Ha Hc. revert w r Hh Ha. induction Hc as [|ops files Hc Hcs IH]; intros w r Hh Ha.
  - exists w, [], [], r. split_and!; [done|constructor|done..].
  - destruct Ha as [Ha Hrest].
    destruct (write_diffops_held w [] r ops blength Hh Ha Hc) as (w1 & bs & ts & r1 & h1 & Hw & Hr & Hh1 & Hi).
    destruct (tt_eof w1 h1 r1 Hh1) as (w2 & bs2 & ts2 & r2 & Hw2 & Hr2 & Hh2 & ->).
    destruct (IH w2 r2 Hh2 (Hrest _ _ _ _ Hw Hw2)) as (w3 & bs3 & tss & r3 & Hw3 & Hr3 & Hh3 & Hi3).
    exists w3, (bs ++ bs2 ++ bs3), ((ts ++ ts2) :: tss), r3. split_and!; [| |done|].
    + cbn [write_files]. rewrite Hw. unfold mbind, wr_bind. by rewrite Hw2, Hw3.
    + cbn [map concat]. rewrite <- !app_assoc. eapply reads_app; [exact Hr|].
      rewrite app_assoc. by eapply reads_app.
    + cbn [map]. f_equal; [|done]. by rewrite items_app.
Qed.

End client.

(** ** The plain encoding meets the contract *)

Lemma read_int_le v k : in_i32 v -> read_int (le_bytes 4 v ++ k) = Ok (v, k).
Proof.
  intros Hv. destruct (mirrors_run _ _ _ _ _ k (write_int_mirrors v) eq_refl) as (y & -> & ->).
  by rewrite swrap_id.
Qed.

Lemma recv_token_data d k : 0 < Z.of_nat (length d) <= DATA_CHUNK_SIZE ->
  recv_token ((le_bytes 4 (Z.of_nat (length d)) ++ d) ++ k) = Ok (TData d, k).
Proof.
  unfold DATA_CHUNK_SIZE. intros Hd. unfold recv_token.
  rewrite <- app_assoc. erewrite rd_bind_run by (apply read_int_le; lia).
  destruct (Z.eqb_spec (Z.of_nat (length d)) 0); [lia|]. destruct (Z.ltb_spec 0 (Z.of_nat (length d))); [|lia].
  destruct (Z.ltb_spec MAX_WIRE_ALLOC (Z.of_nat (length d))); [unfold MAX_WIRE_ALLOC in *; lia|].
  by erewrite rd_bind_run by (by apply read_exact_app).
Qed.

Lemma recv_token_block i k : 0 <= i < 2 ^ 31 - 1 ->
  recv_token (le_bytes 4 (- (i + 1)) ++ k) = Ok (TBlockMatch i, k).
Proof.
  intros Hi. unfold recv_token. erewrite rd_bind_run by (apply read_int_le; lia).
  destruct (Z.eqb_spec (- (i + 1)) 0); [lia|]. destruct (Z.ltb_spec 0 (- (i + 1))); [lia|].
  rewrite !swrap_id by (rewrite ?swrap_id; lia). by replace (- (- (i + 1) + 1)) with i by lia.
Qed.

Lemma send_data_chunks cs r :
  Forall (fun c => (0 < length c <= Z.to_nat DATA_CHUNK_SIZE)%nat) cs ->
  exists bs, wr_each (fun chunk =>
      _ ← write_int (as_i32 (Z.of_nat (length chunk))); write_all chunk) cs = (Ok tt, bs) /\
    @reads PlainTokenReader _ r bs (map TData cs) r.
Proof.
  unfold DATA_CHUNK_SIZE. intros Hc. induction Hc as [|c cs Hc Hcs (bs & Hw & Hr)]; [exists []; split; [done|constructor]|].
  exists ((le_bytes 4 (Z.of_nat (length c)) ++ c) ++ bs). cbn [wr_each map]. split.
  - rewrite Hw. unfold mbind, wr_bind, write_int, write_all. rewrite swrap_id by lia. by rewrite app_nil_r || done.
  - econstructor; [|exact Hr]. intros k. cbn [tr_read_token plain_reader].
    erewrite rd_bind_run by (apply recv_token_data; unfold DATA_CHUNK_SIZE; lia). done.
Qed.

Lemma send_block_match_bytes i : 0 <= i < 2 ^ 31 - 1 ->
  send_block_match i = (Ok tt, le_bytes 4 (- (i + 1))).
Proof.
  intros Hi. unfold send_block_match. destruct (Z.ltb_spec (2 ^ 31 - 1) (i + 1)); [lia|].
  destruct (Z.eqb_spec (i + 1) (- 2 ^ 31)); [lia|done].
Qed.

#[export, refine] Instance plain_transport : TokenTransport PlainTokenWriter PlainTokenReader := {
  held := fun _ h _ => h = [];
  ok_data := fun _ _ => True;
}.
Proof.
  - intros w h r d -> _. destruct (send_data_chunks (chunks (Z.to_nat DATA_CHUNK_SIZE) d) r) as (bs & Hw & Hr).
    { apply chunks_length. unfold DATA_CHUNK_SIZE. lia. }
    exists w, bs, (map TData (chunks (Z.to_nat DATA_CHUNK_SIZE) d)), r, []. split_and!; [|done..|].
    + cbn [tw_write_data plain_writer]. unfold send_data. rewrite Hw. unfold mbind, wr_bind. cbn. by rewrite app_nil_r.
    + rewrite items_data, concat_chunks, app_nil_r by (unfold DATA_CHUNK_SIZE; lia). done.
  - intros w h r i -> Hi. exists w, (le_bytes 4 (- (i + 1))), [TBlockMatch i], r, []. split_and!; [| |done..].
    + cbn [tw_write_block_match plain_writer]. by rewrite send_block_match_bytes.
    + apply reads_one. intros k. cbn [tr_read_token plain_reader].
      by erewrite rd_bind_run by (by apply recv_token_block).
  - intros w h r ->. exists w, (le_bytes 4 0), [], r. split_and!; [done| |done..].
    apply reads_one. intros k. cbn [tr_read_token plain_reader].
    erewrite rd_bind_run; [done|]. unfold recv_token. by erewrite rd_bind_run by (apply read_int_le; lia).
Defined.

(** ** The compressed encoding meets the contract *)

Lemma strip_trailer t out : one_frame t out ->
  0 < Z.of_nat (length (maybe_strip_trailer out t)) <= MAX_DATA_COUNT /\
  maybe_append_trailer (maybe_strip_trailer out t) t = out.
Proof.
  unfold one_frame, maybe_strip_trailer, maybe_append_trailer. destruct t.
  - intros (body & -> & Hb). rewrite length_app. cbn [length SYNC_FLUSH_TRAILER].
    destruct (Nat.leb_spec 4 (length body + 4)); [|lia]. rewrite Nat.add_sub.
    rewrite drop_app_length. rewrite !bool_decide_true by done. cbn [andb]. by rewrite take_app_length.
  - rewrite bool_decide_false by done. cbn [andb]. intros H. done.
  - rewrite bool_decide_false by done. cbn [andb]. intros H. done.
Qed.

(** The two header bytes of a compressed-data frame. *)
Definition frame_header (n : Z) : list Z := [DEFLATED_DATA + n / 256; n mod 256].

Lemma write_frame_bytes out : 0 < Z.of_nat (length out) <= MAX_DATA_COUNT ->
  write_frames out = (Ok tt, frame_header (Z.of_nat (length out)) ++ out).
Proof.
  unfold MAX_DATA_COUNT. intros Hn. unfold write_frames. rewrite bool_decide_false by (intros ->; simpl in Hn; lia).
  destruct (Z.ltb_spec MAX_DATA_COUNT (Z.of_nat (length out))); [unfold MAX_DATA_COUNT in *; lia|].
  unfold write_frame, frame_header, mbind, wr_bind, write_all. cbn [app]. do 2 f_equal.
  rewrite Z.shiftr_div_pow2 by lia. change (2 ^ 8) with 256.
  assert (0 <= Z.of_nat (length out) / 256 < 64) by zlia.
  - rewrite !wrap_id by (rewrite ?wrap_id by lia; unfold DEFLATED_DATA; lia). done.
  - by rewrite as_u8_land.
Qed.

Lemma frame_flag h : 0 <= h < 64 ->
  (Z.land (DEFLATED_DATA + h) 0xC0 =? DEFLATED_DATA) && (Z.land (DEFLATED_DATA + h) 0x3F =? h) = true.
Proof. revert h. byte_cases 64%nat. Qed.

Lemma read_byte_cons b k : read_byte (b :: k) = Ok (b, k).
Proof. unfold read_byte. by erewrite rd_bind_run by apply read_exact_cons. Qed.

Section compressed_reader.
  Context (C : Compression).

(** A frame, from the idle state. *)
Lemma recv_frame_step t (f : nat) d tok run sent k :
  0 < Z.of_nat (length sent) <= MAX_DATA_COUNT ->
  recv_loop C t (S f) (mkTokenReader d tok run RIdle) ((frame_header (Z.of_nat (length sent)) ++ sent) ++ k) =
    (p ← rd_lift (decomp_decompress C d (maybe_append_trailer sent t) DATA_CHUNK_SIZE);
     let '(data, d') := (p : list Z * decomp C) in
     if negb (bool_decide (data = [])) then mret (TData data, mkTokenReader d' tok run RIdle)
     else recv_loop C t f (mkTokenReader d' tok run RIdle)) k.
Proof.
  intros Hn. set (n := Z.of_nat (length sent)) in *.
  assert (Hh : 0 <= n / 256 < 64) by (unfold MAX_DATA_COUNT in *; zlia).
  pose proof (frame_flag (n / 256) Hh) as Hflag. apply andb_true_iff in Hflag as [Hf1 Hf2].
  apply Z.eqb_eq in Hf2. cbn [recv_loop rstate frame_header app decompressor rx_token rx_run].
  erewrite rd_bind_run by apply read_byte_cons. rewrite Hf1.
  erewrite rd_bind_run by apply read_byte_cons. rewrite Hf2. cbv zeta.
  replace (((n / 256) ≪ 8) + n mod 256) with n by (rewrite Z.shiftl_mul_pow2 by lia; change (2 ^ 8) with 256; pose proof (Z.div_mod n 256 ltac:(lia)); lia).
  destruct (Z.eqb_spec n 0); [lia|]. destruct (Z.ltb_spec MAX_DATA_COUNT n); [lia|].
  by erewrite rd_bind_run by (by apply read_exact_app).
Qed.

Lemma recv_frame t (f : nat) d tok run sent data d' k :
  0 < Z.of_nat (length sent) <= MAX_DATA_COUNT ->
  decomp_decompress C d (maybe_append_trailer sent t) DATA_CHUNK_SIZE = Ok (data, d') -> data <> [] ->
  recv_loop C t (S f) (mkTokenReader d tok run RIdle) ((frame_header (Z.of_nat (length sent)) ++ sent) ++ k) =
    Ok ((TData data, mkTokenReader d' tok run RIdle), k).
Proof.
  intros Hn Hd Hne. rewrite recv_frame_step, Hd by done. unfold mbind, rd_bind, rd_lift.
  by rewrite bool_decide_false.
Qed.

Lemma recv_end t (f : nat) d tok run k :
  recv_loop C t (S f) (mkTokenReader d tok run RIdle) (END_FLAG :: k) =
    Ok ((TEndOfFile, mkTokenReader d tok run RInit), k).
Proof. cbn [recv_loop rstate]. by erewrite rd_bind_run by apply read_byte_cons. Qed.

(** The rest of a run. *)
Lemma recv_running d tok (n : nat) :
  0 <= tok -> (0 < n)%nat -> tok + Z.of_nat n < 2 ^ 31 ->
  reads (mkTokenReader d tok (Z.of_nat n) RRunning) []
    (map TBlockMatch (seqZ (tok + 1) (Z.of_nat n))) (@mkTokenReader C d (tok + Z.of_nat n) 0 RIdle).
Proof.
  intros Ht Hn Hb. revert tok Ht Hb. induction n as [|n IH]; intros tok Ht Hb; [lia|].
  rewrite seqZ_cons by lia. cbn [map]. rewrite <- (app_nil_l []).
  replace (tok + Z.of_nat (S n)) with (tok + 1 + Z.of_nat n) by lia.
  replace (Z.pred (Z.of_nat (S n))) with (Z.of_nat n) by lia. replace (Z.succ (tok + 1)) with (tok + 1 + 1) by lia.
  destruct (decide (n = 0%nat)) as [->|Hn0].
  - change (seqZ (tok + 1 + 1) (Z.of_nat 0)) with (@nil Z). rewrite Z.add_0_r.
    apply (reads_one (mkTokenReader d tok (Z.of_nat 1) RRunning) []). intros k.
    cbn [tr_read_token compressed_reader]. unfold recv_compressed. rewrite Nat.add_comm.
    cbn [Nat.add recv_loop rstate rx_token rx_run decompressor app]. rewrite swrap_id by lia. done.
  - eapply reads_cons; [|apply IH; lia]. intros k.
    cbn [tr_read_token compressed_reader]. unfold recv_compressed. rewrite Nat.add_comm.
    cbn [Nat.add recv_loop rstate rx_token rx_run decompressor app]. rewrite !swrap_id by lia.
    replace (Z.of_nat (S n) - 1) with (Z.of_nat n) by lia. by destruct (Z.eqb_spec (Z.of_nat n) 0); [lia|].
Qed.

End compressed_reader.

(** The flag bytes of a block reference [r] past the last one. *)
Definition flag_ok (flag r : Z) (is_run : bool) : Prop :=
  (Z.land flag 0xC0 =? DEFLATED_DATA) = false /\ (flag =? END_FLAG) = false /\
  has_bits flag TOKEN_REL = true /\ Z.land flag 0x3F = r /\ has_bits (flag ≫ 6) 1 = is_run.

Definition flag_okb (flag r : Z) (is_run : bool) : bool :=
  negb (Z.land flag 0xC0 =? DEFLATED_DATA) && negb (flag =? END_FLAG) && has_bits flag TOKEN_REL
  && (Z.land flag 0x3F =? r) && Bool.eqb (has_bits (flag ≫ 6) 1) is_run.

Lemma flag_okb_ok flag r is_run : flag_okb flag r is_run = true -> flag_ok flag r is_run.
Proof. unfold flag_okb, flag_ok. intros H. zbool. split_and!; first [done | by apply Z.eqb_neq | by apply eqb_prop]. Qed.

Lemma rel_flag r : 0 <= r < 64 -> flag_ok (as_u8 (TOKEN_REL + as_u8 r)) r false.
Proof. intros Hr. apply flag_okb_ok. revert r Hr. byte_cases 64%nat. Qed.

Lemma run_rel_flag r : 0 <= r < 64 -> flag_ok (as_u8 (TOKENRUN_REL + as_u8 r)) r true.
Proof. intros Hr. apply flag_okb_ok. revert r Hr. byte_cases 64%nat. Qed.

Lemma run_count n : 0 <= n < 65536 -> as_u8 n + (as_u8 (n ≫ 8) ≪ 8) = n.
Proof.
  intros Hn. unfold wrap. rewrite Z.shiftr_div_pow2, Z.shiftl_mul_pow2 by lia. change (2 ^ 8) with 256.
  rewrite (Z.mod_small (n / 256)) by zlia. pose proof (Z.div_mod n 256 ltac:(lia)). lia.
Qed.

Section compressed_transport.
  Context (C : Compression) {L : CompressionLaws C}.

(** The reader stands at the writer's output, with [tok] the last block it
    was told of. *)
Definition ready (tok : Z) (c : comp C) (r : CompressedTokenReader C) : Prop :=
  decomp_type C (decompressor r) = comp_type C c /\
  exists d, in_sync c d /\
    ((rstate r = RIdle /\ decompressor r = d /\ rx_token r = tok) \/
     (rstate r = RInit /\ decomp_reset C (decompressor r) = Ok d /\ tok = 0)).

Lemma ready_recv tok c r : ready tok c r -> exists d, in_sync c d /\ forall i, exists f,
  recv_compressed C r i = recv_loop C (comp_type C c) (S f) (mkTokenReader d tok (rx_run r) RIdle) i.
Proof.
  intros (Ht & d & Hs & [(H1 & H2 & H3)|(H1 & H2 & H3)]); exists d; (split; [done|]); intros i.
  - exists (length i + 1)%nat. destruct r as [rd rt rr rs]. cbn in *. subst. unfold recv_compressed. cbn [decompressor].
    rewrite Ht. by replace (length i + 2)%nat with (S (length i + 1)) by lia.
  - exists (length i). destruct r as [rd rt rr rs]. cbn in *. subst. unfold recv_compressed. cbn [decompressor].
    rewrite Ht. rewrite Nat.add_comm. cbn [Nat.add recv_loop rstate decompressor rx_run]. unfold rd_lift.
    unfold mbind at 1, rd_bind at 1. by rewrite H2.
Qed.

Lemma ready_idle c d tok run : in_sync c d -> ready tok c (mkTokenReader d tok run RIdle).
Proof. intros Hs. split; [symmetry; by apply law_type|]. exists d. auto. Qed.

(** A block reference and the length of its run, in the four encodings. *)
Lemma recv_block_flag t f d tok run flag rest i n k :
  (Z.land flag 0xC0 =? DEFLATED_DATA) = false -> (flag =? END_FLAG) = false ->
  recv_block_match C flag (mkTokenReader d tok run RIdle) (rest ++ k) =
    Ok ((TBlockMatch i, if n =? 0 then mkTokenReader d i run RIdle else mkTokenReader d i n RRunning), k) ->
  recv_loop C t (S f) (mkTokenReader d tok run RIdle) ((flag :: rest) ++ k) =
    Ok ((TBlockMatch i, if n =? 0 then mkTokenReader d i run RIdle else mkTokenReader d i n RRunning), k).
Proof.
  intros H1 H2 H3. cbn [recv_loop rstate app]. erewrite rd_bind_run by apply read_byte_cons.
  rewrite H1, H2. exact H3.
Qed.

Definition run_bytes (n : Z) : list Z := if n =? 0 then [] else [as_u8 n; as_u8 (n ≫ 8)].

Lemma recv_rel d tok run i n k :
  0 <= i - tok < 64 -> 0 <= tok -> i < 2 ^ 31 -> 0 <= n < 65536 ->
  let flag := if n =? 0 then as_u8 (TOKEN_REL + as_u8 (i - tok)) else as_u8 (TOKENRUN_REL + as_u8 (i - tok)) in
  (Z.land flag 0xC0 =? DEFLATED_DATA) = false /\ (flag =? END_FLAG) = false /\
  recv_block_match C flag (mkTokenReader d tok run RIdle) (run_bytes n ++ k) =
    Ok ((TBlockMatch i, if n =? 0 then mkTokenReader d i run RIdle else mkTokenReader d i n RRunning), k).
Proof.
  intros Hr Ht Hi Hn. unfold run_bytes. cbv zeta. destruct (Z.eqb_spec n 0) as [->|Hn0].
  - destruct (rel_flag _ Hr) as (F1 & F2 & F3 & F4 & F5). split_and!; [done..|]. unfold recv_block_match.
    rewrite F3, F4, F5. cbn [rx_token decompressor rx_run rstate app]. rewrite swrap_id by lia.
    by replace (tok + (i - tok)) with i by lia.
  - destruct (run_rel_flag _ Hr) as (F1 & F2 & F3 & F4 & F5). split_and!; [done..|]. unfold recv_block_match.
    rewrite F3, F4, F5. cbn [rx_token decompressor rx_run rstate app].
    erewrite rd_bind_run by apply read_byte_cons. erewrite rd_bind_run by apply read_byte_cons.
    rewrite run_count, swrap_id by lia. by replace (tok + (i - tok)) with i by lia.
Qed.

Lemma recv_long d tok run i n k :
  0 <= i < 2 ^ 31 -> 0 <= n < 65536 ->
  let flag := if n =? 0 then TOKEN_LONG else TOKENRUN_LONG in
  (Z.land flag 0xC0 =? DEFLATED_DATA) = false /\ (flag =? END_FLAG) = false /\
  recv_block_match C flag (mkTokenReader d tok run RIdle) ((le_bytes 4 i ++ run_bytes n) ++ k) =
    Ok ((TBlockMatch i, if n =? 0 then mkTokenReader d i run RIdle else mkTokenReader d i n RRunning), k).
Proof.
  intros Hi Hn. unfold run_bytes. cbv zeta. rewrite <- app_assoc.
  destruct (Z.eqb_spec n 0) as [->|Hn0]; (split_and!; [done..|]); unfold recv_block_match;
    (match goal with |- context [has_bits ?f TOKEN_REL] => change (has_bits f TOKEN_REL) with false end);
    cbv iota; erewrite rd_bind_run by (apply read_int_le; lia); (destruct (Z.ltb_spec i 0); [lia|]).
  - done.
  - change (has_bits TOKENRUN_LONG 1) with true. cbv iota. cbn [app].
    erewrite rd_bind_run by apply read_byte_cons. erewrite rd_bind_run by apply read_byte_cons.
    by rewrite run_count.
Qed.

(** The block references of a run, [a] to [b]. *)
Definition run_items (a b : Z) : list item := map IBlock (seqZ a (b - a + 1)).

Lemma run_items_snoc a b : a <= b + 1 -> run_items a (b + 1) = run_items a b ++ [IBlock (b + 1)].
Proof.
  intros Hab. unfold run_items. replace (b + 1 - a + 1) with ((b - a + 1) + 1) by lia.
  rewrite seqZ_app by lia. rewrite map_app. do 2 f_equal.
  replace (a + (b - a + 1)) with (b + 1) by lia. done.
Qed.

Lemma items_blocks l : items (map TBlockMatch l) = map IBlock l.
Proof. unfold items. induction l as [|i l IH]; [done|]. cbn [map concat token_items app]. by f_equal. Qed.

(** [flush_run] and its reading. *)
Lemma flush_run_reads (w : CompressedTokenWriter C) r :
  ready (last_run_end w) (compressor w) r -> 0 <= last_run_end w ->
  0 <= run_start w <= last_token w -> last_token w < 2 ^ 31 - 1 -> last_token w < run_start w + 65536 ->
  last_run_end w < 2 ^ 31 ->
  exists bs ts r', flush_run C w = (Ok (set_last_run_end C (last_token w) w), bs) /\ reads r bs ts r' /\
    ready (last_token w) (compressor w) r' /\ items ts = run_items (run_start w) (last_token w).
Proof.
  intros Hr He0 Hrs Hl Hn He. set (i := run_start w) in *. set (n := last_token w - i).
  destruct (ready_recv _ _ _ Hr) as (d & Hs & Hrecv).
  set (rest := seqZ (i + 1) n).
  assert (Hrest : reads (if n =? 0 then mkTokenReader d i (rx_run r) RIdle else mkTokenReader d i n RRunning) []
    (map TBlockMatch rest) (@mkTokenReader C d (last_token w) (if n =? 0 then rx_run r else 0) RIdle)).
  { destruct (Z.eqb_spec n 0) as [E|E].
    - replace (last_token w) with i by lia. subst rest. rewrite E. constructor.
    - pose proof (recv_running C d i (Z.to_nat n) ltac:(lia) ltac:(lia) ltac:(lia)) as H.
      rewrite !Z2Nat.id in H by lia. by replace (i + n) with (last_token w) in H by lia. }
  assert (Hread : exists bs, flush_run C w = (Ok (set_last_run_end C (last_token w) w), bs) /\
    forall k, recv_compressed C r (bs ++ k) = Ok ((TBlockMatch i,
      if n =? 0 then mkTokenReader d i (rx_run r) RIdle else mkTokenReader d i n RRunning), k)).
  { unfold flush_run. fold i. rewrite (swrap_id 32 (i - last_run_end w)), (swrap_id 32 (last_token w - i)) by lia.
    fold n. destruct ((0 <=? i - last_run_end w) && (i - last_run_end w <=? 63)) eqn:E; zbool.
    - eexists. split.
      + unfold mbind, wr_bind, write_all. cbv zeta.
        instantiate (1 := (if n =? 0 then as_u8 (TOKEN_REL + as_u8 (i - last_run_end w))
                           else as_u8 (TOKENRUN_REL + as_u8 (i - last_run_end w))) :: run_bytes n).
        unfold run_bytes. by destruct (n =? 0).
      + intros k. edestruct Hrecv as (f & ->).
        destruct (recv_rel d (last_run_end w) (rx_run r) i n k) as (A & B & D); [lia..|].
        by apply recv_block_flag.
    - eexists. split.
      + unfold mbind, wr_bind, write_all, write_int. cbv zeta.
        instantiate (1 := (if n =? 0 then TOKEN_LONG else TOKENRUN_LONG) :: le_bytes 4 i ++ run_bytes n).
        unfold run_bytes. destruct (n =? 0); [|done]. cbn [negb]. by rewrite !app_nil_r.
      + intros k. edestruct Hrecv as (f & ->).
        destruct (recv_long d (last_run_end w) (rx_run r) i n k) as (A & B & D); [lia..|].
        by apply recv_block_flag. }
  destruct Hread as (bs & Hw & Hk).
  exists bs, (TBlockMatch i :: map TBlockMatch rest), (mkTokenReader d (last_token w) (if n =? 0 then rx_run r else 0) RIdle).
  split_and!; [done| |by apply ready_idle|].
  - rewrite <- (app_nil_r bs). econstructor; [exact Hk|exact Hrest].
  - change (TBlockMatch i :: map TBlockMatch rest) with (map TBlockMatch (i :: rest)). rewrite items_blocks.
    unfold run_items. f_equal. rewrite seqZ_cons by lia. f_equal. subst rest. f_equal; lia.
Qed.

(** Data the encoding can carry: chunks that fit a frame, and for zlib no
    more than one chunk, since only the last one loses its trailer. *)
Definition data_ok (t : CompressorType) (d : list Z) : Prop :=
  d <> [] /\ Forall fits (chunks (Z.to_nat DATA_CHUNK_SIZE) d) /\
  (t = CtZlib -> Z.of_nat (length d) <= DATA_CHUNK_SIZE).

Lemma chunks_single {A} (n : nat) (l : list A) : l <> [] -> (length l <= n)%nat -> chunks n l = [l].
Proof.
  intros Hl Hn. destruct n as [|n]; [destruct l; [done|simpl in Hn; lia]|].
  rewrite chunks_unfold by (done || lia). by rewrite take_ge, drop_ge by lia.
Qed.

Lemma strip_other (t : CompressorType) out : t <> CtZlib -> maybe_strip_trailer out t = out.
Proof. intros Ht. unfold maybe_strip_trailer. by rewrite bool_decide_false. Qed.

(** One chunk, stripped or not as its encoding wants, through frame and reader. *)
Lemma chunk_reads tok c r chunk (strip : bool) :
  ready tok c r -> fits chunk -> chunk <> [] -> (comp_type C c = CtZlib -> strip = true) ->
  exists out c' bs r', comp_compress C c chunk = Ok (out, c') /\
    write_frames (if strip then maybe_strip_trailer out (comp_type C c) else out) = (Ok tt, bs) /\
    reads r bs [TData chunk] r' /\ ready tok c' r' /\ comp_type C c' = comp_type C c.
Proof.
  intros Hr Hfit Hne Hz. destruct (ready_recv _ _ _ Hr) as (d & Hs & Hrecv).
  destruct (law_chunk c d chunk Hs Hfit Hne) as (out & c' & d' & Ec & Hone & Ed & Hs' & Ht').
  destruct (strip_trailer _ _ Hone) as [Hlen Happ].
  assert (Esent : (if strip then maybe_strip_trailer out (comp_type C c) else out) = maybe_strip_trailer out (comp_type C c)).
  { destruct strip; [done|]. rewrite strip_other; [done|]. intros E. by specialize (Hz E). }
  set (sent := maybe_strip_trailer out (comp_type C c)) in *.
  exists out, c', (frame_header (Z.of_nat (length sent)) ++ sent), (mkTokenReader d' tok (rx_run r) RIdle).
  split_and!; [done| | |by apply ready_idle|done].
  - fold sent. rewrite Esent. by apply write_frame_bytes.
  - apply reads_one. intros k. cbn [tr_read_token compressed_reader]. edestruct Hrecv as (f & ->).
    apply recv_frame; [done| |done]. by rewrite Happ.
Qed.

Lemma compress_chunks_reads tok c r cs (do_flush : bool) :
  ready tok c r -> Forall (fun chunk => fits chunk /\ chunk <> []) cs ->
  (comp_type C c = CtZlib -> do_flush = true /\ (length cs <= 1)%nat) ->
  exists c' bs r', compress_chunks C (comp_type C c) cs do_flush c = (Ok c', bs) /\
    reads r bs (map TData cs) r' /\ ready tok c' r' /\ comp_type C c' = comp_type C c.
Proof.
  intros Hr Hcs. revert c r Hr. induction Hcs as [|chunk cs [Hfit Hne] Hcs IH]; intros c r Hr Hz.
  - exists c, [], r. split_and!; [done|constructor|done..].
  - cbn [compress_chunks map].
    destruct (chunk_reads tok c r chunk (bool_decide (cs = []) && do_flush) Hr Hfit Hne)
      as (out & c1 & bs1 & r1 & Ec & Hw & Hr1 & Hready1 & Ht1).
    { intros E. destruct (Hz E) as [-> Hl]. destruct cs; [done|simpl in Hl; lia]. }
    destruct (IH c1 r1 Hready1) as (c2 & bs2 & r2 & Hw2 & Hr2 & Hready2 & Ht2).
    { intros E. rewrite Ht1 in E. destruct (Hz E). simpl in *. split; [done|lia]. }
    exists c2, (bs1 ++ bs2), r2. split_and!; [| |done|by rewrite Ht2].
    + rewrite Ec. unfold wr_lift, mbind, wr_bind. rewrite Hw. rewrite Ht1 in Hw2. by rewrite Hw2.
    + change (TData chunk :: map TData cs) with ([TData chunk] ++ map TData cs). by eapply reads_app.
Qed.

Lemma compress_and_send_reads tok (w : CompressedTokenWriter C) r data (do_flush : bool) :
  ready tok (compressor w) r -> data_ok (comp_type C (compressor w)) data ->
  (comp_type C (compressor w) = CtZlib -> do_flush = true) ->
  exists c' bs ts r', compress_and_send C data do_flush w = (Ok (set_compressor C c' w), bs) /\
    reads r bs ts r' /\ ready tok c' r' /\ comp_type C c' = comp_type C (compressor w) /\
    items ts = map IByte data.
Proof.
  intros Hr (Hne & Hfit & Hz) Hdo. set (cs := chunks (Z.to_nat DATA_CHUNK_SIZE) data) in *.
  assert (Hpos : (0 < Z.to_nat DATA_CHUNK_SIZE)%nat) by (unfold DATA_CHUNK_SIZE; lia).
  destruct (compress_chunks_reads tok (compressor w) r cs do_flush Hr) as (c' & bs & r' & Hw & Hr' & Hready & Ht).
  - pose proof (chunks_length (Z.to_nat DATA_CHUNK_SIZE) data Hpos) as Hl. fold cs in Hl.
    rewrite Forall_forall in *. intros chunk Hin. split; [by apply Hfit|]. intros ->.
    specialize (Hl [] Hin). simpl in Hl. lia.
  - intros E. split; [by apply Hdo|]. specialize (Hz E). subst cs.
    rewrite chunks_single by (done || (unfold DATA_CHUNK_SIZE in *; lia)). simpl. lia.
  - exists c', bs, (map TData cs), r'. split_and!; [|done..|].
    + unfold compress_and_send. destruct data as [|b data]; [done|]. fold cs. rewrite Hw.
      unfold mbind, wr_bind. cbn. by rewrite app_nil_r.
    + rewrite items_data. subst cs. by rewrite concat_chunks.
Qed.

(** What a writer holds back apart from the buffered data: nothing before the
    first token of a file or after data sent alone, else the current run. *)
Definition run_state (w : CompressedTokenWriter C) (run : list item) (r : CompressedTokenReader C) : Prop :=
  (last_token w = -1 /\ run = [] /\ rstate r = RInit /\
   decomp_type C (decompressor r) = comp_type C (compressor w)) \/
  (ready (last_run_end w) (compressor w) r /\ 0 <= last_run_end w < 2 ^ 31 - 1 /\
   ((last_token w = -2 /\ run = [] /\ flush_pending w = true /\ comp_type C (compressor w) <> CtZlib) \/
    (0 <= run_start w <= last_token w /\ last_token w < 2 ^ 31 - 1 /\
     last_token w < run_start w + 65536 /\ flush_pending w = false /\
     run = run_items (run_start w) (last_token w)))).

(** The state [start_run] leaves: the pending run is out, or it goes on. *)
Definition run_started (tok : Z) (has_data : bool) (w w1 : CompressedTokenWriter C) (run out : list item) : Prop :=
  (run_start w1 = tok /\ out = run) \/
  (w1 = w /\ out = [] /\ has_data = false /\ 0 <= run_start w <= last_token w /\
   tok = last_token w + 1 /\ tok < run_start w + 65536 /\
   run = run_items (run_start w) (last_token w)).

Lemma start_run_reads (w : CompressedTokenWriter C) run r tok (has_data : bool) :
  run_state w run r -> (has_data = false -> last_token w <> -2) ->
  exists w1 bs ts r1, start_run C has_data tok w = (Ok w1, bs) /\ reads r bs ts r1 /\
    ready (last_run_end w1) (compressor w1) r1 /\ 0 <= last_run_end w1 < 2 ^ 31 - 1 /\
    comp_type C (compressor w1) = comp_type C (compressor w) /\
    trait_pending_data w1 = trait_pending_data w /\ (has_data = false -> flush_pending w1 = false) /\
    run_started tok has_data w w1 run (items ts).
Proof.
  intros Hrun Hhd. unfold start_run. destruct Hrun as [(El & -> & Er & Et)|(Hr & He & [(El & -> & Ef & Ez)|(Hs & Hl & Hn & Ef & ->)])].
  - rewrite El. change (-1 =? -1) with true. cbv iota.
    destruct (law_reset (compressor w) (decompressor r)) as (c' & d' & Ec & Ed & Hsync & Ect); [done|].
    rewrite Ec. exists (set_flush_pending C false (set_run_start C tok (set_last_run_end C 0 (set_compressor C c' w)))), [], [], r.
    split_and!; [done|constructor| |done..|by left].
    cbn. split; [by rewrite Et, Ect|]. exists d'. split; [done|]. right. done.
  - rewrite El. change (-2 =? -1) with false. change (-2 =? -2) with true. cbv iota.
    exists (set_run_start C tok w), [], [], r. split_and!; try done; try apply He; [apply reads_nil| |by left].
    intros E. by specialize (Hhd E).
  - destruct (Z.eqb_spec (last_token w) (-1)); [lia|]. destruct (Z.eqb_spec (last_token w) (-2)); [lia|].
    destruct (has_data || negb (tok =? as_i32 (last_token w + 1)) || (as_i32 (run_start w + 65536) <=? tok)) eqn:E.
    + destruct (flush_run_reads w r Hr) as (bs & ts & r' & Hw & Hrd & Hready & Hi); [lia..|].
      exists (set_run_start C tok (set_last_run_end C (last_token w) w)), bs, ts, r'.
      split_and!; try done; [|cbn; lia|by left].
      rewrite Hw. unfold mbind, wr_bind. cbn. by rewrite app_nil_r.
    + apply orb_false_iff in E as [E1 E3]. apply orb_false_iff in E1 as [E1 E2].
      apply negb_false_iff, Z.eqb_eq in E2. apply Z.leb_gt in E3. rewrite swrap_id in E2 by lia.
      exists w, [], [], r. split_and!; try done; try apply He; [apply reads_nil|].
      right. split_and!; try done; try apply Hs. rewrite <- (swrap_id 32 (run_start w + 65536)); [done|lia|].
      destruct (Z.lt_ge_cases (run_start w + 65536) (2 ^ 31)); [lia|].
      exfalso. revert E3. unfold swrap, wrap. rewrite Z.mod_small by lia.
      destruct (Z.ltb_spec (run_start w + 65536) (2 ^ (32 - 1))); lia.
Qed.

(** [send_token], up to the end-of-file flag. *)
Lemma send_token_reads (w : CompressedTokenWriter C) run r data tok :
  run_state w run r -> (data = [] -> last_token w <> -2) ->
  (data <> [] -> data_ok (comp_type C (compressor w)) data) ->
  (tok = -2 -> data <> [] /\ comp_type C (compressor w) <> CtZlib) ->
  exists w2 bs ts r2,
    send_token C data tok w = (Ok w2, bs ++ (if tok =? -1 then [END_FLAG] else [])) /\ reads r bs ts r2 /\
    ready (last_run_end w2) (compressor w2) r2 /\ 0 <= last_run_end w2 < 2 ^ 31 - 1 /\
    comp_type C (compressor w2) = comp_type C (compressor w) /\
    trait_pending_data w2 = trait_pending_data w /\ last_token w2 = tok /\ flush_pending w2 = (tok =? -2) /\
    ((run_start w2 = tok /\ items ts = run ++ map IByte data) \/
     (data = [] /\ items ts = [] /\ run_start w2 = run_start w /\ 0 <= run_start w <= last_token w /\
      tok = last_token w + 1 /\ tok < run_start w + 65536 /\
      run = run_items (run_start w) (last_token w))).
Proof.
  intros Hrun H2 Hok Htok. set (hd := negb (bool_decide (data = []))).
  assert (Hhd : hd = false <-> data = []).
  { unfold hd. rewrite negb_false_iff, bool_decide_eq_true. done. }
  destruct (start_run_reads w run r tok hd Hrun) as (w1 & bs1 & ts1 & r1 & Hw1 & Hr1 & Hready & Hb & Ht1 & Hp & Hfp & Hst).
  { intros E. by apply H2, Hhd. }
  unfold send_token. fold hd. rewrite Hw1. unfold mbind at 1, wr_bind at 1.
  destruct (decide (data = [])) as [->|Hne].
  - assert (E : hd = false) by by apply Hhd. rewrite E. specialize (Hfp E). cbn [orb].
    change (flush_pending (set_last_token C tok w1)) with (flush_pending w1). rewrite Hfp. exists (set_last_token C tok w1), bs1, ts1, r1.
    assert (tok <> -2) by (intros ->; destruct (Htok eq_refl); done).
    split_and!; try done; try apply Hb.
    + destruct (tok =? -1); done.
    + cbn. rewrite Hfp. symmetry. by apply Z.eqb_neq.
    + destruct Hst as [(? & ->)|(-> & ? & ? & ? & ? & ? & ?)]; [left; cbn; by rewrite app_nil_r|right; done].
  - assert (E : hd = true) by (destruct hd; [done|by destruct Hne; apply Hhd]). rewrite E. cbn [orb].
    destruct (compress_and_send_reads (last_run_end w1) (set_last_token C tok w1) r1 data (negb (tok =? -2)))
      as (c' & bs2 & ts2 & r2 & Hw2 & Hr2 & Hready2 & Ht2 & Hi); [done| | |].
    { cbn. rewrite Ht1. by apply Hok. }
    { cbn. rewrite Ht1. intros Ez. destruct (Z.eqb_spec tok (-2)); [|done]. by destruct (Htok e). }
    rewrite Hw2. exists (set_flush_pending C (tok =? -2) (set_compressor C c' (set_last_token C tok w1))), (bs1 ++ bs2), (ts1 ++ ts2), r2.
    split_and!; try done; try apply Hb.
    + unfold mbind, wr_bind. rewrite <- !app_assoc. destruct (tok =? -1); cbn; by rewrite ?app_nil_r.
    + by eapply reads_app.
    + cbn in Ht2 |- *. by rewrite Ht2.
    + left. destruct Hst as [(? & Hout)|(_ & _ & Hf & _)]; [|by rewrite Hf in E].
      rewrite items_app, Hout, Hi. done.
Qed.

Definition compressed_held (w : CompressedTokenWriter C) (h : list item) (r : CompressedTokenReader C) : Prop :=
  exists run, h = run ++ map IByte (trait_pending_data w) /\ run_state w run r /\
    (trait_pending_data w <> [] -> data_ok (comp_type C (compressor w)) (trait_pending_data w)) /\
    (trait_pending_data w = [] -> last_token w <> -2).

Definition compressed_ok_data (w : CompressedTokenWriter C) (d : list Z) : Prop :=
  data_ok (comp_type C (compressor w)) d /\
  (comp_type C (compressor w) = CtZlib -> trait_pending_data w = []).

Lemma compressed_data_step w h r d : compressed_held w h r -> compressed_ok_data w d ->
  exists w' bs ts r' h', c_write_data C d w = (Ok w', bs) /\ reads r bs ts r' /\ compressed_held w' h' r' /\
    h ++ map IByte d = items ts ++ h' /\
    comp_type C (compressor w') = comp_type C (compressor w) /\ trait_pending_data w' = d.
Proof.
  intros (run & -> & Hrun & Hp & H2) (Hd & Hz). unfold c_write_data.
  destruct (decide (trait_pending_data w = [])) as [E|E].
  - rewrite bool_decide_true by done. exists (set_pending_data C d w), [], [], r, (run ++ map IByte d).
    split_and!; [done|apply reads_nil| |by rewrite E, app_nil_r|done|done].
    exists run. split_and!; [done|exact Hrun|done|]. intros Ed. by destruct Hd.
  - rewrite bool_decide_false by done.
    destruct (send_token_reads (set_pending_data C d w) run r (trait_pending_data w) (-2) Hrun)
      as (w2 & bs & ts & r2 & Hw & Hr & Hready & Hb & Ht & Hp2 & Hl & Hf & Hi); [done|by intros; apply Hp| |].
    { intros _. split; [done|]. intros Ez. by apply E, Hz. }
    destruct Hi as [(Hs & Hi)|(Hi & _)]; [|done].
    exists w2, bs, ts, r2, (map IByte d). split_and!; [rewrite Hw; by rewrite app_nil_r|done| |by rewrite Hi|done|done].
    cbn in Hp2, Ht. exists []. rewrite Hp2, Ht. split_and!; [done| |done|].
    + right. split; [done|]. split; [done|]. left. split_and!; [done..|]. rewrite Ht. intros Ez. by apply E, Hz.
    + intros Ed. by destruct Hd.
Qed.

Lemma compressed_block_step w h r i : compressed_held w h r -> 0 <= i < 2 ^ 31 - 1 ->
  exists w' bs ts r' h', c_write_block_match C i w = (Ok w', bs) /\ reads r bs ts r' /\ compressed_held w' h' r' /\
    h ++ [IBlock i] = items ts ++ h' /\
    comp_type C (compressor w') = comp_type C (compressor w) /\ trait_pending_data w' = [].
Proof.
  intros (run & -> & Hrun & Hp & H2) Hi. unfold c_write_block_match.
  destruct (send_token_reads (set_pending_data C [] w) run r (trait_pending_data w) i Hrun)
    as (w2 & bs & ts & r2 & Hw & Hr & Hready & Hb & Ht & Hp2 & Hl & Hf & Hst); [done..|lia|].
  assert (Hi1 : (i =? -1) = false) by lia. assert (Hi2 : (i =? -2) = false) by lia.
  rewrite Hi1, app_nil_r in Hw. rewrite Hi2 in Hf. cbn in Hp2, Hst.
  destruct Hst as [(Hs & Hit)|(Ed & Hit & Hs & Hrs & Etok & Hlim & Erun)].
  - exists w2, bs, ts, r2, [IBlock i]. split_and!; [done|done| |by rewrite Hit|done|done].
    exists [IBlock i]. rewrite Hp2. split_and!; [done| |done|lia].
    right. split; [done|]. split; [done|]. right. rewrite Hs, Hl. split_and!; try done; try lia.
    unfold run_items. by replace (i - i + 1) with 1 by lia.
  - rewrite Ed, Etok in Hw. rewrite Etok in Hl |- *.
    exists w2, bs, ts, r2, (run_items (run_start w) (last_token w + 1)). rewrite Ed, Hit, Erun. cbn [map]. rewrite app_nil_r.
    split_and!; [done|done| |by rewrite run_items_snoc by lia|done|done].
    exists (run_items (run_start w) (last_token w + 1)). rewrite Hp2. split_and!; [by rewrite app_nil_r| |done|lia].
    right. split; [done|]. split; [done|]. right. rewrite Hs, Hl. split_and!; done || lia.
Qed.

Lemma compressed_eof_step w h r : compressed_held w h r ->
  exists w' bs ts r', c_write_eof C w = (Ok w', bs) /\ reads r bs (ts ++ [TEndOfFile]) r' /\
    compressed_held w' [] r' /\ h = items ts /\
    comp_type C (compressor w') = comp_type C (compressor w) /\ trait_pending_data w' = [].
Proof.
  intros (run & -> & Hrun & Hp & H2). unfold c_write_eof.
  destruct (send_token_reads (set_pending_data C [] w) run r (trait_pending_data w) (-1) Hrun)
    as (w2 & bs & ts & r2 & Hw & Hr & Hready & Hb & Ht & Hp2 & Hl & Hf & Hst); [done..|].
  destruct (ready_recv _ _ _ Hready) as (d & Hs & Hrecv).
  exists w2, (bs ++ [END_FLAG]), ts, (mkTokenReader d (last_run_end w2) (rx_run r2) RInit).
  split_and!; [done| | | |done|done].
  - eapply reads_app; [exact Hr|]. apply reads_one. intros k. cbn [tr_read_token compressed_reader].
    edestruct Hrecv as (f & ->). apply recv_end.
  - exists []. cbn in Hp2. rewrite Hp2. split_and!; [done| |done|lia]. left. split_and!; try done.
    cbn. symmetry. by apply law_type.
  - destruct Hst as [(_ & ->)|(_ & _ & _ & ? & ? & _)]; [done|]. cbn in *. lia.
Qed.

#[export, refine] Instance compressed_transport :
    TokenTransport (CompressedTokenWriter C) (CompressedTokenReader C) := {
  held := compressed_held;
  ok_data := compressed_ok_data;
}.
Proof.
  - intros w h r d Hh Hd. destruct (compressed_data_step w h r d Hh Hd) as (w' & bs & ts & r' & h' & ? & ? & ? & ? & _).
    eauto 10.
  - intros w h r i Hh Hi. destruct (compressed_block_step w h r i Hh Hi) as (w' & bs & ts & r' & h' & ? & ? & ? & ? & _).
    eauto 10.
  - intros w h r Hh. destruct (compressed_eof_step w h r Hh) as (w' & bs & ts & r' & ? & ? & ? & ? & _).
    eauto 10.
Defined.

(** Operations the compressed encoding of type [t] can carry: every literal is
    non-empty and fits, and with zlib a literal is no longer than one chunk
    and never follows another literal. *)
Fixpoint ops_ok (t : CompressorType) (no_pending : bool) (ops : list DiffOp) : Prop :=
  match ops with
  | [] => True
  | Literal d :: ops' => data_ok t d /\ (t = CtZlib -> no_pending = true) /\ ops_ok t false ops'
  | Copy _ :: ops' => ops_ok t true ops'
  end.

Lemma ops_ok_accepts blength (w : CompressedTokenWriter C) h r ops :
  held w h r -> ops_ok (comp_type C (compressor w)) (bool_decide (trait_pending_data w = [])) ops ->
  copies_ok blength ops -> accepts blength w ops.
Proof.
  revert w h r. induction ops as [|op ops IH]; intros w h r Hh Hok [Hb Hc]; [done|].
  inversion_clear Hc as [|? ? Hop Hops]. destruct op as [d|bref]; cbn [accepts ops_ok] in *.
  - destruct Hok as (Hd & Hz & Hok). assert (Hod : compressed_ok_data w d).
    { split; [done|]. intros E. specialize (Hz E). by apply bool_decide_eq_true in Hz. }
    split; [exact Hod|]. intros w' bs Hw.
    destruct (compressed_data_step w h r d Hh Hod) as (w1 & bs1 & ts & r1 & h1 & Hw1 & _ & Hh1 & _ & Ht & Hp).
    assert (w' = w1) as -> by (cbn [tw_write_data compressed_writer] in Hw; congruence).
    apply (IH w1 h1 r1); [done| |done]. rewrite Ht, Hp. by rewrite bool_decide_false by (by destruct Hd).
  - intros i w' bs Hbi Hw. assert (Hi : 0 <= i < 2 ^ 31 - 1).
    { unfold block_index in Hbi. destruct (Z.eqb_spec blength 0); [lia|]. inversion Hbi. by rewrite swrap_id by lia. }
    destruct (compressed_block_step w h r i Hh Hi) as (w1 & bs1 & ts & r1 & h1 & Hw1 & _ & Hh1 & _ & Ht & Hp).
    assert (w' = w1) as -> by (cbn [tw_write_block_match compressed_writer] in Hw; congruence).
    apply (IH w1 h1 r1); [done| |done]. by rewrite Ht, Hp.
Qed.

Lemma diffops_type blength (w : CompressedTokenWriter C) h r ops w1 bs :
  held w h r -> ops_ok (comp_type C (compressor w)) (bool_decide (trait_pending_data w = [])) ops ->
  copies_ok blength ops -> write_diffops w ops blength = (Ok w1, bs) ->
  exists h1 r1, held w1 h1 r1 /\ comp_type C (compressor w1) = comp_type C (compressor w).
Proof.
  revert w h r bs. induction ops as [|op ops IH]; intros w h r bs Hh Hok [Hb Hc] Hw.
  { inversion Hw; subst. eauto. }
  inversion_clear Hc as [|? ? Hop Hops]. destruct op as [d|bref]; cbn [write_diffops ops_ok] in *.
  - destruct Hok as (Hd & Hz & Hok). assert (Hod : compressed_ok_data w d).
    { split; [done|]. intros E. specialize (Hz E). by apply bool_decide_eq_true in Hz. }
    destruct (compressed_data_step w h r d Hh Hod) as (w2 & bs1 & ts & r1 & h1 & Hw1 & _ & Hh1 & _ & Ht & Hp).
    cbn [tw_write_data compressed_writer] in Hw. rewrite Hw1 in Hw. unfold mbind, wr_bind in Hw.
    destruct (write_diffops w2 ops blength) as [res o] eqn:E. inversion Hw; subst res bs.
    destruct (IH w2 h1 r1 o Hh1) as (h3 & r3 & Hh3 & Ht3); [|done|done|].
    + rewrite Ht, Hp. by rewrite bool_decide_false by (by destruct Hd).
    + exists h3, r3. split; [done|]. by rewrite Ht3.
  - assert (Hbi : block_index bref blength = Ok (br_offset bref / blength)).
    { unfold block_index. destruct (Z.eqb_spec blength 0); [lia|]. by rewrite swrap_id by lia. }
    destruct (compressed_block_step w h r _ Hh Hop) as (w2 & bs1 & ts & r1 & h1 & Hw1 & _ & Hh1 & _ & Ht & Hp).
    rewrite Hbi in Hw. unfold wr_lift, mbind at 1, wr_bind at 1 in Hw.
    cbn [tw_write_block_match compressed_writer] in Hw. unfold mbind, wr_bind in Hw. rewrite Hw1 in Hw.
    destruct (write_diffops w2 ops blength) as [res o] eqn:E. inversion Hw; subst res bs.
    destruct (IH w2 h1 r1 o Hh1) as (h3 & r3 & Hh3 & Ht3); [by rewrite Ht, Hp|done|done|].
    exists h3, r3. split; [done|]. by rewrite Ht3.
Qed.

Lemma ops_ok_accepts_files blength (w : CompressedTokenWriter C) r files :
  held w [] r -> trait_pending_data w = [] ->
  Forall (ops_ok (comp_type C (compressor w)) true) files -> Forall (copies_ok blength) files ->
  accepts_files blength w files.
Proof.
  intros Hh Hp Hok Hc. revert w r Hh Hp Hok. induction Hc as [|ops files Hc Hcs IH]; intros w r Hh Hp Hok; [done|].
  inversion_clear Hok as [|? ? Hok1 Hok2]. cbn [accepts_files].
  assert (Hok1' : ops_ok (comp_type C (compressor w)) (bool_decide (trait_pending_data w = [])) ops).
  { by rewrite Hp. }
  split; [by eapply ops_ok_accepts|].
  intros w1 w2 bs bs' Hw1 Hw2.
  destruct (diffops_type blength w [] r ops w1 bs Hh Hok1' Hc Hw1) as (h1 & r1 & Hh1 & Ht1).
  destruct (compressed_eof_step w1 h1 r1 Hh1) as (w3 & bs3 & ts & r3 & Hw3 & _ & Hh3 & _ & Ht3 & Hp3).
  assert (w2 = w3) as -> by (cbn [tw_write_eof compressed_writer] in Hw2; congruence).
  apply (IH w3 r3); [done|done|]. by rewrite Ht3, Ht1.
Qed.

(** A new writer and a new reader, of the same backend. *)
Lemma compressed_new c d : comp_type C c = decomp_type C d ->
  held (CompressedTokenWriter_new C c) [] (CompressedTokenReader_new C d).
Proof.
  intros Ht. exists []. split_and!; [done| |done|done]. left. split_and!; done.
Qed.

End compressed_transport.

(** ** Arbitrary input *)

Lemma recv_token_safe : safe recv_token (fun t =>
  match t with
  | TData d => 0 < Z.of_nat (length d) <= MAX_WIRE_ALLOC
  | TBlockMatch i => 0 <= i < 2 ^ 31
  | TEndOfFile => True
  end).
Proof.
  eapply safe_bind; [apply read_int_safe|]. intros token Ht. cbv beta in Ht.
  destruct (Z.eqb_spec token 0); [by apply safe_ret|]. destruct (Z.ltb_spec 0 token).
  - destruct (Z.ltb_spec MAX_WIRE_ALLOC token); [apply safe_err|].
    eapply safe_bind; [apply safe_read_exact; lia|]. intros buf [_ Hl]. apply safe_ret. lia.
  - apply safe_ret. rewrite !swrap_id by (rewrite ?swrap_id; lia). lia.
Qed.

Lemma safe_lift {A} (m : result A) (P : A -> Prop) :
  match m with Ok a => P a | Err _ => True | Panic => False end -> safe (rd_lift m) P.
Proof. intros Hm i Hi. unfold rd_lift. by destruct m. Qed.

(** The backend does not panic. *)
Definition no_panic (C : Compression) : Prop :=
  (forall d, decomp_reset C d <> Panic) /\ (forall d bs n, decomp_decompress C d bs n <> Panic).

Section safety.
  Context (C : Compression) (HC : no_panic C).

Definition token_ok (p : Token * CompressedTokenReader C) : Prop :=
  match p.1 with TData d => d <> [] | _ => True end.

Lemma recv_block_match_safe flag st : safe (recv_block_match C flag st) token_ok.
Proof.
  assert (Hcount : forall i, safe (lo ← read_byte; hi ← read_byte;
      mret (TBlockMatch i, mkTokenReader (decompressor st) i (lo + (hi ≪ 8)) RRunning)) token_ok).
  { intros i. eapply safe_bind; [apply read_byte_safe|]. intros lo _.
    eapply safe_bind; [apply read_byte_safe|]. intros hi _. by apply safe_ret. }
  unfold recv_block_match. destruct (has_bits flag TOKEN_REL).
  - cbv zeta. destruct (has_bits _ 1); [apply Hcount|by apply safe_ret].
  - eapply safe_bind; [apply read_int_safe|]. intros token _.
    destruct (token <? 0); [apply safe_err|]. destruct (has_bits flag 1); [apply Hcount|by apply safe_ret].
Qed.

Lemma decompress_safe d bs n : safe (rd_lift (decomp_decompress C d bs n)) (fun _ => True).
Proof. apply safe_lift. pose proof (proj2 HC d bs n). by destruct (decomp_decompress C d bs n). Qed.

Lemma read_exact_rest n i bs k : 0 <= n -> read_exact n i = Ok (bs, k) -> length i = (length k + Z.to_nat n)%nat.
Proof.
  unfold read_exact. intros Hn. destruct (Z.ltb_spec (Z.of_nat (length i)) n); [done|].
  intros H'. inversion H'; subst. rewrite length_drop. lia.
Qed.

(** The fuel [recv_compressed] gives is enough: every round that goes on takes
    a frame header off the input, or leaves the initial state. *)
Lemma recv_loop_safe t (f : nat) st i : Forall is_byte i ->
  (length i + (if bool_decide (rstate st = RInit) then 2 else 1) <= f)%nat ->
  match recv_loop C t f st i with
  | Ok (p, k) => token_ok p /\ Forall is_byte k
  | Err _ => True
  | Panic => False
  end.
Proof.
  revert st i. induction f as [|f IH]; intros st i Hi Hf; [destruct (bool_decide _); lia|].
  cbn [recv_loop]. destruct (rstate st) eqn:Est.
  - unfold mbind, rd_bind, rd_lift. pose proof (proj1 HC (decompressor st)).
    destruct (decomp_reset C (decompressor st)); [|done..]. rewrite bool_decide_true in Hf by done.
    apply IH; [done|]. cbn [rstate]. rewrite bool_decide_false by done. lia.
  - rewrite bool_decide_false in Hf by done. unfold mbind at 1, rd_bind at 1.
    pose proof (read_byte_safe i Hi) as H1. destruct (read_byte i) as [[flag k]| |] eqn:E1; [|done..].
    destruct H1 as [Hflag Hk]. assert (Hl1 : length i = S (length k)).
    { unfold read_byte, mbind, rd_bind in E1. destruct (read_exact 1 i) as [[buf k']| |] eqn:E; [|done..].
      apply read_exact_rest in E; [|lia]. inversion E1; subst. lia. }
    destruct (Z.land flag 0xC0 =? DEFLATED_DATA).
    + unfold mbind at 1, rd_bind at 1. pose proof (read_byte_safe k Hk) as H2.
      destruct (read_byte k) as [[b k2]| |] eqn:E2; [|done..]. destruct H2 as [Hb Hk2].
      assert (Hl2 : length k = S (length k2)).
      { unfold read_byte, mbind, rd_bind in E2. destruct (read_exact 1 k) as [[buf k']| |] eqn:E; [|done..].
        apply read_exact_rest in E; [|lia]. inversion E2; subst. lia. }
      cbv zeta. set (n := (Z.land flag 0x3F ≪ 8) + b).
      assert (Hn : 0 <= n).
      { subst n. rewrite Z.shiftl_mul_pow2 by lia. assert (0 <= Z.land flag 0x3F) by (apply Z.land_nonneg; lia).
        unfold is_byte in Hb. lia. }
      assert (Hrec : forall st' k', rstate st' <> RInit -> Forall is_byte k' -> (length k' <= length k2)%nat ->
        match recv_loop C t f st' k' with Ok (p, k) => token_ok p /\ Forall is_byte k | Err _ => True | Panic => False end).
      { intros st' k' Hst' Hk' Hl'. apply IH; [done|]. rewrite bool_decide_false by done. lia. }
      destruct (n =? 0); [apply Hrec; [by rewrite Est|done|lia]|]. destruct (MAX_DATA_COUNT <? n); [done|].
      unfold mbind at 1, rd_bind at 1. pose proof (safe_read_exact n Hn k2 Hk2) as H3.
      destruct (read_exact n k2) as [[buf k3]| |] eqn:E3; [|done..]. destruct H3 as [_ Hk3].
      apply read_exact_rest in E3; [|done].
      unfold mbind, rd_bind, rd_lift. pose proof (proj2 HC (decompressor st) (maybe_append_trailer buf t) DATA_CHUNK_SIZE).
      destruct (decomp_decompress C _ _ _) as [[dd d']| |]; [|done..].
      destruct (bool_decide (dd = [])) eqn:Edd; cbn [negb].
      * apply Hrec; [done|done|lia].
      * split; [|done]. by apply bool_decide_eq_false in Edd.
    + destruct (flag =? END_FLAG); [done|]. by apply recv_block_match_safe.
  - done.
Qed.

Lemma recv_compressed_safe st : safe (recv_compressed C st) token_ok.
Proof. intros i Hi. apply recv_loop_safe; [done|]. destruct (bool_decide _); lia. Qed.

Lemma recv_token_compressed_safe d : safe (recv_token_compressed C d) (fun _ => True).
Proof.
  unfold recv_token_compressed. eapply safe_bind; [apply read_byte_safe|]. intros flag Hflag.
  apply safe_if; intros _; [by apply safe_ret|]. apply safe_if; intros _.
  - eapply safe_bind; [apply read_byte_safe|]. intros b Hb. cbv zeta.
    apply safe_if; intros _; [by apply safe_ret|]. apply safe_if; intros _; [apply safe_err|].
    eapply safe_bind; [apply safe_read_exact|].
    + rewrite Z.shiftl_mul_pow2 by lia. assert (0 <= Z.land flag 0x3F) by (apply Z.land_nonneg; lia).
      unfold is_byte in Hb. lia.
    + intros buf _. eapply safe_bind; [apply decompress_safe|]. intros [dd d'] _. by apply safe_ret.
  - apply safe_if; intros _; [apply safe_err|]. apply safe_if; intros _; [apply safe_err|].
    eapply safe_bind; [apply read_int_safe|]. intros. by apply safe_ret.
Qed.

End safety.

(** ** Properties *)

(** The plain encoding: whatever operations the sender writes for any
    number of files, [recv_token] called until the end of each file yields the
    same literal bytes and block references in the same order, one end of file
    per file, and stops exactly where the sender stopped. *)
Theorem plain_files_roundtrip (blength : Z) (files : list (list DiffOp)) (k : list Z) :
  Forall (copies_ok blength) files ->
  exists bs tss, write_files blength mkPlainWriter files = (Ok mkPlainWriter, bs) /\
    let ts := concat (map (fun ts => ts ++ [TEndOfFile]) tss) in
    read_tokens (length ts) mkPlainReader (bs ++ k) = Ok ((ts, mkPlainReader), k) /\
    map items tss = map (fun ops => concat (map (op_items blength) ops)) files.
Proof.
  intros Hc. assert (Ha : accepts_files (R := PlainTokenReader) blength mkPlainWriter files).
  { assert (Hacc : forall ops w, accepts (W := PlainTokenWriter) (R := PlainTokenReader) blength w ops).
    { induction ops as [|[d|bref] ops IH]; cbn [accepts]; intros w; [done| |].
      - split; [exact I|]. intros w' bs _. apply IH.
      - intros i w' bs _ _. apply IH. }
    clear Hc. induction files as [|ops files IH]; cbn [accepts_files]; [done|].
    split; [apply Hacc|]. intros w1 [] bs bs' _ _. apply IH. }
  destruct (files_delivered mkPlainWriter mkPlainReader files blength) as ([] & bs & tss & [] & Hw & Hr & _ & Hi); [done..|].
  exists bs, tss. split; [done|]. split; [|done]. cbv zeta. by apply reads_run.
Qed.

Lemma plain_files_roundtrip_witness :
  copies_ok 700 [Literal [1; 2]; Copy (mkBasisRef 1400 700)] /\
  exists bs tss, write_files 700 mkPlainWriter [[Literal [1; 2]; Copy (mkBasisRef 1400 700)]; []] = (Ok mkPlainWriter, bs) /\
    let ts := concat (map (fun ts => ts ++ [TEndOfFile]) tss) in
    read_tokens (length ts) mkPlainReader (bs ++ [9]) = Ok ((ts, mkPlainReader), [9]) /\
    map items tss = [[IByte 1; IByte 2; IBlock 2]; []].
Proof.
  assert (H : copies_ok 700 [Literal [1; 2]; Copy (mkBasisRef 1400 700)]).
  { split; [lia|]. constructor; [done|]. constructor; [vm_compute; split; congruence|]. constructor. }
  split; [exact H|]. apply (plain_files_roundtrip 700 [[Literal [1; 2]; Copy (mkBasisRef 1400 700)]; []] [9]).
  constructor; [exact H|]. constructor; [split; [lia|constructor]|constructor].
Defined.

(** C37. The compressed encoding: for any compression backend that keeps the
    interface's laws, a new [CompressedTokenWriter] and a new
    [CompressedTokenReader] carry any number of files: the reader yields the
    literal bytes and block references the sender wrote, runs of consecutive
    blocks and relative references included, one end of file per file. The
    literals must fit frames and, with zlib, be one chunk long and never
    adjacent ([ops_ok]; [zlib_extra_trailer] shows what happens otherwise). *)
Theorem compressed_files_roundtrip (C : Compression) `{CompressionLaws C} (c : comp C) (d : decomp C)
    (blength : Z) (files : list (list DiffOp)) (k : list Z) :
  comp_type C c = decomp_type C d ->
  Forall (ops_ok C (comp_type C c) true) files -> Forall (copies_ok blength) files ->
  exists w bs tss r, write_files blength (CompressedTokenWriter_new C c) files = (Ok w, bs) /\
    let ts := concat (map (fun ts => ts ++ [TEndOfFile]) tss) in
    read_tokens (length ts) (CompressedTokenReader_new C d) (bs ++ k) = Ok ((ts, r), k) /\
    map items tss = map (fun ops => concat (map (op_items blength) ops)) files.
Proof.
  intros Ht Hok Hc. pose proof (compressed_new C c d Ht) as Hheld.
  destruct (files_delivered (CompressedTokenWriter_new C c) (CompressedTokenReader_new C d) files blength)
    as (w & bs & tss & r & Hw & Hr & _ & Hi); [done|by eapply ops_ok_accepts_files|done|].
  exists w, bs, tss, r. split; [done|]. split; [|done]. cbv zeta. by apply reads_run.
Qed.

Definition example_ops : list DiffOp :=
  [Copy (mkBasisRef 0 700); Copy (mkBasisRef 700 700); Copy (mkBasisRef 1400 700); Literal [1; 2];
   Copy (mkBasisRef 70000 700); Copy (mkBasisRef 0 700)].

Lemma compressed_files_roundtrip_witness :
  exists w bs tss r,
    write_files 700 (CompressedTokenWriter_new (backends stored_backends 9) (@CompZlib stored_backends []))
      [example_ops] = (Ok w, bs) /\
    let ts := concat (map (fun ts => ts ++ [TEndOfFile]) tss) in
    read_tokens (length ts) (CompressedTokenReader_new (backends stored_backends 9) (@DecompZlib stored_backends []))
      (bs ++ [9]) = Ok ((ts, r), [9]) /\
    map items tss = [[IBlock 0; IBlock 1; IBlock 2; IByte 1; IByte 2; IBlock 100; IBlock 0]].
Proof.
  apply (compressed_files_roundtrip (backends stored_backends 9) (@CompZlib stored_backends [])
           (@DecompZlib stored_backends []) 700 [example_ops] [9]).
  - reflexivity.
  - constructor; [|constructor]. cbn [ops_ok example_ops].
    split; [|split; [done|exact I]]. split; [done|]. split; [|vm_compute; congruence].
    assert (E : chunks (Z.to_nat DATA_CHUNK_SIZE) [1; 2] = [[1; 2]]) by (vm_compute; reflexivity).
    rewrite E. constructor; [|constructor].
    split_and!; [vm_compute; congruence|lia| | |vm_compute; congruence];
      intros c d [-> ->]; vm_compute; (split_and!; congruence || lia).
  - constructor; [|constructor]. split; [lia|].
    repeat (constructor; [try exact I; vm_compute; split; congruence|]). constructor.
Defined.

(** The readers on arbitrary bytes: none of them panics or reads without
    end (running out of fuel would be a panic here), data tokens of the plain
    encoding are within the allocation limit, its block indexes are
    non-negative, and the compressed reader never yields empty data. *)
Theorem token_readers_safe (C : Compression) (st : CompressedTokenReader C) (d : decomp C) (i : list Z) :
  no_panic C -> Forall is_byte i ->
  match recv_token i with
  | Ok (TData b, _) => 0 < Z.of_nat (length b) <= MAX_WIRE_ALLOC
  | Ok (TBlockMatch j, _) => 0 <= j < 2 ^ 31
  | Panic => False
  | _ => True
  end /\
  match recv_compressed C st i with
  | Ok ((TData b, _), _) => b <> []
  | Panic => False
  | _ => True
  end /\
  recv_token_compressed C d i <> Panic.
Proof.
  intros HC Hi. split_and!.
  - pose proof (recv_token_safe i Hi) as Hs. destruct (recv_token i) as [[[]]| |]; by try destruct Hs.
  - pose proof (recv_compressed_safe C HC st i Hi) as Hs.
    destruct (recv_compressed C st i) as [[[[] ?] ?]| |]; by try destruct Hs.
  - eapply safe_no_panic; [by apply recv_token_compressed_safe|done].
Qed.

(** A zlib-typed coder that stores: the data, and the flush marker after it. *)
Definition stored_zlib : Compression :=
  mkCompression unit (fun _ => CtZlib) (fun c => Ok c) (fun c data => Ok (data ++ SYNC_FLUSH_TRAILER, c))
    unit (fun _ => CtZlib) (fun d => Ok d) (fun d bs _ => Ok (take (length bs - 4) bs, d)).

Lemma token_readers_safe_witness :
  no_panic stored_zlib /\ recv_token [1; 0; 0] <> Panic /\
  recv_compressed stored_zlib (CompressedTokenReader_new stored_zlib tt) [0x40; 0; 0x40; 2; 7] <> Panic.
Proof.
  assert (HC : no_panic stored_zlib) by (split; intros; discriminate).
  destruct (token_readers_safe stored_zlib (CompressedTokenReader_new stored_zlib tt) tt [1; 0; 0] HC
              ltac:(repeat constructor; unfold is_byte; lia)) as (A & _ & _).
  destruct (token_readers_safe stored_zlib (CompressedTokenReader_new stored_zlib tt) tt [0x40; 0; 0x40; 2; 7] HC
              ltac:(repeat constructor; unfold is_byte; lia)) as (_ & B & _).
  split; [exact HC|]. split.
  - intros E. rewrite E in A. exact A.
  - intros E. rewrite E in B. exact B.
Defined.

(** zlib data that is sent before another literal keeps its flush marker,
    and the reader adds a second one: after two [write_data] calls the frame
    on the wire is the compressor's whole output [out], and what the
    decompressor is given is [out ++ SYNC_FLUSH_TRAILER], bytes the compressor
    never produced. Whatever it makes of them is what the reader reports. *)
Theorem zlib_extra_trailer (C : Compression) (c c0 c1 : comp C) (d d0 : decomp C)
    (data1 data2 out : list Z) (k : list Z) :
  comp_reset C c = Ok c0 -> decomp_reset C d = Ok d0 -> decomp_type C d = CtZlib ->
  data1 <> [] -> Z.of_nat (length data1) <= DATA_CHUNK_SIZE ->
  comp_compress C c0 data1 = Ok (out, c1) -> 0 < Z.of_nat (length out) <= MAX_DATA_COUNT ->
  exists w bs,
    (w ← c_write_data C data1 (CompressedTokenWriter_new C c); c_write_data C data2 w) = (Ok w, bs) /\
    match decomp_decompress C d0 (out ++ SYNC_FLUSH_TRAILER) DATA_CHUNK_SIZE with
    | Ok (data, d') => data <> [] ->
        recv_compressed C (CompressedTokenReader_new C d) (bs ++ k) = Ok ((TData data, mkTokenReader d' 0 0 RIdle), k)
    | Err e => recv_compressed C (CompressedTokenReader_new C d) (bs ++ k) = Err e
    | Panic => recv_compressed C (CompressedTokenReader_new C d) (bs ++ k) = Panic
    end.
Proof.
  intros Hc Hd Ht Hne Hlen Hcomp Hout.
  set (w := set_pending_data C data1 (CompressedTokenWriter_new C c)).
  set (w' := mkTokenWriter C (-2) (-2) 0 true c1 data2).
  exists w', (frame_header (Z.of_nat (length out)) ++ out). split.
  - set (w0 := set_pending_data C data2 w).
    set (w1 := mkTokenWriter C (-2) (-2) 0 false c0 data2).
    assert (H1 : c_write_data C data1 (CompressedTokenWriter_new C c) = (Ok w, [])) by done.
    assert (H2 : start_run C true (-2) w0 = (Ok (set_last_token C (-1) w1), [])).
    { unfold start_run. change (last_token w0 =? -1) with true. change (compressor w0) with c. cbv iota.
      by rewrite Hc. }
    assert (H3 : compress_and_send C data1 false w1 =
                 (Ok (set_compressor C c1 w1), frame_header (Z.of_nat (length out)) ++ out)).
    { unfold compress_and_send. destruct data1 as [|b data1]; [done|].
      rewrite chunks_single by (done || (unfold DATA_CHUNK_SIZE in *; lia)). change (compressor w1) with c0.
      cbn [compress_chunks]. rewrite andb_false_r, Hcomp. unfold wr_lift, mbind, wr_bind.
      rewrite write_frame_bytes by done. cbn. by rewrite !app_nil_r. }
    rewrite H1. unfold mbind, wr_bind. unfold c_write_data. change (trait_pending_data w) with data1.
    rewrite bool_decide_false by done. fold w0. unfold send_token. rewrite bool_decide_false by done. cbn [negb orb].
    rewrite H2. unfold mbind, wr_bind. change (negb (-2 =? -2)) with false.
    change (set_last_token C (-2) (set_last_token C (-1) w1)) with w1. rewrite H3.
    cbn. by rewrite !app_nil_r.
  - assert (E : forall i, recv_compressed C (CompressedTokenReader_new C d) i =
                recv_loop C CtZlib (S (length i)) (mkTokenReader d0 0 0 RIdle) i).
    { intros i. unfold recv_compressed, CompressedTokenReader_new. cbn [decompressor]. rewrite Ht.
      replace (length i + 2)%nat with (S (S (length i))) by lia. generalize (S (length i)). intros f.
      cbn [recv_loop rstate decompressor rx_run]. by rewrite Hd. }
    rewrite !E. clear E.
    rewrite recv_frame_step by done. unfold maybe_append_trailer. rewrite bool_decide_true by done.
    unfold mbind, rd_bind, rd_lift. destruct (decomp_decompress C d0 _ _) as [[data d']| |]; [|done..].
    intros Hd'. by rewrite bool_decide_false.
Qed.

Lemma zlib_extra_trailer_witness :
  exists w bs,
    (w ← c_write_data stored_zlib [7; 8] (CompressedTokenWriter_new stored_zlib tt);
     c_write_data stored_zlib [9] w) = (Ok w, bs) /\
    recv_compressed stored_zlib (CompressedTokenReader_new stored_zlib tt) (bs ++ []) =
      Ok ((TData [7; 8; 0; 0; 255; 255], @mkTokenReader stored_zlib tt 0 0 RIdle), []).
Proof.
  destruct (zlib_extra_trailer stored_zlib tt tt tt tt tt [7; 8] [9] [7; 8; 0; 0; 255; 255] [])
    as (w & bs & Hw & Hr); try reflexivity; try discriminate; [vm_compute; split; congruence|].
  exists w, bs. split; [exact Hw|]. apply Hr. discriminate.
Defined.
