(* ===== verification/Acl.v ===== *)
(** POSIX ACLs ([ferrosync-codec/src/acl.rs]): the kernel's binary format and
    the wire encoding with its deduplication lists, and extended attributes
    ([ferrosync-codec/src/xattr.rs]), which are deduplicated the same way. *)
From S2P Require Import Prelude Wire Types Varint.

(** ** Kernel format *)

Definition POSIX_ACL_XATTR_VERSION : Z := 2.
Definition ACL_USER_OBJ : Z := 0x01.
Definition ACL_USER : Z := 0x02.
Definition ACL_GROUP_OBJ : Z := 0x04.
Definition ACL_GROUP : Z := 0x08.
Definition ACL_MASK : Z := 0x10.
Definition ACL_OTHER : Z := 0x20.
Definition ACL_UNDEFINED_ID : Z := 0xFFFFFFFF.

Definition set_user_obj (p : Z) (e : PosixAclEntries) : PosixAclEntries :=
  mkPosixAclEntries (Some p) (group_obj e) (mask e) (other e) (named e).
Definition set_group_obj (p : Z) (e : PosixAclEntries) : PosixAclEntries :=
  mkPosixAclEntries (user_obj e) (Some p) (mask e) (other e) (named e).
Definition set_mask (p : Z) (e : PosixAclEntries) : PosixAclEntries :=
  mkPosixAclEntries (user_obj e) (group_obj e) (Some p) (other e) (named e).
Definition set_other (p : Z) (e : PosixAclEntries) : PosixAclEntries :=
  mkPosixAclEntries (user_obj e) (group_obj e) (mask e) (Some p) (named e).
Definition push_named (a : PosixAce) (e : PosixAclEntries) : PosixAclEntries :=
  mkPosixAclEntries (user_obj e) (group_obj e) (mask e) (other e) (named e ++ [a]).

Definition hex_digit (d : Z) : string :=
  String (Ascii.ascii_of_nat (Z.to_nat (if d <? 10 then 48 + d else 87 + d))) EmptyString.

(** [{tag:04x}] of a [u16]. *)
Definition hex4 (t : Z) : string :=
  hex_digit (t / 4096 mod 16) +:+ hex_digit (t / 256 mod 16) +:+ hex_digit (t / 16 mod 16) +:+ hex_digit (t mod 16).

(** One [chunks_exact(8)] item. *)
Definition parse_entry (chunk : list Z) (entries : PosixAclEntries) : result PosixAclEntries :=
  let tag := le_val (take 2 chunk) in
  let perm := le_val (take 2 (drop 2 chunk)) in
  let id := le_val (take 4 (drop 4 chunk)) in
  if tag =? ACL_USER_OBJ then Ok (set_user_obj perm entries)
  else if tag =? ACL_USER then Ok (push_named (mkPosixAce User id None perm) entries)
  else if tag =? ACL_GROUP_OBJ then Ok (set_group_obj perm entries)
  else if tag =? ACL_GROUP then Ok (push_named (mkPosixAce Group id None perm) entries)
  else if tag =? ACL_MASK then Ok (set_mask perm entries)
  else if tag =? ACL_OTHER then Ok (set_other perm entries)
  else Err (Handshake ("unknown ACL entry tag: 0x" +:+ hex4 tag)).

Fixpoint parse_entries (cs : list (list Z)) (entries : PosixAclEntries) : result PosixAclEntries :=
  match cs with
  | [] => Ok entries
  | chunk :: cs' => entries ← parse_entry chunk entries; parse_entries cs' entries
  end.

Definition parse_posix_acl_binary (data : list Z) : result PosixAclEntries :=
  if (length data <? 4)%nat then Err (Handshake "ACL xattr too short for version header")
  else
    let version := le_val (take 4 data) in
    if negb (version =? POSIX_ACL_XATTR_VERSION) then
      Err (Handshake ("unsupported POSIX ACL xattr version: " +:+ pretty version +:+ ", expected "
                      +:+ pretty POSIX_ACL_XATTR_VERSION))
    else
      let entry_data := drop 4 data in
      if negb (length entry_data mod 8 =? 0)%nat then Err (Handshake "ACL xattr entry data not aligned to 8 bytes")
      else parse_entries (chunks 8 entry_data) PosixAclEntries_default.

(** The closure [push_entry]. *)
Definition push_entry (tag perm id : Z) : list Z := le_bytes 2 tag ++ le_bytes 2 (as_u16 perm) ++ le_bytes 4 id.

Definition push_obj (tag : Z) (o : option Z) : list Z :=
  match o with Some perm => push_entry tag perm ACL_UNDEFINED_ID | None => [] end.

Definition push_kind (kind : AceKind) (tag : Z) (named : list PosixAce) : list Z :=
  concat (map (fun ace => if bool_decide (ace_kind ace = kind) then push_entry tag (ace_access ace) (ace_id ace)
                          else []) named).

Definition serialize_posix_acl_binary (acl : PosixAclEntries) : list Z :=
  le_bytes 4 POSIX_ACL_XATTR_VERSION
  ++ push_obj ACL_USER_OBJ (user_obj acl)
  ++ push_kind User ACL_USER (named acl)
  ++ push_obj ACL_GROUP_OBJ (group_obj acl)
  ++ push_kind Group ACL_GROUP (named acl)
  ++ push_obj ACL_MASK (mask acl)
  ++ push_obj ACL_OTHER (other acl).

(** ** Wire format *)

Definition XMIT_USER_OBJ : Z := 0x01.
Definition XMIT_GROUP_OBJ : Z := 0x02.
Definition XMIT_MASK_OBJ : Z := 0x04.
Definition XMIT_OTHER_OBJ : Z := 0x08.
Definition XMIT_NAME_LIST : Z := 0x10.
Definition XFLAG_NAME_FOLLOWS : Z := 0x01.
Definition XFLAG_NAME_IS_USER : Z := 0x02.

Record AclEncoder := mkAclEncoder { ae_access_list : list PosixAclEntries; ae_default_list : list PosixAclEntries }.
Record AclDecoder := mkAclDecoder { ad_access_list : list PosixAclEntries; ad_default_list : list PosixAclEntries }.
Definition AclEncoder_new : AclEncoder := mkAclEncoder [] [].
Definition AclDecoder_new : AclDecoder := mkAclDecoder [] [].

(** [iter().position(|prev| prev == x)] *)
Fixpoint position {A} `{EqDecision A} (x : A) (l : list A) : option nat :=
  match l with
  | [] => None
  | y :: l' => if decide (y = x) then Some O else S <$> position x l'
  end.

Definition is_some {A} (o : option A) : bool := match o with Some _ => true | None => false end.
Definition is_some_flag {A} (o : option A) (bit : Z) : Z := match o with Some _ => bit | None => 0 end.

Definition acl_flags (acl : PosixAclEntries) : Z :=
  Z.lor (Z.lor (Z.lor (Z.lor (is_some_flag (user_obj acl) XMIT_USER_OBJ)
                             (is_some_flag (group_obj acl) XMIT_GROUP_OBJ))
                      (is_some_flag (mask acl) XMIT_MASK_OBJ))
               (is_some_flag (other acl) XMIT_OTHER_OBJ))
        (match named acl with [] => 0 | _ => XMIT_NAME_LIST end).

Definition write_perm (o : option Z) : wr unit :=
  match o with Some perm => write_varint perm | None => mret tt end.

(** [ace.access << 2] is a [u32]: the two top bits are lost. *)
Definition ace_access_and_flags (ace : PosixAce) : Z :=
  let a := as_u32 (ace_access ace ≪ 2) in
  let a := Z.lor a (is_some_flag (ace_name ace) XFLAG_NAME_FOLLOWS) in
  if bool_decide (ace_kind ace = User) then Z.lor a XFLAG_NAME_IS_USER else a.

Definition write_ace (ace : PosixAce) : wr unit :=
  _ ← write_varint (ace_id ace);
  _ ← write_varint (ace_access_and_flags ace);
  match ace_name ace with
  | Some name => _ ← write_varint (as_u32 (Z.of_nat (length name))); write_all name
  | None => mret tt
  end.

Definition encode_one_acl (acl : PosixAclEntries) (dedup_list : list PosixAclEntries)
    : wr (list PosixAclEntries) :=
  match position acl dedup_list with
  | Some idx => _ ← write_varint (as_u32 (Z.of_nat idx + 1)); mret dedup_list
  | None =>
      _ ← write_varint 0;
      _ ← write_all [acl_flags acl];
      _ ← write_perm (user_obj acl);
      _ ← write_perm (group_obj acl);
      _ ← write_perm (mask acl);
      _ ← write_perm (other acl);
      _ ← (match named acl with
           | [] => mret tt
           | _ => _ ← write_varint (as_u32 (Z.of_nat (length (named acl)))); wr_each write_ace (named acl)
           end);
      mret (dedup_list ++ [acl])
  end.

Definition read_perm (flags bit : Z) : rd (option Z) :=
  if has_bits flags bit then perm ← read_varint; mret (Some perm) else mret None.

Definition read_ace : rd PosixAce :=
  id ← read_varint;
  access_and_flags ← read_varint;
  let has_name := has_bits access_and_flags XFLAG_NAME_FOLLOWS in
  let kind := if has_bits access_and_flags XFLAG_NAME_IS_USER then User else Group in
  name ← (if has_name then name_len ← read_varint; buf ← read_exact name_len; mret (Some buf) else mret None);
  mret (mkPosixAce kind id name (access_and_flags ≫ 2)).

Definition acl_index_error (ndx : Z) (n : nat) : ProtocolError :=
  Handshake ("ACL dedup index " +:+ pretty ndx +:+ " out of range (list has " +:+ pretty n +:+ " entries)").

Definition decode_one_acl (dedup_list : list PosixAclEntries)
    : rd (PosixAclEntries * list PosixAclEntries) :=
  ndx ← read_varint;
  if 0 <? ndx then
    match dedup_list !! Z.to_nat (ndx - 1) with
    | Some acl => mret (acl, dedup_list)
    | None => rd_err (acl_index_error ndx (length dedup_list))
    end
  else
    buf ← read_exact 1;
    let flags := buf !!! O in
    user_obj ← read_perm flags XMIT_USER_OBJ;
    group_obj ← read_perm flags XMIT_GROUP_OBJ;
    mask ← read_perm flags XMIT_MASK_OBJ;
    other ← read_perm flags XMIT_OTHER_OBJ;
    named ← (if has_bits flags XMIT_NAME_LIST then
               count ← read_varint; rd_repeat (Z.to_nat count) read_ace
             else mret []);
    let acl := mkPosixAclEntries user_obj group_obj mask other named in
    mret (acl, dedup_list ++ [acl]).

Definition mode_is_dir (mode : Z) : bool := Z.land mode S_IFMT =? S_IFDIR.

Definition acl_parts (acl : option Acl) : PosixAclEntries * PosixAclEntries :=
  match acl with
  | Some (Posix posix) =>
      (access posix, match default posix with Some d => d | None => PosixAclEntries_default end)
  | None => (PosixAclEntries_default, PosixAclEntries_default)
  end.

Definition encode_acl (acl : option Acl) (mode : Z) (encoder : AclEncoder) : wr AclEncoder :=
  let '(access, default_acl) := acl_parts acl in
  access_list ← encode_one_acl access (ae_access_list encoder);
  default_list ← (if mode_is_dir mode then encode_one_acl default_acl (ae_default_list encoder)
                  else mret (ae_default_list encoder));
  mret (mkAclEncoder access_list default_list).

Definition decode_acl (mode : Z) (decoder : AclDecoder) : rd (option Acl * AclDecoder) :=
  p ← decode_one_acl (ad_access_list decoder);
  let '(access, access_list) := (p : PosixAclEntries * list PosixAclEntries) in
  q ← (if mode_is_dir mode then
         d ← decode_one_acl (ad_default_list decoder);
         mret ((if decide (d.1 = PosixAclEntries_default) then None else Some d.1), d.2)
       else mret (None, ad_default_list decoder));
  let '(default, default_list) := (q : option PosixAclEntries * list PosixAclEntries) in
  let decoder := mkAclDecoder access_list default_list in
  if bool_decide (access = PosixAclEntries_default) && bool_decide (default = None)
  then mret (None, decoder)
  else mret (Some (Posix (mkPosixAcl access default)), decoder).

(** ** Extended attributes *)

Abbreviation XattrEncoder := (list ExtendedAttributes).
Abbreviation XattrDecoder := (list ExtendedAttributes).

Definition write_xattr (e : XattrEntry) : wr unit :=
  _ ← write_varint (as_u32 (Z.of_nat (length (xattr_name e))));
  _ ← write_varint (as_u32 (Z.of_nat (length (xattr_value e))));
  _ ← write_all (xattr_name e);
  write_all (xattr_value e).

Definition encode_xattrs (xattrs : option ExtendedAttributes) (seen : XattrEncoder) : wr XattrEncoder :=
  let xa := match xattrs with Some xa => xa | None => ExtendedAttributes_default end in
  match position xa seen with
  | Some idx => _ ← write_varint (as_u32 (Z.of_nat idx + 1)); mret seen
  | None =>
      _ ← write_varint 0;
      _ ← write_varint (as_u32 (Z.of_nat (length (xattr_entries xa))));
      _ ← wr_each write_xattr (xattr_entries xa);
      mret (seen ++ [xa])
  end.

Definition read_xattr : rd XattrEntry :=
  name_len ← read_varint;
  datum_len ← read_varint;
  name ← read_exact name_len;
  value ← read_exact datum_len;
  mret (mkXattrEntry name value).

Definition some_if_any (xa : ExtendedAttributes) : option ExtendedAttributes :=
  match xattr_entries xa with [] => None | _ => Some xa end.

Definition decode_xattrs (seen : XattrDecoder) : rd (option ExtendedAttributes * XattrDecoder) :=
  ndx_plus_one ← read_varint;
  if negb (ndx_plus_one =? 0) then
    match seen !! Z.to_nat (ndx_plus_one - 1) with
    | Some xa => mret (some_if_any xa, seen)
    | None =>
        rd_err (Handshake ("xattr dedup index " +:+ pretty ndx_plus_one +:+ " out of range (list has "
                           +:+ pretty (length seen) +:+ " entries)"))
    end
  else
    count ← read_varint;
    entries ← rd_repeat (Z.to_nat count) read_xattr;
    let xa := mkExtendedAttributes entries in
    mret (some_if_any xa, seen ++ [xa]).

(** ** Lemmas *)

Lemma position_Some {A} `{EqDecision A} (x : A) l i :
  position x l = Some i -> l !! i = Some x /\ (i < length l)%nat.
Proof.
  revert i. induction l as [|y l IH]; intros i; cbn [position]; [done|].
  destruct (decide (y = x)) as [->|].
  - intros [= <-]. cbn. split; [done|lia].
  - destruct (position x l) as [j|]; [|done]. intros [= <-]. destruct (IH j eq_refl). cbn. split; [done|lia].
Qed.

Lemma has_bits_mod4 v m : m = 1 \/ m = 2 -> has_bits v m = has_bits (v mod 4) m.
Proof.
  intros Hm. unfold has_bits. change 4 with (2 ^ 2). rewrite <- Z.land_ones by lia. rewrite <- Z.land_assoc.
  by destruct Hm as [-> | ->].
Qed.

Definition ace_ok (ace : PosixAce) : Prop :=
  in_u32 (ace_id ace) /\ 0 <= ace_access ace < 2 ^ 30 /\
  match ace_name ace with Some name => Z.of_nat (length name) < 2 ^ 32 | None => True end.

Definition perm_ok (o : option Z) : Prop := match o with Some p => in_u32 p | None => True end.

(** ACLs the wire format can carry. *)
Definition acl_ok (acl : PosixAclEntries) : Prop :=
  perm_ok (user_obj acl) /\ perm_ok (group_obj acl) /\ perm_ok (mask acl) /\ perm_ok (other acl) /\
  Z.of_nat (length (named acl)) < 2 ^ 32 /\ Forall ace_ok (named acl).

Lemma ace_flags_spec ace : ace_ok ace ->
  ace_access_and_flags ace =
    4 * ace_access ace + (is_some_flag (ace_name ace) 1 + if bool_decide (ace_kind ace = User) then 2 else 0).
Proof.
  intros (_ & Ha & _). unfold ace_access_and_flags. rewrite Z.shiftl_mul_pow2, wrap_id by lia.
  assert (H : Z.lor (ace_access ace * 2 ^ 2) (is_some_flag (ace_name ace) XFLAG_NAME_FOLLOWS)
              = ace_access ace * 2 ^ 2 + is_some_flag (ace_name ace) XFLAG_NAME_FOLLOWS).
  { apply (lor_disjoint _ _ 2 (ace_access ace)); [lia|done|]. by destruct (ace_name ace). }
  destruct (bool_decide (ace_kind ace = User)); [|rewrite H; unfold XFLAG_NAME_FOLLOWS; cbv iota; lia].
  rewrite <- Z.lor_assoc. rewrite (lor_disjoint _ _ 2 (ace_access ace)); [|lia|done|by destruct (ace_name ace)].
  destruct (ace_name ace); cbn [is_some_flag];
    [change (Z.lor XFLAG_NAME_FOLLOWS XFLAG_NAME_IS_USER) with 3|change (Z.lor 0 XFLAG_NAME_IS_USER) with 2]; lia.
Qed.

Lemma ace_flags_bits a f : 0 <= f < 4 -> (4 * a + f) ≫ 2 = a /\ (4 * a + f) mod 4 = f.
Proof. intros Hf. rewrite Z.shiftr_div_pow2 by lia. change (2 ^ 2) with 4. zlia. Qed.

Lemma write_len_mirrors (n : nat) : Z.of_nat n < 2 ^ 32 ->
  mirrors (write_varint (as_u32 (Z.of_nat n))) read_varint (fun _ y => y = Z.of_nat n).
Proof. intros Hn. rewrite wrap_id by lia. apply write_varint_mirrors. lia. Qed.

(** A length-prefixed byte string. *)
Lemma write_bytes_mirrors (bs : list Z) :
  mirrors (write_all bs) (read_exact (Z.of_nat (length bs))) (fun _ b => b = bs).
Proof. by apply mirrors_write_exact. Qed.

Lemma write_ace_mirrors ace : ace_ok ace -> mirrors (write_ace ace) read_ace (fun _ a => a = ace).
Proof.
  intros Hok. pose proof Hok as (Hid & Hacc & Hname). unfold write_ace, read_ace.
  eapply mirrors_bind; [by apply write_varint_mirrors|]. intros _ id ->.
  rewrite (ace_flags_spec ace Hok). set (f := is_some_flag (ace_name ace) 1 + _).
  assert (Hf : 0 <= f < 4) by (subst f; destruct (ace_name ace), (bool_decide _); cbn; lia).
  destruct (ace_flags_bits (ace_access ace) f Hf) as [Es Em].
  destruct ace as [kind id name acc]. cbn [ace_kind ace_id ace_name ace_access] in *.
  eapply mirrors_bind; [apply write_varint_mirrors; lia|]. intros _ v ->. cbv zeta.
  rewrite (has_bits_mod4 _ XFLAG_NAME_FOLLOWS), (has_bits_mod4 _ XFLAG_NAME_IS_USER), Em, Es by auto.
  assert (E1 : has_bits f XFLAG_NAME_FOLLOWS = is_some name) by (subst f; by destruct name, kind).
  assert (E2 : (if has_bits f XFLAG_NAME_IS_USER then User else Group) = kind) by (subst f; by destruct name, kind).
  rewrite E1, E2. apply (mirrors_map _ _ (fun n => mkPosixAce kind id n acc)). destruct name as [name|].
  - eapply mirrors_bind; [by apply write_len_mirrors|]. intros _ n ->.
    apply (mirrors_map _ _ Some). eapply mirrors_mono; [apply write_bytes_mirrors|]. by intros _ ? ->.
  - by apply mirrors_ret.
Qed.

Lemma acl_flags_bits acl :
  is_byte (acl_flags acl) /\
  has_bits (acl_flags acl) XMIT_USER_OBJ = is_some (user_obj acl) /\
  has_bits (acl_flags acl) XMIT_GROUP_OBJ = is_some (group_obj acl) /\
  has_bits (acl_flags acl) XMIT_MASK_OBJ = is_some (mask acl) /\
  has_bits (acl_flags acl) XMIT_OTHER_OBJ = is_some (other acl) /\
  has_bits (acl_flags acl) XMIT_NAME_LIST = negb (bool_decide (named acl = [])).
Proof.
  destruct acl as [[] [] [] [] []]; unfold acl_flags, is_byte; cbn [user_obj group_obj mask other named is_some_flag];
    vm_compute; intuition congruence.
Qed.

Lemma Forall2_same {A} (l l' : list A) : Forall2 (fun a b => b = a) l l' -> l' = l.
Proof. induction 1 as [|a b l l' -> _ IH]; [done|]. by rewrite IH. Qed.

Lemma write_perm_mirrors o flags bit :
  perm_ok o -> has_bits flags bit = is_some o ->
  mirrors (write_perm o) (read_perm flags bit) (fun _ o' => o' = o).
Proof.
  intros Ho Hb. unfold write_perm, read_perm. rewrite Hb. destruct o as [p|]; [|by apply mirrors_ret].
  apply (mirrors_map _ _ Some). eapply mirrors_mono; [by apply write_varint_mirrors|]. by intros _ ? ->.
Qed.

Lemma encode_one_mirrors acl l :
  acl_ok acl -> Z.of_nat (length l) < 2 ^ 32 - 1 ->
  mirrors (encode_one_acl acl l) (decode_one_acl l)
    (fun l' p => p = (acl, l') /\ (length l' <= S (length l))%nat).
Proof.
  intros (Hu & Hg & Hm & Ho & Hnl & Hn) Hl. unfold encode_one_acl, decode_one_acl.
  destruct (position acl l) as [idx|] eqn:E.
  - apply position_Some in E as [E Hlt]. rewrite wrap_id by lia.
    eapply mirrors_bind; [apply write_varint_mirrors; lia|]. intros _ n ->.
    destruct (Z.ltb_spec 0 (Z.of_nat idx + 1)); [|lia].
    replace (Z.to_nat (Z.of_nat idx + 1 - 1)) with idx by lia. rewrite E. apply mirrors_ret. auto.
  - eapply mirrors_bind; [apply write_varint_mirrors; lia|]. intros _ n ->. cbn [Z.ltb Z.compare].
    destruct (acl_flags_bits acl) as (Hb & F1 & F2 & F3 & F4 & F5).
    eapply mirrors_bind; [by apply (mirrors_write_exact 1)|]. intros _ buf ->. cbv zeta. look.
    eapply mirrors_bind; [by apply write_perm_mirrors|]. intros _ ? ->.
    eapply mirrors_bind; [by apply write_perm_mirrors|]. intros _ ? ->.
    eapply mirrors_bind; [by apply write_perm_mirrors|]. intros _ ? ->.
    eapply mirrors_bind; [by apply write_perm_mirrors|]. intros _ ? ->.
    eapply (mirrors_bind _ _ _ _ (fun _ ns => ns = named acl)).
    + rewrite F5. destruct (named acl) as [|a ns] eqn:En; [by apply mirrors_ret|].
      eapply mirrors_bind; [by apply write_len_mirrors|]. intros _ c ->. rewrite Nat2Z.id.
      eapply mirrors_mono; [apply (mirrors_each write_ace read_ace (fun a b => b = a))|].
      * intros ace Hin. rewrite Forall_forall in Hn. by apply write_ace_mirrors, Hn.
      * intros [] bs Hbs. by apply Forall2_same in Hbs.
    + intros _ ? ->. apply mirrors_ret. rewrite length_app. cbn [length]. split; [by destruct acl|lia].
Qed.

Definition acl_field_ok (acl : option Acl) : Prop :=
  acl_ok (acl_parts acl).1 /\ acl_ok (acl_parts acl).2.

(** What of a file's ACL reaches the other side: a default ACL only for a
    directory, and an ACL without entries is no ACL. *)
Definition canonical_acl (mode : Z) (acl : option Acl) : option Acl :=
  let '(access, d) := acl_parts acl in
  let default := if mode_is_dir mode then if decide (d = PosixAclEntries_default) then None else Some d else None in
  if bool_decide (access = PosixAclEntries_default) && bool_decide (default = None)
  then None else Some (Posix (mkPosixAcl access default)).

(** The two sides have seen the same ACLs. *)
Definition acl_in_step (n : nat) (e : AclEncoder) (d : AclDecoder) : Prop :=
  ad_access_list d = ae_access_list e /\ ad_default_list d = ae_default_list e /\
  (length (ae_access_list e) <= n)%nat /\ (length (ae_default_list e) <= n)%nat.

Lemma encode_acl_mirrors acl mode n e d :
  acl_field_ok acl -> acl_in_step n e d -> Z.of_nat n < 2 ^ 32 - 1 ->
  mirrors (encode_acl acl mode e) (decode_acl mode d)
    (fun e' p => p.1 = canonical_acl mode acl /\ acl_in_step (S n) e' p.2).
Proof.
  intros (Ha & Hd) (Ea & Ed & La & Ld) Hn. unfold encode_acl, decode_acl, canonical_acl.
  destruct (acl_parts acl) as [access dflt]. cbn [fst snd] in Ha, Hd. rewrite Ea.
  eapply mirrors_bind; [apply encode_one_mirrors; [done|lia]|]. intros al ? [-> Hal].
  eapply (mirrors_bind _ _ _ _ (fun dl q => q = (if mode_is_dir mode then
      if decide (dflt = PosixAclEntries_default) then None else Some dflt else None, dl) /\ (length dl <= S n)%nat)).
  - destruct (mode_is_dir mode).
    + rewrite Ed. apply (mirrors_map _ _ (fun d : PosixAclEntries * _ =>
        (if decide (d.1 = PosixAclEntries_default) then None else Some d.1, d.2))).
      eapply mirrors_mono; [apply encode_one_mirrors; [done|lia]|]. intros dl ? [-> Hdl]. cbn [fst snd].
      split; [done|lia].
    + apply mirrors_ret. rewrite Ed. split; [done|lia].
  - intros dl ? [-> Hdl]. destruct (_ && _); apply mirrors_ret; cbn [fst snd]; repeat split; cbn; lia.
Qed.

Definition xattr_entry_ok (e : XattrEntry) : Prop :=
  Z.of_nat (length (xattr_name e)) < 2 ^ 32 /\ Z.of_nat (length (xattr_value e)) < 2 ^ 32.
Definition xattr_field_ok (x : option ExtendedAttributes) : Prop :=
  match x with
  | Some xa => Z.of_nat (length (xattr_entries xa)) < 2 ^ 32 /\ Forall xattr_entry_ok (xattr_entries xa)
  | None => True
  end.

(** A set without entries is no set. *)
Definition canonical_xattrs (x : option ExtendedAttributes) : option ExtendedAttributes := x ≫= some_if_any.

Definition xattr_in_step (n : nat) (e : XattrEncoder) (d : XattrDecoder) : Prop := d = e /\ (length e <= n)%nat.

Lemma write_xattr_mirrors x : xattr_entry_ok x -> mirrors (write_xattr x) read_xattr (fun _ y => y = x).
Proof.
  intros [Hn Hv]. unfold write_xattr, read_xattr.
  eapply mirrors_bind; [by apply write_len_mirrors|]. intros _ ? ->.
  eapply mirrors_bind; [by apply write_len_mirrors|]. intros _ ? ->.
  eapply mirrors_bind; [apply write_bytes_mirrors|]. intros _ ? ->.
  apply (mirrors_map _ _ (mkXattrEntry (xattr_name x))). eapply mirrors_mono; [apply write_bytes_mirrors|].
  intros _ ? ->. by destruct x.
Qed.

Lemma encode_xattrs_mirrors x n e d :
  xattr_field_ok x -> xattr_in_step n e d -> Z.of_nat n < 2 ^ 32 - 1 ->
  mirrors (encode_xattrs x e) (decode_xattrs d)
    (fun e' p => p.1 = canonical_xattrs x /\ xattr_in_step (S n) e' p.2).
Proof.
  intros Hx [-> Hl] Hn. unfold encode_xattrs, decode_xattrs.
  set (xa := match x with Some xa => xa | None => _ end).
  assert (Hc : canonical_xattrs x = some_if_any xa) by (by destruct x).
  assert (Hxa : Z.of_nat (length (xattr_entries xa)) < 2 ^ 32 /\ Forall xattr_entry_ok (xattr_entries xa)).
  { destruct x; [done|]. split; [done|constructor]. }
  destruct Hxa as [Hlen Hok]. destruct (position xa e) as [idx|] eqn:E.
  - apply position_Some in E as [E Hlt]. rewrite wrap_id by lia.
    eapply mirrors_bind; [apply write_varint_mirrors; lia|]. intros _ ? ->.
    destruct (Z.eqb_spec (Z.of_nat idx + 1) 0); [lia|]. cbn [negb].
    replace (Z.to_nat (Z.of_nat idx + 1 - 1)) with idx by lia. rewrite E. apply mirrors_ret.
    split; [done|]. split; [done|]. lia.
  - eapply mirrors_bind; [apply write_varint_mirrors; lia|]. intros _ ? ->. cbn [Z.eqb negb].
    eapply mirrors_bind; [by apply write_len_mirrors|]. intros _ ? ->. rewrite Nat2Z.id.
    eapply mirrors_bind; [apply (mirrors_each write_xattr read_xattr (fun a b => b = a))|].
    + intros y Hin. rewrite Forall_forall in Hok. by apply write_xattr_mirrors, Hok.
    + intros [] bs Hbs. apply Forall2_same in Hbs as ->. apply mirrors_ret. cbn [fst snd].
      assert (E2 : mkExtendedAttributes (xattr_entries xa) = xa) by (by destruct xa). rewrite E2.
      split; [done|]. split; [done|]. rewrite length_app. cbn. lia.
Qed.

(** ** Arbitrary input *)

Lemma read_perm_safe flags bit : safe (read_perm flags bit) perm_ok.
Proof.
  unfold read_perm. apply safe_if; intros _; [|by apply safe_ret].
  eapply safe_bind; [apply read_varint_safe|]. intros p Hp. by apply safe_ret.
Qed.

Lemma read_ace_safe : safe read_ace (fun _ => True).
Proof.
  eapply safe_bind; [apply read_varint_safe|]. intros id _.
  eapply safe_bind; [apply read_varint_safe|]. intros v _. cbv zeta.
  eapply (safe_bind _ _ (fun _ => True)); [|intros; by apply safe_ret].
  apply safe_if; intros _; [|by apply safe_ret].
  eapply safe_bind; [apply read_varint_safe|]. intros n Hn. cbv beta in Hn.
  eapply safe_bind; [apply safe_read_exact; lia|]. intros. by apply safe_ret.
Qed.

Lemma decode_one_acl_safe l : safe (decode_one_acl l) (fun _ => True).
Proof.
  unfold decode_one_acl. eapply safe_bind; [apply read_varint_safe|]. intros ndx _.
  apply safe_if; intros _.
  { destruct (l !! _); [by apply safe_ret|apply safe_err]. }
  eapply safe_bind; [apply safe_read_exact; lia|]. intros buf _. cbv zeta.
  do 4 (eapply safe_bind; [apply read_perm_safe|]; intros ? _).
  eapply (safe_bind _ _ (fun _ => True)); [|intros; by apply safe_ret].
  apply safe_if; intros _; [|by apply safe_ret].
  eapply safe_bind; [apply read_varint_safe|]. intros c _.
  eapply safe_mono; [apply safe_repeat, read_ace_safe|]. done.
Qed.

Lemma decode_acl_safe mode d : safe (decode_acl mode d) (fun _ => True).
Proof.
  unfold decode_acl. eapply safe_bind; [apply decode_one_acl_safe|]. intros [a al] _.
  eapply (safe_bind _ _ (fun _ => True)).
  - apply safe_if; intros _; [|by apply safe_ret].
    eapply safe_bind; [apply decode_one_acl_safe|]. intros. by apply safe_ret.
  - intros [dflt dl] _. apply safe_if; intros _; by apply safe_ret.
Qed.

Lemma decode_xattrs_safe seen : safe (decode_xattrs seen) (fun _ => True).
Proof.
  unfold decode_xattrs. eapply safe_bind; [apply read_varint_safe|]. intros ndx _.
  apply safe_if; intros _.
  { destruct (seen !! _); [by apply safe_ret|apply safe_err]. }
  eapply safe_bind; [apply read_varint_safe|]. intros c _.
  eapply safe_bind; [apply (safe_repeat read_xattr (fun _ => True))|intros; by apply safe_ret].
  eapply safe_bind; [apply read_varint_safe|]. intros n Hn. cbv beta in Hn.
  eapply safe_bind; [apply read_varint_safe|]. intros m Hm. cbv beta in Hm.
  eapply safe_bind; [apply safe_read_exact; lia|]. intros name _.
  eapply safe_bind; [apply safe_read_exact; lia|]. intros value _. by apply safe_ret.
Qed.

Lemma decode_one_acl_takes l : takes 0 (decode_one_acl l).
Proof. unfold decode_one_acl, read_perm, read_ace. solve_takes. apply takes_repeat. solve_takes. Qed.
#[export] Hint Resolve decode_one_acl_takes : takes.
Lemma decode_acl_takes mode d : takes 0 (decode_acl mode d).
Proof. unfold decode_acl. solve_takes. Qed.
Lemma decode_xattrs_takes seen : takes 0 (decode_xattrs seen).
Proof.
  unfold decode_xattrs. assert (takes 0 read_xattr) by (unfold read_xattr; solve_takes). solve_takes.
Qed.
#[export] Hint Resolve decode_acl_takes decode_xattrs_takes : takes.

(** ** The kernel format *)

Lemma chunks_concat {A} (n : nat) (cs : list (list A)) :
  (0 < n)%nat -> Forall (fun c => length c = n) cs -> chunks n (concat cs) = cs.
Proof.
  intros Hn Hcs. induction Hcs as [|c cs Hc Hcs IH]; [done|]. cbn [concat].
  rewrite chunks_unfold; [|done|by destruct c; [simpl in Hc; lia|]].
  by rewrite take_app_length', drop_app_length', IH.
Qed.

Lemma length_push_entry tag perm id : length (push_entry tag perm id) = 8%nat.
Proof. unfold push_entry. by rewrite !length_app, !length_le_bytes. Qed.

Lemma parse_entry_push tag perm id e : 0 <= tag < 2 ^ 16 -> in_u16 perm -> in_u32 id ->
  parse_entry (push_entry tag perm id) e =
  (if tag =? ACL_USER_OBJ then Ok (set_user_obj perm e)
   else if tag =? ACL_USER then Ok (push_named (mkPosixAce User id None perm) e)
   else if tag =? ACL_GROUP_OBJ then Ok (set_group_obj perm e)
   else if tag =? ACL_GROUP then Ok (push_named (mkPosixAce Group id None perm) e)
   else if tag =? ACL_MASK then Ok (set_mask perm e)
   else if tag =? ACL_OTHER then Ok (set_other perm e)
   else Err (Handshake ("unknown ACL entry tag: 0x" +:+ hex4 tag))).
Proof.
  intros Ht Hp Hi. unfold parse_entry, push_entry. rewrite (wrap_id 16 perm) by lia.
  rewrite (take_app_length' (le_bytes 2 tag)) by (by rewrite length_le_bytes).
  rewrite (drop_app_length' (le_bytes 2 tag)) by (by rewrite length_le_bytes).
  rewrite (take_app_length' (le_bytes 2 perm)) by (by rewrite length_le_bytes).
  rewrite (app_assoc (le_bytes 2 tag)).
  rewrite (drop_app_length' (le_bytes 2 tag ++ le_bytes 2 perm)) by (by rewrite length_app, !length_le_bytes).
  rewrite (take_ge (le_bytes 4 id)) by (by rewrite length_le_bytes).
  rewrite !le_val_le_bytes. rewrite !Z.mod_small by (simpl Z.mul; lia). done.
Qed.

Lemma parse_entries_app cs1 cs2 e :
  parse_entries (cs1 ++ cs2) e = (e' ← parse_entries cs1 e; parse_entries cs2 e').
Proof.
  revert e. induction cs1 as [|c cs1 IH]; intros e; [done|]. cbn [app parse_entries].
  unfold mbind, res_bind. destruct (parse_entry c e) as [e'| |]; [apply IH|done..].
Qed.

(** The entries [serialize_posix_acl_binary] writes, as chunks. *)
Definition obj_chunks (tag : Z) (o : option Z) : list (list Z) :=
  match o with Some perm => [push_entry tag perm ACL_UNDEFINED_ID] | None => [] end.
Definition kind_chunks (kind : AceKind) (tag : Z) (named : list PosixAce) : list (list Z) :=
  map (fun ace => push_entry tag (ace_access ace) (ace_id ace)) (filter (fun ace => ace_kind ace = kind) named).

Lemma obj_chunks_length tag o : Forall (fun c => length c = 8%nat) (obj_chunks tag o).
Proof. destruct o; constructor; [apply length_push_entry|constructor]. Qed.

Lemma kind_chunks_length kind tag named : Forall (fun c => length c = 8%nat) (kind_chunks kind tag named).
Proof. unfold kind_chunks. apply Forall_forall. intros c Hc. apply list_elem_of_fmap in Hc as (ace & -> & _). apply length_push_entry. Qed.

Lemma push_obj_chunks tag o : push_obj tag o = concat (obj_chunks tag o).
Proof. destruct o; [|done]. cbn [obj_chunks concat push_obj]. by rewrite app_nil_r. Qed.

Lemma push_kind_chunks kind tag named : push_kind kind tag named = concat (kind_chunks kind tag named).
Proof.
  unfold push_kind, kind_chunks. induction named as [|a named IH]; [done|]. cbn [map concat]. rewrite IH.
  destruct (decide (ace_kind a = kind)).
  - rewrite bool_decide_true by done. by rewrite filter_cons_True.
  - rewrite bool_decide_false by done. by rewrite filter_cons_False.
Qed.

(** The named entries the kernel format keeps: users, then groups, unnamed. *)
Definition unnamed (ace : PosixAce) : PosixAce := mkPosixAce (ace_kind ace) (ace_id ace) None (ace_access ace).
Definition kernel_named (named : list PosixAce) : list PosixAce :=
  map unnamed (filter (fun ace => ace_kind ace = User) named ++ filter (fun ace => ace_kind ace = Group) named).
Definition kernel_acl (acl : PosixAclEntries) : PosixAclEntries :=
  mkPosixAclEntries (user_obj acl) (group_obj acl) (mask acl) (other acl) (kernel_named (named acl)).

Definition kernel_ok (acl : PosixAclEntries) : Prop :=
  let p16 o := match o with Some p => in_u16 p | None => True end in
  p16 (user_obj acl) /\ p16 (group_obj acl) /\ p16 (mask acl) /\ p16 (other acl) /\
  Forall (fun ace => in_u32 (ace_id ace) /\ in_u16 (ace_access ace)) (named acl).

Lemma parse_named kind tag named e :
  (forall perm id e, in_u16 perm -> in_u32 id ->
     parse_entry (push_entry tag perm id) e = Ok (push_named (mkPosixAce kind id None perm) e)) ->
  Forall (fun ace => in_u32 (ace_id ace) /\ in_u16 (ace_access ace)) named ->
  parse_entries (kind_chunks kind tag named) e =
    Ok (mkPosixAclEntries (user_obj e) (group_obj e) (mask e) (other e)
          (Types.named e ++ map unnamed (filter (fun ace => ace_kind ace = kind) named))).
Proof.
  intros Hparse Hn. unfold kind_chunks. revert e. induction Hn as [|a named [Hi Hp] Hn IH]; intros e.
  { cbn. rewrite app_nil_r. by destruct e. }
  destruct (decide (ace_kind a = kind)) as [E|E].
  - rewrite !filter_cons_True by done. cbn [map parse_entries]. rewrite Hparse by done.
    unfold mbind, res_bind. rewrite IH. cbn [Types.named push_named user_obj group_obj mask other].
    rewrite <- app_assoc. unfold unnamed at 2. by rewrite E.
  - rewrite !filter_cons_False by done. apply IH.
Qed.

Lemma parse_obj tag (set : Z -> PosixAclEntries -> PosixAclEntries) o e :
  (forall perm id e, in_u16 perm -> in_u32 id -> parse_entry (push_entry tag perm id) e = Ok (set perm e)) ->
  match o with Some p => in_u16 p | None => True end ->
  parse_entries (obj_chunks tag o) e = Ok (match o with Some p => set p e | None => e end).
Proof.
  intros Hparse Ho. destruct o as [p|]; [|done]. cbn [obj_chunks parse_entries].
  by rewrite Hparse by (done || (unfold ACL_UNDEFINED_ID; lia)).
Qed.

Lemma parse_serialize acl : kernel_ok acl -> parse_posix_acl_binary (serialize_posix_acl_binary acl) = Ok (kernel_acl acl).
Proof.
  intros (Hu & Hg & Hm & Ho & Hn). unfold serialize_posix_acl_binary.
  rewrite !push_obj_chunks, !push_kind_chunks, <- !concat_app.
  set (cs := _ ++ _ ++ _ ++ _ ++ _ ++ _).
  assert (Hcs : Forall (fun c => length c = 8%nat) cs).
  { subst cs. rewrite !Forall_app. split_and!; apply obj_chunks_length || apply kind_chunks_length. }
  unfold parse_posix_acl_binary. rewrite length_app, length_le_bytes.
  destruct (Nat.ltb_spec (4 + length (concat cs)) 4); [lia|].
  rewrite take_app_length', drop_app_length' by (by rewrite length_le_bytes). rewrite le_val_le_bytes.
  change (POSIX_ACL_XATTR_VERSION mod _ =? POSIX_ACL_XATTR_VERSION) with true. cbn [negb].
  assert (Hlen : (length (concat cs) mod 8 = 0)%nat).
  { clear -Hcs. induction Hcs as [|c cs Hc Hcs IH]; [done|]. cbn [concat]. rewrite length_app, Hc.
    rewrite Nat.add_comm. replace (length (concat cs) + 8)%nat with (length (concat cs) + 1 * 8)%nat by lia.
    by rewrite Nat.Div0.mod_add. }
  rewrite Hlen. cbn [Nat.eqb negb]. rewrite chunks_concat by (done || lia). subst cs.
  rewrite parse_entries_app. unfold mbind, res_bind. rewrite (parse_obj ACL_USER_OBJ set_user_obj) by (done || (intros; by rewrite parse_entry_push)); cbv beta iota.
  rewrite parse_entries_app. unfold mbind, res_bind. rewrite (parse_named User ACL_USER) by (done || (intros; by rewrite parse_entry_push)); cbv beta iota.
  rewrite parse_entries_app. unfold mbind, res_bind. rewrite (parse_obj ACL_GROUP_OBJ set_group_obj) by (done || (intros; by rewrite parse_entry_push)); cbv beta iota.
  rewrite parse_entries_app. unfold mbind, res_bind. rewrite (parse_named Group ACL_GROUP) by (done || (intros; by rewrite parse_entry_push)); cbv beta iota.
  rewrite parse_entries_app. unfold mbind, res_bind. rewrite (parse_obj ACL_MASK set_mask) by (done || (intros; by rewrite parse_entry_push)); cbv beta iota.
  rewrite (parse_obj ACL_OTHER set_other) by (done || (intros; by rewrite parse_entry_push)); cbv beta iota.
  unfold kernel_acl, kernel_named. rewrite map_app.
  destruct acl as [[] [] [] [] ns]; reflexivity.
Qed.

Lemma filter_unnamed kind l :
  filter (fun ace => ace_kind ace = kind) (map unnamed l) = map unnamed (filter (fun ace => ace_kind ace = kind) l).
Proof.
  induction l as [|a l IH]; [done|]. cbn [map]. rewrite !filter_cons, IH. cbn [unnamed ace_kind].
  by destruct (decide (ace_kind a = kind)).
Qed.

Lemma filter_kinds kind l :
  filter (fun ace => ace_kind ace = kind)
    (filter (fun ace => ace_kind ace = User) l ++ filter (fun ace => ace_kind ace = Group) l) =
  filter (fun ace => ace_kind ace = kind) l.
Proof.
  assert (H : forall k l, filter (fun ace => ace_kind ace = kind) (filter (fun ace => ace_kind ace = k) l) =
    if decide (k = kind) then filter (fun ace => ace_kind ace = kind) l else []).
  { intros k l'. induction l' as [|a l' IH]; [by case_decide|]. rewrite !filter_cons.
    destruct (decide (ace_kind a = k)) as [Ek|Ek]; rewrite ?filter_cons, IH;
      destruct (decide (k = kind)) as [->|]; destruct (decide (ace_kind a = kind)); congruence. }
  rewrite filter_app, !H. destruct kind; cbn; by rewrite ?app_nil_r.
Qed.

Lemma filter_kernel_named kind l :
  filter (fun ace => ace_kind ace = kind) (kernel_named l) =
  map unnamed (filter (fun ace => ace_kind ace = kind) l).
Proof. unfold kernel_named. by rewrite filter_unnamed, filter_kinds. Qed.

(** ** Properties *)

(** The ACL and extended attributes of one file after the other. *)
Fixpoint encode_attributes (files : list (Z * option Acl * option ExtendedAttributes)) (e : AclEncoder)
    (x : XattrEncoder) : wr (AclEncoder * XattrEncoder) :=
  match files with
  | [] => mret (e, x)
  | (mode, acl, xa) :: files' =>
      e ← encode_acl acl mode e;
      x ← encode_xattrs xa x;
      encode_attributes files' e x
  end.

Fixpoint decode_attributes (modes : list Z) (d : AclDecoder) (x : XattrDecoder)
    : rd (list (option Acl * option ExtendedAttributes)) :=
  match modes with
  | [] => mret []
  | mode :: modes' =>
      p ← decode_acl mode d;
      q ← decode_xattrs x;
      rest ← decode_attributes modes' p.2 q.2;
      mret ((p.1, q.1) :: rest)
  end.

(** C36. The deduplicated encodings of ACLs and extended attributes carry any
    sequence of files: with an encoder and a decoder that start together,
    every file's attributes come back in their canonical form, whether they
    were sent in full or as a reference to an earlier set, and nothing is left
    unread. (Permissions must stay below [2^30]: they are shifted by two.) *)
Theorem attributes_roundtrip (files : list (Z * option Acl * option ExtendedAttributes)) (k : list Z) :
  Forall (fun f => acl_field_ok f.1.2 /\ xattr_field_ok f.2) files ->
  Z.of_nat (length files) < 2 ^ 32 - 1 ->
  exists st bs, encode_attributes files AclEncoder_new [] = (Ok st, bs) /\
    decode_attributes (map (fun f => f.1.1) files) AclDecoder_new [] (bs ++ k) =
      Ok (map (fun f => (canonical_acl f.1.1 f.1.2, canonical_xattrs f.2)) files, k).
Proof.
  intros Hok Hlen.
  assert (H : forall n e d x y, acl_in_step n e d -> xattr_in_step n x y -> Z.of_nat (n + length files) < 2 ^ 32 - 1 ->
    mirrors (encode_attributes files e x) (decode_attributes (map (fun f => f.1.1) files) d y)
      (fun _ l => l = map (fun f => (canonical_acl f.1.1 f.1.2, canonical_xattrs f.2)) files)).
  { clear Hlen k. induction Hok as [|[[mode acl] xa] files [Ha Hx] Hok IH]; intros n e d x y He Hxy Hn.
    { by apply mirrors_ret. }
    cbn [encode_attributes decode_attributes map fst snd length] in *.
    eapply mirrors_bind; [apply (encode_acl_mirrors _ _ n); [done|done|lia]|]. intros e' [a d'] [-> He']. cbn [fst snd] in *.
    eapply mirrors_bind; [apply (encode_xattrs_mirrors _ n); [done|done|lia]|]. intros x' [b y'] [-> Hx']. cbn [fst snd] in *.
    apply (mirrors_map _ _ (fun rest => (_, _) :: rest)). eapply mirrors_mono; [apply (IH (S n)); [done|done|lia]|].
    by intros ? ? ->. }
  destruct (H 0%nat AclEncoder_new AclDecoder_new [] []) as (st & l & bs & Hw & Hr & ->); [done|done|lia|].
  exists st, bs. split; [done|apply Hr].
Qed.

Definition example_acl : Acl :=
  Posix (mkPosixAcl (mkPosixAclEntries (Some 7) None (Some 5) (Some 0)
    [mkPosixAce User 1000 (Some [97; 98]) 7; mkPosixAce Group 50 None 4]) None).

Lemma attributes_roundtrip_witness :
  exists st bs, encode_attributes
      [(S_IFREG, Some example_acl, None); (S_IFDIR, Some example_acl, Some (mkExtendedAttributes [mkXattrEntry [117; 0] [1]]));
       (S_IFREG, None, Some (mkExtendedAttributes []))] AclEncoder_new [] = (Ok st, bs) /\
    decode_attributes [S_IFREG; S_IFDIR; S_IFREG] AclDecoder_new [] (bs ++ [9]) =
      Ok ([(Some example_acl, None); (Some example_acl, Some (mkExtendedAttributes [mkXattrEntry [117; 0] [1]]));
           (None, None)], [9]).
Proof.
  apply (attributes_roundtrip
    [(S_IFREG, Some example_acl, None); (S_IFDIR, Some example_acl, Some (mkExtendedAttributes [mkXattrEntry [117; 0] [1]]));
     (S_IFREG, None, Some (mkExtendedAttributes []))] [9]); [|cbn; lia].
  repeat constructor; cbn; lia.
Defined.

(** The kernel's binary format: parsing what [serialize_posix_acl_binary]
    wrote gives the permissions back and the named entries with users before
    groups and without names; serializing that again gives the same bytes, so
    an ACL survives any number of such passages. *)
Theorem posix_acl_binary_roundtrip (acl : PosixAclEntries) :
  kernel_ok acl ->
  parse_posix_acl_binary (serialize_posix_acl_binary acl) = Ok (kernel_acl acl) /\
  serialize_posix_acl_binary (kernel_acl acl) = serialize_posix_acl_binary acl.
Proof.
  intros Hok. split; [by apply parse_serialize|]. clear Hok. unfold serialize_posix_acl_binary.
  rewrite !push_kind_chunks. unfold kernel_acl, kind_chunks. cbn [user_obj group_obj mask other named].
  by rewrite !filter_kernel_named, !map_map.
Qed.

Lemma posix_acl_binary_roundtrip_witness :
  parse_posix_acl_binary (serialize_posix_acl_binary
    (mkPosixAclEntries (Some 7) None (Some 5) (Some 0)
       [mkPosixAce Group 50 None 4; mkPosixAce User 1000 (Some [97]) 7])) =
  Ok (mkPosixAclEntries (Some 7) None (Some 5) (Some 0) [mkPosixAce User 1000 None 7; mkPosixAce Group 50 None 4]).
Proof.
  apply (posix_acl_binary_roundtrip (mkPosixAclEntries (Some 7) None (Some 5) (Some 0)
       [mkPosixAce Group 50 None 4; mkPosixAce User 1000 (Some [97]) 7])).
  repeat constructor; cbn; lia.
Defined.
