(* ===== verification/Sort.v ===== *)
(** The canonical order of file lists ([ferrosync-codec/src/sort.rs]): the two
    walkers of [f_name_cmp], the comparison loop and the stable sort.

    [f_name_cmp] is shown to be the lexicographic order of explicit sort keys,
    hence a total preorder, as [sort_by] requires. *)
From Stdlib Require Import Sorted.
From S2P Require Import Prelude Types.

Inductive State :=
  | Dir
  | Slash
  | Base
  | Trailing
  | Done.

Inductive FncType :=
  | Path
  | Item.

#[export] Instance FncType_eq_dec : EqDecision FncType.
Proof. solve_decision. Defined.

Record Walker := mkWalker {
  w_basename : list Z;
  w_dirname : option (list Z);
  w_is_dir : bool;
  w_state : State;
  w_fnc_type : FncType;
  w_pos : nat;
}.

Definition dot : Z := 46.

Definition Walker_new (entry : FileEntry) : Walker :=
  let dirname := FileEntry.dirname entry in
  let basename := FileEntry.basename entry in
  let is_dir := Z.land (mode entry) S_IFMT =? S_IFDIR in
  match dirname with
  | Some d =>
      let state := if bool_decide (d = []) then Slash else Dir in
      mkWalker basename dirname is_dir state Path 0
  | None =>
      let fnc_type := if is_dir then Path else Item in
      if is_dir && bool_decide (basename = [dot])
      then mkWalker basename None is_dir Trailing Item 0
      else mkWalker basename None is_dir Base fnc_type 0
  end.

Definition go (s : State) (t : FncType) (pos : nat) (w : Walker) : Walker :=
  mkWalker (w_basename w) (w_dirname w) (w_is_dir w) s t pos.

(** The arms of the loop of [current_char]; an arm that goes on falls into the
    arm of the next state. *)
Definition char_trailing (w : Walker) : option Z * Walker := (None, go Done Item (w_pos w) w).
Definition char_base (w : Walker) : option Z * Walker :=
  match w_basename w !! w_pos w with
  | Some c => (Some c, w)
  | None =>
      if decide (w_fnc_type w = Path) then (Some slash, go Trailing (w_fnc_type w) (w_pos w) w)
      else char_trailing (go Trailing Item (w_pos w) w)
  end.
Definition char_slash (w : Walker) : option Z * Walker := (Some slash, w).
(** [self.dirname.unwrap()]: only read in the state [Dir], where there is one. *)
Definition dir_bytes (w : Walker) : list Z := match w_dirname w with Some d => d | None => [] end.
Definition char_dir (w : Walker) : option Z * Walker :=
  match dir_bytes w !! w_pos w with
  | Some c => (Some c, w)
  | None => char_slash (go Slash (w_fnc_type w) 0 w)
  end.
Definition current_char (w : Walker) : option Z * Walker :=
  match w_state w with
  | Dir => char_dir w
  | Slash => char_slash w
  | Base => char_base w
  | Trailing => char_trailing w
  | Done => (None, w)
  end.

Definition advance (w : Walker) : Walker :=
  match w_state w with
  | Dir => go Dir (w_fnc_type w) (S (w_pos w)) w
  | Slash =>
      if w_is_dir w && bool_decide (w_basename w = [dot]) then go Trailing Item 0 w
      else go Base (if w_is_dir w then Path else Item) 0 w
  | Base => go Base (w_fnc_type w) (S (w_pos w)) w
  | Trailing => go Done Item 0 w
  | Done => w
  end.

(** [if wa.fnc_type == Path { Greater } else { Less }] *)
Definition type_order (wa : Walker) : comparison := if decide (w_fnc_type wa = Path) then Gt else Lt.

(** One round per unit of fuel; [None] when the fuel runs out. *)
Fixpoint cmp_loop (fuel : nat) (wa wb : Walker) : option comparison :=
  match fuel with
  | O => None
  | S fuel' =>
      let '(ca, wa) := current_char wa in
      let '(cb, wb) := current_char wb in
      match ca, cb with
      | None, None => Some Eq
      | None, Some _ => Some (if decide (w_fnc_type wa = w_fnc_type wb) then Lt else type_order wa)
      | Some _, None => Some (if decide (w_fnc_type wa = w_fnc_type wb) then Gt else type_order wa)
      | Some ac, Some bc =>
          if negb (ac =? bc) then Some (ac ?= bc)
          else
            let wa := advance wa in
            let wb := advance wb in
            if decide (w_fnc_type wa = w_fnc_type wb) then cmp_loop fuel' wa wb
            else
              let '(a_more, wa) := current_char wa in
              let '(b_more, wb) := current_char wb in
              match a_more, b_more with
              | None, None => cmp_loop fuel' wa wb
              | _, _ => Some (type_order wa)
              end
      end
  end.

(** The walker of [a] advances over at most its name and two more characters
    ([f_name_cmp_keys]). *)
Definition f_name_cmp (a b : FileEntry) : comparison :=
  let wa := Walker_new a in
  let wb := Walker_new b in
  if decide (w_fnc_type wa = w_fnc_type wb) then match cmp_loop (length (name a) + 3) wa wb with Some c => c | None => Eq end
  else type_order wa.

(** [slice::sort_by]: the stable sort of the standard library. *)
Fixpoint insert_by {A} (cmp : A -> A -> comparison) (x : A) (l : list A) : list A :=
  match l with
  | [] => [x]
  | y :: l' => match cmp x y with Gt => y :: insert_by cmp x l' | _ => x :: l end
  end.
Fixpoint sort_by {A} (cmp : A -> A -> comparison) (l : list A) : list A :=
  match l with
  | [] => []
  | x :: l' => insert_by cmp x (sort_by cmp l')
  end.

Definition canonical_sort (entries : list FileEntry) : list FileEntry := sort_by f_name_cmp entries.

(** ** Sort keys *)

(** What a walker yields: every character with the type in force. *)
Abbreviation key := (list (FncType * Z)).

Definition base_key (is_dir : bool) (basename : list Z) : key :=
  if is_dir then
    if bool_decide (basename = [dot]) then [] else map (pair Path) (basename ++ [slash])
  else map (pair Item) basename.

Definition sort_key (e : FileEntry) : key :=
  match FileEntry.dirname e with
  | Some d => map (pair Path) (d ++ [slash])
  | None => []
  end ++ base_key (FileEntry.is_dir e) (FileEntry.basename e).

Definition type_cmp (s t : FncType) : comparison :=
  match s, t with
  | Path, Item => Gt
  | Item, Path => Lt
  | _, _ => Eq
  end.

(** [Item] before [Path], then by byte, then the shorter. *)
Fixpoint key_cmp (k l : key) : comparison :=
  match k, l with
  | [], [] => Eq
  | [], _ => Lt
  | _, [] => Gt
  | (s, a) :: k', (t, b) :: l' =>
      match type_cmp s t with
      | Eq => match a ?= b with Eq => key_cmp k' l' | c => c end
      | c => c
      end
  end.

(** ** The walkers yield the keys *)

Definition head_type (k : key) : FncType := match k with [] => Item | (t, _) :: _ => t end.

Definition rest (w : Walker) : key :=
  match w_state w with
  | Dir => map (pair Path) (drop (w_pos w) (dir_bytes w) ++ [slash])
             ++ base_key (w_is_dir w) (w_basename w)
  | Slash => (Path, slash) :: base_key (w_is_dir w) (w_basename w)
  | Base => if w_is_dir w then map (pair Path) (drop (w_pos w) (w_basename w) ++ [slash])
            else map (pair Item) (drop (w_pos w) (w_basename w))
  | Trailing | Done => []
  end.

Definition walker_ok (w : Walker) : Prop :=
  match w_state w with
  | Dir | Slash => w_fnc_type w = Path
  | Base => w_fnc_type w = (if w_is_dir w then Path else Item)
  | Trailing | Done => w_fnc_type w = Item
  end.

Lemma walker_new_ok e : walker_ok (Walker_new e) /\ rest (Walker_new e) = sort_key e.
Proof.
  unfold Walker_new, sort_key, FileEntry.is_dir. destruct (FileEntry.dirname e) as [d|].
  - destruct (bool_decide_reflect (d = [])) as [->|]; (split; [done|]).
    + done.
    + unfold rest. cbn [w_state w_pos w_is_dir w_basename]. by rewrite drop_0.
  - unfold base_key. destruct (_ =? S_IFDIR); cbn [andb].
    + destruct (bool_decide _); (split; [done|]); unfold rest; cbn; [done|by rewrite drop_0].
    + split; [done|]. unfold rest. cbn. by rewrite drop_0.
Qed.

Lemma rest_type w : walker_ok w -> w_fnc_type w = head_type (rest w) \/ (rest w = [] /\ w_fnc_type w = Item).
Proof.
  unfold walker_ok, rest. destruct w as [b d dir s t pos]. cbn. destruct s; intros ->; auto.
  - left. destruct (drop pos (dir_bytes _)); done.
  - destruct dir.
    + left. destruct (drop pos b); done.
    + destruct (drop pos b); cbn; auto.
Qed.

Lemma type_is_head w : walker_ok w -> w_fnc_type w = head_type (rest w).
Proof. intros H. destruct (rest_type w H) as [|[-> ->]]; done. Qed.

Lemma current_char_spec w : walker_ok w ->
  match rest w with
  | [] => (current_char w).1 = None /\ w_fnc_type (current_char w).2 = Item
  | (t, c) :: k =>
      exists w', current_char w = (Some c, w') /\ w_fnc_type w' = t /\ walker_ok (advance w') /\ rest (advance w') = k
  end.
Proof.
  destruct w as [b d dir s t pos]. unfold walker_ok, rest, current_char. cbn [w_state w_pos w_dirname w_is_dir w_basename w_fnc_type].
  assert (Hslash : exists w', (Some slash, mkWalker b d dir Slash Path 0) = (Some slash, w') /\ w_fnc_type w' = Path /\
    walker_ok (advance w') /\ rest (advance w') = base_key dir b).
  { eexists. split; [done|]. split; [done|]. unfold advance, base_key. cbn. destruct dir; cbn [andb].
    - destruct (bool_decide _); (split; [done|]); unfold rest; cbn; [done|by rewrite drop_0].
    - split; [done|]. unfold rest. cbn. by rewrite drop_0. }
  destruct s; intros ->.
  - unfold char_dir. cbn [w_pos]. destruct (dir_bytes _ !! pos) as [c|] eqn:E.
    + rewrite (drop_S _ c) by done. cbn [app map]. eexists. split_and!; done.
    + rewrite drop_ge by (by apply lookup_ge_None). exact Hslash.
  - destruct Hslash as (w' & [= <-] & _ & H1 & H2). eexists. split; [done|]. split; [done|].
    unfold char_slash, advance in *. cbn in *. destruct (dir && _); done.
  - unfold char_base. cbn [w_basename w_pos w_fnc_type]. destruct (b !! pos) as [c|] eqn:E.
    + rewrite (drop_S _ c) by done. destruct dir; cbn [app map]; eexists; split_and!; done.
    + rewrite drop_ge by (by apply lookup_ge_None). destruct dir; cbn [app map].
      * rewrite decide_True by done. eexists. split_and!; done.
      * rewrite decide_False by done. done.
  - done.
  - done.
Qed.

Lemma more_iff w : walker_ok w -> (current_char w).1 = None <-> rest w = [].
Proof.
  intros H. pose proof (current_char_spec w H) as Hs. destruct (rest w) as [|[t c] k].
  - by destruct Hs as [-> _].
  - destruct Hs as (w' & -> & _). split; done.
Qed.

Lemma type_order_cmp s t : s <> t -> (if decide (s = Path) then Gt else Lt) = type_cmp s t.
Proof. destruct s, t; try done; by intros []. Qed.

Lemma cmp_loop_keys fuel wa wb :
  walker_ok wa -> walker_ok wb -> w_fnc_type wa = w_fnc_type wb -> (length (rest wa) < fuel)%nat ->
  cmp_loop fuel wa wb = Some (key_cmp (rest wa) (rest wb)).
Proof.
  revert wa wb. induction fuel as [|fuel IH]; intros wa wb Ha Hb Ht Hf; [lia|]. cbn [cmp_loop].
  pose proof (current_char_spec wa Ha) as Sa. pose proof (current_char_spec wb Hb) as Sb.
  rewrite (type_is_head wa Ha), (type_is_head wb Hb) in Ht.
  destruct (rest wa) as [|[ta a] ka], (rest wb) as [|[tb b] kb]; cbn [head_type] in Ht.
  - destruct Sa as [Sa _], Sb as [Sb _]. destruct (current_char wa), (current_char wb). cbn in *. by subst.
  - destruct Sa as [Sa Ta], Sb as (wb' & -> & Tb & _). destruct (current_char wa) as [? wa']. cbn in Sa, Ta. subst.
    rewrite Ta, Tb. by rewrite decide_True.
  - destruct Sb as [Sb Tb], Sa as (wa' & -> & Ta & _). destruct (current_char wb) as [? wb']. cbn in Sb, Tb. subst.
    rewrite Ta, Tb. by rewrite decide_True.
  - destruct Sa as (wa' & -> & Ta & Oa & <-), Sb as (wb' & -> & Tb & Ob & <-). cbn [key_cmp length] in *. subst ta.
    assert (E : type_cmp tb tb = Eq) by (by destruct tb).
    rewrite E. destruct (Z.eqb_spec a b) as [->|Hne]; cbn [negb].
    + rewrite Z.compare_refl. destruct (decide _) as [Et|Et]; [apply IH; (done || lia)|].
      pose proof (type_is_head _ Oa) as Ha'. pose proof (type_is_head _ Ob) as Hb'.
      pose proof (current_char_spec _ Oa) as Na. pose proof (current_char_spec _ Ob) as Nb.
      destruct (rest (advance wa')) as [|[sa ca] ka], (rest (advance wb')) as [|[sb cb] kb]; cbn [head_type] in *.
      * congruence.
      * destruct Na as [Na Nt], Nb as (w2 & -> & _). destruct (current_char (advance wa')) as [? w1].
        cbn in Na, Nt. subst. unfold type_order. by rewrite Nt.
      * destruct Nb as [Nb Nt], Na as (w1 & -> & T1 & _). destruct (current_char (advance wb')) as [? w2].
        cbn in Nb. subst. unfold type_order. rewrite Hb' in Et. destruct (w_fnc_type w1); [done|congruence].
      * destruct Na as (w1 & -> & T1 & _), Nb as (w2 & -> & _). unfold type_order. rewrite T1. rewrite Ha', Hb' in Et.
        cbn [key_cmp]. rewrite type_order_cmp with (t := sb) by done. by destruct sa, sb.
    + f_equal. by destruct (Z.compare_spec a b).
Qed.

Lemma rposition_take c l pos : rposition c l = Some pos -> l = take pos l ++ c :: drop (S pos) l.
Proof.
  intros H. apply rposition_Some in H as [H _]. rewrite <- (drop_S l c pos) by done. by rewrite take_drop.
Qed.

Lemma sort_key_length e : (length (sort_key e) < length (name e) + 3)%nat.
Proof.
  assert (Hb : forall dir b, (length (base_key dir b) <= S (length b))%nat).
  { intros [] b; unfold base_key; [destruct (bool_decide _)|]; cbn; rewrite ?length_map, ?length_app; cbn; lia. }
  unfold sort_key, FileEntry.dirname, FileEntry.basename. destruct (rposition slash (name e)) as [pos|] eqn:E.
  - apply rposition_take in E. specialize (Hb (FileEntry.is_dir e) (drop (S pos) (name e))).
    apply (f_equal length) in E. rewrite !length_app in *. rewrite length_map, length_app. cbn in *. lia.
  - specialize (Hb (FileEntry.is_dir e) (name e)). cbn. lia.
Qed.

Lemma f_name_cmp_keys a b : f_name_cmp a b = key_cmp (sort_key a) (sort_key b).
Proof.
  unfold f_name_cmp. destruct (walker_new_ok a) as [Oa Ra], (walker_new_ok b) as [Ob Rb].
  destruct (decide _) as [Et|Et].
  - rewrite cmp_loop_keys by (done || (rewrite Ra; apply sort_key_length)). by rewrite Ra, Rb.
  - unfold type_order. rewrite type_order_cmp with (t := w_fnc_type (Walker_new b)) by done.
    rewrite (type_is_head _ Oa), (type_is_head _ Ob), Ra, Rb in *.
    destruct (sort_key a) as [|[ta ca] ka], (sort_key b) as [|[tb cb] kb]; cbn in *; try done.
    + by destruct tb.
    + by destruct ta.
    + by destruct ta, tb.
Qed.

(** ** A total preorder *)

Lemma key_cmp_refl k : key_cmp k k = Eq.
Proof. induction k as [|[[] a] k IH]; cbn; [done|..]; by rewrite Z.compare_refl. Qed.

Lemma key_cmp_eq k l : key_cmp k l = Eq -> k = l.
Proof.
  revert l. induction k as [|[s a] k IH]; intros [|[t b] l]; cbn; try done.
  destruct s, t; cbn; try done; destruct (Z.compare_spec a b); try done; subst; intros H; by rewrite (IH l).
Qed.

Lemma key_cmp_antisym k l : key_cmp l k = CompOpp (key_cmp k l).
Proof.
  revert l. induction k as [|[s a] k IH]; intros [|[t b] l]; cbn; try done.
  rewrite (Z.compare_antisym a b). destruct s, t; cbn; try done; destruct (a ?= b); cbn; auto.
Qed.

Lemma key_cmp_lt_trans k l m : key_cmp k l = Lt -> key_cmp l m = Lt -> key_cmp k m = Lt.
Proof.
  revert l m. induction k as [|[s a] k IH]; intros [|[t b] l] [|[u c] m]; cbn; try done.
  destruct s, t, u; cbn; try done;
    destruct (Z.compare_spec a b), (Z.compare_spec b c); try done; subst; intros H1 H2;
    rewrite ?Z.compare_refl; first [by apply (IH l) | destruct (Z.compare_spec a c); (done || lia)
      | destruct (Z.compare_spec b c); (done || lia) | destruct (Z.compare_spec a b); (done || lia)].
Qed.

Lemma f_name_cmp_le_trans a b c : f_name_cmp a b <> Gt -> f_name_cmp b c <> Gt -> f_name_cmp a c <> Gt.
Proof.
  rewrite !f_name_cmp_keys. intros H1 H2.
  destruct (key_cmp (sort_key a) (sort_key b)) eqn:E1; [apply key_cmp_eq in E1 as ->; done| |done].
  destruct (key_cmp (sort_key b) (sort_key c)) eqn:E2; [apply key_cmp_eq in E2 as <-; by rewrite E1| |done].
  by rewrite (key_cmp_lt_trans _ _ _ E1 E2).
Qed.

(** ** The stable sort *)

Section sort.
  Context {A : Type} (cmp : A -> A -> comparison).
  Context (Hanti : forall a b, cmp b a = CompOpp (cmp a b)).
  Context (Htrans : forall a b c, cmp a b <> Gt -> cmp b c <> Gt -> cmp a c <> Gt).

Abbreviation le a b := (cmp a b <> Gt).

Lemma insert_perm x l : insert_by cmp x l ≡ₚ x :: l.
Proof.
  induction l as [|y l IH]; cbn; [done|]. destruct (cmp x y); [done..|]. rewrite IH. apply Permutation_swap.
Qed.
Lemma sort_perm l : sort_by cmp l ≡ₚ l.
Proof. induction l as [|x l IH]; cbn; [done|]. by rewrite insert_perm, IH. Qed.

Lemma insert_sorted x l :
  StronglySorted (fun a b => le a b) l -> StronglySorted (fun a b => le a b) (insert_by cmp x l).
Proof.
  induction 1 as [|y l Hl IH Hy]; cbn; [by repeat constructor|].
  destruct (cmp x y) eqn:E.
  - constructor; [by constructor|]. constructor; [by rewrite E|]. eapply Forall_impl; [exact Hy|].
    intros z Hz. apply (Htrans x y z); [by rewrite E|done].
  - constructor; [by constructor|]. constructor; [by rewrite E|]. eapply Forall_impl; [exact Hy|].
    intros z Hz. apply (Htrans x y z); [by rewrite E|done].
  - constructor; [done|]. rewrite insert_perm. constructor; [|done]. rewrite Hanti, E. done.
Qed.
Lemma sort_sorted l : StronglySorted (fun a b => le a b) (sort_by cmp l).
Proof. induction l as [|x l IH]; cbn; [constructor|by apply insert_sorted]. Qed.

(** Elements the order does not tell apart keep their order. *)
Definition same_class (x y : A) : bool := match cmp x y with Eq => true | _ => false end.

Lemma insert_stable z x l :
  List.filter (same_class z) (insert_by cmp x l) = List.filter (same_class z) (x :: l).
Proof.
  induction l as [|y l IH]; [done|]. cbn [insert_by]. destruct (cmp x y) eqn:E; [done..|].
  cbn [List.filter] in *. rewrite IH. destruct (same_class z y) eqn:Ey, (same_class z x) eqn:Ex; try done.
  exfalso. unfold same_class in *. destruct (cmp z y) eqn:E1; try done. destruct (cmp z x) eqn:E2; try done.
  apply (Htrans x z y); [rewrite Hanti, E2; done|by rewrite E1|done].
Qed.
Lemma sort_stable z l : List.filter (same_class z) (sort_by cmp l) = List.filter (same_class z) l.
Proof. induction l as [|x l IH]; [done|]. cbn [sort_by]. rewrite insert_stable. cbn. by rewrite IH. Qed.

(** A sorted list is left alone. *)
Lemma sort_id l : StronglySorted (fun a b => le a b) l -> sort_by cmp l = l.
Proof.
  induction 1 as [|x l Hl IH Hx]; cbn; [done|]. rewrite IH. destruct l as [|y l]; cbn; [done|].
  inversion Hx; subst. by destruct (cmp x y).
Qed.
End sort.

(** Sorting commutes with a change of the elements that keeps their order. *)
Lemma StronglySorted_map {A B} (R : A -> A -> Prop) (R' : B -> B -> Prop) (f : A -> B) l :
  (forall a b, R a b -> R' (f a) (f b)) -> StronglySorted R l -> StronglySorted R' (map f l).
Proof.
  intros HR. induction 1 as [|x l Hl IH Hx]; cbn; constructor; [done|]. apply Forall_map.
  eapply Forall_impl; [exact Hx|]. auto.
Qed.

(** ** Paths *)

Lemma key_cmp_prefix k l : key_cmp k (k ++ l) <> Gt.
Proof.
  induction k as [|[s a] k IH]; cbn; [by destruct l|].
  rewrite Z.compare_refl. by destruct s.
Qed.

Lemma key_cmp_app k l m : key_cmp (k ++ l) (k ++ m) = key_cmp l m.
Proof. induction k as [|[s a] k IH]; cbn; [done|]. rewrite Z.compare_refl. by destruct s. Qed.

Lemma rposition_app c l m : c ∉ m -> rposition c (l ++ c :: m) = Some (length l).
Proof.
  intros Hm. induction l as [|b l IH]; cbn.
  - assert (E : rposition c m = None).
    { clear -Hm. induction m as [|b m IH]; cbn; [done|]. apply not_elem_of_cons in Hm as [H1 H2]. rewrite IH by done.
      destruct (Z.eqb_spec b c); congruence. }
    rewrite E. by rewrite Z.eqb_refl.
  - by rewrite IH.
Qed.

(** An entry by its directory and its last component. *)
Lemma key_in_dir e d b : name e = d ++ slash :: b -> slash ∉ b ->
  sort_key e = map (pair Path) (d ++ [slash]) ++ base_key (FileEntry.is_dir e) b.
Proof.
  intros Hn Hb. unfold sort_key, FileEntry.dirname, FileEntry.basename. rewrite Hn, rposition_app by done.
  rewrite take_app_length. by rewrite drop_app_ge, Nat.sub_succ_l, Nat.sub_diag by lia.
Qed.

(** A directory's own key. *)
Lemma key_of_dir d : FileEntry.is_dir d = true -> FileEntry.basename d <> [dot] ->
  sort_key d = map (pair Path) (name d ++ [slash]).
Proof.
  intros Hd Hb. unfold sort_key, base_key. rewrite Hd, bool_decide_false by done.
  unfold FileEntry.dirname, FileEntry.basename in *. destruct (rposition slash (name d)) as [pos|] eqn:E; [|done].
  apply rposition_take in E. rewrite <- map_app. f_equal.
  rewrite E at 3. by rewrite <- !app_assoc.
Qed.

(** The key of what lies under a directory starts with the directory's. *)
Lemma key_under d e tail : name e = d ++ slash :: tail ->
  exists k, sort_key e = map (pair Path) (d ++ [slash]) ++ k.
Proof.
  intros Hn. unfold sort_key, FileEntry.dirname. rewrite Hn.
  destruct (rposition slash tail) as [p|] eqn:E.
  - apply rposition_take in E. pose proof E as E2. apply (f_equal (fun l => slash ∈ l)) in E2.
    assert (Hp : exists q, rposition slash (d ++ slash :: tail) = Some (length d + S q)%nat).
    { clear Hn. destruct (rposition slash (d ++ slash :: tail)) as [q|] eqn:Eq.
      - pose proof Eq as Eq2. apply rposition_Some in Eq2 as [H1 H2]. exists (q - S (length d))%nat.
        destruct (decide (q <= length d)%nat) as [Hq|]; [|f_equal; lia]. exfalso. apply H2.
        rewrite drop_app. apply elem_of_app. right. rewrite E.
        destruct (S q - length d)%nat as [|[|n]] eqn:En; cbn [drop]; [set_solver|set_solver|lia].
      - exfalso. apply rposition_None in Eq. set_solver. }
    destruct Hp as [q Hq]. rewrite Hq. rewrite take_app. replace (length d + S q - length d)%nat with (S q) by lia.
    rewrite take_ge by lia. cbn [take]. rewrite !map_app. rewrite map_cons. eexists. rewrite <- !app_assoc. cbn. reflexivity.
  - rewrite rposition_app by (by apply rposition_None). rewrite take_app_length. eauto.
Qed.

Lemma key_between k l x : key_cmp k x <> Gt -> key_cmp x (k ++ l) <> Gt -> exists m, x = k ++ m.
Proof.
  revert x. induction k as [|[s a] k IH]; intros x H1 H2; [by exists x|].
  destruct x as [|[t b] x]; cbn in *; [by destruct H1|].
  destruct s, t; cbn in *; try done;
    (destruct (Z.compare_spec a b) as [->|Hl|Hl]; [|destruct (Z.compare_spec b a); try done; lia|done]);
    rewrite Z.compare_refl in H2; destruct (IH x H1 H2) as [m ->]; by exists m.
Qed.

(** ** Properties *)

(** The comparison of file-list entries never exhausts its loop, and is a
    total preorder: reflexive, antisymmetric up to [Equal] and transitive, which is what
    [slice::sort_by] demands.  It answers [Equal] exactly for entries with the
    same sort key (path, and whether each byte belongs to a directory part). *)
Theorem f_name_cmp_total_order (a b c : FileEntry) :
  (w_fnc_type (Walker_new a) = w_fnc_type (Walker_new b) ->
     is_Some (cmp_loop (length (name a) + 3) (Walker_new a) (Walker_new b))) /\
  f_name_cmp a a = Eq /\
  f_name_cmp b a = CompOpp (f_name_cmp a b) /\
  (f_name_cmp a b <> Gt -> f_name_cmp b c <> Gt -> f_name_cmp a c <> Gt) /\
  (f_name_cmp a b = Eq <-> sort_key a = sort_key b).
Proof.
  split_and!.
  - intros Ht. destruct (walker_new_ok a) as [Oa Ra], (walker_new_ok b) as [Ob Rb]. eexists.
    apply cmp_loop_keys; try done. rewrite Ra. apply sort_key_length.
  - rewrite f_name_cmp_keys. apply key_cmp_refl.
  - rewrite !f_name_cmp_keys. apply key_cmp_antisym.
  - apply f_name_cmp_le_trans.
  - rewrite f_name_cmp_keys. split; [apply key_cmp_eq|intros ->; apply key_cmp_refl].
Qed.

(** [canonical_sort] returns a permutation of the entries in
    non-decreasing order, keeps the order of entries that compare [Equal], and
    leaves a sorted list alone, so that sorting a received list again cannot
    renumber it. *)
Theorem canonical_sort_spec (entries : list FileEntry) :
  canonical_sort entries ≡ₚ entries /\
  StronglySorted (fun a b => f_name_cmp a b <> Gt) (canonical_sort entries) /\
  (forall e, List.filter (same_class f_name_cmp e) (canonical_sort entries) =
             List.filter (same_class f_name_cmp e) entries) /\
  canonical_sort (canonical_sort entries) = canonical_sort entries.
Proof.
  assert (Hanti : forall a b, f_name_cmp b a = CompOpp (f_name_cmp a b))
    by (intros; rewrite !f_name_cmp_keys; apply key_cmp_antisym).
  split_and!.
  - apply sort_perm.
  - apply sort_sorted; [apply Hanti|apply f_name_cmp_le_trans].
  - intros e. apply sort_stable; [apply Hanti|apply f_name_cmp_le_trans].
  - apply sort_id, sort_sorted; [apply Hanti|apply f_name_cmp_le_trans].
Qed.

(** C35. The order is depth first with files ahead of directories: a directory
    comes before everything below it; what the order puts between a directory
    and something below it has the directory's key as a prefix of its own, so
    a subtree is contiguous; and a file of a directory comes before every
    subdirectory of that directory and everything below those. *)
Theorem canonical_order_is_depth_first (d e f x : FileEntry) (parent tail b sub : list Z) :
  FileEntry.is_dir d = true -> FileEntry.basename d <> [dot] -> name e = name d ++ slash :: tail ->
  FileEntry.is_dir f = false -> name f = parent ++ slash :: b -> slash ∉ b ->
  f_name_cmp d e <> Gt /\
  (f_name_cmp d x <> Gt -> f_name_cmp x e <> Gt -> exists k, sort_key x = sort_key d ++ k) /\
  (b <> [] -> name d = parent ++ slash :: sub -> slash ∉ sub ->
   f_name_cmp f d = Lt /\ f_name_cmp f e = Lt).
Proof.
  intros Hd Hdot He Hf Hfn Hb. rewrite !f_name_cmp_keys. pose proof (key_of_dir d Hd Hdot) as Kd.
  destruct (key_under _ _ _ He) as [k Ke]. rewrite Ke, <- Kd. split_and!.
  - apply key_cmp_prefix.
  - intros H1 H2. by apply key_between in H2.
  - intros Hne Hdn Hsub. rewrite Kd, (key_in_dir f parent b) by done. unfold base_key. rewrite Hf, Hdn.
    replace ((parent ++ slash :: sub) ++ [slash]) with ((parent ++ [slash]) ++ (sub ++ [slash])) by (by rewrite <- !app_assoc).
    rewrite (map_app _ (parent ++ [slash])), <- app_assoc, !key_cmp_app.
    destruct b as [|y b]; [done|]. by destruct sub.
Qed.

Definition sort_example (n : string) (dir : bool) : FileEntry :=
  mkFileEntry (map (fun c => Z.of_N (Ascii.N_of_ascii c)) (String.list_ascii_of_string n)) 0 0 0
    (if dir then S_IFDIR else S_IFREG) 0 0 0 [] [] 0 [] [] None None None None.

Lemma canonical_order_is_depth_first_witness :
  f_name_cmp (sort_example "a/zz" false) (sort_example "a/b" true) = Lt /\
  f_name_cmp (sort_example "a/zz" false) (sort_example "a/b/c" false) = Lt.
Proof.
  destruct (canonical_order_is_depth_first (sort_example "a/b" true) (sort_example "a/b/c" false)
    (sort_example "a/zz" false) (sort_example "a/b" true) [97] [99] [122; 122] [98]) as (_ & _ & H);
    [reflexivity|discriminate|reflexivity|reflexivity|reflexivity|by apply (bool_decide_unpack _); vm_compute|].
  apply H; [discriminate|reflexivity|by apply (bool_decide_unpack _); vm_compute].
Defined.
