(* ===== verification/Flist.v ===== *)
(** The file-list entry codec ([ferrosync-codec/src/codec/]): transmit flags
    ([flags.rs], [xmit.rs]), delta state ([state.rs]), options ([options.rs]),
    fields ([fields.rs]), hard links ([hlink.rs]), the field traversal
    ([visitor.rs]) and the two orchestrators ([mod.rs]); file-name conversion
    ([iconv.rs]). The diagnostic decoder is [Diagnostic.v]. *)
From S2P Require Import Prelude Wire Types Utf8 Varint WireFormat Acl.

(** ** xmit.rs *)

Definition XMIT_TOP_DIR : Z := 1 ≪ 0.
Definition XMIT_SAME_MODE : Z := 1 ≪ 1.
Definition XMIT_SAME_RDEV_PRE28 : Z := 1 ≪ 2.
Definition XMIT_EXTENDED_FLAGS : Z := 1 ≪ 2.
Definition XMIT_SAME_UID : Z := 1 ≪ 3.
Definition XMIT_SAME_GID : Z := 1 ≪ 4.
Definition XMIT_SAME_NAME : Z := 1 ≪ 5.
Definition XMIT_LONG_NAME : Z := 1 ≪ 6.
Definition XMIT_SAME_TIME : Z := 1 ≪ 7.
Definition XMIT_SAME_RDEV_MAJOR : Z := 1 ≪ 8.
Definition XMIT_HLINKED : Z := 1 ≪ 9.
Definition XMIT_USER_NAME_FOLLOWS : Z := 1 ≪ 10.
Definition XMIT_GROUP_NAME_FOLLOWS : Z := 1 ≪ 11.
Definition XMIT_HLINK_FIRST : Z := 1 ≪ 12.
Definition XMIT_IO_ERROR_ENDLIST : Z := 1 ≪ 12.
Definition XMIT_MOD_NSEC : Z := 1 ≪ 13.

(** [XmitFlags] is a [u32]; the accessors test one bit. *)
Definition same_mode (f : Z) : bool := has_bits f XMIT_SAME_MODE.
Definition same_rdev_pre28 (f : Z) : bool := has_bits f XMIT_SAME_RDEV_PRE28.
Definition same_uid (f : Z) : bool := has_bits f XMIT_SAME_UID.
Definition same_gid (f : Z) : bool := has_bits f XMIT_SAME_GID.
Definition same_name (f : Z) : bool := has_bits f XMIT_SAME_NAME.
Definition long_name (f : Z) : bool := has_bits f XMIT_LONG_NAME.
Definition same_time (f : Z) : bool := has_bits f XMIT_SAME_TIME.
Definition same_rdev_major (f : Z) : bool := has_bits f XMIT_SAME_RDEV_MAJOR.
Definition hlinked (f : Z) : bool := has_bits f XMIT_HLINKED.
Definition hlink_first (f : Z) : bool := has_bits f XMIT_HLINK_FIRST.
Definition user_name_follows (f : Z) : bool := has_bits f XMIT_USER_NAME_FOLLOWS.
Definition group_name_follows (f : Z) : bool := has_bits f XMIT_GROUP_NAME_FOLLOWS.
Definition mod_nsec (f : Z) : bool := has_bits f XMIT_MOD_NSEC.

(** ** options.rs, state.rs *)

Record FileListOptions := mkFileListOptions {
  wire : WireFormat;
  preserve_uid : bool;
  preserve_gid : bool;
  preserve_devices : bool;
  preserve_specials : bool;
  preserve_links : bool;
  preserve_hard_links : bool;
  always_checksum : bool;
  checksum_len : nat;
  xmit_id0_names : bool;
  numeric_ids : bool;
  preserve_acls : bool;
  preserve_xattrs : bool;
}.

Record DeltaState := mkDeltaState {
  prev_name : list Z;
  prev_mtime : Z;
  prev_mode : Z;
  prev_uid : Z;
  prev_gid : Z;
  prev_rdev : Z;
  prev_rdev_major : Z;
  prev_user_name : list Z;
  prev_group_name : list Z;
  ndx_start : Z;
}.
Definition DeltaState_default : DeltaState := mkDeltaState [] 0 0 0 0 0 0 [] [] 0.

Definition update_delta_state (state : DeltaState) (entry : FileEntry) : DeltaState :=
  mkDeltaState (name entry) (mtime entry) (mode entry) (uid entry) (gid entry) (rdev entry)
    (FileEntry.rdev_major entry) (user_name entry) (group_name entry) (ndx_start state).

Definition set_prev_name (n : list Z) (s : DeltaState) : DeltaState :=
  mkDeltaState n (prev_mtime s) (prev_mode s) (prev_uid s) (prev_gid s) (prev_rdev s) (prev_rdev_major s)
    (prev_user_name s) (prev_group_name s) (ndx_start s).
Definition set_ndx_start (n : Z) (s : DeltaState) : DeltaState :=
  mkDeltaState (prev_name s) (prev_mtime s) (prev_mode s) (prev_uid s) (prev_gid s) (prev_rdev s)
    (prev_rdev_major s) (prev_user_name s) (prev_group_name s) n.

(** ** iconv.rs: the encoding of [encoding_rs] is a parameter. *)

Record FilenameConverter := mkFilenameConverter {
  local_is_utf8 : bool;
  encoding_decode : list Z -> list Z;
  encoding_encode : list Z -> list Z;
}.
Definition to_wire (conv : FilenameConverter) (name : list Z) : list Z :=
  if local_is_utf8 conv then name else encoding_decode conv name.
Definition from_wire (conv : FilenameConverter) (name : list Z) : list Z :=
  if local_is_utf8 conv then name else encoding_encode conv (from_utf8_lossy name).

(** ** hlink.rs *)

Inductive HardLinkAction := NotHardLinked | FirstOccurrence | DuplicateOf (ndx : Z).

(** [HashMap<(u64, u64), i32>] *)
Abbreviation HardLinkEncoder := (gmap (Z * Z) Z).
(** [HashMap<i32, i32>] *)
Abbreviation HardLinkDecoder := (gmap Z Z).

Definition check (seen : HardLinkEncoder) (info : HardLinkInfo) (index : Z) : HardLinkAction * HardLinkEncoder :=
  if hl_nlink info <=? 1 then (NotHardLinked, seen)
  else
    let key := (hl_dev info, hl_ino info) in
    match seen !! key with
    | Some first_index => (DuplicateOf first_index, seen)
    | None => (FirstOccurrence, <[key := index]> seen)
    end.

Definition record_duplicate (entry_index first_index : Z) (groups : HardLinkDecoder) : HardLinkDecoder :=
  <[entry_index := first_index]> groups.

Definition resolve_hlink_action (opts : FileListOptions) (hlink_info : option HardLinkInfo)
    (hlink_encoder : HardLinkEncoder) (entry_index : Z) : HardLinkAction * HardLinkEncoder :=
  match hlink_info with
  | Some info => if preserve_hard_links opts then check hlink_encoder info entry_index else (NotHardLinked, hlink_encoder)
  | None => (NotHardLinked, hlink_encoder)
  end.

(** [true]: the entry is abbreviated. *)
Definition encode_hlink (hlink_action : HardLinkAction) : wr bool :=
  match hlink_action with
  | DuplicateOf first_ndx => _ ← write_varint (as_u32 first_ndx); mret true
  | _ => mret false
  end.

(** ** flags.rs *)

Definition should_send_rdev (mode : Z) (opts : FileListOptions) : bool :=
  let ft := Z.land mode S_IFMT in
  let is_device := (ft =? S_IFBLK) || (ft =? S_IFCHR) in
  let is_special := (ft =? S_IFIFO) || (ft =? S_IFSOCK) in
  (preserve_devices opts && is_device)
  || (preserve_specials opts && is_special && special_rdev (wire opts)).

(** [zip(..).take(max).take_while(|(x, y)| x == y).count()] *)
Fixpoint matching (max : nat) (a b : list Z) : nat :=
  match max, a, b with
  | S max', x :: a', y :: b' => if x =? y then S (matching max' a' b') else O
  | _, _, _ => O
  end.
Definition common_prefix_len (a b : list Z) : nat :=
  matching (Nat.min (Nat.min (length a) (length b)) 255) a b.

(** [if cond { flags |= bit }] *)
Definition set_if (cond : bool) (bit flags : Z) : Z := if cond then Z.lor flags bit else flags.

Definition bytes_eqb (a b : list Z) : bool := bool_decide (a = b).

Definition compute_xmit_flags (entry : FileEntry) (wire_name : list Z) (state : DeltaState)
    (opts : FileListOptions) (hlink_action : HardLinkAction) : Z :=
  let flags := Z.land (flags entry) XMIT_TOP_DIR in
  let flags := match hlink_action with
               | FirstOccurrence => Z.lor flags (Z.lor XMIT_HLINKED XMIT_HLINK_FIRST)
               | DuplicateOf _ => Z.lor flags XMIT_HLINKED
               | NotHardLinked => flags
               end in
  let common_prefix := common_prefix_len (prev_name state) wire_name in
  let flags := set_if (0 <? common_prefix)%nat XMIT_SAME_NAME flags in
  let suffix_len := (length wire_name - common_prefix)%nat in
  let flags := set_if (255 <? suffix_len)%nat XMIT_LONG_NAME flags in
  let has_prev := negb (bool_decide (prev_name state = [])) in
  let flags := set_if ((mtime entry =? prev_mtime state) && has_prev) XMIT_SAME_TIME flags in
  let flags := set_if ((mode entry =? prev_mode state) && has_prev) XMIT_SAME_MODE flags in
  let flags := set_if (negb (preserve_uid opts) || ((uid entry =? prev_uid state) && has_prev)) XMIT_SAME_UID flags in
  let flags := set_if (negb (preserve_gid opts) || ((gid entry =? prev_gid state) && has_prev)) XMIT_SAME_GID flags in
  let flags :=
    if should_send_rdev (mode entry) opts then
      match device_codec (wire opts) with
      | MajorMinor _ => set_if (FileEntry.rdev_major entry =? prev_rdev_major state) XMIT_SAME_RDEV_MAJOR flags
      | SingleInt => set_if (rdev entry =? prev_rdev state) XMIT_SAME_RDEV_PRE28 flags
      end
    else flags in
  let flags := set_if (has_nanoseconds (wire opts) && negb (mtime_nsec entry =? 0)) XMIT_MOD_NSEC flags in
  let flags := set_if (preserve_uid opts && negb (same_uid flags) && has_inline_names (wire opts)
                       && negb (bytes_eqb (user_name entry) [])
                       && negb (bytes_eqb (user_name entry) (prev_user_name state))) XMIT_USER_NAME_FOLLOWS flags in
  set_if (preserve_gid opts && negb (same_gid flags) && has_inline_names (wire opts)
          && negb (bytes_eqb (group_name entry) [])
          && negb (bytes_eqb (group_name entry) (prev_group_name state))) XMIT_GROUP_NAME_FOLLOWS flags.

Inductive DecodedFlags :=
  | DfEntry (flags : Z)
  | DfEndOfList (io_error : Z).

Definition decode_xmit_flags (opts : FileListOptions) : rd DecodedFlags :=
  match flags_codec (wire opts) with
  | FVarint =>
      f ← read_varint;
      if f =? 0 then io_error ← read_varint; mret (DfEndOfList (as_i32 io_error))
      else mret (DfEntry f)
  | ByteExtended =>
      first_byte ← read_byte;
      if first_byte =? 0 then mret (DfEndOfList 0)
      else if has_bits first_byte XMIT_EXTENDED_FLAGS then
        second_byte ← read_byte;
        let f := Z.lor first_byte (second_byte ≪ 8) in
        if f =? Z.lor XMIT_EXTENDED_FLAGS XMIT_IO_ERROR_ENDLIST then
          io_error ← read_varint; mret (DfEndOfList (as_i32 io_error))
        else mret (DfEntry f)
      else mret (DfEntry first_byte)
  | FByte =>
      first_byte ← read_byte;
      if first_byte =? 0 then mret (DfEndOfList 0) else mret (DfEntry first_byte)
  end.

Definition encode_xmit_flags (raw : Z) (opts : FileListOptions) : wr unit :=
  match flags_codec (wire opts) with
  | FVarint => write_varint (if raw =? 0 then XMIT_EXTENDED_FLAGS else raw)
  | ByteExtended =>
      if has_bits raw 0xFF00 || (raw =? 0) then write_shortint (as_u16 (Z.lor raw XMIT_EXTENDED_FLAGS))
      else write_byte (as_u8 raw)
  | FByte =>
      let low := as_u8 (Z.land raw 0xFF) in
      write_byte (if low =? 0 then as_u8 XMIT_TOP_DIR else low)
  end.

Definition encode_end_of_flist (io_error : Z) (opts : FileListOptions) : wr unit :=
  match flags_codec (wire opts) with
  | FVarint => _ ← write_varint 0; write_varint (as_u32 io_error)
  | ByteExtended =>
      if negb (io_error =? 0) then
        _ ← write_shortint (as_u16 (Z.lor XMIT_EXTENDED_FLAGS XMIT_IO_ERROR_ENDLIST));
        write_varint (as_u32 io_error)
      else write_byte 0
  | FByte => write_byte 0
  end.

(** ** fields.rs *)

Definition MAX_NAME_LEN : Z := 64 * 1024.

Definition encode_filename (wire_name : list Z) (state : DeltaState) (flags : Z) (opts : FileListOptions) : wr unit :=
  let codec := int_codec (wire opts) in
  let common_prefix := common_prefix_len (prev_name state) wire_name in
  _ ← (if same_name flags then write_byte (as_u8 (Z.of_nat common_prefix)) else mret tt);
  let suffix_len := Z.of_nat (length wire_name - common_prefix) in
  _ ← (if long_name flags then write_varint30 (as_u32 suffix_len) codec else write_byte (as_u8 suffix_len));
  write_all (drop common_prefix wire_name).

Definition decode_filename (state : DeltaState) (flags : Z) (opts : FileListOptions)
    (iconv : option FilenameConverter) : rd (list Z) :=
  let codec := int_codec (wire opts) in
  prefix_len ← (if same_name flags then read_byte else mret 0);
  suffix_len ← (if long_name flags then read_varint30 codec else read_byte);
  if MAX_NAME_LEN <? prefix_len + suffix_len then
    rd_err (WireValueOutOfRange "filename_len" (prefix_len + suffix_len) MAX_NAME_LEN)
  else
    prefix ← (if 0 <? prefix_len then
                if Z.of_nat (length (prev_name state)) <? prefix_len then
                  rd_err (Handshake ("filename prefix length " +:+ pretty prefix_len
                    +:+ " exceeds previous name length " +:+ pretty (length (prev_name state))))
                else mret (take (Z.to_nat prefix_len) (prev_name state))
              else mret []);
    suffix ← (if 0 <? suffix_len then read_exact suffix_len else mret []);
    let name := prefix ++ suffix in
    mret (match iconv with Some conv => from_wire conv name | None => name end).

Definition encode_file_length (len : Z) (opts : FileListOptions) : wr unit :=
  write_varlong30 len 3 (int_codec (wire opts)).
Definition decode_file_length (opts : FileListOptions) : rd Z := read_varlong30 3 (int_codec (wire opts)).

Definition encode_mtime (mtime flags : Z) (opts : FileListOptions) : wr unit :=
  if same_time flags then mret tt
  else if bool_decide (int_codec (wire opts) = Compact) then write_varlong mtime 4
  else write_int (as_i32 mtime).
Definition decode_mtime (state : DeltaState) (flags : Z) (opts : FileListOptions) : rd Z :=
  if same_time flags then mret (prev_mtime state)
  else if bool_decide (int_codec (wire opts) = Compact) then read_varlong 4
  else read_int.

Definition encode_mtime_nsec (mtime_nsec flags : Z) (opts : FileListOptions) : wr unit :=
  if has_nanoseconds (wire opts) && mod_nsec flags then write_varint mtime_nsec else mret tt.
Definition decode_mtime_nsec (flags : Z) (opts : FileListOptions) : rd Z :=
  if has_nanoseconds (wire opts) && mod_nsec flags then read_varint else mret 0.

Definition encode_mode (mode flags : Z) : wr unit :=
  if same_mode flags then mret tt else write_int (as_i32 mode).
Definition decode_mode (state : DeltaState) (flags : Z) : rd Z :=
  if same_mode flags then mret (prev_mode state) else v ← read_int; mret (as_u32 v).

(** [encode_uid] and [encode_gid] have the same body, as have the decoders. *)
Definition encode_id (preserve same follows : bool) (id : Z) (id_name : list Z) (opts : FileListOptions) : wr unit :=
  if negb preserve || same then mret tt
  else if bool_decide (int_codec (wire opts) = Compact) then
    _ ← write_varint id;
    if follows then
      _ ← write_byte (as_u8 (Z.of_nat (length id_name)));
      write_all id_name
    else mret tt
  else write_int (as_i32 id).
Definition decode_id (preserve same follows : bool) (prev_id : Z) (prev_id_name : list Z)
    (opts : FileListOptions) : rd (Z * list Z) :=
  if negb preserve || same then mret (prev_id, prev_id_name)
  else
    id ← (if bool_decide (int_codec (wire opts) = Compact) then read_varint
          else v ← read_int; mret (as_u32 v));
    id_name ← (if has_inline_names (wire opts) && follows then
                 namelen ← read_byte; read_exact namelen
               else mret prev_id_name);
    mret (id, id_name).

Definition encode_uid (uid : Z) (user_name : list Z) (flags : Z) (opts : FileListOptions) : wr unit :=
  encode_id (preserve_uid opts) (same_uid flags) (user_name_follows flags) uid user_name opts.
Definition decode_uid (state : DeltaState) (flags : Z) (opts : FileListOptions) : rd (Z * list Z) :=
  decode_id (preserve_uid opts) (same_uid flags) (user_name_follows flags) (prev_uid state) (prev_user_name state) opts.
Definition encode_gid (gid : Z) (group_name : list Z) (flags : Z) (opts : FileListOptions) : wr unit :=
  encode_id (preserve_gid opts) (same_gid flags) (group_name_follows flags) gid group_name opts.
Definition decode_gid (state : DeltaState) (flags : Z) (opts : FileListOptions) : rd (Z * list Z) :=
  decode_id (preserve_gid opts) (same_gid flags) (group_name_follows flags) (prev_gid state) (prev_group_name state) opts.

Definition encode_rdev (mode rdev rdev_major rdev_minor flags : Z) (opts : FileListOptions) : wr unit :=
  if negb (should_send_rdev mode opts) then mret tt
  else
    let codec := int_codec (wire opts) in
    match device_codec (wire opts) with
    | SingleInt => if negb (same_rdev_pre28 flags) then write_int (as_i32 rdev) else mret tt
    | MajorMinor varint_minor =>
        _ ← (if negb (same_rdev_major flags) then write_varint30 rdev_major codec else mret tt);
        if varint_minor then write_varint rdev_minor else write_int (as_i32 rdev_minor)
    end.
Definition decode_rdev (mode : Z) (state : DeltaState) (flags : Z) (opts : FileListOptions) : rd Z :=
  if negb (should_send_rdev mode opts) then mret 0
  else
    let codec := int_codec (wire opts) in
    match device_codec (wire opts) with
    | SingleInt => if same_rdev_pre28 flags then mret (prev_rdev state) else v ← read_int; mret (as_u64 v)
    | MajorMinor varint_minor =>
        major ← (if same_rdev_major flags then mret (prev_rdev_major state) else read_varint30 codec);
        minor ← (if varint_minor then read_varint else v ← read_int; mret (as_u32 v));
        mret (Z.lor (major ≪ 8) minor)
    end.

Definition mode_is_symlink (mode : Z) : bool := Z.land mode S_IFMT =? WIRE_S_IFLNK.

Definition encode_symlink (mode : Z) (link_target : list Z) (opts : FileListOptions) : wr unit :=
  if negb (mode_is_symlink mode) || negb (preserve_links opts) then mret tt
  else
    _ ← write_varint30 (as_u32 (Z.of_nat (length link_target))) (int_codec (wire opts));
    write_all link_target.
Definition decode_symlink (mode : Z) (opts : FileListOptions) : rd (list Z) :=
  if negb (mode_is_symlink mode) || negb (preserve_links opts) then mret []
  else
    link_len ← read_varint30 (int_codec (wire opts));
    if MAX_NAME_LEN <? link_len then rd_err (WireValueOutOfRange "symlink_target_len" link_len MAX_NAME_LEN)
    else read_exact link_len.

Definition no_checksum (mode : Z) (opts : FileListOptions) : bool :=
  let checksum_for_all_types := bool_decide (flags_codec (wire opts) = FByte) in
  negb (always_checksum opts) || (negb (Z.land mode S_IFMT =? S_IFREG) && negb checksum_for_all_types).

(** [Vec::resize(n, 0)] *)
Definition resize (n : nat) (l : list Z) : list Z := take n l ++ replicate (n - length l) 0.

Definition encode_checksum (mode : Z) (checksum : list Z) (opts : FileListOptions) : wr unit :=
  if no_checksum mode opts then mret tt
  else if (checksum_len opts <=? length checksum)%nat then write_all (take (checksum_len opts) checksum)
  else write_all (resize (checksum_len opts) checksum).
Definition decode_checksum (mode : Z) (opts : FileListOptions) : rd (list Z) :=
  if no_checksum mode opts then mret []
  else read_exact (Z.of_nat (checksum_len opts)).

(** ** visitor.rs *)

Record FieldValues := mkFieldValues {
  v_wire_name : list Z;
  v_name : list Z;
  v_len : Z;
  v_mtime : Z;
  v_mtime_nsec : Z;
  v_mode : Z;
  v_uid : Z;
  v_gid : Z;
  v_rdev : Z;
  v_link_target : list Z;
  v_checksum : list Z;
  v_user_name : list Z;
  v_group_name : list Z;
  v_raw_flags : Z;
  v_acl : option Acl;
  v_xattrs : option ExtendedAttributes;
  v_hlink_source : option (list Z);
}.

(** [FieldValues { name, ..Default::default() }] *)
Definition FieldValues_default (name : list Z) : FieldValues :=
  mkFieldValues [] name 0 0 0 0 0 0 0 [] [] [] [] 0 None None None.

Definition from_entry (e : FileEntry) (wire_name : list Z) : FieldValues :=
  mkFieldValues wire_name (name e) (len e) (mtime e) (mtime_nsec e) (mode e) (uid e) (gid e) (rdev e)
    (link_target e) (checksum e) (user_name e) (group_name e) (flags e) (acl e) (xattrs e) (hlink_source e).

Definition into_entry (v : FieldValues) (flags : Z) : FileEntry :=
  mkFileEntry (v_name v) (v_len v) (v_mtime v) (v_mtime_nsec v) (v_mode v) (v_uid v) (v_gid v) (v_rdev v)
    (v_link_target v) (v_checksum v) flags (v_user_name v) (v_group_name v) (v_hlink_source v) None
    (v_acl v) (v_xattrs v).

Definition update_state (v : FieldValues) (state : DeltaState) : DeltaState :=
  mkDeltaState (v_name v) (v_mtime v) (v_mode v) (v_uid v) (v_gid v) (v_rdev v) (as_u32 (v_rdev v ≫ 8))
    (v_user_name v) (v_group_name v) (ndx_start state).

Definition set_v_len (x : Z) (v : FieldValues) : FieldValues :=
  mkFieldValues (v_wire_name v) (v_name v) x (v_mtime v) (v_mtime_nsec v) (v_mode v) (v_uid v) (v_gid v) (v_rdev v) (v_link_target v) (v_checksum v) (v_user_name v) (v_group_name v) (v_raw_flags v) (v_acl v) (v_xattrs v) (v_hlink_source v).
Definition set_v_mtime (x : Z) (v : FieldValues) : FieldValues :=
  mkFieldValues (v_wire_name v) (v_name v) (v_len v) x (v_mtime_nsec v) (v_mode v) (v_uid v) (v_gid v) (v_rdev v) (v_link_target v) (v_checksum v) (v_user_name v) (v_group_name v) (v_raw_flags v) (v_acl v) (v_xattrs v) (v_hlink_source v).
Definition set_v_mtime_nsec (x : Z) (v : FieldValues) : FieldValues :=
  mkFieldValues (v_wire_name v) (v_name v) (v_len v) (v_mtime v) x (v_mode v) (v_uid v) (v_gid v) (v_rdev v) (v_link_target v) (v_checksum v) (v_user_name v) (v_group_name v) (v_raw_flags v) (v_acl v) (v_xattrs v) (v_hlink_source v).
Definition set_v_mode (x : Z) (v : FieldValues) : FieldValues :=
  mkFieldValues (v_wire_name v) (v_name v) (v_len v) (v_mtime v) (v_mtime_nsec v) x (v_uid v) (v_gid v) (v_rdev v) (v_link_target v) (v_checksum v) (v_user_name v) (v_group_name v) (v_raw_flags v) (v_acl v) (v_xattrs v) (v_hlink_source v).
Definition set_v_uid (x : Z) (n : list Z) (v : FieldValues) : FieldValues :=
  mkFieldValues (v_wire_name v) (v_name v) (v_len v) (v_mtime v) (v_mtime_nsec v) (v_mode v) x (v_gid v) (v_rdev v) (v_link_target v) (v_checksum v) n (v_group_name v) (v_raw_flags v) (v_acl v) (v_xattrs v) (v_hlink_source v).
Definition set_v_gid (x : Z) (n : list Z) (v : FieldValues) : FieldValues :=
  mkFieldValues (v_wire_name v) (v_name v) (v_len v) (v_mtime v) (v_mtime_nsec v) (v_mode v) (v_uid v) x (v_rdev v) (v_link_target v) (v_checksum v) (v_user_name v) n (v_raw_flags v) (v_acl v) (v_xattrs v) (v_hlink_source v).
Definition set_v_rdev (x : Z) (v : FieldValues) : FieldValues :=
  mkFieldValues (v_wire_name v) (v_name v) (v_len v) (v_mtime v) (v_mtime_nsec v) (v_mode v) (v_uid v) (v_gid v) x (v_link_target v) (v_checksum v) (v_user_name v) (v_group_name v) (v_raw_flags v) (v_acl v) (v_xattrs v) (v_hlink_source v).
Definition set_v_link_target (x : list Z) (v : FieldValues) : FieldValues :=
  mkFieldValues (v_wire_name v) (v_name v) (v_len v) (v_mtime v) (v_mtime_nsec v) (v_mode v) (v_uid v) (v_gid v) (v_rdev v) x (v_checksum v) (v_user_name v) (v_group_name v) (v_raw_flags v) (v_acl v) (v_xattrs v) (v_hlink_source v).
Definition set_v_checksum (x : list Z) (v : FieldValues) : FieldValues :=
  mkFieldValues (v_wire_name v) (v_name v) (v_len v) (v_mtime v) (v_mtime_nsec v) (v_mode v) (v_uid v) (v_gid v) (v_rdev v) (v_link_target v) x (v_user_name v) (v_group_name v) (v_raw_flags v) (v_acl v) (v_xattrs v) (v_hlink_source v).
Definition set_v_acl (x : option Acl) (v : FieldValues) : FieldValues :=
  mkFieldValues (v_wire_name v) (v_name v) (v_len v) (v_mtime v) (v_mtime_nsec v) (v_mode v) (v_uid v) (v_gid v) (v_rdev v) (v_link_target v) (v_checksum v) (v_user_name v) (v_group_name v) (v_raw_flags v) x (v_xattrs v) (v_hlink_source v).
Definition set_v_xattrs (x : option ExtendedAttributes) (v : FieldValues) : FieldValues :=
  mkFieldValues (v_wire_name v) (v_name v) (v_len v) (v_mtime v) (v_mtime_nsec v) (v_mode v) (v_uid v) (v_gid v) (v_rdev v) (v_link_target v) (v_checksum v) (v_user_name v) (v_group_name v) (v_raw_flags v) (v_acl v) x (v_hlink_source v).

(** What a visitor method sees; the methods change the values only. *)
Record FieldContext := mkFieldContext {
  cx_flags : Z;
  cx_state : DeltaState;
  cx_opts : FileListOptions;
}.

(** The trait [FieldVisitor]: [M] is the effect of the visitor (reading or
    writing), [V] its own state (the ACL and attribute tables). *)
Record FieldVisitor (M : Type -> Type) (V : Type) := mkFieldVisitor {
  visit_len : FieldContext -> FieldValues -> M FieldValues;
  visit_mtime : FieldContext -> FieldValues -> M FieldValues;
  visit_mtime_nsec : FieldContext -> FieldValues -> M FieldValues;
  visit_mode : FieldContext -> FieldValues -> M FieldValues;
  visit_uid : FieldContext -> FieldValues -> M FieldValues;
  visit_gid : FieldContext -> FieldValues -> M FieldValues;
  visit_rdev : FieldContext -> FieldValues -> M FieldValues;
  visit_symlink : FieldContext -> FieldValues -> M FieldValues;
  visit_checksum : FieldContext -> FieldValues -> M FieldValues;
  visit_acl : FieldContext -> FieldValues -> V -> M (FieldValues * V)%type;
  visit_xattr : FieldContext -> FieldValues -> V -> M (FieldValues * V)%type;
}.
Arguments visit_len {M V} _ _ _.
Arguments visit_mtime {M V} _ _ _.
Arguments visit_mtime_nsec {M V} _ _ _.
Arguments visit_mode {M V} _ _ _.
Arguments visit_uid {M V} _ _ _.
Arguments visit_gid {M V} _ _ _.
Arguments visit_rdev {M V} _ _ _.
Arguments visit_symlink {M V} _ _ _.
Arguments visit_checksum {M V} _ _ _.
Arguments visit_acl {M V} _ _ _ _.
Arguments visit_xattr {M V} _ _ _ _.

Definition traverse_fields {M : Type -> Type} `{MRet M, MBind M} {V} (visitor : FieldVisitor M V)
    (ctx : FieldContext) (values : FieldValues) (st : V) : M (FieldValues * V)%type :=
  values ← visit_len visitor ctx values;
  values ← visit_mtime visitor ctx values;
  values ← visit_mtime_nsec visitor ctx values;
  values ← visit_mode visitor ctx values;
  values ← visit_uid visitor ctx values;
  values ← visit_gid visitor ctx values;
  values ← visit_rdev visitor ctx values;
  values ← visit_symlink visitor ctx values;
  values ← visit_checksum visitor ctx values;
  p ← visit_acl visitor ctx values st;
  visit_xattr visitor ctx p.1 p.2.

Definition Encoder : FieldVisitor wr (AclEncoder * XattrEncoder) := {|
  visit_len ctx v := _ ← encode_file_length (v_len v) (cx_opts ctx); mret v;
  visit_mtime ctx v := _ ← encode_mtime (v_mtime v) (cx_flags ctx) (cx_opts ctx); mret v;
  visit_mtime_nsec ctx v := _ ← encode_mtime_nsec (v_mtime_nsec v) (cx_flags ctx) (cx_opts ctx); mret v;
  visit_mode ctx v := _ ← encode_mode (v_mode v) (cx_flags ctx); mret v;
  visit_uid ctx v := _ ← encode_uid (v_uid v) (v_user_name v) (cx_flags ctx) (cx_opts ctx); mret v;
  visit_gid ctx v := _ ← encode_gid (v_gid v) (v_group_name v) (cx_flags ctx) (cx_opts ctx); mret v;
  visit_rdev ctx v :=
    let entry_rdev_major := as_u32 (v_rdev v ≫ 8) in
    let entry_rdev_minor := as_u32 (Z.land (v_rdev v) 0xFF) in
    _ ← encode_rdev (v_mode v) (v_rdev v) entry_rdev_major entry_rdev_minor (cx_flags ctx) (cx_opts ctx); mret v;
  visit_symlink ctx v := _ ← encode_symlink (v_mode v) (v_link_target v) (cx_opts ctx); mret v;
  visit_checksum ctx v := _ ← encode_checksum (v_mode v) (v_checksum v) (cx_opts ctx); mret v;
  visit_acl ctx v st :=
    if preserve_acls (cx_opts ctx) && negb (mode_is_symlink (v_mode v)) then
      a ← encode_acl (v_acl v) (v_mode v) st.1; mret (v, (a, st.2))
    else mret (v, st);
  visit_xattr ctx v st :=
    if preserve_xattrs (cx_opts ctx) then
      x ← encode_xattrs (v_xattrs v) st.2; mret (v, (st.1, x))
    else mret (v, st);
|}.

Definition Decoder : FieldVisitor rd (AclDecoder * XattrDecoder) := {|
  visit_len ctx v := x ← decode_file_length (cx_opts ctx); mret (set_v_len x v);
  visit_mtime ctx v := x ← decode_mtime (cx_state ctx) (cx_flags ctx) (cx_opts ctx); mret (set_v_mtime x v);
  visit_mtime_nsec ctx v := x ← decode_mtime_nsec (cx_flags ctx) (cx_opts ctx); mret (set_v_mtime_nsec x v);
  visit_mode ctx v := x ← decode_mode (cx_state ctx) (cx_flags ctx); mret (set_v_mode x v);
  visit_uid ctx v := x ← decode_uid (cx_state ctx) (cx_flags ctx) (cx_opts ctx); mret (set_v_uid x.1 x.2 v);
  visit_gid ctx v := x ← decode_gid (cx_state ctx) (cx_flags ctx) (cx_opts ctx); mret (set_v_gid x.1 x.2 v);
  visit_rdev ctx v := x ← decode_rdev (v_mode v) (cx_state ctx) (cx_flags ctx) (cx_opts ctx); mret (set_v_rdev x v);
  visit_symlink ctx v := x ← decode_symlink (v_mode v) (cx_opts ctx); mret (set_v_link_target x v);
  visit_checksum ctx v := x ← decode_checksum (v_mode v) (cx_opts ctx); mret (set_v_checksum x v);
  visit_acl ctx v st :=
    if preserve_acls (cx_opts ctx) && negb (mode_is_symlink (v_mode v)) then
      p ← decode_acl (v_mode v) st.1; mret (set_v_acl p.1 v, (p.2, st.2))
    else mret (set_v_acl None v, st);
  visit_xattr ctx v st :=
    if preserve_xattrs (cx_opts ctx) then
      p ← decode_xattrs st.2; mret (set_v_xattrs p.1 v, (st.1, p.2))
    else mret (set_v_xattrs None v, st);
|}.

(** ** mod.rs *)

(** The state of the sending side, and of the receiving side. *)
Record EncoderState := mkEncoderState {
  es_delta : DeltaState;
  es_hlink : HardLinkEncoder;
  es_attrs : AclEncoder * XattrEncoder;
}.
Record DecoderState := mkDecoderState {
  ds_delta : DeltaState;
  ds_hlink : HardLinkDecoder;
  ds_attrs : AclDecoder * XattrDecoder;
}.
Definition EncoderState_new : EncoderState := mkEncoderState DeltaState_default ∅ (AclEncoder_new, []).
Definition DecoderState_new : DecoderState := mkDecoderState DeltaState_default ∅ (AclDecoder_new, []).

Definition encode_entry (entry : FileEntry) (st : EncoderState) (opts : FileListOptions)
    (hlink_info : option HardLinkInfo) (entry_index : Z) (iconv : option FilenameConverter) : wr EncoderState :=
  let wire_name := match iconv with Some conv => to_wire conv (name entry) | None => name entry end in
  let '(hlink_action, hlink) := resolve_hlink_action opts hlink_info (es_hlink st) entry_index in
  let xmit_flags := compute_xmit_flags entry wire_name (es_delta st) opts hlink_action in
  _ ← encode_xmit_flags xmit_flags opts;
  _ ← encode_filename wire_name (es_delta st) xmit_flags opts;
  abbreviated ← encode_hlink hlink_action;
  if (abbreviated : bool) then
    mret (mkEncoderState (set_prev_name wire_name (update_delta_state (es_delta st) entry)) hlink (es_attrs st))
  else
    let values := from_entry entry wire_name in
    p ← traverse_fields Encoder (mkFieldContext xmit_flags (es_delta st) opts) values (es_attrs st);
    mret (mkEncoderState (update_state p.1 (es_delta st)) hlink p.2).

Inductive ReadEntryResult :=
  | ReadEntry (entry : FileEntry)
  | ReadEndOfList (io_error : Z).

Definition hlink_clone (first : FileEntry) (nm : list Z) (fl : Z) : FileEntry :=
  mkFileEntry nm (len first) (mtime first) (mtime_nsec first) (mode first) (uid first) (gid first) (rdev first)
    (link_target first) (checksum first) fl (user_name first) (group_name first) (Some (name first))
    (hard_link_info_field first) (acl first) (xattrs first).

(** [None]: go on with the other fields. [prev_entries.get(idx as usize)] of a
    negative index is past the end. *)
Definition decode_hlink (flags : Z) (opts : FileListOptions) (groups : HardLinkDecoder)
    (prev_entries : list FileEntry) (name : list Z) (state : DeltaState)
    : rd (option (FileEntry * DeltaState * HardLinkDecoder)) :=
  if negb (preserve_hard_links opts) || negb (hlinked flags) then mret None
  else if negb (hlink_first flags) then
    v ← read_varint;
    let first_ndx := as_i32 v in
    let local_idx := as_i32 (first_ndx - ndx_start state) in
    match (if local_idx <? 0 then None else prev_entries !! Z.to_nat local_idx) with
    | Some first =>
        let entry := hlink_clone first name flags in
        let groups := record_duplicate (Z.of_nat (length prev_entries)) first_ndx groups in
        mret (Some (entry, update_delta_state state entry, groups))
    | None => mret None
    end
  else mret None.

Definition decode_entry (st : DecoderState) (opts : FileListOptions) (prev_entries : list FileEntry)
    (iconv : option FilenameConverter) : rd (ReadEntryResult * DecoderState) :=
  df ← decode_xmit_flags opts;
  match (df : DecodedFlags) with
  | DfEndOfList io_error => mret (ReadEndOfList io_error, st)
  | DfEntry xmit_flags =>
      name ← decode_filename (ds_delta st) xmit_flags opts iconv;
      h ← decode_hlink xmit_flags opts (ds_hlink st) prev_entries name (ds_delta st);
      match (h : option (FileEntry * DeltaState * HardLinkDecoder)) with
      | Some (entry, delta, groups) => mret (ReadEntry entry, mkDecoderState delta groups (ds_attrs st))
      | None =>
          p ← traverse_fields Decoder (mkFieldContext xmit_flags (ds_delta st) opts)
                (FieldValues_default name) (ds_attrs st);
          let entry := into_entry p.1 xmit_flags in
          mret (ReadEntry entry, mkDecoderState (update_delta_state (ds_delta st) entry) (ds_hlink st) p.2)
      end
  end.

(** ** Flag bits *)

Lemma has_bits_testbit f b : 0 <= b -> has_bits f (1 ≪ b) = Z.testbit f b.
Proof.
  intros Hb. unfold has_bits. rewrite Z.shiftl_1_l.
  assert (E : Z.land f (2 ^ b) = if Z.testbit f b then 2 ^ b else 0).
  { apply Z.bits_inj'. intros i Hi. rewrite Z.land_spec, Z.pow2_bits_eqb by done.
    destruct (Z.eqb_spec b i) as [->|].
    - destruct (Z.testbit f i); [by rewrite Z.pow2_bits_true by lia|by rewrite Z.bits_0].
    - rewrite andb_false_r. destruct (Z.testbit f b); [by rewrite Z.pow2_bits_false by lia|by rewrite Z.bits_0]. }
  rewrite E. destruct (Z.testbit f b); [|done].
  assert (0 < 2 ^ b) by (apply Z.pow_pos_nonneg; lia). destruct (Z.eqb_spec (2 ^ b) 0); [lia|done].
Qed.

Lemma testbit_set_if c k f b : 0 <= k -> Z.testbit (set_if c (1 ≪ k) f) b = Z.testbit f b || (c && (k =? b)).
Proof.
  intros Hk. unfold set_if. rewrite Z.shiftl_1_l. destruct c; cbn [andb]; [|by rewrite orb_false_r].
  by rewrite Z.lor_spec, Z.pow2_bits_eqb.
Qed.

(** Every bit [compute_xmit_flags] sets. *)
Definition xmit_bit (entry : FileEntry) (wire_name : list Z) (state : DeltaState) (opts : FileListOptions)
    (action : HardLinkAction) (b : Z) : bool :=
  let has_prev := negb (bool_decide (prev_name state = [])) in
  let p := common_prefix_len (prev_name state) wire_name in
  let same_u := negb (preserve_uid opts) || ((uid entry =? prev_uid state) && has_prev) in
  let same_g := negb (preserve_gid opts) || ((gid entry =? prev_gid state) && has_prev) in
  let rdev := should_send_rdev (mode entry) opts in
  ((0 =? b) && Z.testbit (flags entry) 0)
  || (match action with NotHardLinked => false | _ => 9 =? b end)
  || (match action with FirstOccurrence => 12 =? b | _ => false end)
  || ((0 <? p)%nat && (5 =? b))
  || ((255 <? length wire_name - p)%nat && (6 =? b))
  || ((mtime entry =? prev_mtime state) && has_prev && (7 =? b))
  || ((mode entry =? prev_mode state) && has_prev && (1 =? b))
  || (same_u && (3 =? b))
  || (same_g && (4 =? b))
  || (rdev && match device_codec (wire opts) with
              | MajorMinor _ => (FileEntry.rdev_major entry =? prev_rdev_major state) && (8 =? b)
              | SingleInt => (Types.rdev entry =? prev_rdev state) && (2 =? b)
              end)
  || (has_nanoseconds (wire opts) && negb (mtime_nsec entry =? 0) && (13 =? b))
  || (preserve_uid opts && negb same_u && has_inline_names (wire opts) && negb (bytes_eqb (user_name entry) [])
      && negb (bytes_eqb (user_name entry) (prev_user_name state)) && (10 =? b))
  || (preserve_gid opts && negb same_g && has_inline_names (wire opts) && negb (bytes_eqb (group_name entry) [])
      && negb (bytes_eqb (group_name entry) (prev_group_name state)) && (11 =? b)).

Lemma compute_xmit_bit entry wire_name state opts action b : 0 <= b ->
  Z.testbit (compute_xmit_flags entry wire_name state opts action) b =
  xmit_bit entry wire_name state opts action b.
Proof.
  intros Hb. unfold compute_xmit_flags, XMIT_SAME_NAME, XMIT_LONG_NAME, XMIT_SAME_TIME, XMIT_SAME_MODE, XMIT_SAME_UID,
    XMIT_SAME_GID, XMIT_SAME_RDEV_MAJOR, XMIT_SAME_RDEV_PRE28, XMIT_MOD_NSEC, XMIT_USER_NAME_FOLLOWS,
    XMIT_GROUP_NAME_FOLLOWS.
  set (f0 := Z.land (flags entry) XMIT_TOP_DIR).
  assert (H0 : forall b, 0 <= b -> Z.testbit f0 b = (0 =? b) && Z.testbit (flags entry) 0).
  { intros i Hi. unfold f0. rewrite Z.land_spec. change XMIT_TOP_DIR with (2 ^ 0). rewrite Z.pow2_bits_eqb by lia.
    destruct (Z.eqb_spec 0 i) as [<-|]; [by rewrite andb_true_r|by rewrite andb_false_r]. }
  set (f1 := match action with FirstOccurrence => _ | _ => _ end).
  assert (H1 : forall b, 0 <= b -> Z.testbit f1 b = ((0 =? b) && Z.testbit (flags entry) 0)
     || (match action with NotHardLinked => false | _ => 9 =? b end)
     || (match action with FirstOccurrence => 12 =? b | _ => false end)).
  { intros i Hi. unfold f1. destruct action; rewrite ?Z.lor_spec, H0 by done.
    - by rewrite !orb_false_r.
    - change XMIT_HLINKED with (2 ^ 9). change XMIT_HLINK_FIRST with (2 ^ 12).
      rewrite !Z.pow2_bits_eqb by lia. by rewrite orb_assoc.
    - change XMIT_HLINKED with (2 ^ 9). rewrite Z.pow2_bits_eqb by lia. by rewrite orb_false_r. }
  clearbody f1. clear f0 H0. cbv zeta.
  set (f2 := set_if _ (1 ≪ 4) _).
  assert (H2 : forall b, 0 <= b -> Z.testbit f2 b = Z.testbit f1 b
     || ((0 <? common_prefix_len (prev_name state) wire_name)%nat && (5 =? b))
     || ((255 <? length wire_name - common_prefix_len (prev_name state) wire_name)%nat && (6 =? b))
     || ((mtime entry =? prev_mtime state) && negb (bool_decide (prev_name state = [])) && (7 =? b))
     || ((mode entry =? prev_mode state) && negb (bool_decide (prev_name state = [])) && (1 =? b))
     || ((negb (preserve_uid opts) || ((uid entry =? prev_uid state) && negb (bool_decide (prev_name state = [])))) && (3 =? b))
     || ((negb (preserve_gid opts) || ((gid entry =? prev_gid state) && negb (bool_decide (prev_name state = [])))) && (4 =? b))).
  { intros i Hi. unfold f2. by rewrite !testbit_set_if by lia. }
  clearbody f2.
  set (f3 := if should_send_rdev _ _ then _ else f2).
  assert (H3 : forall b, 0 <= b -> Z.testbit f3 b = Z.testbit f2 b
     || (should_send_rdev (mode entry) opts && match device_codec (wire opts) with
              | MajorMinor _ => (FileEntry.rdev_major entry =? prev_rdev_major state) && (8 =? b)
              | SingleInt => (rdev entry =? prev_rdev state) && (2 =? b)
              end)).
  { intros i Hi. unfold f3. destruct (should_send_rdev _ _); [|by rewrite orb_false_r]. cbn [andb].
    destruct (device_codec _); by rewrite testbit_set_if by lia. }
  clearbody f3.
  assert (Hu : Z.testbit f3 3 = negb (preserve_uid opts) || ((uid entry =? prev_uid state) && negb (bool_decide (prev_name state = [])))).
  { rewrite H3, H2, H1 by lia. cbn [Z.eqb Pos.eqb]. destruct action, (device_codec (wire opts));
      rewrite ?andb_false_r, ?andb_true_r, ?orb_false_r; done. }
  assert (Hg : Z.testbit f3 4 = negb (preserve_gid opts) || ((gid entry =? prev_gid state) && negb (bool_decide (prev_name state = [])))).
  { rewrite H3, H2, H1 by lia. cbn [Z.eqb Pos.eqb]. destruct action, (device_codec (wire opts));
      rewrite ?andb_false_r, ?andb_true_r, ?orb_false_r; done. }
  unfold same_uid, same_gid, XMIT_SAME_UID, XMIT_SAME_GID. rewrite !has_bits_testbit by lia.
  rewrite !testbit_set_if by lia. rewrite Hu, Hg. cbn [Z.eqb Pos.eqb]. rewrite !andb_false_r, !orb_false_r.
  rewrite H3, H2, H1 by lia. reflexivity.
Qed.

Lemma bits_bound x n : 0 <= n -> (forall b, n <= b -> Z.testbit x b = false) -> 0 <= x < 2 ^ n.
Proof.
  intros Hn Hb. assert (E : x = x mod 2 ^ n).
  { apply Z.bits_inj'. intros i Hi. destruct (Z.ltb_spec i n).
    - by rewrite Z.mod_pow2_bits_low by lia.
    - rewrite Z.mod_pow2_bits_high by lia. by apply Hb. }
  rewrite E. apply Z.mod_pos_bound, Z.pow_pos_nonneg; lia.
Qed.

(** The flag word the other side sees. *)
Definition wire_flags (codec : FlagsCodec) (raw : Z) : Z :=
  match codec with
  | FVarint => if raw =? 0 then XMIT_EXTENDED_FLAGS else raw
  | ByteExtended => if has_bits raw 0xFF00 || (raw =? 0) then Z.lor raw XMIT_EXTENDED_FLAGS else raw
  | FByte => if raw =? 0 then XMIT_TOP_DIR else raw
  end.

(** Flag words each codec carries: the one-byte codec has room for eight bits,
    the extended one uses bit 2 itself, and a first occurrence is a link. *)
Definition flags_fit (codec : FlagsCodec) (raw : Z) : Prop :=
  0 <= raw < 2 ^ 14 /\ (codec = FByte -> raw < 2 ^ 8) /\
  (codec = ByteExtended -> Z.testbit raw 2 = false) /\
  (Z.testbit raw 12 = true -> Z.testbit raw 9 = true).

Lemma high_byte raw : 0 <= raw < 2 ^ 14 -> has_bits raw 0xFF00 = negb (raw <? 2 ^ 8).
Proof.
  intros Hr. unfold has_bits. f_equal.
  assert (E : Z.land raw 0xFF00 = raw - raw mod 2 ^ 8).
  { replace (raw - raw mod 2 ^ 8) with ((raw / 2 ^ 8) * 2 ^ 8) by (pose proof (Z.div_mod raw (2 ^ 8)); lia).
    apply Z.bits_inj'. intros i Hi. rewrite Z.land_spec. destruct (Z.ltb_spec i 8).
    - rewrite Z.mul_pow2_bits_low by lia. replace 0xFF00 with (255 * 2 ^ 8) by lia.
      rewrite Z.mul_pow2_bits_low by lia. apply andb_false_r.
    - rewrite Z.mul_pow2_bits by lia. rewrite Z.div_pow2_bits by lia. replace (i - 8 + 8) with i by lia.
      replace 0xFF00 with (255 * 2 ^ 8) by lia. rewrite Z.mul_pow2_bits by lia.
      destruct (Z.ltb_spec (i - 8) 8).
      + change 255 with (Z.ones 8). rewrite Z.ones_spec_low by lia. apply andb_true_r.
      + rewrite (Z.bits_above_log2 raw i); [done|lia|].
        destruct (decide (raw = 0)) as [->|]; [simpl; lia|]. apply Z.log2_lt_pow2; [lia|].
        eapply Z.lt_le_trans; [apply Hr|]. apply Z.pow_le_mono_r; lia. }
  rewrite E. destruct (Z.eqb_spec (raw - raw mod 2 ^ 8) 0), (Z.ltb_spec raw (2 ^ 8)); try done; zlia.
Qed.

Lemma wire_flags_bit codec raw b : flags_fit codec raw -> 0 <= b ->
  b <> 0 -> (b = 2 -> codec <> FVarint /\ codec <> ByteExtended) ->
  Z.testbit (wire_flags codec raw) b = Z.testbit raw b.
Proof.
  intros (Hr & H8 & H2 & H12) Hb Hb0 Hb2.
  assert (E0 : raw = 0 -> Z.testbit raw b = false) by (intros ->; apply Z.bits_0).
  assert (E2 : codec <> FByte -> b <> 2 \/ (codec <> FVarint /\ codec <> ByteExtended)).
  { intros _. destruct (decide (b = 2)); auto. }
  unfold wire_flags. destruct codec.
  - destruct (Z.eqb_spec raw 0) as [->|]; [|done]. rewrite Z.bits_0. change XMIT_TOP_DIR with (2 ^ 0).
    apply Z.pow2_bits_false. lia.
  - destruct (_ || _); [|done]. rewrite Z.lor_spec. change XMIT_EXTENDED_FLAGS with (2 ^ 2).
    rewrite Z.pow2_bits_false by (intros <-; destruct (Hb2 eq_refl); done). apply orb_false_r.
  - destruct (Z.eqb_spec raw 0) as [->|]; [|done]. rewrite Z.bits_0. change XMIT_EXTENDED_FLAGS with (2 ^ 2).
    apply Z.pow2_bits_false. intros <-. destruct (Hb2 eq_refl). done.
Qed.

Lemma ext_flags_bytes raw : 0 <= raw < 2 ^ 14 -> Z.testbit raw 2 = false ->
  (Z.testbit raw 12 = true -> Z.testbit raw 9 = true) ->
  let v := Z.lor raw XMIT_EXTENDED_FLAGS in
  0 <= v < 2 ^ 14 /\ has_bits (v mod 256) XMIT_EXTENDED_FLAGS = true /\ v mod 256 <> 0 /\
  Z.lor (v mod 256) ((v / 256) ≪ 8) = v /\ v <> 0x1004.
Proof.
  intros Hr H2 H12. cbv zeta. set (v := Z.lor raw XMIT_EXTENDED_FLAGS).
  assert (Ht : forall b, Z.testbit v b = Z.testbit raw b || (2 =? b)).
  { intros b. unfold v. rewrite Z.lor_spec. change XMIT_EXTENDED_FLAGS with (2 ^ 2). by rewrite Z.pow2_bits_eqb by lia. }
  assert (Hv : 0 <= v < 2 ^ 14).
  { apply bits_bound; [lia|]. intros b Hb. rewrite Ht. destruct (Z.eqb_spec 2 b); [lia|]. rewrite orb_false_r.
    destruct (decide (raw = 0)) as [->|]; [apply Z.bits_0|]. apply Z.bits_above_log2; [lia|].
    apply Z.log2_lt_pow2; [lia|]. eapply Z.lt_le_trans; [apply Hr|]. apply Z.pow_le_mono_r; lia. }
  assert (Hlow : has_bits (v mod 256) XMIT_EXTENDED_FLAGS = true).
  { unfold XMIT_EXTENDED_FLAGS. rewrite has_bits_testbit by lia. change 256 with (2 ^ 8).
    rewrite Z.mod_pow2_bits_low by lia. rewrite Ht. apply orb_true_r. }
  split_and!; [lia|lia|done| | |].
  - intros E. by rewrite E in Hlow.
  - rewrite Z.lor_comm. rewrite Z.shiftl_mul_pow2 by lia.
    rewrite (lor_disjoint _ _ 8 (v / 256)) by (done || lia || (change (2 ^ 8) with 256; apply Z.mod_pos_bound; lia)).
    change (2 ^ 8) with 256. pose proof (Z.div_mod v 256 ltac:(lia)). lia.
  - intros E. assert (H : Z.testbit raw 12 = true) by (pose proof (Ht 12) as H; rewrite E, orb_false_r in H; by rewrite <- H).
    specialize (H12 H). pose proof (Ht 9) as H9. rewrite E, H12 in H9. done.
Qed.

Lemma encode_flags_mirrors raw opts : flags_fit (flags_codec (wire opts)) raw ->
  mirrors (encode_xmit_flags raw opts) (decode_xmit_flags opts)
    (fun _ df => df = DfEntry (wire_flags (flags_codec (wire opts)) raw)).
Proof.
  intros (Hr & H8 & H2 & H12). unfold encode_xmit_flags, decode_xmit_flags, wire_flags.
  destruct (flags_codec (wire opts)).
  - change 0xFF with (Z.ones 8). rewrite Z.land_ones, wrap_id by (try lia; apply Z.mod_pos_bound; lia).
    rewrite Z.mod_small by (specialize (H8 eq_refl); lia).
    eapply mirrors_then; [apply write_byte_mirrors|]. intros [] ? ->.
    destruct (Z.eqb_spec raw 0) as [->|]; [by apply mirrors_ret|]. destruct (Z.eqb_spec raw 0); [done|]. by apply mirrors_ret.
  - destruct (has_bits raw 0xFF00 || (raw =? 0)) eqn:E.
    + destruct (ext_flags_bytes raw Hr (H2 eq_refl) H12) as (Hv & Hlow & Hnz & Hcomb & Hend).
      set (v := Z.lor raw XMIT_EXTENDED_FLAGS) in *. clearbody v. rewrite wrap_id by lia.
      assert (Hv8 : 0 <= v / 256 < 256) by (clear -Hv; zlia).
      eexists tt, _, [v mod 256; v / 256]. split_and!; [|intros k|reflexivity].
      * unfold write_shortint, write_all. cbn [le_bytes]. by rewrite (Z.mod_small (v / 256) 256) by lia.
      * cbn [app]. unfold read_byte. erewrite rd_bind_run by (erewrite rd_bind_run by apply read_exact_cons; reflexivity).
        look. destruct (Z.eqb_spec (v mod 256) 0); [done|]. rewrite Hlow.
        erewrite rd_bind_run by (erewrite rd_bind_run by apply read_exact_cons; reflexivity). look. cbv zeta.
        rewrite Hcomb. destruct (Z.eqb_spec v (Z.lor XMIT_EXTENDED_FLAGS XMIT_IO_ERROR_ENDLIST)); [done|]. done.
    + apply orb_false_iff in E as [E1 E2]. rewrite high_byte in E1 by done. zbool.
      rewrite wrap_id by lia. eapply mirrors_then; [apply write_byte_mirrors|]. intros [] ? ->.
      destruct (Z.eqb_spec raw 0); [done|]. unfold XMIT_EXTENDED_FLAGS. rewrite has_bits_testbit by lia.
      rewrite H2 by done. by apply mirrors_ret.
  - eapply mirrors_then; [apply write_varint_mirrors; destruct (raw =? 0); [done|lia]|].
    intros [] ? ->. destruct (Z.eqb_spec raw 0); [by apply mirrors_ret|]. destruct (Z.eqb_spec raw 0); [done|].
    by apply mirrors_ret.
Qed.

(** ** Fields *)

Lemma matching_spec m a b : let p := matching m a b in
  (p <= m)%nat /\ (p <= length a)%nat /\ (p <= length b)%nat /\ take p a = take p b.
Proof.
  revert a b. induction m as [|m IH]; intros [|x a] [|y b]; cbn [matching]; try (cbn; repeat split; lia).
  destruct (Z.eqb_spec x y) as [->|]; [|cbn; repeat split; lia]. destruct (IH a b) as (H1 & H2 & H3 & H4).
  cbn [length take]. rewrite H4. repeat split; lia.
Qed.

Lemma common_prefix_spec a b : let p := common_prefix_len a b in
  (p <= 255)%nat /\ (p <= length a)%nat /\ (p <= length b)%nat /\ take p a = take p b.
Proof. unfold common_prefix_len. cbv zeta. destruct (matching_spec (Nat.min (Nat.min (length a) (length b)) 255) a b)
  as (H1 & H2 & H3 & H4). repeat split; try done; lia. Qed.

(** Both sides read the same answer off their flag word. *)
Definition agree (raw wf : Z) (c : bool) (bit : Z) : Prop := has_bits raw bit = c /\ has_bits wf bit = c.

Lemma filename_mirrors nm se sd raw wf opts :
  prev_name sd = prev_name se -> Z.of_nat (length nm) <= MAX_NAME_LEN ->
  agree raw wf (0 <? common_prefix_len (prev_name se) nm)%nat XMIT_SAME_NAME ->
  agree raw wf (255 <? length nm - common_prefix_len (prev_name se) nm)%nat XMIT_LONG_NAME ->
  mirrors (encode_filename nm se raw opts) (decode_filename sd wf opts None) (fun _ n => n = nm).
Proof.
  intros Hprev Hlen [Es1 Es2] [El1 El2]. unfold encode_filename, decode_filename, same_name, long_name.
  rewrite Es1, Es2, El1, El2, Hprev. set (p := common_prefix_len (prev_name se) nm).
  destruct (common_prefix_spec (prev_name se) nm) as (P1 & P2 & P3 & P4). fold p in P1, P2, P3, P4.
  unfold MAX_NAME_LEN in *.
  eapply (mirrors_bind _ _ _ _ (fun _ x => x = Z.of_nat p)).
  { destruct (Nat.ltb_spec 0 p).
    - rewrite wrap_id by lia. apply write_byte_mirrors.
    - apply mirrors_ret. lia. }
  intros _ ? ->.
  eapply (mirrors_bind _ _ _ _ (fun _ x => x = Z.of_nat (length nm - p))).
  { destruct (Nat.ltb_spec 255 (length nm - p)).
    - rewrite wrap_id by lia. apply write_varint30_mirrors. lia.
    - rewrite wrap_id by lia. apply write_byte_mirrors. }
  intros _ ? ->. destruct (Z.ltb_spec (64 * 1024) (Z.of_nat p + Z.of_nat (length nm - p))); [lia|].
  assert (E : (if 0 <? Z.of_nat p then
      if Z.of_nat (length (prev_name se)) <? Z.of_nat p
      then rd_err (Handshake ("filename prefix length " +:+ pretty (Z.of_nat p)
             +:+ " exceeds previous name length " +:+ pretty (length (prev_name se))))
      else mret (take (Z.to_nat (Z.of_nat p)) (prev_name se))
    else mret []) = (mret (take p nm) : rd (list Z))).
  { destruct (Z.ltb_spec 0 (Z.of_nat p)); [|by replace p with 0%nat by lia].
    destruct (Z.ltb_spec (Z.of_nat (length (prev_name se))) (Z.of_nat p)); [lia|]. by rewrite Nat2Z.id, P4. }
  rewrite E. apply mirrors_rd_ret. apply (mirrors_map _ _ (fun suffix => take p nm ++ suffix)).
  destruct (Z.ltb_spec 0 (Z.of_nat (length nm - p))).
  - rewrite <- length_drop. eapply mirrors_mono; [apply write_bytes_mirrors|]. intros _ ? ->. apply take_drop.
  - rewrite drop_ge by lia. apply mirrors_ret. rewrite app_nil_r. apply take_ge. lia.
Qed.

Lemma mtime_mirrors t sd raw wf opts c :
  (c = true -> prev_mtime sd = t) -> agree raw wf c XMIT_SAME_TIME ->
  in_i64 t -> (if bool_decide (int_codec (wire opts) = Compact) then varlong_range 4 t = true else in_i32 t) ->
  mirrors (encode_mtime t raw opts) (decode_mtime sd wf opts) (fun _ x => x = t).
Proof.
  intros Hc [E1 E2] Ht Hr. unfold encode_mtime, decode_mtime, same_time. rewrite E1, E2. destruct c.
  { apply mirrors_ret. by apply Hc. }
  destruct (bool_decide _).
  - apply write_varlong_mirrors; [lia|done|done].
  - eapply mirrors_mono; [apply write_int_mirrors|]. intros _ ? ->. rewrite !swrap_id by (rewrite ?swrap_id; lia). done.
Qed.

Lemma write_u32_mirrors (v : Z) : in_u32 v ->
  mirrors (write_int (as_i32 v)) (x ← read_int; mret (as_u32 x)) (fun _ x => x = v).
Proof.
  intros Hv. apply mirrors_map. eapply mirrors_mono; [apply write_int_mirrors|]. intros _ ? ->.
  rewrite (swrap_id 32 (as_i32 v)) by (lia || (apply (swrap_range 32); lia)). by apply as_u32_as_i32.
Qed.

Lemma mode_mirrors m sd raw wf c :
  (c = true -> prev_mode sd = m) -> agree raw wf c XMIT_SAME_MODE -> in_u32 m ->
  mirrors (encode_mode m raw) (decode_mode sd wf) (fun _ x => x = m).
Proof.
  intros Hc [E1 E2] Hm. unfold encode_mode, decode_mode, same_mode. rewrite E1, E2. destruct c.
  { apply mirrors_ret. by apply Hc. }
  by apply write_u32_mirrors.
Qed.

Lemma nsec_mirrors n raw wf opts :
  agree raw wf (has_nanoseconds (wire opts) && negb (n =? 0)) XMIT_MOD_NSEC -> in_u32 n ->
  mirrors (encode_mtime_nsec n raw opts) (decode_mtime_nsec wf opts)
    (fun _ x => x = if has_nanoseconds (wire opts) then n else 0).
Proof.
  intros [E1 E2] Hn. unfold encode_mtime_nsec, decode_mtime_nsec, mod_nsec. rewrite E1, E2.
  destruct (has_nanoseconds (wire opts)); cbn [andb]; [|by apply mirrors_ret].
  destruct (Z.eqb_spec n 0) as [->|]; cbn [negb]; [by apply mirrors_ret|]. by apply write_varint_mirrors.
Qed.

(** An id and its name: sent, or the same as before. *)
Lemma id_mirrors preserve same follows id id_name prev_id prev_id_name opts :
  has_inline_names (wire opts) = bool_decide (int_codec (wire opts) = Compact) ->
  in_u32 id -> (preserve = true -> same = true -> prev_id = id) ->
  (preserve = true -> same = false -> has_inline_names (wire opts) = true -> follows = true ->
     Z.of_nat (length id_name) < 256) ->
  mirrors (encode_id preserve same follows id id_name opts)
    (decode_id preserve same follows prev_id prev_id_name opts)
    (fun _ x => x = (if preserve then id else prev_id,
       if preserve && negb same && has_inline_names (wire opts) && follows then id_name else prev_id_name)).
Proof.
  intros Hinl Hid Hsame Hnew. unfold encode_id, decode_id. rewrite <- Hinl.
  destruct preserve; cbn [negb orb andb]; [|by apply mirrors_ret]. destruct same.
  { rewrite (Hsame eq_refl eq_refl). by apply mirrors_ret. }
  specialize (Hnew eq_refl eq_refl). destruct (has_inline_names (wire opts)); cbn [andb negb] in *.
  - eapply mirrors_bind; [by apply write_varint_mirrors|]. intros _ ? ->. apply (mirrors_map _ _ (fun n => (id, n))).
    destruct follows; [|by apply mirrors_ret].
    rewrite wrap_id by (specialize (Hnew eq_refl eq_refl); lia).
    eapply mirrors_bind; [apply write_byte_mirrors|]. intros _ ? ->.
    eapply mirrors_mono; [apply write_bytes_mirrors|]. by intros _ ? ->.
  - eapply mirrors_then; [by apply write_u32_mirrors|]. intros [] ? ->. by apply mirrors_ret.
Qed.

Lemma rdev_mirrors m rd sd raw wf opts :
  let major := as_u32 (rd ≫ 8) in
  (should_send_rdev m opts = true ->
   match device_codec (wire opts) with
   | SingleInt => in_i32 rd /\ 0 <= rd /\ exists c, agree raw wf c XMIT_SAME_RDEV_PRE28 /\ (c = true -> prev_rdev sd = rd)
   | MajorMinor _ => 0 <= rd < 2 ^ 40 /\ exists c, agree raw wf c XMIT_SAME_RDEV_MAJOR /\ (c = true -> prev_rdev_major sd = major)
   end) ->
  mirrors (encode_rdev m rd major (as_u32 (Z.land rd 0xFF)) raw opts) (decode_rdev m sd wf opts)
    (fun _ x => x = if should_send_rdev m opts then rd else 0).
Proof.
  cbv zeta. intros Hsend. unfold encode_rdev, decode_rdev. destruct (should_send_rdev m opts); cbn [negb]; [|by apply mirrors_ret].
  specialize (Hsend eq_refl). destruct (device_codec (wire opts)) as [|vm].
  - destruct Hsend as (Hi & H0 & c & [E1 E2] & Hc). unfold same_rdev_pre28. rewrite E1, E2. destruct c; cbn [negb].
    { apply mirrors_ret. by apply Hc. }
    apply mirrors_map. eapply mirrors_mono; [apply write_int_mirrors|]. intros _ ? ->.
    rewrite !swrap_id by (rewrite ?swrap_id; lia). apply wrap_id. lia.
  - destruct Hsend as (Hr & c & [E1 E2] & Hc). unfold same_rdev_major. rewrite E1, E2.
    assert (Hmaj : as_u32 (rd ≫ 8) = rd / 256).
    { rewrite Z.shiftr_div_pow2 by lia. change (2 ^ 8) with 256. apply wrap_id. zlia. }
    assert (Hmin : as_u32 (Z.land rd 0xFF) = rd mod 256).
    { change 0xFF with (Z.ones 8). rewrite Z.land_ones by lia. change (2 ^ 8) with 256. apply wrap_id. zlia. }
    rewrite Hmaj, Hmin in *.
    eapply (mirrors_bind _ _ _ _ (fun _ x => x = rd / 256)).
    { destruct c; cbn [negb]; [apply mirrors_ret; by apply Hc|]. apply write_varint30_mirrors. zlia. }
    intros _ ? ->. apply (mirrors_map _ _ (fun minor => Z.lor ((rd / 256) ≪ 8) minor)).
    assert (Hfin : Z.lor ((rd / 256) ≪ 8) (rd mod 256) = rd).
    { rewrite Z.shiftl_mul_pow2 by lia. rewrite (lor_disjoint _ _ 8 (rd / 256)) by (done || lia || (change (2 ^ 8) with 256; zlia)).
      change (2 ^ 8) with 256. zlia. }
    destruct vm.
    + eapply mirrors_mono; [apply write_varint_mirrors; zlia|]. by intros _ ? ->.
    + eapply mirrors_mono; [apply write_u32_mirrors; zlia|]. by intros _ ? ->.
Qed.

Lemma symlink_mirrors m target opts :
  Z.of_nat (length target) <= MAX_NAME_LEN ->
  mirrors (encode_symlink m target opts) (decode_symlink m opts)
    (fun _ x => x = if mode_is_symlink m && preserve_links opts then target else []).
Proof.
  unfold MAX_NAME_LEN. intros Hl. unfold encode_symlink, decode_symlink, MAX_NAME_LEN.
  destruct (mode_is_symlink m), (preserve_links opts); cbn [negb andb orb]; try by apply mirrors_ret.
  rewrite wrap_id by lia. eapply mirrors_bind; [apply write_varint30_mirrors; lia|]. intros _ ? ->.
  destruct (Z.ltb_spec (64 * 1024) (Z.of_nat (length target))); [lia|].
  eapply mirrors_mono; [apply write_bytes_mirrors|]. by intros _ ? ->.
Qed.

Lemma length_resize n l : length (resize n l) = n.
Proof. unfold resize. rewrite length_app, length_take, length_replicate. lia. Qed.

Lemma checksum_mirrors m sum opts :
  mirrors (encode_checksum m sum opts) (decode_checksum m opts)
    (fun _ x => x = if no_checksum m opts then [] else resize (checksum_len opts) sum).
Proof.
  unfold encode_checksum, decode_checksum. destruct (no_checksum m opts); [by apply mirrors_ret|].
  assert (E : (if (checksum_len opts <=? length sum)%nat then write_all (take (checksum_len opts) sum)
               else write_all (resize (checksum_len opts) sum)) = write_all (resize (checksum_len opts) sum)).
  { destruct (Nat.leb_spec (checksum_len opts) (length sum)); [|done]. unfold resize.
    replace (checksum_len opts - length sum)%nat with 0%nat by lia. by rewrite app_nil_r. }
  rewrite E. eapply mirrors_mono; [apply mirrors_write_exact; by rewrite length_resize|]. by intros _ ? ->.
Qed.

(** ** Entries *)

(** The options of a negotiated session: below protocol 30 there are no
    compatibility flags. *)
Definition session (opts : FileListOptions) : Prop :=
  exists version cf, wire opts = WireFormat_new version cf /\ (version < 30 -> cf = 0).

Lemma session_facts opts : session opts ->
  has_inline_names (wire opts) = bool_decide (int_codec (wire opts) = Compact) /\
  (flags_codec (wire opts) = FByte <-> device_codec (wire opts) = SingleInt) /\
  (flags_codec (wire opts) = FByte -> has_inline_names (wire opts) = false /\ has_nanoseconds (wire opts) = false).
Proof.
  intros (version & cf & -> & Hcf). cbn.
  destruct (Z.leb_spec 30 version).
  - destruct (Z.ltb_spec version 28), (Z.leb_spec 28 version), (Z.leb_spec 31 version); try lia.
    all: destruct (has_bits cf _); split_and!; done.
  - rewrite (Hcf ltac:(lia)). change (has_bits 0 compat_flags.VARINT_FLIST_FLAGS) with false. cbv iota.
    destruct (Z.ltb_spec version 28), (Z.leb_spec 28 version), (Z.leb_spec 31 version); try lia; split_and!; done.
Qed.

(** A sender whose flags the one-byte codec cannot carry would lose them:
    protocol 27 has no room for the hard-link bits. *)
Definition links_fit (opts : FileListOptions) (action : HardLinkAction) : Prop :=
  flags_codec (wire opts) = FByte -> action = NotHardLinked.

Lemma compute_flags_fit entry wire_name state opts action : session opts -> links_fit opts action ->
  flags_fit (flags_codec (wire opts)) (compute_xmit_flags entry wire_name state opts action).
Proof.
  intros Hs Hfit. destruct (session_facts opts Hs) as (_ & Hdev & Hb).
  assert (Hbit := compute_xmit_bit entry wire_name state opts action).
  set (raw := compute_xmit_flags entry wire_name state opts action) in *.
  assert (Hhigh : forall n b, n < b -> (n =? b) = false) by (intros; lia).
  unfold flags_fit. refine (conj _ (conj _ (conj _ _))).
  - apply bits_bound; [lia|]; intros b Hge; rewrite Hbit by lia; unfold xmit_bit;
    rewrite !(Hhigh _ b) by lia; rewrite ?andb_false_r, ?orb_false_l; destruct action, (device_codec (wire opts));
    by rewrite ?andb_false_r.
  - intros E. specialize (Hfit E). destruct (Hb E) as [E1 E2]. apply Hdev in E as E3.
    apply (bits_bound raw 8); [lia|]. intros b Hge. rewrite Hbit by lia. unfold xmit_bit.
    rewrite E1, E2, E3, Hfit. rewrite !(Hhigh _ b) by lia. by rewrite ?andb_false_r, ?orb_false_l.
  - intros E. rewrite Hbit by lia. unfold xmit_bit. cbn [Z.eqb Pos.eqb].
    destruct (device_codec (wire opts)) eqn:Ed; [destruct Hdev as [_ Hd]; by rewrite E in Hd; specialize (Hd eq_refl)|].
    destruct action; by rewrite ?andb_false_r.
  - rewrite !Hbit by lia. unfold xmit_bit. cbn [Z.eqb Pos.eqb].
    destruct (device_codec (wire opts)), action; by rewrite ?andb_false_r.
Qed.

(** What one side remembers of the previous entry, seen from the other: the
    receiver has no id or name that was not sent. *)
Definition in_sync (opts : FileListOptions) (se sd : DeltaState) : Prop :=
  prev_name sd = prev_name se /\ prev_mtime sd = prev_mtime se /\ prev_mode sd = prev_mode se /\
  prev_uid sd = (if preserve_uid opts then prev_uid se else 0) /\
  prev_gid sd = (if preserve_gid opts then prev_gid se else 0) /\
  prev_rdev sd = prev_rdev se /\ prev_rdev_major sd = prev_rdev_major se /\
  prev_user_name sd = (if preserve_uid opts && has_inline_names (wire opts) then prev_user_name se else []) /\
  prev_group_name sd = (if preserve_gid opts && has_inline_names (wire opts) then prev_group_name se else []).

(** The name that goes with an id: it fits its length byte, follows from the
    id, and is missing only when there are no names at all. *)
Definition id_name_ok (opts : FileListOptions) (preserve : bool) (id : Z) (id_name : list Z)
    (prev_id : Z) (prev_id_name : list Z) (has_prev : bool) : Prop :=
  preserve = true -> has_inline_names (wire opts) = true ->
  Z.of_nat (length id_name) < 256 /\
  (has_prev = true -> id = prev_id -> id_name = prev_id_name) /\
  (id_name = [] -> prev_id_name = []).

(** An entry whose values fit the fields they travel in. *)
Definition entry_ok (opts : FileListOptions) (e : FileEntry) : Prop :=
  Z.of_nat (length (name e)) <= MAX_NAME_LEN /\
  (in_i64 (len e) /\ (int_codec (wire opts) = Compact -> varlong_range 3 (len e) = true)) /\
  (in_i64 (mtime e) /\
   if bool_decide (int_codec (wire opts) = Compact) then varlong_range 4 (mtime e) = true else in_i32 (mtime e)) /\
  in_u32 (mtime_nsec e) /\ in_u32 (mode e) /\ in_u32 (uid e) /\ in_u32 (gid e) /\
  (if should_send_rdev (mode e) opts then
     0 <= rdev e < match device_codec (wire opts) with SingleInt => 2 ^ 31 | MajorMinor _ => 2 ^ 40 end
   else rdev e = 0) /\
  Z.of_nat (length (link_target e)) <= MAX_NAME_LEN /\
  acl_field_ok (acl e) /\ xattr_field_ok (xattrs e).

(** Its names, next to those of the entry before. *)
Definition names_ok (opts : FileListOptions) (se : DeltaState) (e : FileEntry) : Prop :=
  let has_prev := negb (bool_decide (prev_name se = [])) in
  id_name_ok opts (preserve_uid opts) (uid e) (user_name e) (prev_uid se) (prev_user_name se) has_prev /\
  id_name_ok opts (preserve_gid opts) (gid e) (group_name e) (prev_gid se) (prev_group_name se) has_prev.

(** What the receiver is meant to have of an entry, flags apart. *)
Definition received (opts : FileListOptions) (e : FileEntry) : FileEntry :=
  mkFileEntry (name e) (len e) (mtime e) (if has_nanoseconds (wire opts) then mtime_nsec e else 0) (mode e)
    (if preserve_uid opts then uid e else 0) (if preserve_gid opts then gid e else 0) (rdev e)
    (if mode_is_symlink (mode e) && preserve_links opts then link_target e else [])
    (if no_checksum (mode e) opts then [] else resize (checksum_len opts) (checksum e)) 0
    (if preserve_uid opts && has_inline_names (wire opts) then user_name e else [])
    (if preserve_gid opts && has_inline_names (wire opts) then group_name e else [])
    None None
    (if preserve_acls opts && negb (mode_is_symlink (mode e)) then canonical_acl (mode e) (acl e) else None)
    (if preserve_xattrs opts then canonical_xattrs (xattrs e) else None).

Definition set_flags (fl : Z) (e : FileEntry) : FileEntry :=
  mkFileEntry (name e) (len e) (mtime e) (mtime_nsec e) (mode e) (uid e) (gid e) (rdev e) (link_target e)
    (checksum e) fl (user_name e) (group_name e) (hlink_source e) (hard_link_info_field e) (acl e) (xattrs e).
Definition without_flags : FileEntry -> FileEntry := set_flags 0.

Definition attrs_in_step (n : nat) (e : AclEncoder * XattrEncoder) (d : AclDecoder * XattrDecoder) : Prop :=
  acl_in_step n e.1 d.1 /\ xattr_in_step n e.2 d.2.

(** One visit: the writer keeps its values, the reader stores what it read. *)
Lemma field_bind {A B B' C D} (w : wr unit) (r : rd A) (v : B) (f : A -> B') x (g : B -> wr C) (h : B' -> rd D) Q :
  mirrors w r (fun _ y => y = x) -> mirrors (g v) (h (f x)) Q ->
  mirrors ((_ ← w; mret v) ≫= g) ((y ← r; mret (f y)) ≫= h) Q.
Proof.
  intros Hm HQ. eapply (mirrors_bind _ _ _ _ (fun a b => a = v /\ b = f x)).
  - eapply mirrors_bind; [exact Hm|]. intros _ ? ->. by apply mirrors_ret.
  - by intros ? ? [-> ->].
Qed.

Lemma acl_in_step_S n e d : acl_in_step n e d -> acl_in_step (S n) e d.
Proof. unfold acl_in_step. intros (? & ? & ? & ?). repeat split; try done; lia. Qed.
Lemma xattr_in_step_S n e d : xattr_in_step n e d -> xattr_in_step (S n) e d.
Proof. unfold xattr_in_step. intros (? & ?). split; [done|lia]. Qed.

Section entry.
  Context (opts : FileListOptions) (Hs : session opts).
  Context (e : FileEntry) (se sd : DeltaState) (action : HardLinkAction).
  Context (Hlinks : links_fit opts action) (Hsync : in_sync opts se sd).
  Context (Hok : entry_ok opts e) (Hnames : names_ok opts se e).

Definition entry_flags : Z := compute_xmit_flags e (name e) se opts action.
Definition sent_flags : Z := wire_flags (flags_codec (wire opts)) entry_flags.

Lemma agree_bit b c : 0 < b -> xmit_bit e (name e) se opts action b = c ->
  (b = 2 -> device_codec (wire opts) = SingleInt) -> agree entry_flags sent_flags c (1 ≪ b).
Proof.
  intros Hb <- H2. unfold agree. rewrite !has_bits_testbit by lia. unfold sent_flags, entry_flags.
  rewrite wire_flags_bit; [|by apply compute_flags_fit|lia|lia|].
  - by rewrite compute_xmit_bit by lia.
  - intros E. specialize (H2 E). apply (session_facts opts Hs) in H2. by rewrite H2.
Qed.

Ltac xbit := unfold xmit_bit; cbn [Z.eqb Pos.eqb]; destruct action, (device_codec (wire opts));
  rewrite ?andb_false_r, ?andb_true_r, ?orb_false_r, ?orb_false_l; done.

Lemma agree_same_name : agree entry_flags sent_flags (0 <? common_prefix_len (prev_name se) (name e))%nat XMIT_SAME_NAME.
Proof. apply (agree_bit 5); [lia|xbit|lia]. Qed.
Lemma agree_long_name :
  agree entry_flags sent_flags (255 <? length (name e) - common_prefix_len (prev_name se) (name e))%nat XMIT_LONG_NAME.
Proof. apply (agree_bit 6); [lia|xbit|lia]. Qed.
Lemma agree_same_time :
  agree entry_flags sent_flags ((mtime e =? prev_mtime se) && negb (bool_decide (prev_name se = []))) XMIT_SAME_TIME.
Proof. apply (agree_bit 7); [lia|xbit|lia]. Qed.
Lemma agree_same_mode :
  agree entry_flags sent_flags ((mode e =? prev_mode se) && negb (bool_decide (prev_name se = []))) XMIT_SAME_MODE.
Proof. apply (agree_bit 1); [lia|xbit|lia]. Qed.
Lemma agree_same_uid :
  agree entry_flags sent_flags
    (negb (preserve_uid opts) || ((uid e =? prev_uid se) && negb (bool_decide (prev_name se = [])))) XMIT_SAME_UID.
Proof. apply (agree_bit 3); [lia|xbit|lia]. Qed.
Lemma agree_same_gid :
  agree entry_flags sent_flags
    (negb (preserve_gid opts) || ((gid e =? prev_gid se) && negb (bool_decide (prev_name se = [])))) XMIT_SAME_GID.
Proof. apply (agree_bit 4); [lia|xbit|lia]. Qed.
Lemma agree_nsec :
  agree entry_flags sent_flags (has_nanoseconds (wire opts) && negb (mtime_nsec e =? 0)) XMIT_MOD_NSEC.
Proof. apply (agree_bit 13); [lia|xbit|lia]. Qed.
Lemma agree_rdev_major vm : device_codec (wire opts) = MajorMinor vm ->
  agree entry_flags sent_flags
    (should_send_rdev (mode e) opts && (FileEntry.rdev_major e =? prev_rdev_major se)) XMIT_SAME_RDEV_MAJOR.
Proof. intros Hd. apply (agree_bit 8); [lia| |lia]. unfold xmit_bit. rewrite Hd. cbn [Z.eqb Pos.eqb].
  destruct action; rewrite ?andb_false_r, ?andb_true_r, ?orb_false_r, ?orb_false_l; done. Qed.
Lemma agree_rdev_pre28 : device_codec (wire opts) = SingleInt ->
  agree entry_flags sent_flags (should_send_rdev (mode e) opts && (rdev e =? prev_rdev se)) XMIT_SAME_RDEV_PRE28.
Proof. intros Hd. apply (agree_bit 2); [lia| |done]. unfold xmit_bit. rewrite Hd. cbn [Z.eqb Pos.eqb].
  destruct action; rewrite ?andb_false_r, ?andb_true_r, ?orb_false_r, ?orb_false_l; done. Qed.
Lemma agree_hlinked :
  agree entry_flags sent_flags (match action with NotHardLinked => false | _ => true end) XMIT_HLINKED.
Proof. apply (agree_bit 9); [lia|xbit|lia]. Qed.
Lemma agree_hlink_first :
  agree entry_flags sent_flags (match action with FirstOccurrence => true | _ => false end) XMIT_HLINK_FIRST.
Proof. apply (agree_bit 12); [lia|xbit|lia]. Qed.
Lemma agree_user_name :
  agree entry_flags sent_flags
    (preserve_uid opts && negb (negb (preserve_uid opts) || ((uid e =? prev_uid se) && negb (bool_decide (prev_name se = []))))
     && has_inline_names (wire opts) && negb (bytes_eqb (user_name e) [])
     && negb (bytes_eqb (user_name e) (prev_user_name se))) XMIT_USER_NAME_FOLLOWS.
Proof. apply (agree_bit 10); [lia|xbit|lia]. Qed.
Lemma agree_group_name :
  agree entry_flags sent_flags
    (preserve_gid opts && negb (negb (preserve_gid opts) || ((gid e =? prev_gid se) && negb (bool_decide (prev_name se = []))))
     && has_inline_names (wire opts) && negb (bytes_eqb (group_name e) [])
     && negb (bytes_eqb (group_name e) (prev_group_name se))) XMIT_GROUP_NAME_FOLLOWS.
Proof. apply (agree_bit 11); [lia|xbit|lia]. Qed.

Lemma has_prev_same (x y : Z) : (x =? y) && negb (bool_decide (prev_name se = [])) = true -> y = x.
Proof. intros [? _]%andb_true_iff. lia. Qed.

(** One of the two ids, against what the receiver remembers. *)
Lemma id_step preserve id id_name prev_e prev_d pname_e pname_d same follows :
  let has_prev := negb (bool_decide (prev_name se = [])) in
  in_u32 id -> id_name_ok opts preserve id id_name prev_e pname_e has_prev ->
  prev_d = (if preserve then prev_e else 0) ->
  pname_d = (if preserve && has_inline_names (wire opts) then pname_e else []) ->
  same = negb preserve || ((id =? prev_e) && has_prev) ->
  follows = preserve && negb same && has_inline_names (wire opts) && negb (bytes_eqb id_name [])
            && negb (bytes_eqb id_name pname_e) ->
  mirrors (encode_id preserve same follows id id_name opts)
    (decode_id preserve same follows prev_d pname_d opts)
    (fun _ x => x = (if preserve then id else 0, if preserve && has_inline_names (wire opts) then id_name else [])).
Proof.
  cbv zeta. intros Hid Hn -> -> -> ->. destruct (session_facts opts Hs) as (Hinl & _ & _).
  eapply mirrors_mono; [apply id_mirrors; [done|done| |]|].
  - intros ->. cbn [negb orb]. apply has_prev_same.
  - intros Hp _ Hi _. apply (Hn Hp Hi).
  - cbn beta. intros _ ? ->. destruct preserve; cbn [negb orb andb]; [|done]. f_equal.
    destruct (has_inline_names (wire opts)) eqn:Ein; [|by rewrite ?andb_false_r].
    destruct (Hn eq_refl Ein) as (_ & Hsame & Hempty). rewrite !andb_true_r.
    destruct ((id =? prev_e) && _) eqn:E; cbn [negb andb].
    + apply andb_true_iff in E as [E1 E2]. symmetry. apply Hsame; [done|lia].
    + clear -Hempty. unfold bytes_eqb. case_bool_decide as E1; [rewrite E1; by apply Hempty|]. by case_bool_decide.
Qed.

Lemma rdev_step :
  let major := as_u32 (rdev e ≫ 8) in
  mirrors (encode_rdev (mode e) (rdev e) major (as_u32 (Z.land (rdev e) 0xFF)) entry_flags opts)
    (decode_rdev (mode e) sd sent_flags opts) (fun _ x => x = rdev e).
Proof.
  cbv zeta. destruct Hok as (_ & _ & _ & _ & _ & _ & _ & Hr & _). destruct Hsync as (_ & _ & _ & _ & _ & S1 & S2 & _).
  eapply mirrors_mono; [apply (rdev_mirrors (mode e) (rdev e) sd entry_flags sent_flags)|].
  - intros Hsend. rewrite Hsend in Hr. destruct (device_codec (wire opts)) as [|vm] eqn:Ed.
    + split; [lia|]. split; [lia|]. exists (should_send_rdev (mode e) opts && (rdev e =? prev_rdev se)).
      split; [by apply agree_rdev_pre28|]. rewrite S1. lia.
    + split; [lia|]. exists (should_send_rdev (mode e) opts && (FileEntry.rdev_major e =? prev_rdev_major se)).
      split; [by eapply agree_rdev_major|]. rewrite S2. unfold FileEntry.rdev_major. lia.
  - cbn beta. intros _ ? ->. by destruct (should_send_rdev (mode e) opts).
Qed.

Lemma fields_mirrors n ae ad : attrs_in_step n ae ad -> Z.of_nat n < 2 ^ 32 - 1 ->
  mirrors (traverse_fields Encoder (mkFieldContext entry_flags se opts) (from_entry e (name e)) ae)
    (traverse_fields Decoder (mkFieldContext sent_flags sd opts) (FieldValues_default (name e)) ad)
    (fun p q => p.1 = from_entry e (name e) /\
       into_entry q.1 sent_flags = set_flags sent_flags (received opts e) /\ attrs_in_step (S n) p.2 q.2).
Proof.
  intros [Hacl Hxa] Hn. pose proof rdev_step as Hrdev. cbv zeta in Hrdev.
  destruct Hok as (_ & (L1 & L2) & (T1 & T2) & Hns & Hmode & Hu & Hg & _ & Hlink & Ha & Hx).
  destruct Hsync as (_ & S1 & S2 & S3 & S4 & _ & _ & S5 & S6). destruct Hnames as [N1 N2].
  unfold traverse_fields, Encoder, Decoder. cbn [visit_len visit_mtime visit_mtime_nsec visit_mode visit_uid visit_gid
    visit_rdev visit_symlink visit_checksum visit_acl visit_xattr cx_opts cx_flags cx_state].
  eapply field_bind; [apply write_varlong30_mirrors; [lia|done|done]|].
  eapply field_bind; [eapply mtime_mirrors; [|apply agree_same_time|done|done]; rewrite S1; apply has_prev_same|].
  eapply field_bind; [apply nsec_mirrors; [apply agree_nsec|done]|].
  eapply field_bind; [eapply mode_mirrors; [|apply agree_same_mode|done]; rewrite S2; apply has_prev_same|].
  eapply field_bind.
  { destruct agree_same_uid as [E1 E2], agree_user_name as [E3 E4]. unfold encode_uid, decode_uid, same_uid, user_name_follows.
    rewrite E1, E2, E3, E4. eapply id_step; done. }
  eapply field_bind.
  { destruct agree_same_gid as [E1 E2], agree_group_name as [E3 E4]. unfold encode_gid, decode_gid, same_gid, group_name_follows.
    rewrite E1, E2, E3, E4. eapply id_step; done. }
  eapply field_bind; [exact Hrdev|].
  eapply field_bind; [by apply symlink_mirrors|].
  eapply field_bind; [apply checksum_mirrors|].
  match goal with |- mirrors (x ← _; @?g x) ((if _ then _ else mret (set_v_acl None ?v, _)) ≫= _) _ =>
    set (vals := v); assert (Hm : v_mode vals = mode e) by done;
    assert (Hv : forall a x, into_entry (set_v_xattrs x (set_v_acl a vals)) sent_flags =
      mkFileEntry (name e) (len e) (mtime e) (mtime_nsec (received opts e)) (mode e) (uid (received opts e))
        (gid (received opts e)) (rdev e) (link_target (received opts e)) (checksum (received opts e)) sent_flags
        (user_name (received opts e)) (group_name (received opts e)) None None a x) by done
  end.
  clearbody vals. change (v_mode (from_entry e (name e))) with (mode e). rewrite Hm.
  eapply (mirrors_bind _ _ _ _ (fun p q => p.1 = from_entry e (name e) /\
      q.1 = set_v_acl (acl (received opts e)) vals /\ acl_in_step (S n) p.2.1 q.2.1 /\ xattr_in_step n p.2.2 q.2.2)).
  - cbn [acl received]. destruct (preserve_acls opts && _).
    + eapply mirrors_bind; [by eapply encode_acl_mirrors|]. intros a' [x d'] [-> Hd]. by apply mirrors_ret.
    + apply mirrors_ret. cbn [fst snd]. exact (conj eq_refl (conj eq_refl (conj (acl_in_step_S _ _ _ Hacl) Hxa))).
  - intros [v1 [a1 x1]] [v2 [d1 y1]] (-> & -> & Ha1 & Hx1). cbn [fst snd] in *. destruct (preserve_xattrs opts) eqn:Epx.
    + eapply mirrors_bind; [by eapply encode_xattrs_mirrors|]. intros x' [y d'] [-> Hd]. apply mirrors_ret. cbn [fst snd].
      split; [done|]. split; [|by split]. rewrite Hv. cbn [fst xattrs]. unfold set_flags, received. cbn. by rewrite Epx.
    + apply mirrors_ret. cbn [fst snd]. split; [done|]. split; [|split; [done|by apply xattr_in_step_S]].
      rewrite Hv. unfold set_flags, received. cbn. by rewrite Epx.
Qed.
End entry.

Lemma resolve_action opts info seen i action seen' :
  resolve_hlink_action opts info seen i = (action, seen') -> action <> NotHardLinked -> preserve_hard_links opts = true.
Proof.
  unfold resolve_hlink_action. destruct info as [info|]; [|by intros [= <- <-]].
  destruct (preserve_hard_links opts); [done|]. by intros [= <- <-].
Qed.

(** Hard links need flag bits the one-byte codec does not have. *)
Definition links_carried (opts : FileListOptions) : Prop :=
  flags_codec (wire opts) = FByte -> preserve_hard_links opts = false.

Lemma links_carried_fit opts info seen i action seen' : links_carried opts ->
  resolve_hlink_action opts info seen i = (action, seen') -> links_fit opts action.
Proof.
  intros Hc Hr Hb. specialize (Hc Hb). pose proof (resolve_action _ _ _ _ _ _ Hr) as Hn. rewrite Hc in Hn.
  destruct action; [done|..]; by specialize (Hn ltac:(done)).
Qed.

Section entries.
  Context (opts : FileListOptions) (Hs : session opts) (Hc : links_carried opts).
  Context (e : FileEntry) (es : EncoderState) (ds : DecoderState) (n : nat).
  Context (Hsync : in_sync opts (es_delta es) (ds_delta ds)).
  Context (Hok : entry_ok opts e) (Hnames : names_ok opts (es_delta es) e).
  Context (Hattrs : attrs_in_step n (es_attrs es) (ds_attrs ds)) (Hn : Z.of_nat n < 2 ^ 32 - 1).
  Context (info : option HardLinkInfo) (i : Z) (action : HardLinkAction) (seen : HardLinkEncoder).
  Context (Hres : resolve_hlink_action opts info (es_hlink es) i = (action, seen)).

Abbreviation the_flags := (sent_flags opts e (es_delta es) action).

(** Flags and name travel first, whatever follows. *)
Lemma entry_prefix prev (Q : EncoderState -> ReadEntryResult * DecoderState -> Prop) :
  mirrors (abbreviated ← encode_hlink action;
           if (abbreviated : bool) then
             mret (mkEncoderState (update_delta_state (es_delta es) e) seen (es_attrs es))
           else
             p ← traverse_fields Encoder (mkFieldContext (entry_flags opts e (es_delta es) action) (es_delta es) opts)
                   (from_entry e (name e)) (es_attrs es);
             mret (mkEncoderState (update_state p.1 (es_delta es)) seen p.2))
    (h ← decode_hlink the_flags opts (ds_hlink ds) prev (name e) (ds_delta ds);
     match (h : option (FileEntry * DeltaState * HardLinkDecoder)) with
     | Some (entry, delta, groups) => mret (ReadEntry entry, mkDecoderState delta groups (ds_attrs ds))
     | None =>
         p ← traverse_fields Decoder (mkFieldContext the_flags (ds_delta ds) opts)
               (FieldValues_default (name e)) (ds_attrs ds);
         let entry := into_entry p.1 the_flags in
         mret (ReadEntry entry, mkDecoderState (update_delta_state (ds_delta ds) entry) (ds_hlink ds) p.2)
     end) Q ->
  mirrors (encode_entry e es opts info i None) (decode_entry ds opts prev None) Q.
Proof.
  intros H. unfold encode_entry, decode_entry. rewrite Hres. pose proof (links_carried_fit _ _ _ _ _ _ Hc Hres) as Hfit.
  eapply mirrors_bind; [by apply encode_flags_mirrors, compute_flags_fit|]. intros [] ? ->.
  eapply mirrors_bind.
  { apply filename_mirrors; [apply Hsync|apply Hok|apply agree_same_name|apply agree_long_name]; done. }
  intros [] ? ->. exact H.
Qed.

Lemma whole_entry_mirrors prev : (forall j, action <> DuplicateOf j) ->
  mirrors (encode_entry e es opts info i None) (decode_entry ds opts prev None)
    (fun es' q =>
       let e' := set_flags the_flags (received opts e) in
       es_delta es' = update_delta_state (es_delta es) e /\ es_hlink es' = seen /\
       q.1 = ReadEntry e' /\ ds_delta q.2 = update_delta_state (ds_delta ds) e' /\
       attrs_in_step (S n) (es_attrs es') (ds_attrs q.2)).
Proof.
  intros Hna. pose proof (links_carried_fit _ _ _ _ _ _ Hc Hres) as Hfit. apply entry_prefix.
  assert (Hh : decode_hlink the_flags opts (ds_hlink ds) prev (name e) (ds_delta ds) = mret None).
  { unfold decode_hlink, hlinked, hlink_first.
    destruct (agree_hlinked opts Hs e (es_delta es) action Hfit) as [_ ->].
    destruct (agree_hlink_first opts Hs e (es_delta es) action Hfit) as [_ ->].
    destruct action as [| |j]; [by rewrite orb_true_r| |by destruct (Hna j)]. by destruct (preserve_hard_links opts). }
  rewrite Hh. apply mirrors_rd_ret. assert (He : encode_hlink action = mret false) by (by destruct action; [..|edestruct Hna]).
  rewrite He. apply mirrors_wr_ret. cbv beta iota.
  eapply mirrors_bind; [by eapply fields_mirrors|]. intros [v1 a1] [v2 d1] (-> & Hv & Ha). cbn [fst snd] in *.
  apply mirrors_ret. cbv zeta. cbn [fst snd es_delta es_hlink es_attrs ds_delta ds_attrs]. rewrite Hv. by split_and!.
Qed.

Lemma linked_entry_mirrors prev j first : action = DuplicateOf j ->
  prev !! Z.to_nat (j - ndx_start (ds_delta ds)) = Some first ->
  in_i32 j -> 0 <= j - ndx_start (ds_delta ds) < 2 ^ 31 ->
  mirrors (encode_entry e es opts info i None) (decode_entry ds opts prev None)
    (fun es' q =>
       let e' := hlink_clone first (name e) the_flags in
       es_delta es' = update_delta_state (es_delta es) e /\ es_hlink es' = seen /\
       q.1 = ReadEntry e' /\ ds_delta q.2 = update_delta_state (ds_delta ds) e' /\
       attrs_in_step (S n) (es_attrs es') (ds_attrs q.2)).
Proof.
  intros Ha Hfirst Hj Hidx. pose proof (links_carried_fit _ _ _ _ _ _ Hc Hres) as Hfit.
  pose proof (resolve_action _ _ _ _ _ _ Hres ltac:(by rewrite Ha)) as Hp. apply entry_prefix.
  unfold decode_hlink, hlinked, hlink_first.
  destruct (agree_hlinked opts Hs e (es_delta es) action Hfit) as [_ ->].
  destruct (agree_hlink_first opts Hs e (es_delta es) action Hfit) as [_ ->].
  assert (E1 : match action with NotHardLinked => false | _ => true end = true) by (by rewrite Ha).
  assert (E2 : match action with FirstOccurrence => true | _ => false end = false) by (by rewrite Ha).
  assert (E3 : encode_hlink action = encode_hlink (DuplicateOf j)) by (by rewrite Ha).
  rewrite Hp, E1, E2, E3. cbn [negb orb encode_hlink].
  eapply (mirrors_bind _ _ _ _ (fun b h => b = true /\ h = Some
    (hlink_clone first (name e) the_flags, update_delta_state (ds_delta ds) (hlink_clone first (name e) the_flags),
     record_duplicate (Z.of_nat (length prev)) j (ds_hlink ds)))).
  - eapply mirrors_bind; [apply write_varint_mirrors; apply (wrap_range 32); lia|]. intros [] ? ->.
    rewrite (swrap_wrap 32), (swrap_id 32 j) by lia. cbv zeta. rewrite (swrap_id 32 (j - _)) by lia.
    destruct (Z.ltb_spec (j - ndx_start (ds_delta ds)) 0); [lia|]. rewrite Hfirst. by apply mirrors_ret.
  - intros ? ? [-> ->]. apply mirrors_ret. cbv zeta. cbn [fst snd es_delta es_hlink es_attrs ds_delta ds_attrs].
    split; [done|]. split; [done|]. split; [done|]. split; [done|].
    destruct Hattrs as [H1 H2]. split; [by apply acl_in_step_S|by apply xattr_in_step_S].
Qed.
End entries.

(** ** Arbitrary input *)

Lemma decode_xmit_flags_takes opts : takes 1 (decode_xmit_flags opts).
Proof.
  unfold decode_xmit_flags. destruct (flags_codec (wire opts));
    (apply takes_bind; [apply read_byte_takes || apply read_varint_takes|intros ?; solve_takes]).
Qed.

Lemma decode_filename_takes state fl opts iconv : takes 0 (decode_filename state fl opts iconv).
Proof. unfold decode_filename. solve_takes. Qed.
Lemma decode_hlink_takes fl opts groups prev nm state : takes 0 (decode_hlink fl opts groups prev nm state).
Proof. unfold decode_hlink. solve_takes. Qed.
Lemma decode_fields_takes ctx v st : takes 0 (traverse_fields Decoder ctx v st).
Proof.
  unfold traverse_fields, Decoder. cbn [visit_len visit_mtime visit_mtime_nsec visit_mode visit_uid visit_gid
    visit_rdev visit_symlink visit_checksum visit_acl visit_xattr]. unfold decode_file_length, decode_mtime,
    decode_mtime_nsec, decode_mode, decode_uid, decode_gid, decode_id, decode_rdev, decode_symlink, decode_checksum.
  solve_takes.
Qed.
#[export] Hint Resolve decode_filename_takes decode_hlink_takes decode_fields_takes : takes.

Lemma decode_entry_takes st opts prev iconv : takes 1 (decode_entry st opts prev iconv).
Proof. apply takes_bind; [apply decode_xmit_flags_takes|]. intros df. solve_takes. Qed.

Lemma decode_xmit_flags_safe opts : safe (decode_xmit_flags opts) (fun _ => True).
Proof.
  assert (He : safe (io_error ← read_varint; mret (DfEndOfList (as_i32 io_error))) (fun _ => True)).
  { eapply safe_bind; [apply read_varint_safe|]. intros. by apply safe_ret. }
  unfold decode_xmit_flags. destruct (flags_codec (wire opts)).
  - eapply safe_bind; [apply read_byte_safe|]. intros b _. apply safe_if; intros _; by apply safe_ret.
  - eapply safe_bind; [apply read_byte_safe|]. intros b _. apply safe_if; intros _; [by apply safe_ret|].
    apply safe_if; intros _; [|by apply safe_ret]. eapply safe_bind; [apply read_byte_safe|]. intros c _.
    cbv zeta. apply safe_if; intros _; [done|by apply safe_ret].
  - eapply safe_bind; [apply read_varint_safe|]. intros f _. apply safe_if; intros _; [done|by apply safe_ret].
Qed.

Lemma decode_filename_safe state fl opts iconv :
  safe (decode_filename state fl opts iconv) (fun n => iconv = None -> Z.of_nat (length n) <= MAX_NAME_LEN).
Proof.
  unfold decode_filename. eapply (safe_bind _ _ (fun p => 0 <= p)).
  { apply safe_if; intros _; [|by apply safe_ret]. eapply safe_mono; [apply read_byte_safe|]. unfold is_byte. lia. }
  intros p Hp. eapply (safe_bind _ _ (fun p => 0 <= p)).
  { apply safe_if; intros _; (eapply safe_mono; [apply read_varint30_safe || apply read_byte_safe|]); unfold is_byte; cbv beta; lia. }
  intros s Hs. apply safe_if; intros Hmax; [apply safe_err|].
  eapply (safe_bind _ _ (fun l => Z.of_nat (length l) <= p)).
  { apply safe_if; intros E1; [|apply safe_ret; cbn; lia]. apply safe_if; intros E2; [apply safe_err|].
    apply safe_ret. rewrite length_take. lia. }
  intros prefix Hpre. eapply (safe_bind _ _ (fun l => Z.of_nat (length l) = s)).
  { apply safe_if; intros E1; [|apply safe_ret; cbn; lia]. eapply safe_mono; [by apply safe_read_exact|]. by intros ? [_ ?]. }
  intros suffix Hsuf. apply safe_ret. intros ->. rewrite length_app. lia.
Qed.

(** Sizes of what a peer can make the receiver hold per entry. *)
Definition entry_bounded (e : FileEntry) : Prop :=
  Z.of_nat (length (name e)) <= MAX_NAME_LEN /\ Z.of_nat (length (link_target e)) <= MAX_NAME_LEN /\
  Z.of_nat (length (user_name e)) <= 255 /\ Z.of_nat (length (group_name e)) <= 255.
Definition state_bounded (s : DeltaState) : Prop :=
  Z.of_nat (length (prev_user_name s)) <= 255 /\ Z.of_nat (length (prev_group_name s)) <= 255.

Lemma decode_id_safe preserve same follows prev_id prev_name opts :
  Z.of_nat (length prev_name) <= 255 ->
  safe (decode_id preserve same follows prev_id prev_name opts) (fun p => Z.of_nat (length p.2) <= 255).
Proof.
  intros Hp. unfold decode_id. apply safe_if; intros _; [by apply safe_ret|].
  eapply (safe_bind _ _ (fun _ => True)).
  { apply safe_if; intros _; [eapply safe_mono; [apply read_varint_safe|done]|].
    eapply safe_bind; [apply read_int_safe|]. intros. by apply safe_ret. }
  intros id _. eapply (safe_bind _ _ (fun n => Z.of_nat (length n) <= 255)); [|intros; by apply safe_ret].
  apply safe_if; intros _; [|by apply safe_ret]. eapply safe_bind; [apply read_byte_safe|]. intros n Hn.
  unfold is_byte in Hn. eapply safe_mono; [apply safe_read_exact; lia|]. intros l [_ ?]. lia.
Qed.

Lemma decode_rdev_safe m state fl opts : safe (decode_rdev m state fl opts) (fun _ => True).
Proof.
  assert (Hint : forall f : Z -> Z, safe (v ← read_int; mret (f v)) (fun _ => True)).
  { intros f. eapply safe_bind; [apply read_int_safe|]. intros. by apply safe_ret. }
  unfold decode_rdev. apply safe_if; intros _; [by apply safe_ret|]. cbv zeta. destruct (device_codec (wire opts)).
  - apply safe_if; intros _; [by apply safe_ret|apply (Hint (fun v => as_u64 v))].
  - eapply (safe_bind _ _ (fun _ => True)).
    { apply safe_if; intros _; [by apply safe_ret|]. eapply safe_mono; [apply read_varint30_safe|done]. }
    intros major _. eapply (safe_bind _ _ (fun _ => True)); [|intros; by apply safe_ret].
    apply safe_if; intros _; [eapply safe_mono; [apply read_varint_safe|done]|apply (Hint (fun v => as_u32 v))].
Qed.

Lemma decode_symlink_safe m opts : safe (decode_symlink m opts) (fun l => Z.of_nat (length l) <= MAX_NAME_LEN).
Proof.
  unfold decode_symlink. apply safe_if; intros _; [by apply safe_ret|].
  eapply safe_bind; [apply read_varint30_safe|]. intros n Hn. cbv beta in Hn. apply safe_if; intros E; [apply safe_err|].
  eapply safe_mono; [apply safe_read_exact; lia|]. intros l [_ ?]. lia.
Qed.

(** The invariant of the values the decoder has filled in so far. *)
Definition values_bounded (nm : list Z) (v : FieldValues) : Prop :=
  v_name v = nm /\ Z.of_nat (length (v_link_target v)) <= MAX_NAME_LEN /\
  Z.of_nat (length (v_user_name v)) <= 255 /\ Z.of_nat (length (v_group_name v)) <= 255.

Lemma safe_field {A} (r : rd A) (P : A -> Prop) (f : A -> FieldValues) (Q : FieldValues -> Prop) :
  safe r P -> (forall a, P a -> Q (f a)) -> safe (x ← r; mret (f x)) Q.
Proof. intros Hr Hf. eapply safe_bind; [exact Hr|]. intros a Ha. by apply safe_ret, Hf. Qed.

Lemma decode_fields_safe ctx nm st : state_bounded (cx_state ctx) ->
  safe (traverse_fields Decoder ctx (FieldValues_default nm) st) (fun p => values_bounded nm p.1).
Proof.
  intros [Hu Hg]. assert (H0 : values_bounded nm (FieldValues_default nm)) by (split_and!; done || (cbn; lia)).
  unfold traverse_fields, Decoder. cbn [visit_len visit_mtime visit_mtime_nsec visit_mode visit_uid visit_gid
    visit_rdev visit_symlink visit_checksum visit_acl visit_xattr].
  revert H0. generalize (FieldValues_default nm). intros v0 H0.
  eapply safe_bind; [eapply (safe_field _ _ _ (values_bounded nm)); [apply read_varlong30_safe; lia|intros; exact H0]|].
  intros v1 H1. eapply safe_bind; [eapply (safe_field _ (fun _ => True) _ (values_bounded nm)); [|intros; exact H1]|].
  { unfold decode_mtime. apply safe_if; intros _; [by apply safe_ret|]. apply safe_if; intros _.
    - eapply safe_mono; [apply read_varlong_safe; lia|done].
    - eapply safe_mono; [apply read_int_safe|done]. }
  intros v2 H2. eapply safe_bind; [eapply (safe_field _ (fun _ => True) _ (values_bounded nm)); [|intros; exact H2]|].
  { unfold decode_mtime_nsec. apply safe_if; intros _; [|by apply safe_ret]. eapply safe_mono; [apply read_varint_safe|done]. }
  intros v3 H3. eapply safe_bind; [eapply (safe_field _ (fun _ => True) _ (values_bounded nm)); [|intros; exact H3]|].
  { unfold decode_mode. apply safe_if; intros _; [by apply safe_ret|]. eapply safe_bind; [apply read_int_safe|].
    intros. by apply safe_ret. }
  intros v4 H4. eapply safe_bind.
  { eapply (safe_field _ _ _ (values_bounded nm)); [by apply decode_id_safe|].
    intros a Ha. destruct H4 as (? & ? & ? & ?). by split_and!. }
  intros v5 H5. eapply safe_bind.
  { eapply (safe_field _ _ _ (values_bounded nm)); [by apply decode_id_safe|].
    intros a Ha. destruct H5 as (? & ? & ? & ?). by split_and!. }
  intros v6 H6. eapply safe_bind; [eapply (safe_field _ _ _ (values_bounded nm)); [apply decode_rdev_safe|intros; exact H6]|].
  intros v7 H7. eapply safe_bind.
  { eapply (safe_field _ _ _ (values_bounded nm)); [apply decode_symlink_safe|].
    intros a Ha. destruct H7 as (? & ? & ? & ?). by split_and!. }
  intros v8 H8. eapply safe_bind; [eapply (safe_field _ (fun _ => True) _ (values_bounded nm)); [|intros; exact H8]|].
  { unfold decode_checksum. apply safe_if; intros _; [by apply safe_ret|]. eapply safe_mono; [apply safe_read_exact; lia|done]. }
  intros v9 H9. eapply (safe_bind _ _ (fun p => values_bounded nm p.1)).
  { apply safe_if; intros _; [|by apply safe_ret]. eapply safe_bind; [apply decode_acl_safe|]. intros. by apply safe_ret. }
  intros p Hp. apply safe_if; intros _; [|by apply safe_ret]. eapply safe_bind; [apply decode_xattrs_safe|]. intros. by apply safe_ret.
Qed.

Lemma decode_entry_safe st opts prev :
  state_bounded (ds_delta st) -> Forall entry_bounded prev ->
  safe (decode_entry st opts prev None) (fun p =>
    state_bounded (ds_delta p.2) /\ match p.1 with ReadEntry e => entry_bounded e | ReadEndOfList _ => True end).
Proof.
  intros Hst Hprev. unfold decode_entry. eapply safe_bind; [apply decode_xmit_flags_safe|]. intros df _.
  destruct df as [fl|io_error]; [|by apply safe_ret]. eapply safe_bind; [apply decode_filename_safe|]. intros nm Hnm.
  specialize (Hnm eq_refl). eapply (safe_bind _ _ (fun h => match h with
     | Some (e, delta, _) => state_bounded delta /\ entry_bounded e | None => True end)).
  { unfold decode_hlink. apply safe_if; intros _; [by apply safe_ret|]. apply safe_if; intros _; [|by apply safe_ret].
    eapply safe_bind; [apply read_varint_safe|]. intros v _. cbv zeta.
    destruct (if _ <? 0 then None else _) as [first|] eqn:E; [|by apply safe_ret]. apply safe_ret.
    destruct (_ <? 0); [done|]. apply list_elem_of_lookup_2 in E. rewrite Forall_forall in Hprev.
    destruct (Hprev first E) as (? & ? & ? & ?). by split_and!. }
  intros [[[e delta] groups]|] Hh; [by apply safe_ret|].
  eapply safe_bind; [by apply decode_fields_safe|]. intros p (H1 & H2 & H3 & H4). apply safe_ret. cbn [fst snd].
  split; [by split|]. split_and!; cbn; try done. by rewrite H1.
Qed.
