(* ===== verification/EntryList.v ===== *)
(** Runs of file-list entries: the loops that the batch exchange and the
    sub-lists of incremental recursion share ([ferrosync-codec/src/exchange.rs],
    [incremental.rs]), what a receiver is meant to have of a run, and the proof
    that it does. *)
From S2P Require Import Prelude Wire Types Utf8 Varint WireFormat Acl Flist.

(** [for (i, entry) in entries.iter().enumerate()]: indices start at [base]. *)
Fixpoint enumerate_from {A} (base : Z) (l : list A) : list (Z * A) :=
  match l with
  | [] => []
  | x :: l' => (base, x) :: enumerate_from (base + 1) l'
  end.

Definition send_one (opts : FileListOptions) (p : Z * FileEntry) (st : EncoderState) : wr EncoderState :=
  encode_entry p.2 st opts (FileEntry.hard_link_info p.2) (as_i32 p.1) None.
Definition send_entries (opts : FileListOptions) (base : Z) (entries : list FileEntry) (st : EncoderState)
    : wr EncoderState :=
  wr_fold (send_one opts) (enumerate_from base entries) st.

(** The loop around [recv_file_entry]; yields the entries, the decoder state
    and the I/O error of the end marker. *)
Definition recv_round (opts : FileListOptions) (s : DecoderState * list FileEntry)
    : rd (DecoderState * list FileEntry + list FileEntry * DecoderState * Z) :=
  p ← decode_entry s.1 opts s.2 None;
  mret (match p.1 with
        | ReadEntry entry => inl (p.2, s.2 ++ [entry])
        | ReadEndOfList io_error => inr (s.2, p.2, io_error)
        end).
Definition recv_entries (opts : FileListOptions) (st : DecoderState) : rd (list FileEntry * DecoderState * Z) :=
  rd_while (recv_round opts) (st, []).

(** ** What the receiver is meant to have *)

(** The inode two entries share, when links are kept. *)
Definition link_key (opts : FileListOptions) (e : FileEntry) : option (Z * Z) :=
  match FileEntry.hard_link_info e with
  | Some info =>
      if preserve_hard_links opts then
        if hl_nlink info <=? 1 then None else Some (hl_dev info, hl_ino info)
      else None
  | None => None
  end.

Definition set_hlink_source (first : list Z) (e : FileEntry) : FileEntry :=
  mkFileEntry (name e) (len e) (mtime e) (mtime_nsec e) (mode e) (uid e) (gid e) (rdev e) (link_target e)
    (checksum e) (flags e) (user_name e) (group_name e) (Some first) (hard_link_info_field e) (acl e) (xattrs e).

(** [seen]: the name of the first entry of each inode so far. *)
Definition receive_step (opts : FileListOptions) (seen : gmap (Z * Z) (list Z)) (e : FileEntry)
    : FileEntry * gmap (Z * Z) (list Z) :=
  match link_key opts e with
  | None => (received opts e, seen)
  | Some k =>
      match seen !! k with
      | Some first => (set_hlink_source first (received opts e), seen)
      | None => (received opts e, <[k := name e]> seen)
      end
  end.
Fixpoint received_list (opts : FileListOptions) (seen : gmap (Z * Z) (list Z)) (l : list FileEntry) : list FileEntry :=
  match l with
  | [] => []
  | e :: l' => let '(r, seen') := receive_step opts seen e in r :: received_list opts seen' l'
  end.

(** ** Well-formed lists *)

Definition anonymous (e : FileEntry) : FileEntry :=
  mkFileEntry [] (len e) (mtime e) (mtime_nsec e) (mode e) (uid e) (gid e) (rdev e) (link_target e)
    (checksum e) 0 (user_name e) (group_name e) None (hard_link_info_field e) (acl e) (xattrs e).

(** Names follow from ids and are given for every id or for none. *)
Definition names_agree (opts : FileListOptions) (a b : FileEntry) : Prop :=
  has_inline_names (wire opts) = true ->
  (preserve_uid opts = true ->
     Z.of_nat (length (user_name a)) < 256 /\ (uid a = uid b -> user_name a = user_name b) /\
     (user_name a = [] -> user_name b = [])) /\
  (preserve_gid opts = true ->
     Z.of_nat (length (group_name a)) < 256 /\ (gid a = gid b -> group_name a = group_name b) /\
     (group_name a = [] -> group_name b = [])).

(** Names of one inode share everything but the name. *)
Definition links_agree (opts : FileListOptions) (a b : FileEntry) : Prop :=
  forall k, link_key opts a = Some k -> link_key opts b = Some k ->
  anonymous (received opts a) = anonymous (received opts b).

Definition list_ok (opts : FileListOptions) (l : list FileEntry) : Prop :=
  Forall (entry_ok opts) l /\ forall a b, a ∈ l -> b ∈ l -> names_agree opts a b /\ links_agree opts a b.

(** The sender's memory is that of an entry of the list, or of none. *)
Definition follows_from (l : list FileEntry) (s : DeltaState) : Prop :=
  (prev_name s = [] /\ prev_user_name s = [] /\ prev_group_name s = []) \/
  exists a, a ∈ l /\ prev_uid s = uid a /\ prev_user_name s = user_name a /\
    prev_gid s = gid a /\ prev_group_name s = group_name a.

Lemma follows_names_ok opts l s e : list_ok opts l -> follows_from l s -> e ∈ l -> names_ok opts s e.
Proof.
  intros [_ Hl] Hs He. unfold names_ok, id_name_ok. destruct Hs as [(-> & -> & ->)|(a & Ha & -> & -> & -> & ->)].
  - destruct (Hl e e He He) as [Hn _]. rewrite bool_decide_true by done.
    split; intros Hp Hi; destruct (Hn Hi) as [Hu Hg].
    + destruct (Hu Hp) as (? & _ & _). done.
    + destruct (Hg Hp) as (? & _ & _). done.
  - destruct (Hl e a He Ha) as [Hn _].
    split; intros Hp Hi; destruct (Hn Hi) as [Hu Hg].
    + destruct (Hu Hp) as (? & ? & ?). auto.
    + destruct (Hg Hp) as (? & ? & ?). auto.
Qed.

Lemma follows_update l s e : e ∈ l -> follows_from l (update_delta_state s e).
Proof. intros He. right. by exists e. Qed.

(** Both sides remember the same of the entry they have just dealt with. *)
Lemma in_sync_update opts se sd e e' :
  name e' = name e -> anonymous e' = anonymous (received opts e) ->
  in_sync opts (update_delta_state se e) (update_delta_state sd e').
Proof.
  intros Hn Ha. pose proof (f_equal mtime Ha). pose proof (f_equal mode Ha). pose proof (f_equal uid Ha).
  pose proof (f_equal gid Ha). pose proof (f_equal rdev Ha) as Hr. pose proof (f_equal user_name Ha).
  pose proof (f_equal group_name Ha). unfold in_sync, update_delta_state, FileEntry.rdev_major. cbn in *.
  rewrite Hr. by split_and!.
Qed.

Lemma clone_received opts first e fl : anonymous first = anonymous (received opts e) ->
  without_flags (hlink_clone first (name e) fl) = set_hlink_source (name first) (received opts e).
Proof.
  destruct first. unfold anonymous. cbn. intros H. injection H. intros. subst. reflexivity.
Qed.

(** ** The action chosen for an entry *)

Lemma resolve_cases opts e seen i :
  resolve_hlink_action opts (FileEntry.hard_link_info e) seen i =
  match link_key opts e with
  | None => (NotHardLinked, seen)
  | Some k => match seen !! k with
              | Some j => (DuplicateOf j, seen)
              | None => (FirstOccurrence, <[k := i]> seen)
              end
  end.
Proof.
  unfold resolve_hlink_action, link_key, check. destruct (FileEntry.hard_link_info e) as [info|]; [|done].
  destruct (preserve_hard_links opts); [|done]. by destruct (hl_nlink info <=? 1).
Qed.

Lemma end_of_list_mirrors io_error opts : in_i32 io_error ->
  mirrors (encode_end_of_flist io_error opts) (decode_xmit_flags opts)
    (fun _ df => df = DfEndOfList (if bool_decide (flags_codec (wire opts) = FByte) then 0 else io_error)).
Proof.
  intros Hio. assert (Hv : as_i32 (as_u32 io_error) = io_error) by (rewrite (swrap_wrap 32); apply swrap_id; lia).
  assert (Hu : in_u32 (as_u32 io_error)) by (apply (wrap_range 32); lia).
  unfold encode_end_of_flist, decode_xmit_flags. destruct (flags_codec (wire opts)).
  - eapply mirrors_then; [apply write_byte_mirrors|]. intros [] ? ->. by apply mirrors_ret.
  - rewrite bool_decide_false by done. destruct (Z.eqb_spec io_error 0) as [->|]; cbn [negb].
    + eapply mirrors_then; [apply write_byte_mirrors|]. intros [] ? ->. by apply mirrors_ret.
    + destruct (write_varint_mirrors _ Hu) as (u & b & bs & Hw & Hr & ->).
      eexists u, _, ([4; 16] ++ bs). split_and!; [|intros k|reflexivity].
      * unfold mbind, wr_bind. by rewrite Hw.
      * cbn [app]. unfold read_byte. erewrite rd_bind_run by (erewrite rd_bind_run by apply read_exact_cons; reflexivity).
        look. cbn [Z.eqb]. change (has_bits 4 XMIT_EXTENDED_FLAGS) with true. cbv iota.
        erewrite rd_bind_run by (erewrite rd_bind_run by apply read_exact_cons; reflexivity). look.
        change (Z.lor 4 (16 ≪ 8) =? Z.lor XMIT_EXTENDED_FLAGS XMIT_IO_ERROR_ENDLIST) with true. cbv zeta iota.
        erewrite rd_bind_run by apply Hr. by rewrite Hv.
  - rewrite bool_decide_false by done. eapply mirrors_bind; [by apply write_varint_mirrors|]. intros [] ? ->.
    eapply mirrors_then; [by apply write_varint_mirrors|]. intros [] ? ->. apply mirrors_ret. by rewrite Hv.
Qed.

Lemma attrs_start : attrs_in_step 0 (AclEncoder_new, []) (AclDecoder_new, []).
Proof. by repeat split. Qed.

(** ** A run, entry by entry *)

Section run.
  Context (opts : FileListOptions) (Hs : session opts) (Hc : links_carried opts).
  Context (all : list FileEntry) (Hall : list_ok opts all).
  Context (base : Z) (Hbase : 0 <= base).

(** The sender's table of inodes, against the entries received and the names
    the specification remembers. *)
Definition links_known (table : HardLinkEncoder) (seen : gmap (Z * Z) (list Z)) (prev : list FileEntry) : Prop :=
  forall k, match table !! k with
  | None => seen !! k = None
  | Some j => exists first e0, base <= j /\ prev !! Z.to_nat (j - base) = Some first /\
      seen !! k = Some (name first) /\ e0 ∈ all /\ link_key opts e0 = Some k /\
      anonymous first = anonymous (received opts e0)
  end.

Record run_state (n : nat) (l : list (Z * FileEntry)) (target : list FileEntry) (es : EncoderState)
    (s : DecoderState * list FileEntry) : Prop := {
  rs_list : exists rest seen, l = enumerate_from (base + Z.of_nat (length s.2)) rest /\ (forall e, e ∈ rest -> e ∈ all) /\
    links_known (es_hlink es) seen s.2 /\ target = map without_flags s.2 ++ received_list opts seen rest;
  rs_sync : in_sync opts (es_delta es) (ds_delta s.1);
  rs_start : ndx_start (ds_delta s.1) = base;
  rs_from : follows_from all (es_delta es);
  rs_attrs : attrs_in_step (n + length s.2) (es_attrs es) (ds_attrs s.1);
  rs_nolinks : preserve_hard_links opts = false -> es_hlink es = ∅;
  rs_bound : base + Z.of_nat (length s.2 + length l) <= 2 ^ 31 /\ Z.of_nat (n + length s.2 + length l) < 2 ^ 32;
}.

Lemma links_known_app table seen prev r : links_known table seen prev -> links_known table seen (prev ++ [r]).
Proof.
  intros H k. specialize (H k). destruct (table !! k) as [j|]; [|done]. destruct H as (first & e0 & H1 & H2 & H3).
  exists first, e0. split; [done|]. split; [|done]. by apply lookup_app_l_Some.
Qed.

Lemma links_known_insert table seen prev r k e j : links_known table seen prev ->
  j = base + Z.of_nat (length prev) -> name r = name e -> e ∈ all -> link_key opts e = Some k ->
  anonymous r = anonymous (received opts e) ->
  links_known (<[k := j]> table) (<[k := name e]> seen) (prev ++ [r]).
Proof.
  intros H -> Hn He Hk Ha k'. destruct (decide (k = k')) as [<-|Hne].
  - rewrite !lookup_insert_eq. exists r, e. split; [lia|]. split; [|by rewrite Hn].
    replace (Z.to_nat _) with (length prev) by lia. by rewrite lookup_app_r, Nat.sub_diag.
  - rewrite !lookup_insert_ne by done. by apply links_known_app.
Qed.

(** One more entry on both sides. *)
Lemma run_next n target e rest es es' ds ds' prev e' seen' :
  run_state n (enumerate_from (base + Z.of_nat (length prev)) (e :: rest)) target es (ds, prev) ->
  (forall x, x ∈ e :: rest -> x ∈ all) ->
  name e' = name e -> anonymous e' = anonymous (received opts e) ->
  es_delta es' = update_delta_state (es_delta es) e -> ds_delta ds' = update_delta_state (ds_delta ds) e' ->
  links_known (es_hlink es') seen' (prev ++ [e']) ->
  target = map without_flags prev ++ without_flags e' :: received_list opts seen' rest ->
  attrs_in_step (S (n + length prev)) (es_attrs es') (ds_attrs ds') ->
  (preserve_hard_links opts = false -> es_hlink es' = ∅) ->
  run_state n (enumerate_from (base + Z.of_nat (length prev) + 1) rest) target es' (ds', prev ++ [e']).
Proof.
  intros [_ Hsync Hst _ _ _ [Hb1 Hb2]] Hin Hn Ha Hd1 Hd2 Hl Ht Hat Hno. cbn [fst snd enumerate_from length] in *.
  split; cbn [fst snd].
  - exists rest, seen'. rewrite length_app. cbn [length]. split; [f_equal; lia|].
    split; [intros; apply Hin, elem_of_cons; by right|]. split; [done|]. by rewrite Ht, map_app, <- app_assoc.
  - rewrite Hd1, Hd2. by apply in_sync_update.
  - by rewrite Hd2.
  - rewrite Hd1. apply follows_update, Hin, elem_of_cons. by left.
  - by rewrite length_app, Nat.add_1_r, Nat.add_succ_r.
  - done.
  - rewrite length_app. cbn [length] in *. lia.
Qed.

Lemma run_step n target p l es s :
  run_state n (p :: l) target es s ->
  mirrors (send_one opts p es) (recv_round opts s)
    (fun es' r => exists s', r = inl s' /\ run_state n l target es' s').
Proof.
  destruct s as [ds prev]. intros Hrun. pose proof Hrun as [(rest & seen & Hl & Hin & Hlk & Htgt) Hsync Hst Hfrom Hat Hno [Hb1 Hb2]].
  cbn [fst snd] in *. destruct rest as [|e rest]; [done|]. cbn [enumerate_from] in Hl. injection Hl as -> ->. cbn [length] in Hb1, Hb2.
  assert (He : e ∈ all) by (apply Hin, elem_of_cons; by left). pose proof (follows_names_ok _ _ _ _ Hall Hfrom He) as Hnames.
  destruct Hall as [Hok Hcons]. rewrite Forall_forall in Hok. specialize (Hok e He).
  pose proof (fun es' ds' e' seen' => run_next n target e rest es es' ds ds' prev e' seen' Hrun Hin) as Hnext.
  set (i := base + Z.of_nat (length prev)) in *. assert (Hi : as_i32 i = i) by (apply swrap_id; lia).
  unfold send_one, recv_round. cbn [fst snd]. rewrite Hi. apply mirrors_map.
  pose proof (resolve_cases opts e (es_hlink es) i) as Hres. cbn [received_list] in Htgt. unfold receive_step in Htgt.
  assert (Hnolink : preserve_hard_links opts = false -> link_key opts e = None).
  { unfold link_key. intros ->. by destruct (FileEntry.hard_link_info e). }
  assert (Hwhole : forall action table seen', resolve_hlink_action opts (FileEntry.hard_link_info e) (es_hlink es) i = (action, table) ->
    (forall j, action <> DuplicateOf j) ->
    (forall e', name e' = name e -> anonymous e' = anonymous (received opts e) -> links_known table seen' (prev ++ [e'])) ->
    target = map without_flags prev ++ received opts e :: received_list opts seen' rest ->
    mirrors (encode_entry e es opts (FileEntry.hard_link_info e) i None) (decode_entry ds opts prev None)
      (fun es' q => exists s', match q.1 with ReadEntry entry => inl (q.2, prev ++ [entry])
         | ReadEndOfList io_error => inr (prev, q.2, io_error) end = inl s' /\
         run_state n (enumerate_from (i + 1) rest) target es' s')).
  { intros action table seen' Hr Ha Hl' Ht.
    eapply mirrors_mono; [eapply (whole_entry_mirrors opts Hs Hc e es ds (n + length prev)); try done; lia|].
    cbv zeta. intros es' q (Hd1 & Hh & Hq & Hd2 & Hat'). rewrite Hq. eexists. split; [done|].
    eapply Hnext; try done; rewrite Hh; [by apply Hl'|]. intros Hp. rewrite (Hnolink Hp) in Hres.
    rewrite Hres in Hr. injection Hr as <- <-. by apply Hno. }
  destruct (link_key opts e) as [k|] eqn:Ek.
  2: { eapply Hwhole; [exact Hres|done| |done]. intros e' _ _. by apply links_known_app. }
  pose proof (Hlk k) as Hk. destruct (es_hlink es !! k) as [j|] eqn:Ej.
  2: { rewrite Hk in Htgt. eapply Hwhole; [exact Hres|done| |done]. intros e' Hn Ha. eapply links_known_insert; done. }
  destruct Hk as (first & e0 & Hj & Hfirst & Hseen & He0 & Hk0 & Han). rewrite Hseen in Htgt.
  pose proof (lookup_lt_Some _ _ _ Hfirst) as Hlt. destruct (Hcons e e0 He He0) as [_ Hla]. specialize (Hla k Ek Hk0).
  eapply mirrors_mono; [eapply (linked_entry_mirrors opts Hs Hc e es ds (n + length prev)); try done; [by rewrite Hst|lia|lia]|].
  cbv zeta. intros es' q (Hd1 & Hh & Hq & Hd2 & Hat'). rewrite Hq. eexists. split; [done|].
  eapply Hnext; try done.
  - by rewrite Hla, <- Han.
  - rewrite Hh. by apply links_known_app.
  - rewrite Htgt. do 2 f_equal. symmetry. apply clone_received. by rewrite Hla.
  - intros Hp. by apply Hnolink in Hp.
Qed.

Definition run_done (n : nat) (target : list FileEntry) (es : EncoderState) (r : list FileEntry * DecoderState * Z) : Prop :=
  let '(entries, ds, io_error) := r in
  map without_flags entries = target /\ io_error = 0 /\ in_sync opts (es_delta es) (ds_delta ds) /\
  follows_from all (es_delta es) /\ attrs_in_step (n + length entries) (es_attrs es) (ds_attrs ds) /\
  (preserve_hard_links opts = false -> es_hlink es = ∅).

Lemma run_end n target es s : run_state n [] target es s ->
  mirrors (_ ← encode_end_of_flist 0 opts; mret es) (recv_round opts s)
    (fun es' r => exists a, r = inr a /\ run_done n target es' a).
Proof.
  destruct s as [ds prev]. intros [(rest & seen & Hl & _ & _ & Htgt) Hsync Hst Hfrom Hat Hno _]. cbn [fst snd] in *.
  destruct rest as [|e rest]; [|done]. unfold recv_round, decode_entry. cbn [fst snd]. apply mirrors_map.
  eapply mirrors_bind; [by apply end_of_list_mirrors|]. intros [] ? ->. apply mirrors_ret. cbn [fst snd].
  eexists. split; [done|]. cbn [run_done]. split; [by rewrite Htgt, app_nil_r|]. by destruct (bool_decide _).
Qed.

(** A whole run, from any state in which the two sides agree and no inode has
    been seen. *)
Lemma run_mirrors n entries es ds :
  (forall e, e ∈ entries -> e ∈ all) -> es_hlink es = ∅ ->
  in_sync opts (es_delta es) (ds_delta ds) -> ndx_start (ds_delta ds) = base ->
  follows_from all (es_delta es) -> attrs_in_step n (es_attrs es) (ds_attrs ds) ->
  base + Z.of_nat (length entries) <= 2 ^ 31 -> Z.of_nat (n + length entries) < 2 ^ 32 ->
  mirrors (es' ← send_entries opts base entries es; _ ← encode_end_of_flist 0 opts; mret es')
    (recv_entries opts ds) (run_done n (received_list opts ∅ entries)).
Proof.
  intros Hin Hh Hsync Hst Hfrom Hat Hb1 Hb2.
  assert (Hlen : forall b, length (enumerate_from b entries) = length entries)
    by (clear; induction entries; intros; cbn; auto).
  apply (mirrors_while (send_one opts) (fun es' => _ ← encode_end_of_flist 0 opts; mret es') (recv_round opts)
    (fun l t s => run_state n l (received_list opts ∅ entries) t s)).
  - intros s. unfold recv_round. apply takes_bind; [apply decode_entry_takes|]. intros. apply takes_ret.
  - intros p l t s. apply run_step.
  - intros t s. apply run_end.
  - split; cbn [fst snd length].
    + exists entries, ∅. split; [by rewrite Z.add_0_r|]. split; [done|]. split; [|done].
      intros k. by rewrite Hh, lookup_empty.
    + done.
    + done.
    + done.
    + by rewrite Nat.add_0_r.
    + done.
    + rewrite Hlen. lia.
Qed.
End run.

(** Without ACLs and attributes their encoders are not touched. *)
Lemma encode_entry_attrs e es opts info i : preserve_acls opts = false -> preserve_xattrs opts = false ->
  yields (encode_entry e es opts info i None) (fun es' => es_attrs es' = es_attrs es).
Proof.
  intros Ha Hx. unfold encode_entry. destruct (resolve_hlink_action _ _ _ _) as [action seen].
  do 2 (eapply yields_bind; [apply yields_any|]; intros _ _).
  eapply yields_bind; [apply yields_any|]. intros [] _; [by apply yields_ret|].
  eapply (yields_bind _ _ (fun p => p.2 = es_attrs es)); [|intros p Hp; by apply yields_ret].
  unfold traverse_fields, Encoder. cbn [visit_len visit_mtime visit_mtime_nsec visit_mode visit_uid visit_gid
    visit_rdev visit_symlink visit_checksum visit_acl visit_xattr cx_opts].
  do 9 (eapply yields_bind; [apply yields_any|]; intros ? _). rewrite Ha, Hx. cbn [andb].
  eapply (yields_bind _ _ (fun p => p.2 = es_attrs es)); [by apply yields_ret|]. intros p Hp. by apply yields_ret.
Qed.

Lemma send_entries_attrs opts base entries es : preserve_acls opts = false -> preserve_xattrs opts = false ->
  yields (es' ← send_entries opts base entries es; _ ← encode_end_of_flist 0 opts; mret es')
    (fun es' => es_attrs es' = es_attrs es).
Proof.
  intros Ha Hx. eapply (yields_bind _ _ (fun es' => es_attrs es' = es_attrs es)).
  - unfold send_entries. revert base es. induction entries as [|e l IH]; intros base es; [by apply yields_ret|].
    cbn [enumerate_from wr_fold]. eapply yields_bind; [by apply encode_entry_attrs|]. intros es' <-. apply IH.
  - intros es' He. eapply yields_bind; [apply yields_any|]. intros _ _. by apply yields_ret.
Qed.

(** ** Arbitrary input *)

Lemma recv_round_takes opts s : takes 1 (recv_round opts s).
Proof. unfold recv_round. apply takes_bind; [apply decode_entry_takes|auto with takes]. Qed.
Lemma recv_entries_takes opts ds : takes 0 (recv_entries opts ds).
Proof. apply takes_while. intros s. eapply takes_weaken, recv_round_takes. Qed.
#[export] Hint Resolve recv_entries_takes : takes.

Lemma recv_entries_safe opts ds : state_bounded (ds_delta ds) ->
  safe (recv_entries opts ds) (fun r => Forall entry_bounded r.1.1 /\ state_bounded (ds_delta r.1.2)).
Proof.
  intros Hds. apply (rd_while_safe _ (fun s : DecoderState * list FileEntry =>
    state_bounded (ds_delta s.1) /\ Forall entry_bounded s.2)).
  - apply recv_round_takes.
  - intros [st prev] [Hst Hprev]. cbn [fst snd] in *. unfold recv_round. eapply safe_bind; [by apply decode_entry_safe|].
    intros [[e|io] st'] [H1 H2]; apply safe_ret; cbn [fst snd] in *.
    + split; [done|]. apply Forall_app. auto.
    + done.
  - done.
Qed.
