(* ===== verification/Incremental.v ===== *)
(** Incremental recursion ([ferrosync-codec/src/incremental.rs]): sub-lists and
    their index ranges on both sides, the grouping of a sorted list by
    directory, and the deferred sub-lists of the sender loop. *)
From S2P Require Import Prelude Wire Types Varint WireFormat Acl Flist EntryList.

Definition NDX_FLIST_OFFSET : Z := -101.
Definition NDX_FLIST_EOF : Z := -2.

(** ** Receiver *)

Record SubFileList := mkSubFileList {
  dir_ndx : Z;
  sub_ndx_start : Z;
  sub_entries : list FileEntry;
  sub_io_error : Z;
}.

Record IncrementalReceiver := mkIncrementalReceiver {
  ir_ndx_state : NdxState;
  ir_next_ndx : Z;
}.
Definition IncrementalReceiver_new (inc_recurse : bool) : IncrementalReceiver :=
  mkIncrementalReceiver NdxState_default (if inc_recurse then 1 else 0).

Definition read_ndx_marker (r : IncrementalReceiver) (codec : IntCodec) : rd (Z * IncrementalReceiver) :=
  p ← read_ndx (ir_ndx_state r) codec;
  mret (p.1, mkIncrementalReceiver p.2 (ir_next_ndx r)).

(** [delta_state] is the caller's, and comes back changed; the hard-link, ACL
    and attribute decoders are new for every sub-list. *)
Definition recv_sub_flist_with_state (r : IncrementalReceiver) (dir : Z) (opts : FileListOptions)
    (delta_state : DeltaState) : rd (SubFileList * IncrementalReceiver * DeltaState) :=
  let ndx_start := ir_next_ndx r in
  let delta_state := set_ndx_start ndx_start delta_state in
  q ← recv_entries opts (mkDecoderState delta_state ∅ (AclDecoder_new, []));
  let '(entries, st, io_error) := (q : list FileEntry * DecoderState * Z) in
  let next := as_i32 (ndx_start + Z.of_nat (length entries) + 1) in
  mret (mkSubFileList dir ndx_start entries io_error, mkIncrementalReceiver (ir_ndx_state r) next, ds_delta st).

Definition recv_sub_flist (r : IncrementalReceiver) (dir : Z) (opts : FileListOptions)
    : rd (SubFileList * IncrementalReceiver) :=
  p ← recv_sub_flist_with_state r dir opts DeltaState_default;
  mret p.1.

(** ** Sender *)

Record IncrementalSender := mkIncrementalSender {
  is_ndx_state : NdxState;
  is_next_ndx : Z;
}.
Definition IncrementalSender_default : IncrementalSender := mkIncrementalSender NdxState_default 0.

Definition write_marker (ndx : Z) (s : IncrementalSender) (codec : IntCodec) : wr IncrementalSender :=
  st ← write_ndx ndx (is_ndx_state s) codec; mret (mkIncrementalSender st (is_next_ndx s)).
Definition write_sub_flist_marker (s : IncrementalSender) (dir : Z) (codec : IntCodec) : wr IncrementalSender :=
  write_marker (as_i32 (NDX_FLIST_OFFSET - dir)) s codec.
Definition write_flist_eof (s : IncrementalSender) (codec : IntCodec) : wr IncrementalSender :=
  write_marker NDX_FLIST_EOF s codec.

(** The loop over the entries and the end marker, with the caller's encoder
    state. *)
Definition send_sub_entries (s : IncrementalSender) (entries : list FileEntry) (opts : FileListOptions)
    (st : EncoderState) : wr (IncrementalSender * EncoderState) :=
  let ndx_start := is_next_ndx s in
  let st := mkEncoderState (set_ndx_start ndx_start (es_delta st)) (es_hlink st) (es_attrs st) in
  st ← (st ← send_entries opts ndx_start entries st; _ ← encode_end_of_flist 0 opts; mret st);
  mret (mkIncrementalSender (is_ndx_state s) (as_i32 (ndx_start + Z.of_nat (length entries) + 1)), st).

Definition send_sub_flist_with_state (s : IncrementalSender) (dir : Z) (entries : list FileEntry)
    (opts : FileListOptions) (st : EncoderState) : wr (IncrementalSender * EncoderState) :=
  s ← write_sub_flist_marker s dir (int_codec (wire opts));
  send_sub_entries s entries opts st.

Definition send_sub_flist (s : IncrementalSender) (dir : Z) (entries : list FileEntry) (opts : FileListOptions)
    : wr IncrementalSender :=
  p ← send_sub_flist_with_state s dir entries opts EncoderState_new; mret p.1.

(** [&entries[entry_idx]] for every index; an index out of range panics. *)
Fixpoint pick {A} (entries : list A) (indices : list nat) : option (list A) :=
  match indices with
  | [] => Some []
  | i :: l => x ← entries !! i; xs ← pick entries l; Some (x :: xs)
  end.
Definition encode_sub_flist_entries (s : IncrementalSender) (entries : list FileEntry) (indices : list nat)
    (opts : FileListOptions) (st : EncoderState) : wr (IncrementalSender * EncoderState) :=
  match pick entries indices with
  | Some picked => send_sub_entries s picked opts st
  | None => wr_lift Panic
  end.

(** ** Directory tree *)

Record DirGroup := mkDirGroup {
  dg_dir_ndx : Z;
  entry_indices : list nat;
}.
Abbreviation DirectoryTree := (list DirGroup).

(** Indices of the entries a test holds of. *)
Definition indices_where (f : FileEntry -> bool) (entries : list FileEntry) : list nat :=
  List.filter (fun i => match entries !! i with Some e => f e | None => false end) (seq 0 (length entries)).

Definition is_dir_at (entries : list FileEntry) (i : nat) : bool :=
  match entries !! i with Some e => FileEntry.is_dir e | None => false end.
Definition name_at (entries : list FileEntry) (i : nat) : list Z :=
  match entries !! i with Some e => name e | None => [] end.

(** [for &idx in ..: if it is a directory { dir_flist_ndx[idx] = dir_counter; dir_counter += 1 }] *)
Fixpoint number_dirs (entries : list FileEntry) (indices : list nat) (numbers : list Z) (counter : Z) : list Z * Z :=
  match indices with
  | [] => (numbers, counter)
  | i :: l =>
      if is_dir_at entries i then number_dirs entries l (<[i := counter]> numbers) (counter + 1)
      else number_dirs entries l numbers counter
  end.

Record tree_state := mkTreeState {
  ts_groups : list DirGroup;
  ts_numbers : list Z;
  ts_counter : Z;
}.

Definition queue_dirs (entries : list FileEntry) (indices : list nat) : list (nat * list Z) :=
  map (fun i => (i, name_at entries i)) (List.filter (is_dir_at entries) indices).

(** One round of the loop: the group of the directory, and the directories to
    queue. *)
Definition tree_round (entries : list FileEntry) (dir : nat * list Z) (ts : tree_state)
    : list (nat * list Z) * tree_state :=
  let '(dir_entry_idx, dir_name) := dir in
  let child_indices := indices_where (fun e => bool_decide (FileEntry.dirname e = Some dir_name)) entries in
  let groups := ts_groups ts ++ [mkDirGroup (ts_numbers ts !!! dir_entry_idx) child_indices] in
  let '(numbers, counter) := number_dirs entries child_indices (ts_numbers ts) (ts_counter ts) in
  (queue_dirs entries child_indices, mkTreeState groups numbers counter).

(** The rounds for the directories queued before the first of [cur]'s children:
    [queue[pos..]] is [cur ++ next]. *)
Fixpoint tree_level (entries : list FileEntry) (cur next : list (nat * list Z)) (ts : tree_state)
    : list (nat * list Z) * tree_state :=
  match cur with
  | [] => (next, ts)
  | dir :: cur' =>
      let '(children, ts') := tree_round entries dir ts in
      tree_level entries cur' (next ++ children) ts'
  end.
(** [while pos < queue.len()]: a unit of fuel is spent when all of [cur] is
    done. A child's name is longer than its directory's, so more levels than
    the longest name has bytes never happen ([tree_terminates]). *)
Fixpoint tree_loop (entries : list FileEntry) (fuel : nat) (cur : list (nat * list Z)) (ts : tree_state)
    : option tree_state :=
  match cur with
  | [] => Some ts
  | _ =>
      match fuel with
      | O => None
      | S fuel' =>
          let '(next, ts') := tree_level entries cur [] ts in
          tree_loop entries fuel' next ts'
      end
  end.

Definition max_name_length (entries : list FileEntry) : nat := foldr (fun e m => Nat.max (length (name e)) m) 0%nat entries.

Definition dot_name : list Z := [46].
Definition from_sorted_entries (entries : list FileEntry) : DirectoryTree :=
  match entries with
  | [] => [mkDirGroup (-1) []]
  | _ =>
      let root_indices := indices_where (fun e => bool_decide (FileEntry.dirname e = None)) entries in
      let '(numbers, counter) := number_dirs entries root_indices (replicate (length entries) (-1)) 0 in
      let queue := List.filter (fun p => negb (bool_decide (p.2 = dot_name))) (queue_dirs entries root_indices) in
      let ts := mkTreeState [mkDirGroup (-1) root_indices] numbers counter in
      match tree_loop entries (S (max_name_length entries)) queue ts with
      | Some ts' => ts_groups ts'
      | None => ts_groups ts
      end
  end.

Definition tree_root (tree : DirectoryTree) : DirGroup := match tree with g :: _ => g | [] => mkDirGroup (-1) [] end.
Definition has_subdirs (tree : DirectoryTree) : bool := (1 <? length tree)%nat.
Definition into_pending_groups (tree : DirectoryTree) : list DirGroup := drop 1 tree.

(** ** Deferred sub-lists *)

Record PendingSubFlists := mkPendingSubFlists {
  pg_groups : list DirGroup;
  pg_cursor : nat;
  pg_entries : list FileEntry;
  pg_encoder : EncoderState;
  pg_sender : IncrementalSender;
  pg_opts : FileListOptions;
  eof_sent : bool;
}.
Definition PendingSubFlists_new (groups : list DirGroup) (entries : list FileEntry) (st : EncoderState)
    (s : IncrementalSender) (opts : FileListOptions) : PendingSubFlists :=
  mkPendingSubFlists groups 0 entries st s opts false.

(** [while sent < count && cursor < groups.len()] *)
Fixpoint send_groups (count : nat) (p : PendingSubFlists) : wr PendingSubFlists :=
  match count with
  | O => mret p
  | S count' =>
      match pg_groups p !! pg_cursor p with
      | None => mret p
      | Some group =>
          s ← write_sub_flist_marker (pg_sender p) (dg_dir_ndx group) (int_codec (wire (pg_opts p)));
          q ← encode_sub_flist_entries s (pg_entries p) (entry_indices group) (pg_opts p) (pg_encoder p);
          send_groups count' (mkPendingSubFlists (pg_groups p) (S (pg_cursor p)) (pg_entries p) q.2 q.1 (pg_opts p) (eof_sent p))
      end
  end.
Definition send_pending (count : nat) (p : PendingSubFlists) : wr PendingSubFlists :=
  if eof_sent p then mret p
  else
    p ← send_groups count p;
    if (length (pg_groups p) <=? pg_cursor p)%nat && negb (eof_sent p) then
      s ← write_flist_eof (pg_sender p) (int_codec (wire (pg_opts p)));
      mret (mkPendingSubFlists (pg_groups p) (pg_cursor p) (pg_entries p) (pg_encoder p) s (pg_opts p) true)
    else mret p.

Definition is_done (p : PendingSubFlists) : bool := eof_sent p.
Definition remaining (p : PendingSubFlists) : nat := (length (pg_groups p) - pg_cursor p)%nat.

(** ** Indices *)

Lemma elem_of_filter_b {A} (f : A -> bool) (l : list A) x : x ∈ List.filter f l <-> x ∈ l /\ f x = true.
Proof. rewrite !list_elem_of_In. apply filter_In. Qed.

Lemma elem_of_indices f entries i : i ∈ indices_where f entries <-> exists e, entries !! i = Some e /\ f e = true.
Proof.
  unfold indices_where. rewrite elem_of_filter_b, elem_of_seq. split.
  - intros [_ H]. destruct (entries !! i); [eauto|done].
  - intros (e & He & Hf). rewrite He. apply lookup_lt_Some in He. split; [lia|done].
Qed.

Lemma indices_NoDup f entries : NoDup (indices_where f entries).
Proof. apply NoDup_ListNoDup, List.NoDup_filter, NoDup_ListNoDup, NoDup_seq. Qed.

(** The entries behind the indices are those the test keeps, in order. *)
Lemma pick_indices f entries : pick entries (indices_where f entries) = Some (List.filter f entries).
Proof.
  unfold indices_where. assert (H : forall pre l, pick (pre ++ l)
    (List.filter (fun i => match (pre ++ l) !! i with Some e => f e | None => false end) (seq (length pre) (length l)))
    = Some (List.filter f l)); [|apply (H [])].
  intros pre l. revert pre. induction l as [|x l IH]; intros pre; [done|]. cbn [length seq List.filter].
  rewrite lookup_app_r, Nat.sub_diag by lia. cbn [lookup list_lookup].
  specialize (IH (pre ++ [x])). rewrite <- app_assoc, length_app, Nat.add_1_r in IH. cbn [app] in IH.
  destruct (f x); [|exact IH]. cbn [pick]. rewrite lookup_app_r, Nat.sub_diag by lia. cbn [lookup list_lookup mbind option_bind].
  by rewrite IH.
Qed.

Lemma name_inj entries i j e e' : NoDup (map name entries) ->
  entries !! i = Some e -> entries !! j = Some e' -> name e = name e' -> i = j.
Proof.
  intros Hnd Hi Hj He. apply (NoDup_lookup (map name entries) i j (name e)); [done| |].
  - by rewrite list_lookup_fmap, Hi.
  - by rewrite list_lookup_fmap, Hj, He.
Qed.

Lemma dirname_shorter e d : FileEntry.dirname e = Some d -> (length d < length (name e))%nat.
Proof.
  unfold FileEntry.dirname. destruct (rposition slash (name e)) as [pos|] eqn:E; [|done]. intros [= <-].
  apply rposition_Some in E as [E _]. apply lookup_lt_Some in E. rewrite length_take. lia.
Qed.

Lemma max_name_bound entries i e : entries !! i = Some e -> (length (name e) <= max_name_length entries)%nat.
Proof.
  unfold max_name_length. revert i. induction entries as [|x l IH]; intros [|i] H; cbn in *; simplify_eq; [lia|].
  apply IH in H. lia.
Qed.

Lemma elem_of_queue_dirs entries l i n :
  (i, n) ∈ queue_dirs entries l <-> i ∈ l /\ is_dir_at entries i = true /\ n = name_at entries i.
Proof.
  unfold queue_dirs. rewrite list_elem_of_fmap. split.
  - intros (j & [= -> ->] & H). apply elem_of_filter_b in H as [? ?]. done.
  - intros (Hi & Hd & ->). exists i. split; [done|]. by apply elem_of_filter_b.
Qed.

(** ** Numbering *)

Lemma number_dirs_spec entries l numbers counter numbers' counter' : NoDup l ->
  number_dirs entries l numbers counter = (numbers', counter') ->
  length numbers' = length numbers /\ counter <= counter' <= counter + Z.of_nat (length l) /\
  (forall i, i ∉ l -> numbers' !! i = numbers !! i) /\
  (forall i, i ∈ l -> (i < length numbers)%nat -> is_dir_at entries i = true -> counter <= numbers' !!! i < counter').
Proof.
  revert numbers counter. induction l as [|j l IH]; intros numbers counter Hnd E; cbn [number_dirs length] in E |- *.
  { injection E as <- <-. split_and!; try lia; try done. intros i Hi. by apply not_elem_of_nil in Hi. }
  apply NoDup_cons in Hnd as [Hj Hnd]. destruct (is_dir_at entries j) eqn:Ej.
  - apply IH in E as (H1 & H2 & H3 & H4); [|done]. rewrite length_insert in H1, H4. split_and!; [done|lia|lia| |].
    + intros i Hi. apply not_elem_of_cons in Hi as [Hij Hil]. rewrite H3 by done. by rewrite list_lookup_insert_ne.
    + intros i Hi Hlt Hd. apply elem_of_cons in Hi as [->|Hi]; [|specialize (H4 i Hi Hlt Hd); lia].
      rewrite list_lookup_total_alt, H3, list_lookup_insert_eq by done. cbn. lia.
  - apply IH in E as (H1 & H2 & H3 & H4); [|done]. split_and!; [done|lia|lia| |].
    + intros i Hi. apply not_elem_of_cons in Hi as [_ Hil]. by apply H3.
    + intros i Hi Hlt Hd. apply elem_of_cons in Hi as [->|Hi]; [congruence|by apply H4].
Qed.

(** ** The grouping, round by round *)

Section tree.
  Context (entries : list FileEntry) (Hnames : NoDup (map name entries)).

Definition emitted (ts : tree_state) : list nat := concat (map entry_indices (ts_groups ts)).

(** [done]: the directories whose group is out; [queue]: those to come. *)
Record tree_inv (done : list (list Z)) (queue : list (nat * list Z)) (ts : tree_state) : Prop := {
  ti_nodup : NoDup (emitted ts);
  ti_emitted : forall i, i ∈ emitted ts <-> exists e, entries !! i = Some e /\
    (FileEntry.dirname e = None \/ exists d, d ∈ done /\ FileEntry.dirname e = Some d);
  ti_dirs_nodup : NoDup (done ++ map snd queue);
  ti_dirs : forall d, d ∈ done ++ map snd queue <-> exists i e, entries !! i = Some e /\ i ∈ emitted ts /\
    FileEntry.is_dir e = true /\ name e = d /\ name e <> dot_name;
  ti_numbers : length (ts_numbers ts) = length entries /\ 0 <= ts_counter ts <= Z.of_nat (length (emitted ts)) /\
    forall p, p ∈ queue -> is_dir_at entries p.1 = true /\ name_at entries p.1 = p.2 /\ p.1 ∈ emitted ts /\
      0 <= ts_numbers ts !!! p.1 < ts_counter ts;
  ti_groups : Forall (fun g => exists f, entry_indices g = indices_where f entries) (ts_groups ts) /\
    Forall (fun g => 0 <= dg_dir_ndx g < ts_counter ts) (drop 1 (ts_groups ts)) /\ length (ts_groups ts) = S (length done);
}.

Lemma name_at_lookup i e : entries !! i = Some e -> name_at entries i = name e.
Proof. unfold name_at. by intros ->. Qed.
Lemma is_dir_lookup i e : entries !! i = Some e -> is_dir_at entries i = FileEntry.is_dir e.
Proof. unfold is_dir_at. by intros ->. Qed.

Lemma children_of (d : list Z) i :
  i ∈ indices_where (fun e => bool_decide (FileEntry.dirname e = Some d)) entries <->
  exists e, entries !! i = Some e /\ FileEntry.dirname e = Some d.
Proof. rewrite elem_of_indices. setoid_rewrite bool_decide_eq_true. done. Qed.

(** A name with a directory part is not [.]. *)
Lemma child_not_dot e d : FileEntry.dirname e = Some d -> name e <> dot_name.
Proof. intros H E. unfold FileEntry.dirname in H. by rewrite E in H. Qed.

Lemma queue_names_NoDup l : NoDup l -> NoDup (map snd (queue_dirs entries l)).
Proof.
  intros Hl. unfold queue_dirs. rewrite map_map. cbn [snd].
  assert (Hlt : forall i, i ∈ List.filter (is_dir_at entries) l -> exists e, entries !! i = Some e).
  { intros i [_ Hd]%elem_of_filter_b. unfold is_dir_at in Hd. destruct (entries !! i); [eauto|done]. }
  assert (Hnd : NoDup (List.filter (is_dir_at entries) l)) by (by apply NoDup_ListNoDup, List.NoDup_filter, NoDup_ListNoDup).
  induction Hnd as [|i l' Hi Hnd IH]; cbn [map]; [constructor|].
  constructor; [|apply IH; intros; apply Hlt, elem_of_cons; by right].
  rewrite list_elem_of_fmap. intros (j & Hj & Hjl). destruct (Hlt i) as [e He]; [apply elem_of_cons; by left|].
  destruct (Hlt j) as [e' He']; [apply elem_of_cons; by right|].
  rewrite (name_at_lookup _ _ He), (name_at_lookup _ _ He') in Hj.
  by rewrite (name_inj entries i j e e' Hnames He He' Hj) in Hi.
Qed.

Lemma elem_of_snoc {A} (x y : A) l : x ∈ l ++ [y] <-> x ∈ l \/ x = y.
Proof. by rewrite elem_of_app, list_elem_of_singleton. Qed.

Section round.
  Context (done : list (list Z)) (queue : list (nat * list Z)) (i : nat) (d : list Z) (ts : tree_state).
  Context (I : tree_inv done ((i, d) :: queue) ts).

#[local] Definition kids : list nat :=
  indices_where (fun e => bool_decide (FileEntry.dirname e = Some d)) entries.

Lemma kids_spec j : j ∈ kids <-> exists e, entries !! j = Some e /\ FileEntry.dirname e = Some d.
Proof. apply children_of. Qed.

Lemma dir_not_done : d ∉ done.
Proof.
  intros Hd. pose proof (ti_dirs_nodup _ _ _ I) as H. cbn [map snd] in H. apply NoDup_app in H as (_ & H & _).
  apply (H d Hd), elem_of_cons. by left.
Qed.

Lemma kids_new j : j ∈ emitted ts -> j ∉ kids.
Proof.
  intros Hj Hk. apply (ti_emitted _ _ _ I) in Hj as (e & He & Hdir). apply kids_spec in Hk as (e' & He' & Hd). simplify_eq.
  destruct Hdir as [Hd'|(d' & Hd' & Hdir)]; [congruence|]. apply dir_not_done. congruence.
Qed.

Lemma new_dirs d' : d' ∈ map snd (queue_dirs entries kids) <->
  exists j e, entries !! j = Some e /\ j ∈ kids /\ FileEntry.is_dir e = true /\ name e = d'.
Proof.
  rewrite list_elem_of_fmap. split.
  - intros ([j n] & -> & H). apply elem_of_queue_dirs in H as (Hj & Hdj & ->). pose proof Hj as (e & He & _)%kids_spec.
    rewrite (is_dir_lookup _ _ He) in Hdj. exists j, e. cbn. by rewrite (name_at_lookup _ _ He).
  - intros (j & e & He & Hj & Hd & <-). exists (j, name e). split; [reflexivity|]. apply elem_of_queue_dirs.
    by rewrite (is_dir_lookup _ _ He), (name_at_lookup _ _ He).
Qed.

Lemma round_emitted j : j ∈ emitted ts ++ kids <-> exists e, entries !! j = Some e /\
  (FileEntry.dirname e = None \/ exists d', d' ∈ done ++ [d] /\ FileEntry.dirname e = Some d').
Proof.
  rewrite elem_of_app, (ti_emitted _ _ _ I), kids_spec. setoid_rewrite elem_of_snoc. split.
  - intros [(e & He & [H|(d' & Hd' & H)])|(e & He & H)]; exists e; (split; [done|]); eauto.
  - intros (e & He & [H|(d' & [Hd'| ->] & H)]); [left; exists e; by auto| |right; by exists e].
    left. exists e. split; [done|]. right. by exists d'.
Qed.

Lemma round_dirs_nodup : NoDup ((done ++ [d]) ++ map snd (queue ++ queue_dirs entries kids)).
Proof.
  rewrite map_app. assert (Hp : (done ++ [d]) ++ map snd queue ++ map snd (queue_dirs entries kids) =
    (done ++ map snd ((i, d) :: queue)) ++ map snd (queue_dirs entries kids)) by (cbn; by rewrite <- !app_assoc).
  rewrite Hp. apply NoDup_app. split; [apply (ti_dirs_nodup _ _ _ I)|].
  split; [|by apply queue_names_NoDup, indices_NoDup].
  intros d' Hd' Hnew. apply (ti_dirs _ _ _ I) in Hd' as (j & e & He & Hj & _ & Hn & _).
  apply new_dirs in Hnew as (j' & e' & He' & Hj' & _ & Hn'). assert (j = j') as <-.
  { apply (name_inj entries j j' e e'); congruence. }
  by apply (kids_new j).
Qed.

Lemma round_dirs d' : d' ∈ (done ++ [d]) ++ map snd (queue ++ queue_dirs entries kids) <->
  exists j e, entries !! j = Some e /\ j ∈ emitted ts ++ kids /\ FileEntry.is_dir e = true /\ name e = d' /\ name e <> dot_name.
Proof.
  rewrite map_app, app_assoc, elem_of_app, <- app_assoc. change ([d] ++ map snd queue) with (map snd ((i, d) :: queue)).
  rewrite (ti_dirs _ _ _ I), new_dirs. split.
  - intros [(j & e & He & Hj & Hd & Hn & Hdot)|(j & e & He & Hj & Hd & Hn)]; exists j, e; rewrite elem_of_app; [by auto 7|].
    apply kids_spec in Hj as Hj2. destruct Hj2 as (e2 & He2 & Hdir). simplify_eq. split_and!; auto. by eapply child_not_dot.
  - intros (j & e & He & Hj & Hd & Hn & Hdot). apply elem_of_app in Hj as [Hj|Hj]; [left|right]; exists j, e; by auto.
Qed.

Lemma tree_round_inv children ts' :
  tree_round entries (i, d) ts = (children, ts') -> tree_inv (done ++ [d]) (queue ++ children) ts'.
Proof.
  intros E. unfold tree_round in E. fold kids in E. destruct (number_dirs _ _ _ _) as [numbers counter] eqn:En.
  injection E as <- <-. pose proof I as [I1 _ _ _ (I5 & I6 & I7) (I8 & I9 & I10)].
  apply number_dirs_spec in En as (N1 & N2 & N3 & N4); [|apply indices_NoDup].
  assert (Hem : emitted (mkTreeState (ts_groups ts ++ [mkDirGroup (ts_numbers ts !!! i) kids]) numbers counter) = emitted ts ++ kids).
  { unfold emitted. cbn [ts_groups]. rewrite map_app, concat_app. cbn. by rewrite app_nil_r. }
  constructor; rewrite ?Hem; cbn [ts_groups ts_numbers ts_counter].
  - apply NoDup_app. split; [done|]. split; [apply kids_new|apply indices_NoDup].
  - apply round_emitted.
  - apply round_dirs_nodup.
  - apply round_dirs.
  - split; [by rewrite N1|]. rewrite length_app. split; [lia|]. intros [j n] Hj. cbn [fst snd].
    apply elem_of_app in Hj as [Hj|Hj].
    + destruct (I7 (j, n)) as (H1 & H2 & H3 & H4); [apply elem_of_cons; by right|]. cbn [fst snd] in *.
      split; [done|]. split; [done|]. split; [apply elem_of_app; by left|]. rewrite list_lookup_total_alt, N3 by (by apply kids_new).
      rewrite <- list_lookup_total_alt. lia.
    + apply elem_of_queue_dirs in Hj as (Hj & Hd & ->). split; [done|]. split; [done|]. split; [apply elem_of_app; by right|].
      apply kids_spec in Hj as Hj2. destruct Hj2 as (e & He & _). apply lookup_lt_Some in He.
      specialize (N4 j Hj ltac:(lia) Hd). lia.
  - split_and!.
    + apply Forall_app. split; [done|]. constructor; [|constructor]. by eexists.
    + rewrite drop_app_le by lia. apply Forall_app. split.
      * eapply Forall_impl; [exact I9|]. intros g. cbv beta. lia.
      * constructor; [|constructor]. destruct (I7 (i, d)) as (_ & _ & _ & H); [apply elem_of_cons; by left|]. cbn in *. lia.
    + rewrite !length_app. cbn. lia.
Qed.
End round.

(** ** Whole levels *)

Lemma tree_level_inv done cur next ts q ts' :
  tree_inv done (cur ++ next) ts -> tree_level entries cur next ts = (q, ts') ->
  exists done', tree_inv done' q ts'.
Proof.
  revert done next ts. induction cur as [|[i d] cur IH]; intros done next ts Hi E; cbn [tree_level] in E.
  - injection E as <- <-. by exists done.
  - destruct (tree_round entries (i, d) ts) as [children ts1] eqn:Er. cbn [app] in Hi.
    apply tree_round_inv with (queue := cur ++ next) (done := done) in Er; [|done].
    rewrite <- app_assoc in Er. by apply (IH _ _ _ Er).
Qed.

Lemma tree_loop_inv fuel done cur ts ts' :
  tree_inv done cur ts -> tree_loop entries fuel cur ts = Some ts' -> exists done', tree_inv done' [] ts'.
Proof.
  revert done cur ts. induction fuel as [|fuel IH]; intros done cur ts Hi E; cbn [tree_loop] in E.
  - destruct cur; [|done]. injection E as <-. by exists done.
  - destruct cur as [|x cur]; [injection E as <-; by exists done|].
    destruct (tree_level entries (x :: cur) [] ts) as [next ts1] eqn:El.
    apply tree_level_inv with (done := done) in El as [done' Hi']; [|by rewrite app_nil_r]. by apply (IH _ _ _ Hi' E).
Qed.
End tree.

(** The next level is one byte longer, at least. *)
Lemma tree_level_longer entries n cur next ts q ts' :
  (forall p, p ∈ cur -> (n <= length p.2)%nat) -> (forall p, p ∈ next -> (n < length p.2)%nat /\ (length p.2 <= max_name_length entries)%nat) ->
  tree_level entries cur next ts = (q, ts') ->
  forall p, p ∈ q -> (n < length p.2)%nat /\ (length p.2 <= max_name_length entries)%nat.
Proof.
  revert next ts. induction cur as [|[i d] cur IH]; intros next ts Hc Hn E; cbn [tree_level] in E.
  - by injection E as <- <-.
  - destruct (tree_round entries (i, d) ts) as [children ts1] eqn:Er.
    apply (IH (next ++ children) ts1); [intros p Hp; apply Hc, elem_of_cons; by right| |done].
    intros p Hp. apply elem_of_app in Hp as [Hp|Hp]; [by apply Hn|].
    unfold tree_round in Er. destruct (number_dirs _ _ _ _). injection Er as <- _. destruct p as [j m].
    apply elem_of_queue_dirs in Hp as (Hj & _ & ->). apply children_of in Hj as (e & He & Hd). cbn [snd].
    rewrite (name_at_lookup _ _ _ He). pose proof (max_name_bound _ _ _ He). apply dirname_shorter in Hd.
    specialize (Hc (i, d) (proj2 (elem_of_cons _ _ _) (or_introl eq_refl))). cbn in Hc. lia.
Qed.

Lemma tree_terminates entries fuel n cur ts :
  (forall p, p ∈ cur -> (n <= length p.2 <= max_name_length entries)%nat) -> (max_name_length entries < n + fuel)%nat ->
  is_Some (tree_loop entries fuel cur ts).
Proof.
  revert n cur ts. induction fuel as [|fuel IH]; intros n cur ts Hc Hf.
  - destruct cur as [|p cur]; [by eexists|]. specialize (Hc p (proj2 (elem_of_cons _ _ _) (or_introl eq_refl))). lia.
  - cbn [tree_loop]. destruct cur as [|x cur]; [by eexists|].
    destruct (tree_level entries (x :: cur) [] ts) as [next ts1] eqn:El. apply (IH (S n)); [|lia].
    intros p Hp. pose proof (tree_level_longer entries n (x :: cur) [] ts next ts1 (fun q Hq => proj1 (Hc q Hq))
      (fun q Hq => False_rect _ (not_elem_of_nil q Hq)) El p Hp). lia.
Qed.

(** ** The whole tree *)

Definition group_order (tree : DirectoryTree) : list nat := concat (map entry_indices tree).

(** Every directory part is a directory of the list. *)
Definition closed (entries : list FileEntry) : Prop :=
  forall e d, e ∈ entries -> FileEntry.dirname e = Some d -> d <> dot_name /\
  exists e', e' ∈ entries /\ FileEntry.is_dir e' = true /\ name e' = d.

Definition start_state (entries : list FileEntry) : tree_state :=
  let root := indices_where (fun e => bool_decide (FileEntry.dirname e = None)) entries in
  let '(numbers, counter) := number_dirs entries root (replicate (length entries) (-1)) 0 in
  mkTreeState [mkDirGroup (-1) root] numbers counter.
Definition start_queue (entries : list FileEntry) : list (nat * list Z) :=
  List.filter (fun p => negb (bool_decide (p.2 = dot_name)))
    (queue_dirs entries (indices_where (fun e => bool_decide (FileEntry.dirname e = None)) entries)).

Lemma start_queue_spec entries i n : (i, n) ∈ start_queue entries <->
  exists e, entries !! i = Some e /\ FileEntry.dirname e = None /\ FileEntry.is_dir e = true /\ n = name e /\ n <> dot_name.
Proof.
  unfold start_queue. rewrite elem_of_filter_b, elem_of_queue_dirs, elem_of_indices. cbn [snd].
  rewrite negb_true_iff, bool_decide_eq_false. setoid_rewrite bool_decide_eq_true. split.
  - intros [((e & He & Hd) & Hdir & ->) Hn]. rewrite (is_dir_lookup _ _ _ He) in Hdir. rewrite (name_at_lookup _ _ _ He) in *.
    by exists e.
  - intros (e & He & Hd & Hdir & -> & Hn). rewrite (is_dir_lookup _ _ _ He), (name_at_lookup _ _ _ He). eauto 10.
Qed.

Lemma NoDup_map_filter {A B} (g : A -> B) (f : A -> bool) l : NoDup (map g l) -> NoDup (map g (List.filter f l)).
Proof.
  induction l as [|x l IH]; cbn; [done|]. intros [Hx Hl]%NoDup_cons. destruct (f x); [|by apply IH].
  cbn. constructor; [|by apply IH]. contradict Hx. rewrite list_elem_of_fmap in Hx |- *. destruct Hx as (y & -> & Hy).
  exists y. split; [done|]. by apply elem_of_filter_b in Hy as [? _].
Qed.

Lemma start_inv entries : NoDup (map name entries) -> tree_inv entries [] (start_queue entries) (start_state entries).
Proof.
  intros Hn. unfold start_state. set (root := indices_where _ entries).
  assert (Hroot : forall i, i ∈ root <-> exists e, entries !! i = Some e /\ FileEntry.dirname e = None).
  { intros i. unfold root. rewrite elem_of_indices. by setoid_rewrite bool_decide_eq_true. }
  destruct (number_dirs _ _ _ _) as [numbers counter] eqn:En.
  apply number_dirs_spec in En as (N1 & N2 & N3 & N4); [|apply indices_NoDup]. rewrite length_replicate in N1, N4.
  assert (Hem : emitted (mkTreeState [mkDirGroup (-1) root] numbers counter) = root) by (unfold emitted; cbn; by rewrite app_nil_r).
  constructor; rewrite ?Hem; cbn [ts_groups ts_numbers ts_counter app].
  - apply indices_NoDup.
  - intros i. rewrite Hroot. split; intros (e & He & H); exists e; (split; [done|]); [by left|].
    destruct H as [|(d & Hd & _)]; [done|]. by apply not_elem_of_nil in Hd.
  - apply NoDup_map_filter, queue_names_NoDup; [done|apply indices_NoDup].
  - intros d. rewrite list_elem_of_fmap. split.
    + intros ([i n] & -> & (e & He & Hd & Hdir & -> & Hdot)%start_queue_spec). exists i, e. cbn. split_and!; try done.
      apply Hroot. eauto.
    + intros (i & e & He & Hi & Hdir & <- & Hdot). exists (i, name e). split; [done|]. apply start_queue_spec.
      apply Hroot in Hi as (e' & He' & Hd). simplify_eq. by exists e.
  - split; [done|]. split; [lia|]. intros [i n] (e & He & Hd & Hdir & -> & Hdot)%start_queue_spec. cbn [fst snd].
    assert (Hi : i ∈ root) by (apply Hroot; eauto). rewrite (is_dir_lookup _ _ _ He), (name_at_lookup _ _ _ He).
    split_and!; try done; apply N4; try done; (by apply lookup_lt_Some in He) || (by rewrite (is_dir_lookup _ _ _ He)).
  - split; [|by split]. constructor; [by eexists|constructor].
Qed.

Record tree_ok (entries : list FileEntry) (tree : DirectoryTree) : Prop := {
  to_root : tree <> [];
  to_groups : Forall (fun g => exists f, entry_indices g = indices_where f entries) tree;
  to_dirs : Forall (fun g => 0 <= dg_dir_ndx g < Z.of_nat (length entries)) (drop 1 tree);
  to_count : (length tree <= S (length entries))%nat;
  to_nodup : NoDup (group_order tree);
  to_bound : forall i, i ∈ group_order tree -> (i < length entries)%nat;
  to_complete : closed entries -> group_order tree ≡ₚ seq 0 (length entries);
}.

Lemma NoDup_bounded (l : list nat) n : NoDup l -> (forall i, i ∈ l -> (i < n)%nat) -> (length l <= n)%nat.
Proof.
  intros Hl Hb. rewrite <- (length_seq n 0). apply submseteq_length, NoDup_submseteq; [done|].
  intros i Hi. apply elem_of_seq. specialize (Hb i Hi). lia.
Qed.

Lemma tree_complete entries done ts : tree_inv entries done [] ts -> closed entries ->
  forall i e, entries !! i = Some e -> i ∈ emitted ts.
Proof.
  intros I Hc. assert (H : forall n i e, (length (name e) < n)%nat -> entries !! i = Some e -> i ∈ emitted ts);
    [|intros i e; by apply (H (S (length (name e)))); lia].
  induction n as [|n IH]; intros i e Hn He; [lia|]. apply (ti_emitted _ _ _ _ I). exists e. split; [done|].
  destruct (FileEntry.dirname e) as [d|] eqn:Ed; [right|by left]. exists d. split; [|done].
  destruct (Hc e d) as (Hdot & e' & He' & Hdir & <-); [by eapply list_elem_of_lookup_2|done|].
  apply list_elem_of_lookup in He' as [j Hj]. apply dirname_shorter in Ed.
  rewrite <- (app_nil_r done). apply (ti_dirs _ _ _ _ I). exists j, e'. split_and!; try done. apply (IH j e'); [lia|done].
Qed.

Lemma from_sorted_entries_ok entries : NoDup (map name entries) -> tree_ok entries (from_sorted_entries entries).
Proof.
  intros Hn. destruct entries as [|x l] eqn:Ee.
  { split.
    - done.
    - constructor; [|constructor]. by exists (fun _ => true).
    - constructor.
    - cbn. lia.
    - constructor.
    - intros i Hi. by apply not_elem_of_nil in Hi.
    - done. }
  rewrite <- Ee in *. assert (Hf : from_sorted_entries entries = match tree_loop entries (S (max_name_length entries))
      (start_queue entries) (start_state entries) with Some ts => ts_groups ts | None => ts_groups (start_state entries) end).
  { rewrite Ee. unfold start_state, start_queue, from_sorted_entries. by destruct (number_dirs _ _ _ _). }
  rewrite Hf. destruct (tree_terminates entries (S (max_name_length entries)) 0 (start_queue entries) (start_state entries))
    as [ts Hts]; [|lia|].
  { intros [i n] (e & He & _ & _ & -> & _)%start_queue_spec. cbn. apply max_name_bound in He. lia. }
  rewrite Hts. apply (tree_loop_inv entries Hn _ [] _ _ _ (start_inv entries Hn)) in Hts as [done I].
  pose proof I as [I1 I2 _ _ (_ & I6 & _) (I8 & I9 & I10)]. fold (group_order (ts_groups ts)) in *.
  assert (Hb : forall i, i ∈ emitted ts -> (i < length entries)%nat).
  { intros i Hi. apply I2 in Hi as (e & He & _). by apply lookup_lt_Some in He. }
  pose proof (NoDup_bounded _ _ I1 Hb) as Hlen. split; try done.
  - by destruct (ts_groups ts).
  - eapply Forall_impl; [exact I9|]. intros g. cbv beta. lia.
  - rewrite I10. apply le_n_S. rewrite <- (length_map name entries). apply submseteq_length, NoDup_submseteq.
    + pose proof (ti_dirs_nodup _ _ _ _ I) as H. by rewrite app_nil_r in H.
    + intros d Hd. assert (Hd' : d ∈ done ++ map snd ([] : list (nat * list Z))) by (by rewrite app_nil_r).
      apply (ti_dirs _ _ _ _ I) in Hd' as (i & e & He & _ & _ & <- & _). apply list_elem_of_fmap. exists e.
      split; [done|]. by eapply list_elem_of_lookup_2.
  - intros Hc. apply NoDup_Permutation; [done|apply NoDup_seq|]. intros i. rewrite elem_of_seq. split.
    + intros Hi. specialize (Hb i Hi). lia.
    + intros Hi. destruct (lookup_lt_is_Some_2 entries i) as [e He]; [lia|]. by eapply tree_complete.
Qed.

(** ** One sub-list, sent and received *)

(** Sub-lists carry neither links nor attributes across: their receiver starts
    afresh, the sender does not. *)
Definition plain (opts : FileListOptions) : Prop :=
  preserve_hard_links opts = false /\ preserve_acls opts = false /\ preserve_xattrs opts = false.

Lemma plain_links opts : plain opts -> links_carried opts.
Proof. by intros [H _] _. Qed.

Lemma received_plain opts seen l : plain opts -> received_list opts seen l = map (received opts) l.
Proof.
  intros [Hh _]. revert seen. induction l as [|e l IH]; intros seen; cbn [received_list map]; [done|].
  unfold receive_step, link_key. rewrite Hh. destruct (FileEntry.hard_link_info e); by rewrite IH.
Qed.

(** What the two sides agree on between sub-lists. *)
Record sub_sync (opts : FileListOptions) (all : list FileEntry) (s : IncrementalSender) (es : EncoderState)
    (r : IncrementalReceiver) (delta : DeltaState) : Prop := {
  ss_next : ir_next_ndx r = is_next_ndx s;
  ss_state : ir_ndx_state r = is_ndx_state s /\ ndx_state_ok (is_ndx_state s);
  ss_delta : in_sync opts (es_delta es) delta;
  ss_from : follows_from all (es_delta es);
  ss_plain : es_hlink es = ∅ /\ es_attrs es = (AclEncoder_new, []);
}.

Lemma sub_sync_start opts all : sub_sync opts all (mkIncrementalSender NdxState_default 1) EncoderState_new
  (IncrementalReceiver_new true) DeltaState_default.
Proof.
  constructor; try done; [|by left].
  unfold in_sync. cbn. by destruct (preserve_uid opts), (preserve_gid opts), (has_inline_names _).
Qed.

Lemma sub_mirrors opts all entries s es r delta dir :
  session opts -> plain opts -> list_ok opts all -> (forall e, e ∈ entries -> e ∈ all) ->
  sub_sync opts all s es r delta -> 0 <= is_next_ndx s -> is_next_ndx s + Z.of_nat (length entries) < 2 ^ 31 - 1 ->
  mirrors (send_sub_entries s entries opts es) (recv_sub_flist_with_state r dir opts delta)
    (fun p q => map without_flags (sub_entries q.1.1) = map (received opts) entries /\
       sub_ndx_start q.1.1 = is_next_ndx s /\ is_next_ndx p.1 = is_next_ndx s + Z.of_nat (length entries) + 1 /\
       sub_sync opts all p.1 p.2 q.1.2 q.2).
Proof.
  intros Hs Hp Hall Hin [Hnext [Hst Hst2] Hdelta Hfrom [Hh Hat]] H0 Hlen.
  unfold send_sub_entries, recv_sub_flist_with_state. rewrite Hnext.
  set (es0 := mkEncoderState _ _ _). set (ds0 := mkDecoderState _ _ _).
  eapply mirrors_bind.
  { apply mirrors_yields; [apply (run_mirrors opts Hs (plain_links _ Hp) all Hall (is_next_ndx s) H0 0 entries es0 ds0)|];
      try done; try lia.
    - cbn. rewrite Hat. apply attrs_start.
    - apply send_entries_attrs; apply Hp. }
  intros es' [[l ds] io] [(Hl & -> & Hd & Hf & _ & Hno) Ha]. apply mirrors_ret. cbn [fst snd sub_entries sub_ndx_start is_next_ndx].
  rewrite (received_plain _ _ _ Hp) in Hl. assert (Hll : length l = length entries).
  { apply (f_equal length) in Hl. by rewrite !length_map in Hl. }
  rewrite Hll, (swrap_id 32) by lia. split; [done|]. split; [done|]. split; [done|].
  constructor; cbn; try done. split; [by apply Hno, Hp|]. by rewrite Ha.
Qed.

(** The marker that announces the next sub-list, or the end. *)
Lemma marker_mirrors opts all s es r delta ndx :
  sub_sync opts all s es r delta -> - 2 ^ 31 < ndx < 2 ^ 31 ->
  mirrors (write_marker ndx s (int_codec (wire opts))) (read_ndx_marker r (int_codec (wire opts)))
    (fun s' q => q.1 = ndx /\ is_next_ndx s' = is_next_ndx s /\ sub_sync opts all s' es q.2 delta).
Proof.
  intros [Hnext [Hst Hst2] Hdelta Hfrom Hp] Hn. unfold write_marker, read_ndx_marker. rewrite Hst.
  eapply mirrors_bind; [by apply write_ndx_mirrors|]. intros st1 [v st2] (-> & <- & Hok). apply mirrors_ret. cbn [fst snd].
  split; [done|]. split; [done|]. constructor; done.
Qed.

(** ** Sending in instalments *)

Lemma send_groups_add a b p : send_groups (a + b) p = (p' ← send_groups a p; send_groups b p').
Proof.
  revert p. induction a as [|a IH]; intros p; cbn [Nat.add send_groups]; [symmetry; by apply wr_ret_bind|].
  destruct (pg_groups p !! pg_cursor p) as [g|] eqn:E.
  - rewrite wr_bind_assoc. apply wr_bind_ext. intros s bs _. rewrite wr_bind_assoc. apply wr_bind_ext. intros q bs' _.
    apply IH.
  - rewrite wr_ret_bind_eq. destruct b; cbn [send_groups]; [done|]. by rewrite E.
Qed.

Lemma send_groups_cursor a p : yields (send_groups a p) (fun p' =>
  pg_groups p' = pg_groups p /\ pg_opts p' = pg_opts p /\ eof_sent p' = eof_sent p /\
  pg_cursor p' = Nat.min (pg_cursor p + a) (Nat.max (pg_cursor p) (length (pg_groups p)))).
Proof.
  revert p. induction a as [|a IH]; intros p; cbn [send_groups]; [apply yields_ret; cbv beta; split_and!; (done || lia)|].
  destruct (pg_groups p !! pg_cursor p) as [g|] eqn:E.
  - apply lookup_lt_Some in E. eapply yields_bind; [apply yields_any|]. intros s _.
    eapply yields_bind; [apply yields_any|]. intros q _. intros p' bs H. apply IH in H.
    cbn [pg_groups pg_opts eof_sent pg_cursor] in H.
    destruct H as (-> & -> & -> & ->). split_and!; try done. lia.
  - apply lookup_ge_None in E. apply yields_ret. cbv beta. split_and!; try done. lia.
Qed.

Definition finish (p : PendingSubFlists) : wr PendingSubFlists :=
  s ← write_flist_eof (pg_sender p) (int_codec (wire (pg_opts p)));
  mret (mkPendingSubFlists (pg_groups p) (pg_cursor p) (pg_entries p) (pg_encoder p) s (pg_opts p) true).

(** The sender loop's calls, with whatever counts. *)
Fixpoint drain (counts : list nat) (p : PendingSubFlists) : wr PendingSubFlists :=
  match counts with
  | [] => mret p
  | c :: counts' => p' ← send_pending c p; drain counts' p'
  end.

Lemma drain_done counts p : eof_sent p = true -> drain counts p = mret p.
Proof.
  intros He. induction counts as [|c l IH]; [done|]. cbn [drain]. unfold send_pending. rewrite He.
  by apply wr_ret_bind.
Qed.

(** However the calls are cut, the bytes are those of one call. *)
Lemma drain_all counts p : eof_sent p = false -> (0 < remaining p <= sum_list counts)%nat ->
  drain counts p = (p' ← send_groups (remaining p) p; finish p').
Proof.
  unfold remaining. revert p. induction counts as [|c l IH]; intros p He Hr; simpl in Hr; [lia|]. cbn [drain].
  unfold send_pending. rewrite He. pose proof (send_groups_cursor c p) as Hc.
  destruct (decide (c < length (pg_groups p) - pg_cursor p)%nat) as [Hlt|Hge].
  - replace (length (pg_groups p) - pg_cursor p)%nat with (c + (length (pg_groups p) - pg_cursor p - c))%nat by lia.
    rewrite send_groups_add, !wr_bind_assoc. apply wr_bind_ext. intros p' bs E.
    specialize (Hc _ _ E) as (H1 & H2 & H3 & H4).
    destruct (Nat.leb_spec (length (pg_groups p')) (pg_cursor p')) as [Hle|Hle]; rewrite H1 in Hle; [lia|]. cbn [andb].
    rewrite wr_ret_bind_eq. rewrite IH; [|by rewrite H3|rewrite H1; lia]. rewrite H1.
    by replace (length (pg_groups p) - pg_cursor p')%nat with (length (pg_groups p) - pg_cursor p - c)%nat by lia.
  - set (a := (length (pg_groups p) - pg_cursor p)%nat) in *. replace c with (a + (c - a))%nat by lia.
    rewrite send_groups_add, !wr_bind_assoc. apply wr_bind_ext. intros p' bs E.
    specialize (send_groups_cursor a p _ _ E) as (H1 & H2 & H3 & H4).
    assert (Hend : send_groups (c - a) p' = mret p').
    { destruct (c - a)%nat; cbn [send_groups]; [done|]. by rewrite H1, lookup_ge_None_2 by lia. }
    rewrite Hend, wr_ret_bind_eq. destruct (Nat.leb_spec (length (pg_groups p')) (pg_cursor p')) as [Hle|Hle]; rewrite H1 in Hle; [|lia].
    rewrite H3, He. cbn [andb negb]. unfold finish. rewrite wr_bind_assoc. apply wr_bind_ext. intros s bs' _.
    rewrite wr_ret_bind_eq. by rewrite drain_done.
Qed.
