(* ===== verification/Exchange.v ===== *)
(** Sending and receiving whole file lists ([ferrosync-codec/src/exchange.rs]):
    batch and incremental mode, and the lists of id names.  The channel of the
    streaming receivers is modelled by the entries it is given. *)
From Stdlib Require Import Sorted.
From S2P Require Import Prelude Wire Types Varint WireFormat Handshake Checksum Acl Sort Flist EntryList Incremental.

(** ** Batch mode *)

Definition send_file_list_batch (entries : list FileEntry) (opts : FileListOptions) : wr unit :=
  _ ← (st ← send_entries opts 0 entries EncoderState_new; _ ← encode_end_of_flist 0 opts; mret st);
  if trailing_io_error (wire opts) then write_int 0 else mret tt.

Definition recv_file_list_batch (opts : FileListOptions) : rd (list FileEntry) :=
  q ← recv_entries opts DecoderState_new;
  _ ← (if trailing_io_error (wire opts) then _ ← read_int; mret tt else mret tt);
  mret (q.1.1).

(** ** Names of ids *)

(** [BTreeMap<u32, &[u8]>], in key order; a key that is there is kept. *)
Fixpoint btree_add (k : Z) (v : list Z) (m : list (Z * list Z)) : list (Z * list Z) :=
  match m with
  | [] => [(k, v)]
  | (k', v') :: m' =>
      if k <? k' then (k, v) :: m
      else if k =? k' then m
      else (k', v') :: btree_add k v m'
  end.
Fixpoint btree_get (k : Z) (m : list (Z * list Z)) : option (list Z) :=
  match m with
  | [] => None
  | (k', v) :: m' => if k =? k' then Some v else btree_get k m'
  end.

Definition id_names (id_of : FileEntry -> Z) (name_of : FileEntry -> list Z) (entries : list FileEntry)
    : list (Z * list Z) :=
  foldl (fun m e => match name_of e with [] => m | _ => btree_add (id_of e) (name_of e) m end) [] entries.

Definition root_name : list Z := [114; 111; 111; 116].

Definition write_id_name (name : list Z) : wr unit :=
  let name_len := as_u8 (Z.min (Z.of_nat (length name)) 255) in
  _ ← write_byte name_len;
  write_all (take (Z.to_nat name_len) name).

(** The uid half and the gid half have the same body. *)
Definition send_one_list (names : list (Z * list Z)) (opts : FileListOptions) : wr unit :=
  let codec := int_codec (wire opts) in
  _ ← wr_each (fun p => if p.1 =? 0 then mret tt else _ ← write_varint30 p.1 codec; write_id_name p.2) names;
  if xmit_id0_names opts then
    _ ← write_varint30 0 codec;
    write_id_name (match btree_get 0 names with Some n => n | None => root_name end)
  else write_varint30 0 codec.

Definition send_id_list (entries : list FileEntry) (opts : FileListOptions) : wr unit :=
  _ ← (if preserve_uid opts then send_one_list (id_names uid user_name entries) opts else mret tt);
  if preserve_gid opts then send_one_list (id_names gid group_name entries) opts else mret tt.

Definition read_id_name : rd unit :=
  name_len ← read_byte; _ ← read_exact name_len; mret tt.
Definition recv_id_round (opts : FileListOptions) (s : unit) : rd (unit + unit) :=
  id ← read_varint30 (int_codec (wire opts));
  if id =? 0 then mret (inr tt) else _ ← read_id_name; mret (inl tt).
Definition recv_one_list (opts : FileListOptions) : rd unit :=
  _ ← rd_while (recv_id_round opts) tt;
  if xmit_id0_names opts then read_id_name else mret tt.
Definition recv_id_list (opts : FileListOptions) : rd unit :=
  _ ← (if preserve_uid opts then recv_one_list opts else mret tt);
  if preserve_gid opts then recv_one_list opts else mret tt.

(** ** Incremental mode *)

(** The indices of all entries, group after group. *)
Fixpoint assign_ndx (cursor : Z) (groups : list DirGroup) (assignments : list Z) : list Z :=
  match groups with
  | [] => assignments
  | g :: gs =>
      assign_ndx (cursor + Z.of_nat (length (entry_indices g)) + 1) gs
        (foldl (fun a p => <[p.2 := cursor + Z.of_nat p.1]> a) assignments (imap pair (entry_indices g)))
  end.

Definition send_file_list_incremental (entries : list FileEntry) (opts : FileListOptions)
    : wr (list Z * option PendingSubFlists) :=
  let tree := from_sorted_entries entries in
  let ndx_assignments := assign_ndx 1 tree (replicate (length entries) 0) in
  q ← encode_sub_flist_entries (mkIncrementalSender NdxState_default 1) entries
        (entry_indices (tree_root tree)) opts EncoderState_new;
  if negb (has_subdirs tree) then
    _ ← write_flist_eof q.1 (int_codec (wire opts)); mret (ndx_assignments, None)
  else mret (ndx_assignments, Some (PendingSubFlists_new (into_pending_groups tree) entries q.2 q.1 opts)).

Definition unexpected_ndx (ndx : Z) : ProtocolError :=
  Wire.Handshake ("unexpected NDX value " +:+ pretty ndx +:+ " during file list reception").

(** [sort_and_assign] *)
Definition sort_and_assign (entries : list FileEntry) (ndx_start : Z) (all : list FileEntry * list Z)
    : list FileEntry * list Z :=
  let sorted := canonical_sort entries in
  (all.1 ++ sorted, all.2 ++ imap (fun i _ => as_i32 (ndx_start + Z.of_nat i)) sorted).

Record receive_state := mkReceiveState {
  rv_receiver : IncrementalReceiver;
  rv_delta : DeltaState;
  rv_all : list FileEntry * list Z;
  rv_num : nat;
}.

Definition recv_marker_round (opts : FileListOptions) (s : receive_state) : rd (receive_state + receive_state) :=
  m ← read_ndx_marker (rv_receiver s) (int_codec (wire opts));
  let '(ndx, receiver) := (m : Z * IncrementalReceiver) in
  if ndx =? NDX_FLIST_EOF then mret (inr s)
  else if ndx <=? NDX_FLIST_OFFSET then
    q ← recv_sub_flist_with_state receiver (as_i32 (NDX_FLIST_OFFSET - ndx)) opts (rv_delta s);
    let '(sub, receiver, delta) := (q : SubFileList * IncrementalReceiver * DeltaState) in
    mret (inl (mkReceiveState receiver delta
                 (sort_and_assign (sub_entries sub) (sub_ndx_start sub) (rv_all s)) (S (rv_num s))))
  else rd_err (unexpected_ndx ndx).

Definition recv_file_list_incremental (opts : FileListOptions) : rd (list FileEntry * Z * list Z * nat) :=
  q ← recv_sub_flist_with_state (IncrementalReceiver_new true) 0 opts DeltaState_default;
  let '(first, receiver, delta) := (q : SubFileList * IncrementalReceiver * DeltaState) in
  let all := sort_and_assign (sub_entries first) (sub_ndx_start first) ([], []) in
  s ← rd_while (recv_marker_round opts) (mkReceiveState receiver delta all 1);
  mret ((rv_all s).1, sub_ndx_start first, (rv_all s).2, rv_num s).

(** ** Streaming receivers

    The channel takes [alive] more entries before its receiver is dropped; the
    result is the entries it was given. *)

Definition stream_round (opts : FileListOptions) (s : nat * DecoderState * list FileEntry)
    : rd (nat * DecoderState * list FileEntry + list FileEntry) :=
  p ← decode_entry s.1.2 opts s.2 None;
  mret (match p.1 with
        | ReadEntry entry =>
            match s.1.1 with
            | O => inr s.2
            | S alive => inl (alive, p.2, s.2 ++ [entry])
            end
        | ReadEndOfList _ => inr s.2
        end).
Definition recv_file_list_batch_streaming (alive : nat) (opts : FileListOptions) : rd (list FileEntry) :=
  sent ← rd_while (stream_round opts) (alive, DecoderState_new, []);
  _ ← (if trailing_io_error (Flist.wire opts) then _ ← read_int; mret tt else mret tt);
  mret sent.

(** [for entry in entries { if tx.send(entry).is_err() { return Ok(()) } }]:
    what is delivered, and whether the channel still takes entries. *)
Definition deliver (alive : nat) (entries : list FileEntry) : list FileEntry * option nat :=
  (take alive entries, if (length entries <=? alive)%nat then Some (alive - length entries)%nat else None).

Definition stream_marker_round (opts : FileListOptions) (s : nat * IncrementalReceiver * list FileEntry)
    : rd (nat * IncrementalReceiver * list FileEntry + list FileEntry) :=
  m ← read_ndx_marker s.1.2 (int_codec (Flist.wire opts));
  let '(ndx, receiver) := (m : Z * IncrementalReceiver) in
  if ndx =? NDX_FLIST_EOF then mret (inr s.2)
  else if ndx <=? NDX_FLIST_OFFSET then
    q ← recv_sub_flist receiver (as_i32 (NDX_FLIST_OFFSET - ndx)) opts;
    let '(sub, receiver) := (q : SubFileList * IncrementalReceiver) in
    let '(sent, alive) := deliver s.1.1 (sub_entries sub) in
    mret (match alive with
          | Some alive => inl (alive, receiver, s.2 ++ sent)
          | None => inr (s.2 ++ sent)
          end)
  else rd_err (unexpected_ndx ndx).
Definition recv_file_list_incremental_streaming (alive : nat) (opts : FileListOptions) : rd (list FileEntry) :=
  q ← recv_sub_flist (IncrementalReceiver_new true) 0 opts;
  let '(first, receiver) := (q : SubFileList * IncrementalReceiver) in
  let '(sent, alive) := deliver alive (sub_entries first) in
  match alive with
  | Some alive => rd_while (stream_marker_round opts) (alive, receiver, sent)
  | None => mret sent
  end.

(** ** Entry points *)

(** The accessors of [TransferConfig] the codec asks. *)
Record CodecConfig := mkCodecConfig {
  c_preserve_owner : bool;
  c_preserve_group : bool;
  c_preserve_devices : bool;
  c_preserve_specials : bool;
  c_preserve_links : bool;
  c_preserve_hard_links : bool;
  c_checksum_mode : bool;
  c_numeric_ids : bool;
  c_preserve_acls : bool;
  c_preserve_xattrs : bool;
  c_recursive : bool;
}.

Definition from_protocol (proto : NegotiatedProtocol) (opts : CodecConfig) : FileListOptions := {|
  Flist.wire := Handshake.wire proto;
  preserve_uid := c_preserve_owner opts;
  preserve_gid := c_preserve_group opts || c_preserve_owner opts;
  preserve_devices := c_preserve_devices opts;
  preserve_specials := c_preserve_specials opts;
  preserve_links := c_preserve_links opts;
  preserve_hard_links := c_preserve_hard_links opts;
  always_checksum := c_checksum_mode opts;
  checksum_len := ChecksumType.digest_len (checksum_type proto);
  xmit_id0_names := has_bits (compat_flags proto) compat_flags.ID0_NAMES;
  numeric_ids := c_numeric_ids opts;
  preserve_acls := c_preserve_acls opts;
  preserve_xattrs := c_preserve_xattrs opts;
|}.

Definition sort_file_list (entries : list FileEntry) : list FileEntry := canonical_sort entries.

Definition incremental_mode (opts : FileListOptions) (recursive : bool) : bool :=
  supports_incremental_flist (Flist.wire opts) && recursive.

Definition send_file_list (entries : list FileEntry) (protocol : NegotiatedProtocol) (config : CodecConfig)
    : wr (list Z * option PendingSubFlists) :=
  let opts := from_protocol protocol config in
  if incremental_mode opts (c_recursive config) then send_file_list_incremental entries opts
  else
    _ ← send_file_list_batch entries opts;
    _ ← (if negb (numeric_ids opts) then send_id_list entries opts else mret tt);
    mret (imap (fun i _ => as_i32 (Z.of_nat i)) entries, None).

Record ReceivedFileList := mkReceivedFileList {
  rl_entries : list FileEntry;
  rl_entry_ndx : list Z;
  rl_ndx_start : Z;
  rl_num_flists : nat;
}.

Definition recv_file_list (protocol : NegotiatedProtocol) (config : CodecConfig) : rd ReceivedFileList :=
  let opts := from_protocol protocol config in
  if incremental_mode opts (c_recursive config) then
    q ← recv_file_list_incremental opts;
    let '(entries, ndx_start, entry_ndx, num_flists) := (q : list FileEntry * Z * list Z * nat) in
    mret (mkReceivedFileList entries entry_ndx ndx_start num_flists)
  else
    entries ← recv_file_list_batch opts;
    let entries := canonical_sort entries in
    _ ← (if negb (numeric_ids opts) then recv_id_list opts else mret tt);
    mret (mkReceivedFileList entries (imap (fun i _ => as_i32 (Z.of_nat i)) entries) 0 1).

Definition recv_file_list_streaming (alive : nat) (protocol : NegotiatedProtocol) (config : CodecConfig)
    : rd (list FileEntry) :=
  let opts := from_protocol protocol config in
  if incremental_mode opts (c_recursive config) then recv_file_list_incremental_streaming alive opts
  else recv_file_list_batch_streaming alive opts.

(** ** Names of ids: the receiver reads what the sender wrote *)

Lemma read_id_name_takes : takes 1 read_id_name.
Proof. unfold read_id_name. apply takes_bind; [apply read_byte_takes|]. intros. solve_takes. Qed.
#[export] Hint Extern 1 (takes 0 read_id_name) => exact (takes_weaken _ _ read_id_name_takes) : takes.
Lemma recv_id_round_takes opts s : takes 1 (recv_id_round opts s).
Proof. unfold recv_id_round. apply takes_bind; [apply read_varint30_takes|]. intros. solve_takes. Qed.

Lemma read_id_name_safe : safe read_id_name (fun _ => True).
Proof.
  unfold read_id_name. eapply safe_bind; [apply read_byte_safe|]. intros n Hn. unfold is_byte in Hn.
  eapply safe_bind; [apply safe_read_exact; lia|]. intros. by apply safe_ret.
Qed.
Lemma recv_one_list_safe opts : safe (recv_one_list opts) (fun _ => True).
Proof.
  unfold recv_one_list. eapply (safe_bind _ _ (fun _ => True)).
  - apply (rd_while_safe _ (fun _ => True)); [apply recv_id_round_takes| |done]. intros [] _.
    unfold recv_id_round. eapply safe_bind; [apply read_varint30_safe|]. intros id _.
    apply safe_if; intros _; [by apply safe_ret|]. eapply safe_bind; [apply read_id_name_safe|]. intros. by apply safe_ret.
  - intros [] _. apply safe_if; intros _; [apply read_id_name_safe|by apply safe_ret].
Qed.
Lemma recv_id_list_safe opts : safe (recv_id_list opts) (fun _ => True).
Proof.
  unfold recv_id_list. eapply (safe_bind _ _ (fun _ => True)).
  - apply safe_if; intros _; [apply recv_one_list_safe|by apply safe_ret].
  - intros [] _. apply safe_if; intros _; [apply recv_one_list_safe|by apply safe_ret].
Qed.

Lemma write_id_name_mirrors n : mirrors (write_id_name n) read_id_name (fun _ _ => True).
Proof.
  unfold write_id_name, read_id_name. rewrite wrap_id by lia.
  eapply mirrors_bind; [apply write_byte_mirrors|]. intros [] ? ->.
  apply (mirrors_map _ _ (fun _ => tt)). eapply mirrors_mono; [apply mirrors_write_exact|done].
  rewrite length_take. lia.
Qed.

Lemma wr_each_fold {A} (f : A -> wr unit) l : wr_each f l = wr_fold (fun x _ => f x) l tt.
Proof.
  induction l as [|x l IH]; cbn; [done|]. unfold mbind, wr_bind. destruct (f x) as [[[]| |] o]; [by rewrite IH|done..].
Qed.
Lemma wr_each_skip {A} (skip : A -> bool) (f : A -> wr unit) l :
  wr_each (fun x => if skip x then mret tt else f x) l = wr_each f (List.filter (fun x => negb (skip x)) l).
Proof.
  induction l as [|x l IH]; cbn; [done|]. destruct (skip x); cbn [negb]; [|by rewrite IH].
  rewrite <- IH. by apply wr_ret_bind.
Qed.

Lemma one_list_mirrors names opts : Forall (fun p : Z * list Z => in_u32 p.1) names ->
  mirrors (send_one_list names opts) (recv_one_list opts) (fun _ _ => True).
Proof.
  intros Hn. unfold send_one_list, recv_one_list. rewrite wr_each_skip, wr_each_fold.
  set (l := List.filter _ names). assert (Hl : Forall (fun p : Z * list Z => in_u32 p.1 /\ p.1 <> 0) l).
  { unfold l. clear l. induction Hn as [|p l Hp Hn IH]; cbn; [constructor|].
    destruct (Z.eqb_spec p.1 0); cbn; [done|]. by constructor. }
  clearbody l. set (codec := int_codec (Flist.wire opts)).
  assert (H : mirrors (t ← wr_fold (fun p _ => _ ← write_varint30 p.1 codec; write_id_name p.2) l tt;
                       write_varint30 0 codec) (rd_while (recv_id_round opts) tt) (fun _ _ => True)).
  { apply (mirrors_while _ (fun _ => write_varint30 0 codec) _ (fun l _ _ => Forall (fun p : Z * list Z => in_u32 p.1 /\ p.1 <> 0) l)).
    - apply recv_id_round_takes.
    - intros p l' [] [] Hp. apply Forall_cons in Hp as [[Hp Hp0] Hl']. unfold recv_id_round.
      eapply mirrors_bind; [by apply write_varint30_mirrors|]. intros [] ? ->. destruct (Z.eqb_spec p.1 0); [done|].
      apply (mirrors_map _ _ (fun _ => inl tt)). eapply mirrors_mono; [apply write_id_name_mirrors|].
      intros [] [] _. by exists tt.
    - intros [] [] _. unfold recv_id_round. eapply mirrors_then; [by apply write_varint30_mirrors|].
      intros [] ? ->. apply mirrors_ret. by exists tt.
    - done. }
  destruct (xmit_id0_names opts).
  - rewrite <- wr_bind_assoc. eapply mirrors_bind; [exact H|]. intros [] [] _. apply write_id_name_mirrors.
  - eapply mirrors_then; [exact H|]. intros [] [] _. by apply mirrors_ret.
Qed.

Lemma btree_add_ids k v m : in_u32 k -> Forall (fun p : Z * list Z => in_u32 p.1) m ->
  Forall (fun p : Z * list Z => in_u32 p.1) (btree_add k v m).
Proof.
  intros Hk Hm. induction m as [|[k' v'] m IH]; cbn [btree_add]; [by apply Forall_cons|].
  destruct (k <? k'); [by apply Forall_cons|]. destruct (k =? k'); [done|].
  apply Forall_cons in Hm as [Hp Hm]. apply Forall_cons. auto.
Qed.
Lemma id_names_ids id_of name_of entries : (forall e, e ∈ entries -> in_u32 (id_of e)) ->
  Forall (fun p : Z * list Z => in_u32 p.1) (id_names id_of name_of entries).
Proof.
  intros He. unfold id_names. assert (H : Forall (fun p : Z * list Z => in_u32 p.1) []) by constructor.
  revert H He. generalize (@nil (Z * list Z)). induction entries as [|e l IH]; intros m Hm He; cbn; [done|].
  apply IH; [|intros; apply He, elem_of_cons; by right].
  destruct (name_of e); [done|]. apply btree_add_ids; [|done]. apply He, elem_of_cons. by left.
Qed.

Lemma id_list_mirrors entries opts : Forall (entry_ok opts) entries ->
  mirrors (send_id_list entries opts) (recv_id_list opts) (fun _ _ => True).
Proof.
  intros Hok. rewrite Forall_forall in Hok. unfold send_id_list, recv_id_list.
  eapply (mirrors_bind _ _ _ _ (fun _ _ => True)).
  - destruct (preserve_uid opts); [|by apply mirrors_ret]. apply one_list_mirrors, id_names_ids.
    intros e He. apply (Hok e He).
  - intros [] [] _. destruct (preserve_gid opts); [|by apply mirrors_ret]. apply one_list_mirrors, id_names_ids.
    intros e He. apply (Hok e He).
Qed.

(** ** Order of the received entries *)

Lemma received_keys opts seen l : map sort_key (received_list opts seen l) = map sort_key l.
Proof.
  revert seen. induction l as [|e l IH]; intros seen; cbn [received_list map]; [done|].
  unfold receive_step. destruct (link_key opts e); [destruct (seen !! _)|]; cbn [map]; by rewrite IH.
Qed.
Lemma flagless_keys l : map sort_key (map without_flags l) = map sort_key l.
Proof. rewrite map_map. by apply map_ext. Qed.

Definition sorted (l : list FileEntry) : Prop := StronglySorted (fun a b => f_name_cmp a b <> Gt) l.

Lemma sorted_keys l : sorted l <-> StronglySorted (fun a b => key_cmp a b <> Gt) (map sort_key l).
Proof.
  split.
  - apply StronglySorted_map. intros a b. by rewrite f_name_cmp_keys.
  - induction l as [|e l IH]; cbn; [constructor|]. intros H. inversion H as [|? ? Hl He]; subst.
    constructor; [by apply IH|]. rewrite Forall_map in He. eapply Forall_impl; [exact He|].
    intros x. cbv beta. by rewrite f_name_cmp_keys.
Qed.
Lemma sorted_transfer l l' : map sort_key l = map sort_key l' -> sorted l -> sorted l'.
Proof. intros E. rewrite !sorted_keys. by rewrite E. Qed.
Lemma sorted_stays l : sorted l -> canonical_sort l = l.
Proof. apply sort_id. Qed.
Lemma sort_is_sorted l : sorted (sort_file_list l).
Proof. apply sort_sorted; [intros; rewrite !f_name_cmp_keys; apply key_cmp_antisym|apply f_name_cmp_le_trans]. Qed.

Lemma received_length opts seen l : length (received_list opts seen l) = length l.
Proof. rewrite <- (length_map sort_key), received_keys. by rewrite length_map. Qed.

Lemma batch_mirrors entries opts : session opts -> links_carried opts -> list_ok opts entries ->
  Z.of_nat (length entries) < 2 ^ 31 ->
  mirrors (send_file_list_batch entries opts) (recv_file_list_batch opts)
    (fun _ l => map without_flags l = received_list opts ∅ entries).
Proof.
  intros Hs Hc Hok Hlen. unfold send_file_list_batch, recv_file_list_batch.
  eapply mirrors_bind.
  { apply (run_mirrors opts Hs Hc entries Hok 0 ltac:(lia) 0); try (by left); try apply attrs_start; try done; try lia.
    unfold in_sync. cbn. destruct (preserve_uid opts), (preserve_gid opts), (has_inline_names _); done. }
  intros es [[l ds] io] (Hl & _). apply (mirrors_map _ _ (fun _ => l)).
  destruct (trailing_io_error _); [|by apply mirrors_ret]. apply (mirrors_map _ _ (fun _ => tt)).
  eapply mirrors_mono; [apply write_int_mirrors|done].
Qed.

Lemma ndx_from_zero {A} (l : list A) : Z.of_nat (length l) < 2 ^ 31 ->
  imap (fun i _ => as_i32 (Z.of_nat i)) l = map Z.of_nat (seq 0 (length l)).
Proof.
  intros Hl. assert (H : forall o, Z.of_nat (o + length l) < 2 ^ 31 ->
    imap (fun i _ => as_i32 (Z.of_nat (o + i))) l = map Z.of_nat (seq o (length l))); [|by apply (H 0%nat)].
  clear Hl. induction l as [|x l IH]; intros o Ho; [done|]. cbn [imap length seq map] in *. f_equal.
  - rewrite Nat.add_0_r. apply swrap_id; lia.
  - rewrite <- IH by lia. apply imap_ext. intros. cbn. do 2 f_equal. lia.
Qed.

(** ** Properties *)

(** C9. Batch mode, end to end: a list sorted and sent with [send_file_list]
    is read back by [recv_file_list] with the same number of entries in the
    same order, so that both sides give every file the same index; every entry
    is what the specification [received_list] says: path, type, size and times
    exactly, owners, devices, links, checksums, ACLs and attributes as the
    options have it, and the later names of an inode tied to the first.  The
    reader stops where the writer stopped, whatever follows. *)
Theorem file_list_batch_exchange (files : list FileEntry) (protocol : NegotiatedProtocol) (config : CodecConfig)
    (k : list Z) :
  let opts := from_protocol protocol config in
  let entries := sort_file_list files in
  incremental_mode opts (c_recursive config) = false ->
  session opts -> links_carried opts -> list_ok opts entries -> Z.of_nat (length entries) < 2 ^ 31 ->
  exists ndx bs r, send_file_list entries protocol config = (Ok (ndx, None), bs) /\
    recv_file_list protocol config (bs ++ k) = Ok (r, k) /\
    map without_flags (rl_entries r) = received_list opts ∅ entries /\
    map sort_key (rl_entries r) = map sort_key entries /\
    rl_entry_ndx r = ndx /\ ndx = map Z.of_nat (seq 0 (length entries)).
Proof.
  intros opts entries Hmode Hs Hc Hok Hlen.
  assert (Hm : mirrors (send_file_list entries protocol config) (recv_file_list protocol config) (fun a r =>
    a = (imap (fun i _ => as_i32 (Z.of_nat i)) entries, None) /\
    map without_flags (rl_entries r) = received_list opts ∅ entries /\
    rl_entry_ndx r = imap (fun i _ => as_i32 (Z.of_nat i)) (rl_entries r))).
  { unfold send_file_list, recv_file_list. fold opts. rewrite Hmode.
    eapply mirrors_bind; [by apply batch_mirrors|]. intros [] l Hl. cbv beta in Hl. cbv zeta.
    assert (Hsorted : canonical_sort l = l).
    { apply sorted_stays, (sorted_transfer entries); [|apply sort_is_sorted].
      by rewrite <- (flagless_keys l), Hl, received_keys. }
    rewrite Hsorted. eapply (mirrors_bind _ _ _ _ (fun _ _ => True)).
    - destruct (numeric_ids opts); [by apply mirrors_ret|]. apply id_list_mirrors, Hok.
    - intros [] [] _. by apply mirrors_ret. }
  destruct Hm as (a & r & bs & Hw & Hr & -> & Hl & Hn).
  assert (Hlr : length (rl_entries r) = length entries).
  { apply (f_equal length) in Hl. by rewrite length_map, received_length in Hl. }
  eexists _, bs, r. split; [exact Hw|]. split; [apply Hr|]. split; [done|]. split; [|split].
  - by rewrite <- (flagless_keys (rl_entries r)), Hl, received_keys.
  - rewrite Hn, !ndx_from_zero by lia. by rewrite Hlr.
  - by apply ndx_from_zero.
Qed.

(** ** Incremental mode, end to end *)

(** Everything the sender writes: the root list at once, the other groups when
    the sender loop asks for them. *)
Definition send_everything (entries : list FileEntry) (opts : FileListOptions) (counts : list nat) : wr (list Z) :=
  q ← send_file_list_incremental entries opts;
  match q.2 with
  | None => mret q.1
  | Some pending => _ ← drain counts pending; mret q.1
  end.

Definition send_group (entries : list FileEntry) (opts : FileListOptions) (g : DirGroup)
    (q : IncrementalSender * EncoderState) : wr (IncrementalSender * EncoderState) :=
  s ← write_sub_flist_marker q.1 (dg_dir_ndx g) (int_codec (Flist.wire opts));
  encode_sub_flist_entries s entries (entry_indices g) opts q.2.

Lemma send_groups_fold groups n entries st s opts eof :
  send_groups (length (drop n groups)) (mkPendingSubFlists groups n entries st s opts eof) =
  (q ← wr_fold (send_group entries opts) (drop n groups) (s, st);
   mret (mkPendingSubFlists groups (n + length (drop n groups)) entries q.2 q.1 opts eof)).
Proof.
  remember (drop n groups) as gs eqn:E. revert n st s E. induction gs as [|g gs IH]; intros n st s E.
  - cbn [length send_groups wr_fold]. rewrite wr_ret_bind_eq, Nat.add_0_r. done.
  - cbn [length send_groups wr_fold pg_groups pg_cursor pg_sender pg_encoder pg_opts pg_entries eof_sent].
    assert (Hg : groups !! n = Some g) by (by rewrite <- (Nat.add_0_r n), <- lookup_drop, <- E).
    rewrite Hg. assert (Es : send_group entries opts g (s, st) =
      (s' ← write_sub_flist_marker s (dg_dir_ndx g) (int_codec (Flist.wire opts));
       encode_sub_flist_entries s' entries (entry_indices g) opts st)) by done.
    rewrite Es, !wr_bind_assoc. apply wr_bind_ext. intros s' bs _.
    rewrite ?wr_bind_assoc. apply wr_bind_ext. intros [s2 st2] bs' _. cbn [fst snd].
    rewrite (drop_S _ g n) in E by done. rewrite IH by (by injection E).
    apply wr_bind_ext. intros q bs2 _. by rewrite Nat.add_succ_r.
Qed.

Lemma send_everything_fold entries opts counts : let tree := from_sorted_entries entries in
  (length tree <= S (sum_list counts))%nat ->
  send_everything entries opts counts =
  (q ← encode_sub_flist_entries (mkIncrementalSender NdxState_default 1) entries
         (entry_indices (tree_root tree)) opts EncoderState_new;
   q' ← wr_fold (send_group entries opts) (drop 1 tree) q;
   _ ← write_flist_eof q'.1 (int_codec (Flist.wire opts));
   mret (assign_ndx 1 tree (replicate (length entries) 0))).
Proof.
  intros tree Hc. unfold send_everything, send_file_list_incremental. fold tree. rewrite wr_bind_assoc.
  apply wr_bind_ext. intros [s st] bs _. cbn [fst snd]. unfold has_subdirs.
  destruct (Nat.ltb_spec 1 (length tree)) as [Hl|Hl]; cbn [negb].
  - rewrite wr_ret_bind_eq. cbn [fst snd]. unfold PendingSubFlists_new, into_pending_groups. set (gs := drop 1 tree).
    assert (Hgs : length gs = (length tree - 1)%nat) by (unfold gs; by rewrite length_drop).
    rewrite drain_all; [|done|unfold remaining; cbn [pg_groups pg_cursor]; lia].
    unfold remaining. cbn [pg_groups pg_cursor]. rewrite Nat.sub_0_r.
    pose proof (send_groups_fold gs 0 entries st s opts false) as H. rewrite drop_0 in H. rewrite H.
    rewrite !wr_bind_assoc. apply wr_bind_ext. intros q bs' _. rewrite wr_ret_bind_eq. unfold finish.
    cbn [pg_sender pg_opts pg_groups pg_cursor pg_entries pg_encoder]. rewrite wr_bind_assoc. apply wr_bind_ext.
    intros s2 bs2 _. by rewrite wr_ret_bind_eq.
  - rewrite drop_ge by lia. cbn [wr_fold]. rewrite wr_ret_bind_eq, wr_bind_assoc. apply wr_bind_ext. intros s2 bs2 _.
    by rewrite wr_ret_bind_eq.
Qed.

(** The indices of a run of groups. *)
Fixpoint group_ndx (cursor : Z) (groups : list DirGroup) : list Z :=
  match groups with
  | [] => []
  | g :: gs =>
      imap (fun i _ => cursor + Z.of_nat i) (entry_indices g)
        ++ group_ndx (cursor + Z.of_nat (length (entry_indices g)) + 1) gs
  end.
Fixpoint ndx_used (groups : list DirGroup) : Z :=
  match groups with
  | [] => 0
  | g :: gs => Z.of_nat (length (entry_indices g)) + 1 + ndx_used gs
  end.

Lemma ndx_used_order groups : ndx_used groups = Z.of_nat (length (group_order groups) + length groups).
Proof.
  unfold group_order. induction groups as [|g gs IH]; cbn [ndx_used map concat length]; [done|].
  rewrite IH, length_app. lia.
Qed.

(** Assigning one group. *)
Lemma assign_group cursor l a : NoDup l -> (forall i, i ∈ l -> (i < length a)%nat) ->
  let a' := foldl (fun a p => <[p.2 := cursor + Z.of_nat p.1]> a) a (imap pair l) in
  length a' = length a /\ (forall i, i ∉ l -> a' !!! i = a !!! i) /\
  map (fun i => a' !!! i) l = imap (fun i _ => cursor + Z.of_nat i) l.
Proof.
  cbv zeta. revert cursor a. assert (H : forall o cursor a, NoDup l -> (forall i, i ∈ l -> (i < length a)%nat) ->
    let a' := foldl (fun a p => <[p.2 := cursor + Z.of_nat p.1]> a) a (imap (fun i x => ((o + i)%nat, x)) l) in
    length a' = length a /\ (forall i, i ∉ l -> a' !!! i = a !!! i) /\
    map (fun i => a' !!! i) l = imap (fun i _ => cursor + Z.of_nat (o + i)) l);
    [|intros cursor a; apply (H 0%nat)].
  cbv zeta. induction l as [|x l IH]; intros o cursor a Hnd Hb; [done|].
  apply NoDup_cons in Hnd as [Hx Hnd]. cbn [imap foldl fst snd].
  assert (E : imap ((fun i y => ((o + i)%nat, y)) ∘ S) l = imap (fun i y => ((S o + i)%nat, y)) l).
  { apply imap_ext. intros i y _. cbn. f_equal. lia. }
  rewrite E. set (a1 := <[x:=_]> a). assert (Hl : length a1 = length a) by (unfold a1; by rewrite length_insert).
  destruct (IH (S o) cursor a1) as (H1 & H2 & H3); [done|intros; rewrite Hl; apply Hb, elem_of_cons; by right|].
  rewrite H1, Hl. split; [done|]. split.
  - intros i Hi. apply not_elem_of_cons in Hi as [Hix Hil]. rewrite H2 by done. unfold a1.
    by rewrite list_lookup_total_insert_ne by done.
  - cbn [map]. rewrite H3, H2 by done. unfold a1 at 1. rewrite list_lookup_total_insert_eq by (apply Hb, elem_of_cons; by left).
    f_equal. apply imap_ext. intros i y _. cbn. do 2 f_equal. lia.
Qed.

(** The sender's table, read group by group, is the run of indices. *)
Lemma assign_ndx_order groups cursor a : NoDup (group_order groups) ->
  (forall i, i ∈ group_order groups -> (i < length a)%nat) ->
  length (assign_ndx cursor groups a) = length a /\
  (forall i, i ∉ group_order groups -> assign_ndx cursor groups a !!! i = a !!! i) /\
  map (fun i => assign_ndx cursor groups a !!! i) (group_order groups) = group_ndx cursor groups.
Proof.
  unfold group_order. revert cursor a. induction groups as [|g gs IH]; intros cursor a Hnd Hb; [done|].
  cbn [map concat assign_ndx group_ndx] in *. apply NoDup_app in Hnd as (Hg & Hdisj & Hgs).
  destruct (assign_group cursor (entry_indices g) a) as (L & A1 & A2); [done|intros; apply Hb, elem_of_app; by left|].
  cbv zeta in L, A1, A2. set (a1 := foldl _ a _) in *.
  destruct (IH (cursor + Z.of_nat (length (entry_indices g)) + 1) a1) as (H1 & H2 & H3); [done| |].
  { intros i Hi. rewrite L. apply Hb, elem_of_app. by right. }
  split; [by rewrite H1|]. split.
  - intros i [Hi1 Hi2]%not_elem_of_app. by rewrite H2, A1.
  - rewrite map_app, H3, <- A2. f_equal. apply map_ext_in. intros i Hi. apply H2, Hdisj. by apply list_elem_of_In.
Qed.

Lemma sorted_filter (f : FileEntry -> bool) l : sorted l -> sorted (List.filter f l).
Proof.
  unfold sorted. induction 1 as [|x l Hl IH Hx]; cbn; [constructor|]. destruct (f x); [|done]. constructor; [done|].
  rewrite Forall_forall in *. intros y Hy. apply elem_of_filter_b in Hy as [Hy _]. by apply Hx.
Qed.

Lemma imap_index {A B C} (h : nat -> C) (a : list A) (b : list B) :
  length a = length b -> imap (fun i _ => h i) a = imap (fun i _ => h i) b.
Proof.
  revert b h. induction a as [|x a IH]; intros [|y b] h E; try done. cbn. f_equal. injection E as E.
  apply (IH b (fun i => h (S i)) E).
Qed.

(** The entries of the groups, as the sender holds them. *)
Definition at_indices (entries : list FileEntry) (l : list nat) : list FileEntry :=
  match pick entries l with Some es => es | None => [] end.

Section incremental.
  Context (entries : list FileEntry) (opts : FileListOptions).
  Context (Hs : session opts) (Hp : plain opts) (Hok : list_ok opts entries) (Hsorted : sorted entries).

Definition group_list (gs : list DirGroup) : list FileEntry :=
  concat (map (fun g => map (received opts) (at_indices entries (entry_indices g))) gs).

(** The groups still to come, what the receiver has, and what it will have. *)
Record group_state (target : list FileEntry * list Z * nat) (gs : list DirGroup)
    (q : IncrementalSender * EncoderState) (s : receive_state) : Prop := {
  gs_sync : sub_sync opts entries q.1 q.2 (rv_receiver s) (rv_delta s);
  gs_fit : 0 <= is_next_ndx q.1 /\ is_next_ndx q.1 + ndx_used gs < 2 ^ 31;
  gs_groups : Forall (fun g => (exists f, entry_indices g = indices_where f entries) /\
                0 <= dg_dir_ndx g < 2 ^ 31 - 200) gs;
  gs_target : target = (map without_flags (rv_all s).1 ++ group_list gs,
                        (rv_all s).2 ++ group_ndx (is_next_ndx q.1) gs, (rv_num s + length gs)%nat);
}.

Lemma ndx_used_pos gs : 0 <= ndx_used gs.
Proof. induction gs; cbn; lia. Qed.

Lemma picked f g : entry_indices g = indices_where f entries ->
  pick entries (entry_indices g) = Some (List.filter f entries) /\
  at_indices entries (entry_indices g) = List.filter f entries /\
  length (entry_indices g) = length (List.filter f entries).
Proof.
  intros ->. unfold at_indices. rewrite pick_indices. split_and!; try done.
  assert (H : forall l es, pick entries l = Some es -> length l = length es).
  { induction l as [|i l IH]; intros es E; cbn in E; [by injection E as <-|].
    destruct (entries !! i); [|done]. cbn in E. destruct (pick entries l); [|done]. injection E as <-. cbn.
    f_equal. by apply IH. }
  apply H, pick_indices.
Qed.

(** What one sub-list adds on the receiving side. *)
Lemma sort_and_assign_sub f l n all : map without_flags l = map (received opts) (List.filter f entries) ->
  0 <= n -> n + Z.of_nat (length l) < 2 ^ 31 ->
  sort_and_assign l n all = (all.1 ++ l, all.2 ++ imap (fun i _ => n + Z.of_nat i) (List.filter f entries)).
Proof.
  intros Hl Hn Hb. unfold sort_and_assign.
  assert (Hkeys : map sort_key l = map sort_key (List.filter f entries)).
  { rewrite <- flagless_keys, Hl, map_map. by apply map_ext. }
  rewrite sorted_stays by (eapply sorted_transfer; [symmetry; exact Hkeys|by apply sorted_filter]).
  f_equal. f_equal. assert (Hlen : length l = length (List.filter f entries)).
  { apply (f_equal length) in Hl. by rewrite !length_map in Hl. }
  rewrite <- (imap_index (fun i => n + Z.of_nat i) l) by done.
  apply list_eq. intros i. rewrite !list_lookup_imap. destruct (l !! i) eqn:E; [|done]. cbn.
  apply lookup_lt_Some in E. by rewrite (swrap_id 32) by lia.
Qed.

Lemma group_step target g gs q s : group_state target (g :: gs) q s ->
  mirrors (send_group entries opts g q) (recv_marker_round opts s)
    (fun q' r => exists s', r = inl s' /\ group_state target gs q' s').
Proof.
  intros [Hsync [H0 Hfit] Hgs Ht]. apply Forall_cons in Hgs as [[[f Hf] Hdir] Hgs].
  destruct (picked f g Hf) as (Hpick & Hat & Hlen). cbn [ndx_used] in Hfit. pose proof (ndx_used_pos gs) as Hpos.
  unfold send_group, recv_marker_round, write_sub_flist_marker, NDX_FLIST_OFFSET, NDX_FLIST_EOF.
  rewrite (swrap_id 32 (-101 - dg_dir_ndx g)) by lia.
  eapply mirrors_bind; [eapply marker_mirrors; [exact Hsync|lia]|].
  intros sn [v r'] (Hv & Hnext & Hsync'). cbn [fst snd] in *. subst v.
  destruct (Z.eqb_spec (-101 - dg_dir_ndx g) (-2)); [lia|]. destruct (Z.leb_spec (-101 - dg_dir_ndx g) (-101)); [|lia].
  unfold encode_sub_flist_entries. rewrite Hpick.
  eapply mirrors_then.
  { apply (sub_mirrors opts entries (List.filter f entries) sn q.2 r' (rv_delta s)); try done; try lia.
    intros e He. by apply elem_of_filter_b in He as [? _]. }
  intros q' [[sub r2] delta] (Hl & Hst & Hn' & Hsync2). cbn [fst snd] in *. apply mirrors_ret. eexists. split; [reflexivity|].
  assert (Hll : length (sub_entries sub) = length (List.filter f entries)).
  { apply (f_equal length) in Hl. by rewrite !length_map in Hl. }
  rewrite (sort_and_assign_sub f) by (done || lia). constructor; cbn [rv_receiver rv_delta rv_all rv_num fst snd].
  - done.
  - lia.
  - done.
  - rewrite Ht. unfold group_list. cbn [map concat group_ndx length]. rewrite Hat, map_app, Hl, <- !app_assoc.
    f_equal; [f_equal; f_equal|lia]. f_equal; [|f_equal; lia].
    rewrite Hst, Hnext. symmetry. by apply (imap_index (fun i => is_next_ndx q.1 + Z.of_nat i)).
Qed.

Lemma group_end target q s (ndx : list Z) : group_state target [] q s ->
  mirrors (_ ← write_flist_eof q.1 (int_codec (Flist.wire opts)); mret ndx) (recv_marker_round opts s)
    (fun a r => exists s', r = inr s' /\ a = ndx /\ (map without_flags (rv_all s').1, (rv_all s').2, rv_num s') = target).
Proof.
  intros [Hsync _ _ Ht]. unfold recv_marker_round, write_flist_eof, NDX_FLIST_EOF.
  eapply mirrors_bind; [eapply marker_mirrors; [exact Hsync|lia]|].
  intros sn [v r'] (Hv & _). cbn [fst snd] in *. subst v. apply mirrors_ret. eexists. split; [reflexivity|]. split; [done|].
  rewrite Ht. unfold group_list. cbn. by rewrite !app_nil_r, Nat.add_0_r.
Qed.

Lemma recv_marker_round_takes s : takes 1 (recv_marker_round opts s).
Proof.
  unfold recv_marker_round, read_ndx_marker. apply takes_bind.
  { apply takes_bind; [apply read_ndx_takes|auto with takes]. }
  intros m. unfold recv_sub_flist_with_state. solve_takes.
Qed.

Lemma incremental_mirrors counts : NoDup (map name entries) ->
  let tree := from_sorted_entries entries in
  (length tree <= S (sum_list counts))%nat -> Z.of_nat (length entries) < 2 ^ 30 - 1 ->
  mirrors (send_everything entries opts counts) (recv_file_list_incremental opts)
    (fun ndx r => ndx = assign_ndx 1 tree (replicate (length entries) 0) /\
       r.1.1.2 = 1 /\ (map without_flags r.1.1.1, r.1.2, r.2) = (group_list tree, group_ndx 1 tree, length tree)).
Proof.
  intros Hnames tree Hcounts Hlen. rewrite send_everything_fold by done. fold tree.
  destruct (from_sorted_entries_ok entries Hnames) as [Hroot Hgroups Hdirs Hcount Hnd Hb _]. fold tree in Hroot, Hgroups, Hdirs, Hcount, Hnd, Hb.
  pose proof (NoDup_bounded _ _ Hnd Hb) as Ho. pose proof (ndx_used_order tree) as Hused.
  destruct tree as [|g gs] eqn:Et; [done|]. change (drop 1 (g :: gs)) with gs in *. cbn [tree_root] in *. rewrite <- Et. clear Hroot.
  apply Forall_cons in Hgroups as [[f Hf] Hgroups]. destruct (picked f g Hf) as (Hpick & Hat & Hgl).
  cbn [ndx_used length] in Hused, Hcount. pose proof (ndx_used_pos gs) as Hpos.
  unfold encode_sub_flist_entries, recv_file_list_incremental. rewrite Hpick.
  eapply mirrors_bind.
  { apply (sub_mirrors opts entries (List.filter f entries)); try done; [|apply sub_sync_start|cbn; lia].
    intros e He. by apply elem_of_filter_b in He as [? _]. }
  intros q [[sub r] delta] (Hl & Hst & Hn & Hsync). cbn [fst snd is_next_ndx] in *.
  assert (Hll : length (sub_entries sub) = length (List.filter f entries)).
  { apply (f_equal length) in Hl. by rewrite !length_map in Hl. }
  rewrite Hst, (sort_and_assign_sub f) by (done || lia). cbn [fst snd app].
  eapply mirrors_then.
  - apply (mirrors_while (send_group entries opts)
      (fun q' => _ ← write_flist_eof q'.1 (int_codec (Flist.wire opts)); mret (assign_ndx 1 tree (replicate (length entries) 0)))
      (recv_marker_round opts) (group_state (group_list tree, group_ndx 1 tree, length tree))).
    + apply recv_marker_round_takes.
    + intros g' l t s. apply group_step.
    + intros t s Hg. eapply mirrors_mono; [by apply group_end|]. intros a b' (s' & -> & H). exists s'. split; [done|].
      exact H.
    + constructor; cbn [rv_receiver rv_delta rv_all rv_num fst snd].
      * done.
      * rewrite Hn. lia.
      * apply Forall_forall. intros g' Hg'. rewrite Forall_forall in Hgroups, Hdirs. split; [by apply Hgroups|].
        specialize (Hdirs g' Hg'). lia.
      * rewrite Et. unfold group_list. cbn [map concat group_ndx length]. rewrite Hat, Hl, Hn, <- Hgl.
        by rewrite (imap_index (fun i => 1 + Z.of_nat i) (entry_indices g) (List.filter f entries)).
  - intros a s [-> Hs']. apply mirrors_ret. cbn [fst snd]. rewrite Et in Hs' |- *. done.
Qed.

Lemma pick_app l1 l2 a b : pick entries l1 = Some a -> pick entries l2 = Some b -> pick entries (l1 ++ l2) = Some (a ++ b).
Proof.
  revert a. induction l1 as [|i l1 IH]; intros a Ha Hb; cbn in *; [by injection Ha as <-|].
  destruct (entries !! i); [|done]. cbn in *. destruct (pick entries l1); [|done]. injection Ha as <-.
  by rewrite (IH l eq_refl Hb).
Qed.

Lemma pick_groups gs : Forall (fun g => exists f, entry_indices g = indices_where f entries) gs ->
  exists es, pick entries (group_order gs) = Some es /\ group_list gs = map (received opts) es.
Proof.
  unfold group_order, group_list. induction 1 as [|g gs [f Hf] Hgs (es & He & Hm)]; cbn [map concat]; [by exists []|].
  destruct (picked f g Hf) as (Hpick & Hat & _). exists (List.filter f entries ++ es).
  rewrite (pick_app _ _ _ _ Hpick He), Hat, map_app, Hm. done.
Qed.
End incremental.

(** ** Arbitrary input *)

Lemma recv_sub_flist_safe r dir opts delta : state_bounded delta ->
  safe (recv_sub_flist_with_state r dir opts delta)
    (fun q => Forall entry_bounded (sub_entries q.1.1) /\ state_bounded q.2).
Proof.
  intros Hd. unfold recv_sub_flist_with_state. eapply safe_bind; [by apply recv_entries_safe|].
  intros [[l ds] io] [Hl Hds]. by apply safe_ret.
Qed.

Lemma canonical_sort_bounded l : Forall entry_bounded l -> Forall entry_bounded (canonical_sort l).
Proof. intros H. unfold canonical_sort. by rewrite sort_perm. Qed.

Lemma recv_incremental_safe opts : safe (recv_file_list_incremental opts) (fun r => Forall entry_bounded r.1.1.1).
Proof.
  unfold recv_file_list_incremental. eapply safe_bind; [apply recv_sub_flist_safe; cbn; split; cbn; lia|].
  intros [[sub r] delta] [Hl Hd]. cbn [fst snd] in *.
  eapply (safe_bind _ _ (fun s => Forall entry_bounded (rv_all s).1)); [|intros s Hs; by apply safe_ret].
  apply (rd_while_safe _ (fun s => Forall entry_bounded (rv_all s).1 /\ state_bounded (rv_delta s))).
  - apply recv_marker_round_takes.
  - intros s [H1 H2]. unfold recv_marker_round, read_ndx_marker. eapply (safe_bind _ _ (fun _ => True)).
    { eapply safe_bind; [apply read_ndx_safe|]. intros. by apply safe_ret. }
    intros [ndx r'] _. apply safe_if; intros _; [by apply safe_ret|]. apply safe_if; intros _; [|apply safe_err].
    eapply safe_bind; [by apply recv_sub_flist_safe|]. intros [[sub' r2] delta'] [Hl' Hd']. apply safe_ret.
    split; [|done]. cbn [rv_all sort_and_assign fst]. apply Forall_app. split; [done|]. by apply canonical_sort_bounded.
  - split; [|done]. cbn. by apply canonical_sort_bounded.
Qed.

Lemma recv_batch_safe opts : safe (recv_file_list_batch opts) (Forall entry_bounded).
Proof.
  unfold recv_file_list_batch. eapply safe_bind; [apply recv_entries_safe; split; cbn; lia|].
  intros [[l ds] io] [Hl _]. eapply (safe_bind _ _ (fun _ => True)); [|intros; by apply safe_ret].
  apply safe_if; intros _; [|by apply safe_ret]. eapply safe_bind; [apply read_int_safe|]. intros. by apply safe_ret.
Qed.

(** ** Streaming *)

Lemma recv_loop_grows opts fuel ds prev i l ds' io k :
  rd_loop (recv_round opts) fuel (ds, prev) i = Ok ((l, ds', io), k) -> (length prev <= length l)%nat.
Proof.
  revert ds prev i. induction fuel as [|fuel IH]; intros ds prev i E; [done|]. cbn [rd_loop] in E.
  unfold mbind, rd_bind in E. unfold recv_round at 1 in E. cbn [fst snd] in E. unfold mbind, rd_bind in E.
  destruct (decode_entry ds opts prev None i) as [[[[e|io'] st'] i']| |]; try done; cbn [fst snd mret rd_ret] in E.
  - apply IH in E. rewrite length_app in E. cbn in E. lia.
  - by injection E as -> _ _ _.
Qed.

(** The channel takes everything: the rounds are those of the batch loop. *)
Lemma stream_loop opts fuel ds prev i l ds' io k alive :
  rd_loop (recv_round opts) fuel (ds, prev) i = Ok ((l, ds', io), k) -> (length l <= length prev + alive)%nat ->
  rd_loop (stream_round opts) fuel (alive, ds, prev) i = Ok (l, k).
Proof.
  revert ds prev i alive. induction fuel as [|fuel IH]; intros ds prev i alive E Ha; [done|]. cbn [rd_loop] in *.
  unfold mbind, rd_bind in E |- *. unfold stream_round at 1. unfold recv_round at 1 in E. cbn [fst snd] in *.
  unfold mbind, rd_bind in E |- *. destruct (decode_entry ds opts prev None i) as [[[[e|io'] st'] i']| |]; try done.
  - cbn [fst snd mret rd_ret] in *. destruct alive as [|alive].
    + apply recv_loop_grows in E. rewrite length_app in E. cbn in E. lia.
    + apply (IH st' (prev ++ [e])); [done|]. rewrite length_app. cbn. lia.
  - cbn [fst snd mret rd_ret] in *. by injection E as -> _ _ ->.
Qed.

(** With a channel that takes everything, the streaming receiver delivers what
    the batch receiver returns, and stops at the same byte. *)
Lemma batch_streaming_agrees opts alive i l k :
  recv_file_list_batch opts i = Ok (l, k) -> (length l <= alive)%nat ->
  recv_file_list_batch_streaming alive opts i = Ok (l, k).
Proof.
  unfold recv_file_list_batch, recv_file_list_batch_streaming, recv_entries, rd_while. intros E Ha.
  unfold mbind at 1, rd_bind at 1 in E. unfold mbind at 1, rd_bind at 1.
  destruct (rd_loop (recv_round opts) _ _ _) as [[[[l' ds'] io] k']| |] eqn:El; try done. cbn [fst snd] in E.
  assert (l' = l) as ->.
  { unfold mbind, rd_bind in E. destruct (trailing_io_error _); [|by injection E as -> _].
    destruct (read_int k') as [[z k2]| |]; [|done..]. by injection E as -> _. }
  by rewrite (stream_loop opts _ _ _ _ _ _ _ _ alive El).
Qed.

(** ** Properties of both modes *)



(** ** Examples *)

Definition text (s : string) : list Z := map (fun c => Z.of_N (Ascii.N_of_ascii c)) (String.list_ascii_of_string s).
Definition example_entry (n : string) (dir : bool) (size : Z) (link : option HardLinkInfo) : FileEntry :=
  mkFileEntry (text n) size 1000000000 0 (if dir then S_IFDIR + 0x1ED else S_IFREG + 0x1A4) 0 0 0 [] [] 0 [] [] None link None None.
Definition example_protocol : NegotiatedProtocol :=
  mkNegotiatedProtocol 31 compat_flags.VARINT_FLIST_FLAGS Md5 CpNone false 0 (Fixed 700)
    (WireFormat_new 31 (Z.lor compat_flags.VARINT_FLIST_FLAGS compat_flags.INC_RECURSE)).
Definition example_config (recursive links : bool) : CodecConfig :=
  mkCodecConfig true true false false true links false true false false recursive.

Lemma list_ok_pairs opts l : Forall (entry_ok opts) l ->
  Forall (fun a => Forall (fun b => names_agree opts a b /\ links_agree opts a b) l) l -> list_ok opts l.
Proof.
  intros H1 H2. split; [done|]. intros a b Ha Hb. rewrite Forall_forall in H2. specialize (H2 a Ha). cbv beta in H2.
  rewrite Forall_forall in H2. by apply H2.
Qed.

(** Settles closed facts about numbers and lengths. *)
Ltac computed := intros; split_and?; vm_compute; first [reflexivity | discriminate | exact I | congruence | constructor].

Lemma example_entry_ok config n dir size link :
  Z.of_nat (length (text n)) <= MAX_NAME_LEN -> 0 <= size < 2 ^ 58 ->
  entry_ok (from_protocol example_protocol config) (example_entry n dir size link).
Proof.
  intros Hn Hsize. unfold entry_ok. split; [exact Hn|].
  split; [split; [cbn [len example_entry]; lia|intros _]|].
  { unfold varlong_range. cbn [len example_entry]. change (2 ^ (55 + Z.of_nat 3)) with (2 ^ 58). lia. }
  split; [computed|]. split; [computed|]. split; [destruct dir; computed|]. split; [computed|]. split; [computed|].
  split.
  { assert (E : should_send_rdev (mode (example_entry n dir size link)) (from_protocol example_protocol config) = false).
    { unfold should_send_rdev. destruct dir; cbn; by rewrite !andb_false_r. }
    by rewrite E. }
  split; [computed|]. split; [|done]. split; split_and?; done || constructor.
Qed.

Lemma example_pair config n1 d1 s1 l1 n2 d2 s2 l2 :
  (forall k, link_key (from_protocol example_protocol config) (example_entry n1 d1 s1 l1) = Some k ->
     link_key (from_protocol example_protocol config) (example_entry n2 d2 s2 l2) = Some k -> d1 = d2 /\ s1 = s2) ->
  names_agree (from_protocol example_protocol config) (example_entry n1 d1 s1 l1) (example_entry n2 d2 s2 l2) /\
  links_agree (from_protocol example_protocol config) (example_entry n1 d1 s1 l1) (example_entry n2 d2 s2 l2).
Proof.
  intros H. split.
  - intros _. by split.
  - intros k H1 H2. destruct (H k H1 H2) as [-> ->]. done.
Qed.

Definition example_link : HardLinkInfo := mkHardLinkInfo 5 77 2.
Definition example_files : list FileEntry :=
  [example_entry "d/b" false 42 (Some example_link); example_entry "d" true 0 None;
   example_entry "a" false 42 (Some example_link); example_entry "d/e/f" false 7 None; example_entry "d/e" true 0 None].

Lemma example_list_ok config : list_ok (from_protocol example_protocol config) (sort_file_list example_files).
Proof.
  assert (E : sort_file_list example_files =
    [example_entry "a" false 42 (Some example_link); example_entry "d" true 0 None;
     example_entry "d/b" false 42 (Some example_link); example_entry "d/e" true 0 None; example_entry "d/e/f" false 7 None])
    by (vm_compute; reflexivity).
  rewrite E. apply list_ok_pairs.
  - repeat (constructor; [by apply example_entry_ok|]). constructor.
  - repeat (constructor; [repeat (constructor; [apply example_pair; intros k; by cbn|]); constructor|]). constructor.
Qed.

Lemma example_session config : session (from_protocol example_protocol config).
Proof. exists 31, (Z.lor compat_flags.VARINT_FLIST_FLAGS compat_flags.INC_RECURSE). split; [done|lia]. Qed.

Lemma file_list_batch_exchange_witness :
  let opts := from_protocol example_protocol (example_config false true) in
  exists ndx bs r, send_file_list (sort_file_list example_files) example_protocol (example_config false true) = (Ok (ndx, None), bs) /\
    recv_file_list example_protocol (example_config false true) (bs ++ [9]) = Ok (r, [9]) /\
    map without_flags (rl_entries r) = received_list opts ∅ (sort_file_list example_files) /\
    map hlink_source (rl_entries r) = [None; None; Some (text "a"); None; None] /\ ndx = [0; 1; 2; 3; 4].
Proof.
  destruct (file_list_batch_exchange example_files example_protocol (example_config false true) [9])
    as (ndx & bs & r & H1 & H2 & H3 & _ & _ & H4).
  - reflexivity.
  - apply example_session.
  - by intros H.
  - apply example_list_ok.
  - vm_compute. reflexivity.
  - exists ndx, bs, r. split; [exact H1|]. split; [exact H2|]. split; [exact H3|]. split; [|rewrite H4; vm_compute; reflexivity].
    assert (E : forall l, map hlink_source (map without_flags l) = map hlink_source l) by (intros l; rewrite map_map; by apply map_ext).
    rewrite <- E, H3. vm_compute. reflexivity.
Defined.



Definition with_acls (opts : FileListOptions) : FileListOptions :=
  mkFileListOptions (Flist.wire opts) (preserve_uid opts) (preserve_gid opts) (preserve_devices opts)
    (preserve_specials opts) (preserve_links opts) (preserve_hard_links opts) (always_checksum opts)
    (checksum_len opts) (xmit_id0_names opts) (numeric_ids opts) true (preserve_xattrs opts).

(** What [plain] excludes does go wrong in incremental mode.  With hard
    links, the second name of an inode in another directory is abbreviated to
    an index of an earlier sub-list, which the receiver cannot resolve: it goes
    on reading fields that were not sent and loses the stream.  With ACLs (or
    extended attributes), the sender's table of lists already sent runs on
    while the receiver starts each sub-list with an empty one: the second
    directory refers to an entry the receiver does not have.  And the streaming
    receiver forgets the previous entry between sub-lists, so that even a plain
    list cannot be read: the first name of the second sub-list is sent as a
    difference to the last one of the first. *)
Theorem incremental_lists_share_no_state :
  let outcome := fun opts =>
    recv_file_list_incremental opts (send_everything (sort_file_list example_files) opts [5]%nat).2 in
  (send_everything (sort_file_list example_files) (from_protocol example_protocol (example_config true true)) [5]%nat).1
    = Ok [1; 2; 4; 5; 7] /\
  outcome (from_protocol example_protocol (example_config true true)) = Err (unexpected_ndx (-1)) /\
  outcome (with_acls (from_protocol example_protocol (example_config true false))) = Err (acl_index_error 1 0) /\
  (let opts := from_protocol example_protocol (example_config true false) in
   recv_file_list_incremental_streaming 9 opts (send_everything (sort_file_list example_files) opts [5]%nat).2 =
     Err (Wire.Handshake "filename prefix length 1 exceeds previous name length 0")).
Proof. cbv zeta. split_and!; vm_compute; reflexivity. Qed.

Definition named_entry (u : Z) (u_name file : string) : FileEntry :=
  mkFileEntry (text file) 0 1 0 (S_IFREG + 0x1A4) u 0 0 [] [] 0 (text u_name) [] None None None None.

(** Two hypotheses of the exchange theorems are needed.  Protocol 27 has no
    flag for hard links, but the second name of an inode is still abbreviated
    to an index: the receiver takes the bytes for an end of list, returns the
    entries so far and leaves the rest unread.  And an owner without a name
    that follows one with a name is received under the name of the other. *)
Theorem links_and_names_need_care :
  let protocol := mkNegotiatedProtocol 27 0 Md4 CpNone false 0 (Fixed 700) (WireFormat_new 27 0) in
  (exists r k, recv_file_list protocol (example_config false true)
      (send_file_list (sort_file_list example_files) protocol (example_config false true)).2 = Ok (r, k) /\
     map name (rl_entries r) = [text "a"; text "d"; text "d/b"] /\ length k = 18%nat) /\
  (exists r, recv_file_list example_protocol (example_config false false)
      (send_file_list [named_entry 1 "alice" "a"; named_entry 2 "" "b"] example_protocol (example_config false false)).2 = Ok (r, []) /\
     map (fun e => (uid e, user_name e)) (rl_entries r) = [(1, text "alice"); (2, text "alice")]).
Proof.
  cbv zeta. split.
  - eexists _, _. split; [vm_compute; reflexivity|]. split; vm_compute; reflexivity.
  - eexists. split; vm_compute; reflexivity.
Qed.
