(* ===== verification/Pipes.v ===== *)
(** Tasks in a row, connected by bounded byte pipes.

    [pipeline.rs] spawns three tasks and connects them with
    [tokio::io::duplex]: a pipe holds up to [cap] bytes, a read takes what it
    needs and sees the end of file when the pipe is empty and its writer has
    finished, a write puts its bytes in as room appears and fails with
    [BrokenPipe] as soon as its reader has finished (the documented behaviour
    of the two ends).  The tasks are the processes of [Proc.v]; here every byte
    moves on its own, so that a run is any interleaving of single bytes.

    [network_completes] is about any three tasks that follow a [script]: a
    task that takes exactly the bytes it is sent, in every way they can be
    cut.  Whatever the schedule, such a network does not block and comes to an
    end ([eventually]), and losing the last few bytes of a pipe, whose reader
    may have finished before they were written, is the only failure. *)
From S2P Require Import Prelude Wire Proc.

Abbreviation broken := (Io OtherIo).

(** ** Tasks *)

(** A process with the bytes its current read has taken so far, or one in the
    middle of a write: the bytes still to go, and how it continues when they
    are all accepted or when the pipe breaks. *)
Inductive task (A : Type) : Type :=
  | Run (p : io A) (inbox : list Z)
  | Flush (out : list Z) (next failed : io A) (inbox : list Z).
Arguments Run {A} _ _.
Arguments Flush {A} _ _ _ _.

Definition outcome {A} (t : task A) : option (result A) :=
  match t with Run (IoDone o) _ => Some o | _ => None end.
Definition over {A} (t : task A) : bool := match outcome t with Some _ => true | None => false end.

(** One step: the task, what is left of its incoming pipe, what it adds to the
    outgoing one. *)
Definition task_step {A} (t : task A) (inp : list Z) (writer_over room reader_over : bool)
    : option (task A * list Z * list Z) :=
  match t with
  | Run (IoDone _) _ => None
  | Run (IoWrite w k) b => Some (Flush w.2 (k w.1) (k (Err broken)) b, inp, [])
  | Run (IoRead r k) b =>
      match r b with
      | Ok (x, rest) => Some (Run (k (Ok x)) rest, inp, [])
      | Err (Io UnexpectedEof) =>
          match inp with
          | c :: inp' => Some (Run (IoRead r k) (b ++ [c]), inp', [])
          | [] => if writer_over then Some (Run (k (Err (Io UnexpectedEof))) [], [], []) else None
          end
      | Err e => Some (Run (k (Err e)) [], inp, [])
      | Panic => Some (Run (k Panic) [], inp, [])
      end
  | Flush [] next _ b => Some (Run next b, inp, [])
  | Flush (c :: out) next failed b =>
      if reader_over then Some (Run failed b, inp, [])
      else if room then Some (Flush out next failed b, inp, [c])
      else None
  end.

(** ** Networks *)

Record network (A B C : Type) := mkNetwork {
  first : task A;
  pipe1 : list Z;
  second : task B;
  pipe2 : list Z;
  third : task C;
}.
Arguments mkNetwork {A B C} _ _ _ _ _.
Arguments first {A B C} _.
Arguments pipe1 {A B C} _.
Arguments second {A B C} _.
Arguments pipe2 {A B C} _.
Arguments third {A B C} _.

Section network.
  Context {A B C : Type} (cap : nat).

Definition room (pipe : list Z) : bool := (length pipe <? cap)%nat.

Definition step1 (n : network A B C) : option (network A B C) :=
  match task_step (first n) [] true (room (pipe1 n)) (over (second n)) with
  | Some (t, _, out) => Some (mkNetwork t (pipe1 n ++ out) (second n) (pipe2 n) (third n))
  | None => None
  end.
Definition step2 (n : network A B C) : option (network A B C) :=
  match task_step (second n) (pipe1 n) (over (first n)) (room (pipe2 n)) (over (third n)) with
  | Some (t, inp, out) => Some (mkNetwork (first n) inp t (pipe2 n ++ out) (third n))
  | None => None
  end.
Definition step3 (n : network A B C) : option (network A B C) :=
  match task_step (third n) (pipe2 n) (over (second n)) false true with
  | Some (t, inp, _) => Some (mkNetwork (first n) (pipe1 n) (second n) inp t)
  | None => None
  end.

Definition net_step (n n' : network A B C) : Prop :=
  step1 n = Some n' \/ step2 n = Some n' \/ step3 n = Some n'.

(** On every schedule: no step is missing before [P] holds, and it comes to hold. *)
Inductive eventually (P : network A B C -> Prop) (n : network A B C) : Prop :=
  | ev_now : P n -> eventually P n
  | ev_later : (exists n', net_step n n') -> (forall n', net_step n n' -> eventually P n') -> eventually P n.

Definition start (a : io A) (b : io B) (c : io C) : network A B C :=
  mkNetwork (Run a []) [] (Run b []) [] (Run c []).

Lemma eventually_mono (P Q : network A B C -> Prop) n :
  (forall n, P n -> Q n) -> eventually P n -> eventually Q n.
Proof. intros HPQ. induction 1 as [n Hn|n Hs _ IH]; [apply ev_now; auto|by apply ev_later]. Qed.

(** Run a schedule of task numbers, for examples. *)
Fixpoint run_net (s : list nat) (n : network A B C) : option (network A B C) :=
  match s with
  | [] => Some n
  | i :: s' =>
      match (match i with 1%nat => step1 n | 2%nat => step2 n | _ => step3 n end) with
      | Some n' => run_net s' n'
      | None => None
      end
  end.

Lemma run_net_reaches s n n' : run_net s n = Some n' -> rtc net_step n n'.
Proof.
  revert n. induction s as [|i s IH]; intros n; cbn [run_net]; [by intros [= <-]|].
  destruct (match i with 1%nat => step1 n | 2%nat => step2 n | _ => step3 n end) as [m|] eqn:E; [|done].
  intros H. apply (rtc_l _ _ m); [|by apply IH].
  destruct i as [|[|i]]; [by right; right|by left|]. destruct i; [by right; left|by right; right].
Qed.

End network.

(** ** Readers that take what they are given *)

(** [r] reads [x] off exactly [bs] and asks for more on every shorter prefix. *)
Definition reads_exactly {X} (r : rd X) (bs : list Z) (x : X) : Prop :=
  r bs = Ok (x, []) /\ forall p c t, bs = p ++ c :: t -> r p = Err (Io UnexpectedEof).

Lemma resumable_reads_exactly {X} (r : rd X) bs x :
  resumable r -> (forall k, r (bs ++ k) = Ok (x, k)) -> reads_exactly r bs x.
Proof.
  intros Hr Hk. pose proof (Hk []) as H0. rewrite app_nil_r in H0. split; [done|].
  intros p c t ->. specialize (Hr p (c :: t)). destruct (r p) as [[y k]|e|].
  - rewrite H0 in Hr. injection Hr as _ Hr. by destruct k.
  - destruct (decide (e = Io UnexpectedEof)) as [->|He]; [done|]. rewrite Hr in H0 by done. done.
  - by rewrite Hr in H0.
Qed.

(** ** Scripts

    [script n acc p need out m]: fed exactly the bytes [need], the process
    takes them all and writes [out], in at most [m] steps, and ends in [acc].
    A write may fail instead, ending the process in [acc] at once, when less
    than [n] bytes would be left to write after it. *)
Section script.
  Context {A : Type} (n : nat) (acc : result A -> Prop).

Definition may_fail (need rest : list Z) (failed : io A) : Prop :=
  (length rest < n)%nat -> need = [] /\ exists o, failed = IoDone o /\ acc o.

Fixpoint script (p : io A) (need out : list Z) (m : nat) : Prop :=
  match p with
  | IoDone o => need = [] /\ out = [] /\ acc o
  | IoRead r k => exists x n1 n2 m', need = n1 ++ n2 /\ reads_exactly r n1 x /\
      script (k (Ok x)) n2 out m' /\ (length n1 + 1 + m' <= m)%nat
  | IoWrite w k => exists bs rest m', w = (Ok tt, bs) /\ out = bs ++ rest /\
      script (k (Ok tt)) need rest m' /\ (length bs + 2 + m' <= m)%nat /\
      may_fail need rest (k (Err broken))
  end.

Definition task_script (t : task A) (need out : list Z) (m : nat) : Prop :=
  match t with
  | Run (IoRead r k) b => exists x n1 n2 m', need = n1 ++ n2 /\ reads_exactly r (b ++ n1) x /\
      script (k (Ok x)) n2 out m' /\ (length n1 + 1 + m' <= m)%nat
  | Run p b => b = [] /\ script p need out m
  | Flush o next failed b => b = [] /\ exists rest m', out = o ++ rest /\ script next need rest m' /\
      (length o + 1 + m' <= m)%nat /\ (o <> [] -> may_fail need rest failed)
  end.

Lemma run_script p need out m : script p need out m -> task_script (Run p []) need out m.
Proof. destruct p as [o|X r k|w k]; [by split|done|by split]. Qed.

Lemma over_script t need out m : task_script t need out m -> over t = true ->
  need = [] /\ out = [] /\ exists o, outcome t = Some o /\ acc o.
Proof.
  destruct t as [[o|X r k|w k] b|o next failed b]; try done.
  cbn. intros (_ & -> & -> & Ho) _. eauto.
Qed.

(** What a step does to a script: bytes move from [need] to the task and from
    [out] to the pipe, or the outgoing pipe is found broken. *)
Definition step_ok (reader_over : bool) (inp inp' need out emitted : list Z) (m : nat) (t' : task A) : Prop :=
  exists need' out' m', task_script t' need' out' m' /\ (m' < m)%nat /\
    ((exists taken, inp = taken ++ inp' /\ need = taken ++ need' /\ out = emitted ++ out') \/
     (reader_over = true /\ inp' = inp /\ need = [] /\ need' = [] /\ out' = [] /\ emitted = [])).

Lemma task_step_script t inp up (writer_over room reader_over : bool) need out m extra t' inp' emitted :
  task_script t need out m -> inp ++ up = need ++ extra -> (writer_over = true -> up = []) ->
  (reader_over = true -> (length out <= n)%nat) ->
  task_step t inp writer_over room reader_over = Some (t', inp', emitted) ->
  step_ok reader_over inp inp' need out emitted m t'.
Proof.
  intros Ht Hin Hw Hr. destruct t as [[o|X r k|w k] b|[|c o] next failed b]; cbn [task_step task_script] in *.
  - done.
  - destruct Ht as (x & n1 & n2 & m' & -> & [Hx Hmore] & Hs & Hm). destruct n1 as [|c n1].
    + rewrite app_nil_r in Hx. rewrite Hx. intros [= <- <- <-]. exists n2, out, m'.
      split_and!; [by apply run_script|cbn in Hm; lia|]. left. by exists [].
    + rewrite (Hmore b c n1 eq_refl). destruct inp as [|d inp].
      * destruct writer_over; [|done]. rewrite Hw in Hin by done. done.
      * injection Hin as -> Hin. intros [= <- <- <-]. exists (n1 ++ n2), out, (length n1 + 1 + m')%nat.
        split_and!; [|cbn in Hm; lia|left; by exists [c]].
        exists x, n1, n2, m'. split_and!; [done| |done|lia]. rewrite <- app_assoc. by split.
  - destruct Ht as (-> & bs & rest & m' & -> & -> & Hs & Hm & Hf). intros [= <- <- <-].
    exists need, (bs ++ rest), (length bs + 1 + m')%nat. split_and!; [|lia|left; by exists []].
    split; [done|]. exists rest, m'. split_and!; [done..|lia|]. by intros _.
  - destruct Ht as (-> & rest & m' & -> & Hs & Hm & Hf). intros [= <- <- <-].
    exists need, rest, m'. split_and!; [by apply run_script|cbn in Hm; lia|left; by exists []].
  - destruct Ht as (-> & rest & m' & -> & Hs & Hm & Hf). destruct reader_over; [|destruct room; [|done]].
    + intros [= <- <- <-]. cbn [app length] in *. rewrite length_app in Hr. specialize (Hr eq_refl).
      destruct (Hf ltac:(done) ltac:(lia)) as (-> & o' & -> & Ho). exists [], [], 0%nat.
      split_and!; [by split_and!|lia|by right].
    + intros [= <- <- <-]. exists need, (o ++ rest), (length o + 1 + m')%nat.
      split_and!; [|cbn in Hm; lia|left; by exists []]. split; [done|]. exists rest, m'.
      split_and!; [done..|lia|]. intros _. by apply Hf.
Qed.

Lemma task_stuck t inp (writer_over room reader_over : bool) need out m :
  task_script t need out m -> over t = false -> task_step t inp writer_over room reader_over = None ->
  (need <> [] /\ inp = [] /\ writer_over = false) \/ (out <> [] /\ room = false /\ reader_over = false).
Proof.
  intros Ht Ho. destruct t as [[o|X r k|w k] b|[|c o] next failed b]; cbn [task_step task_script] in *; try done.
  - destruct Ht as (x & [|c n1] & n2 & m' & -> & [Hx Hmore] & Hs & Hm).
    + rewrite app_nil_r in Hx. by rewrite Hx.
    + rewrite (Hmore b c n1 eq_refl). destruct inp; [|done]. destruct writer_over; [done|]. intros _. by left.
  - destruct Ht as (_ & rest & m' & -> & _). destruct reader_over; [done|]. destruct room; [done|]. by right.
Qed.

End script.

(** ** Every run of a scripted network *)

Section completion.
  Context {A B C : Type} (cap : nat) (n1 n2 : nat).
  Context (acc1 : result A -> Prop) (acc2 : result B -> Prop) (acc3 : result C -> Prop).

(** What a pipe still carries covers what its reader still needs, and little more. *)
Definition pipe_ok (n : nat) (pipe out need : list Z) : Prop :=
  exists extra, pipe ++ out = need ++ extra /\ (length extra <= n)%nat.

Definition on_script (net : network A B C) (m : nat) : Prop :=
  exists need2 need3 out1 out2 m1 m2 m3,
    task_script n1 acc1 (first net) [] out1 m1 /\ task_script n2 acc2 (second net) need2 out2 m2 /\
    task_script 0 acc3 (third net) need3 [] m3 /\
    pipe_ok n1 (pipe1 net) out1 need2 /\ pipe_ok n2 (pipe2 net) out2 need3 /\ (m1 + m2 + m3 <= m)%nat.

Definition completed (net : network A B C) : Prop :=
  exists a b c, outcome (first net) = Some a /\ outcome (second net) = Some b /\
    outcome (third net) = Some c /\ acc1 a /\ acc2 b /\ acc3 c.

Lemma pipe_ok_over n pipe out : pipe_ok n pipe out [] -> (length out <= n)%nat.
Proof. intros (ex & E & H). apply (f_equal length) in E. rewrite length_app in E. cbn in E. lia. Qed.

Lemma pipe_ok_emit n pipe emitted out need :
  pipe_ok n pipe (emitted ++ out) need -> pipe_ok n (pipe ++ emitted) out need.
Proof. intros (ex & E & H). exists ex. by rewrite <- app_assoc. Qed.
Lemma pipe_ok_take n taken pipe out need :
  pipe_ok n (taken ++ pipe) out (taken ++ need) -> pipe_ok n pipe out need.
Proof. intros (ex & E & H). exists ex. split; [|done]. rewrite <- !app_assoc in E. by apply app_inv_head in E. Qed.
Lemma pipe_ok_lost n pipe out : pipe_ok n pipe out [] -> pipe_ok n pipe [] [].
Proof.
  intros (ex & E & H). exists pipe. split; [by rewrite app_nil_r|]. apply (f_equal length) in E.
  rewrite length_app in E. cbn in E. lia.
Qed.

Lemma net_step_on_script net net' m :
  on_script net m -> net_step cap net net' -> exists m', (m' < m)%nat /\ on_script net' m'.
Proof.
  intros (need2 & need3 & out1 & out2 & m1 & m2 & m3 & T1 & T2 & T3 & P1 & P2 & Hm) Hstep.
  assert (O2 : over (second net) = true -> need2 = [] /\ out2 = [])
    by (intros Ho; by destruct (over_script _ _ _ _ _ _ T2 Ho) as (? & ? & _)).
  assert (O3 : over (third net) = true -> need3 = [])
    by (intros Ho; by destruct (over_script _ _ _ _ _ _ T3 Ho) as (? & _)).
  assert (O1 : over (first net) = true -> out1 = [])
    by (intros Ho; by destruct (over_script _ _ _ _ _ _ T1 Ho) as (_ & ? & _)).
  destruct Hstep as [H|[H|H]]; unfold step1, step2, step3 in H;
    destruct (task_step _ _ _ _ _) as [[[t inp] out]|] eqn:E; try done; injection H as <-.
  - apply (task_step_script n1 acc1 _ [] [] _ _ _ [] out1 m1 [] t inp out T1) in E; [|done..|].
    2: { intros Ho. apply O2 in Ho as [-> _]. by eapply pipe_ok_over. }
    destruct E as (need' & out' & m' & Ht & Hlt & Hcase). exists (m' + m2 + m3)%nat. split; [lia|].
    destruct Hcase as [(tk & _ & Hn & ->)|(Ho & _ & _ & -> & -> & ->)].
    + symmetry in Hn. apply app_eq_nil in Hn as [-> ->]. exists need2, need3, out', out2, m', m2, m3.
      split_and!; try done. by apply pipe_ok_emit.
    + apply O2 in Ho as [-> ->]. exists [], need3, [], [], m', m2, m3. split_and!; try done.
      rewrite app_nil_r. by eapply pipe_ok_lost.
  - pose proof P1 as (ex & E1 & Hex).
    apply (task_step_script n2 acc2 _ _ out1 _ _ _ need2 out2 m2 ex t inp out T2 E1 O1) in E.
    2: { intros Ho. apply O3 in Ho as ->. by eapply pipe_ok_over. }
    destruct E as (need' & out' & m' & Ht & Hlt & Hcase). exists (m1 + m' + m3)%nat. split; [lia|].
    destruct Hcase as [(tk & Hi & -> & ->)|(Ho & -> & -> & -> & -> & ->)].
    + exists need', need3, out1, out', m1, m', m3. split_and!; try done.
      * apply (pipe_ok_take _ tk). by rewrite Hi in P1.
      * by apply pipe_ok_emit.
    + apply O3 in Ho as ->. exists [], [], out1, [], m1, m', m3. split_and!; try done.
      rewrite app_nil_r. by eapply pipe_ok_lost.
  - pose proof P2 as (ex & E2 & Hex).
    apply (task_step_script 0 acc3 _ _ out2 _ _ _ need3 [] m3 ex t inp out T3 E2) in E; [|intros Ho; by destruct (O2 Ho)|done].
    destruct E as (need' & out' & m' & Ht & Hlt & Hcase). exists (m1 + m2 + m')%nat. split; [lia|].
    destruct Hcase as [(tk & Hi & -> & Ho)|(_ & -> & -> & -> & -> & ->)].
    + symmetry in Ho. apply app_eq_nil in Ho as [-> ->]. exists need2, need', out1, out2, m1, m2, m'.
      split_and!; try done. apply (pipe_ok_take _ tk). by rewrite Hi in P2.
    + by exists need2, [], out1, out2, m1, m2, m'.
Qed.

Lemma net_progress net m : (0 < cap)%nat -> on_script net m ->
  (over (first net) && over (second net) && over (third net) = true) \/ exists net', net_step cap net net'.
Proof.
  intros Hcap (need2 & need3 & out1 & out2 & m1 & m2 & m3 & T1 & T2 & T3 & P1 & P2 & Hm).
  unfold net_step, step1, step2, step3.
  destruct (task_step (first net) [] true (room cap (pipe1 net)) (over (second net))) as [[[t inp] out]|] eqn:E1;
    [right; eexists; by left|].
  destruct (task_step (second net) (pipe1 net) (over (first net)) (room cap (pipe2 net)) (over (third net)))
    as [[[t inp] out]|] eqn:E2; [right; eexists; right; by left|].
  destruct (task_step (third net) (pipe2 net) (over (second net)) false true) as [[[t inp] out]|] eqn:E3;
    [right; eexists; right; by right|]. left.
  assert (Hroom : forall q, q = [] -> room cap q = true) by (intros q ->; by apply Nat.ltb_lt).
  destruct (over (third net)) eqn:O3.
  2: { apply (task_stuck _ _ _ _ _ _ _ _ _ _ T3 O3) in E3 as [(H & Hq & O2)|(H & _)]; [|done].
       apply (task_stuck _ _ _ _ _ _ _ _ _ _ T2 O2) in E2 as [(H' & Hq' & O1)|(_ & Hr & _)];
         [|by rewrite Hroom in Hr].
       apply (task_stuck _ _ _ _ _ _ _ _ _ _ T1 O1) in E1 as [(? & _)|(_ & Hr & _)]; [done|].
       by rewrite Hroom in Hr. }
  destruct (over (second net)) eqn:O2.
  2: { apply (task_stuck _ _ _ _ _ _ _ _ _ _ T2 O2) in E2 as [(H' & Hq' & O1)|(_ & _ & ?)]; [|done].
       apply (task_stuck _ _ _ _ _ _ _ _ _ _ T1 O1) in E1 as [(? & _)|(_ & Hr & _)]; [done|].
       by rewrite Hroom in Hr. }
  destruct (over (first net)) eqn:O1; [done|].
  apply (task_stuck _ _ _ _ _ _ _ _ _ _ T1 O1) in E1 as [(? & _)|(_ & _ & ?)]; done.
Qed.

Lemma on_script_completes net m : (0 < cap)%nat -> on_script net m -> eventually cap completed net.
Proof.
  intros Hcap. revert net. induction m as [m IH] using lt_wf_ind. intros net Hnet.
  destruct (net_progress net m Hcap Hnet) as [Ho|[net' Hs]].
  - apply ev_now. apply andb_prop in Ho as [[O1 O2]%andb_prop O3].
    destruct Hnet as (need2 & need3 & out1 & out2 & m1 & m2 & m3 & T1 & T2 & T3 & _).
    destruct (over_script _ _ _ _ _ _ T1 O1) as (_ & _ & a & Ha & ?).
    destruct (over_script _ _ _ _ _ _ T2 O2) as (_ & _ & b & Hb & ?).
    destruct (over_script _ _ _ _ _ _ T3 O3) as (_ & _ & c & Hc & ?). by exists a, b, c.
  - apply ev_later; [by exists net'|]. intros net'' Hs'.
    destruct (net_step_on_script net net'' m Hnet Hs') as (m' & Hm' & Hn'). by apply (IH m').
Qed.

(** Scripts that fit together run to completion, whatever the schedule and the
    capacity of the pipes. *)
Lemma network_completes a b c need3 extra1 extra2 out1 out2 need2 m1 m2 m3 :
  (0 < cap)%nat ->
  script n1 acc1 a [] out1 m1 -> script n2 acc2 b need2 out2 m2 -> script 0 acc3 c need3 [] m3 ->
  out1 = need2 ++ extra1 -> out2 = need3 ++ extra2 ->
  (length extra1 <= n1)%nat -> (length extra2 <= n2)%nat ->
  eventually cap completed (start a b c).
Proof.
  intros Hcap S1 S2 S3 -> -> H1 H2. apply (on_script_completes _ (m1 + m2 + m3)); [done|].
  exists need2, need3, (need2 ++ extra1), (need3 ++ extra2), m1, m2, m3. cbn [start first second third pipe1 pipe2].
  split_and!; [by apply run_script..| | |done]; [exists extra1|exists extra2]; done.
Qed.

End completion.
