(* ===== verification/Transfer.v ===== *)
(** The three roles of a file's transfer ([ferrosync-engine/src/generator.rs],
    [sender.rs], [receiver.rs]): signatures of the basis, tokens for the
    source, and the reconstruction of the source from both. *)
From S2P Require Import Prelude Wire Types Varint Checksum Sum Matcher Compress Token Proc Pipes.

(** ** receiver.rs: the geometry of the basis *)

Definition basis_block_count (basis : list Z) (blength : Z) : Z :=
  let n := Z.of_nat (length basis) in
  if (0 <? blength) && negb (bool_decide (basis = [])) then (n + blength - 1) / blength else 0.
Definition basis_remainder (basis : list Z) (blength : Z) : Z :=
  let n := Z.of_nat (length basis) in
  if (0 <? blength) && negb (bool_decide (basis = [])) && negb (n mod blength =? 0)
  then n mod blength else blength.

(** The arm [Token::BlockMatch(idx)]: the slice of the basis, [None] when the
    offset is behind its end.  [idx as usize] of a negative [i32] is huge. *)
Definition block_slice (basis : list Z) (blength idx : Z) : result (option (list Z)) :=
  let block_count := basis_block_count basis blength in
  let remainder := basis_remainder basis blength in
  let idx := as_u64 idx in
  if block_count <=? idx then
    Err (WireValueOutOfRange "block_index" (as_i64 idx) (Z.max 0 (block_count - 1)))
  else
    let offset := idx * blength in
    if 2 ^ 64 <=? offset then Err (WireValueOutOfRange "block_offset" (as_i64 idx) (2 ^ 63 - 1))
    else
      let len := if (0 <? block_count) && (idx =? block_count - 1) && (0 <? remainder) && (remainder <? blength)
                 then remainder else blength in
      let end_ := Z.min (as_u64 (offset + len)) (Z.of_nat (length basis)) in
      if offset <? Z.of_nat (length basis) then s ← slice basis offset end_; mret (Some s)
      else Ok None.

(** [hex_encode] *)
Definition nibble (d : Z) : string :=
  String (Ascii.ascii_of_N (Z.to_N (if d <? 10 then 48 + d else 87 + d))) EmptyString.
Definition hex_encode (bytes : list Z) : string :=
  foldl (fun s b => s +:+ nibble (b / 16) +:+ nibble (b mod 16)) EmptyString bytes.

(** Rounds of the token loop.  A token that takes no byte off the stream is the
    next block of a run, and its index must be below the number of blocks, so
    there are at most that many between two bytes ([round_measure]). *)
Definition token_rounds (basis : list Z) (blength : Z) (available : nat) : nat :=
  S ((available + 1) * (Z.to_nat (basis_block_count basis blength) + 2)).

Section roles.
  Context (H : HashLib).

(** ** receiver.rs *)

Definition recv_file_index : rd (option Z) :=
  idx ← read_int;
  mret (if idx =? -1 then None else Some idx).

Section receiver.
  Context {R : Type} `{TokenReaderT R}.

(** One token: [part] is what is done with the bytes it stands for. *)
Definition token_round {St} (part : list Z -> St -> St) (basis : list Z) (blength : Z) (s : St * R)
    : rd (St * R + St * R) :=
  p ← tr_read_token s.2;
  match p.1 with
  | TData data => mret (inl (part data s.1, p.2))
  | TBlockMatch idx =>
      d ← rd_lift (block_slice basis blength idx);
      mret (inl (match d with Some d => part d s.1 | None => s.1 end, p.2))
  | TEndOfFile => mret (inr (s.1, p.2))
  end.

Definition extend (d output : list Z) : list Z := output ++ d.

(** The file and the reader, which the caller goes on using. *)
Definition recv_file_delta_with (reader : R) (basis : list Z) (blength : Z) (ctx : ProtocolContext)
    : rd (list Z * R) :=
  q ← rd_while_within (token_rounds basis blength) (token_round extend basis blength) ([], reader);
  received ← read_exact (Z.of_nat (ChecksumType.digest_len (ctx_checksum_type ctx)));
  let computed := file_checksum H q.1 ctx in
  if bool_decide (received = computed) then mret q
  else rd_err (ChecksumMismatch (hex_encode received) (hex_encode computed)).

(** What the incremental receiver has done so far: the bytes its writer took
    (a writer that never fails), the checksum, the count. *)
Record written := mkWritten {
  wt_out : list Z;
  wt_hasher : IncrementalChecksum H;
  wt_bytes : Z;
}.
Definition write_part (d : list Z) (w : written) : written :=
  mkWritten (wt_out w ++ d) (inc_update H (wt_hasher w) d) (as_u64 (wt_bytes w + Z.of_nat (length d))).

Definition recv_file_delta_to_writer_with (reader : R) (basis : list Z) (blength : Z) (ctx : ProtocolContext)
    : rd (Z * list Z * R) :=
  let w := mkWritten [] (IncrementalChecksum_new H (ctx_checksum_type ctx)) 0 in
  q ← rd_while_within (token_rounds basis blength) (token_round write_part basis blength) (w, reader);
  received ← read_exact (Z.of_nat (ChecksumType.digest_len (ctx_checksum_type ctx)));
  let computed := inc_finalize H (wt_hasher q.1) in
  if bool_decide (received = computed) then mret (wt_bytes q.1, wt_out q.1, q.2)
  else rd_err (ChecksumMismatch (hex_encode received) (hex_encode computed)).

End receiver.

Definition recv_file_delta (basis : list Z) (blength : Z) (ctx : ProtocolContext) : rd (list Z) :=
  q ← recv_file_delta_with mkPlainReader basis blength ctx; mret q.1.
Definition recv_file_delta_compressed (C : Compression) (basis : list Z) (blength : Z) (ctx : ProtocolContext)
    (d : decomp C) : rd (list Z) :=
  q ← recv_file_delta_with (CompressedTokenReader_new C d) basis blength ctx; mret q.1.
Definition recv_file_delta_to_writer (basis : list Z) (blength : Z) (ctx : ProtocolContext) : rd (Z * list Z) :=
  q ← recv_file_delta_to_writer_with mkPlainReader basis blength ctx; mret q.1.
Definition recv_file_delta_compressed_to_writer (C : Compression) (basis : list Z) (blength : Z)
    (ctx : ProtocolContext) (d : decomp C) : rd (Z * list Z) :=
  q ← recv_file_delta_to_writer_with (CompressedTokenReader_new C d) basis blength ctx; mret q.1.

(** ** generator.rs *)

Definition send_file_signatures (file_index : Z) (basis : list Z) (ctx : ProtocolContext) : wr unit :=
  _ ← write_int file_index;
  sums ← wr_lift (compute_signatures H basis ctx);
  write_sums sums.
Definition send_generator_done : wr unit := write_int (-1).
(** [generator::recv_file_index] and [receiver::recv_file_index] are the same. *)
Definition recv_file_signatures : rd SumStruct := read_sums.

(** ** sender.rs *)

Definition write_tokens_and_checksum {T} `{TokenWriter T} (writer : T) (ops : list DiffOp) (source : list Z)
    (s : SumStruct) (ctx : ProtocolContext) : wr T :=
  let blength := as_u32 (blength (head s)) in
  writer ← write_diffops writer ops blength;
  writer ← tw_write_eof writer;
  _ ← write_all (file_checksum H source ctx);
  mret writer.

Definition send_file_delta_with_sums (file_index : Z) (source : list Z) (s : SumStruct) (ctx : ProtocolContext)
    : wr unit :=
  let ops := match_blocks H source s ctx in
  _ ← write_int file_index;
  _ ← write_tokens_and_checksum mkPlainWriter ops source s ctx;
  mret tt.

(** The signatures come from one stream, the tokens go to another. *)
Definition send_file_delta (file_index : Z) (source : list Z) (ctx : ProtocolContext) : io unit :=
  s ← io_read read_sums;
  io_write (send_file_delta_with_sums file_index source s ctx).

Definition send_file_delta_compressed (C : Compression) (file_index : Z) (source : list Z) (ctx : ProtocolContext)
    (c : comp C) : io unit :=
  s ← io_read read_sums;
  io_write (
    let ops := match_blocks H source s ctx in
    _ ← write_int file_index;
    _ ← write_tokens_and_checksum (CompressedTokenWriter_new C c) ops source s ctx;
    mret tt).

Definition send_sender_done : wr unit := write_int (-1).

(** The loop of [send_file_delta_streaming]; the fuel is enough for one round
    per byte and two more ([streaming_transfer]). *)
Fixpoint stream_send {T} `{TokenWriter T} (fuel : nat) (m : StreamingMatcher) (reader : list Z)
    (file_hash : IncrementalChecksum H) (writer : T) (blength : Z) : wr (IncrementalChecksum H * T) :=
  match fuel with
  | O => wr_lift Panic
  | S fuel' =>
      let '(ops, done, m, reader, file_hash) := process_chunk H m reader file_hash in
      writer ← write_diffops writer ops blength;
      if done : bool then mret (file_hash, writer)
      else stream_send fuel' m reader file_hash writer blength
  end.

Definition send_file_delta_streaming (file_index : Z) (reader : list Z) (s : SumStruct) (ctx : ProtocolContext)
    (chunk_size : nat) : wr unit :=
  let blength := as_u32 (blength (head s)) in
  _ ← write_int file_index;
  q ← stream_send (S (S (length reader))) (StreamingMatcher_new s ctx chunk_size) reader
        (IncrementalChecksum_new H (ctx_checksum_type ctx)) mkPlainWriter blength;
  _ ← tw_write_eof q.2;
  write_all (inc_finalize H q.1).

End roles.

(** ** Readers whose loop comes to an end

    A token that takes no byte off the stream continues a run of blocks. *)
Class PacedReader (R : Type) `{TokenReaderT R} := {
  last_block : R -> Z;
  last_block_range r : - 2 ^ 31 <= last_block r < 2 ^ 31;
  tr_paced r i t r' k : tr_read_token r i = Ok ((t, r'), k) ->
    (length k < length i)%nat \/
    (length k = length i /\ t = TBlockMatch (last_block r') /\
     (last_block r' = last_block r + 1 \/ last_block r' < 0));
  tr_resumable r : resumable (tr_read_token r);
}.

#[export] Program Instance plain_paced : PacedReader PlainTokenReader := {
  last_block := fun _ => 0;
}.
Next Obligation. intros r. cbn. lia. Qed.
Next Obligation.
  intros r i t r' k E. left. cbn [tr_read_token plain_reader] in E.
  assert (Ht : takes 1 (t ← recv_token; mret (t, r))); [|by apply Ht in E].
  apply takes_bind; [|intros ?; apply takes_ret]. unfold recv_token.
  apply takes_bind; [|intros ?; solve_takes]. unfold read_int. apply takes_bind; [|intros ?; apply takes_ret].
  intros j a k' Ej. apply (takes_exact 4) in Ej. lia.
Qed.
Next Obligation. intros r. cbn [tr_read_token plain_reader]. unfold recv_token, read_int. resume. Qed.

(** One round of the loop of [recv_compressed], as a body of [rd_loop]. *)
Definition frame_round (C : Compression) (dtype : CompressorType) (st : CompressedTokenReader C)
    : rd (CompressedTokenReader C + Token * CompressedTokenReader C) :=
  match rstate st with
  | RInit => d ← rd_lift (decomp_reset C (decompressor st)); mret (inl (mkTokenReader d 0 (rx_run st) RIdle))
  | RRunning =>
      let token := as_i32 (rx_token st + 1) in
      let run := as_i32 (rx_run st - 1) in
      mret (inr (TBlockMatch token, mkTokenReader (decompressor st) token run (if run =? 0 then RIdle else RRunning)))
  | RIdle =>
      flag ← read_byte;
      if Z.land flag 0xC0 =? DEFLATED_DATA then
        b ← read_byte;
        let n := (Z.land flag 0x3F ≪ 8) + b in
        if n =? 0 then mret (inl st)
        else if MAX_DATA_COUNT <? n then rd_err (WireValueOutOfRange "compressed_data_len" n MAX_DATA_COUNT)
        else
          compressed ← read_exact n;
          p ← rd_lift (decomp_decompress C (decompressor st) (maybe_append_trailer compressed dtype) DATA_CHUNK_SIZE);
          let st := mkTokenReader p.2 (rx_token st) (rx_run st) (rstate st) in
          if negb (bool_decide (p.1 = [])) then mret (inr (TData p.1, st)) else mret (inl st)
      else if flag =? END_FLAG then
        mret (inr (TEndOfFile, mkTokenReader (decompressor st) (rx_token st) (rx_run st) RInit))
      else p ← recv_block_match C flag st; mret (inr p)
  end.

Lemma recv_loop_rounds C t f st i : recv_loop C t f st i = rd_loop (frame_round C t) f st i.
Proof.
  revert st i. induction f as [|f IH]; intros st i; [done|]. rewrite rd_loop_step. cbn [recv_loop].
  unfold frame_round at 1. unfold mbind, rd_bind, rd_lift, mret, rd_ret. destruct (rstate st).
  - destruct (decomp_reset C (decompressor st)); [apply IH|done..].
  - destruct (read_byte i) as [[flag k]| |]; [|done..].
    destruct (Z.land flag 0xC0 =? DEFLATED_DATA).
    + destruct (read_byte k) as [[b k2]| |]; [|done..]. cbv zeta.
      destruct (_ =? 0); [apply IH|]. destruct (MAX_DATA_COUNT <? _); [done|].
      destruct (read_exact _ k2) as [[buf k3]| |]; [|done..].
      destruct (decomp_decompress _ _ _ _) as [[dd d']| |]; [|done..]. cbn [fst snd].
      destruct (negb _); [done|apply IH].
    + destruct (flag =? END_FLAG); [done|]. by destruct (recv_block_match C flag st k) as [[p k']| |].
  - done.
Qed.

Definition frame_measure {C} (st : CompressedTokenReader C) (n : nat) : nat :=
  match rstate st with RInit => S n | _ => n end.

Lemma takes_read_byte : takes 1 read_byte.
Proof. unfold read_byte. apply takes_bind; [apply (takes_exact 1)|intros; apply takes_ret]. Qed.

Lemma takes_recv_block_match C flag st : takes 0 (recv_block_match C flag st).
Proof.
  pose proof (takes_weaken _ _ takes_read_byte). unfold recv_block_match, read_int. solve_takes.
Qed.

Lemma frame_idle_takes C t st : rstate st = RIdle -> takes 1 (frame_round C t st).
Proof.
  intros Hst. unfold frame_round. rewrite Hst. apply takes_bind; [apply takes_read_byte|]. intros flag.
  pose proof (takes_weaken _ _ takes_read_byte). pose proof (takes_recv_block_match C flag st). solve_takes.
Qed.

Lemma frame_measure_ok C t s i s' i' :
  frame_round C t s i = Ok (inl s', i') -> (frame_measure s' (length i') < frame_measure s (length i))%nat.
Proof.
  unfold frame_measure. destruct (rstate s) eqn:Es.
  - unfold frame_round. rewrite Es. unfold mbind, rd_bind, rd_lift, mret, rd_ret. destruct (decomp_reset _ _); [|done..].
    intros [= <- <-]. cbn [rstate]. lia.
  - intros E. pose proof (frame_idle_takes C t s Es _ _ _ E). enough (rstate s' = RIdle) as -> by lia.
    unfold frame_round in E. rewrite Es in E. unfold mbind, rd_bind, rd_lift, mret, rd_ret in E.
    repeat case_match; simplify_eq; try done.
  - unfold frame_round. rewrite Es. done.
Qed.

Lemma frame_paced C t f st i tk st' k : rd_loop (frame_round C t) f st i = Ok ((tk, st'), k) ->
  (length k < length i)%nat \/
  (rstate st = RRunning /\ k = i /\ tk = TBlockMatch (rx_token st') /\ rx_token st' = as_i32 (rx_token st + 1)).
Proof.
  revert st i. induction f as [|f IH]; intros st i; [done|]. cbn [rd_loop]. unfold mbind at 1, rd_bind at 1.
  destruct (frame_round C t st i) as [[[s'|a] i']| |] eqn:E; [..|done|done].
  - intros Hl. pose proof (IH _ _ Hl) as Hc. left. destruct (rstate st) eqn:Es.
    + unfold frame_round in E. rewrite Es in E. unfold mbind, rd_bind, rd_lift, mret, rd_ret in E.
      destruct (decomp_reset _ _); [|done..]. injection E as <- <-. by destruct Hc as [|[? _]].
    + pose proof (frame_idle_takes C t st Es _ _ _ E). destruct Hc as [|(_ & -> & _)]; lia.
    + unfold frame_round in E. by rewrite Es in E.
  - intros [= -> <-]. destruct (rstate st) eqn:Es.
    + unfold frame_round in E. rewrite Es in E. unfold mbind, rd_bind, rd_lift, mret, rd_ret in E. by destruct (decomp_reset _ _).
    + pose proof (frame_idle_takes C t st Es _ _ _ E). left. lia.
    + right. unfold frame_round in E. rewrite Es in E. by injection E as <- <- <-.
Qed.

Lemma resumable_frame C t st : resumable (frame_round C t st).
Proof. unfold frame_round, recv_block_match, read_int, read_byte. resume. Qed.

#[export] Program Instance compressed_paced (C : Compression) : PacedReader (CompressedTokenReader C) := {
  last_block := fun r => as_i32 (rx_token r);
}.
Next Obligation. intros C r. apply (swrap_range 32). lia. Qed.
Next Obligation.
  intros C r i t r' k E. cbn [tr_read_token compressed_reader] in E. unfold recv_compressed in E.
  rewrite recv_loop_rounds in E. apply frame_paced in E as [?|(_ & -> & -> & E)]; [by left|]. right.
  split; [done|]. pose proof (swrap_range 32 (rx_token r + 1)). pose proof (swrap_range 32 (rx_token r)).
  assert (Hid : as_i32 (rx_token r') = rx_token r') by (apply (swrap_id 32); lia).
  rewrite Hid. split; [done|]. rewrite E, <- swrap_add_l by lia.
  destruct (decide (as_i32 (rx_token r) = 2 ^ 31 - 1)) as [->|Hm].
  - right. vm_compute. done.
  - left. apply (swrap_id 32); lia.
Qed.
Next Obligation.
  intros C r i x. cbn [tr_read_token compressed_reader]. unfold recv_compressed.
  pose proof (resumable_loop (fun n => (n + 2)%nat) (frame_round C (decomp_type C (decompressor r))) frame_measure r
    (resumable_frame C _) (frame_measure_ok C _) ltac:(intros n; unfold frame_measure; case_match; lia) i x) as Hr.
  unfold rd_while_within in Hr. rewrite !recv_loop_rounds. exact Hr.
Qed.

(** ** The token loop *)

Lemma as_u64_i32 j : j < 0 -> - 2 ^ 63 <= j -> 2 ^ 63 <= as_u64 j.
Proof. intros H1 H2. unfold wrap. rewrite <- (Z_mod_plus_full j 1), Z.mod_small; lia. Qed.

Section basis.
  Context (basis : list Z) (blength : Z) (Hmem : Z.of_nat (length basis) < 2 ^ 63) (Hb : blength < 2 ^ 63).

Lemma block_count_range : 0 <= basis_block_count basis blength <= Z.of_nat (length basis) /\
  (0 < basis_block_count basis blength -> 0 < blength /\
   (basis_block_count basis blength - 1) * blength < Z.of_nat (length basis)).
Proof.
  unfold basis_block_count. destruct (Z.ltb_spec 0 blength); [|cbn; lia]. cbn [andb].
  destruct (bool_decide_reflect (basis = [])) as [->|Hne]; [cbn; lia|]. cbn [negb].
  assert (0 < Z.of_nat (length basis)) by (destruct basis; [done|cbn; lia]).
  assert (E : (Z.of_nat (length basis) + blength - 1) / blength - 1 = (Z.of_nat (length basis) - 1) / blength).
  { replace (Z.of_nat (length basis) + blength - 1) with (Z.of_nat (length basis) - 1 + 1 * blength) by ring.
    rewrite Z_div_plus_full by lia. ring. }
  pose proof (Z.mul_div_le (Z.of_nat (length basis) - 1) blength ltac:(lia)).
  pose proof (Z.div_pos (Z.of_nat (length basis) - 1) blength ltac:(lia) ltac:(lia)).
  split; [|intros _; split; nia].
  assert ((Z.of_nat (length basis) - 1) / blength <= Z.of_nat (length basis) - 1) by (apply Z.div_le_upper_bound; nia).
  lia.
Qed.

(** Only indices of the basis get through, and no slice is out of range. *)
Lemma block_slice_cases idx :
  match block_slice basis blength idx with
  | Ok _ => 0 <= as_u64 idx < basis_block_count basis blength
  | Err _ => True
  | Panic => False
  end.
Proof.
  destruct block_count_range as [Hc Hpos]. unfold block_slice. cbv zeta.
  destruct (Z.leb_spec (basis_block_count basis blength) (as_u64 idx)); [done|].
  pose proof (wrap_range 64 idx ltac:(lia)) as Hi. destruct Hpos as [Hb0 Hlast]; [lia|].
  destruct (Z.leb_spec (2 ^ 64) (as_u64 idx * blength)); [done|].
  match goal with |- context [as_u64 (_ + ?l)] => set (len := l) end. assert (Hlen : 0 <= len <= blength).
  { subst len. match goal with |- context [if ?c then _ else _] => destruct c eqn:E end; [|lia]. zbool. lia. }
  destruct (Z.ltb_spec (as_u64 idx * blength) (Z.of_nat (length basis))); [|lia].
  rewrite (wrap_id 64 (_ + len)) by nia. unfold slice.
  destruct (Z.leb_spec (as_u64 idx * blength) (Z.min (as_u64 idx * blength + len) (Z.of_nat (length basis)))); [|nia].
  destruct (Z.leb_spec (Z.min (as_u64 idx * blength + len) (Z.of_nat (length basis))) (Z.of_nat (length basis))); [|lia].
  cbn. lia.
Qed.

Section loop.
  Context {R : Type} `{PacedReader R} {St : Type} (part : list Z -> St -> St).

Definition block_room (r : R) : nat :=
  Z.to_nat (Z.min (basis_block_count basis blength + 1) (Z.max 0 (basis_block_count basis blength - last_block r))).
Definition round_measure (s : St * R) (available : nat) : nat :=
  (available * (Z.to_nat (basis_block_count basis blength) + 2) + block_room s.2)%nat.

Lemma round_measure_ok s i s' i' :
  token_round part basis blength s i = Ok (inl s', i') ->
  (round_measure s' (length i') < round_measure s (length i))%nat.
Proof.
  unfold token_round. unfold mbind at 1, rd_bind at 1.
  destruct (tr_read_token s.2 i) as [[[t r] k]| |] eqn:E; [|done..]. cbn [fst snd].
  pose proof block_count_range as [Hc _]. assert (Hroom : forall r, (block_room r < Z.to_nat (basis_block_count basis blength) + 2)%nat)
    by (intros r'; unfold block_room; lia).
  apply tr_paced in E as [Hlt|(Hlen & -> & Hnext)].
  - unfold mbind, rd_bind, rd_lift, mret, rd_ret. intros Hround. assert (Hs : s'.2 = r /\ i' = k).
    { destruct t as [d|j|]; [by simplify_eq| |done]. destruct (block_slice _ _ _); by simplify_eq. }
    destruct Hs as [Hs ->]. unfold round_measure. rewrite Hs. pose proof (Hroom r). nia.
  - unfold mbind, rd_bind, rd_lift, mret, rd_ret. pose proof (block_slice_cases (last_block r)) as Hj.
    destruct (block_slice _ _ _) as [d| |]; [|done..]. intros [= <- <-].
    unfold round_measure, block_room. cbn [snd]. rewrite Hlen. pose proof (last_block_range r) as Hr.
    destruct (decide (last_block r < 0)) as [Hneg|]; [pose proof (as_u64_i32 _ Hneg); lia|].
    rewrite (wrap_id 64) in Hj by lia. lia.
Qed.

(** What the tokens of a file stand for. *)
Definition piece (t : Token) : option (list Z) :=
  match t with
  | TData d => Some d
  | TBlockMatch j => match block_slice basis blength j with Ok d => d | _ => None end
  | TEndOfFile => None
  end.
Definition item_bytes (it : item) : list Z :=
  match it with
  | IByte b => [b]
  | IBlock j => match piece (TBlockMatch j) with Some d => d | None => [] end
  | IEnd => []
  end.

Lemma concat_bytes d : concat (map item_bytes (map IByte d)) = d.
Proof. induction d as [|b d IH]; [done|]. cbn. by rewrite IH. Qed.

Lemma pieces_of_items ts :
  Forall (fun it => match it with IByte _ => True | IBlock j => is_Some (piece (TBlockMatch j)) | IEnd => False end) (items ts) ->
  exists ps, mapM piece ts = Some ps /\ concat ps = concat (map item_bytes (items ts)).
Proof.
  induction ts as [|t ts IH]; [by exists []|]. unfold items. cbn [map concat]. fold (items ts).
  intros [Ht Hts]%Forall_app. destruct (IH Hts) as (ps & Hps & Hc).
  assert (Hd : exists d, piece t = Some d /\ d = concat (map item_bytes (token_items t))).
  { destruct t as [d|j|]; cbn [token_items] in Ht.
    - exists d. split; [done|]. symmetry. apply concat_bytes.
    - assert (is_Some (piece (TBlockMatch j))) as [d Hd] by (by inversion Ht). exists d. split; [done|]. cbn [token_items map concat item_bytes].
      by rewrite Hd, app_nil_r.
    - by inversion_clear Ht. }
  destruct Hd as (d & Hd & ->). eexists (_ :: ps). cbn [mapM]. rewrite Hd. cbn [mbind option_bind]. rewrite Hps.
  split; [done|]. by rewrite map_app, concat_app, <- Hc.
Qed.

Lemma token_loop_run r bs ts r' ps s k (f : nat) :
  reads r bs (ts ++ [TEndOfFile]) r' -> mapM piece ts = Some ps -> (length ts < f)%nat ->
  rd_loop (token_round part basis blength) f (s, r) (bs ++ k) = Ok ((foldl (fun s d => part d s) s ps, r'), k).
Proof.
  revert r bs ps s f. induction ts as [|t ts IH]; intros r bs ps s [|f] Hr Hps Hf; [lia| |cbn in Hf; lia|].
  - inversion Hr as [|? bs1 t1 r1 bs2 ts1 r2 Hstep Hrest]; subst. inversion Hrest; subst. rewrite app_nil_r.
    injection Hps as <-. rewrite rd_loop_step. unfold token_round. cbn [fst snd]. by erewrite rd_bind_run by apply Hstep.
  - cbn [app] in Hr. inversion Hr as [|? bs1 t1 r1 bs2 ts1 r2 Hstep Hrest]; subst. cbn [mapM] in Hps.
    destruct (piece t) as [d|] eqn:Ed; [|done]. cbn [mbind option_bind] in Hps.
    destruct (mapM piece ts) as [ps'|] eqn:Eps; [|done]. injection Hps as <-.
    rewrite rd_loop_step, <- app_assoc. unfold token_round at 1. cbn [fst snd].
    erewrite rd_bind_run by apply Hstep. cbn [fst snd]. cbn [foldl].
    specialize (IH r1 bs2 ps' (part d s) f Hrest eq_refl ltac:(cbn in Hf; lia)).
    destruct t as [d'|j|]; cbn [piece] in Ed.
    + by simplify_eq.
    + destruct (block_slice basis blength j) as [x| |] eqn:Ej; [|done..]. subst x. unfold mbind, rd_bind, rd_lift. done.
    + done.
Qed.

Lemma token_rounds_enough s available : (round_measure s available < token_rounds basis blength available)%nat.
Proof.
  unfold round_measure, token_rounds, block_room. pose proof block_count_range as [Hc _].
  match goal with |- context [Z.to_nat (Z.min ?a ?b)] => assert (Z.to_nat (Z.min a b) <= Z.to_nat (basis_block_count basis blength) + 1)%nat by lia end.
  nia.
Qed.

Lemma token_loop_reads r bs ts r' ps s k :
  reads r bs (ts ++ [TEndOfFile]) r' -> mapM piece ts = Some ps ->
  rd_while_within (token_rounds basis blength) (token_round part basis blength) (s, r) (bs ++ k) =
    Ok ((foldl (fun s d => part d s) s ps, r'), k).
Proof.
  intros Hr Hps. unfold rd_while_within.
  rewrite (rd_loop_fuel _ round_measure round_measure_ok _
    (token_rounds basis blength (length (bs ++ k)) + S (length ts))%nat);
    [|apply token_rounds_enough|pose proof (token_rounds_enough (s, r) (length (bs ++ k))); lia].
  eapply token_loop_run; [exact Hr|exact Hps|lia].
Qed.

Lemma resumable_tokens s : resumable (rd_while_within (token_rounds basis blength) (token_round part basis blength) s).
Proof.
  apply (resumable_loop _ _ round_measure); [|apply round_measure_ok|apply token_rounds_enough].
  intros [x r]. unfold token_round. apply resumable_bind; [apply tr_resumable|]. intros [[d|j|] r1]; resume.
Qed.

End loop.
End basis.

(** ** Copies are slices of the basis *)

Section signed.
  Context (H : HashLib) (basis : list Z) (b s2 : Z) (ctx : ProtocolContext).
  Context (Hb : 0 < b < 2 ^ 31) (Hn : Z.of_nat (length basis) < 2 ^ 31).
Let s := signatures_of H basis b s2 ctx.
Let mc := match_config s ctx.
Let blocks := length (chunks (Z.to_nat b) basis).

Lemma signed_geometry : (0 < blocks)%nat ->
  basis_block_count basis b = Z.of_nat blocks /\ Z.of_nat blocks < 2 ^ 31 /\
  (Z.of_nat blocks - 1) * b < Z.of_nat (length basis) <= Z.of_nat blocks * b.
Proof.
  intros Hpos. subst blocks. destruct (chunks_count (Z.to_nat b) basis ltac:(lia)) as [H1 H2].
  remember (length (chunks (Z.to_nat b) basis)) as c eqn:Ec.
  destruct (lookup_lt_is_Some_2 (chunks (Z.to_nat b) basis) (c - 1)) as [x Hx]; [lia|].
  apply chunks_lookup in Hx as [_ Hx]; [|lia].
  assert (Hmul : forall m, Z.of_nat (m * Z.to_nat b) = Z.of_nat m * b)
    by (intros m; by rewrite Nat2Z.inj_mul, Z2Nat.id by lia).
  assert (Hr : (Z.of_nat c - 1) * b < Z.of_nat (length basis) <= Z.of_nat c * b).
  { pose proof (Hmul c). pose proof (Hmul (c - 1)%nat) as H'. rewrite Nat2Z.inj_sub in H' by lia. lia. }
  split_and!; [|lia..]. unfold basis_block_count. destruct (Z.ltb_spec 0 b); [|lia].
  rewrite bool_decide_eq_false_2 by (intros ->; cbn in H2; lia). cbn [andb negb].
  symmetry. apply (Z.div_unique_pos _ _ _ (Z.of_nat (length basis) + b - 1 - b * Z.of_nat c)); lia.
Qed.

Lemma copy_block_len idx : (idx < blocks)%nat ->
  block_byte_length idx (mc_blength mc) (mc_block_count mc) (mc_remainder mc) =
  if (0 <? basis_block_count basis b) && (Z.of_nat idx =? basis_block_count basis b - 1)
     && (0 <? basis_remainder basis b) && (basis_remainder basis b <? b)
  then basis_remainder basis b else b.
Proof.
  intros Hi. destruct signed_geometry as (Hc & Hc31 & Hr); [lia|]. rewrite Hc.
  unfold block_byte_length, mc, match_config, s, signatures_of.
  cbn [mc_blength mc_block_count mc_remainder head count Sum.blength remainder]. fold blocks.
  rewrite (swrap_id 32), (as_usize_nonneg b), (as_usize_nonneg (Z.of_nat blocks)), Nat2Z.id by lia.
  assert (Hrem : basis_remainder basis b =
    (if Z.of_nat (length basis) mod b =? 0 then b else Z.of_nat (length basis) mod b)).
  { unfold basis_remainder. destruct (Z.ltb_spec 0 b); [|lia].
    rewrite bool_decide_eq_false_2 by (intros ->; cbn [length] in Hr; nia). cbn [andb negb].
    by destruct (_ =? 0). }
  rewrite <- Hrem.
  assert (Hrr : 0 < basis_remainder basis b <= b).
  { rewrite Hrem. pose proof (Z.mod_pos_bound (Z.of_nat (length basis)) b ltac:(lia)).
    destruct (Z.eqb_spec (Z.of_nat (length basis) mod b) 0); lia. }
  rewrite as_usize_nonneg by lia. rewrite !Z2Nat.id by lia. rewrite !(wrap_id 32) by lia.
  repeat match goal with
  | |- context [(?x <? ?y)%nat] => destruct (Nat.ltb_spec x y)
  | |- context [(?x =? ?y)%nat] => destruct (Nat.eqb_spec x y)
  | |- context [?x <? ?y] => destruct (Z.ltb_spec x y)
  | |- context [?x =? ?y] => destruct (Z.eqb_spec x y)
  end; cbn [andb]; done || lia.
Qed.

Lemma block_slice_copy idx : (idx < blocks)%nat ->
  block_slice basis b (Z.of_nat idx) = Ok (Some (apply_diffop basis (copy_op mc idx))).
Proof.
  intros Hi. pose proof (copy_block_len idx Hi) as Hlen. destruct signed_geometry as (Hc & Hc31 & Hr); [lia|].
  unfold block_slice. cbv zeta. rewrite (wrap_id 64 (Z.of_nat idx)) by lia. rewrite <- Hlen.
  assert (Hl : 0 <= block_byte_length idx (mc_blength mc) (mc_block_count mc) (mc_remainder mc) <= b).
  { rewrite Hlen. destruct (_ && _) eqn:E; [|lia]. zbool. lia. }
  unfold copy_op, apply_diffop. cbn [br_offset br_length].
  assert (Hmb : Z.of_nat (mc_blength mc) = b)
    by (unfold mc, match_config, s, signatures_of; cbn; rewrite as_usize_nonneg by lia; lia).
  rewrite Hmb. rewrite Hc. destruct (Z.leb_spec (Z.of_nat blocks) (Z.of_nat idx)); [lia|].
  destruct (Z.leb_spec (2 ^ 64) (Z.of_nat idx * b)); [nia|].
  rewrite (wrap_id 64 (Z.of_nat idx * b)) by nia.
  destruct (Z.ltb_spec (Z.of_nat idx * b) (Z.of_nat (length basis))); [|nia].
  unfold slice. rewrite (wrap_id 64) by nia.
  destruct (Z.leb_spec (Z.of_nat idx * b) (Z.min (Z.of_nat idx * b + block_byte_length idx (mc_blength mc)
    (mc_block_count mc) (mc_remainder mc)) (Z.of_nat (length basis)))); [|lia].
  destruct (Z.leb_spec (Z.min (Z.of_nat idx * b + block_byte_length idx (mc_blength mc)
    (mc_block_count mc) (mc_remainder mc)) (Z.of_nat (length basis))) (Z.of_nat (length basis))); [|lia].
  done.
Qed.

(** An operation on the wire: what its items stand for. *)
Definition op_sent (op : DiffOp) : Prop :=
  match op with Literal _ => True | Copy bref => 0 <= br_offset bref / b < 2 ^ 31 - 1 end /\
  Forall (fun it => match it with IByte _ => True | IBlock j => is_Some (piece basis b (TBlockMatch j)) | IEnd => False end)
    (op_items b op) /\
  concat (map (item_bytes basis b) (op_items b op)) = apply_diffop basis op.

Lemma known_sent op : known_copy mc op -> op_sent op.
Proof.
  destruct op as [d|bref]; unfold op_sent; cbn [op_items apply_diffop known_copy].
  - intros _. split_and!; [done| |apply concat_bytes]. apply Forall_forall. intros it Hit.
    apply list_elem_of_fmap in Hit as (x & -> & _). done.
  - intros (idx & Hi & Hop).
    assert (Hib : (idx < blocks)%nat) by (unfold mc, match_config, s, signatures_of in Hi; cbn in Hi; by rewrite length_map in Hi).
    pose proof (block_slice_copy idx Hib) as Hs. rewrite <- Hop in Hs.
    destruct signed_geometry as (Hc & Hc31 & Hr); [lia|].
    assert (Hoff : br_offset bref / b = Z.of_nat idx).
    { assert (Hbr : br_offset bref = as_u64 (Z.of_nat idx * Z.of_nat (mc_blength mc)))
        by (by injection Hop as ->).
      assert (Hmb : Z.of_nat (mc_blength mc) = b)
        by (unfold mc, match_config, s, signatures_of; cbn; rewrite as_usize_nonneg by lia; lia).
      rewrite Hbr, Hmb, (wrap_id 64) by nia. apply Z.div_mul. lia. }
    rewrite Hoff, (swrap_id 32) by lia. assert (Hp : piece basis b (TBlockMatch (Z.of_nat idx)) = Some (apply_diffop basis (Copy bref))).
    { cbn [piece]. by rewrite Hs. }
    split; [lia|]. split.
    + constructor; [by eexists|constructor].
    + cbn [map concat item_bytes]. rewrite Hp. cbn. by rewrite app_nil_r.
Qed.

End signed.

(** ** From operations to the file *)

Lemma write_diffops_app {W} `{TokenWriter W} (w : W) ops ops' b :
  write_diffops w (ops ++ ops') b = (w ← write_diffops w ops b; write_diffops w ops' b).
Proof.
  revert w. induction ops as [|[d|bref] ops IH]; intros w; cbn [app write_diffops].
  - by rewrite wr_ret_bind_eq.
  - rewrite wr_bind_assoc. apply wr_bind_ext. intros. apply IH.
  - rewrite !wr_bind_assoc. apply wr_bind_ext. intros. rewrite wr_bind_assoc. apply wr_bind_ext. intros. apply IH.
Qed.

Lemma foldl_extend ps out : foldl (fun s d => extend d s) out ps = out ++ concat ps.
Proof.
  revert out. induction ps as [|p ps IH]; intros out; cbn [foldl concat]; [by rewrite app_nil_r|].
  rewrite IH. unfold extend. by rewrite app_assoc.
Qed.

Lemma foldl_write_part H ps (w : written H) : HashLaws H ->
  foldl (fun s d => write_part H d s) w ps =
  mkWritten H (wt_out H w ++ concat ps) (inc_update H (wt_hasher H w) (concat ps))
    (match ps with [] => wt_bytes H w | _ => as_u64 (wt_bytes H w + Z.of_nat (length (concat ps))) end).
Proof.
  intros HL. pose proof (inc_update_fold H (wt_hasher H w) ps HL) as Hu.
  assert (E : forall ps w, foldl (fun s d => write_part H d s) w ps =
    mkWritten H (wt_out H w ++ concat ps) (foldl (inc_update H) (wt_hasher H w) ps)
      (match ps with [] => wt_bytes H w | _ => as_u64 (wt_bytes H w + Z.of_nat (length (concat ps))) end)).
  { clear. intros ps. induction ps as [|p ps IH]; intros [out h n]; cbn [foldl concat wt_out wt_hasher wt_bytes].
    { by rewrite app_nil_r. }
    rewrite IH. unfold write_part. cbn [wt_out wt_hasher wt_bytes]. rewrite <- app_assoc. f_equal.
    rewrite length_app, Nat2Z.inj_add. destruct ps; [cbn [concat length]; f_equal; lia|].
    unfold wrap. rewrite Zplus_mod_idemp_l. f_equal. lia. }
  by rewrite E, Hu.
Qed.

Section delivered.
  Context (H : HashLib) (HL : HashLaws H) (basis : list Z) (b : Z).
  Context (Hb : 0 < b < 2 ^ 31) (Hn : Z.of_nat (length basis) < 2 ^ 31).

Lemma op_sent_copies ops : Forall (op_sent basis b) ops -> copies_ok b ops.
Proof.
  intros Hs. split; [lia|]. eapply Forall_impl; [exact Hs|]. intros [d|bref]; [done|]. by intros [? _].
Qed.

Lemma recv_of_tokens {R} `{PacedReader R} r bs ts r' ps ctx k :
  reads r bs (ts ++ [TEndOfFile]) r' -> mapM (piece basis b) ts = Some ps ->
  recv_file_delta_with H r basis b ctx ((bs ++ file_checksum H (concat ps) ctx) ++ k) = Ok ((concat ps, r'), k).
Proof.
  intros Hr Hps. unfold recv_file_delta_with. rewrite <- app_assoc.
  erewrite rd_bind_run by (eapply token_loop_reads; first [lia|exact _|exact Hr|exact Hps]).
  rewrite foldl_extend. cbn [app fst].
  erewrite rd_bind_run by (apply read_exact_app; by rewrite file_checksum_length).
  by rewrite bool_decide_true.
Qed.

Lemma writer_of_tokens {R} `{PacedReader R} r bs ts r' ps ctx k :
  reads r bs (ts ++ [TEndOfFile]) r' -> mapM (piece basis b) ts = Some ps ->
  recv_file_delta_to_writer_with H r basis b ctx ((bs ++ file_checksum H (concat ps) ctx) ++ k) =
    Ok ((as_u64 (Z.of_nat (length (concat ps))), concat ps, r'), k).
Proof.
  intros Hr Hps. unfold recv_file_delta_to_writer_with. rewrite <- app_assoc.
  erewrite rd_bind_run by (eapply token_loop_reads; first [lia|exact _|exact Hr|exact Hps]).
  rewrite foldl_write_part by done. cbn [app fst snd wt_out wt_hasher wt_bytes].
  erewrite rd_bind_run by (apply read_exact_app; by rewrite file_checksum_length).
  rewrite inc_one_shot by done. rewrite bool_decide_true by done. destruct ps; done.
Qed.

Section sent.
  Context {W R : Type} `{HW : TokenWriter W} `{HR : TokenReaderT R} `{HT : !TokenTransport W R} `{HP : !PacedReader R}.

(** Operations, end of file and what the receiver makes of them. *)
Lemma diffops_delivered w r ops :
  held w [] r -> accepts b w ops -> Forall (op_sent basis b) ops ->
  exists w' bs ts ps r', (w ← write_diffops w ops b; tw_write_eof w) = (Ok w', bs) /\
    reads r bs (ts ++ [TEndOfFile]) r' /\ held w' [] r' /\
    mapM (piece basis b) ts = Some ps /\ concat ps = apply_diffops basis ops.
Proof.
  intros Hh Ha Hs. pose proof (op_sent_copies ops Hs) as Hc.
  destruct (write_diffops_held w [] r ops b Hh Ha Hc) as (w1 & bs1 & ts1 & r1 & h1 & Hw1 & Hr1 & Hh1 & Hi1).
  destruct (tt_eof w1 h1 r1 Hh1) as (w2 & bs2 & ts2 & r2 & Hw2 & Hr2 & Hh2 & ->).
  assert (Hitems : items (ts1 ++ ts2) = concat (map (op_items b) ops)) by (by rewrite items_app, <- Hi1).
  destruct (pieces_of_items basis b (ts1 ++ ts2)) as (ps & Hps & Hcat).
  { rewrite Hitems. clear Hitems Hi1 Hw1 Ha Hc. induction Hs as [|op ops [_ [Ho _]] Hs IH]; [constructor|].
    cbn [map concat]. by apply Forall_app. }
  exists w2, (bs1 ++ bs2), (ts1 ++ ts2), ps, r2. split_and!; [| |done|done|].
  - rewrite Hw1. unfold mbind, wr_bind. by rewrite Hw2.
  - rewrite <- app_assoc. by eapply reads_app.
  - rewrite Hcat, Hitems, apply_diffops_concat. clear -Hs. induction Hs as [|op ops [_ [_ Ho]] Hs IH]; [done|].
    cbn [map concat]. by rewrite map_app, concat_app, Ho, IH.
Qed.

Lemma tokens_mirror w r ops source s ctx :
  held w [] r -> accepts b w ops -> Forall (op_sent basis b) ops -> apply_diffops basis ops = source ->
  write_diffops w ops (as_u32 (Sum.blength (head s))) = write_diffops w ops b ->
  mirrors (write_tokens_and_checksum H w ops source s ctx) (recv_file_delta_with H r basis b ctx)
    (fun w' q => q.1 = source /\ held w' [] q.2).
Proof.
  intros Hh Ha Hs Hops Hbl. destruct (diffops_delivered w r ops Hh Ha Hs) as (w' & bs & ts & ps & r' & Hw & Hr & Hh' & Hps & Hcat).
  rewrite Hops in Hcat. exists w', (source, r'), (bs ++ file_checksum H source ctx). split_and!; [| |done|done].
  - unfold write_tokens_and_checksum. cbv zeta. rewrite Hbl.
    rewrite <- (wr_bind_assoc (write_diffops w ops b) (fun w0 => tw_write_eof w0) (fun w1 => _ ← write_all (file_checksum H source ctx); mret w1)), Hw.
    unfold mbind, wr_bind, write_all, mret, wr_ret. by rewrite app_nil_r.
  - intros k. rewrite <- Hcat. by eapply recv_of_tokens.
Qed.

End sent.

(** The plain encoding takes any data. *)
Lemma plain_accepts ops w : accepts (W := PlainTokenWriter) (R := PlainTokenReader) b w ops.
Proof.
  revert w. induction ops as [|[d|bref] ops IH]; cbn [accepts]; intros w; [done| |].
  - split; [exact I|]. intros w' bs _. apply IH.
  - intros i w' bs _ _. apply IH.
Qed.

End delivered.

(** ** Files of a signed basis *)

(** The block length the receiver derives from the signatures of its basis. *)
Definition receiver_blength (s : SumStruct) : Z :=
  if 0 <? blength (head s) then blength (head s) else 700.

Lemma literals_any_blength {W} `{TokenWriter W} mc ops (w : W) b b' :
  mc_sums mc = [] -> Forall (known_copy mc) ops -> write_diffops w ops b = write_diffops w ops b'.
Proof.
  intros Hm Ho. revert w. induction Ho as [|op ops Hop Ho IH]; intros w; [done|].
  destruct op as [d|bref]; cbn [write_diffops].
  - apply wr_bind_ext. intros. apply IH.
  - destruct Hop as (idx & Hi & _). rewrite Hm in Hi. cbn in Hi. lia.
Qed.

Section signed_files.
  Context (H : HashLib) (HL : HashLaws H) (basis : list Z) (ctx : ProtocolContext) (s : SumStruct).
  Context (Hn : Z.of_nat (length basis) < 2 ^ 31) (Hb : 0 < effective_blength basis ctx < 2 ^ 31).
  Context (Hs : compute_signatures H basis ctx = Ok s).

Lemma signed_shape :
  (basis = [] /\ s = mkSumStruct SumHead_default []) \/
  (basis <> [] /\ exists s2, 0 <= s2 <= 32 /\ s = signatures_of H basis (effective_blength basis ctx) s2 ctx /\
     s2length (head s) = s2).
Proof.
  destruct (decide (basis = [])) as [->|Hne]; [left|right]; (split; [done|]).
  - by injection Hs as <-.
  - by apply compute_signatures_inv.
Qed.

Lemma receiver_blength_ok : 0 < receiver_blength s < 2 ^ 31.
Proof.
  unfold receiver_blength. destruct signed_shape as [[_ ->]|(Hne & s2 & _ & -> & _)]; cbn [signatures_of head blength SumHead_default].
  - cbn. lia.
  - destruct (Z.ltb_spec 0 (effective_blength basis ctx)); lia.
Qed.

(** Whatever operations with known copies the sender chooses, the wire says
    what they mean. *)
Lemma known_ops_sent {W} `{TokenWriter W} (w : W) ops : Forall (known_copy (match_config s ctx)) ops ->
  Forall (op_sent basis (receiver_blength s)) ops /\
  write_diffops w ops (as_u32 (blength (head s))) = write_diffops w ops (receiver_blength s).
Proof.
  intros Ho. unfold receiver_blength. destruct signed_shape as [[-> ->]|(Hne & s2 & Hs2 & -> & _)].
  - split; [|by eapply (literals_any_blength (match_config (mkSumStruct SumHead_default []) ctx))].
    eapply Forall_impl; [exact Ho|]. intros [d|bref]; [|intros (idx & Hi & _); cbn in Hi; lia]. intros _.
    split_and!; [done| |apply concat_bytes]. apply Forall_forall. intros it (x & -> & _)%list_elem_of_fmap. done.
  - cbn [signatures_of head blength]. destruct (Z.ltb_spec 0 (effective_blength basis ctx)); [|lia].
    rewrite (wrap_id 32) by lia. split; [|done].
    eapply Forall_impl; [exact Ho|]. intros op Hop. by eapply known_sent.
Qed.

Lemma matched_source source :
  collision_free H ctx (Z.to_nat (effective_blength basis ctx)) (s2length (head s)) basis source ->
  apply_diffops basis (match_blocks H source s ctx) = source.
Proof.
  intros Hcf. destruct signed_shape as [[-> ->]|(Hne & s2 & Hs2 & Es & Eh)].
  - unfold match_blocks. destruct (decide (source = [])) as [->|Hsrc]; [done|]. by rewrite bool_decide_eq_false_2.
  - rewrite Eh in Hcf. rewrite Es. apply match_blocks_sound; [|cbn; lia]. apply signatures_sound; done || lia.
Qed.

(** The batch sender's file, for any token encoding that takes its literals. *)
Lemma file_mirrors {W R} `{HW : TokenWriter W} `{HR : TokenReaderT R} `{HT : !TokenTransport W R} `{HP : !PacedReader R}
    (w : W) (r : R) source :
  held w [] r -> accepts (receiver_blength s) w (match_blocks H source s ctx) ->
  collision_free H ctx (Z.to_nat (effective_blength basis ctx)) (s2length (head s)) basis source ->
  mirrors (write_tokens_and_checksum H w (match_blocks H source s ctx) source s ctx)
    (recv_file_delta_with H r basis (receiver_blength s) ctx) (fun w' q => q.1 = source /\ held w' [] q.2).
Proof.
  intros Hh Ha Hcf. destruct (known_ops_sent w _ (match_blocks_known H source s ctx)) as [Ho Hw].
  apply tokens_mirror; try done; [apply receiver_blength_ok|by apply matched_source].
Qed.

(** ** Streaming *)

Lemma stream_send_ops {W} `{TokenWriter W} fuel m reader ck (w : W) b ops ck' :
  stream_all H fuel m reader ck = Some (ops, [], ck') ->
  stream_send H fuel m reader ck w b = (w' ← write_diffops w ops b; mret (ck', w')).
Proof.
  revert m reader ck w ops ck'. induction fuel as [|fuel IH]; intros m reader ck w ops ck'; [done|].
  cbn [stream_all stream_send]. destruct (process_chunk H m reader ck) as [[[[ops1 done] m1] reader1] ck1].
  destruct done; [by intros [= -> -> ->]|].
  destruct (stream_all H fuel m1 reader1 ck1) as [[[ops2 rest2] ck2]|] eqn:E; [|done]. intros [= <- -> <-].
  rewrite write_diffops_app, wr_bind_assoc. apply wr_bind_ext. intros w1 bs _. by apply IH.
Qed.

Lemma streamed_source source chunk_size :
  collision_free H ctx (Z.to_nat (effective_blength basis ctx)) (s2length (head s)) basis source ->
  0 < Z.of_nat chunk_size -> effective_blength basis ctx <= Z.of_nat chunk_size ->
  exists ops ck, stream_all H (S (S (length source))) (StreamingMatcher_new s ctx chunk_size) source
      (IncrementalChecksum_new H (ctx_checksum_type ctx)) = Some (ops, [], ck) /\
    apply_diffops basis ops = source /\ inc_finalize H ck = file_checksum H source ctx /\
    Forall (known_copy (match_config s ctx)) ops.
Proof.
  intros Hcf Hc0 Hch.
  assert (E : exists ops ck, stream_all H (S (S (length source))) (StreamingMatcher_new s ctx chunk_size) source
      (IncrementalChecksum_new H (ctx_checksum_type ctx)) = Some (ops, [], ck) /\ apply_diffops basis ops = source).
  { destruct signed_shape as [[-> ->]|(Hne & s2 & Hs2 & Es & Eh)].
    - destruct (stream_all_no_sums H (S (S (length source)))
        (StreamingMatcher_new (mkSumStruct SumHead_default []) ctx chunk_size) source
        (IncrementalChecksum_new H (ctx_checksum_type ctx))) as (ops & ck & E & Hops); cbn; try done; try lia.
      + rewrite length_replicate. lia.
      + by exists ops, ck.
    - rewrite Eh in Hcf. rewrite Es. apply stream_all_new.
      + apply signatures_sound; done || lia.
      + cbn [match_config mc_blength signatures_of head blength]. rewrite as_usize_nonneg by lia. lia.
      + cbn [signatures_of head count].
        destruct (chunks_count (Z.to_nat (effective_blength basis ctx)) basis ltac:(lia)) as [H1 H2].
        rewrite (swrap_id 32) by lia. destruct basis; [done|]. cbn [length] in *. nia.
      + cbn [signatures_of head blength]. lia. }
  destruct E as (ops & ck & Hrun & Hops). exists ops, ck. split_and!; [done|done| |].
  - destruct (stream_all_checksum H _ _ _ _ _ _ _ HL Hrun) as (read & Hread & ->).
    rewrite app_nil_r in Hread. subst read. by apply inc_one_shot.
  - apply stream_all_known in Hrun; [|done]. eapply Forall_impl; [exact Hrun|]. intros [d|bref]; [done|].
    cbn [known_copy]. intros (idx & Hi & Hop). exists idx. split; [exact Hi|]. rewrite Hop.
    unfold copy_op, StreamingMatcher_new. cbn [sm_config mc_blength mc_block_count mc_remainder].
    destruct ((count (head s) <=? 0) || (blength (head s) <=? 0)) eqn:Ens; [|done]. exfalso.
    cbn in Hi. destruct signed_shape as [[_ Es]|(Hne & s2 & Hs2 & Es & _)]; rewrite Es in *; [cbn in Hi; lia|].
    cbn [signatures_of head blength count sums] in *. rewrite length_map in Hi.
    edestruct (signed_geometry H basis (effective_blength basis ctx) s2 ctx) as (_ & Hc31 & _); [exact Hb|exact Hn|lia|].
    rewrite (swrap_id 32) in Ens by lia. destruct (Z.leb_spec (Z.of_nat (length (chunks (Z.to_nat (effective_blength basis ctx)) basis))) 0); [lia|].
    destruct (Z.leb_spec (effective_blength basis ctx) 0); [lia|done].
Qed.

End signed_files.

(** ** The receiver on any bytes *)

Lemma drops_token_round {St R} `{TokenReaderT R} (part : list Z -> St -> St) basis blength s :
  (forall r, drops (tr_read_token r)) -> drops (token_round part basis blength s).
Proof. intros Hr. unfold token_round. apply drops_bind; [done|]. intros [[d|j|] r]; solve_drops. Qed.

Lemma drops_plain (r : PlainTokenReader) : drops (tr_read_token r).
Proof. cbn [tr_read_token plain_reader]. unfold recv_token, read_int. solve_drops. Qed.

Lemma drops_compressed C (r : CompressedTokenReader C) : drops (tr_read_token r).
Proof.
  cbn [tr_read_token compressed_reader]. intros i a k. unfold recv_compressed. rewrite recv_loop_rounds.
  apply drops_loop. intros st. unfold frame_round, recv_block_match, read_int, read_byte. solve_drops.
Qed.

Section any_bytes.
  Context (H : HashLib) (HL : HashLaws H) (basis : list Z) (blength : Z) (ctx : ProtocolContext).
  Context (Hmem : Z.of_nat (length basis) < 2 ^ 63) (Hb : blength < 2 ^ 63).
  Context {R : Type} `{HR : TokenReaderT R} `{HP : !PacedReader R}.

(** An outcome the checksum vouches for. *)
Definition verified (i : list Z) (r : result (list Z * list Z)) : Prop :=
  match r with
  | Ok (data, k) => exists before, i = before ++ file_checksum H data ctx ++ k
  | Err _ => True
  | Panic => False
  end.

Lemma recv_verified (r : R) i : (forall r, safe (tr_read_token r) (fun _ => True)) ->
  (forall r, drops (tr_read_token r)) -> Forall is_byte i ->
  verified i ((q ← recv_file_delta_with H r basis blength ctx; mret q.1) i).
Proof.
  intros Hsafe Hdrops Hi. unfold recv_file_delta_with, mbind, rd_bind.
  pose proof (rd_loop_safe (token_round extend basis blength) (round_measure basis blength)
    (round_measure_ok basis blength Hmem Hb extend) (fun _ => True) (fun _ => True)) as Hl.
  assert (Hround : forall s : list Z * R, True -> safe (token_round extend basis blength s)
    (fun r => match r with inl _ => True | inr _ => True end)).
  { intros [out r0] _. unfold token_round. eapply safe_bind; [apply Hsafe|]. intros [[d|j|] r1] _; cbn [fst snd].
    - by apply safe_ret.
    - intros i' Hi'. unfold mbind, rd_bind, rd_lift, mret, rd_ret. pose proof (block_slice_cases basis blength Hmem Hb j) as Hj.
      destruct (block_slice basis blength j); done.
    - by apply safe_ret. }
  specialize (Hl Hround (token_rounds basis blength (length i)) ([], r) i I Hi (token_rounds_enough basis blength Hmem _ _)).
  unfold rd_while_within. pose proof (drops_loop (token_round extend basis blength)
    (token_rounds basis blength (length i)) ([], r) (fun s => drops_token_round extend basis blength s Hdrops) i) as Hd.
  destruct (rd_loop _ _ _ _) as [[[out r'] k]| |]; [|done..]. destruct Hl as [_ Hk].
  destruct (Hd _ _ eq_refl) as [before ->].
  pose proof (safe_read_exact (Z.of_nat (ChecksumType.digest_len (ctx_checksum_type ctx))) ltac:(lia) k Hk) as He.
  unfold read_exact in *. destruct (_ <? _); [done|]. cbn [fst].
  destruct (bool_decide_reflect (take (Z.to_nat (Z.of_nat (ChecksumType.digest_len (ctx_checksum_type ctx)))) k
    = file_checksum H out ctx)) as [Heq|]; [|done].
  cbn. exists before. by rewrite <- Heq, take_drop.
Qed.

(** Writing as one goes and collecting first do the same. *)
Lemma writer_agrees (r : R) i :
  (q ← recv_file_delta_to_writer_with H r basis blength ctx; mret q.1) i =
  (q ← recv_file_delta_with H r basis blength ctx; mret (as_u64 (Z.of_nat (length q.1)), q.1)) i.
Proof.
  unfold recv_file_delta_to_writer_with, recv_file_delta_with, mbind, rd_bind, rd_while_within.
  set (rel := fun (w : written H * R) (s : list Z * R) => w.2 = s.2 /\
    w.1 = mkWritten H s.1 (inc_update H (IncrementalChecksum_new H (ctx_checksum_type ctx)) s.1)
            (as_u64 (Z.of_nat (length s.1)))).
  assert (Hpart : forall d w s r', rel (w, r') (s, r') -> rel (write_part H d w, r') (extend d s, r')).
  { intros d w s r' [_ Ew]. cbn in Ew. subst w. split; [done|]. unfold write_part, extend. cbn [fst wt_out wt_hasher wt_bytes].
    rewrite length_app, Nat2Z.inj_add. f_equal.
    - pose proof (inc_update_fold H (IncrementalChecksum_new H (ctx_checksum_type ctx)) [s; d] HL) as Hu.
      cbn [foldl concat] in Hu. by rewrite app_nil_r in Hu.
    - unfold wrap. apply Zplus_mod_idemp_l. }
  pose proof (rd_loop_sim (token_round (write_part H) basis blength) (token_round extend basis blength) rel rel) as Hsim.
  assert (Hround : forall w s i, rel w s -> same_outcome (same_round rel rel)
    (token_round (write_part H) basis blength w i) (token_round extend basis blength s i)).
  { intros [w r1] [s r2] j [Er Ew]. cbn in Er. subst r2. unfold token_round, mbind, rd_bind, rd_lift, mret, rd_ret. cbn [fst snd].
    destruct (tr_read_token r1 j) as [[[[d|idx|] r'] k]| |]; cbn; try done.
    - split; [|done]. by apply Hpart.
    - destruct (block_slice basis blength idx) as [[d|]| |]; cbn; try done. split; [|done]. by apply Hpart.
  }
  assert (Hstart : rel (mkWritten H [] (IncrementalChecksum_new H (ctx_checksum_type ctx)) 0, r) ([], r)).
  { split; [done|]. cbn [fst snd length]. f_equal. by apply (inc_update_fold H _ []). }
  specialize (Hsim Hround (token_rounds basis blength (length i)) _ _ i Hstart).
  destruct (rd_loop (token_round (write_part H) basis blength) _ _ _) as [[[w r1] k1]|e|],
    (rd_loop (token_round extend basis blength) _ _ _) as [[[s r2] k2]|e'|]; cbn in Hsim; try done; [|by subst e'].
  destruct Hsim as [[_ Ew] ->]. cbn in Ew. subst w. cbn [fst snd wt_hasher wt_bytes wt_out].
  rewrite inc_one_shot by done. destruct (read_exact _ k2) as [[bs k]| |]; [|done..]. by destruct (bool_decide _).
Qed.

End any_bytes.

(** ** Properties *)

(** C12. Whatever bytes arrive, the receiver of a plain or a compressed delta
    comes to an end without a panic (no block reference leads outside the
    basis), and it returns data only if the checksum of exactly that data
    stood on the wire, right before what it left unread; writing the file as
    the tokens come in gives the same outcome as collecting it first. *)
Theorem receiver_verifies (H : HashLib) (HL : HashLaws H) (C : Compression) (basis : list Z) (blength : Z)
    (ctx : ProtocolContext) (d : decomp C) (i : list Z) :
  Z.of_nat (length basis) < 2 ^ 63 -> blength < 2 ^ 63 -> no_panic C -> Forall is_byte i ->
  verified H ctx i (recv_file_delta H basis blength ctx i) /\
  verified H ctx i (recv_file_delta_compressed H C basis blength ctx d i) /\
  recv_file_delta_to_writer H basis blength ctx i =
    (data ← recv_file_delta H basis blength ctx; mret (as_u64 (Z.of_nat (length data)), data)) i.
Proof.
  intros Hn Hb HC Hi. split_and!.
  - apply (recv_verified H basis blength ctx Hn Hb mkPlainReader i); [|apply drops_plain|done].
    intros r. cbn [tr_read_token plain_reader]. eapply safe_bind; [apply recv_token_safe|]. intros t _. by apply safe_ret.
  - apply (recv_verified H basis blength ctx Hn Hb (CompressedTokenReader_new C d) i); [|apply drops_compressed|done].
    intros r. eapply safe_mono; [by apply recv_compressed_safe|done].
  - unfold recv_file_delta_to_writer. rewrite writer_agrees by done. unfold recv_file_delta, mbind, rd_bind.
    by destruct (recv_file_delta_with _ _ _ _ _ _) as [[[out r] k]| |].
Qed.

Definition small_ctx : ProtocolContext := mkProtocolContext 9 Md5 0 true (Some 3).
Definition tampered : list Z := (send_file_delta_with_sums toy_hash 0 [1; 2; 3; 9]
  (signatures_of toy_hash [1; 2; 3; 4; 5; 6; 7] 3 11 small_ctx) small_ctx).2.

Lemma receiver_verifies_witness :
  verified toy_hash small_ctx (drop 4 tampered) (Ok ([1; 2; 3; 9], [])) /\
  recv_file_delta toy_hash [1; 2; 3; 4; 5; 6; 7] 3 small_ctx (drop 4 tampered) = Ok ([1; 2; 3; 9], []).
Proof.
  assert (E : recv_file_delta toy_hash [1; 2; 3; 4; 5; 6; 7] 3 small_ctx (drop 4 tampered) = Ok ([1; 2; 3; 9], []))
    by (vm_compute; reflexivity).
  split; [|exact E]. rewrite <- E.
  refine (proj1 (receiver_verifies toy_hash toy_hash_laws stored_zlib [1; 2; 3; 4; 5; 6; 7] 3 small_ctx tt (drop 4 tampered) _ _ _ _)).
  - vm_compute. reflexivity.
  - reflexivity.
  - split; discriminate.
  - apply (bool_decide_unpack _). vm_compute. exact I.
Defined.

(** Streaming, end to end: signatures of any basis (empty included), any
    source read in chunks of at least a block, the tokens written as the
    chunks are matched.  The incremental receiver and the collecting receiver
    both end with exactly the source, its checksum verified, and leave what
    follows unread. *)
Theorem streaming_transfer (H : HashLib) (HL : HashLaws H) (basis source : list Z) (ctx : ProtocolContext)
    (s : SumStruct) (chunk_size : nat) (file_index : Z) (k : list Z) :
  Z.of_nat (length basis) < 2 ^ 31 -> 0 < effective_blength basis ctx < 2 ^ 31 ->
  compute_signatures H basis ctx = Ok s ->
  collision_free H ctx (Z.to_nat (effective_blength basis ctx)) (s2length (head s)) basis source ->
  0 < Z.of_nat chunk_size -> effective_blength basis ctx <= Z.of_nat chunk_size ->
  in_i32 file_index -> file_index <> -1 ->
  exists bs, send_file_delta_streaming H file_index source s ctx chunk_size = (Ok tt, bs) /\
    (idx ← recv_file_index; r ← recv_file_delta_to_writer H basis (receiver_blength s) ctx; mret (idx, r)) (bs ++ k) =
      Ok ((Some file_index, (as_u64 (Z.of_nat (length source)), source)), k) /\
    (idx ← recv_file_index; r ← recv_file_delta H basis (receiver_blength s) ctx; mret (idx, r)) (bs ++ k) =
      Ok ((Some file_index, source), k).
Proof.
  intros Hn Hb Hs Hcf Hc0 Hch Hi Hne.
  destruct (streamed_source H HL basis ctx s Hn Hb Hs source chunk_size Hcf Hc0 Hch) as (ops & ck & Hrun & Hops & Hck & Hk).
  destruct (known_ops_sent H HL basis ctx s Hn Hb Hs mkPlainWriter ops Hk) as [Ho Hw].
  pose proof (receiver_blength_ok H HL basis ctx s Hn Hb Hs) as Hrb.
  assert (Hh : held (W := PlainTokenWriter) (R := PlainTokenReader) mkPlainWriter [] mkPlainReader) by reflexivity.
  destruct (diffops_delivered basis (receiver_blength s) Hrb mkPlainWriter mkPlainReader ops Hh
    (plain_accepts _ ops mkPlainWriter) Ho) as ([] & bs & ts & ps & [] & Hbs & Hr & _ & Hps & Hcat).
  rewrite Hops in Hcat. exists (le_bytes 4 file_index ++ bs ++ file_checksum H source ctx).
  assert (Hidx : forall k', recv_file_index (le_bytes 4 file_index ++ k') = Ok (Some file_index, k')).
  { intros k'. unfold recv_file_index. erewrite rd_bind_run by (by apply read_int_le).
    by destruct (Z.eqb_spec file_index (-1)). }
  split_and!.
  - unfold send_file_delta_streaming. cbv zeta. rewrite (stream_send_ops _ _ _ _ _ _ _ _ _ Hrun), Hw.
    revert Hbs. clear Hw. unfold write_int, write_all, mbind, wr_bind, mret, wr_ret.
    destruct (write_diffops _ _ (receiver_blength s)) as [[[]| |] o]; [|done..]. cbn [fst snd].
    destruct (tw_write_eof mkPlainWriter) as [[[]| |] o']; [|done..].
    intros [= <-]. rewrite Hck, app_nil_r, <- app_assoc. reflexivity.
  - rewrite <- app_assoc. erewrite rd_bind_run by apply Hidx. unfold recv_file_delta_to_writer. rewrite <- Hcat.
    erewrite rd_bind_run; cycle 1; [|reflexivity].
    erewrite rd_bind_run by (eapply (writer_of_tokens H HL basis (receiver_blength s) Hrb Hn); eassumption). reflexivity.
  - rewrite <- app_assoc. erewrite rd_bind_run by apply Hidx. unfold recv_file_delta. rewrite <- Hcat.
    erewrite rd_bind_run; cycle 1; [|reflexivity].
    erewrite rd_bind_run by (eapply (recv_of_tokens H HL basis (receiver_blength s) Hrb Hn); eassumption). reflexivity.
Qed.

Definition small_basis : list Z := [1; 2; 3; 4; 5; 6; 7].
Definition small_source : list Z := [9; 8; 7; 6; 1; 2; 3; 4; 5; 6].
Definition small_sums : SumStruct := signatures_of toy_hash small_basis 3 11 small_ctx.

Lemma streaming_transfer_witness :
  exists bs, send_file_delta_streaming toy_hash 4 small_source small_sums small_ctx 4 = (Ok tt, bs) /\
    (idx ← recv_file_index; r ← recv_file_delta_to_writer toy_hash small_basis 3 small_ctx; mret (idx, r)) (bs ++ [5]) =
      Ok ((Some 4, (10, small_source)), [5]) /\
    (idx ← recv_file_index; r ← recv_file_delta toy_hash small_basis 3 small_ctx; mret (idx, r)) (bs ++ [5]) =
      Ok ((Some 4, small_source), [5]).
Proof.
  refine (streaming_transfer toy_hash toy_hash_laws small_basis small_source small_ctx small_sums 4 4 [5] _ _ _ _ _ _ _ _).
  - vm_compute. reflexivity.
  - split; vm_compute; reflexivity.
  - vm_compute. reflexivity.
  - apply collision_free_dec. vm_compute. reflexivity.
  - vm_compute. reflexivity.
  - vm_compute. discriminate.
  - split; vm_compute; [discriminate|reflexivity].
  - discriminate.
Defined.
