(* ===== verification/Pipeline.v ===== *)
(** [ferrosync-engine/src/pipeline.rs]: the three roles as three tasks in a
    row, connected by two 64 KiB pipes, the transfer of one file. *)
From S2P Require Import Prelude Wire Types Varint Checksum Sum Matcher Compress Token Proc Pipes Transfer.

Section pipeline.
  Context (H : HashLib).

(** Outgoing bytes of the generator task, its own result kept whatever happens
    to the done marker. *)
Definition generator_task (basis : list Z) (ctx : ProtocolContext) : io unit :=
  IoWrite (send_file_signatures H 0 basis ctx) (fun result =>
    match result with
    | Panic => IoDone Panic
    | _ => IoWrite send_generator_done (fun _ => IoDone result)
    end).

Definition sender_task (source : list Z) (ctx : ProtocolContext) : io unit :=
  idx ← io_read recv_file_index;
  match idx with
  | None => io_write send_sender_done
  | Some _ =>
      _ ← send_file_delta H 0 source ctx;
      io_write send_sender_done
  end.

(** The receiver computes the signatures of its basis once more, for the block
    length only. *)
Definition receiver_task (basis : list Z) (ctx : ProtocolContext) : io (list Z) :=
  idx ← io_read recv_file_index;
  match idx with
  | None => mret []
  | Some _ =>
      sums ← io_lift (compute_signatures H basis ctx);
      let blength := if 0 <? blength (head sums) then as_u64 (blength (head sums)) else 700 in
      io_read (recv_file_delta H basis blength ctx)
  end.

(** [try_join!] of the three handles, then [gen_result?; send_result?; recv_result]. *)
Definition transfer_result (gen send : result unit) (recv : result (list Z)) : result (list Z) :=
  match gen, send, recv with
  | Panic, _, _ | _, Panic, _ | _, _, Panic => Err (Io OtherIo)
  | _, _, _ => _ ← gen; _ ← send; recv
  end.

(** 64 KiB *)
Definition DUPLEX_CAPACITY : nat := 64 * 1024.

Definition transfer_file (source basis : list Z) (ctx : ProtocolContext) : network unit unit (list Z) :=
  start (generator_task basis ctx) (sender_task source ctx) (receiver_task basis ctx).

(** ** The compressed variant: the same tasks around the compressed tokens. *)
Section compressed.
  Context (B : Backends) (fuel : nat).

Definition sender_task_compressed (source : list Z) (ctx : ProtocolContext) (level : Z) (t : CompressType) : io unit :=
  compressor ← io_lift (Compressor_from_type B t level);
  idx ← io_read recv_file_index;
  match idx with
  | None => io_write send_sender_done
  | Some _ =>
      _ ← send_file_delta_compressed H (backends B fuel) 0 source ctx compressor;
      io_write send_sender_done
  end.

Definition receiver_task_compressed (basis : list Z) (ctx : ProtocolContext) (t : CompressType) : io (list Z) :=
  idx ← io_read recv_file_index;
  match idx with
  | None => mret []
  | Some _ =>
      sums ← io_lift (compute_signatures H basis ctx);
      let blength := if 0 <? blength (head sums) then as_u64 (blength (head sums)) else 700 in
      decompressor ← io_lift (Decompressor_from_type B t);
      io_read (recv_file_delta_compressed H (backends B fuel) basis blength ctx decompressor)
  end.

Definition transfer_file_compressed (source basis : list Z) (ctx : ProtocolContext) (level : Z) (t : CompressType)
    : network unit unit (list Z) :=
  start (generator_task basis ctx) (sender_task_compressed source ctx level t) (receiver_task_compressed basis ctx t).

End compressed.

End pipeline.

(** ** What a finished transfer returned *)

Definition transfer_outcome (n : network unit unit (list Z)) : option (result (list Z)) :=
  match outcome (first n), outcome (second n), outcome (third n) with
  | Some gen, Some send, Some recv => Some (transfer_result gen send recv)
  | _, _, _ => None
  end.

(** The file arrived, and the only failure is that of the sender's last write. *)
Definition delivered (source : list Z) (n : network unit unit (list Z)) : Prop :=
  outcome (first n) = Some (Ok tt) /\ outcome (third n) = Some (Ok source) /\
  (transfer_outcome n = Some (Ok source) \/ transfer_outcome n = Some (Err broken)).

(** ** The roles as scripts *)

Lemma resumable_recv_file_index : resumable recv_file_index.
Proof. unfold recv_file_index, read_int. resume. Qed.

Lemma resumable_read_sums : resumable read_sums.
Proof.
  unfold read_sums, read_sum_head, read_int. apply resumable_bind; [resume|]. intros h.
  repeat (apply resumable_if; [apply resumable_lift|]).
  apply resumable_bind; [apply resumable_repeat; resume|]. intros l. apply resumable_ret.
Qed.

Lemma resumable_recv_file_delta H {R} `{PacedReader R} (r : R) basis blength ctx :
  Z.of_nat (length basis) < 2 ^ 63 -> blength < 2 ^ 63 ->
  resumable (q ← recv_file_delta_with H r basis blength ctx; mret q.1).
Proof.
  intros Hn Hb. unfold recv_file_delta_with. apply resumable_bind; [|intros; apply resumable_ret].
  apply resumable_bind; [by apply resumable_tokens|]. intros q. apply resumable_bind; [apply resumable_read_exact|].
  intros bs. cbv zeta. apply resumable_if; [apply resumable_ret|apply resumable_lift].
Qed.

Section scripts.
  Context (H : HashLib) (HL : HashLaws H) (basis source : list Z) (ctx : ProtocolContext) (s : SumStruct).
  Context (Hn : Z.of_nat (length basis) < 2 ^ 31) (Hb : 0 < effective_blength basis ctx < 2 ^ 31).
  Context (Hs : compute_signatures H basis ctx = Ok s) (Hcount : count (head s) <= MAX_BLOCK_COUNT).

Lemma computed_sums_ok : sums_ok implicit_len s.
Proof.
  destruct (decide (basis = [])) as [->|Hne].
  { injection Hs as <-. split_and!; cbn; try done; try lia. }
  destruct (compute_signatures_eq H HL basis ctx Hne Hn Hb) as (Hpanic & Hok & _).
  destruct (Z.le_gt_cases (Z.min ((80 + Z.log2_up ((Z.of_nat (length basis) + effective_blength basis ctx - 1)
    / effective_blength basis ctx) + 7) / 8) MAX_DIGEST_LEN)
    (Z.of_nat (ChecksumType.digest_len (ctx_checksum_type ctx)))) as [Hle|Hlt]; [|by rewrite Hpanic in Hs].
  rewrite Hok in Hs by done. clear Hok Hpanic. remember (Z.min _ _) as s2 eqn:Es2.
  pose proof (Z.log2_up_nonneg ((Z.of_nat (length basis) + effective_blength basis ctx - 1) / effective_blength basis ctx)).
  assert (0 <= s2 <= 32) by (subst s2; unfold MAX_DIGEST_LEN; split; [apply Z.min_glb; [apply Z.div_pos|]|]; lia).
  pose proof (Z.mod_pos_bound (Z.of_nat (length basis)) (effective_blength basis ctx)).
  destruct (signed_geometry H basis (effective_blength basis ctx) s2 ctx Hb Hn) as (_ & Hc & _).
  { destruct basis; [done|]. cbn. lia. }
  injection Hs as Hs. revert Hcount. rewrite <- Hs. intros Hcount. unfold sums_ok. cbn [head count s2length blength remainder sums] in *.
  rewrite (swrap_id 32) in * by lia. split_and!; try lia; try done.
  - by rewrite length_map.
  - destruct (_ =? 0); lia.
  - destruct (_ =? 0); lia.
  - apply Forall_forall. intros e (block & -> & _)%list_elem_of_fmap. apply block_signature_ok; [done|lia].
Qed.

Definition exactly {A} (a : A) (r : result A) : Prop := r = Ok a.
Definition sent_or_broken (r : result unit) : Prop := r = Ok tt \/ r = Err broken.

Lemma done_marker_mirrors : mirrors send_sender_done recv_file_index (fun _ x => x = None).
Proof.
  exists tt, None, (le_bytes 4 (-1)). split_and!; [done| |done]. intros k. unfold recv_file_index.
  erewrite rd_bind_run by (apply read_int_le; lia). done.
Qed.

Lemma index_zero : reads_exactly recv_file_index (le_bytes 4 0) (Some 0).
Proof.
  apply resumable_reads_exactly; [apply resumable_recv_file_index|]. intros k. unfold recv_file_index.
  erewrite rd_bind_run by (apply read_int_le; lia). done.
Qed.

Lemma generator_script : exists sig m,
  (forall k, read_sums (sig ++ k) = Ok (s, k)) /\
  script 4 (exactly tt) (generator_task H basis ctx) [] ((le_bytes 4 0 ++ sig) ++ le_bytes 4 (-1)) m.
Proof.
  destruct (write_sums_mirrors s computed_sums_ok) as ([] & ? & sig & Hw & Hr & ->).
  exists sig. eexists. split; [done|]. unfold generator_task. cbn [script].
  exists (le_bytes 4 0 ++ sig), (le_bytes 4 (-1)). eexists. split_and!; [|done| | |].
  - unfold send_file_signatures. rewrite Hs. unfold write_int, write_all, wr_lift, mbind, wr_bind. by rewrite Hw.
  - exists (le_bytes 4 (-1)), [], 0%nat. split_and!; [done..|apply Nat.le_refl|].
    intros _. split; [done|]. by exists (Ok tt).
  - apply Nat.le_refl.
  - intros Hlt. cbn in Hlt. lia.
Qed.

(** A sender that answers the signatures with what [send] writes. *)
Lemma sender_script (sender : io unit) (send : SumStruct -> wr unit) sig delta :
  sender = (idx ← io_read recv_file_index;
            match idx with
            | None => io_write send_sender_done
            | Some _ => _ ← (s ← io_read read_sums; io_write (send s)); io_write send_sender_done
            end) ->
  (forall k, read_sums (sig ++ k) = Ok (s, k)) -> send s = (Ok tt, delta) ->
  exists m, script 4 sent_or_broken sender (le_bytes 4 0 ++ sig) (delta ++ le_bytes 4 (-1)) m.
Proof.
  intros -> Hsig Hsend. eexists. cbn [script io_read io_write mbind io_bind io_bind_fix].
  exists (Some 0), (le_bytes 4 0), sig. eexists. split_and!; [done|apply index_zero| |apply Nat.le_refl].
  cbn [script io_read io_write mbind io_bind io_bind_fix].
  exists s, sig, []. eexists. split_and!; [by rewrite app_nil_r| | |apply Nat.le_refl].
  { by apply resumable_reads_exactly; [apply resumable_read_sums|]. }
  cbn [script io_read io_write mbind io_bind io_bind_fix]. exists delta, (le_bytes 4 (-1)). eexists.
  split_and!; [done|done| |apply Nat.le_refl|intros Hlt; cbn in Hlt; lia].
  cbn [script io_read io_write mbind io_bind io_bind_fix]. exists (le_bytes 4 (-1)), [], 0%nat.
  split_and!; [done..|by left|apply Nat.le_refl|].
  - intros _. split; [done|]. exists (Err broken). split; [done|by right].
Qed.

Lemma receiver_script (receiver : io (list Z)) (recv : rd (list Z)) bs :
  receiver = (idx ← io_read recv_file_index;
              match idx with None => mret [] | Some _ => io_read recv end) ->
  resumable recv -> (forall k, recv (bs ++ k) = Ok (source, k)) ->
  exists m, script 0 (exactly source) receiver (le_bytes 4 0 ++ bs) [] m.
Proof.
  intros -> Hr Hrecv. eexists. cbn [script io_read mbind io_bind io_bind_fix].
  exists (Some 0), (le_bytes 4 0), bs. eexists. split_and!; [done|apply index_zero| |apply Nat.le_refl].
  cbn [script io_read mbind io_bind io_bind_fix]. exists source, bs, [], 0%nat.
  split_and!; [by rewrite app_nil_r|by apply resumable_reads_exactly|done..|apply Nat.le_refl].
Qed.

Lemma roles_complete cap (sender : io unit) (receiver : io (list Z)) (send : SumStruct -> wr unit)
    (recv : rd (list Z)) bs : (0 < cap)%nat ->
  sender = (idx ← io_read recv_file_index;
            match idx with
            | None => io_write send_sender_done
            | Some _ => _ ← (s ← io_read read_sums; io_write (send s)); io_write send_sender_done
            end) ->
  receiver = (idx ← io_read recv_file_index;
              match idx with None => mret [] | Some _ => io_read recv end) ->
  send s = (Ok tt, le_bytes 4 0 ++ bs) -> resumable recv -> (forall k, recv (bs ++ k) = Ok (source, k)) ->
  eventually cap (delivered source) (start (generator_task H basis ctx) sender receiver).
Proof.
  intros Hcap Es Er Hsend Hres Hrecv. destruct generator_script as (sig & m1 & Hsig & S1).
  destruct (sender_script sender send sig _ Es Hsig Hsend) as (m2 & S2).
  destruct (receiver_script receiver recv bs Er Hres Hrecv) as (m3 & S3).
  eapply eventually_mono; [|eapply (network_completes cap 4 4); try exact S1; try exact S2; try exact S3; done].
  intros n (a & b & c & Ha & Hb' & Hc & -> & Hsent & ->). unfold delivered, transfer_outcome.
  rewrite Ha, Hb', Hc. split_and!; [done|done|]. destruct Hsent as [->| ->]; [by left|by right].
Qed.

End scripts.

(** ** Properties *)

Section roundtrip.
  Context (H : HashLib) (HL : HashLaws H) (basis source : list Z) (ctx : ProtocolContext) (s : SumStruct).
  Context (Hn : Z.of_nat (length basis) < 2 ^ 31) (Hb : 0 < effective_blength basis ctx < 2 ^ 31).
  Context (Hs : compute_signatures H basis ctx = Ok s).

Lemma receiver_blength_code :
  (if 0 <? blength (head s) then as_u64 (blength (head s)) else 700) = receiver_blength s.
Proof.
  pose proof (receiver_blength_ok H HL basis ctx s Hn Hb Hs) as Hr. unfold receiver_blength in *.
  destruct (0 <? blength (head s)); [apply (wrap_id 64); lia|done].
Qed.

(** The bytes of one file for any token encoding, what both sides make of them. *)
Lemma file_delivered {W R} `{HW : TokenWriter W} `{HR : TokenReaderT R} `{HT : !TokenTransport W R} `{HP : !PacedReader R}
    (w : W) (r : R) :
  held w [] r -> accepts (receiver_blength s) w (match_blocks H source s ctx) ->
  collision_free H ctx (Z.to_nat (effective_blength basis ctx)) (s2length (head s)) basis source ->
  exists bs,
    (_ ← write_int 0; _ ← write_tokens_and_checksum H w (match_blocks H source s ctx) source s ctx; mret tt) =
      (Ok tt, le_bytes 4 0 ++ bs) /\
    forall k, (q ← recv_file_delta_with H r basis (receiver_blength s) ctx; mret q.1) (bs ++ k) = Ok (source, k).
Proof.
  intros Hh Ha Hcf. destruct (file_mirrors H HL basis ctx s Hn Hb Hs w r source Hh Ha Hcf)
    as (w' & [out r'] & bs & Hw & Hr & [Ho _]). cbn [fst] in Ho. subst out. exists bs. split.
  - unfold write_int, write_all, mbind, wr_bind at 1. unfold wr_bind at 1. rewrite Hw. cbn. by rewrite app_nil_r.
  - intros k. by erewrite rd_bind_run by apply Hr.
Qed.

End roundtrip.

(** The transfer of one file arrives; also for the engine that runs it. *)
Lemma pipeline_delivers (H : HashLib) (HL : HashLaws H) (basis source : list Z) (ctx : ProtocolContext)
    (s : SumStruct) :
  Z.of_nat (length basis) < 2 ^ 31 -> 0 < effective_blength basis ctx < 2 ^ 31 ->
  compute_signatures H basis ctx = Ok s -> count (head s) <= MAX_BLOCK_COUNT ->
  collision_free H ctx (Z.to_nat (effective_blength basis ctx)) (s2length (head s)) basis source ->
  eventually DUPLEX_CAPACITY (delivered source) (transfer_file H source basis ctx).
Proof.
  intros Hn Hb Hs Hc Hcf. pose proof (receiver_blength_ok H HL basis ctx s Hn Hb Hs) as Hrb.
  destruct (file_delivered H HL basis source ctx s Hn Hb Hs mkPlainWriter mkPlainReader) as (bs & Hw & Hr);
    [reflexivity|apply plain_accepts|done|].
  apply (roles_complete H HL basis source ctx s Hn Hb Hs Hc DUPLEX_CAPACITY _ _
    (fun s => send_file_delta_with_sums H 0 source s ctx) (recv_file_delta H basis (receiver_blength s) ctx) bs).
  - apply Nat.ltb_lt. vm_compute. reflexivity.
  - reflexivity.
  - unfold receiver_task. rewrite Hs. cbn [io_lift mbind io_bind io_bind_fix].
    by rewrite (receiver_blength_code H HL basis ctx s Hn Hb Hs).
  - exact Hw.
  - apply resumable_recv_file_delta; first [lia|exact _].
  - exact Hr.
Qed.

(** A basis and a source that the pipeline can carry: sizes within the formats,
    and no two blocks that the checksums confuse. *)
Definition deliverable (H : HashLib) (ctx : ProtocolContext) (basis source : list Z) : Prop :=
  exists s, Z.of_nat (length basis) < 2 ^ 31 /\ 0 < effective_blength basis ctx < 2 ^ 31 /\
    compute_signatures H basis ctx = Ok s /\ count (head s) <= MAX_BLOCK_COUNT /\
    collision_free H ctx (Z.to_nat (effective_blength basis ctx)) (s2length (head s)) basis source.

Lemma outcome_final {A B C} cap (n n' : network A B C) a b c :
  outcome (first n) = Some a -> outcome (second n) = Some b -> outcome (third n) = Some c -> ~ net_step cap n n'.
Proof.
  unfold net_step, step1, step2, step3, outcome.
  destruct n as [[[] |] p1 [[] |] p2 [[] |]]; cbn; intros; try done. intros [|[|]]; done.
Qed.

(** Whatever such a run returns in the end, it is the source or the broken pipe. *)
Lemma pipeline_outcome (H : HashLib) (HL : HashLaws H) (basis source : list Z) (ctx : ProtocolContext) n r :
  deliverable H ctx basis source ->
  rtc (net_step DUPLEX_CAPACITY) (transfer_file H source basis ctx) n -> transfer_outcome n = Some r ->
  r = Ok source \/ r = Err broken.
Proof.
  intros (s & Hn & Hb & Hs & Hc & Hcf) Hsteps Hr.
  pose proof (pipeline_delivers H HL basis source ctx s Hn Hb Hs Hc Hcf) as Hev.
  revert Hev. induction Hsteps as [m|m m' m'' Hm Hsteps IH]; intros Hev.
  - destruct Hev as [(_ & _ & [Ho|Ho])|[m' Hm'] _]; [left; congruence|right; congruence|]. exfalso. revert Hm'.
    unfold transfer_outcome in Hr. destruct (outcome (first m)) eqn:E1; [|done]. destruct (outcome (second m)) eqn:E2; [|done].
    destruct (outcome (third m)) eqn:E3; [|done]. by eapply outcome_final.
  - apply IH; [done|]. destruct Hev as [(H1 & H3 & Ho)|_ Hall]; [|by apply Hall]. exfalso.
    destruct (outcome (second m)) eqn:E2; [|unfold transfer_outcome in Ho; rewrite H1, E2 in Ho; destruct Ho; done].
    by apply (outcome_final DUPLEX_CAPACITY m m' _ _ _ H1 E2 H3).
Qed.

(** C11. One file through the pipeline, end to end and on every schedule: three
    tasks over two bounded pipes whose bytes move one at a time never block one
    another and come to an end; the generator succeeds, the receiver returns
    exactly the source, and the whole transfer returns the source unless the
    sender's last write, the done marker, finds the receiver gone. *)
Theorem transfer_file_completes (H : HashLib) (HL : HashLaws H) (basis source : list Z) (ctx : ProtocolContext)
    (s : SumStruct) :
  Z.of_nat (length basis) < 2 ^ 31 -> 0 < effective_blength basis ctx < 2 ^ 31 ->
  compute_signatures H basis ctx = Ok s -> count (head s) <= MAX_BLOCK_COUNT ->
  collision_free H ctx (Z.to_nat (effective_blength basis ctx)) (s2length (head s)) basis source ->
  eventually DUPLEX_CAPACITY (delivered source) (transfer_file H source basis ctx).
Proof. apply pipeline_delivers. all: assumption. Qed.

Lemma transfer_file_completes_witness :
  eventually DUPLEX_CAPACITY (delivered small_source) (transfer_file toy_hash small_source small_basis small_ctx).
Proof.
  apply (transfer_file_completes toy_hash toy_hash_laws small_basis small_source small_ctx small_sums).
  - vm_compute. reflexivity.
  - split; vm_compute; reflexivity.
  - vm_compute. reflexivity.
  - vm_compute. discriminate.
  - apply collision_free_dec. vm_compute. reflexivity.
Defined.

(** The compressed pipeline does the same for every negotiated compression
    whose backend keeps its laws, when both ends can be created and the
    operations found are ones the compressed encoding can carry. *)
Theorem transfer_file_compressed_completes (H : HashLib) (HL : HashLaws H) (B : Backends) (BL : BackendLaws B)
    (fuel : nat) (basis source : list Z) (ctx : ProtocolContext) (s : SumStruct) (level : Z) (t : CompressType)
    (c : Compressor B) (d : Decompressor B) :
  Z.of_nat (length basis) < 2 ^ 31 -> 0 < effective_blength basis ctx < 2 ^ 31 ->
  compute_signatures H basis ctx = Ok s -> count (head s) <= MAX_BLOCK_COUNT ->
  collision_free H ctx (Z.to_nat (effective_blength basis ctx)) (s2length (head s)) basis source ->
  Compressor_from_type B t level = Ok c -> Decompressor_from_type B t = Ok d ->
  ops_ok (backends B fuel) (compressor_type B c) true (match_blocks H source s ctx) ->
  eventually DUPLEX_CAPACITY (delivered source) (transfer_file_compressed H B fuel source basis ctx level t).
Proof.
  intros Hn Hb Hs Hc Hcf Ec Ed Hops. pose proof (receiver_blength_ok H HL basis ctx s Hn Hb Hs) as Hrb.
  set (C := backends B fuel).
  assert (Ht : comp_type C c = decomp_type C d).
  { clear -Ec Ed. destruct t; cbn in Ec, Ed; simplify_eq; try done.
    unfold Compressor_new_zstd in Ec. unfold Decompressor_new_zstd in Ed.
    unfold Compress.io, mbind, res_bind in *. destruct (sc_new B _); [|discriminate Ec]. destruct (sd_new B); [|discriminate Ed].
    injection Ec as <-. injection Ed as <-. reflexivity. }
  pose proof (compressed_new C c d Ht) as Hh.
  destruct (file_delivered H HL basis source ctx s Hn Hb Hs (CompressedTokenWriter_new C c)
    (CompressedTokenReader_new C d)) as (bs & Hw & Hr); [done| |done|].
  { destruct (known_ops_sent H HL basis ctx s Hn Hb Hs (CompressedTokenWriter_new C c) _ (match_blocks_known H source s ctx))
      as [Ho _].
    eapply ops_ok_accepts; [exact Hh|exact Hops|]. by apply (op_sent_copies basis (receiver_blength s) Hrb). }
  apply (roles_complete H HL basis source ctx s Hn Hb Hs Hc DUPLEX_CAPACITY _ _
    (fun s => _ ← write_int 0; _ ← write_tokens_and_checksum H (CompressedTokenWriter_new C c)
       (match_blocks H source s ctx) source s ctx; mret tt)
    (recv_file_delta_compressed H C basis (receiver_blength s) ctx d) bs).
  - apply Nat.ltb_lt. vm_compute. reflexivity.
  - unfold sender_task_compressed. by rewrite Ec.
  - unfold receiver_task_compressed. rewrite Hs, Ed. cbn [io_lift mbind io_bind io_bind_fix].
    by rewrite (receiver_blength_code H HL basis ctx s Hn Hb Hs).
  - exact Hw.
  - apply resumable_recv_file_delta; first [lia|exact _].
  - exact Hr.
Qed.

Lemma transfer_file_compressed_completes_witness :
  eventually DUPLEX_CAPACITY (delivered small_source)
    (transfer_file_compressed toy_hash stored_backends 9 small_source small_basis small_ctx 6 Zlib).
Proof.
  apply (transfer_file_compressed_completes toy_hash toy_hash_laws stored_backends stored_laws 9 small_basis
           small_source small_ctx small_sums 6 Zlib (@CompZlib stored_backends []) (@DecompZlib stored_backends [])).
  - vm_compute. reflexivity.
  - split; vm_compute; reflexivity.
  - vm_compute. reflexivity.
  - vm_compute. discriminate.
  - apply collision_free_dec. vm_compute. reflexivity.
  - reflexivity.
  - reflexivity.
  - assert (E : match_blocks toy_hash small_source small_sums small_ctx =
      [Literal [9; 8; 7; 6]; Copy (mkBasisRef 0 3); Copy (mkBasisRef 3 3)]) by (vm_compute; reflexivity).
    rewrite E. cbn [ops_ok]. split; [|split; [done|exact I]]. split; [done|]. split; [|vm_compute; congruence].
    assert (E' : chunks (Z.to_nat DATA_CHUNK_SIZE) [9; 8; 7; 6] = [[9; 8; 7; 6]]) by (vm_compute; reflexivity).
    rewrite E'. constructor; [|constructor].
    split_and!; [vm_compute; congruence|lia| | |vm_compute; congruence];
      intros c d [-> ->]; vm_compute; (split_and!; congruence || lia).
Defined.

(** ** The race *)

(** Always the first task of [order] that can step. *)
Fixpoint greedy {A B C} (cap : nat) (order : list nat) (fuel : nat) (n : network A B C) : network A B C :=
  match fuel with
  | O => n
  | S fuel' =>
      match list_find (fun i => run_net cap [i] n <> None) order with
      | Some (_, i) => match run_net cap [i] n with Some n' => greedy cap order fuel' n' | None => n end
      | None => n
      end
  end.

Lemma greedy_reaches {A B C} cap order fuel (n : network A B C) : rtc (net_step cap) n (greedy cap order fuel n).
Proof.
  revert n. induction fuel as [|fuel IH]; intros n; cbn [greedy]; [done|].
  destruct (list_find _ order) as [[j i]|]; [|done].
  destruct (run_net cap [i] n) as [n'|] eqn:E; [|done]. etrans; [|apply IH]. by eapply run_net_reaches.
Qed.

Definition small_transfer : network unit unit (list Z) := transfer_file toy_hash small_source small_basis small_ctx.

(** Both ends of [transfer_file_completes] happen: the same transfer, on a
    schedule that lets the writers run ahead, returns the source; on one that
    lets the receiver run ahead it reports a broken pipe although the receiver
    has the whole file, because the sender awaits its done marker with [?]. *)
Theorem transfer_file_race :
  (exists n, rtc (net_step DUPLEX_CAPACITY) small_transfer n /\ transfer_outcome n = Some (Ok small_source)) /\
  (exists n, rtc (net_step DUPLEX_CAPACITY) small_transfer n /\ transfer_outcome n = Some (Err broken) /\
     outcome (third n) = Some (Ok small_source)).
Proof.
  split.
  - exists (greedy DUPLEX_CAPACITY [1; 2; 3]%nat 1000 small_transfer). split; [apply greedy_reaches|].
    vm_compute. reflexivity.
  - exists (greedy DUPLEX_CAPACITY [3; 1; 2]%nat 1000 small_transfer). split; [apply greedy_reaches|].
    split; vm_compute; reflexivity.
Qed.
