(* ===== verification/Text.v ===== *)
(** Rust strings by their UTF-8 bytes: the functions of [str] the parsers of
    the program use, and results with an error type of one's own. *)
From S2P Require Import Prelude Utf8.

(** ** [Result<A, E>] as [E + A] *)

#[export] Instance sum_ret {E} : MRet (sum E) := fun A a => inr a.
#[export] Instance sum_bind {E} : MBind (sum E) := fun A B f m =>
  match m with inl e => inl e | inr a => f a end.

Lemma sum_bind_inr {E A B} (m : E + A) (f : A -> E + B) b :
  (m ≫= f) = inr b <-> exists a, m = inr a /\ f a = inr b.
Proof. destruct m as [e|a]; cbn; [split; [done|by intros (? & ? & _)]|]. split; [eauto|by intros (? & [= <-] & ?)]. Qed.

(** Methods that change their object and may fail half way: the object as it
    is left comes with the outcome. *)
Definition method (E S : Type) : Type := S -> (E + unit) * S.
Definition then_ {E S} (m m' : method E S) : method E S := fun s =>
  match m s with
  | (inr _, s') => m' s'
  | (inl e, s') => (inl e, s')
  end.
Definition skip {E S} : method E S := fun s => (inr tt, s).

(** [for x in l { f(x)?; }] *)
Fixpoint for_each {E S A} (f : A -> method E S) (l : list A) : method E S :=
  match l with
  | [] => skip
  | x :: l' => then_ (f x) (for_each f l')
  end.

Lemma then_assoc {E S} (m1 m2 m3 : method E S) s : then_ (then_ m1 m2) m3 s = then_ m1 (then_ m2 m3) s.
Proof. unfold then_. by destruct (m1 s) as [[e|u] s']. Qed.

Lemma for_each_app {E S A} (f : A -> method E S) l1 l2 s :
  for_each f (l1 ++ l2) s = then_ (for_each f l1) (for_each f l2) s.
Proof.
  revert s. induction l1 as [|x l1 IH]; intros s; [done|]. cbn [app for_each]. rewrite then_assoc.
  unfold then_ at 1 2. destruct (f x s) as [[e|[]] s']; [done|]. apply IH.
Qed.

(** ** Prefixes and suffixes *)

Fixpoint strip_prefix (p l : list Z) : option (list Z) :=
  match p, l with
  | [], _ => Some l
  | b :: p', c :: l' => if b =? c then strip_prefix p' l' else None
  | _ :: _, [] => None
  end.
Definition strip_suffix (p l : list Z) : option (list Z) :=
  match strip_prefix (rev p) (rev l) with Some r => Some (rev r) | None => None end.
Definition starts_with (l p : list Z) : bool :=
  match strip_prefix p l with Some _ => true | None => false end.

Lemma strip_prefix_app p l : strip_prefix p (p ++ l) = Some l.
Proof. induction p as [|b p IH]; [done|]. cbn [app strip_prefix]. by rewrite Z.eqb_refl. Qed.

Lemma strip_prefix_Some p l r : strip_prefix p l = Some r <-> l = p ++ r.
Proof.
  split; [|intros ->; apply strip_prefix_app]. revert l. induction p as [|b p IH]; intros l; cbn [strip_prefix app].
  - by intros [= ->].
  - destruct l as [|c l]; [done|]. destruct (Z.eqb_spec b c) as [->|]; [|done]. intros H. f_equal. by apply IH.
Qed.

Lemma strip_suffix_Some p l r : strip_suffix p l = Some r <-> l = r ++ p.
Proof.
  unfold strip_suffix. split.
  - destruct (strip_prefix (rev p) (rev l)) as [q|] eqn:E; [|done]. intros [= <-].
    apply strip_prefix_Some in E. apply (f_equal (@rev Z)) in E. by rewrite rev_involutive, rev_app_distr, rev_involutive in E.
  - intros ->. by rewrite rev_app_distr, strip_prefix_app, rev_involutive.
Qed.

Lemma starts_with_spec l p : starts_with l p = true <-> exists r, l = p ++ r.
Proof.
  unfold starts_with. destruct (strip_prefix p l) as [r|] eqn:E.
  - apply strip_prefix_Some in E. split; eauto.
  - split; [done|]. intros [r ->]. by rewrite strip_prefix_app in E.
Qed.

(** ** [trim]: the characters of the Unicode property White_Space *)

Definition WHITE_SPACE : list (list Z) :=
  [[9]; [10]; [11]; [12]; [13]; [32]; [0xC2; 0x85]; [0xC2; 0xA0]; [0xE1; 0x9A; 0x80];
   [0xE2; 0x80; 0x80]; [0xE2; 0x80; 0x81]; [0xE2; 0x80; 0x82]; [0xE2; 0x80; 0x83]; [0xE2; 0x80; 0x84];
   [0xE2; 0x80; 0x85]; [0xE2; 0x80; 0x86]; [0xE2; 0x80; 0x87]; [0xE2; 0x80; 0x88]; [0xE2; 0x80; 0x89];
   [0xE2; 0x80; 0x8A]; [0xE2; 0x80; 0xA8]; [0xE2; 0x80; 0xA9]; [0xE2; 0x80; 0xAF]; [0xE2; 0x81; 0x9F];
   [0xE3; 0x80; 0x80]].

Fixpoint first_strip (ps : list (list Z)) (l : list Z) : option (list Z) :=
  match ps with
  | [] => None
  | p :: ps' => match strip_prefix p l with Some r => Some r | None => first_strip ps' l end
  end.
Fixpoint trim_with (ps : list (list Z)) (fuel : nat) (l : list Z) : list Z :=
  match fuel with
  | O => l
  | S f => match first_strip ps l with Some r => trim_with ps f r | None => l end
  end.
Definition trim_start (l : list Z) : list Z := trim_with WHITE_SPACE (length l) l.
Definition trim_end (l : list Z) : list Z := rev (trim_with (map (@rev Z) WHITE_SPACE) (length l) (rev l)).
Definition trim (l : list Z) : list Z := trim_end (trim_start l).

(** No white space at either end. *)
Definition trimmed (l : list Z) : Prop :=
  first_strip WHITE_SPACE l = None /\ first_strip (map (@rev Z) WHITE_SPACE) (rev l) = None.

Lemma trim_with_None ps f l : first_strip ps l = None -> trim_with ps f l = l.
Proof. intros H. destruct f; cbn [trim_with]; [done|]. by rewrite H. Qed.

Lemma trim_trimmed l : trimmed l -> trim l = l.
Proof.
  intros [H1 H2]. unfold trim, trim_start. rewrite trim_with_None by done. unfold trim_end.
  by rewrite trim_with_None, rev_involutive.
Qed.

Lemma first_strip_None ps l : first_strip ps l = None <-> forall p, p ∈ ps -> strip_prefix p l = None.
Proof.
  induction ps as [|p ps IH]; cbn [first_strip].
  - split; [|done]. intros _ p Hp. by apply not_elem_of_nil in Hp.
  - destruct (strip_prefix p l) as [r|] eqn:E.
    + split; [done|]. intros H. by rewrite H in E by left.
    + rewrite IH. split; [|by intros H p' Hp'; apply H; right].
      intros H p' [->|Hp']%elem_of_cons; [done|by apply H].
Qed.

Lemma strip_prefix_space p x l : 32 ∉ p \/ p = [32] -> x <> [] ->
  strip_prefix p x = None -> strip_prefix p (x ++ 32 :: l) = None.
Proof.
  intros Hp Hx. destruct x as [|c x]; [done|]. clear Hx. destruct Hp as [Hp|Hp].
  2: { subst p. cbn [app strip_prefix]. by destruct (32 =? c). }
  revert c x. induction p as [|b p IH]; intros c x; [done|]. cbn [app strip_prefix].
  apply not_elem_of_cons in Hp as [Hb Hp]. destruct (b =? c); [|done]. destruct x as [|d x].
  - destruct p as [|b' p]; [done|]. apply not_elem_of_cons in Hp as [Hb' _]. cbn [app strip_prefix].
    destruct (Z.eqb_spec b' 32); [by subst b'|done].
  - by apply IH.
Qed.

(** A keyword and a space in front of trimmed text. *)
Lemma trimmed_keyword w l : w <> [] -> first_strip WHITE_SPACE w = None -> l <> [] -> trimmed l ->
  trimmed (w ++ 32 :: l).
Proof.
  intros Hw Hws Hl [_ H2]. rewrite first_strip_None in *. 
  assert (Hsp : Forall (fun p => (32 ∉ p \/ p = [32]) /\ (32 ∉ rev p \/ rev p = [32])) WHITE_SPACE)
    by (apply (bool_decide_unpack _); vm_compute; exact I).
  rewrite Forall_forall in Hsp. split; apply first_strip_None.
  - intros p Hp. destruct (Hsp p Hp) as [Hsp1 _]. by apply strip_prefix_space; [|auto..].
  - intros p Hp. specialize (H2 p Hp). apply list_elem_of_fmap in Hp as (q & -> & Hq).
    destruct (Hsp q Hq) as [_ Hsp2]. rewrite rev_app_distr. cbn [rev]. rewrite <- app_assoc. cbn [app].
    apply strip_prefix_space; [done| |done]. intros E. apply (f_equal (@rev Z)) in E. by rewrite rev_involutive in E.
Qed.

(** Visible ASCII is not white space. *)
Definition invisible_head (q : list Z) : bool :=
  match q with b :: _ => (b <=? 32) || (128 <=? b) | [] => false end.

Lemma trimmed_visible l : Forall (fun b => 32 < b < 128) l -> trimmed l.
Proof.
  intros Hl. assert (Hsp : forallb (fun p => invisible_head p && invisible_head (rev p)) WHITE_SPACE = true) by reflexivity.
  rewrite forallb_forall in Hsp.
  assert (H : forall q l, Forall (fun b => 32 < b < 128) l -> invisible_head q = true -> strip_prefix q l = None).
  { intros [|b q] [|c l'] Hl' Hq; try done. cbn [strip_prefix invisible_head] in *. inversion_clear Hl'.
    destruct (Z.eqb_spec b c); [lia|done]. }
  split; apply first_strip_None; intros p Hp.
  - apply H; [done|]. apply list_elem_of_In in Hp. apply Hsp, andb_prop in Hp. by destruct Hp.
  - apply list_elem_of_fmap in Hp as (q & -> & Hq). apply H; [by apply Forall_rev|].
    apply list_elem_of_In in Hq. apply Hsp, andb_prop in Hq. by destruct Hq.
Qed.

(** ** [lines]: up to each line feed, a carriage return before it dropped; no
    empty line after the last one. *)
Definition drop_cr (l : list Z) : list Z := match strip_suffix [13] l with Some r => r | None => l end.
Fixpoint lines_aux (line l : list Z) : list (list Z) :=
  match l with
  | [] => if bool_decide (line = []) then [] else [line]
  | b :: l' => if b =? 10 then drop_cr line :: lines_aux [] l' else lines_aux (line ++ [b]) l'
  end.
Definition lines (l : list Z) : list (list Z) := lines_aux [] l.

Definition unlines (ls : list (list Z)) : list Z := concat (map (fun l => l ++ [10]) ls).

Lemma lines_aux_line line l rest : 10 ∉ l -> lines_aux line (l ++ 10 :: rest) = drop_cr (line ++ l) :: lines_aux [] rest.
Proof.
  revert line. induction l as [|b l IH]; intros line Hl; cbn [app lines_aux].
  - by rewrite app_nil_r.
  - apply not_elem_of_cons in Hl as [Hb Hl]. destruct (Z.eqb_spec b 10); [by subst b|]. rewrite IH by done.
    by rewrite <- app_assoc.
Qed.

Lemma lines_unlines ls : Forall (fun l => (10 ∉ l) /\ (drop_cr l = l)) ls -> lines (unlines ls) = ls.
Proof.
  induction 1 as [|l ls [Hl Hcr] _ IH]; [done|]. unfold lines, unlines in *. cbn [map concat].
  rewrite <- app_assoc. cbn [app]. rewrite lines_aux_line by done. cbn [app]. by rewrite Hcr, IH.
Qed.
