(* ===== verification/Filter.v ===== *)
(** [ferrosync-filter]: glob patterns ([pattern.rs]) and filter rules
    ([rule.rs]).  Patterns and paths are byte strings; the contents of rule
    files come from a parameter. *)
From S2P Require Import Prelude Utf8 Text.

Inductive FilterError :=
  | InvalidRule (rule : list Z)
  | ReadFile (path : list Z)
  | InvalidPattern (pattern : list Z) (message : string).
#[export] Instance FilterError_eq_dec : EqDecision FilterError.
Proof. solve_decision. Defined.

(** ** pattern.rs *)

Inductive Segment :=
  | Star
  | DoubleStar
  | Question
  | Literal (l : list Z)
  | CharClass (chars : list Z) (negated : bool).
#[export] Instance Segment_eq_dec : EqDecision Segment.
Proof. solve_decision. Defined.

Record Pattern := mkPattern {
  source : list Z;
  anchored : bool;
  dir_only : bool;
  segments : list Segment;
}.

(** [lo..=hi] *)
Definition byte_range (lo hi : Z) : list Z :=
  map (fun i => lo + Z.of_nat i) (seq 0 (Z.to_nat (hi - lo + 1))).

(** The loop of [parse_char_class], on what follows the negation mark: the
    bytes of the class and what follows its bracket; [None] without one. *)
Fixpoint class_chars (l chars : list Z) : option (list Z * list Z) :=
  match l with
  | [] => None
  | c :: rest =>
      if c =? 93 then Some (chars, rest)
      else match rest with
           | d :: hi :: rest' =>
               if d =? 45 then class_chars rest' (chars ++ byte_range c hi)
               else class_chars rest (chars ++ [c])
           | _ => class_chars rest (chars ++ [c])
           end
  end.

Definition unterminated (pat : list Z) : FilterError :=
  InvalidPattern (from_utf8_lossy pat) "unterminated character class".

(** On the pattern from the opening bracket on. *)
Definition parse_char_class (pat : list Z) : FilterError + (Segment * list Z) :=
  let i := drop 1 pat in
  let negated := match i with c :: _ => (c =? 33) || (c =? 94) | [] => false end in
  match class_chars (if negated then drop 1 i else i) [] with
  | Some (chars, rest) => inr (CharClass chars negated, rest)
  | None => inl (unterminated pat)
  end.

Definition special (b : Z) : bool := (b =? 42) || (b =? 63) || (b =? 91).

(** [while i < len && pat[i] is not special { i += 1 }] *)
Fixpoint span_literal (pat : list Z) : list Z * list Z :=
  match pat with
  | [] => ([], [])
  | b :: pat' => if special b then ([], pat) else let '(l, rest) := span_literal pat' in (b :: l, rest)
  end.

Definition skip_slash (pat : list Z) : list Z :=
  match pat with b :: pat' => if b =? 47 then pat' else pat | [] => pat end.

(** One round of the loop: a segment and the rest of the pattern. *)
Definition compile_step (b : Z) (pat' : list Z) : FilterError + (Segment * list Z) :=
  if b =? 42 then
    match pat' with
    | c :: rest => if c =? 42 then inr (DoubleStar, skip_slash rest) else inr (Star, pat')
    | [] => inr (Star, pat')
    end
  else if b =? 63 then inr (Question, pat')
  else if b =? 91 then parse_char_class (b :: pat')
  else let '(l, rest) := span_literal (b :: pat') in inr (Literal l, rest).

Fixpoint compile_loop (fuel : nat) (pat : list Z) : FilterError + list Segment :=
  match fuel, pat with
  | _, [] => inr []
  | O, _ => inr []
  | S f, b :: pat' =>
      p ← compile_step b pat';
      segs ← compile_loop f p.2;
      mret (p.1 :: segs)
  end.
(** Every round takes a byte ([compile_step_shorter]). *)
Definition compile (pat : list Z) : FilterError + list Segment := compile_loop (length pat) pat.

Definition Pattern_new (pattern : list Z) : FilterError + Pattern :=
  let '(anchored, pat) := match strip_prefix [47] pattern with
                          | Some rest => (true, rest) | None => (false, pattern) end in
  let '(dir_only, pat) := match strip_suffix [47] pat with
                          | Some rest => (true, rest) | None => (false, pat) end in
  let anchored := anchored || bool_decide (47 ∈ pat) in
  segments ← compile pat;
  let source := if anchored && negb (starts_with pattern [47]) then 47 :: pattern else pattern in
  mret (mkPattern source anchored dir_only segments).

(** The loops of the two stars: [f] on ever shorter rests of the text. *)
Fixpoint star_loop (f : list Z -> bool) (text : list Z) : bool :=
  if f text then true
  else match text with [] => false | c :: text' => if c =? 47 then false else star_loop f text' end.
Fixpoint double_star_loop (f : list Z -> bool) (text : list Z) : bool :=
  if f text then true
  else match text with [] => false | _ :: text' => double_star_loop f text' end.

Fixpoint match_recursive (segments : list Segment) (text : list Z) : bool :=
  match segments with
  | [] => bool_decide (text = [])
  | Literal lit :: segments' =>
      match strip_prefix lit text with Some text' => match_recursive segments' text' | None => false end
  | Star :: segments' => star_loop (match_recursive segments') text
  | DoubleStar :: segments' => double_star_loop (match_recursive segments') text
  | Question :: segments' =>
      match text with c :: text' => if c =? 47 then false else match_recursive segments' text' | [] => false end
  | CharClass chars negated :: segments' =>
      match text with
      | [] => false
      | ch :: text' =>
          let in_class := bool_decide (ch ∈ chars) in
          if (if negated then negb in_class else in_class) then match_recursive segments' text' else false
      end
  end.
Definition match_segments (segments : list Segment) (text : list Z) : bool := match_recursive segments text.

(** What follows the last slash, if there is one ([rposition]). *)
Fixpoint after_last_slash (path : list Z) : option (list Z) :=
  match path with
  | [] => None
  | c :: path' =>
      match after_last_slash path' with
      | Some name => Some name
      | None => if c =? 47 then Some path' else None
      end
  end.

Definition matches (p : Pattern) (path : list Z) (is_dir : bool) : bool :=
  if dir_only p && negb is_dir then false
  else if anchored p then match_segments (segments p) path
  else if match_segments (segments p) path then true
  else match after_last_slash path with
       | Some name => match_segments (segments p) name
       | None => false
       end.

(** ** rule.rs *)

Inductive FilterAction := Include | Exclude.
#[export] Instance FilterAction_eq_dec : EqDecision FilterAction.
Proof. solve_decision. Defined.

Record FilterRule := mkFilterRule {
  action : FilterAction;
  pattern : Pattern;
}.

(** The keywords of a rule, each followed by a space. *)
Definition keywords : list (string * FilterAction) :=
  [("-", Exclude); ("+", Include); ("exclude", Exclude); ("include", Include)]%string.

Fixpoint first_keyword (kws : list (string * FilterAction)) (s : list Z) : option (FilterAction * list Z) :=
  match kws with
  | [] => None
  | (kw, act) :: kws' =>
      match strip_prefix (str_bytes kw ++ [32]) s with
      | Some rest => Some (act, trim rest)
      | None => first_keyword kws' s
      end
  end.

Definition FilterRule_parse (s : list Z) : FilterError + FilterRule :=
  let s := trim s in
  match first_keyword keywords s with
  | None => inl (InvalidRule s)
  | Some (action, pattern_str) => pattern ← Pattern_new pattern_str; mret (mkFilterRule action pattern)
  end.

Record FilterRuleList := mkFilterRuleList {
  rules : list FilterRule;
  scope_stack : list nat;
}.
Definition FilterRuleList_new : FilterRuleList := mkFilterRuleList [] [].

Definition push_rule (l : FilterRuleList) (r : FilterRule) : FilterRuleList :=
  mkFilterRuleList (rules l ++ [r]) (scope_stack l).

(** [self.rules.push(..?)] *)
Definition try_push (r : FilterError + FilterRule) : method FilterError FilterRuleList := fun l =>
  match r with inr r => (inr tt, push_rule l r) | inl e => (inl e, l) end.

Definition add_exclude (pattern : list Z) : method FilterError FilterRuleList :=
  try_push (p ← Pattern_new pattern; mret (mkFilterRule Exclude p)).
Definition add_include (pattern : list Z) : method FilterError FilterRuleList :=
  try_push (p ← Pattern_new pattern; mret (mkFilterRule Include p)).
Definition add_rule (rule : list Z) : method FilterError FilterRuleList := try_push (FilterRule_parse rule).

Definition is_comment (line : list Z) : bool :=
  bool_decide (line = []) || starts_with line [35] || starts_with line [59].

(** [std::fs::read_to_string]: [None] when it fails. *)
Section files.
  Context (read_to_string : list Z -> option (list Z)).

(** The loop the three readers of rule files share. *)
Definition add_lines (add : list Z -> method FilterError FilterRuleList) (path : list Z)
    : method FilterError FilterRuleList := fun l =>
  match read_to_string path with
  | None => (inl (ReadFile path), l)
  | Some content =>
      for_each (fun line => let line := trim line in if is_comment line then skip else add line) (lines content) l
  end.

Definition add_excludes_from_file : list Z -> method FilterError FilterRuleList := add_lines add_exclude.
Definition add_includes_from_file : list Z -> method FilterError FilterRuleList := add_lines add_include.
Definition merge_filter_file : list Z -> method FilterError FilterRuleList := add_lines add_rule.

Definition from_options (excludes includes filters include_from exclude_from : list (list Z))
    : FilterError + FilterRuleList :=
  let '(r, list) :=
    then_ (for_each add_rule filters)
      (then_ (for_each add_include includes)
        (then_ (for_each add_includes_from_file include_from)
          (then_ (for_each add_excludes_from_file exclude_from)
            (for_each add_exclude excludes)))) FilterRuleList_new in
  _ ← r; mret list.

End files.

Definition rule_matches (r : FilterRule) (path : list Z) (is_dir : bool) : bool := matches (pattern r) path is_dir.

Fixpoint rules_include (rs : list FilterRule) (path : list Z) (is_dir : bool) : bool :=
  match rs with
  | [] => true
  | r :: rs' => if rule_matches r path is_dir then bool_decide (action r = Include) else rules_include rs' path is_dir
  end.
Definition is_included (l : FilterRuleList) (path : list Z) (is_dir : bool) : bool :=
  rules_include (rules l) path is_dir.

Definition CVS_EXCLUDE_PATTERNS : list string :=
  ["RCS"; "SCCS"; "CVS"; "CVS.adm"; "RCSLOG"; "cvslog.*"; "tags"; "TAGS"; ".make.state"; ".nse_depinfo"; "*~";
   "#*"; ".#*"; ",*"; "_$*"; "*.old"; "*.bak"; "*.BAK"; "*.orig"; "*.rej"; ".del-*"; "*.a"; "*.olb"; "*.o";
   "*.obj"; "*.so"; "*.exe"; "*.Z"; "*.elc"; "*.ln"; "core"; ".svn/"; ".git/"; ".hg/"; ".bzr/"]%string.

(** [let _ = self.add_exclude(pattern)] *)
Definition add_cvs_excludes (l : FilterRuleList) : FilterRuleList :=
  foldl (fun l p => (add_exclude (str_bytes p) l).2) l CVS_EXCLUDE_PATTERNS.

(** The stack grows at its end, as the [Vec] does. *)
Definition push_scope (l : FilterRuleList) : FilterRuleList :=
  mkFilterRuleList (rules l) (scope_stack l ++ [length (rules l)]).
Definition pop_scope (l : FilterRuleList) : FilterRuleList :=
  match last (scope_stack l) with
  | Some n => mkFilterRuleList (take n (rules l)) (take (length (scope_stack l) - 1) (scope_stack l))
  | None => l
  end.

(** ** What a pattern means

    [glob pat text], by the bytes of the pattern: a star stands for bytes
    other than a slash, two stars for any bytes, a question mark for one byte
    other than a slash, a class for one of its bytes. *)
Inductive glob : list Z -> list Z -> Prop :=
  | glob_end : glob [] []
  | glob_char b p t : special b = false -> glob p t -> glob (b :: p) (b :: t)
  | glob_star p a t : head p <> Some 42 -> 47 ∉ a -> glob p t -> glob (42 :: p) (a ++ t)
  | glob_double_star p a t : glob (skip_slash p) t -> glob (42 :: 42 :: p) (a ++ t)
  | glob_question c p t : c <> 47 -> glob p t -> glob (63 :: p) (c :: t)
  | glob_class p chars negated rest c t :
      parse_char_class (91 :: p) = inr (CharClass chars negated, rest) ->
      (c ∈ chars <-> negated = false) -> glob rest t -> glob (91 :: p) (c :: t).

(** The same by segments. *)
Definition seg_denotes (s : Segment) (a : list Z) : Prop :=
  match s with
  | Star => 47 ∉ a
  | DoubleStar => True
  | Question => exists c, a = [c] /\ c <> 47
  | Literal l => a = l
  | CharClass chars negated => exists c, a = [c] /\ (c ∈ chars <-> negated = false)
  end.
Fixpoint denotes (segs : list Segment) (text : list Z) : Prop :=
  match segs with
  | [] => text = []
  | s :: segs' => exists a t, text = a ++ t /\ seg_denotes s a /\ denotes segs' t
  end.

Lemma star_loop_spec f text :
  star_loop f text = true <-> exists a t, text = a ++ t /\ (47 ∉ a) /\ f t = true.
Proof.
  induction text as [|c text IH]; cbn [star_loop].
  - destruct (f []) eqn:E; split; try done.
    + intros _. exists [], []. split_and!; [done|apply not_elem_of_nil|done].
    + intros (a & t & Ha & _ & Ht). symmetry in Ha. apply app_eq_nil in Ha as [-> ->]. by rewrite E in Ht.
  - destruct (f (c :: text)) eqn:E; [split; [|done]|].
    + intros _. exists [], (c :: text). split_and!; [done|apply not_elem_of_nil|done].
    + destruct (Z.eqb_spec c 47) as [->|Hc]; [split; [done|]|rewrite IH; split].
      * intros (a & t & Ha & Hn & Ht). destruct a as [|x a]; cbn in Ha; [by subst t; rewrite E in Ht|].
        injection Ha as <- _. by apply not_elem_of_cons in Hn as [? _].
      * intros (a & t & -> & Hn & Ht). exists (c :: a), t. split_and!; [done|by apply not_elem_of_cons|done].
      * intros (a & t & Ha & Hn & Ht). destruct a as [|x a]; cbn in Ha; [by subst t; rewrite E in Ht|].
        injection Ha as <- ->. apply not_elem_of_cons in Hn as [_ Hn]. by exists a, t.
Qed.

Lemma double_star_loop_spec f text :
  double_star_loop f text = true <-> exists a t, text = a ++ t /\ f t = true.
Proof.
  induction text as [|c text IH]; cbn [double_star_loop].
  - destruct (f []) eqn:E; split; try done.
    + intros _. by exists [], [].
    + intros (a & t & Ha & Ht). symmetry in Ha. apply app_eq_nil in Ha as [-> ->]. by rewrite E in Ht.
  - destruct (f (c :: text)) eqn:E; [split; [|done]|rewrite IH; split].
    + intros _. by exists [], (c :: text).
    + intros (a & t & -> & Ht). by exists (c :: a), t.
    + intros (a & t & Ha & Ht). destruct a as [|x a]; cbn in Ha; [by subst t; rewrite E in Ht|].
      injection Ha as <- ->. by exists a, t.
Qed.

Lemma match_segments_denotes segs text : match_segments segs text = true <-> denotes segs text.
Proof.
  unfold match_segments. revert text.
  induction segs as [|[| | |l|chars negated] segs IH]; intros text; cbn [match_recursive denotes seg_denotes].
  - apply bool_decide_eq_true.
  - rewrite star_loop_spec. by setoid_rewrite IH.
  - rewrite double_star_loop_spec. setoid_rewrite IH. split; intros (a & t & H); exists a, t; tauto.
  - destruct text as [|c text]; [split; [done|by intros (a & t & H & (c & -> & _) & _)]|].
    destruct (Z.eqb_spec c 47) as [->|Hc]; [split; [done|]|rewrite IH; split].
    + intros (a & t & H & (c & -> & Hc) & _). by injection H as <- _.
    + intros Ht. exists [c], text. split_and!; [done|by exists c|done].
    + intros (a & t & H & (c' & -> & _) & Ht). by injection H as -> ->.
  - destruct (strip_prefix l text) as [r|] eqn:E.
    + apply strip_prefix_Some in E as ->. rewrite IH. split; [by exists l, r|].
      intros (a & t & H & -> & Ht). by apply app_inv_head in H as ->.
    + split; [done|]. intros (a & t & -> & -> & _). by rewrite strip_prefix_app in E.
  - destruct text as [|c text]; [split; [done|by intros (a & t & H & (c & -> & _) & _)]|]. cbv zeta.
    assert (Hc : (if negated then negb (bool_decide (c ∈ chars)) else bool_decide (c ∈ chars)) = true <->
                 (c ∈ chars <-> negated = false)).
    { destruct negated, (bool_decide_reflect (c ∈ chars)) as [Hm|Hm]; cbn [negb]; split; try done; intros H;
        by apply H in Hm || (exfalso; apply Hm, H). }
    destruct (if negated then _ else _) eqn:E; [rewrite IH; split|split; [done|]].
    + intros Ht. exists [c], text. split_and!; [done| |done]. exists c. split; [done|]. by apply Hc.
    + intros (a & t & H & (c' & -> & _) & Ht). by injection H as -> ->.
    + intros (a & t & H & (c' & -> & Hc') & _). injection H as -> _. by apply Hc in Hc'.
Qed.

(** ** Compilation keeps the meaning *)

Lemma span_literal_spec pat l rest : span_literal pat = (l, rest) ->
  pat = l ++ rest /\ Forall (fun b => special b = false) l /\
  (rest = [] \/ exists b r, rest = b :: r /\ special b = true).
Proof.
  revert l rest. induction pat as [|b pat IH]; intros l rest; cbn [span_literal].
  - intros [= <- <-]. split_and!; [done|constructor|by left].
  - destruct (special b) eqn:Eb; [intros [= <- <-]; split_and!; [done|constructor|right; eauto]|].
    destruct (span_literal pat) as [l' rest'] eqn:E. intros [= <- <-].
    destruct (IH _ _ eq_refl) as (-> & Hl & Hr). split_and!; [done|by constructor|done].
Qed.

Lemma glob_literal l rest text : Forall (fun b => special b = false) l ->
  glob (l ++ rest) text <-> exists t, text = l ++ t /\ glob rest t.
Proof.
  intros Hl. revert text. induction Hl as [|b l Hb _ IH]; intros text; cbn [app]; [split; [eauto|by intros (? & -> & ?)]|].
  split.
  - intros Hg. inversion Hg; subst; try done. apply IH in H3 as (t' & -> & Ht). by exists t'.
  - intros (t & -> & Ht). apply glob_char; [done|]. apply IH. eauto.
Qed.

Lemma class_chars_shorter n l chars chars' rest : (length l <= n)%nat ->
  class_chars l chars = Some (chars', rest) -> (length rest < length l)%nat.
Proof.
  revert l chars. induction n as [|n IH]; intros [|c l] chars Hn; cbn [class_chars length] in *; try done; [lia|].
  destruct (c =? 93); [intros [= _ ->]; lia|].
  destruct l as [|d [|hi l']]; try destruct (d =? 45); intros H; apply IH in H; cbn [length] in *; lia.
Qed.

Lemma compile_step_shorter b pat' s rest : compile_step b pat' = inr (s, rest) -> (length rest <= length pat')%nat.
Proof.
  unfold compile_step. destruct (b =? 42) eqn:E1.
  { destruct pat' as [|c r]; [by intros [= _ <-]|]. destruct (c =? 42); intros [= _ <-]; [|done].
    unfold skip_slash. destruct r as [|d r]; [cbn; lia|]. destruct (d =? 47); cbn [length]; lia. }
  destruct (b =? 63) eqn:E2; [by intros [= _ <-]|]. destruct (b =? 91) eqn:E3.
  { unfold parse_char_class. cbn [drop]. cbv zeta. rewrite drop_0.
    destruct (class_chars _ []) as [[chars r]|] eqn:E; [|done]. intros [= _ <-].
    eapply class_chars_shorter in E; [|done]. revert E.
    destruct (match pat' with [] => _ | _ => _ end); [rewrite length_drop|]; lia. }
  destruct (span_literal (b :: pat')) as [l r] eqn:E. intros [= _ <-].
  assert (Hb : special b = false) by (unfold special; by rewrite E1, E2, E3).
  cbn [span_literal] in E. rewrite Hb in E. destruct (span_literal pat') as [l' r'] eqn:E'. injection E as _ <-.
  apply span_literal_spec in E' as (-> & _). rewrite length_app. lia.
Qed.

(** A segment of the compiled pattern stands for what the bytes it was made of do. *)
Lemma compile_step_glob b pat' s rest text : compile_step b pat' = inr (s, rest) ->
  glob (b :: pat') text <-> exists a t, text = a ++ t /\ seg_denotes s a /\ glob rest t.
Proof.
  unfold compile_step. destruct (Z.eqb_spec b 42) as [->|N1].
  { destruct pat' as [|c r].
    - intros [= <- <-]. split; [intros Hg; inversion Hg; subst; try done; by eexists _, _|].
      intros (a & t & -> & Ha & Ht). by apply glob_star.
    - destruct (Z.eqb_spec c 42) as [->|Nc]; intros [= <- <-].
      + split; [intros Hg; inversion Hg; subst; try done; by eexists _, _|].
        intros (a & t & -> & _ & Ht). by apply glob_double_star.
      + split; [intros Hg; inversion Hg; subst; try done; by eexists _, _|].
        intros (a & t & -> & Ha & Ht). apply glob_star; [|done|done]. intros [= ->]. done. }
  destruct (Z.eqb_spec b 63) as [->|N2].
  { intros [= <- <-]. split.
    - intros Hg. inversion Hg; subst; try done. exists [c], t. split_and!; [done|by exists c|done].
    - intros (a & t & -> & (c & -> & Hc) & Ht). by apply glob_question. }
  destruct (Z.eqb_spec b 91) as [->|N3].
  { intros E. assert (Es : exists chars negated, s = CharClass chars negated).
    { unfold parse_char_class in E. cbv zeta in E. destruct (class_chars _ _) as [[chars r]|]; [|done].
      injection E as <- _. eauto. }
    destruct Es as (chars & negated & ->). split.
    - intros Hg. inversion Hg; subst; try done. rewrite E in *. simplify_eq.
      eexists [_], _. split_and!; [done|by eexists|done].
    - intros (a & t & -> & (c & -> & Hc) & Ht). by eapply glob_class. }
  destruct (span_literal (b :: pat')) as [l r] eqn:E. intros [= <- <-].
  apply span_literal_spec in E as (-> & Hl & _). rewrite glob_literal by done.
  split; [intros (t & -> & Ht); by exists l, t|intros (a & t & -> & -> & Ht); eauto].
Qed.

Lemma compile_loop_glob f pat segs text : (length pat <= f)%nat -> compile_loop f pat = inr segs ->
  denotes segs text <-> glob pat text.
Proof.
  revert pat segs text. induction f as [|f IH]; intros [|b pat'] segs text Hf; cbn [compile_loop length] in *; try lia.
  1-2: intros [= <-]; cbn [denotes]; split; [intros ->; constructor|intros Hg; by inversion Hg].
  intros ([s rest] & Es & (segs' & Er & [= <-])%sum_bind_inr)%sum_bind_inr. cbn [fst snd denotes] in *.
  rewrite (compile_step_glob b pat' s rest text Es). apply compile_step_shorter in Es.
  split; intros (a & t & ? & ? & Ht); exists a, t; (split_and!; [done|done|]); apply (IH rest segs'); try done; lia.
Qed.

Lemma match_compiled pat segs text : compile pat = inr segs -> match_segments segs text = true <-> glob pat text.
Proof. intros H. rewrite match_segments_denotes. by apply (compile_loop_glob (length pat)). Qed.

Lemma compile_step_error b pat' e : compile_step b pat' = inl e ->
  b = 91 /\ e = unterminated (91 :: pat').
Proof.
  unfold compile_step. destruct (b =? 42); [by destruct pat' as [|c r]; [|destruct (c =? 42)]|].
  destruct (b =? 63); [done|]. destruct (Z.eqb_spec b 91) as [->|].
  - unfold parse_char_class. cbv zeta. destruct (class_chars _ []) as [[chars r]|]; [done|]. by intros [= <-].
  - by destruct (span_literal _).
Qed.

Lemma compile_step_rest b pat' s rest : compile_step b pat' = inr (s, rest) -> exists pre, b :: pat' = pre ++ rest.
Proof.
  unfold compile_step. destruct (b =? 42).
  { destruct pat' as [|c r]; [intros [= _ <-]; by exists [b]|]. destruct (c =? 42); intros [= _ <-]; [|by exists [b]].
    unfold skip_slash. destruct r as [|d r]; [by exists [b; c]|].
    destruct (d =? 47); [by exists [b; c; d]|by exists [b; c]]. }
  destruct (b =? 63); [intros [= _ <-]; by exists [b]|]. destruct (b =? 91).
  - unfold parse_char_class. cbv zeta. cbn [drop]. rewrite drop_0.
    assert (Hc : forall n l chars chars' r, (length l <= n)%nat -> class_chars l chars = Some (chars', r) -> exists pre, l = pre ++ r).
    { induction n as [|n IH]; intros [|c l] chars chars' r Hn; cbn [class_chars length] in *; try done; [lia|].
      destruct (c =? 93); [intros [= _ ->]; by exists [c]|].
      destruct l as [|d [|hi l']]; try destruct (d =? 45); intros H; apply IH in H as [pre E]; cbn [length] in *;
        first [lia|rewrite E; first [by exists (c :: pre)|by exists (c :: d :: hi :: pre)]]. }
    destruct (class_chars _ []) as [[chars r]|] eqn:E; [|done]. intros [= _ <-].
    apply (Hc _ _ _ _ _ (Nat.le_refl _)) in E as [pre E].
    destruct pat' as [|c pat']; [by destruct pre; [exists [b]|]; cbn in E; subst|].
    destruct ((c =? 33) || (c =? 94)); cbn [drop] in E; rewrite ?drop_0 in E.
    + exists (b :: c :: pre). by rewrite E.
    + exists (b :: pre). by rewrite E.
  - destruct (span_literal (b :: pat')) as [l r] eqn:E. intros [= _ <-]. apply span_literal_spec in E as (-> & _). by exists l.
Qed.

Lemma compile_loop_error f pat e : compile_loop f pat = inl e ->
  exists pre rest, pat = pre ++ 91 :: rest /\ e = unterminated (91 :: rest).
Proof.
  revert pat. induction f as [|f IH]; intros [|b pat']; cbn [compile_loop]; try done.
  destruct (compile_step b pat') as [e'|[s rest]] eqn:E; cbn.
  - intros [= <-]. apply compile_step_error in E as [-> ->]. by exists [], pat'.
  - destruct (compile_loop f rest) as [e'|segs] eqn:El; [|done]. cbn. intros [= <-].
    destruct (IH rest El) as (pre & r & -> & ->). apply compile_step_rest in E as [pre' E]. rewrite E.
    exists (pre' ++ pre), r. by rewrite <- app_assoc.
Qed.

Lemma after_last_slash_None path : after_last_slash path = None <-> 47 ∉ path.
Proof.
  induction path as [|c path IH]; cbn [after_last_slash]; [split; [intros _; apply not_elem_of_nil|done]|].
  rewrite not_elem_of_cons, <- IH. destruct (after_last_slash path); [split; [done|by intros []]|].
  destruct (Z.eqb_spec c 47) as [->|]; split; try done. by intros [].
Qed.

Lemma after_last_slash_Some path name :
  after_last_slash path = Some name <-> exists d, path = d ++ 47 :: name /\ (47 ∉ name).
Proof.
  split.
  - revert name. induction path as [|c path IH]; intros name; cbn [after_last_slash]; [done|].
    destruct (after_last_slash path) as [n|] eqn:E.
    + intros [= <-]. destruct (IH n eq_refl) as (d & -> & Hn). by exists (c :: d).
    + destruct (Z.eqb_spec c 47) as [->|]; [|done]. intros [= <-]. exists []. split; [done|].
      by apply after_last_slash_None.
  - intros (d & -> & Hn). apply after_last_slash_None in Hn. induction d as [|c d IH]; cbn [app after_last_slash].
    + by rewrite Hn.
    + by rewrite IH.
Qed.

Definition slash_if (b : bool) : list Z := if b then [47] else [].

(** How a pattern is taken apart. *)
Lemma Pattern_new_parts p pat : Pattern_new p = inr pat ->
  exists rooted body, p = slash_if rooted ++ body ++ slash_if (dir_only pat) /\
    (rooted = false -> head p <> Some 47) /\ (dir_only pat = false -> last body <> Some 47) /\
    anchored pat = rooted || bool_decide (47 ∈ body) /\ compile body = inr (segments pat).
Proof.
  unfold Pattern_new. destruct (strip_prefix [47] p) as [r|] eqn:Ep;
    [apply strip_prefix_Some in Ep as ->; set (q := r)|set (q := p)];
    (destruct (strip_suffix [47] q) as [body|] eqn:Es;
      [apply strip_suffix_Some in Es|]);
    intros (segs & Hc & [= <-])%sum_bind_inr; cbn [dir_only anchored segments slash_if].
  - exists true, body. split_and!; try done. by rewrite <- Es.
  - exists true, q. rewrite app_nil_r. split_and!; try done. intros _ Hl.
    apply last_Some in Hl as [l' ->]. by rewrite (proj2 (strip_suffix_Some [47] _ l') eq_refl) in Es.
  - exists false, body. split_and!; try done. intros _ Hh. subst q. destruct p as [|c p']; [done|]. injection Hh as ->. done.
  - exists false, q. rewrite app_nil_r. split_and!; try done.
    + intros _ Hh. subst q. destruct p as [|c p']; [done|]. injection Hh as ->. done.
    + intros _ Hl. apply last_Some in Hl as [l' El]. by rewrite (proj2 (strip_suffix_Some [47] _ l') El) in Es.
Qed.

(** ** Properties *)


(** ** The rules of the options *)

(** The rules a line, a list of patterns or a file stands for, in order, with
    the errors among them. *)
Definition exclude_of (p : list Z) : FilterError + FilterRule := p ← Pattern_new p; mret (mkFilterRule Exclude p).
Definition include_of (p : list Z) : FilterError + FilterRule := p ← Pattern_new p; mret (mkFilterRule Include p).

Fixpoint pushes (attempts : list (FilterError + FilterRule)) : method FilterError FilterRuleList :=
  match attempts with
  | [] => skip
  | a :: attempts' => then_ (try_push a) (pushes attempts')
  end.

Lemma pushes_app a b l : pushes (a ++ b) l = then_ (pushes a) (pushes b) l.
Proof.
  revert l. induction a as [|x a IH]; intros l; [done|]. cbn [app pushes]. rewrite then_assoc.
  unfold then_ at 1 2. destruct (try_push x l) as [[e|[]] l']; [done|]. apply IH.
Qed.

Lemma for_each_pushes {A} (f : A -> method FilterError FilterRuleList) (g : A -> list (FilterError + FilterRule)) xs l :
  (forall x l, f x l = pushes (g x) l) -> for_each f xs l = pushes (concat (map g xs)) l.
Proof.
  intros Hf. revert l. induction xs as [|x xs IH]; intros l; [done|]. cbn [for_each map concat].
  rewrite pushes_app. unfold then_. rewrite Hf. destruct (pushes (g x) l) as [[e|[]] l']; [done|]. apply IH.
Qed.

Lemma pushes_one a l : try_push a l = pushes [a] l.
Proof. unfold pushes, then_. by destruct (try_push a l) as [[e|[]] l']. Qed.

Lemma pushes_outcome attempts l :
  match pushes attempts l with
  | (inr _, l') => exists rs, attempts = map inr rs /\ l' = mkFilterRuleList (rules l ++ rs) (scope_stack l)
  | (inl e, l') => exists rs rest, attempts = map inr rs ++ inl e :: rest /\
      l' = mkFilterRuleList (rules l ++ rs) (scope_stack l)
  end.
Proof.
  revert l. induction attempts as [|[e|r] attempts IH]; intros l; cbn [pushes].
  - exists []. rewrite app_nil_r. by destruct l.
  - exists [], attempts. rewrite app_nil_r. by destruct l.
  - specialize (IH (push_rule l r)). unfold then_, try_push. cbn. cbn [push_rule rules scope_stack] in IH.
    destruct (pushes attempts (push_rule l r)) as [[e|u] l'].
    + destruct IH as (rs & rest & -> & ->). exists (r :: rs), rest. by rewrite <- app_assoc.
    + destruct IH as (rs & -> & ->). exists (r :: rs). by rewrite <- app_assoc.
Qed.

Section options.
  Context (read_to_string : list Z -> option (list Z)).

(** The lines of a rule file that are not comments. *)
Definition rule_lines (content : list Z) : list (list Z) :=
  filter (fun line => is_comment line = false) (map trim (lines content)).

Definition file_attempts (of_line : list Z -> FilterError + FilterRule) (path : list Z)
    : list (FilterError + FilterRule) :=
  match read_to_string path with
  | None => [inl (ReadFile path)]
  | Some content => map of_line (rule_lines content)
  end.

Lemma add_lines_pushes add of_line path l : (forall x l, add x l = try_push (of_line x) l) ->
  add_lines read_to_string add path l = pushes (file_attempts of_line path) l.
Proof.
  intros Ha. unfold add_lines, file_attempts, rule_lines. destruct (read_to_string path) as [content|]; [|done].
  rewrite (for_each_pushes _ (fun line => if is_comment (trim line) then [] else [of_line (trim line)])).
  - f_equal. induction (lines content) as [|x xs IH]; [done|]. cbn [map concat]. rewrite filter_cons, IH.
    destruct (is_comment (trim x)); [by rewrite decide_False by done|by rewrite decide_True by done].
  - intros x l'. cbv zeta. destruct (is_comment (trim x)); [done|]. by rewrite Ha, pushes_one.
Qed.

Lemma try_push_of (of_line : list Z -> FilterError + FilterRule) xs l :
  for_each (fun x => try_push (of_line x)) xs l = pushes (map of_line xs) l.
Proof.
  rewrite (for_each_pushes _ (fun x => [of_line x])); [|intros; apply pushes_one]. f_equal.
  induction xs as [|x xs IH]; [done|]. cbn [map concat app]. by rewrite IH.
Qed.

Definition option_attempts (excludes includes filters include_from exclude_from : list (list Z))
    : list (FilterError + FilterRule) :=
  map FilterRule_parse filters ++ (map include_of includes ++ concat (map (file_attempts include_of) include_from)) ++
  (concat (map (file_attempts exclude_of) exclude_from) ++ map exclude_of excludes).

Lemma from_options_pushes excludes includes filters include_from exclude_from :
  from_options read_to_string excludes includes filters include_from exclude_from =
  let '(r, l) := pushes (option_attempts excludes includes filters include_from exclude_from) FilterRuleList_new in
  _ ← r; mret l.
Proof.
  unfold from_options, option_attempts.
  assert (E : forall l, then_ (for_each add_rule filters)
      (then_ (for_each add_include includes)
        (then_ (for_each (add_includes_from_file read_to_string) include_from)
          (then_ (for_each (add_excludes_from_file read_to_string) exclude_from)
            (for_each add_exclude excludes)))) l =
    pushes (map FilterRule_parse filters ++ (map include_of includes ++ concat (map (file_attempts include_of) include_from)) ++
      (concat (map (file_attempts exclude_of) exclude_from) ++ map exclude_of excludes)) l); [|by rewrite E].
  intros l. rewrite <- app_assoc, !pushes_app. unfold then_.
  rewrite (try_push_of FilterRule_parse). destruct (pushes _ l) as [[e|u] l1]; [done|]. rewrite pushes_app. unfold then_.
  rewrite (try_push_of include_of). destruct (pushes _ l1) as [[e|u1] l2]; [done|]. rewrite pushes_app. unfold then_.
  rewrite (for_each_pushes _ (file_attempts include_of)) by (intros; by apply add_lines_pushes).
  destruct (pushes _ l2) as [[e|u2] l3]; [done|]. rewrite pushes_app. unfold then_.
  rewrite (for_each_pushes _ (file_attempts exclude_of)) by (intros; by apply add_lines_pushes).
  destruct (pushes _ l3) as [[e|u3] l4]; [done|]. apply (try_push_of exclude_of).
Qed.

End options.

Lemma map_inr_app {E A} (l : list A) (x y : list (E + A)) :
  map inr l = x ++ y -> exists a b, l = a ++ b /\ x = map inr a /\ y = map inr b.
Proof.
  revert l. induction x as [|s x IH]; intros l; cbn [app]; [intros <-; by exists [], l|].
  destruct l as [|r l]; [done|]. cbn [map]. intros [= <- H]. destruct (IH l H) as (a & b & -> & -> & ->).
  by exists (r :: a), b.
Qed.

Lemma pattern_of_action act p r : (q ← Pattern_new p; mret (mkFilterRule act q)) = (inr r : FilterError + FilterRule) -> action r = act.
Proof. by intros (q & _ & [= <-])%sum_bind_inr. Qed.

Lemma map_of_action act (ps : list (list Z)) rs :
  map (fun p => q ← Pattern_new p; mret (mkFilterRule act q)) ps = (map inr rs : list (FilterError + FilterRule)) ->
  Forall (fun r => action r = act) rs.
Proof.
  revert rs. induction ps as [|p ps IH]; intros [|r rs]; cbn [map]; try done.
  intros [= Hp Hps]. constructor; [by eapply pattern_of_action|by apply IH].
Qed.

Lemma files_action read act paths rs :
  concat (map (file_attempts read (fun p => q ← Pattern_new p; mret (mkFilterRule act q))) paths) = map inr rs ->
  Forall (fun r => action r = act) rs.
Proof.
  revert rs. induction paths as [|path paths IH]; intros rs; cbn [map concat]; [by destruct rs; [constructor|]|].
  intros H. symmetry in H. apply map_inr_app in H as (a & b & -> & Ha & Hb). apply Forall_app. split; [|by apply IH].
  unfold file_attempts in Ha. destruct (read path); [by eapply map_of_action|]. by destruct a as [|? [|]].
Qed.

Lemma rules_include_app a b path is_dir :
  rules_include (a ++ b) path is_dir =
  match find (fun r => rule_matches r path is_dir) a with
  | Some r => bool_decide (action r = Include)
  | None => rules_include b path is_dir
  end.
Proof. induction a as [|r a IH]; cbn [app rules_include find]; [done|]. by destruct (rule_matches r path is_dir). Qed.

Lemma rules_include_same act rs rest path is_dir : Forall (fun r => action r = act) rs ->
  rules_include (rs ++ rest) path is_dir =
  if existsb (fun r => rule_matches r path is_dir) rs then bool_decide (act = Include) else rules_include rest path is_dir.
Proof.
  induction 1 as [|r rs Hr _ IH]; cbn [app rules_include existsb]; [done|].
  destruct (rule_matches r path is_dir); [by rewrite Hr|done].
Qed.

(** C29. The options decide as documented: the filters come first, in order;
    then anything an include pattern or an include file matches is included;
    then anything an exclude pattern or file matches is excluded; the rest is
    included. When a rule, a pattern or a file is bad, the error is that of
    the first bad one in this order. *)
Theorem from_options_decides (read_to_string : list Z -> option (list Z))
    (excludes includes filters include_from exclude_from : list (list Z)) :
  match from_options read_to_string excludes includes filters include_from exclude_from with
  | inr l => exists frs irs ers,
      map FilterRule_parse filters = map inr frs /\
      map include_of includes ++ concat (map (file_attempts read_to_string include_of) include_from) = map inr irs /\
      concat (map (file_attempts read_to_string exclude_of) exclude_from) ++ map exclude_of excludes = map inr ers /\
      l = mkFilterRuleList (frs ++ irs ++ ers) [] /\
      forall path is_dir, is_included l path is_dir =
        match find (fun r => rule_matches r path is_dir) frs with
        | Some r => bool_decide (action r = Include)
        | None => existsb (fun r => rule_matches r path is_dir) irs ||
                  negb (existsb (fun r => rule_matches r path is_dir) ers)
        end
  | inl e => exists rs rest,
      option_attempts read_to_string excludes includes filters include_from exclude_from = map inr rs ++ inl e :: rest
  end.
Proof.
  rewrite from_options_pushes.
  pose proof (pushes_outcome (option_attempts read_to_string excludes includes filters include_from exclude_from)
    FilterRuleList_new) as Ho.
  destruct (pushes _ _) as [[e|u] l]; cbn.
  { destruct Ho as (rs & rest & -> & _). by exists rs, rest. }
  destruct Ho as (rs & Hrs & ->). cbn [rules scope_stack FilterRuleList_new app]. unfold option_attempts in Hrs. symmetry in Hrs.
  apply map_inr_app in Hrs as (frs & rs' & -> & Hf & Hrs). symmetry in Hrs.
  apply map_inr_app in Hrs as (irs & ers & -> & Hi & He). exists frs, irs, ers. split_and!; [done..|].
  intros path is_dir. unfold is_included. cbn [rules]. rewrite rules_include_app.
  destruct (find _ frs) as [r|]; [done|].
  assert (Hia : Forall (fun r => action r = Include) irs).
  { symmetry in Hi. apply map_inr_app in Hi as (a & b & -> & Ha & Hb).
    apply Forall_app. split; [by eapply map_of_action|by eapply files_action]. }
  assert (Hea : Forall (fun r => action r = Exclude) ers).
  { symmetry in He. apply map_inr_app in He as (a & b & -> & Ha & Hb).
    apply Forall_app. split; [by eapply files_action|by eapply map_of_action]. }
  rewrite (rules_include_same Include) by done. destruct (existsb _ irs); [done|].
  rewrite <- (app_nil_r ers) at 1. rewrite (rules_include_same Exclude) by done. by destruct (existsb _ ers).
Qed.

Lemma from_options_example :
  exists l, from_options (fun path => if bool_decide (path = str_bytes "rules") then Some (str_bytes "; backups
 *.bak ") else None) [str_bytes "/build/"] [str_bytes "keep.*"] [str_bytes "- *.o"] [] [str_bytes "rules"] = inr l /\
    is_included l (str_bytes "src/a.o") false = false /\ is_included l (str_bytes "src/keep.bak") false = true /\
    is_included l (str_bytes "src/a.bak") false = false /\ is_included l (str_bytes "build") true = false /\
    is_included l (str_bytes "build") false = true.
Proof. eexists. split; [vm_compute; reflexivity|]. vm_compute. split_and!; reflexivity. Qed.

(** A rule in its short form parses to what it says. *)
Lemma parse_rule_text (act : FilterAction) p : p <> [] -> trimmed p ->
  FilterRule_parse (str_bytes (match act with Exclude => "-" | Include => "+" end) ++ 32 :: p) =
    (q ← Pattern_new p; mret (mkFilterRule act q)).
Proof.
  intros Hp Ht. unfold FilterRule_parse. rewrite trim_trimmed by (destruct act; by apply trimmed_keyword).
  assert (E : first_keyword keywords (str_bytes (match act with Exclude => "-" | Include => "+" end) ++ 32 :: p) =
    Some (act, trim p)) by (destruct act; reflexivity).
  rewrite E, trim_trimmed by done. done.
Qed.

(** ** Scopes *)

Lemma scope_restores rl st extra :
  pop_scope (mkFilterRuleList (rl ++ extra) (st ++ [length rl])) = mkFilterRuleList rl st.
Proof.
  unfold pop_scope. cbn [scope_stack rules]. rewrite last_snoc, length_app. cbn [length].
  rewrite Nat.add_sub, take_app_length, take_app_length. done.
Qed.

(** ** The built-in patterns *)

Definition cvs_rules : list FilterRule :=
  omap (fun p => match exclude_of (str_bytes p) with inr r => Some r | inl _ => None end) CVS_EXCLUDE_PATTERNS.

(** All of them compile, so none is silently left out. *)
Lemma add_cvs_excludes_all l :
  length cvs_rules = length CVS_EXCLUDE_PATTERNS /\
  add_cvs_excludes l = mkFilterRuleList (rules l ++ cvs_rules) (scope_stack l).
Proof.
  split; [vm_compute; reflexivity|]. unfold add_cvs_excludes, cvs_rules.
  assert (Hok : Forall (fun p => exists r, exclude_of (str_bytes p) = inr r) CVS_EXCLUDE_PATTERNS)
    by (repeat (constructor; [eexists; vm_compute; reflexivity|]); constructor).
  revert l. induction Hok as [|p ps [r Hr] _ IH]; intros [rl st]; cbn [foldl omap list_omap]; [by rewrite app_nil_r|].
  unfold add_exclude, try_push. unfold exclude_of in *. rewrite Hr. cbn [snd]. rewrite IH. cbn. by rewrite <- app_assoc.
Qed.

(** ** Where the globs are not those of rsync *)

Definition match_text (p path : string) : option bool :=
  match Pattern_new (str_bytes p) with inr pat => Some (matches pat (str_bytes path) false) | inl _ => None end.

(** Two stars and a slash match inside a name; a negated class matches a
    slash; a class may not end in a dash, nor begin with its closing bracket;
    a backslash quotes nothing. *)
Lemma globs_not_rsync :
  match_text "**/foo" "a/barfoo" = Some true /\ match_text "/a[!b]c" "a/c" = Some true /\
  match_text "[a-]" "a" = None /\ match_text "[]a]" "]" = Some false /\ match_text "\*" "*" = Some false.
Proof. vm_compute. split_and!; reflexivity. Qed.
