(* ===== verification/Scanner.v ===== *)
(** [ferrosync-scanner]: walking directories into file lists
    ([scanner.rs], [walk.rs]), with the filters of each directory in force
    below it.  The file system is a parameter. *)
From S2P Require Import Prelude Wire Types Utf8 Text Filter Acl Sort.

(** ** ferrosync-fs: [FileMetadata], [DirEntry], the file system's reading half *)

Record FileMetadata := mkFileMetadata {
  md_len : Z;
  md_mtime : Z;
  md_mtime_nsec : Z;
  md_mode : Z;
  md_uid : Z;
  md_gid : Z;
  md_rdev : Z;
  md_dev : Z;
  md_ino : Z;
  md_nlink : Z;
}.

Definition metadata_hard_link_info (m : FileMetadata) : option HardLinkInfo :=
  if 1 <? md_nlink m then Some (mkHardLinkInfo (md_dev m) (md_ino m) (md_nlink m)) else None.

Definition to_wire_mode (mode : Z) : Z :=
  if Z.land mode S_IFMT =? S_IFLNK then Z.lor (Z.ldiff mode S_IFMT) WIRE_S_IFLNK else mode.

Definition to_file_entry (m : FileMetadata) (name : list Z) : FileEntry :=
  mkFileEntry name (md_len m) (md_mtime m) (md_mtime_nsec m) (to_wire_mode (md_mode m)) (md_uid m) (md_gid m)
    (md_rdev m) [] [] 0 [] [] None (metadata_hard_link_info m) None None.

Record DirEntry := mkDirEntry {
  de_name : list Z;
  de_metadata : FileMetadata;
}.

Inductive FsError :=
  | NotFound (path : list Z)
  | PermissionDenied (path : list Z)
  | NotADirectory (path : list Z)
  | SymlinkLoop (path : list Z)
  | PathTraversal (path : list Z)
  | UnsupportedFileType (path : list Z) (file_type : string)
  | FsIo (path : list Z).

(** The methods of the trait the scanner calls, and the two functions of the
    standard library it uses besides. *)
Record FileSystem := mkFileSystem {
  lstat : list Z -> FsError + FileMetadata;
  stat : list Z -> FsError + FileMetadata;
  read_link : list Z -> FsError + list Z;
  read_file : list Z -> FsError + list Z;
  read_dir : list Z -> FsError + list DirEntry;
  device_id : list Z -> FsError + Z;
  list_xattrs : list Z -> FsError + list (list Z);
  get_xattr : list Z -> list Z -> FsError + option (list Z);
  path_exists : list Z -> bool;
  read_to_string : list Z -> option (list Z);
}.

(** ** Paths: [Path::join], [Path::file_name] on Unix *)

Definition path_join (base p : list Z) : list Z :=
  if starts_with p [47] then p
  else match last base with
       | None => p
       | Some c => if c =? 47 then base ++ p else base ++ 47 :: p
       end.

Fixpoint split_slash (comp path : list Z) : list (list Z) :=
  match path with
  | [] => [comp]
  | b :: path' => if b =? 47 then comp :: split_slash [] path' else split_slash (comp ++ [b]) path'
  end.

(** The last component, unless it is the parent directory; empty components
    and dots do not count. *)
Definition file_name (path : list Z) : option (list Z) :=
  match last (filter (fun c => c <> [] /\ c <> [46]) (split_slash [] path)) with
  | Some c => if bool_decide (c = [46; 46]) then None else Some c
  | None => None
  end.

(** ** codec/entry.rs: [compute_entry_name] *)

(** [s.find("/./")], what follows it *)
Fixpoint after_marker (s : list Z) : option (list Z) :=
  match strip_prefix [47; 46; 47] s with
  | Some after => Some after
  | None => match s with [] => None | _ :: s' => after_marker s' end
  end.

Definition compute_entry_name (source : list Z) (relative : bool) : list Z :=
  if relative then
    let s := from_utf8_lossy source in
    match after_marker s with
    | Some after => after
    | None => match strip_prefix [47] s with Some s' => s' | None => s end
    end
  else match file_name source with Some n => n | None => [] end.

(** ** scanner.rs: items, options, enrichers *)

Record FileListItem := mkFileListItem {
  it_index : Z;
  it_entry : FileEntry;
  it_source_path : list Z;
}.

Inductive DirectoryMode := DmSkip | DmList | DmRecurse.
#[export] Instance DirectoryMode_eq_dec : EqDecision DirectoryMode.
Proof. solve_decision. Defined.

Record ScanOptions := mkScanOptions {
  dir_mode : DirectoryMode;
  one_file_system : bool;
  copy_links : bool;
  relative : bool;
  filter_merge_files : Z;
  preserve_hard_links : bool;
}.

Record FileListEnricher := mkFileListEnricher {
  enrich : FileEntry -> list Z -> FileEntry;
  finalize : list FileListItem -> list FileListItem;
}.

Definition set_link_target (target : list Z) (e : FileEntry) : FileEntry :=
  mkFileEntry (name e) (len e) (mtime e) (mtime_nsec e) (mode e) (uid e) (gid e) (rdev e) target (checksum e)
    (flags e) (user_name e) (group_name e) (hlink_source e) (hard_link_info_field e) (acl e) (xattrs e).
Definition set_acl (a : option Acl) (e : FileEntry) : FileEntry :=
  mkFileEntry (name e) (len e) (mtime e) (mtime_nsec e) (mode e) (uid e) (gid e) (rdev e) (link_target e) (checksum e)
    (flags e) (user_name e) (group_name e) (hlink_source e) (hard_link_info_field e) a (xattrs e).
Definition set_xattrs (x : option ExtendedAttributes) (e : FileEntry) : FileEntry :=
  mkFileEntry (name e) (len e) (mtime e) (mtime_nsec e) (mode e) (uid e) (gid e) (rdev e) (link_target e) (checksum e)
    (flags e) (user_name e) (group_name e) (hlink_source e) (hard_link_info_field e) (acl e) x.
Definition set_hlink_source (h : option (list Z)) (e : FileEntry) : FileEntry :=
  mkFileEntry (name e) (len e) (mtime e) (mtime_nsec e) (mode e) (uid e) (gid e) (rdev e) (link_target e) (checksum e)
    (flags e) (user_name e) (group_name e) h (hard_link_info_field e) (acl e) (xattrs e).

(** [vec.cmp]: bytes in order, a prefix first *)
Fixpoint bytes_cmp (a b : list Z) : comparison :=
  match a, b with
  | [], [] => Eq
  | [], _ :: _ => Lt
  | _ :: _, [] => Gt
  | x :: a', y :: b' => match x ?= y with Eq => bytes_cmp a' b' | c => c end
  end.

Section enrichers.
  Context (fs : FileSystem).

Definition SymlinkEnricher : FileListEnricher :=
  mkFileListEnricher (fun entry path =>
    if FileEntry.is_symlink entry then
      set_link_target (match read_link fs path with inr target => target | inl _ => [] end) entry
    else entry) id.

(** An attribute that is there and parses ([parse_posix_acl_binary] never panics). *)
Definition read_acl (path xattr : list Z) : option PosixAclEntries :=
  match get_xattr fs path xattr with
  | inr (Some data) => match parse_posix_acl_binary data with Ok a => Some a | _ => None end
  | _ => None
  end.

Definition ACL_ACCESS : list Z := str_bytes "system.posix_acl_access".
Definition ACL_DEFAULT : list Z := str_bytes "system.posix_acl_default".

Definition AclEnricher : FileListEnricher :=
  mkFileListEnricher (fun entry path =>
    if FileEntry.is_symlink entry then entry
    else
      let access := read_acl path ACL_ACCESS in
      let default := if FileEntry.is_dir entry then read_acl path ACL_DEFAULT else None in
      match access with
      | Some access_acl => set_acl (Some (Posix (mkPosixAcl access_acl default))) entry
      | None => entry
      end) id.

Definition should_skip (name : list Z) : bool :=
  if bool_decide (name = ACL_ACCESS) || bool_decide (name = ACL_DEFAULT) then true
  else if starts_with name (str_bytes "system.") then true
  else starts_with name (str_bytes "user.rsync.%").

Definition read_xattr (path name : list Z) : option XattrEntry :=
  if should_skip name then None
  else match get_xattr fs path name with
       | inr (Some value) => Some (mkXattrEntry (name ++ [0]) value)
       | _ => None
       end.

Definition XattrEnricher : FileListEnricher :=
  mkFileListEnricher (fun entry path =>
    if FileEntry.is_symlink entry then entry
    else match list_xattrs fs path with
         | inl _ => entry
         | inr names =>
             let xattr_entries := omap (read_xattr path) names in
             let xattr_entries := sort_by (fun a b => bytes_cmp (xattr_name a) (xattr_name b)) xattr_entries in
             if bool_decide (xattr_entries = []) then entry
             else set_xattrs (Some (mkExtendedAttributes xattr_entries)) entry
         end) id.

(** One round of [HardLinkGrouper::finalize]; the map keeps the name of the
    first entry of each (device, inode), which never changes. *)
Definition group_step (first_occurrence : gmap (Z * Z) (list Z)) (item : FileListItem)
    : gmap (Z * Z) (list Z) * FileListItem :=
  match hard_link_info_field (it_entry item) with
  | Some info =>
      if 1 <? hl_nlink info then
        let key := (hl_dev info, hl_ino info) in
        match first_occurrence !! key with
        | Some first_name =>
            (first_occurrence, mkFileListItem (it_index item) (set_hlink_source (Some first_name) (it_entry item))
               (it_source_path item))
        | None => (<[key := name (it_entry item)]> first_occurrence, item)
        end
      else (first_occurrence, item)
  | None => (first_occurrence, item)
  end.
Fixpoint group_links (first_occurrence : gmap (Z * Z) (list Z)) (items : list FileListItem) : list FileListItem :=
  match items with
  | [] => []
  | item :: items' =>
      let '(first_occurrence, item) := group_step first_occurrence item in
      item :: group_links first_occurrence items'
  end.
Definition HardLinkGrouper : FileListEnricher := mkFileListEnricher (fun e _ => e) (group_links ∅).

End enrichers.

(** ** scanner.rs: walking *)

(** [Deep]: the recursion went deeper than the fuel allows; the program has
    its stack instead. *)
Inductive out (A : Type) := Done (a : A) | Failed (e : FsError) | Deep.
Arguments Done {A} _.
Arguments Failed {A} _.
Arguments Deep {A}.
#[export] Instance out_ret : MRet out := fun A a => Done a.
#[export] Instance out_bind : MBind out := fun A B f m =>
  match m with Done a => f a | Failed e => Failed e | Deep => Deep end.
Definition of_fs {A} (m : FsError + A) : out A := match m with inr a => Done a | inl e => Failed e end.

(** [for x in l { .. ? }] over a state *)
Fixpoint fold_out {S A} (f : S -> A -> out S) (s : S) (l : list A) : out S :=
  match l with
  | [] => Done s
  | x :: l' => s ← f s x; fold_out f s l'
  end.

Record ScanState := mkScanState {
  ss_items : list FileListItem;
  ss_index : Z;
  ss_filters : FilterRuleList;
}.

Section scan.
  Context (fs : FileSystem) (options : ScanOptions) (enrichers : list FileListEnricher).

Definition run_enrichers (entry : FileEntry) (path : list Z) : FileEntry :=
  foldl (fun e r => enrich r e path) entry enrichers.

Definition meta_is_dir (m : FileMetadata) : bool := Z.land (md_mode m) S_IFMT =? S_IFDIR.

Definition dir_metadata (path : list Z) : FsError + FileMetadata :=
  if copy_links options then stat fs path else lstat fs path.

(** The metadata a child goes by; [None] for a broken symlink that is skipped. *)
Definition child_metadata (child : DirEntry) (child_path : list Z) : option FileMetadata :=
  if copy_links options then match stat fs child_path with inr m => Some m | inl _ => None end
  else Some (de_metadata child).

Definition child_name (prefix name : list Z) : list Z :=
  if bool_decide (prefix = []) then name else prefix ++ 47 :: name.

Definition entry_of_dir (m : FileMetadata) (prefix path : list Z) : FileEntry :=
  run_enrichers (to_file_entry m (if bool_decide (prefix = []) then [46] else prefix)) path.

Definition sorted_children (children : list DirEntry) : list DirEntry :=
  sort_by (fun a b => bytes_cmp (de_name a) (de_name b)) children.

Definition FILTER_FILE : list Z := str_bytes ".rsync-filter".

Definition push_filter_scope (dir_path : list Z) (filters : FilterRuleList) : bool * FilterRuleList :=
  let filter_path := path_join dir_path FILTER_FILE in
  if (0 <? filter_merge_files options) && path_exists fs filter_path then
    let filters := push_scope filters in
    let filters := (merge_filter_file (read_to_string fs) filter_path filters).2 in
    let filters := if 2 <=? filter_merge_files options then (add_exclude FILTER_FILE filters).2 else filters in
    (true, filters)
  else (false, filters).

Definition push_item (entry : FileEntry) (path : list Z) (st : ScanState) : ScanState :=
  mkScanState (ss_items st ++ [mkFileListItem (ss_index st) entry path]) (as_i32 (ss_index st + 1)) (ss_filters st).
Definition set_filters (filters : FilterRuleList) (st : ScanState) : ScanState :=
  mkScanState (ss_items st) (ss_index st) filters.

(** [--one-file-system]: the directory is on another device. *)
Definition crosses_device (root_dev : option Z) (dir_path : list Z) : bool :=
  match root_dev with
  | Some dev => match device_id fs dir_path with inr current_dev => negb (current_dev =? dev) | inl _ => false end
  | None => false
  end.

Fixpoint collect_directory (fuel : nat) (dir_path prefix : list Z) (root_dev : option Z) (st : ScanState)
    : out ScanState :=
  match fuel with
  | O => Deep
  | S f =>
      if crosses_device root_dev dir_path then Done st
      else
        dir_meta ← of_fs (dir_metadata dir_path);
        let st := push_item (entry_of_dir dir_meta prefix dir_path) dir_path st in
        let '(merged, filters) := push_filter_scope dir_path (ss_filters st) in
        let st := set_filters filters st in
        children ← of_fs (read_dir fs dir_path);
        st ← fold_out (fun st child =>
          let child_name := child_name prefix (de_name child) in
          let child_path := path_join dir_path (de_name child) in
          match child_metadata child child_path with
          | None => Done st
          | Some child_meta =>
              let is_dir := meta_is_dir child_meta in
              if negb (is_included (ss_filters st) child_name is_dir) then Done st
              else if is_dir then collect_directory f child_path child_name root_dev st
              else Done (push_item (run_enrichers (to_file_entry child_meta child_name) child_path) child_path st)
          end) st (sorted_children children);
        Done (if merged : bool then set_filters (pop_scope (ss_filters st)) st else st)
  end.

(** The variant without paths and indices, and without the device check. *)
Fixpoint collect_directory_entries (fuel : nat) (dir_path prefix : list Z) (st : list FileEntry * FilterRuleList)
    : out (list FileEntry * FilterRuleList) :=
  match fuel with
  | O => Deep
  | S f =>
      dir_meta ← of_fs (dir_metadata dir_path);
      let entries := st.1 ++ [entry_of_dir dir_meta prefix dir_path] in
      let '(merged, filters) := push_filter_scope dir_path st.2 in
      children ← of_fs (read_dir fs dir_path);
      st ← fold_out (fun st child =>
        let child_name := child_name prefix (de_name child) in
        let child_path := path_join dir_path (de_name child) in
        match child_metadata child child_path with
        | None => Done st
        | Some child_meta =>
            let is_dir := meta_is_dir child_meta in
            if negb (is_included st.2 child_name is_dir) then Done st
            else if is_dir then collect_directory_entries f child_path child_name st
            else Done (st.1 ++ [run_enrichers (to_file_entry child_meta child_name) child_path], st.2)
        end) (entries, filters) (sorted_children children);
      Done (if merged : bool then (st.1, pop_scope st.2) else st)
  end.

(** The metadata of a source argument: [None] for a broken symlink that is skipped. *)
Definition source_metadata (source : list Z) : FsError + option FileMetadata :=
  if copy_links options then inr (match stat fs source with inr m => Some m | inl _ => None end)
  else m ← lstat fs source; mret (Some m).

Definition scan_source (fuel : nat) (st : ScanState) (source : list Z) : out ScanState :=
  m ← of_fs (source_metadata source);
  match m with
  | None => Done st
  | Some meta =>
      let name := compute_entry_name source (relative options) in
      let is_dir := meta_is_dir meta in
      if negb is_dir && negb (is_included (ss_filters st) name false) then Done st
      else if is_dir then
        match dir_mode options with
        | DmRecurse =>
            let root_dev := if one_file_system options then Some (md_dev meta) else None in
            let prefix := if relative options then name else [] in
            collect_directory fuel source prefix root_dev st
        | DmList => Done (push_item (to_file_entry meta name) source st)
        | DmSkip => Done st
        end
      else Done (push_item (run_enrichers (to_file_entry meta name) source) source st)
  end.

(** The items, and the filters as the caller gets them back. *)
Definition scan (fuel : nat) (source_paths : list (list Z)) (filters : FilterRuleList)
    : out (list FileListItem * FilterRuleList) :=
  st ← fold_out (scan_source fuel) (mkScanState [] 0 filters) source_paths;
  Done (foldl (fun items r => finalize r items) (ss_items st) enrichers, ss_filters st).

Definition scan_entries_source (fuel : nat) (st : list FileEntry * FilterRuleList) (source : list Z)
    : out (list FileEntry * FilterRuleList) :=
  m ← of_fs (source_metadata source);
  match m with
  | None => Done st
  | Some meta =>
      let name := compute_entry_name source (relative options) in
      let is_dir := meta_is_dir meta in
      if negb is_dir && negb (is_included st.2 name is_dir) then Done st
      else if is_dir && bool_decide (dir_mode options = DmRecurse) then
        let prefix := if relative options then name else [] in
        collect_directory_entries fuel source prefix st
      else if is_dir && bool_decide (dir_mode options = DmList) then Done (st.1 ++ [to_file_entry meta name], st.2)
      else if negb is_dir then Done (st.1 ++ [run_enrichers (to_file_entry meta name) source], st.2)
      else Done st
  end.
Definition scan_entries (fuel : nat) (source_paths : list (list Z)) (filters : FilterRuleList)
    : out (list FileEntry * FilterRuleList) :=
  fold_out (scan_entries_source fuel) ([], filters) source_paths.

Definition scan_directory (fuel : nat) (dir_path : list Z) (filters : FilterRuleList)
    : out (list FileEntry * FilterRuleList) :=
  meta ← of_fs (lstat fs dir_path);
  let is_dir := meta_is_dir meta in
  if is_dir && bool_decide (dir_mode options = DmRecurse) then
    collect_directory_entries fuel dir_path [] ([], filters)
  else if is_dir then
    children ← of_fs (read_dir fs dir_path);
    Done (to_file_entry meta [46] ::
          omap (fun child =>
            let is_child_dir := meta_is_dir (de_metadata child) in
            if negb (is_included filters (de_name child) is_child_dir) then None
            else if is_child_dir then None
            else Some (to_file_entry (de_metadata child) (de_name child))) (sorted_children children), filters)
  else
    Done ([to_file_entry meta (match file_name dir_path with Some n => n | None => [] end)], filters).

End scan.

(** [--files-from] *)
Definition files_from_line (fs : FileSystem) (base : list Z) (filters : FilterRuleList)
    (st : list FileListItem * Z) (line : list Z) : list FileListItem * Z :=
  let line := trim line in
  if bool_decide (line = []) then st
  else
    let full_path := path_join base line in
    if negb (is_included filters line false) then st
    else match lstat fs full_path with
         | inl _ => st
         | inr meta => (st.1 ++ [mkFileListItem st.2 (to_file_entry meta line) full_path], as_i32 (st.2 + 1))
         end.
Definition build_file_list_from_file (fs : FileSystem) (source_paths : list (list Z)) (files_from : list Z)
    (filters : FilterRuleList) : FsError + list FileListItem :=
  match source_paths with
  | [] => inl (NotFound (str_bytes "<no source>"))
  | base :: _ =>
      content ← read_file fs files_from;
      inr (foldl (files_from_line fs base filters) ([], 0) (lines (from_utf8_lossy content))).1
  end.

(** ** walk.rs *)

Record WalkOptions := mkWalkOptions {
  w_copy_links : bool;
  w_one_file_system : bool;
  w_filter_merge_files : Z;
}.

Section walk.
  Context (fs : FileSystem) (walk_opts : WalkOptions).

(** The scan options with which the scanner's parts are those of the walk. *)
Definition as_scan_options : ScanOptions :=
  mkScanOptions DmRecurse (w_one_file_system walk_opts) (w_copy_links walk_opts) false (w_filter_merge_files walk_opts) false.

Fixpoint walk_directory_entries (fuel : nat) (dir_path prefix : list Z) (st : list FileEntry * FilterRuleList)
    : out (list FileEntry * FilterRuleList) :=
  match fuel with
  | O => Deep
  | S f =>
      dir_meta ← of_fs (dir_metadata fs as_scan_options dir_path);
      let entries := st.1 ++ [to_file_entry dir_meta (if bool_decide (prefix = []) then [46] else prefix)] in
      let '(merged, filters) := push_filter_scope fs as_scan_options dir_path st.2 in
      children ← of_fs (read_dir fs dir_path);
      st ← fold_out (fun st child =>
        let child_name := child_name prefix (de_name child) in
        let child_path := path_join dir_path (de_name child) in
        match child_metadata fs as_scan_options child child_path with
        | None => Done st
        | Some child_meta =>
            let is_dir := meta_is_dir child_meta in
            if negb (is_included st.2 child_name is_dir) then Done st
            else if is_dir then walk_directory_entries f child_path child_name st
            else
              let entry := to_file_entry child_meta child_name in
              let entry :=
                if negb (w_copy_links walk_opts) && FileEntry.is_symlink entry then
                  set_link_target (match read_link fs child_path with inr target => target | inl _ => [] end) entry
                else entry in
              Done (st.1 ++ [entry], st.2)
        end) (entries, filters) (sorted_children children);
      Done (if merged : bool then (st.1, pop_scope st.2) else st)
  end.

End walk.

(** ** What a walk is to list

    The same traversal with the rules in force passed down as an argument: in
    a directory, the rules of the directories above followed by its own. *)
Section visible.
  Context (fs : FileSystem) (options : ScanOptions) (enrichers : list FileListEnricher).

(** The rules of a directory's own filter file: those before its first bad line. *)
Definition dir_rules (dir_path : list Z) : list FilterRule :=
  let filter_path := path_join dir_path FILTER_FILE in
  if (0 <? filter_merge_files options) && path_exists fs filter_path then
    rules (merge_filter_file (read_to_string fs) filter_path FilterRuleList_new).2 ++
    (if 2 <=? filter_merge_files options then rules (add_exclude FILTER_FILE FilterRuleList_new).2 else [])
  else [].

Fixpoint concat_out {A B} (f : A -> out (list B)) (l : list A) : out (list B) :=
  match l with
  | [] => Done []
  | x :: l' => here ← f x; rest ← concat_out f l'; Done (here ++ rest)
  end.

Fixpoint visible (fuel : nat) (rules : list FilterRule) (dir_path prefix : list Z) (root_dev : option Z)
    : out (list (FileEntry * list Z)) :=
  match fuel with
  | O => Deep
  | S f =>
      if crosses_device fs root_dev dir_path then Done []
      else
        dir_meta ← of_fs (dir_metadata fs options dir_path);
        children ← of_fs (read_dir fs dir_path);
        let rules := rules ++ dir_rules dir_path in
        below ← concat_out (fun child =>
          let child_name := child_name prefix (de_name child) in
          let child_path := path_join dir_path (de_name child) in
          match child_metadata fs options child child_path with
          | None => Done []
          | Some child_meta =>
              let is_dir := meta_is_dir child_meta in
              if negb (rules_include rules child_name is_dir) then Done []
              else if is_dir then visible f rules child_path child_name root_dev
              else Done [(run_enrichers enrichers (to_file_entry child_meta child_name) child_path, child_path)]
          end) (sorted_children children);
        Done ((entry_of_dir enrichers dir_meta prefix dir_path, dir_path) :: below)
  end.

(** ** The walks list it, and give the filters back as they got them *)

Lemma add_lines_appends read add of_line path l : (forall x l, add x l = try_push (of_line x) l) ->
  (add_lines read add path l).2 =
  mkFilterRuleList (rules l ++ rules (add_lines read add path FilterRuleList_new).2) (scope_stack l).
Proof.
  intros Ha. rewrite !(add_lines_pushes read add of_line path _ Ha).
  pose proof (pushes_outcome (file_attempts read of_line path) l) as H1.
  pose proof (pushes_outcome (file_attempts read of_line path) FilterRuleList_new) as H2.
  destruct (pushes _ l) as [[e|u] l1], (pushes _ FilterRuleList_new) as [[e'|u'] l2]; cbn [snd].
  - destruct H1 as (rs & rest & E1 & ->), H2 as (rs' & rest' & E2 & ->). rewrite E1 in E2.
    assert (rs = rs') as ->; [|done]. clear -E2. revert rs' E2.
    induction rs as [|r rs IH]; intros [|r' rs']; cbn; [done..|]. intros [= -> E]. by rewrite (IH rs').
  - destruct H1 as (rs & rest & E1 & _), H2 as (rs' & E2 & _). rewrite E1 in E2. exfalso. clear -E2. revert rs' E2.
    induction rs as [|r rs IH]; intros [|r' rs']; cbn; try done. intros [= _ E]. by eapply IH.
  - destruct H2 as (rs & rest & E1 & _), H1 as (rs' & E2 & _). rewrite E1 in E2. exfalso. clear -E2. revert rs' E2.
    induction rs as [|r rs IH]; intros [|r' rs']; cbn; try done. intros [= _ E]. by eapply IH.
  - destruct H1 as (rs & E1 & ->), H2 as (rs' & E2 & ->). rewrite E1 in E2. by apply (inj _) in E2 as ->.
Qed.

Lemma push_filter_scope_spec dir_path l :
  let '(merged, l') := push_filter_scope fs options dir_path l in
  rules l' = rules l ++ dir_rules dir_path /\ (if merged : bool then pop_scope l' else l') = l.
Proof.
  unfold push_filter_scope, dir_rules. destruct (_ && _); [|by rewrite app_nil_r].
  unfold merge_filter_file. rewrite (add_lines_appends _ add_rule FilterRule_parse) by done.
  set (ms := rules (add_lines _ add_rule _ FilterRuleList_new).2).
  destruct l as [rl st]. cbn [push_scope rules scope_stack]. destruct (2 <=? filter_merge_files options).
  - assert (E : forall l, (add_exclude FILTER_FILE l).2 =
      mkFilterRuleList (rules l ++ rules (add_exclude FILTER_FILE FilterRuleList_new).2) (scope_stack l)).
    { intros l. unfold add_exclude. destruct (q ← Pattern_new FILTER_FILE; _); cbn; [|done].
      rewrite app_nil_r. by destruct l. }
    rewrite E. cbn [rules scope_stack]. rewrite <- app_assoc. split; [done|apply scope_restores].
  - cbn [rules]. rewrite app_nil_r. split; [done|apply scope_restores].
Qed.

Definition out_map {A B} (f : A -> B) (m : out A) : out B := a ← m; Done (f a).

Lemma out_map_bind {A B C} (f : B -> C) (m : out A) (g : A -> out B) : out_map f (m ≫= g) = (a ← m; out_map f (g a)).
Proof. by destruct m. Qed.
Lemma out_bind_ext {A B} (m : out A) (f g : A -> out B) : (forall a, f a = g a) -> (m ≫= f) = (m ≫= g).
Proof. intros H. by destruct m; cbn. Qed.

Lemma fold_concat {S A B} (add : S -> list B -> S) (inv : S -> Prop) (f : S -> A -> out S) (g : A -> out (list B)) l s :
  (forall s, add s [] = s) -> (forall s a b, add (add s a) b = add s (a ++ b)) -> (forall s b, inv s -> inv (add s b)) ->
  (forall s x, inv s -> f s x = out_map (add s) (g x)) ->
  inv s -> fold_out f s l = out_map (add s) (concat_out g l).
Proof.
  intros Hnil Happ Hinv Hf. revert s. induction l as [|x l IH]; intros s Hs; cbn [fold_out concat_out].
  - cbn. by rewrite Hnil.
  - rewrite Hf by done. destruct (g x) as [b|e|]; cbn; [|done..]. rewrite IH by auto.
    destruct (concat_out g l) as [b'|e|]; cbn; [|done..]. by rewrite Happ.
Qed.

Definition add_entries (st : list FileEntry * FilterRuleList) (es : list (FileEntry * list Z)) :=
  (st.1 ++ map fst es, st.2).

Fixpoint number (i : Z) (es : list (FileEntry * list Z)) : list FileListItem :=
  match es with [] => [] | e :: es' => mkFileListItem i e.1 e.2 :: number (as_i32 (i + 1)) es' end.
Fixpoint advance (i : Z) (es : list (FileEntry * list Z)) : Z :=
  match es with [] => i | _ :: es' => advance (as_i32 (i + 1)) es' end.
Definition add_items (st : ScanState) (es : list (FileEntry * list Z)) : ScanState :=
  mkScanState (ss_items st ++ number (ss_index st) es) (advance (ss_index st) es) (ss_filters st).

Lemma number_app i a b : number i (a ++ b) = number i a ++ number (advance i a) b.
Proof. revert i. induction a as [|e a IH]; intros i; cbn; [done|]. by rewrite IH. Qed.
Lemma advance_app i a b : advance i (a ++ b) = advance (advance i a) b.
Proof. revert i. induction a as [|e a IH]; intros i; cbn; [done|]. by rewrite IH. Qed.
Lemma add_items_nil st : add_items st [] = st.
Proof. unfold add_items. cbn. rewrite app_nil_r. by destruct st. Qed.
Lemma add_items_app st a b : add_items (add_items st a) b = add_items st (a ++ b).
Proof. unfold add_items. cbn. by rewrite number_app, advance_app, app_assoc. Qed.
Lemma add_entries_nil st : add_entries st [] = st.
Proof. unfold add_entries. cbn. rewrite app_nil_r. by destruct st. Qed.
Lemma add_entries_app st a b : add_entries (add_entries st a) b = add_entries st (a ++ b).
Proof. unfold add_entries. cbn. by rewrite map_app, app_assoc. Qed.

Lemma collect_entries_visible f dir_path prefix st :
  collect_directory_entries fs options enrichers f dir_path prefix st =
  out_map (add_entries st) (visible f (rules st.2) dir_path prefix None).
Proof.
  revert dir_path prefix st. induction f as [|f IH]; intros dir_path prefix [es filters]; cbn [collect_directory_entries visible]; [done|].
  cbn [crosses_device snd fst]. rewrite out_map_bind. apply out_bind_ext. intros dir_meta.
  pose proof (push_filter_scope_spec dir_path filters) as Hscope.
  destruct (push_filter_scope fs options dir_path filters) as [merged l'] eqn:Ep. destruct Hscope as [Hrules Hpop].
  rewrite out_map_bind. apply out_bind_ext. intros children. cbv zeta. rewrite <- Hrules.
  rewrite (fold_concat add_entries (fun st => st.2 = l') _ (fun child =>
      match child_metadata fs options child (path_join dir_path (de_name child)) with
      | None => Done []
      | Some child_meta =>
          if negb (rules_include (rules l') (child_name prefix (de_name child)) (meta_is_dir child_meta)) then Done []
          else if meta_is_dir child_meta then
            visible f (rules l') (path_join dir_path (de_name child)) (child_name prefix (de_name child)) None
          else Done [(run_enrichers enrichers (to_file_entry child_meta (child_name prefix (de_name child)))
                        (path_join dir_path (de_name child)), path_join dir_path (de_name child))]
      end)).
  - destruct (concat_out _ _) as [below|e|]; cbn; [|done..]. unfold add_entries. cbn. rewrite <- app_assoc. cbn.
    destruct merged; by rewrite Hpop.
  - apply add_entries_nil.
  - apply add_entries_app.
  - done.
  - intros [es1 l1] child Hl. cbn in Hl. subst l1. cbn [snd fst]. cbv zeta.
    destruct (child_metadata _ _ _ _) as [m|]; [|cbn; by rewrite add_entries_nil]. unfold is_included.
    destruct (rules_include _ _ _); cbn [negb]; [|cbn; by rewrite add_entries_nil].
    destruct (meta_is_dir m); [by rewrite IH|done].
  - done.
Qed.

Lemma collect_directory_visible f dir_path prefix root_dev st :
  collect_directory fs options enrichers f dir_path prefix root_dev st =
  out_map (add_items st) (visible f (rules (ss_filters st)) dir_path prefix root_dev).
Proof.
  revert dir_path prefix st. induction f as [|f IH]; intros dir_path prefix [items index filters]; cbn [collect_directory visible]; [done|].
  destruct (crosses_device fs root_dev dir_path); [cbn; by rewrite add_items_nil|].
  rewrite out_map_bind. apply out_bind_ext. intros dir_meta. cbn [push_item ss_filters].
  pose proof (push_filter_scope_spec dir_path filters) as Hscope.
  destruct (push_filter_scope fs options dir_path filters) as [merged l'] eqn:Ep. destruct Hscope as [Hrules Hpop].
  rewrite out_map_bind. apply out_bind_ext. intros children. cbv zeta. rewrite <- Hrules.
  rewrite (fold_concat add_items (fun st => ss_filters st = l') _ (fun child =>
      match child_metadata fs options child (path_join dir_path (de_name child)) with
      | None => Done []
      | Some child_meta =>
          if negb (rules_include (rules l') (child_name prefix (de_name child)) (meta_is_dir child_meta)) then Done []
          else if meta_is_dir child_meta then
            visible f (rules l') (path_join dir_path (de_name child)) (child_name prefix (de_name child)) root_dev
          else Done [(run_enrichers enrichers (to_file_entry child_meta (child_name prefix (de_name child)))
                        (path_join dir_path (de_name child)), path_join dir_path (de_name child))]
      end)).
  - destruct (concat_out _ _) as [below|e|]; cbn; [|done..]. unfold add_items, set_filters, push_item. cbn.
    rewrite <- app_assoc. cbn. destruct merged; by rewrite Hpop.
  - apply add_items_nil.
  - apply add_items_app.
  - done.
  - intros st child Hl. cbv zeta.
    destruct (child_metadata _ _ _ _) as [m|]; [|cbn; by rewrite add_items_nil]. unfold is_included. rewrite Hl.
    destruct (rules_include _ _ _); cbn [negb]; [|cbn; by rewrite add_items_nil].
    destruct (meta_is_dir m); [by rewrite IH, Hl|done].
  - done.
Qed.

Lemma map_entry_number i es : map it_entry (number i es) = map fst es.
Proof. revert i. induction es as [|e es IH]; intros i; cbn; [done|]. by rewrite IH. Qed.

(** What the two scans have in common. *)
Definition entries_of (st : ScanState) : list FileEntry * FilterRuleList := (map it_entry (ss_items st), ss_filters st).

Lemma scan_source_agrees f st source : one_file_system options = false ->
  scan_entries_source fs options enrichers f (entries_of st) source =
  out_map entries_of (scan_source fs options enrichers f st source).
Proof.
  intros Hfs. unfold scan_entries_source, scan_source. rewrite out_map_bind. apply out_bind_ext. intros [meta|]; [|done].
  cbv zeta. cbn [entries_of snd fst]. destruct (meta_is_dir meta); cbn [negb andb].
  - rewrite Hfs. destruct (dir_mode options); cbn.
    + done.
    + unfold entries_of, push_item. cbn. by rewrite map_app.
    + rewrite collect_entries_visible, collect_directory_visible. cbn [snd].
      destruct (visible _ _ _ _ _) as [es|e|]; cbn; [|done..].
      unfold add_entries, entries_of, add_items. cbn. by rewrite map_app, map_entry_number.
  - destruct (is_included _ _ _); cbn; [|done]. unfold entries_of, push_item. cbn. by rewrite map_app.
Qed.

Lemma scan_loop_agrees f sources st : one_file_system options = false ->
  fold_out (scan_entries_source fs options enrichers f) (entries_of st) sources =
  out_map entries_of (fold_out (scan_source fs options enrichers f) st sources).
Proof.
  intros Hfs. revert st. induction sources as [|source sources IH]; intros st; cbn [fold_out]; [done|].
  rewrite scan_source_agrees by done. destruct (scan_source _ _ _ f st source) as [st'|e|]; cbn; [|done..].
  apply IH.
Qed.

(** ** Depth *)

Lemma concat_out_not_deep {A B} (f : A -> out (list B)) l : (forall x, x ∈ l -> f x <> Deep) -> concat_out f l <> Deep.
Proof.
  induction l as [|x l IH]; intros H; cbn [concat_out]; [done|].
  destruct (f x) eqn:E; cbn; [|done|by apply H in E; [|left]].
  destruct (concat_out f l) eqn:El; cbn; try done. exfalso. apply IH; [|done]. intros y Hy. apply H. by right.
Qed.

(** [height] bounds how deep directories nest below a path. *)
Definition nesting (height : list Z -> nat) : Prop :=
  forall dir_path children child m, read_dir fs dir_path = inr children -> child ∈ children ->
    child_metadata fs options child (path_join dir_path (de_name child)) = Some m -> meta_is_dir m = true ->
    (height (path_join dir_path (de_name child)) < height dir_path)%nat.

Lemma visible_not_deep height f rs dir_path prefix root_dev : nesting height ->
  (height dir_path < f)%nat -> visible f rs dir_path prefix root_dev <> Deep.
Proof.
  intros Hn. revert rs dir_path prefix. induction f as [|f IH]; intros rs dir_path prefix Hf; [lia|]. cbn [visible].
  destruct (crosses_device fs root_dev dir_path); [done|].
  destruct (dir_metadata fs options dir_path) as [e|m]; cbn; [done|].
  destruct (read_dir fs dir_path) as [e|children] eqn:Er; cbn; [done|]. cbv zeta.
  assert (H : forall g : DirEntry -> out (list (FileEntry * list Z)),
    (forall c, c ∈ children -> g c <> Deep) -> forall d, (below ← concat_out g (sorted_children children); Done (d :: below)) <> Deep).
  { intros g Hg d. destruct (concat_out g (sorted_children children)) as [|e|] eqn:E; cbn; [done..|]. exfalso. revert E.
    apply concat_out_not_deep. intros c Hc. apply Hg. unfold sorted_children in Hc. by rewrite sort_perm in Hc. }
  apply H. intros c Hc. destruct (child_metadata fs options c _) as [cm|] eqn:Ec; [|done].
  destruct (negb _); [done|]. destruct (meta_is_dir cm) eqn:Ed; [|done]. apply IH.
  pose proof (Hn dir_path children c cm Er Hc Ec Ed). lia.
Qed.

End visible.

(** ** Hard links *)

Definition link_key (item : FileListItem) : option (Z * Z) :=
  match hard_link_info_field (it_entry item) with
  | Some info => if 1 <? hl_nlink info then Some (hl_dev info, hl_ino info) else None
  | None => None
  end.
Definition first_with (k : Z * Z) (items : list FileListItem) : option FileListItem :=
  find (fun item => bool_decide (link_key item = Some k)) items.
Definition relink (to item : FileListItem) : FileListItem :=
  mkFileListItem (it_index item) (set_hlink_source (Some (name (it_entry to))) (it_entry item)) (it_source_path item).

(** The item at a place, given the items before it. *)
Definition linked_to (before : list FileListItem) (item : FileListItem) : FileListItem :=
  match link_key item with
  | Some k => match first_with k before with Some first => relink first item | None => item end
  | None => item
  end.

Lemma first_with_snoc k before item :
  first_with k (before ++ [item]) =
  match first_with k before with Some f => Some f | None => if bool_decide (link_key item = Some k) then Some item else None end.
Proof.
  unfold first_with. induction before as [|x before IH]; cbn [find app]; [done|].
  destruct (bool_decide (link_key x = Some k)); [done|apply IH].
Qed.

Lemma group_links_lookup before items fo i item :
  (forall k, fo !! k = (fun f => name (it_entry f)) <$> first_with k before) ->
  items !! i = Some item -> group_links fo items !! i = Some (linked_to (before ++ take i items) item).
Proof.
  revert before fo i. induction items as [|x items IH]; intros before fo i Hfo; [done|]. cbn [group_links].
  assert (Hstep : group_step fo x = ((group_step fo x).1, linked_to before x) /\
    forall k, (group_step fo x).1 !! k = (fun f => name (it_entry f)) <$> first_with k (before ++ [x])).
  { unfold group_step, linked_to, link_key, relink. setoid_rewrite first_with_snoc. unfold link_key.
    assert (Hno : forall k, fo !! k = (fun f => name (it_entry f)) <$>
        match first_with k before with Some f => Some f | None => None end)
      by (intros k; rewrite Hfo; by destruct (first_with k before)).
    destruct (hard_link_info_field (it_entry x)) as [info|]; [destruct (1 <? hl_nlink info)|]; try by split.
    rewrite Hfo. destruct (first_with (hl_dev info, hl_ino info) before) as [f|] eqn:Ef; cbn [fst fmap option_fmap option_map].
    - split; [done|]. intros k. rewrite Hfo. destruct (first_with k before) eqn:Ek; [done|].
      rewrite bool_decide_false; [done|]. intros [= <-]. by rewrite Ef in Ek.
    - split; [done|]. intros k. destruct (decide (k = (hl_dev info, hl_ino info))) as [->|Hk].
      + rewrite lookup_insert_eq, Ef. by rewrite bool_decide_true.
      + rewrite lookup_insert_ne by done. rewrite Hfo. destruct (first_with k before); [done|].
        rewrite bool_decide_false; [done|]. intros [= <-]. done. }
  destruct (group_step fo x) as [fo' x']. destruct Hstep as [[= ->] Hfo']. cbn [fst] in Hfo'. destruct i as [|i]; cbn [lookup list_lookup take].
  - intros [= ->]. by rewrite app_nil_r.
  - intros Hi. pose proof (IH (before ++ [x]) _ i Hfo' Hi) as E. rewrite <- app_assoc in E. exact E.
Qed.

Lemma group_links_length fo items : length (group_links fo items) = length items.
Proof. revert fo. induction items as [|x items IH]; intros fo; cbn; [done|]. by destruct (group_step fo x); cbn; rewrite IH. Qed.

(** ** The older walk *)

Lemma fold_out_ext {S A} (f g : S -> A -> out S) s l : (forall s x, f s x = g s x) -> fold_out f s l = fold_out g s l.
Proof.
  intros H. revert s. induction l as [|x l IH]; intros s; cbn [fold_out]; [done|]. rewrite H.
  apply out_bind_ext. apply IH.
Qed.

Definition md_is_symlink (m : FileMetadata) : bool := Z.land (to_wire_mode (md_mode m)) S_IFMT =? WIRE_S_IFLNK.

(** [walk.rs] is the scanner with the one enricher for links, when [stat]
    follows links and what can be listed is not a link itself. *)
Lemma walk_is_scan fs opts f dir_path prefix st :
  (forall p m, stat fs p = inr m -> md_is_symlink m = false) ->
  (forall p m children, lstat fs p = inr m -> read_dir fs p = inr children -> md_is_symlink m = false) ->
  walk_directory_entries fs opts f dir_path prefix st =
  collect_directory_entries fs (as_scan_options opts) [SymlinkEnricher fs] f dir_path prefix st.
Proof.
  intros Hstat Hdir. revert dir_path prefix st.
  induction f as [|f IH]; intros dir_path prefix st; cbn [walk_directory_entries collect_directory_entries]; [done|].
  destruct (dir_metadata fs (as_scan_options opts) dir_path) as [e|m] eqn:Em; cbn; [done|].
  destruct (push_filter_scope fs (as_scan_options opts) dir_path st.2) as [merged filters].
  destruct (read_dir fs dir_path) as [e|children] eqn:Er; cbn; [done|].
  assert (Hm : md_is_symlink m = false).
  { unfold dir_metadata in Em. destruct (copy_links _); [by eapply Hstat|by eapply Hdir]. }
  unfold entry_of_dir, run_enrichers. cbn [foldl enrich SymlinkEnricher].
  assert (Hl : forall n, FileEntry.is_symlink (to_file_entry m n) = false) by (intros; exact Hm). rewrite Hl.
  apply (f_equal (fun o : out (list FileEntry * FilterRuleList) => st' ← o;
    Done (if merged : bool then (st'.1, pop_scope st'.2) else st'))).
  apply fold_out_ext. intros [es l] child. cbv zeta. cbn [fst snd].
  destruct (child_metadata fs (as_scan_options opts) child _) as [cm|] eqn:Ec; [|done].
  destruct (negb _); [done|]. destruct (meta_is_dir cm); [apply IH|].
  cbn [enrich]. do 3 f_equal. f_equal. unfold child_metadata in Ec. cbn [as_scan_options copy_links] in Ec.
  destruct (w_copy_links opts); cbn [negb andb]; [|done].
  destruct (stat fs _) as [e|sm] eqn:Es; [done|]. injection Ec as ->. apply Hstat in Es.
  assert (E : FileEntry.is_symlink (to_file_entry cm (child_name prefix (de_name child))) = false) by exact Es. by rewrite E.
Qed.

(** ** Properties *)

(** C30. Both recursive walks list exactly what is visible: each directory
    followed by its children in the order of their names, left out when the
    rules in force there exclude it or a directory above; the rules in force
    are those of the caller followed by those of the filter files of the
    directories above. The filters come back as they were, the items are
    numbered consecutively, and when directories nest less deep than the fuel
    the walk ends in a list or in an error of the file system. *)
Theorem walks_list_visible (fs : FileSystem) (options : ScanOptions) (enrichers : list FileListEnricher)
    (height : list Z -> nat) (f : nat) (dir_path prefix : list Z) (root_dev : option Z)
    (items : list FileListItem) (index : Z) (entries : list FileEntry) (filters : FilterRuleList) :
  nesting fs options height -> (height dir_path < f)%nat ->
  visible fs options enrichers f (rules filters) dir_path prefix root_dev <> Deep /\
  collect_directory fs options enrichers f dir_path prefix root_dev (mkScanState items index filters) =
    out_map (fun es => mkScanState (items ++ number index es) (advance index es) filters)
      (visible fs options enrichers f (rules filters) dir_path prefix root_dev) /\
  collect_directory_entries fs options enrichers f dir_path prefix (entries, filters) =
    out_map (fun es => (entries ++ map fst es, filters))
      (visible fs options enrichers f (rules filters) dir_path prefix None).
Proof.
  intros Hn Hf. split_and!.
  - by eapply visible_not_deep.
  - apply collect_directory_visible.
  - apply collect_entries_visible.
Qed.

(** A file system in memory: directories with their entries, links and rule files. *)
Definition md (mode ino nlink : Z) : FileMetadata := mkFileMetadata 1 0 0 mode 0 0 0 1 ino nlink.
Definition toy_file (n : string) : DirEntry := mkDirEntry (str_bytes n) (md 0x81A4 1 1).
Definition toy_dir (n : string) : DirEntry := mkDirEntry (str_bytes n) (md 0x41ED 2 1).
Definition toy_fs : FileSystem := mkFileSystem
  (fun p => inr (md 0x41ED 2 1)) (fun p => inr (md 0x41ED 2 1)) (fun _ => inl (FsIo [])) (fun _ => inl (FsIo []))
  (fun p => if bool_decide (p = str_bytes "/r") then inr [toy_dir "sub"; toy_file "a.o"; toy_file "b"]
            else if bool_decide (p = str_bytes "/r/sub") then inr [toy_file "c.o"; toy_file "b"; toy_file ".rsync-filter"]
            else inl (NotADirectory p))
  (fun _ => inr 1) (fun _ => inr []) (fun _ _ => inr None)
  (fun p => bool_decide (p = str_bytes "/r/sub/.rsync-filter"))
  (fun p => if bool_decide (p = str_bytes "/r/sub/.rsync-filter") then Some (str_bytes "- b") else None).
Definition toy_options : ScanOptions := mkScanOptions DmRecurse false false false 2 false.
Definition toy_filters : FilterRuleList :=
  match from_options (read_to_string toy_fs) [str_bytes "*.o"] [] [] [] [] with inr l => l | inl _ => FilterRuleList_new end.
Definition toy_height (p : list Z) : nat := if bool_decide (p = str_bytes "/r") then 1 else 0.

Lemma walks_list_visible_witness :
  nesting toy_fs toy_options toy_height /\
  visible toy_fs toy_options [] 2 (rules toy_filters) (str_bytes "/r") [] None <> Deep /\
  out_map (fun st => map name st.1) (collect_directory_entries toy_fs toy_options [] 2 (str_bytes "/r") [] ([], toy_filters)) =
    Done [str_bytes "."; str_bytes "b"; str_bytes "sub"].
Proof.
  assert (Hn : nesting toy_fs toy_options toy_height).
  { intros d children child m Hr Hc Hm Hd. unfold toy_fs in Hr. cbn [read_dir] in Hr.
    unfold toy_height. case_bool_decide as E1.
    - injection Hr as <-. subst d. rewrite bool_decide_false; [lia|].
      repeat (apply elem_of_cons in Hc as [->|Hc]; [vm_compute; congruence|]). by apply elem_of_nil in Hc.
    - revert Hr. case_bool_decide as E2; [|done]. intros [= <-]. exfalso.
      repeat (apply elem_of_cons in Hc as [->|Hc]; [injection Hm as <-; vm_compute in Hd; congruence|]).
      by apply elem_of_nil in Hc. }
  destruct (walks_list_visible toy_fs toy_options [] toy_height 2 (str_bytes "/r") [] None [] 0 [] toy_filters Hn)
    as (Hv & _ & _); [vm_compute; lia|].
  split; [exact Hn|]. split; [exact Hv|]. vm_compute. reflexivity.
Defined.

(** The two scans agree: without the device check, and when the last
    enrichers only touch what the entries do not carry, [scan_entries] of any
    sources returns the entries of [scan], with the same filters, and fails
    with the same error. *)
Theorem scans_agree (fs : FileSystem) (options : ScanOptions) (enrichers : list FileListEnricher) (f : nat)
    (sources : list (list Z)) (filters : FilterRuleList) :
  one_file_system options = false ->
  Forall (fun r => forall items, map it_entry (finalize r items) = map it_entry items) enrichers ->
  scan_entries fs options enrichers f sources filters =
    out_map (fun p => (map it_entry p.1, p.2)) (scan fs options enrichers f sources filters).
Proof.
  intros Hfs Hfin. unfold scan, scan_entries.
  pose proof (scan_loop_agrees fs options enrichers f sources (mkScanState [] 0 filters) Hfs) as E.
  unfold entries_of at 1 in E. cbn [map ss_items ss_filters] in E. rewrite E. clear E.
  destruct (fold_out _ _ _) as [st|e|]; cbn; [|done..]. unfold entries_of. do 2 f_equal.
  generalize (ss_items st) as items. clear -Hfin. induction Hfin as [|r rs Hr _ IH]; intros items; cbn [foldl]; [done|].
  by rewrite <- IH, Hr.
Qed.

Lemma scans_agree_witness :
  exists items, scan toy_fs toy_options [SymlinkEnricher toy_fs] 2 [str_bytes "/r"] toy_filters = Done (items, toy_filters) /\
    scan_entries toy_fs toy_options [SymlinkEnricher toy_fs] 2 [str_bytes "/r"] toy_filters =
      Done (map it_entry items, toy_filters) /\ length items = 3%nat.
Proof.
  assert (E : exists items, scan toy_fs toy_options [SymlinkEnricher toy_fs] 2 [str_bytes "/r"] toy_filters =
    Done (items, toy_filters) /\ length items = 3%nat) by (eexists; split; [vm_compute; reflexivity|reflexivity]).
  destruct E as (items & E & El). exists items. split; [exact E|]. split; [|exact El].
  rewrite (scans_agree toy_fs toy_options [SymlinkEnricher toy_fs] 2 [str_bytes "/r"] toy_filters).
  - rewrite E. reflexivity.
  - reflexivity.
  - constructor; [intros; reflexivity|constructor].
Defined.

(** Hard links are grouped by device and inode: every item keeps its
    place, and an item whose group has an earlier member is linked to the name
    of the first one; the first of a group and items with one link are left
    alone. *)
Theorem hard_links_grouped (items : list FileListItem) :
  length (finalize HardLinkGrouper items) = length items /\
  forall i item, items !! i = Some item ->
    finalize HardLinkGrouper items !! i = Some (linked_to (take i items) item).
Proof.
  split; [apply group_links_length|]. intros i item Hi. by apply (group_links_lookup [] items ∅ i item).
Qed.
