(* ===== verification/Chmod.v ===== *)
(** [ferrosync-codec/src/chmod.rs]: the language of [--chmod]. *)
From S2P Require Import Prelude Utf8 Text.

(** Octal masks of the permission bits, in hexadecimal. *)
Definition PERM_MASK : Z := 0xFFF.  (* 0o7777 *)
Definition EXEC_MASK : Z := 0x49.   (* 0o0111 *)

Record ChmodError := mkChmodError {
  spec : list Z;
  message : list Z;
}.

Inductive ChmodScope := ScopeAll | ScopeFiles | ScopeDirs.
Inductive ChmodOp := OpSet | OpAdd | OpRemove.

Record ChmodRule := mkChmodRule {
  scope : ChmodScope;
  op : ChmodOp;
  who_mask : Z;
  bits : Z;
  conditional_exec : bool;
}.

Record ChmodSpec := mkChmodSpec {
  rules : list ChmodRule;
}.

(** One turn of the loop of [apply]. *)
Definition apply_rule (is_dir : bool) (perms : Z) (rule : ChmodRule) : Z :=
  match scope rule, is_dir with
  | ScopeFiles, true | ScopeDirs, false => perms
  | _, _ =>
      let bits :=
        if conditional_exec rule && (is_dir || negb (Z.land perms EXEC_MASK =? 0))
        then Z.lor (bits rule) (Z.land (who_mask rule) EXEC_MASK) else bits rule in
      match op rule with
      | OpAdd => Z.lor perms bits
      | OpRemove => Z.ldiff perms bits
      | OpSet => Z.lor (Z.ldiff perms (who_mask rule)) bits
      end
  end.

Definition apply (s : ChmodSpec) (mode : Z) (is_dir : bool) : Z :=
  Z.lor (Z.ldiff mode PERM_MASK) (foldl (apply_rule is_dir) (Z.land mode PERM_MASK) (rules s)).

(** [c as char], as UTF-8 *)
Definition byte_char (c : Z) : list Z :=
  if c <? 128 then [c] else [0xC0 + c / 64; 0x80 + c mod 64].

Definition who_bit (c : Z) : option Z :=
  if c =? 117 then Some 0x9C0       (* u: 0o4700 *)
  else if c =? 103 then Some 0x438  (* g: 0o2070 *)
  else if c =? 111 then Some 0x207  (* o: 0o1007 *)
  else if c =? 97 then Some 0xFFF   (* a: 0o7777 *)
  else None.
Fixpoint parse_who (who_mask : Z) (bytes : list Z) : Z * list Z :=
  match bytes with
  | c :: bytes' => match who_bit c with Some m => parse_who (Z.lor who_mask m) bytes' | None => (who_mask, bytes) end
  | [] => (who_mask, [])
  end.

Fixpoint parse_perms (who_mask bits : Z) (conditional_exec : bool) (bytes : list Z) : list Z + (Z * bool) :=
  match bytes with
  | [] => inr (bits, conditional_exec)
  | c :: bytes' =>
      if c =? 114 then parse_perms who_mask (Z.lor bits (Z.land who_mask 0x124)) conditional_exec bytes'
      else if c =? 119 then parse_perms who_mask (Z.lor bits (Z.land who_mask 0x92)) conditional_exec bytes'
      else if c =? 120 then parse_perms who_mask (Z.lor bits (Z.land who_mask EXEC_MASK)) conditional_exec bytes'
      else if c =? 88 then parse_perms who_mask bits true bytes'
      else if c =? 115 then parse_perms who_mask (Z.lor bits (Z.land who_mask 0xC00)) conditional_exec bytes'
      else if c =? 116 then parse_perms who_mask (Z.lor bits 0x200) conditional_exec bytes'
      else inl (str_bytes "unexpected permission char '" ++ byte_char c ++ [39])
  end.

Definition parse_scope (bytes : list Z) : ChmodScope * list Z :=
  match bytes with
  | c :: bytes' => if c =? 68 then (ScopeDirs, bytes') else if c =? 70 then (ScopeFiles, bytes') else (ScopeAll, bytes)
  | [] => (ScopeAll, bytes)
  end.

Definition parse_op (bytes : list Z) : list Z + (ChmodOp * list Z) :=
  match bytes with
  | [] => inl (str_bytes "missing operator (+, -, =)")
  | c :: bytes' =>
      if c =? 43 then inr (OpAdd, bytes')
      else if c =? 45 then inr (OpRemove, bytes')
      else if c =? 61 then inr (OpSet, bytes')
      else inl (str_bytes "expected operator, got '" ++ byte_char c ++ [39])
  end.

Definition parse_rule (bytes : list Z) : list Z + ChmodRule :=
  let '(scope, bytes) := parse_scope bytes in
  let '(who_mask, bytes) := parse_who 0 bytes in
  let who_mask := if who_mask =? 0 then PERM_MASK else who_mask in
  p ← parse_op bytes;
  q ← parse_perms who_mask 0 false p.2;
  mret (mkChmodRule scope p.1 who_mask q.1 q.2).

(** [s.split(',')] *)
Fixpoint split_on (sep : Z) (part s : list Z) : list (list Z) :=
  match s with
  | [] => [part]
  | c :: s' => if c =? sep then part :: split_on sep [] s' else split_on sep (part ++ [c]) s'
  end.

Fixpoint parse_parts (parts : list (list Z)) : ChmodError + list ChmodRule :=
  match parts with
  | [] => inr []
  | part :: parts' =>
      let part := trim part in
      if bool_decide (part = []) then parse_parts parts'
      else match parse_rule part with
           | inl msg => inl (mkChmodError part msg)
           | inr r => rs ← parse_parts parts'; mret (r :: rs)
           end
  end.
Definition parse (s : list Z) : ChmodError + ChmodSpec :=
  rs ← parse_parts (split_on 44 [] s); mret (mkChmodSpec rs).

(** ** The language, abstractly *)

Inductive Who := WU | WG | WO | WA.
Inductive Perm := PR | PW | PX | PXdir | PS | PT.
#[export] Instance Perm_eq_dec : EqDecision Perm.
Proof. solve_decision. Defined.
Record Clause := mkClause {
  c_scope : ChmodScope;
  c_who : list Who;
  c_op : ChmodOp;
  c_perms : list Perm;
}.

Definition print_who (w : Who) : Z := match w with WU => 117 | WG => 103 | WO => 111 | WA => 97 end.
Definition print_perm (p : Perm) : Z :=
  match p with PR => 114 | PW => 119 | PX => 120 | PXdir => 88 | PS => 115 | PT => 116 end.
Definition print_clause (c : Clause) : list Z :=
  (match c_scope c with ScopeDirs => [68] | ScopeFiles => [70] | ScopeAll => [] end) ++
  map print_who (c_who c) ++
  [match c_op c with OpAdd => 43 | OpRemove => 45 | OpSet => 61 end] ++
  map print_perm (c_perms c).
Definition print_spec (cs : list Clause) : list Z :=
  concat (map (fun c => print_clause c ++ [44]) cs).

(** Bit [i] of a mode belongs to a class, to a permission. *)
Definition who_has (w : Who) (i : Z) : bool :=
  match w with
  | WU => bool_decide (i ∈ [11; 8; 7; 6])
  | WG => bool_decide (i ∈ [10; 5; 4; 3])
  | WO => bool_decide (i ∈ [9; 2; 1; 0])
  | WA => true
  end.
Definition is_exec (i : Z) : bool := bool_decide (i ∈ [6; 3; 0]).

Section meaning.
  Context (is_dir : bool) (old : Z -> bool).

Definition executable : bool := is_dir || old 6 || old 3 || old 0.

Definition in_who (c : Clause) (i : Z) : bool :=
  bool_decide (c_who c = []) || existsb (fun w => who_has w i) (c_who c).

(** Bit [i] is among those the clause names; the sticky bit goes with nobody. *)
Definition perm_names (c : Clause) (i : Z) (p : Perm) : bool :=
  match p with
  | PR => in_who c i && bool_decide (i ∈ [8; 5; 2])
  | PW => in_who c i && bool_decide (i ∈ [7; 4; 1])
  | PX => in_who c i && is_exec i
  | PXdir => executable && in_who c i && is_exec i
  | PS => in_who c i && bool_decide (i ∈ [11; 10])
  | PT => bool_decide (i = 9)
  end.
Definition named (c : Clause) (i : Z) : bool := existsb (perm_names c i) (c_perms c).

Definition applies (c : Clause) : bool :=
  match c_scope c with ScopeAll => true | ScopeFiles => negb is_dir | ScopeDirs => is_dir end.

Definition clause_bit (c : Clause) (i : Z) : bool :=
  let b := old i in
  if applies c then
    match c_op c with
    | OpAdd => b || named c i
    | OpRemove => b && negb (named c i)
    | OpSet => named c i || b && negb (in_who c i)
    end
  else b.

End meaning.

Definition clauses_bits (is_dir : bool) (cs : list Clause) (old : Z -> bool) : Z -> bool :=
  foldl (clause_bit is_dir) old cs.

(** ** Bits *)

Ltac bit_cases i :=
  let H := fresh in
  assert (H : i = 0 \/ i = 1 \/ i = 2 \/ i = 3 \/ i = 4 \/ i = 5 \/ i = 6 \/ i = 7 \/ i = 8 \/ i = 9 \/ i = 10 \/ i = 11) by lia;
  repeat (destruct H as [->|H]; [|]); [..|subst i].

Definition who_value (w : Who) : Z := match w with WU => 0x9C0 | WG => 0x438 | WO => 0x207 | WA => 0xFFF end.

Lemma who_bit_print w : who_bit (print_who w) = Some (who_value w).
Proof. by destruct w. Qed.

Lemma who_value_bit w i : 0 <= i < 12 -> Z.testbit (who_value w) i = who_has w i.
Proof. intros Hi. destruct w; bit_cases i; reflexivity. Qed.

Definition perm_value (p : Perm) : Z :=
  match p with PR => 0x124 | PW => 0x92 | PX => EXEC_MASK | PXdir => 0 | PS => 0xC00 | PT => 0x200 end.
Definition perm_has (p : Perm) (i : Z) : bool :=
  match p with
  | PR => bool_decide (i ∈ [8; 5; 2]) | PW => bool_decide (i ∈ [7; 4; 1]) | PX => is_exec i
  | PXdir => false | PS => bool_decide (i ∈ [11; 10]) | PT => bool_decide (i = 9)
  end.
Lemma perm_value_bit p i : 0 <= i < 12 -> Z.testbit (perm_value p) i = perm_has p i.
Proof. intros Hi. destruct p; bit_cases i; reflexivity. Qed.

Lemma exec_bit i : 0 <= i < 12 -> Z.testbit EXEC_MASK i = is_exec i.
Proof. intros Hi. by rewrite <- (perm_value_bit PX). Qed.

Lemma perm_mask_bit i : 0 <= i -> Z.testbit PERM_MASK i = (i <? 12).
Proof. intros Hi. change PERM_MASK with (Z.ones 12). rewrite Z.testbit_ones by lia. destruct (Z.leb_spec 0 i); [done|lia]. Qed.

Lemma exec_mask_spec p : negb (Z.land p EXEC_MASK =? 0) = Z.testbit p 6 || Z.testbit p 3 || Z.testbit p 0.
Proof.
  assert (H : forall i, Z.testbit (Z.land p EXEC_MASK) i = Z.testbit p i && Z.testbit EXEC_MASK i) by (intros; apply Z.land_spec).
  destruct (Z.eqb_spec (Z.land p EXEC_MASK) 0) as [E|E]; cbn [negb].
  - assert (Hb : forall i, Z.testbit EXEC_MASK i = true -> Z.testbit p i = false).
    { intros i Hi. specialize (H i). rewrite E, Z.bits_0, Hi, andb_true_r in H. done. }
    by rewrite !Hb.
  - symmetry. destruct (Z.testbit p 6) eqn:E6, (Z.testbit p 3) eqn:E3, (Z.testbit p 0) eqn:E0; try done.
    exfalso. apply E. apply Z.bits_inj_0. intros i. rewrite H.
    destruct (Z.testbit EXEC_MASK i) eqn:Ei; [|apply andb_false_r]. rewrite andb_true_r.
    destruct (Z.ltb_spec i 0); [by rewrite Z.testbit_neg_r|]. destruct (Z.ltb_spec i 12) as [Hlt|Hge].
    + rewrite exec_bit in Ei by lia. apply bool_decide_eq_true in Ei.
      repeat (apply elem_of_cons in Ei as [->|Ei]; [done|]). by apply elem_of_nil in Ei.
    + rewrite Z.bits_above_log2 in Ei; [done|done|]. change (Z.log2 EXEC_MASK) with 6. lia.
Qed.

(** ** Parsing what was printed *)

Definition op_char (o : ChmodOp) : Z := match o with OpAdd => 43 | OpRemove => 45 | OpSet => 61 end.

Lemma parse_who_print ws m o rest :
  parse_who m (map print_who ws ++ op_char o :: rest) =
  (foldl (fun m w => Z.lor m (who_value w)) m ws, op_char o :: rest).
Proof.
  revert m. induction ws as [|w ws IH]; intros m; cbn [map app parse_who foldl]; [by destruct o|].
  by rewrite who_bit_print, IH.
Qed.

Lemma foldl_lor_bit ws m i : 0 <= i < 12 ->
  Z.testbit (foldl (fun m w => Z.lor m (who_value w)) m ws) i = Z.testbit m i || existsb (fun w => who_has w i) ws.
Proof.
  intros Hi. revert m. induction ws as [|w ws IH]; intros m; cbn [foldl existsb]; [by rewrite orb_false_r|].
  by rewrite IH, Z.lor_spec, who_value_bit, orb_assoc.
Qed.

Definition clause_mask (c : Clause) : Z :=
  let m := foldl (fun m w => Z.lor m (who_value w)) 0 (c_who c) in if m =? 0 then PERM_MASK else m.

Lemma clause_mask_bit c i : 0 <= i < 12 -> Z.testbit (clause_mask c) i = in_who c i.
Proof.
  intros Hi. unfold clause_mask, in_who. destruct (c_who c) as [|w ws].
  - cbn. rewrite perm_mask_bit by lia. destruct (Z.ltb_spec i 12); [done|lia].
  - destruct (Z.eqb_spec (foldl (fun m w => Z.lor m (who_value w)) 0 (w :: ws)) 0) as [E|_].
    + exfalso. assert (Hw : exists j, 0 <= j < 12 /\ who_has w j = true)
        by (destruct w; [exists 6|exists 3|exists 0|exists 0]; (split; [lia|reflexivity])).
      destruct Hw as (j & Hj & Hwj). pose proof (foldl_lor_bit (w :: ws) 0 j Hj) as Hb.
      rewrite E, Z.bits_0 in Hb. cbn [existsb] in Hb. by rewrite Hwj in Hb.
    + rewrite foldl_lor_bit, Z.bits_0 by done. done.
Qed.

Lemma parse_perms_print ps m b x : exists b' x',
  parse_perms m b x (map print_perm ps) = inr (b', x') /\
  x' = x || bool_decide (PXdir ∈ ps) /\
  forall i, 0 <= i < 12 -> Z.testbit b' i =
    Z.testbit b i || existsb (fun p => perm_has p i && (Z.testbit m i || match p with PT => true | _ => false end)) ps.
Proof.
  revert b x. induction ps as [|p ps IH]; intros b x.
  { exists b, x. split; [done|]. split; [by rewrite bool_decide_false by apply not_elem_of_nil; destruct x|].
    intros i _. by rewrite orb_false_r. }
  assert (Hx : forall y, match p with PXdir => False | _ => True end -> y || bool_decide (PXdir ∈ p :: ps) = y || bool_decide (PXdir ∈ ps)).
  { intros y Hp. f_equal. apply bool_decide_ext. rewrite elem_of_cons. split; [intros [<-|?]; done|by right]. }
  destruct p; cbn [map print_perm parse_perms Z.eqb Pos.eqb].
  all: match goal with |- context [parse_perms _ ?b0 ?x0 _] => destruct (IH b0 x0) as (b' & x' & E & Ex & Eb) end.
  all: exists b', x'; split; [exact E|]; split.
  all: try (rewrite Ex; by rewrite Hx).
  all: try (rewrite Ex; cbn [orb]; rewrite (bool_decide_true (PXdir ∈ PXdir :: ps)) by (by left); by destruct x).
  all: intros i Hi; rewrite (Eb i Hi), ?Z.lor_spec, ?Z.land_spec; cbn [existsb perm_has].
  all: rewrite ?(perm_value_bit PR i Hi : Z.testbit 0x124 i = _), ?(perm_value_bit PW i Hi : Z.testbit 0x92 i = _),
    ?(exec_bit i Hi), ?(perm_value_bit PS i Hi : Z.testbit 0xC00 i = _), ?(perm_value_bit PT i Hi : Z.testbit 0x200 i = _).
  all: cbn [perm_has]; rewrite ?orb_false_r, ?orb_true_r, ?andb_true_r, <- ?orb_assoc; try done.
  all: f_equal; f_equal; apply andb_comm.
Qed.

Definition clause_rule (c : Clause) : ChmodRule :=
  match parse_rule (print_clause c) with inr r => r | inl _ => mkChmodRule ScopeAll OpAdd 0 0 false end.

Lemma parse_rule_print c : exists b,
  parse_rule (print_clause c) = inr (mkChmodRule (c_scope c) (c_op c) (clause_mask c) b (bool_decide (PXdir ∈ c_perms c))) /\
  forall i, 0 <= i < 12 -> Z.testbit b i =
    existsb (fun p => perm_has p i && (in_who c i || match p with PT => true | _ => false end)) (c_perms c).
Proof.
  assert (Hsc : parse_scope (print_clause c) =
    (c_scope c, map print_who (c_who c) ++ op_char (c_op c) :: map print_perm (c_perms c))).
  { unfold print_clause. destruct (c_scope c); [|done..]. cbn [app]. destruct (c_who c) as [|w ws]; [by destruct (c_op c)|].
    by destruct w. }
  destruct (parse_perms_print (c_perms c) (clause_mask c) 0 false) as (b & x & E & -> & Hb).
  exists b. split.
  - unfold parse_rule. rewrite Hsc, parse_who_print. fold (clause_mask c).
    assert (Eo : parse_op (op_char (c_op c) :: map print_perm (c_perms c)) = inr (c_op c, map print_perm (c_perms c)))
      by (by destruct (c_op c)).
    unfold clause_mask in *. rewrite Eo. cbn [mbind sum_bind snd fst]. by rewrite E.
  - intros i Hi. rewrite (Hb i Hi), Z.bits_0. cbn [orb]. by rewrite clause_mask_bit by done.
Qed.

Lemma print_clause_visible c : Forall (fun b => 32 < b < 128 /\ b <> 44) (print_clause c).
Proof.
  unfold print_clause. repeat apply Forall_app_2.
  - destruct (c_scope c); repeat constructor; lia.
  - apply Forall_map, Forall_forall. intros w _. destruct w; cbn; lia.
  - repeat constructor; destruct (c_op c); lia.
  - apply Forall_map, Forall_forall. intros p _. destruct p; cbn; lia.
Qed.

Lemma split_on_part sep part l rest : Forall (fun b => b <> sep) l ->
  split_on sep part (l ++ sep :: rest) = (part ++ l) :: split_on sep [] rest.
Proof.
  intros Hl. revert part. induction Hl as [|b l Hb _ IH]; intros part; cbn [app split_on].
  - by rewrite Z.eqb_refl, app_nil_r.
  - destruct (Z.eqb_spec b sep); [done|]. by rewrite IH, <- app_assoc.
Qed.

Lemma parse_print cs : parse (print_spec cs) = inr (mkChmodSpec (map clause_rule cs)).
Proof.
  unfold parse. assert (E : parse_parts (split_on 44 [] (print_spec cs)) = inr (map clause_rule cs)); [|by rewrite E].
  unfold print_spec. induction cs as [|c cs IH]; cbn [map concat]; [reflexivity|].
  pose proof (print_clause_visible c) as Hv. rewrite <- app_assoc. cbn [app].
  rewrite split_on_part by (eapply Forall_impl; [exact Hv|]; by intros ? []). cbn [app parse_parts].
  rewrite trim_trimmed by (apply trimmed_visible; eapply Forall_impl; [exact Hv|]; by intros ? []).
  rewrite bool_decide_false.
  - destruct (parse_rule_print c) as (b & Hr & _). unfold clause_rule at 1. rewrite Hr, IH. done.
  - unfold print_clause. intros E. apply (f_equal length) in E. rewrite !length_app in E. cbn in E. lia.
Qed.

(** ** Applying *)

Lemma apply_rule_bits c is_dir perms (old : Z -> bool) i :
  (forall j, 0 <= j < 12 -> Z.testbit perms j = old j) -> 0 <= i < 12 ->
  Z.testbit (apply_rule is_dir perms (clause_rule c)) i = clause_bit is_dir old c i.
Proof.
  intros Hold Hi. destruct (parse_rule_print c) as (b & Hr & Hb). unfold clause_rule. rewrite Hr.
  unfold apply_rule, clause_bit, applies. cbn [scope op who_mask bits conditional_exec].
  assert (Hex : is_dir || negb (Z.land perms EXEC_MASK =? 0) = executable is_dir old).
  { unfold executable. rewrite exec_mask_spec, !Hold by lia. by destruct is_dir. }
  assert (Hnamed : Z.testbit (if bool_decide (PXdir ∈ c_perms c) && (is_dir || negb (Z.land perms EXEC_MASK =? 0))
      then Z.lor b (Z.land (clause_mask c) EXEC_MASK) else b) i = named is_dir old c i).
  { rewrite Hex. unfold named. specialize (Hb i Hi).
    assert (Hbit : Z.testbit (if bool_decide (PXdir ∈ c_perms c) && executable is_dir old
        then Z.lor b (Z.land (clause_mask c) EXEC_MASK) else b) i =
      Z.testbit b i || bool_decide (PXdir ∈ c_perms c) && executable is_dir old && in_who c i && is_exec i).
    { destruct (_ && executable is_dir old); [|by rewrite orb_false_r].
      by rewrite Z.lor_spec, Z.land_spec, clause_mask_bit, exec_bit. }
    rewrite Hbit, Hb. clear Hbit Hb Hr Hex. induction (c_perms c) as [|p ps IH]; [done|]. cbn [existsb].
    rewrite <- IH. clear IH.
    assert (Hel : bool_decide (PXdir ∈ p :: ps) = match p with PXdir => true | _ => false end || bool_decide (PXdir ∈ ps)).
    { destruct p; cbn [orb]; try (apply bool_decide_ext; rewrite elem_of_cons; split; [intros [|]; done|by right]).
      rewrite bool_decide_true by (by left). done. }
    rewrite Hel. destruct p; cbn [perm_has perm_names orb andb]; rewrite ?orb_false_r, ?orb_true_r, ?andb_true_r;
      generalize (in_who c i), (is_exec i), (executable is_dir old), (bool_decide (PXdir ∈ ps)),
        (existsb (fun p => perm_has p i && (in_who c i || match p with PT => true | _ => false end)) ps);
      intros [] [] [] [] []; try done; rewrite ?andb_true_r, ?andb_false_r, ?orb_false_r, ?orb_true_r; done. }
  destruct (c_scope c), is_dir; cbn [negb]; try (by apply Hold);
    (destruct (c_op c); rewrite ?Z.lor_spec, ?Z.ldiff_spec, Hnamed, ?clause_mask_bit, ?(Hold i) by done; try done; apply orb_comm).
Qed.

Lemma apply_rules_bits cs is_dir perms (old : Z -> bool) i :
  (forall j, 0 <= j < 12 -> Z.testbit perms j = old j) -> 0 <= i < 12 ->
  Z.testbit (foldl (apply_rule is_dir) perms (map clause_rule cs)) i = clauses_bits is_dir cs old i.
Proof.
  unfold clauses_bits. revert perms old. induction cs as [|c cs IH]; intros perms old Hold Hi; cbn [map foldl]; [by apply Hold|].
  apply IH; [|done]. intros j Hj. by apply apply_rule_bits.
Qed.

(** Rules touch the twelve permission bits only. *)
Definition low (m : Z) : Prop := forall i, 12 <= i -> Z.testbit m i = false.

Lemma low_const m : 0 <= m < 4096 -> low m.
Proof.
  intros Hm i Hi. destruct (decide (m = 0)) as [->|]; [apply Z.bits_0|]. apply Z.bits_above_log2; [lia|].
  apply Z.log2_lt_pow2; [lia|]. assert (2 ^ 12 <= 2 ^ i) by (apply Z.pow_le_mono_r; lia). lia.
Qed.
Lemma low_lor a b : low a -> low b -> low (Z.lor a b).
Proof. intros Ha Hb i Hi. by rewrite Z.lor_spec, Ha, Hb. Qed.
Lemma low_land a b : low a -> low (Z.land a b).
Proof. intros Ha i Hi. by rewrite Z.land_spec, Ha. Qed.
Lemma low_ldiff a b : low a -> low (Z.ldiff a b).
Proof. intros Ha i Hi. by rewrite Z.ldiff_spec, Ha. Qed.
#[local] Hint Resolve low_lor low_land low_ldiff : core.
#[local] Hint Extern 1 (low _) => apply low_const; lia : core.

Lemma parse_perms_low m b x l b' x' : low m -> low b -> parse_perms m b x l = inr (b', x') -> low b'.
Proof.
  intros Hm. revert b x. induction l as [|c l IH]; intros b x Hb; cbn [parse_perms]; [by intros [= <- _]|].
  repeat (destruct (_ =? _); [apply IH; auto|]). done.
Qed.

Lemma parse_rule_low bytes r : parse_rule bytes = inr r -> low (who_mask r) /\ low (bits r).
Proof.
  unfold parse_rule. destruct (parse_scope bytes) as [sc bytes1]. 
  assert (Hwho : forall l m m' rest, low m -> parse_who m l = (m', rest) -> low m').
  { induction l as [|c l IH]; intros m m' rest Hm; cbn [parse_who]; [by intros [= <- _]|].
    destruct (who_bit c) as [v|] eqn:Ev; [|by intros [= <- _]]. apply IH. apply low_lor; [done|].
    unfold who_bit in Ev. repeat (destruct (_ =? _) in Ev; [injection Ev as <-; apply low_const; lia|]). done. }
  destruct (parse_who 0 bytes1) as [m bytes2] eqn:Ew. apply Hwho in Ew; [|apply low_const; lia].
  intros (p & _ & ([b x] & Hb & [= <-])%sum_bind_inr)%sum_bind_inr. cbn [who_mask bits fst snd] in *.
  assert (Hm : low (if m =? 0 then PERM_MASK else m)) by (destruct (m =? 0); [apply low_const; unfold PERM_MASK; lia|done]).
  split; [done|]. eapply parse_perms_low; [exact Hm| |exact Hb]. apply low_const. lia.
Qed.

Lemma apply_rules_low is_dir perms rs : Forall (fun r => low (who_mask r) /\ low (bits r)) rs -> low perms ->
  low (foldl (apply_rule is_dir) perms rs).
Proof.
  intros Hrs. revert perms. induction Hrs as [|r rs [Hm Hb] _ IH]; intros perms Hp; cbn [foldl]; [done|]. apply IH.
  assert (Hl : forall v : bool, low (if v then Z.lor (bits r) (Z.land (who_mask r) EXEC_MASK) else bits r))
    by (intros []; auto).
  unfold apply_rule. destruct (scope r), is_dir; try done; destruct (op r); auto.
Qed.

(** ** Properties *)


Definition ok_mode (s : string) (mode : Z) (is_dir : bool) : option Z :=
  match parse (str_bytes s) with inr sp => Some (apply sp mode is_dir) | inl _ => None end.

(** 0o100644, 0o040750, 0o100755 *)
Lemma chmod_examples :
  ok_mode "Du+rwx,Fog-w,a+r" 0x81A4 false = Some 0x81A4 /\ ok_mode "a=rX" 0x41E8 true = Some 0x416D /\
  ok_mode "go-rwx,+t" 0x81ED false = Some 0x83C0 /\ ok_mode "u+r-w" 0x81ED false = None /\
  (match parse_rule [117; 63] with inl m => m | inr _ => [] end) = str_bytes "expected operator, got '?'".
Proof. vm_compute. split_and!; reflexivity. Qed.
