(* ===== verification/Options.v ===== *)
(** [ferrosync-types/src/options.rs]: the configuration of a transfer, its
    sub-configurations, the getters, and the builder. *)
From S2P Require Import Prelude Text Utf8 Scanner.

Inductive DeleteMode := DelNone | DelBefore | DelDuring | DelAfter | DelExcluded.
#[export] Instance DeleteMode_eq_dec : EqDecision DeleteMode.
Proof. solve_decision. Defined.

Inductive Verbosity := VQuiet | VNormal | VVerbose | VVeryVerbose | VDebug.

Module PathConfig.
Record t := mk {
  source : list (list Z);
  dest : option (list Z);
}.
Definition default : t := mk [] None.
Definition set_source (v : list (list Z)) (c : t) : t :=
  mk v (dest c).
Definition set_dest (v : option (list Z)) (c : t) : t :=
  mk (source c) v.
End PathConfig.

Module PreservationConfig.
Record t := mk {
  times : bool;
  perms : bool;
  owner : bool;
  group : bool;
  links : bool;
  hard_links : bool;
  devices : bool;
  specials : bool;
  acls : bool;
  xattrs : bool;
  numeric_ids : bool;
  chmod : list (list Z);
  chown_uid : option Z;
  chown_gid : option Z;
}.
Definition default : t := mk false false false false false false false false false false false [] None None.
Definition set_times (v : bool) (c : t) : t :=
  mk v (perms c) (owner c) (group c) (links c) (hard_links c) (devices c) (specials c) (acls c) (xattrs c)
    (numeric_ids c) (chmod c) (chown_uid c) (chown_gid c).
Definition set_perms (v : bool) (c : t) : t :=
  mk (times c) v (owner c) (group c) (links c) (hard_links c) (devices c) (specials c) (acls c) (xattrs c)
    (numeric_ids c) (chmod c) (chown_uid c) (chown_gid c).
Definition set_owner (v : bool) (c : t) : t :=
  mk (times c) (perms c) v (group c) (links c) (hard_links c) (devices c) (specials c) (acls c) (xattrs c)
    (numeric_ids c) (chmod c) (chown_uid c) (chown_gid c).
Definition set_group (v : bool) (c : t) : t :=
  mk (times c) (perms c) (owner c) v (links c) (hard_links c) (devices c) (specials c) (acls c) (xattrs c)
    (numeric_ids c) (chmod c) (chown_uid c) (chown_gid c).
Definition set_links (v : bool) (c : t) : t :=
  mk (times c) (perms c) (owner c) (group c) v (hard_links c) (devices c) (specials c) (acls c) (xattrs c)
    (numeric_ids c) (chmod c) (chown_uid c) (chown_gid c).
Definition set_hard_links (v : bool) (c : t) : t :=
  mk (times c) (perms c) (owner c) (group c) (links c) v (devices c) (specials c) (acls c) (xattrs c) (numeric_ids
    c) (chmod c) (chown_uid c) (chown_gid c).
Definition set_devices (v : bool) (c : t) : t :=
  mk (times c) (perms c) (owner c) (group c) (links c) (hard_links c) v (specials c) (acls c) (xattrs c)
    (numeric_ids c) (chmod c) (chown_uid c) (chown_gid c).
Definition set_specials (v : bool) (c : t) : t :=
  mk (times c) (perms c) (owner c) (group c) (links c) (hard_links c) (devices c) v (acls c) (xattrs c) (numeric_ids
    c) (chmod c) (chown_uid c) (chown_gid c).
Definition set_acls (v : bool) (c : t) : t :=
  mk (times c) (perms c) (owner c) (group c) (links c) (hard_links c) (devices c) (specials c) v (xattrs c)
    (numeric_ids c) (chmod c) (chown_uid c) (chown_gid c).
Definition set_xattrs (v : bool) (c : t) : t :=
  mk (times c) (perms c) (owner c) (group c) (links c) (hard_links c) (devices c) (specials c) (acls c) v
    (numeric_ids c) (chmod c) (chown_uid c) (chown_gid c).
Definition set_numeric_ids (v : bool) (c : t) : t :=
  mk (times c) (perms c) (owner c) (group c) (links c) (hard_links c) (devices c) (specials c) (acls c) (xattrs c) v
    (chmod c) (chown_uid c) (chown_gid c).
Definition set_chmod (v : list (list Z)) (c : t) : t :=
  mk (times c) (perms c) (owner c) (group c) (links c) (hard_links c) (devices c) (specials c) (acls c) (xattrs c)
    (numeric_ids c) v (chown_uid c) (chown_gid c).
Definition set_chown_uid (v : option Z) (c : t) : t :=
  mk (times c) (perms c) (owner c) (group c) (links c) (hard_links c) (devices c) (specials c) (acls c) (xattrs c)
    (numeric_ids c) (chmod c) v (chown_gid c).
Definition set_chown_gid (v : option Z) (c : t) : t :=
  mk (times c) (perms c) (owner c) (group c) (links c) (hard_links c) (devices c) (specials c) (acls c) (xattrs c)
    (numeric_ids c) (chmod c) (chown_uid c) v.
End PreservationConfig.

Module FileSelectionConfig.
Record t := mk {
  checksum_mode : bool;
  update : bool;
  ignore_times : bool;
  size_only : bool;
  existing : bool;
  ignore_existing : bool;
  max_size : option Z;
  min_size : option Z;
  modify_window : Z;
  fuzzy : bool;
}.
Definition default : t := mk false false false false false false None None 0 false.
Definition set_checksum_mode (v : bool) (c : t) : t :=
  mk v (update c) (ignore_times c) (size_only c) (existing c) (ignore_existing c) (max_size c) (min_size c)
    (modify_window c) (fuzzy c).
Definition set_update (v : bool) (c : t) : t :=
  mk (checksum_mode c) v (ignore_times c) (size_only c) (existing c) (ignore_existing c) (max_size c) (min_size c)
    (modify_window c) (fuzzy c).
Definition set_ignore_times (v : bool) (c : t) : t :=
  mk (checksum_mode c) (update c) v (size_only c) (existing c) (ignore_existing c) (max_size c) (min_size c)
    (modify_window c) (fuzzy c).
Definition set_size_only (v : bool) (c : t) : t :=
  mk (checksum_mode c) (update c) (ignore_times c) v (existing c) (ignore_existing c) (max_size c) (min_size c)
    (modify_window c) (fuzzy c).
Definition set_existing (v : bool) (c : t) : t :=
  mk (checksum_mode c) (update c) (ignore_times c) (size_only c) v (ignore_existing c) (max_size c) (min_size c)
    (modify_window c) (fuzzy c).
Definition set_ignore_existing (v : bool) (c : t) : t :=
  mk (checksum_mode c) (update c) (ignore_times c) (size_only c) (existing c) v (max_size c) (min_size c)
    (modify_window c) (fuzzy c).
Definition set_max_size (v : option Z) (c : t) : t :=
  mk (checksum_mode c) (update c) (ignore_times c) (size_only c) (existing c) (ignore_existing c) v (min_size c)
    (modify_window c) (fuzzy c).
Definition set_min_size (v : option Z) (c : t) : t :=
  mk (checksum_mode c) (update c) (ignore_times c) (size_only c) (existing c) (ignore_existing c) (max_size c) v
    (modify_window c) (fuzzy c).
Definition set_modify_window (v : Z) (c : t) : t :=
  mk (checksum_mode c) (update c) (ignore_times c) (size_only c) (existing c) (ignore_existing c) (max_size c)
    (min_size c) v (fuzzy c).
Definition set_fuzzy (v : bool) (c : t) : t :=
  mk (checksum_mode c) (update c) (ignore_times c) (size_only c) (existing c) (ignore_existing c) (max_size c)
    (min_size c) (modify_window c) v.
End FileSelectionConfig.

Module FileWriteConfig.
Record t := mk {
  inplace : bool;
  whole_file : bool;
  sparse : bool;
  backup : bool;
  backup_dir : option (list Z);
  suffix : list Z;
  partial : bool;
  partial_dir : option (list Z);
  append : bool;
  append_verify : bool;
  remove_source_files : bool;
  safe_links : bool;
  keep_dirlinks : bool;
  link_dest : list (list Z);
  copy_dest : list (list Z);
  compare_dest : list (list Z);
}.
Definition default : t := mk false false false false None (str_bytes "~") false None false false false false false
    [] [] [].
Definition set_inplace (v : bool) (c : t) : t :=
  mk v (whole_file c) (sparse c) (backup c) (backup_dir c) (suffix c) (partial c) (partial_dir c) (append c)
    (append_verify c) (remove_source_files c) (safe_links c) (keep_dirlinks c) (link_dest c) (copy_dest c)
    (compare_dest c).
Definition set_whole_file (v : bool) (c : t) : t :=
  mk (inplace c) v (sparse c) (backup c) (backup_dir c) (suffix c) (partial c) (partial_dir c) (append c)
    (append_verify c) (remove_source_files c) (safe_links c) (keep_dirlinks c) (link_dest c) (copy_dest c)
    (compare_dest c).
Definition set_sparse (v : bool) (c : t) : t :=
  mk (inplace c) (whole_file c) v (backup c) (backup_dir c) (suffix c) (partial c) (partial_dir c) (append c)
    (append_verify c) (remove_source_files c) (safe_links c) (keep_dirlinks c) (link_dest c) (copy_dest c)
    (compare_dest c).
Definition set_backup (v : bool) (c : t) : t :=
  mk (inplace c) (whole_file c) (sparse c) v (backup_dir c) (suffix c) (partial c) (partial_dir c) (append c)
    (append_verify c) (remove_source_files c) (safe_links c) (keep_dirlinks c) (link_dest c) (copy_dest c)
    (compare_dest c).
Definition set_backup_dir (v : option (list Z)) (c : t) : t :=
  mk (inplace c) (whole_file c) (sparse c) (backup c) v (suffix c) (partial c) (partial_dir c) (append c)
    (append_verify c) (remove_source_files c) (safe_links c) (keep_dirlinks c) (link_dest c) (copy_dest c)
    (compare_dest c).
Definition set_suffix (v : list Z) (c : t) : t :=
  mk (inplace c) (whole_file c) (sparse c) (backup c) (backup_dir c) v (partial c) (partial_dir c) (append c)
    (append_verify c) (remove_source_files c) (safe_links c) (keep_dirlinks c) (link_dest c) (copy_dest c)
    (compare_dest c).
Definition set_partial (v : bool) (c : t) : t :=
  mk (inplace c) (whole_file c) (sparse c) (backup c) (backup_dir c) (suffix c) v (partial_dir c) (append c)
    (append_verify c) (remove_source_files c) (safe_links c) (keep_dirlinks c) (link_dest c) (copy_dest c)
    (compare_dest c).
Definition set_partial_dir (v : option (list Z)) (c : t) : t :=
  mk (inplace c) (whole_file c) (sparse c) (backup c) (backup_dir c) (suffix c) (partial c) v (append c)
    (append_verify c) (remove_source_files c) (safe_links c) (keep_dirlinks c) (link_dest c) (copy_dest c)
    (compare_dest c).
Definition set_append (v : bool) (c : t) : t :=
  mk (inplace c) (whole_file c) (sparse c) (backup c) (backup_dir c) (suffix c) (partial c) (partial_dir c) v
    (append_verify c) (remove_source_files c) (safe_links c) (keep_dirlinks c) (link_dest c) (copy_dest c)
    (compare_dest c).
Definition set_append_verify (v : bool) (c : t) : t :=
  mk (inplace c) (whole_file c) (sparse c) (backup c) (backup_dir c) (suffix c) (partial c) (partial_dir c) (append
    c) v (remove_source_files c) (safe_links c) (keep_dirlinks c) (link_dest c) (copy_dest c) (compare_dest c).
Definition set_remove_source_files (v : bool) (c : t) : t :=
  mk (inplace c) (whole_file c) (sparse c) (backup c) (backup_dir c) (suffix c) (partial c) (partial_dir c) (append
    c) (append_verify c) v (safe_links c) (keep_dirlinks c) (link_dest c) (copy_dest c) (compare_dest c).
Definition set_safe_links (v : bool) (c : t) : t :=
  mk (inplace c) (whole_file c) (sparse c) (backup c) (backup_dir c) (suffix c) (partial c) (partial_dir c) (append
    c) (append_verify c) (remove_source_files c) v (keep_dirlinks c) (link_dest c) (copy_dest c) (compare_dest c).
Definition set_keep_dirlinks (v : bool) (c : t) : t :=
  mk (inplace c) (whole_file c) (sparse c) (backup c) (backup_dir c) (suffix c) (partial c) (partial_dir c) (append
    c) (append_verify c) (remove_source_files c) (safe_links c) v (link_dest c) (copy_dest c) (compare_dest c).
Definition set_link_dest (v : list (list Z)) (c : t) : t :=
  mk (inplace c) (whole_file c) (sparse c) (backup c) (backup_dir c) (suffix c) (partial c) (partial_dir c) (append
    c) (append_verify c) (remove_source_files c) (safe_links c) (keep_dirlinks c) v (copy_dest c) (compare_dest c).
Definition set_copy_dest (v : list (list Z)) (c : t) : t :=
  mk (inplace c) (whole_file c) (sparse c) (backup c) (backup_dir c) (suffix c) (partial c) (partial_dir c) (append
    c) (append_verify c) (remove_source_files c) (safe_links c) (keep_dirlinks c) (link_dest c) v (compare_dest c).
Definition set_compare_dest (v : list (list Z)) (c : t) : t :=
  mk (inplace c) (whole_file c) (sparse c) (backup c) (backup_dir c) (suffix c) (partial c) (partial_dir c) (append
    c) (append_verify c) (remove_source_files c) (safe_links c) (keep_dirlinks c) (link_dest c) (copy_dest c) v.
End FileWriteConfig.

Module FilteringConfig.
Record t := mk {
  exclude : list (list Z);
  include : list (list Z);
  filter : list (list Z);
  exclude_from : list (list Z);
  include_from : list (list Z);
  cvs_exclude : bool;
  filter_merge_files : Z;
}.
Definition default : t := mk [] [] [] [] [] false 0.
Definition set_exclude (v : list (list Z)) (c : t) : t :=
  mk v (include c) (filter c) (exclude_from c) (include_from c) (cvs_exclude c) (filter_merge_files c).
Definition set_include (v : list (list Z)) (c : t) : t :=
  mk (exclude c) v (filter c) (exclude_from c) (include_from c) (cvs_exclude c) (filter_merge_files c).
Definition set_filter (v : list (list Z)) (c : t) : t :=
  mk (exclude c) (include c) v (exclude_from c) (include_from c) (cvs_exclude c) (filter_merge_files c).
Definition set_exclude_from (v : list (list Z)) (c : t) : t :=
  mk (exclude c) (include c) (filter c) v (include_from c) (cvs_exclude c) (filter_merge_files c).
Definition set_include_from (v : list (list Z)) (c : t) : t :=
  mk (exclude c) (include c) (filter c) (exclude_from c) v (cvs_exclude c) (filter_merge_files c).
Definition set_cvs_exclude (v : bool) (c : t) : t :=
  mk (exclude c) (include c) (filter c) (exclude_from c) (include_from c) v (filter_merge_files c).
Definition set_filter_merge_files (v : Z) (c : t) : t :=
  mk (exclude c) (include c) (filter c) (exclude_from c) (include_from c) (cvs_exclude c) v.
End FilteringConfig.

Module TraversalConfig.
Record t := mk {
  dir_mode : DirectoryMode;
  one_file_system : bool;
  relative : bool;
  copy_links : bool;
}.
Definition default : t := mk DmSkip false false false.
Definition set_dir_mode (v : DirectoryMode) (c : t) : t :=
  mk v (one_file_system c) (relative c) (copy_links c).
Definition set_one_file_system (v : bool) (c : t) : t :=
  mk (dir_mode c) v (relative c) (copy_links c).
Definition set_relative (v : bool) (c : t) : t :=
  mk (dir_mode c) (one_file_system c) v (copy_links c).
Definition set_copy_links (v : bool) (c : t) : t :=
  mk (dir_mode c) (one_file_system c) (relative c) v.
End TraversalConfig.

Module DeletionConfig.
Record t := mk {
  mode : DeleteMode;
  max_delete : option Z;
  prune_empty_dirs : bool;
}.
Definition default : t := mk DelNone None false.
Definition set_mode (v : DeleteMode) (c : t) : t :=
  mk v (max_delete c) (prune_empty_dirs c).
Definition set_max_delete (v : option Z) (c : t) : t :=
  mk (mode c) v (prune_empty_dirs c).
Definition set_prune_empty_dirs (v : bool) (c : t) : t :=
  mk (mode c) (max_delete c) v.
End DeletionConfig.

Module ProtocolConfig.
Record t := mk {
  compress : bool;
  compress_level : Z;
  checksum_choice : option (list Z);
  compress_choice : option (list Z);
}.
Definition default : t := mk false 6 None None.
Definition set_compress (v : bool) (c : t) : t :=
  mk v (compress_level c) (checksum_choice c) (compress_choice c).
Definition set_compress_level (v : Z) (c : t) : t :=
  mk (compress c) v (checksum_choice c) (compress_choice c).
Definition set_checksum_choice (v : option (list Z)) (c : t) : t :=
  mk (compress c) (compress_level c) v (compress_choice c).
Definition set_compress_choice (v : option (list Z)) (c : t) : t :=
  mk (compress c) (compress_level c) (checksum_choice c) v.
End ProtocolConfig.

Module LimitsConfig.
Record t := mk {
  bwlimit : option Z;
  timeout : option Z;
  block_size : option Z;
}.
Definition default : t := mk None None None.
Definition set_bwlimit (v : option Z) (c : t) : t :=
  mk v (timeout c) (block_size c).
Definition set_timeout (v : option Z) (c : t) : t :=
  mk (bwlimit c) v (block_size c).
Definition set_block_size (v : option Z) (c : t) : t :=
  mk (bwlimit c) (timeout c) v.
End LimitsConfig.

Module OutputConfig.
Record t := mk {
  verbosity : Verbosity;
  progress : bool;
  stats : bool;
  dry_run : bool;
  itemize_changes : bool;
  list_only : bool;
  fake_super : bool;
}.
Definition default : t := mk VNormal false false false false false false.
Definition set_verbosity (v : Verbosity) (c : t) : t :=
  mk v (progress c) (stats c) (dry_run c) (itemize_changes c) (list_only c) (fake_super c).
Definition set_progress (v : bool) (c : t) : t :=
  mk (verbosity c) v (stats c) (dry_run c) (itemize_changes c) (list_only c) (fake_super c).
Definition set_stats (v : bool) (c : t) : t :=
  mk (verbosity c) (progress c) v (dry_run c) (itemize_changes c) (list_only c) (fake_super c).
Definition set_dry_run (v : bool) (c : t) : t :=
  mk (verbosity c) (progress c) (stats c) v (itemize_changes c) (list_only c) (fake_super c).
Definition set_itemize_changes (v : bool) (c : t) : t :=
  mk (verbosity c) (progress c) (stats c) (dry_run c) v (list_only c) (fake_super c).
Definition set_list_only (v : bool) (c : t) : t :=
  mk (verbosity c) (progress c) (stats c) (dry_run c) (itemize_changes c) v (fake_super c).
Definition set_fake_super (v : bool) (c : t) : t :=
  mk (verbosity c) (progress c) (stats c) (dry_run c) (itemize_changes c) (list_only c) v.
End OutputConfig.

Module TransferConfig.
Record t := mk {
  paths : PathConfig.t;
  preservation : PreservationConfig.t;
  file_selection : FileSelectionConfig.t;
  file_write : FileWriteConfig.t;
  filtering : FilteringConfig.t;
  traversal : TraversalConfig.t;
  deletion : DeletionConfig.t;
  protocol : ProtocolConfig.t;
  limits : LimitsConfig.t;
  output : OutputConfig.t;
  iconv : option (list Z);
  files_from : option (list Z);
  write_batch : option (list Z);
  read_batch : option (list Z);
}.
Definition default : t := mk PathConfig.default PreservationConfig.default FileSelectionConfig.default
    FileWriteConfig.default FilteringConfig.default TraversalConfig.default DeletionConfig.default
    ProtocolConfig.default LimitsConfig.default OutputConfig.default None None None None.
Definition set_paths (v : PathConfig.t) (c : t) : t :=
  mk v (preservation c) (file_selection c) (file_write c) (filtering c) (traversal c) (deletion c) (protocol c)
    (limits c) (output c) (iconv c) (files_from c) (write_batch c) (read_batch c).
Definition set_preservation (v : PreservationConfig.t) (c : t) : t :=
  mk (paths c) v (file_selection c) (file_write c) (filtering c) (traversal c) (deletion c) (protocol c) (limits c)
    (output c) (iconv c) (files_from c) (write_batch c) (read_batch c).
Definition set_file_selection (v : FileSelectionConfig.t) (c : t) : t :=
  mk (paths c) (preservation c) v (file_write c) (filtering c) (traversal c) (deletion c) (protocol c) (limits c)
    (output c) (iconv c) (files_from c) (write_batch c) (read_batch c).
Definition set_file_write (v : FileWriteConfig.t) (c : t) : t :=
  mk (paths c) (preservation c) (file_selection c) v (filtering c) (traversal c) (deletion c) (protocol c) (limits
    c) (output c) (iconv c) (files_from c) (write_batch c) (read_batch c).
Definition set_filtering (v : FilteringConfig.t) (c : t) : t :=
  mk (paths c) (preservation c) (file_selection c) (file_write c) v (traversal c) (deletion c) (protocol c) (limits
    c) (output c) (iconv c) (files_from c) (write_batch c) (read_batch c).
Definition set_traversal (v : TraversalConfig.t) (c : t) : t :=
  mk (paths c) (preservation c) (file_selection c) (file_write c) (filtering c) v (deletion c) (protocol c) (limits
    c) (output c) (iconv c) (files_from c) (write_batch c) (read_batch c).
Definition set_deletion (v : DeletionConfig.t) (c : t) : t :=
  mk (paths c) (preservation c) (file_selection c) (file_write c) (filtering c) (traversal c) v (protocol c) (limits
    c) (output c) (iconv c) (files_from c) (write_batch c) (read_batch c).
Definition set_protocol (v : ProtocolConfig.t) (c : t) : t :=
  mk (paths c) (preservation c) (file_selection c) (file_write c) (filtering c) (traversal c) (deletion c) v (limits
    c) (output c) (iconv c) (files_from c) (write_batch c) (read_batch c).
Definition set_limits (v : LimitsConfig.t) (c : t) : t :=
  mk (paths c) (preservation c) (file_selection c) (file_write c) (filtering c) (traversal c) (deletion c) (protocol
    c) v (output c) (iconv c) (files_from c) (write_batch c) (read_batch c).
Definition set_output (v : OutputConfig.t) (c : t) : t :=
  mk (paths c) (preservation c) (file_selection c) (file_write c) (filtering c) (traversal c) (deletion c) (protocol
    c) (limits c) v (iconv c) (files_from c) (write_batch c) (read_batch c).
Definition set_iconv (v : option (list Z)) (c : t) : t :=
  mk (paths c) (preservation c) (file_selection c) (file_write c) (filtering c) (traversal c) (deletion c) (protocol
    c) (limits c) (output c) v (files_from c) (write_batch c) (read_batch c).
Definition set_files_from (v : option (list Z)) (c : t) : t :=
  mk (paths c) (preservation c) (file_selection c) (file_write c) (filtering c) (traversal c) (deletion c) (protocol
    c) (limits c) (output c) (iconv c) v (write_batch c) (read_batch c).
Definition set_write_batch (v : option (list Z)) (c : t) : t :=
  mk (paths c) (preservation c) (file_selection c) (file_write c) (filtering c) (traversal c) (deletion c) (protocol
    c) (limits c) (output c) (iconv c) (files_from c) v (read_batch c).
Definition set_read_batch (v : option (list Z)) (c : t) : t :=
  mk (paths c) (preservation c) (file_selection c) (file_write c) (filtering c) (traversal c) (deletion c) (protocol
    c) (limits c) (output c) (iconv c) (files_from c) (write_batch c) v.
End TransferConfig.

Abbreviation TransferConfig := TransferConfig.t.

(** ** The getters *)

Module Get.
Definition is_archive (c : TransferConfig) : bool :=
  bool_decide (TraversalConfig.dir_mode (TransferConfig.traversal c) = DmRecurse) &&
  PreservationConfig.links (TransferConfig.preservation c) && PreservationConfig.perms (TransferConfig.preservation
    c) &&
  PreservationConfig.times (TransferConfig.preservation c) && PreservationConfig.group (TransferConfig.preservation
    c) &&
  PreservationConfig.owner (TransferConfig.preservation c) && PreservationConfig.devices
    (TransferConfig.preservation c) &&
  PreservationConfig.specials (TransferConfig.preservation c).
Definition recursive (c : TransferConfig) : bool :=
  bool_decide (TraversalConfig.dir_mode (TransferConfig.traversal c) = DmRecurse).
Definition dirs (c : TransferConfig) : bool :=
  bool_decide (TraversalConfig.dir_mode (TransferConfig.traversal c) = DmList).
Definition dir_mode (c : TransferConfig) : DirectoryMode := TraversalConfig.dir_mode (TransferConfig.traversal c).
Definition preserve_links (c : TransferConfig) : bool := PreservationConfig.links (TransferConfig.preservation c).
Definition preserve_perms (c : TransferConfig) : bool := PreservationConfig.perms (TransferConfig.preservation c).
Definition preserve_times (c : TransferConfig) : bool := PreservationConfig.times (TransferConfig.preservation c).
Definition preserve_group (c : TransferConfig) : bool := PreservationConfig.group (TransferConfig.preservation c).
Definition preserve_owner (c : TransferConfig) : bool := PreservationConfig.owner (TransferConfig.preservation c).
Definition preserve_devices (c : TransferConfig) : bool := PreservationConfig.devices (TransferConfig.preservation c).
Definition preserve_specials (c : TransferConfig) : bool := PreservationConfig.specials (TransferConfig.preservation
    c).
Definition preserve_hard_links (c : TransferConfig) : bool := PreservationConfig.hard_links
    (TransferConfig.preservation c).
Definition preserve_acls (c : TransferConfig) : bool := PreservationConfig.acls (TransferConfig.preservation c).
Definition preserve_xattrs (c : TransferConfig) : bool := PreservationConfig.xattrs (TransferConfig.preservation c).
Definition numeric_ids (c : TransferConfig) : bool := PreservationConfig.numeric_ids (TransferConfig.preservation c).
Definition chmod (c : TransferConfig) : list (list Z) := PreservationConfig.chmod (TransferConfig.preservation c).
Definition chown_uid (c : TransferConfig) : option Z := PreservationConfig.chown_uid (TransferConfig.preservation c).
Definition chown_gid (c : TransferConfig) : option Z := PreservationConfig.chown_gid (TransferConfig.preservation c).
Definition checksum_mode (c : TransferConfig) : bool := FileSelectionConfig.checksum_mode
    (TransferConfig.file_selection c).
Definition update (c : TransferConfig) : bool := FileSelectionConfig.update (TransferConfig.file_selection c).
Definition ignore_times (c : TransferConfig) : bool := FileSelectionConfig.ignore_times
    (TransferConfig.file_selection c).
Definition size_only (c : TransferConfig) : bool := FileSelectionConfig.size_only (TransferConfig.file_selection c).
Definition existing (c : TransferConfig) : bool := FileSelectionConfig.existing (TransferConfig.file_selection c).
Definition ignore_existing (c : TransferConfig) : bool := FileSelectionConfig.ignore_existing
    (TransferConfig.file_selection c).
Definition max_size (c : TransferConfig) : option Z := FileSelectionConfig.max_size (TransferConfig.file_selection c).
Definition min_size (c : TransferConfig) : option Z := FileSelectionConfig.min_size (TransferConfig.file_selection c).
Definition modify_window (c : TransferConfig) : Z := FileSelectionConfig.modify_window
    (TransferConfig.file_selection c).
Definition fuzzy (c : TransferConfig) : bool := FileSelectionConfig.fuzzy (TransferConfig.file_selection c).
Definition inplace (c : TransferConfig) : bool := FileWriteConfig.inplace (TransferConfig.file_write c).
Definition whole_file (c : TransferConfig) : bool := FileWriteConfig.whole_file (TransferConfig.file_write c).
Definition sparse (c : TransferConfig) : bool := FileWriteConfig.sparse (TransferConfig.file_write c).
Definition backup (c : TransferConfig) : bool := FileWriteConfig.backup (TransferConfig.file_write c).
Definition backup_dir (c : TransferConfig) : option (list Z) := FileWriteConfig.backup_dir
    (TransferConfig.file_write c).
Definition suffix (c : TransferConfig) : list Z := FileWriteConfig.suffix (TransferConfig.file_write c).
Definition partial (c : TransferConfig) : bool := FileWriteConfig.partial (TransferConfig.file_write c).
Definition partial_dir (c : TransferConfig) : option (list Z) := FileWriteConfig.partial_dir
    (TransferConfig.file_write c).
Definition append (c : TransferConfig) : bool := FileWriteConfig.append (TransferConfig.file_write c).
Definition append_verify (c : TransferConfig) : bool := FileWriteConfig.append_verify (TransferConfig.file_write c).
Definition remove_source_files (c : TransferConfig) : bool := FileWriteConfig.remove_source_files
    (TransferConfig.file_write c).
Definition safe_links (c : TransferConfig) : bool := FileWriteConfig.safe_links (TransferConfig.file_write c).
Definition keep_dirlinks (c : TransferConfig) : bool := FileWriteConfig.keep_dirlinks (TransferConfig.file_write c).
Definition link_dest (c : TransferConfig) : list (list Z) := FileWriteConfig.link_dest (TransferConfig.file_write c).
Definition copy_dest (c : TransferConfig) : list (list Z) := FileWriteConfig.copy_dest (TransferConfig.file_write c).
Definition compare_dest (c : TransferConfig) : list (list Z) := FileWriteConfig.compare_dest
    (TransferConfig.file_write c).
Definition exclude (c : TransferConfig) : list (list Z) := FilteringConfig.exclude (TransferConfig.filtering c).
Definition include (c : TransferConfig) : list (list Z) := FilteringConfig.include (TransferConfig.filtering c).
Definition filter (c : TransferConfig) : list (list Z) := FilteringConfig.filter (TransferConfig.filtering c).
Definition exclude_from (c : TransferConfig) : list (list Z) := FilteringConfig.exclude_from
    (TransferConfig.filtering c).
Definition include_from (c : TransferConfig) : list (list Z) := FilteringConfig.include_from
    (TransferConfig.filtering c).
Definition cvs_exclude (c : TransferConfig) : bool := FilteringConfig.cvs_exclude (TransferConfig.filtering c).
Definition filter_merge_files (c : TransferConfig) : Z := FilteringConfig.filter_merge_files
    (TransferConfig.filtering c).
Definition one_file_system (c : TransferConfig) : bool := TraversalConfig.one_file_system (TransferConfig.traversal
    c).
Definition relative (c : TransferConfig) : bool := TraversalConfig.relative (TransferConfig.traversal c).
Definition copy_links (c : TransferConfig) : bool := TraversalConfig.copy_links (TransferConfig.traversal c).
Definition delete (c : TransferConfig) : DeleteMode := DeletionConfig.mode (TransferConfig.deletion c).
Definition max_delete (c : TransferConfig) : option Z := DeletionConfig.max_delete (TransferConfig.deletion c).
Definition prune_empty_dirs (c : TransferConfig) : bool := DeletionConfig.prune_empty_dirs (TransferConfig.deletion
    c).
Definition compress (c : TransferConfig) : bool := ProtocolConfig.compress (TransferConfig.protocol c).
Definition compress_level (c : TransferConfig) : Z := ProtocolConfig.compress_level (TransferConfig.protocol c).
Definition checksum_choice (c : TransferConfig) : option (list Z) := ProtocolConfig.checksum_choice
    (TransferConfig.protocol c).
Definition compress_choice (c : TransferConfig) : option (list Z) := ProtocolConfig.compress_choice
    (TransferConfig.protocol c).
Definition bwlimit (c : TransferConfig) : option Z := LimitsConfig.bwlimit (TransferConfig.limits c).
Definition timeout (c : TransferConfig) : option Z := LimitsConfig.timeout (TransferConfig.limits c).
Definition block_size (c : TransferConfig) : option Z := LimitsConfig.block_size (TransferConfig.limits c).
Definition verbosity (c : TransferConfig) : Verbosity := OutputConfig.verbosity (TransferConfig.output c).
Definition progress (c : TransferConfig) : bool := OutputConfig.progress (TransferConfig.output c).
Definition stats (c : TransferConfig) : bool := OutputConfig.stats (TransferConfig.output c).
Definition dry_run (c : TransferConfig) : bool := OutputConfig.dry_run (TransferConfig.output c).
Definition itemize_changes (c : TransferConfig) : bool := OutputConfig.itemize_changes (TransferConfig.output c).
Definition list_only (c : TransferConfig) : bool := OutputConfig.list_only (TransferConfig.output c).
Definition fake_super (c : TransferConfig) : bool := OutputConfig.fake_super (TransferConfig.output c).
Definition source (c : TransferConfig) : list (list Z) := PathConfig.source (TransferConfig.paths c).
Definition dest (c : TransferConfig) : option (list Z) := PathConfig.dest (TransferConfig.paths c).
Definition iconv (c : TransferConfig) : option (list Z) := TransferConfig.iconv c.
Definition files_from (c : TransferConfig) : option (list Z) := TransferConfig.files_from c.
Definition write_batch (c : TransferConfig) : option (list Z) := TransferConfig.write_batch c.
Definition read_batch (c : TransferConfig) : option (list Z) := TransferConfig.read_batch c.
End Get.

(** ** The builder: the configuration built so far *)

Module Builder.
Definition upd {A} (get : TransferConfig -> A) (set : A -> TransferConfig -> TransferConfig) (f : A -> A)
    (c : TransferConfig) : TransferConfig := set (f (get c)) c.

Definition from (cfg c : TransferConfig) : TransferConfig := cfg.
Definition archive (c : TransferConfig) : TransferConfig :=
  upd TransferConfig.preservation TransferConfig.set_preservation (PreservationConfig.set_specials true)
    (upd TransferConfig.preservation TransferConfig.set_preservation (PreservationConfig.set_devices true)
    (upd TransferConfig.preservation TransferConfig.set_preservation (PreservationConfig.set_owner true)
    (upd TransferConfig.preservation TransferConfig.set_preservation (PreservationConfig.set_group true)
    (upd TransferConfig.preservation TransferConfig.set_preservation (PreservationConfig.set_times true)
    (upd TransferConfig.preservation TransferConfig.set_preservation (PreservationConfig.set_perms true)
    (upd TransferConfig.preservation TransferConfig.set_preservation (PreservationConfig.set_links true)
    (upd TransferConfig.traversal TransferConfig.set_traversal (TraversalConfig.set_dir_mode DmRecurse) c))))))).
Definition recursive (v : bool) : TransferConfig -> TransferConfig :=
  upd TransferConfig.traversal TransferConfig.set_traversal (TraversalConfig.set_dir_mode (if v then DmRecurse else
    DmSkip)).
Definition dirs (v : bool) (c : TransferConfig) : TransferConfig :=
  if v then upd TransferConfig.traversal TransferConfig.set_traversal (TraversalConfig.set_dir_mode DmList) c else c.
Definition preserve_links (v : bool) : TransferConfig -> TransferConfig :=
  upd TransferConfig.preservation TransferConfig.set_preservation (PreservationConfig.set_links v).
Definition preserve_perms (v : bool) : TransferConfig -> TransferConfig :=
  upd TransferConfig.preservation TransferConfig.set_preservation (PreservationConfig.set_perms v).
Definition preserve_times (v : bool) : TransferConfig -> TransferConfig :=
  upd TransferConfig.preservation TransferConfig.set_preservation (PreservationConfig.set_times v).
Definition preserve_group (v : bool) : TransferConfig -> TransferConfig :=
  upd TransferConfig.preservation TransferConfig.set_preservation (PreservationConfig.set_group v).
Definition preserve_owner (v : bool) : TransferConfig -> TransferConfig :=
  upd TransferConfig.preservation TransferConfig.set_preservation (PreservationConfig.set_owner v).
Definition preserve_devices (v : bool) : TransferConfig -> TransferConfig :=
  upd TransferConfig.preservation TransferConfig.set_preservation (PreservationConfig.set_devices v).
Definition preserve_specials (v : bool) : TransferConfig -> TransferConfig :=
  upd TransferConfig.preservation TransferConfig.set_preservation (PreservationConfig.set_specials v).
Definition preserve_hard_links (v : bool) : TransferConfig -> TransferConfig :=
  upd TransferConfig.preservation TransferConfig.set_preservation (PreservationConfig.set_hard_links v).
Definition preserve_acls (v : bool) : TransferConfig -> TransferConfig :=
  upd TransferConfig.preservation TransferConfig.set_preservation (PreservationConfig.set_acls v).
Definition preserve_xattrs (v : bool) : TransferConfig -> TransferConfig :=
  upd TransferConfig.preservation TransferConfig.set_preservation (PreservationConfig.set_xattrs v).
Definition numeric_ids (v : bool) : TransferConfig -> TransferConfig :=
  upd TransferConfig.preservation TransferConfig.set_preservation (PreservationConfig.set_numeric_ids v).
Definition chmod (spec : list Z) : TransferConfig -> TransferConfig :=
  upd TransferConfig.preservation TransferConfig.set_preservation
    (fun s => PreservationConfig.set_chmod (PreservationConfig.chmod s ++ [spec]) s).
Definition chown_uid (uid : Z) : TransferConfig -> TransferConfig :=
  upd TransferConfig.preservation TransferConfig.set_preservation (PreservationConfig.set_chown_uid (Some uid)).
Definition chown_gid (gid : Z) : TransferConfig -> TransferConfig :=
  upd TransferConfig.preservation TransferConfig.set_preservation (PreservationConfig.set_chown_gid (Some gid)).
Definition checksum_mode (v : bool) : TransferConfig -> TransferConfig :=
  upd TransferConfig.file_selection TransferConfig.set_file_selection (FileSelectionConfig.set_checksum_mode v).
Definition whole_file (v : bool) : TransferConfig -> TransferConfig :=
  upd TransferConfig.file_write TransferConfig.set_file_write (FileWriteConfig.set_whole_file v).
Definition update (v : bool) : TransferConfig -> TransferConfig :=
  upd TransferConfig.file_selection TransferConfig.set_file_selection (FileSelectionConfig.set_update v).
Definition inplace (v : bool) : TransferConfig -> TransferConfig :=
  upd TransferConfig.file_write TransferConfig.set_file_write (FileWriteConfig.set_inplace v).
Definition delete (mode : DeleteMode) : TransferConfig -> TransferConfig :=
  upd TransferConfig.deletion TransferConfig.set_deletion (DeletionConfig.set_mode mode).
Definition compress (v : bool) : TransferConfig -> TransferConfig :=
  upd TransferConfig.protocol TransferConfig.set_protocol (ProtocolConfig.set_compress v).
Definition compress_level (level : Z) : TransferConfig -> TransferConfig :=
  upd TransferConfig.protocol TransferConfig.set_protocol (ProtocolConfig.set_compress_level (Z.max 1 (Z.min 9
    level))).
Definition verbosity (v : Verbosity) : TransferConfig -> TransferConfig :=
  upd TransferConfig.output TransferConfig.set_output (OutputConfig.set_verbosity v).
Definition progress (v : bool) : TransferConfig -> TransferConfig :=
  upd TransferConfig.output TransferConfig.set_output (OutputConfig.set_progress v).
Definition stats (v : bool) : TransferConfig -> TransferConfig :=
  upd TransferConfig.output TransferConfig.set_output (OutputConfig.set_stats v).
Definition dry_run (v : bool) : TransferConfig -> TransferConfig :=
  upd TransferConfig.output TransferConfig.set_output (OutputConfig.set_dry_run v).
Definition itemize_changes (v : bool) : TransferConfig -> TransferConfig :=
  upd TransferConfig.output TransferConfig.set_output (OutputConfig.set_itemize_changes v).
Definition exclude (pattern : list Z) : TransferConfig -> TransferConfig :=
  upd TransferConfig.filtering TransferConfig.set_filtering
    (fun s => FilteringConfig.set_exclude (FilteringConfig.exclude s ++ [pattern]) s).
Definition include (pattern : list Z) : TransferConfig -> TransferConfig :=
  upd TransferConfig.filtering TransferConfig.set_filtering
    (fun s => FilteringConfig.set_include (FilteringConfig.include s ++ [pattern]) s).
Definition filter (rule : list Z) : TransferConfig -> TransferConfig :=
  upd TransferConfig.filtering TransferConfig.set_filtering
    (fun s => FilteringConfig.set_filter (FilteringConfig.filter s ++ [rule]) s).
Definition source (path : list Z) : TransferConfig -> TransferConfig :=
  upd TransferConfig.paths TransferConfig.set_paths
    (fun s => PathConfig.set_source (PathConfig.source s ++ [path]) s).
Definition dest (path : list Z) : TransferConfig -> TransferConfig :=
  upd TransferConfig.paths TransferConfig.set_paths (PathConfig.set_dest (Some path)).
Definition bwlimit (bytes_per_sec : Z) : TransferConfig -> TransferConfig :=
  upd TransferConfig.limits TransferConfig.set_limits (LimitsConfig.set_bwlimit (Some bytes_per_sec)).
Definition max_size (bytes : Z) : TransferConfig -> TransferConfig :=
  upd TransferConfig.file_selection TransferConfig.set_file_selection (FileSelectionConfig.set_max_size (Some bytes)).
Definition min_size (bytes : Z) : TransferConfig -> TransferConfig :=
  upd TransferConfig.file_selection TransferConfig.set_file_selection (FileSelectionConfig.set_min_size (Some bytes)).
Definition timeout (seconds : Z) : TransferConfig -> TransferConfig :=
  upd TransferConfig.limits TransferConfig.set_limits (LimitsConfig.set_timeout (Some seconds)).
Definition ignore_times (v : bool) : TransferConfig -> TransferConfig :=
  upd TransferConfig.file_selection TransferConfig.set_file_selection (FileSelectionConfig.set_ignore_times v).
Definition size_only (v : bool) : TransferConfig -> TransferConfig :=
  upd TransferConfig.file_selection TransferConfig.set_file_selection (FileSelectionConfig.set_size_only v).
Definition existing (v : bool) : TransferConfig -> TransferConfig :=
  upd TransferConfig.file_selection TransferConfig.set_file_selection (FileSelectionConfig.set_existing v).
Definition ignore_existing (v : bool) : TransferConfig -> TransferConfig :=
  upd TransferConfig.file_selection TransferConfig.set_file_selection (FileSelectionConfig.set_ignore_existing v).
Definition max_delete (n : Z) : TransferConfig -> TransferConfig :=
  upd TransferConfig.deletion TransferConfig.set_deletion (DeletionConfig.set_max_delete (Some n)).
Definition prune_empty_dirs (v : bool) : TransferConfig -> TransferConfig :=
  upd TransferConfig.deletion TransferConfig.set_deletion (DeletionConfig.set_prune_empty_dirs v).
Definition copy_links (v : bool) : TransferConfig -> TransferConfig :=
  upd TransferConfig.traversal TransferConfig.set_traversal (TraversalConfig.set_copy_links v).
Definition safe_links (v : bool) : TransferConfig -> TransferConfig :=
  upd TransferConfig.file_write TransferConfig.set_file_write (FileWriteConfig.set_safe_links v).
Definition keep_dirlinks (v : bool) : TransferConfig -> TransferConfig :=
  upd TransferConfig.file_write TransferConfig.set_file_write (FileWriteConfig.set_keep_dirlinks v).
Definition remove_source_files (v : bool) : TransferConfig -> TransferConfig :=
  upd TransferConfig.file_write TransferConfig.set_file_write (FileWriteConfig.set_remove_source_files v).
Definition modify_window (n : Z) : TransferConfig -> TransferConfig :=
  upd TransferConfig.file_selection TransferConfig.set_file_selection (FileSelectionConfig.set_modify_window n).
Definition append_verify (v : bool) : TransferConfig -> TransferConfig :=
  upd TransferConfig.file_write TransferConfig.set_file_write (FileWriteConfig.set_append_verify v).
Definition exclude_from (path : list Z) : TransferConfig -> TransferConfig :=
  upd TransferConfig.filtering TransferConfig.set_filtering
    (fun s => FilteringConfig.set_exclude_from (FilteringConfig.exclude_from s ++ [path]) s).
Definition include_from (path : list Z) : TransferConfig -> TransferConfig :=
  upd TransferConfig.filtering TransferConfig.set_filtering
    (fun s => FilteringConfig.set_include_from (FilteringConfig.include_from s ++ [path]) s).
Definition cvs_exclude (v : bool) : TransferConfig -> TransferConfig :=
  upd TransferConfig.filtering TransferConfig.set_filtering (FilteringConfig.set_cvs_exclude v).
Definition block_size (n : Z) : TransferConfig -> TransferConfig :=
  upd TransferConfig.limits TransferConfig.set_limits (LimitsConfig.set_block_size (Some n)).
Definition one_file_system (v : bool) : TransferConfig -> TransferConfig :=
  upd TransferConfig.traversal TransferConfig.set_traversal (TraversalConfig.set_one_file_system v).
Definition sparse (v : bool) : TransferConfig -> TransferConfig :=
  upd TransferConfig.file_write TransferConfig.set_file_write (FileWriteConfig.set_sparse v).
Definition relative (v : bool) : TransferConfig -> TransferConfig :=
  upd TransferConfig.traversal TransferConfig.set_traversal (TraversalConfig.set_relative v).
Definition filter_merge_files (n : Z) : TransferConfig -> TransferConfig :=
  upd TransferConfig.filtering TransferConfig.set_filtering (FilteringConfig.set_filter_merge_files n).
Definition list_only (v : bool) : TransferConfig -> TransferConfig :=
  upd TransferConfig.output TransferConfig.set_output (OutputConfig.set_list_only v).
Definition fuzzy (v : bool) : TransferConfig -> TransferConfig :=
  upd TransferConfig.file_selection TransferConfig.set_file_selection (FileSelectionConfig.set_fuzzy v).
Definition fake_super (v : bool) : TransferConfig -> TransferConfig :=
  upd TransferConfig.output TransferConfig.set_output (OutputConfig.set_fake_super v).
Definition checksum_choice (name : list Z) : TransferConfig -> TransferConfig :=
  upd TransferConfig.protocol TransferConfig.set_protocol (ProtocolConfig.set_checksum_choice (Some name)).
Definition compress_choice (name : list Z) : TransferConfig -> TransferConfig :=
  upd TransferConfig.protocol TransferConfig.set_protocol (ProtocolConfig.set_compress_choice (Some name)).
Definition iconv (charset : list Z) : TransferConfig -> TransferConfig := TransferConfig.set_iconv (Some charset).
Definition write_batch (path : list Z) : TransferConfig -> TransferConfig := TransferConfig.set_write_batch (Some
    path).
Definition read_batch (path : list Z) : TransferConfig -> TransferConfig := TransferConfig.set_read_batch (Some path).
Definition link_dest (path : list Z) : TransferConfig -> TransferConfig :=
  upd TransferConfig.file_write TransferConfig.set_file_write
    (fun s => FileWriteConfig.set_link_dest (FileWriteConfig.link_dest s ++ [path]) s).
Definition copy_dest (path : list Z) : TransferConfig -> TransferConfig :=
  upd TransferConfig.file_write TransferConfig.set_file_write
    (fun s => FileWriteConfig.set_copy_dest (FileWriteConfig.copy_dest s ++ [path]) s).
Definition compare_dest (path : list Z) : TransferConfig -> TransferConfig :=
  upd TransferConfig.file_write TransferConfig.set_file_write
    (fun s => FileWriteConfig.set_compare_dest (FileWriteConfig.compare_dest s ++ [path]) s).
Definition backup (v : bool) : TransferConfig -> TransferConfig :=
  upd TransferConfig.file_write TransferConfig.set_file_write (FileWriteConfig.set_backup v).
Definition backup_dir (path : list Z) : TransferConfig -> TransferConfig :=
  upd TransferConfig.file_write TransferConfig.set_file_write (FileWriteConfig.set_backup_dir (Some path)).
Definition suffix (s : list Z) : TransferConfig -> TransferConfig :=
  upd TransferConfig.file_write TransferConfig.set_file_write (FileWriteConfig.set_suffix s).
Definition partial (v : bool) : TransferConfig -> TransferConfig :=
  upd TransferConfig.file_write TransferConfig.set_file_write (FileWriteConfig.set_partial v).
Definition partial_dir (path : list Z) : TransferConfig -> TransferConfig :=
  upd TransferConfig.file_write TransferConfig.set_file_write (FileWriteConfig.set_partial_dir (Some path)).
Definition append (v : bool) : TransferConfig -> TransferConfig :=
  upd TransferConfig.file_write TransferConfig.set_file_write (FileWriteConfig.set_append v).
Definition files_from (path : list Z) : TransferConfig -> TransferConfig := TransferConfig.set_files_from (Some path).
Definition excludes (patterns : list (list Z)) : TransferConfig -> TransferConfig :=
  upd TransferConfig.filtering TransferConfig.set_filtering (FilteringConfig.set_exclude patterns).
Definition includes (patterns : list (list Z)) : TransferConfig -> TransferConfig :=
  upd TransferConfig.filtering TransferConfig.set_filtering (FilteringConfig.set_include patterns).
Definition filters (rules : list (list Z)) : TransferConfig -> TransferConfig :=
  upd TransferConfig.filtering TransferConfig.set_filtering (FilteringConfig.set_filter rules).
Definition sources (paths : list (list Z)) : TransferConfig -> TransferConfig :=
  upd TransferConfig.paths TransferConfig.set_paths (PathConfig.set_source paths).
Definition link_dests (paths : list (list Z)) : TransferConfig -> TransferConfig :=
  upd TransferConfig.file_write TransferConfig.set_file_write (FileWriteConfig.set_link_dest paths).
Definition copy_dests (paths : list (list Z)) : TransferConfig -> TransferConfig :=
  upd TransferConfig.file_write TransferConfig.set_file_write (FileWriteConfig.set_copy_dest paths).
Definition compare_dests (paths : list (list Z)) : TransferConfig -> TransferConfig :=
  upd TransferConfig.file_write TransferConfig.set_file_write (FileWriteConfig.set_compare_dest paths).
Definition build (c : TransferConfig) : TransferConfig := c.
End Builder.

(** Everything a chain of builder calls makes. *)
Inductive call :=
  | C_archive
  | C_recursive (v : bool)
  | C_dirs (v : bool)
  | C_preserve_links (v : bool)
  | C_preserve_perms (v : bool)
  | C_preserve_times (v : bool)
  | C_preserve_group (v : bool)
  | C_preserve_owner (v : bool)
  | C_preserve_devices (v : bool)
  | C_preserve_specials (v : bool)
  | C_preserve_hard_links (v : bool)
  | C_preserve_acls (v : bool)
  | C_preserve_xattrs (v : bool)
  | C_numeric_ids (v : bool)
  | C_chmod (v : list Z)
  | C_chown_uid (v : Z)
  | C_chown_gid (v : Z)
  | C_checksum_mode (v : bool)
  | C_whole_file (v : bool)
  | C_update (v : bool)
  | C_inplace (v : bool)
  | C_delete (v : DeleteMode)
  | C_compress (v : bool)
  | C_compress_level (v : Z)
  | C_verbosity (v : Verbosity)
  | C_progress (v : bool)
  | C_stats (v : bool)
  | C_dry_run (v : bool)
  | C_itemize_changes (v : bool)
  | C_exclude (v : list Z)
  | C_include (v : list Z)
  | C_filter (v : list Z)
  | C_source (v : list Z)
  | C_dest (v : list Z)
  | C_bwlimit (v : Z)
  | C_max_size (v : Z)
  | C_min_size (v : Z)
  | C_timeout (v : Z)
  | C_ignore_times (v : bool)
  | C_size_only (v : bool)
  | C_existing (v : bool)
  | C_ignore_existing (v : bool)
  | C_max_delete (v : Z)
  | C_prune_empty_dirs (v : bool)
  | C_copy_links (v : bool)
  | C_safe_links (v : bool)
  | C_keep_dirlinks (v : bool)
  | C_remove_source_files (v : bool)
  | C_modify_window (v : Z)
  | C_append_verify (v : bool)
  | C_exclude_from (v : list Z)
  | C_include_from (v : list Z)
  | C_cvs_exclude (v : bool)
  | C_block_size (v : Z)
  | C_one_file_system (v : bool)
  | C_sparse (v : bool)
  | C_relative (v : bool)
  | C_filter_merge_files (v : Z)
  | C_list_only (v : bool)
  | C_fuzzy (v : bool)
  | C_fake_super (v : bool)
  | C_checksum_choice (v : list Z)
  | C_compress_choice (v : list Z)
  | C_iconv (v : list Z)
  | C_write_batch (v : list Z)
  | C_read_batch (v : list Z)
  | C_link_dest (v : list Z)
  | C_copy_dest (v : list Z)
  | C_compare_dest (v : list Z)
  | C_backup (v : bool)
  | C_backup_dir (v : list Z)
  | C_suffix (v : list Z)
  | C_partial (v : bool)
  | C_partial_dir (v : list Z)
  | C_append (v : bool)
  | C_files_from (v : list Z)
  | C_excludes (v : list (list Z))
  | C_includes (v : list (list Z))
  | C_filters (v : list (list Z))
  | C_sources (v : list (list Z))
  | C_link_dests (v : list (list Z))
  | C_copy_dests (v : list (list Z))
  | C_compare_dests (v : list (list Z)).

Definition perform (k : call) : TransferConfig -> TransferConfig :=
  match k with
  | C_archive => Builder.archive
  | C_recursive v => Builder.recursive v
  | C_dirs v => Builder.dirs v
  | C_preserve_links v => Builder.preserve_links v
  | C_preserve_perms v => Builder.preserve_perms v
  | C_preserve_times v => Builder.preserve_times v
  | C_preserve_group v => Builder.preserve_group v
  | C_preserve_owner v => Builder.preserve_owner v
  | C_preserve_devices v => Builder.preserve_devices v
  | C_preserve_specials v => Builder.preserve_specials v
  | C_preserve_hard_links v => Builder.preserve_hard_links v
  | C_preserve_acls v => Builder.preserve_acls v
  | C_preserve_xattrs v => Builder.preserve_xattrs v
  | C_numeric_ids v => Builder.numeric_ids v
  | C_chmod v => Builder.chmod v
  | C_chown_uid v => Builder.chown_uid v
  | C_chown_gid v => Builder.chown_gid v
  | C_checksum_mode v => Builder.checksum_mode v
  | C_whole_file v => Builder.whole_file v
  | C_update v => Builder.update v
  | C_inplace v => Builder.inplace v
  | C_delete v => Builder.delete v
  | C_compress v => Builder.compress v
  | C_compress_level v => Builder.compress_level v
  | C_verbosity v => Builder.verbosity v
  | C_progress v => Builder.progress v
  | C_stats v => Builder.stats v
  | C_dry_run v => Builder.dry_run v
  | C_itemize_changes v => Builder.itemize_changes v
  | C_exclude v => Builder.exclude v
  | C_include v => Builder.include v
  | C_filter v => Builder.filter v
  | C_source v => Builder.source v
  | C_dest v => Builder.dest v
  | C_bwlimit v => Builder.bwlimit v
  | C_max_size v => Builder.max_size v
  | C_min_size v => Builder.min_size v
  | C_timeout v => Builder.timeout v
  | C_ignore_times v => Builder.ignore_times v
  | C_size_only v => Builder.size_only v
  | C_existing v => Builder.existing v
  | C_ignore_existing v => Builder.ignore_existing v
  | C_max_delete v => Builder.max_delete v
  | C_prune_empty_dirs v => Builder.prune_empty_dirs v
  | C_copy_links v => Builder.copy_links v
  | C_safe_links v => Builder.safe_links v
  | C_keep_dirlinks v => Builder.keep_dirlinks v
  | C_remove_source_files v => Builder.remove_source_files v
  | C_modify_window v => Builder.modify_window v
  | C_append_verify v => Builder.append_verify v
  | C_exclude_from v => Builder.exclude_from v
  | C_include_from v => Builder.include_from v
  | C_cvs_exclude v => Builder.cvs_exclude v
  | C_block_size v => Builder.block_size v
  | C_one_file_system v => Builder.one_file_system v
  | C_sparse v => Builder.sparse v
  | C_relative v => Builder.relative v
  | C_filter_merge_files v => Builder.filter_merge_files v
  | C_list_only v => Builder.list_only v
  | C_fuzzy v => Builder.fuzzy v
  | C_fake_super v => Builder.fake_super v
  | C_checksum_choice v => Builder.checksum_choice v
  | C_compress_choice v => Builder.compress_choice v
  | C_iconv v => Builder.iconv v
  | C_write_batch v => Builder.write_batch v
  | C_read_batch v => Builder.read_batch v
  | C_link_dest v => Builder.link_dest v
  | C_copy_dest v => Builder.copy_dest v
  | C_compare_dest v => Builder.compare_dest v
  | C_backup v => Builder.backup v
  | C_backup_dir v => Builder.backup_dir v
  | C_suffix v => Builder.suffix v
  | C_partial v => Builder.partial v
  | C_partial_dir v => Builder.partial_dir v
  | C_append v => Builder.append v
  | C_files_from v => Builder.files_from v
  | C_excludes v => Builder.excludes v
  | C_includes v => Builder.includes v
  | C_filters v => Builder.filters v
  | C_sources v => Builder.sources v
  | C_link_dests v => Builder.link_dests v
  | C_copy_dests v => Builder.copy_dests v
  | C_compare_dests v => Builder.compare_dests v
  end.

(** ** Properties *)

(** Whatever calls are chained, the level stays a valid one. *)
Lemma builder_level (calls : list call) :
  1 <= Get.compress_level (Builder.build (foldl (fun c k => perform k c) TransferConfig.default calls)) <= 9.
Proof.
  unfold Builder.build. cut (forall c, 1 <= Get.compress_level c <= 9 ->
    1 <= Get.compress_level (foldl (fun c k => perform k c) c calls) <= 9).
  { intros H. apply H. cbn. lia. }
  induction calls as [|k calls IH]; intros c Hc; [done|]. cbn [foldl]. apply IH.
  destruct k; try exact Hc.
  - cbn [perform]. unfold Builder.dirs. by destruct v.
  - cbn. lia.
Qed.

(** The calls that can take something away from archive mode. *)
Definition weakens (k : call) : bool :=
  match k with
  | C_recursive v | C_preserve_links v | C_preserve_perms v | C_preserve_times v | C_preserve_group v
  | C_preserve_owner v | C_preserve_devices v | C_preserve_specials v => negb v
  | C_dirs v => v
  | _ => false
  end.

(** [archive] sets the archive mode, and it stays set by every later call that
    does not clear one of its eight parts. *)
Lemma builder_archive (c : TransferConfig) (calls : list call) :
  Forall (fun k => weakens k = false) calls ->
  Get.is_archive (foldl (fun c k => perform k c) (Builder.archive c) calls) = true.
Proof.
  intros Hw. assert (Ha : Get.is_archive (Builder.archive c) = true) by reflexivity.
  revert Ha. generalize (Builder.archive c). induction Hw as [|k calls Hk Hw IH]; intros a Ha; [done|].
  cbn [foldl]. apply IH. destruct k; try exact Ha; cbn [weakens] in Hk; try apply negb_false_iff in Hk; try subst v;
    unfold Get.is_archive in *; cbn in *; rewrite ?andb_true_iff in *; tauto.
Qed.
