(* ===== verification/Fs.v ===== *)
(** [ferrosync-fs/src/lib.rs]: the trait [FileSystem] with its writing half,
    over a state that the methods change; paths ([Path::parent],
    [Path::with_file_name], [PathBuf] equality). *)
From S2P Require Import Prelude Wire Types Text Utf8 Filter Scanner.

(** A method that may fail, and keeps what it did until then. *)
Definition act (E S A : Type) : Type := S -> (E + A) * S.
#[export] Instance act_ret {E S} : MRet (act E S) := fun A a s => (inr a, s).
#[export] Instance act_bind {E S} : MBind (act E S) := fun A B f m s =>
  match m s with (inr a, s') => f a s' | (inl e, s') => (inl e, s') end.

Definition STREAMING_THRESHOLD : Z := 64 * 1024 * 1024.
Definition MMAP_THRESHOLD : Z := 32 * 1024.

(** The trait.  Its reading half is a [FileSystem] of the state; the boxed
    writers it hands out are objects of a type of their own: [write_all],
    [flush] (false: an I/O error) and [Drop]. *)
Record FsOps (S : Type) := mkFsOps {
  view : S -> FileSystem;
  lexists : S -> list Z -> bool;
  map_file : S -> list Z -> FsError + list Z;
  write_file : list Z -> list Z -> option Z -> method FsError S;
  write_file_inplace : list Z -> list Z -> option Z -> method FsError S;
  write_file_sparse : list Z -> list Z -> option Z -> method FsError S;
  append_file : list Z -> list Z -> option Z -> method FsError S;
  mkdir : list Z -> Z -> method FsError S;
  create_symlink : list Z -> list Z -> method FsError S;
  set_permissions : list Z -> Z -> method FsError S;
  set_mtime : list Z -> Z -> Z -> method FsError S;
  set_owner : list Z -> Z -> Z -> method FsError S;
  remove_file : list Z -> method FsError S;
  remove_dir : list Z -> method FsError S;
  set_xattr : list Z -> list Z -> list Z -> method FsError S;
  hard_link : list Z -> list Z -> method FsError S;
  rename : list Z -> list Z -> method FsError S;
  copy_file : list Z -> list Z -> method FsError S;
  Writer : Type;
  write_file_stream : list Z -> option Z -> act FsError S Writer;
  write_file_inplace_stream : list Z -> option Z -> act FsError S Writer;
  writer_write_all : list Z -> Writer -> S -> bool * (Writer * S);
  writer_flush : Writer -> S -> bool * (Writer * S);
  writer_drop : Writer -> S -> S;
}.
Arguments view {S} _.
Arguments lexists {S} _.
Arguments map_file {S} _.
Arguments write_file {S} _.
Arguments write_file_inplace {S} _.
Arguments write_file_sparse {S} _.
Arguments append_file {S} _.
Arguments mkdir {S} _.
Arguments create_symlink {S} _.
Arguments set_permissions {S} _.
Arguments set_mtime {S} _.
Arguments set_owner {S} _.
Arguments remove_file {S} _.
Arguments remove_dir {S} _.
Arguments set_xattr {S} _.
Arguments hard_link {S} _.
Arguments rename {S} _.
Arguments copy_file {S} _.
Arguments Writer {S} _.
Arguments write_file_stream {S} _.
Arguments write_file_inplace_stream {S} _.
Arguments writer_write_all {S} _.
Arguments writer_flush {S} _.
Arguments writer_drop {S} _.

(** ** Errors of the engine *)

(** [FerrosyncError], without its transport case, and the two ways a
    computation ends besides: a panic, and recursion deeper than the fuel. *)
Inductive failure :=
  | EProtocol (e : ProtocolError)
  | EFs (e : FsError)
  | EFilter (e : FilterError)
  | EPanic
  | EDeep.

Definition lift_err {E F A} (f : E -> F) (m : E + A) : F + A := match m with inr a => inr a | inl e => inl (f e) end.
(** [m?] of a file-system method *)
Definition try_fs {S A} (m : act FsError S A) : act failure S A := fun s =>
  let '(r, s') := m s in (lift_err EFs r, s').
(** [let _ = m] *)
Definition ignore {E F S A} (m : act E S A) : act F S unit := fun s => (inr tt, (m s).2).
Definition of_sum {F S A} (r : F + A) : act F S A := fun s => (r, s).
Definition reading {F S A} (f : S -> A) : act F S A := fun s => (inr (f s), s).
Definition of_result {S A} (r : result A) : act failure S A := fun s =>
  (match r with Ok a => inr a | Err e => inl (EProtocol e) | Panic => inl EPanic end, s).
Definition of_out {S A} (r : out A) : act failure S A := fun s =>
  (match r with Done a => inr a | Failed e => inl (EFs e) | Deep => inl EDeep end, s).

(** ** Paths *)

Definition is_absolute (p : list Z) : bool := starts_with p [47].

(** The components of a path that has no root: empty ones and the dots do not
    count, a leading dot does. *)
Definition components (p : list Z) : list (list Z) :=
  let cs := split_slash [] p in
  let keep := base.filter (fun c => c <> [] /\ c <> [46]) in
  match cs with
  | c :: cs' => if bool_decide (c = [46]) then c :: keep cs' else keep cs
  | [] => []
  end.

(** [p == q] *)
Definition path_eq (p q : list Z) : bool :=
  bool_decide (is_absolute p = is_absolute q) && bool_decide (components p = components q).

(** [p] without the separators and dots it ends in, backwards; the root and a
    leading dot stay. *)
Fixpoint trim_path_rev (r : list Z) : list Z :=
  match r with
  | a :: (b :: _) as r' =>
      if a =? 47 then trim_path_rev r'
      else if (a =? 46) && (b =? 47) then trim_path_rev r'
      else r
  | _ => r
  end.
Definition trim_path (p : list Z) : list Z := rev (trim_path_rev (rev p)).

(** [Path::parent] *)
Definition parent (p : list Z) : option (list Z) :=
  let p := trim_path p in
  if bool_decide (p = []) || bool_decide (p = [47]) then None
  else match rposition 47 p with
       | None => Some []
       | Some i => Some (trim_path (take (S i) p))
       end.

(** [Path::with_file_name] *)
Definition with_file_name (p file_name' : list Z) : list Z :=
  match file_name p with
  | Some _ => match parent p with Some d => path_join d file_name' | None => path_join p file_name' end
  | None => path_join p file_name'
  end.

Lemma path_examples :
  parent (str_bytes "a/b") = Some (str_bytes "a") /\ parent (str_bytes "a//b/./") = Some (str_bytes "a") /\
  parent (str_bytes "/x") = Some (str_bytes "/") /\ parent (str_bytes "x") = Some [] /\ parent (str_bytes "/") = None /\
  parent [] = None /\ with_file_name (str_bytes "/d/f.txt") (str_bytes "f.txt~") = str_bytes "/d/f.txt~" /\
  path_eq (str_bytes "a//b/.") (str_bytes "a/b") = true /\ path_eq (str_bytes "./a") (str_bytes "a") = false.
Proof. vm_compute. split_and!; reflexivity. Qed.

(** A file system that only records which paths it is asked to change. *)
Definition recorder : FsOps (list (list Z)) :=
  let note (p : list Z) : method FsError (list (list Z)) := fun s => (inr tt, s ++ [p]) in
  let none {A} (p : list Z) : FsError + A := inl (NotFound p) in
  mkFsOps (list (list Z))
    (fun _ => mkFileSystem none none none none none none none (fun p _ => none p) (fun _ => false) (fun _ => None))
    (fun _ _ => false) (fun _ => none) (fun p _ _ => note p) (fun p _ _ => note p) (fun p _ _ => note p)
    (fun p _ _ => note p) (fun p _ => note p) (fun _ p => note p) (fun p _ => note p) (fun p _ _ => note p)
    (fun p _ _ => note p) note note (fun p _ _ => note p) (fun _ p => note p) (fun _ p => note p) (fun _ p => note p)
    unit (fun p _ s => (inr tt, s ++ [p])) (fun p _ s => (inr tt, s ++ [p])) (fun _ w s => (true, (w, s)))
    (fun w s => (true, (w, s))) (fun _ s => s).
