(* ===== verification/Progress.v ===== *)
(** [ferrosync-engine/src/progress.rs]: the events of a transfer and the
    tracker that counts and forwards them.  A callback is a list of the events
    it was called with. *)
From S2P Require Import Prelude Text Utf8.

Record ItemizedChanges := mkItemizedChanges {
  update_type : Z;
  file_type : Z;
  checksum_changed : bool;
  size_changed : bool;
  time_changed : bool;
  perms_changed : bool;
  owner_changed : bool;
  group_changed : bool;
}.

(** The characters are ASCII. *)
Definition ItemizedChanges_fmt (c : ItemizedChanges) : list Z :=
  let flag (b : bool) (x : Z) := if b then x else 46 in
  [update_type c; file_type c; flag (checksum_changed c) 99; flag (size_changed c) 115; flag (time_changed c) 116;
   flag (perms_changed c) 112; flag (owner_changed c) 111; flag (group_changed c) 103; 46; 46; 46].

Inductive ProgressEvent :=
  | FileStart (index : Z) (name : list Z) (size : Z)
  | FileComplete (index : Z) (name : list Z) (literal_bytes matched_bytes : Z)
  | FileSkipped (index : Z) (name : list Z)
  | FileDeleted (name : list Z)
  | FileItemized (index : Z) (name : list Z) (changes : ItemizedChanges)
  | OverallProgress (files_done files_total bytes_transferred bytes_total : Z).

Record ProgressTracker := mkProgressTracker {
  callback : option (list ProgressEvent);
  files_done : Z;
  files_total : Z;
  bytes_transferred : Z;
  bytes_total : Z;
}.

Definition ProgressTracker_new : ProgressTracker := mkProgressTracker None 0 0 0 0.
Definition with_callback (cb : list ProgressEvent) : ProgressTracker := mkProgressTracker (Some cb) 0 0 0 0.
Definition set_totals (files bytes : Z) (t : ProgressTracker) : ProgressTracker :=
  mkProgressTracker (callback t) (files_done t) files (bytes_transferred t) bytes.
Definition call (event : ProgressEvent) (cb : option (list ProgressEvent)) : option (list ProgressEvent) :=
  option_map (fun l => l ++ [event]) cb.
Definition emit (event : ProgressEvent) (t : ProgressTracker) : ProgressTracker :=
  let done := match event with
              | FileComplete _ _ _ _ | FileSkipped _ _ => as_u64 (files_done t + 1)
              | _ => files_done t
              end in
  mkProgressTracker (call event (callback t)) done (files_total t) (bytes_transferred t) (bytes_total t).
Definition emit_overall (t : ProgressTracker) : ProgressTracker :=
  mkProgressTracker
    (call (OverallProgress (files_done t) (files_total t) (bytes_transferred t) (bytes_total t)) (callback t))
    (files_done t) (files_total t) (bytes_transferred t) (bytes_total t).

(** The tracker counts the files that were completed or skipped. *)
Definition settles (e : ProgressEvent) : bool :=
  match e with FileComplete _ _ _ _ | FileSkipped _ _ => true | _ => false end.

Lemma emit_counts (events : list ProgressEvent) (t : ProgressTracker) :
  0 <= files_done t -> files_done t + Z.of_nat (length events) < 2 ^ 64 ->
  files_done (foldl (fun t e => emit e t) t events) =
    files_done t + Z.of_nat (length (List.filter settles events)) /\
  callback (foldl (fun t e => emit e t) t events) = option_map (fun l => l ++ events) (callback t).
Proof.
  revert t. induction events as [|e events IH]; intros t H0 H1; cbn [foldl length] in *.
  - split; [cbn; lia|]. destruct (callback t); cbn; [by rewrite app_nil_r|done].
  - assert (Hd : files_done (emit e t) = files_done t + if settles e then 1 else 0).
    { destruct e; cbn [emit files_done settles]; try lia; apply (wrap_id 64); lia. }
    destruct (IH (emit e t)) as [H2 H3]; [rewrite Hd; destruct (settles e); lia..|]. split.
    + rewrite H2, Hd. cbn [List.filter]. destruct (settles e); cbn [length]; lia.
    + rewrite H3. cbn [emit callback]. unfold call. destruct (callback t); cbn; [by rewrite <- app_assoc|done].
Qed.
