(* ===== verification/Listing.v ===== *)
(** [ferrosync-types/src/entry.rs]: the line [--list-only] prints for an entry:
    mode, size, time of modification, name. *)
From S2P Require Import Prelude Types Text Utf8.

(** ** Numbers in decimal *)

Fixpoint digits (fuel : nat) (n : Z) : list Z :=
  match fuel with
  | O => []
  | S f => if n <? 10 then [48 + n] else digits f (n / 10) ++ [48 + n mod 10]
  end.
(** A 64-bit integer has at most twenty digits. *)
Definition decimal (n : Z) : list Z := if n <? 0 then 45 :: digits 20 (- n) else digits 20 n.

(** [{:0w}] keeps the sign first; [{:>w}] *)
Definition pad_zero (w : nat) (n : Z) : list Z :=
  let ds := digits 20 (Z.abs n) in
  if n <? 0 then 45 :: replicate (w - 1 - length ds) 48 ++ ds else replicate (w - length ds) 48 ++ ds.
Definition pad_left (w : nat) (s : list Z) : list Z := replicate (w - length s) 32 ++ s.

(** ** The mode *)

Definition flag_char (perms mask c : Z) : Z := if has_bits perms mask then c else 45.
(** Execute, with the set-id or sticky bit over it. *)
Definition exec_char (perms special exec lower upper : Z) : Z :=
  if has_bits perms special then (if has_bits perms exec then lower else upper)
  else if has_bits perms exec then 120 else 45.

Definition format_mode (mode : Z) : list Z :=
  let ft := Z.land mode S_IFMT in
  let file_type :=
    if ft =? S_IFDIR then 100 else if ft =? S_IFLNK then 108 else if ft =? S_IFBLK then 98
    else if ft =? S_IFCHR then 99 else if ft =? S_IFIFO then 112 else if ft =? S_IFSOCK then 115 else 45 in
  let perms := Z.land mode 0xFFF in
  [file_type;
   flag_char perms 0x100 114; flag_char perms 0x80 119; exec_char perms 0x800 0x40 115 83;
   flag_char perms 0x20 114; flag_char perms 0x10 119; exec_char perms 0x400 0x8 115 83;
   flag_char perms 0x4 114; flag_char perms 0x2 119; exec_char perms 0x200 0x1 116 84].

(** ** The time *)

(** Year, month, day of a day counted from 1970-01-01; [u32] inside the era. *)
Definition civil (days : Z) : Z * Z * Z :=
  let z := days + 719468 in
  let era := Z.quot (if 0 <=? z then z else z - 146096) 146097 in
  let doe := as_u32 (z - era * 146097) in
  let yoe := (doe - doe / 1460 + doe / 36524 - doe / 146096) / 365 in
  let y := yoe + era * 400 in
  let doy := doe - (365 * yoe + yoe / 4 - yoe / 100) in
  let mp := (5 * doy + 2) / 153 in
  let d := doy - (153 * mp + 2) / 5 + 1 in
  let m := if mp <? 10 then mp + 3 else mp - 9 in
  let y := if m <=? 2 then y + 1 else y in
  (y, m, d).

Definition format_mtime (mtime : Z) : list Z :=
  let days := Z.quot mtime 86400 in
  let time_of_day := as_u32 (Z.rem mtime 86400) in
  let hours := time_of_day / 3600 in
  let minutes := (time_of_day mod 3600) / 60 in
  let seconds := time_of_day mod 60 in
  let '(y, m, d) := civil days in
  pad_zero 4 y ++ 47 :: pad_zero 2 m ++ 47 :: pad_zero 2 d ++ 32 ::
  pad_zero 2 hours ++ 58 :: pad_zero 2 minutes ++ 58 :: pad_zero 2 seconds.

Definition format_list_entry (e : FileEntry) : list Z :=
  format_mode (mode e) ++ 32 :: pad_left 12 (decimal (len e)) ++ 32 :: format_mtime (mtime e) ++ 32 ::
  from_utf8_lossy (name e).

Lemma listing_examples :
  format_mode 0x81A4 = str_bytes "-rw-r--r--" /\ format_mode 0x41ED = str_bytes "drwxr-xr-x" /\
  format_mode 0x89ED = str_bytes "-rwsr-xr-x" /\ format_mtime 1705319445 = str_bytes "2024/01/15 11:50:45" /\
  format_mtime 951782400 = str_bytes "2000/02/29 00:00:00" /\
  pad_left 12 (decimal (-7)) = str_bytes "          -7".
Proof. vm_compute. split_and!; reflexivity. Qed.

(** ** The calendar *)

Definition leap (y : Z) : bool := (y mod 4 =? 0) && (negb (y mod 100 =? 0) || (y mod 400 =? 0)).
Definition month_length (leap : bool) (m : Z) : Z :=
  if m =? 2 then (if leap then 29 else 28)
  else if (m =? 4) || (m =? 6) || (m =? 9) || (m =? 11) then 30 else 31.
Definition valid_date (y m d : Z) : bool := (1 <=? m) && (m <=? 12) && (1 <=? d) && (d <=? month_length (leap y) m).

(** Days of the months before month [m], and of the years between 1970 and [y]. *)
Definition month_days (leap : bool) (m : Z) : Z :=
  foldr (fun k acc => (if Z.of_nat k <? m then month_length leap (Z.of_nat k) else 0) + acc) 0 (seq 1 12).
Definition year_days (y : Z) : Z := 365 * (y - 1970) + ((y - 1) / 4 - (y - 1) / 100 + (y - 1) / 400 - 477).
Definition day_number (y m d : Z) : Z := year_days y + month_days (leap y) m + (d - 1).

Lemma div_pred y c : 0 < c -> y / c = (y - 1) / c + if y mod c =? 0 then 1 else 0.
Proof.
  intros Hc. pose proof (Z.div_mod y c ltac:(lia)). pose proof (Z.mod_pos_bound y c Hc).
  destruct (Z.eqb_spec (y mod c) 0) as [E|E].
  - replace ((y - 1) / c) with (y / c - 1); [lia|]. apply Z.div_unique with (c - 1); lia.
  - replace ((y - 1) / c) with (y / c); [lia|]. apply Z.div_unique with (y mod c - 1); lia.
Qed.

(** One year after the other. *)
Lemma year_days_succ y : year_days (y + 1) = year_days y + if leap y then 366 else 365.
Proof.
  unfold year_days, leap. replace (y + 1 - 1) with y by lia.
  rewrite (div_pred y 4), (div_pred y 100), (div_pred y 400) by lia.
  assert (y mod 400 = 0 -> y mod 100 = 0) by 
    (intros Hk; apply Z.mod_divide in Hk as [k ->]; [|lia]; replace (k * 400) with (k * 4 * 100) by lia; apply Z_mod_mult).
  assert (y mod 100 = 0 -> y mod 4 = 0) by
    (intros Hk; apply Z.mod_divide in Hk as [k ->]; [|lia]; replace (k * 100) with (k * 25 * 4) by lia; apply Z_mod_mult).
  destruct (Z.eqb_spec (y mod 4) 0), (Z.eqb_spec (y mod 100) 0), (Z.eqb_spec (y mod 400) 0); cbn [negb andb orb]; lia.
Qed.

Lemma leap_era y k : leap (y + 400 * k) = leap y.
Proof.
  unfold leap. replace (y + 400 * k) with (y + (100 * k) * 4) at 1 by lia. rewrite Z_mod_plus_full.
  replace (y + 400 * k) with (y + (4 * k) * 100) at 1 by lia. rewrite Z_mod_plus_full.
  replace (y + 400 * k) with (y + k * 400) by lia. by rewrite Z_mod_plus_full.
Qed.

Lemma day_number_era y m d k : day_number (y + 400 * k) m d = day_number y m d + 146097 * k.
Proof.
  unfold day_number. rewrite leap_era. unfold year_days.
  assert (forall c, 0 < c -> (400 mod c = 0) -> (y + 400 * k - 1) / c = (y - 1) / c + 400 / c * k) as Hc.
  { intros c Hc H0. replace (y + 400 * k - 1) with (y - 1 + (400 / c * k) * c); [apply Z_div_plus_full; lia|].
    pose proof (Z.div_mod 400 c ltac:(lia)) as Hd4. rewrite H0 in Hd4.
    replace (400 / c * k * c) with (c * (400 / c) * k) by ring. replace (c * (400 / c)) with 400 by lia. lia. }
  rewrite !Hc by (try lia; reflexivity). change (400 / 4) with 100. change (400 / 100) with 4. change (400 / 400) with 1. lia.
Qed.

(** *** One era of 400 years, from 1 March of its first year

    [march_days k] is the number of days before 1 March of year [k], and
    [year_of] the year a day of the era falls in; the years are checked one by
    one at their first and last day, and the days of a year one by one. *)

Definition march_days (k : Z) : Z := 365 * k + k / 4 - k / 100.
Definition march_length (k : Z) : Z := if leap (k + 1) then 366 else 365.
Definition year_of (doe : Z) : Z := (doe - doe / 1460 + doe / 36524 - doe / 146096) / 365.

Definition year_ok (k : Z) : bool :=
  (year_of (march_days k) =? k) && (year_of (march_days k + march_length k - 1) =? k) &&
  ((k =? 399) || (march_days (k + 1) =? march_days k + march_length k)) &&
  (year_days k + 59 + (if leap k then 1 else 0) =? march_days k - 719468).
Lemma years_ok : forallb (fun k => year_ok (Z.of_nat k)) (seq 0 400) = true.
Proof. vm_compute. reflexivity. Qed.

Lemma year_ok_at k : 0 <= k < 400 -> year_ok k = true.
Proof.
  intros Hk. pose proof (proj1 (forallb_forall _ _) years_ok (Z.to_nat k)) as H1. cbv beta in H1. rewrite Z2Nat.id in H1 by lia.
  apply H1, in_seq. lia.
Qed.

Lemma year_of_mono d d' : 0 <= d -> d <= d' < 146097 -> year_of d <= year_of d'.
Proof.
  intros Hd [Hle Hlt]. assert (Hn : d' = d + Z.of_nat (Z.to_nat (d' - d))) by lia. rewrite Hn in Hlt |- *. clear Hn Hle.
  induction (Z.to_nat (d' - d)) as [|n IH]; [by rewrite Z.add_0_r|]. etransitivity; [apply IH; lia|].
  unfold year_of. apply Z.div_le_mono; [lia|]. replace (d + Z.of_nat (S n)) with (d + Z.of_nat n + 1) by lia.
  generalize (d + Z.of_nat n) as e, Hlt. intros e He. Z.to_euclidean_division_equations; lia.
Qed.

Lemma year_of_spec doe : 0 <= doe < 146097 ->
  0 <= year_of doe < 400 /\ 0 <= doe - march_days (year_of doe) < march_length (year_of doe).
Proof.
  intros Hd. assert (Hy : 0 <= year_of doe < 400).
  { split; [apply (year_of_mono 0 doe); lia|]. apply Z.le_lt_trans with (year_of 146096); [apply year_of_mono; lia|reflexivity]. }
  split; [done|]. remember (year_of doe) as k eqn:Ek.
  assert (Hok : forall j, 0 <= j < 400 -> year_of (march_days j) = j /\ year_of (march_days j + march_length j - 1) = j /\
    (j <> 399 -> march_days (j + 1) = march_days j + march_length j)).
  { intros j Hj. apply year_ok_at in Hj. unfold year_ok in Hj. rewrite !andb_true_iff, orb_true_iff, !Z.eqb_eq in Hj. tauto. }
  assert (Hb : forall j, 0 <= j < 400 -> 0 <= march_days j /\ 365 <= march_length j).
  { intros j Hj. unfold march_days, march_length. split; [clear -Hj; Z.to_euclidean_division_equations; lia|destruct (leap (j + 1)); lia]. }
  destruct (Hok k Hy) as (H1 & H2 & H3). destruct (Hb k Hy) as [Hb1 Hb2]. split.
  - apply Z.nlt_ge. intros Hlt. destruct (decide (k = 0)) as [E|Hk0]; [rewrite E in *; change (march_days 0) with 0 in Hlt; lia|].
    destruct (Hok (k - 1) ltac:(lia)) as (_ & H5 & H6). specialize (H6 ltac:(lia)). replace (k - 1 + 1) with k in H6 by lia.
    destruct (Hb (k - 1) ltac:(lia)) as [Hb3 Hb4].
    pose proof (year_of_mono doe (march_days (k - 1) + march_length (k - 1) - 1)) as Hm.
    assert (march_days k < 146097) by (unfold march_days; Z.to_euclidean_division_equations; lia). lia.
  - apply Z.nle_gt. intros Hge. destruct (decide (k = 399)) as [E|Hk]; [rewrite E in *; change (march_days 399) with 145731 in Hge; change (march_length 399) with 366 in Hge; lia|].
    destruct (Hok (k + 1) ltac:(lia)) as (H5 & _ & _). specialize (H3 Hk).
    pose proof (year_of_mono (march_days (k + 1)) doe ltac:(lia) ltac:(lia)). lia.
Qed.

(** Month and day of the [doy]-th day of a year that starts in March, by
    whether that year and the next are leap years. *)
Definition month_of (doy : Z) : Z := let mp := (5 * doy + 2) / 153 in if mp <? 10 then mp + 3 else mp - 9.
Definition day_of (doy : Z) : Z := doy - (153 * ((5 * doy + 2) / 153) + 2) / 5 + 1.
Definition doy_ok (doy : Z) (this following : bool) : bool :=
  let m := month_of doy in
  let d := day_of doy in
  let lp := if m <=? 2 then following else this in
  (1 <=? m) && (m <=? 12) && (1 <=? d) && (d <=? month_length lp m) &&
  ((if m <=? 2 then 365 + (if this then 1 else 0) else 0) + month_days lp m + (d - 1) =?
   59 + (if this then 1 else 0) + doy).
Lemma doys_ok : forallb (fun doy => doy_ok (Z.of_nat doy) true true && doy_ok (Z.of_nat doy) false true) (seq 0 366) &&
  forallb (fun doy => doy_ok (Z.of_nat doy) true false && doy_ok (Z.of_nat doy) false false) (seq 0 365) = true.
Proof. vm_compute. reflexivity. Qed.

Lemma doy_ok_at doy (this following : bool) : 0 <= doy < (if following then 366 else 365) -> doy_ok doy this following = true.
Proof.
  intros Hd. pose proof doys_ok as H1. apply andb_true_iff in H1 as [H1 H2]. rewrite forallb_forall in H1, H2.
  replace doy with (Z.of_nat (Z.to_nat doy)) by lia. destruct following.
  - specialize (H1 (Z.to_nat doy)). rewrite andb_true_iff in H1. destruct this; apply H1, in_seq; lia.
  - specialize (H2 (Z.to_nat doy)). rewrite andb_true_iff in H2. destruct this; apply H2, in_seq; lia.
Qed.

Lemma civil_in_era doe : 0 <= doe < 146097 ->
  let yoe := year_of doe in
  let doy := doe - march_days yoe in
  let y := if month_of doy <=? 2 then yoe + 1 else yoe in
  valid_date y (month_of doy) (day_of doy) = true /\ day_number y (month_of doy) (day_of doy) = doe - 719468.
Proof.
  intros Hd yoe doy y. destruct (year_of_spec doe Hd) as [Hy Hdoy]. fold yoe in Hy, Hdoy. fold doy in Hdoy.
  pose proof (year_ok_at yoe Hy) as Hk. unfold year_ok in Hk. apply andb_true_iff in Hk as [_ Hk%Z.eqb_eq].
  pose proof (doy_ok_at doy (leap yoe) (leap (yoe + 1)) Hdoy) as Hok. unfold doy_ok in Hok.
  apply andb_true_iff in Hok as [Hv Hn%Z.eqb_eq].
  assert (Hl : leap y = if month_of doy <=? 2 then leap (yoe + 1) else leap yoe) by (unfold y; by destruct (month_of doy <=? 2)).
  unfold valid_date, day_number. rewrite Hl. split; [exact Hv|]. unfold y.
  assert (Ed : doy = doe - march_days yoe) by reflexivity. clearbody doy yoe.
  destruct (month_of doy <=? 2); rewrite ?year_days_succ; destruct (leap yoe); lia.
Qed.

Lemma civil_spec days : 0 <= days + 719468 ->
  let '(y, m, d) := civil days in valid_date y m d = true /\ day_number y m d = days.
Proof.
  intros Hd. set (z := days + 719468) in *. set (k := z mod 146097).
  assert (Hk : 0 <= k < 146097) by (apply Z.mod_pos_bound; lia).
  assert (Hera : Z.quot z 146097 = z / 146097) by (apply Z.quot_div_nonneg; lia).
  assert (Hdoe : as_u32 (z - z / 146097 * 146097) = k).
  { unfold k. rewrite (wrap_id 32); [|change (2 ^ 32) with 4294967296]; Z.to_euclidean_division_equations; lia. }
  destruct (civil_in_era k Hk) as [Hv Hn]. unfold civil. fold z.
  replace (0 <=? z) with true by (symmetry; by apply Z.leb_le). rewrite Hera, Hdoe.
  fold (year_of k). set (yoe := year_of k) in *. fold (march_days yoe). set (doy := k - march_days yoe) in *.
  fold (month_of doy) (day_of doy). set (q := z / 146097).
  replace (if month_of doy <=? 2 then yoe + q * 400 + 1 else yoe + q * 400)
    with ((if month_of doy <=? 2 then yoe + 1 else yoe) + 400 * q) by (destruct (month_of doy <=? 2); lia).
  split; [unfold valid_date in *; by rewrite leap_era|].
  rewrite day_number_era, Hn. unfold k, q, z. Z.to_euclidean_division_equations; lia.
Qed.

(** The listed time is the time: from 1970 on, the six numbers printed are
    those of a date that exists in the calendar and of a time of that day, and
    they name the very second that is stored. *)
Theorem listed_time (mtime : Z) : 0 <= mtime < 2 ^ 63 ->
  exists y m d h mi s,
    format_mtime mtime = pad_zero 4 y ++ 47 :: pad_zero 2 m ++ 47 :: pad_zero 2 d ++ 32 ::
      pad_zero 2 h ++ 58 :: pad_zero 2 mi ++ 58 :: pad_zero 2 s /\
    valid_date y m d = true /\ 0 <= h < 24 /\ 0 <= mi < 60 /\ 0 <= s < 60 /\
    day_number y m d * 86400 + h * 3600 + mi * 60 + s = mtime.
Proof.
  intros Hm. unfold format_mtime.
  assert (Hq : Z.quot mtime 86400 = mtime / 86400) by (apply Z.quot_div_nonneg; lia).
  assert (Hr : as_u32 (Z.rem mtime 86400) = mtime mod 86400).
  { rewrite Z.rem_mod_nonneg by lia. apply (wrap_id 32). pose proof (Z.mod_pos_bound mtime 86400). lia. }
  rewrite Hq, Hr. pose proof (civil_spec (mtime / 86400) ltac:(pose proof (Z.div_pos mtime 86400); lia)) as Hc.
  destruct (civil (mtime / 86400)) as [[y m] d]. destruct Hc as [Hv Hn].
  eexists y, m, d, _, _, _. split; [reflexivity|]. split; [done|]. rewrite Hn.
  Z.to_euclidean_division_equations; lia.
Qed.

Lemma listed_time_witness :
  format_mtime 951827696 = str_bytes "2000/02/29 12:34:56" /\
  exists y m d h mi s,
    format_mtime 951827696 = pad_zero 4 y ++ 47 :: pad_zero 2 m ++ 47 :: pad_zero 2 d ++ 32 ::
      pad_zero 2 h ++ 58 :: pad_zero 2 mi ++ 58 :: pad_zero 2 s /\
    valid_date y m d = true /\ 0 <= h < 24 /\ 0 <= mi < 60 /\ 0 <= s < 60 /\
    day_number y m d * 86400 + h * 3600 + mi * 60 + s = 951827696.
Proof. split; [reflexivity|]. apply (listed_time 951827696). split; [discriminate|reflexivity]. Defined.

(** Before 1970 the remainder is negative, and its cast is no time of day. *)
Lemma listed_time_before_epoch : format_mtime (-1) = str_bytes "1970/01/01 1193046:28:15".
Proof. reflexivity. Qed.
