(* ===== verification/FileDecision.v ===== *)
(** [ferrosync-engine/src/file_decision.rs]: whether a file is skipped, how it
    is written, which metadata it gets. *)
From S2P Require Import Prelude Wire Types Text Utf8 Acl Filter Scanner Options Fs Chmod Progress.

(** [UnixTimestamp::abs_diff], as the release build computes it *)
Definition abs_diff (a b : Z) : Z := as_i64 (Z.abs (as_i64 (a - b))).

Definition is_ok {E A} (m : E + A) : bool := match m with inr _ => true | inl _ => false end.
Definition is_some {A} (o : option A) : bool := match o with Some _ => true | None => false end.

Section decisions.
  Context {S : Type} (F : FsOps S).

Definition check_existence_skip (s : S) (dest_path : list Z) (options : TransferConfig) : bool :=
  let dest_exists := lexists F s dest_path in
  if Get.existing options && negb dest_exists then true
  else Get.ignore_existing options && dest_exists.

Definition quick_check_skip (s : S) (src_entry : FileEntry) (dest_path : list Z) (options : TransferConfig) : bool :=
  if Get.ignore_times options then false
  else match lstat (view F s) dest_path with
       | inl _ => false
       | inr dest_meta =>
           if Get.update options && (mtime src_entry <? md_mtime dest_meta) then true
           else if negb (md_len dest_meta =? len src_entry) then false
           else if Get.size_only options then true
           else abs_diff (md_mtime dest_meta) (mtime src_entry) <=? Get.modify_window options
       end.

(** The size and the time of an alternative file, as [check_alt_dest] compares
    them. *)
Definition alt_matches (s : S) (src_entry : FileEntry) (options : TransferConfig) (alt_path : list Z) : bool :=
  match lstat (view F s) alt_path with
  | inr meta =>
      (md_len meta =? len src_entry) && (abs_diff (md_mtime meta) (mtime src_entry) <=? Get.modify_window options)
  | inl _ => false
  end.
Fixpoint check_alt_dest (s : S) (src_entry : FileEntry) (alt_dirs : list (list Z)) (options : TransferConfig)
    : option (list Z) :=
  match alt_dirs with
  | [] => None
  | dir :: alt_dirs' =>
      let alt_path := path_join dir (name src_entry) in
      if alt_matches s src_entry options alt_path then Some alt_path
      else check_alt_dest s src_entry alt_dirs' options
  end.

Definition resolve_link_dest_dirs (link_dest : list (list Z)) (dest : list Z) : list (list Z) :=
  map (fun d => if is_absolute d then d else path_join dest d) link_dest.

Definition check_size_limits (entry : FileEntry) (options : TransferConfig) : bool :=
  match Get.max_size options with Some max => max <? as_u64 (len entry) | None => false end
  || match Get.min_size options with Some min => as_u64 (len entry) <? min | None => false end.

(** The loop over the components, with the depth so far; [i32]. *)
Fixpoint escapes (depth : Z) (cs : list (list Z)) : bool :=
  match cs with
  | [] => false
  | c :: cs' =>
      if bool_decide (c = [46; 46]) then
        let depth := as_i32 (depth - 1) in
        if depth <? 0 then true else escapes depth cs'
      else if bool_decide (c = [46]) then escapes depth cs'
      else escapes (as_i32 (depth + 1)) cs'
  end.
Definition is_unsafe_symlink (target : list Z) : bool :=
  let target_path := from_utf8_lossy target in
  if is_absolute target_path then true else escapes 0 (components target_path).

Definition create_backup (path suffix : list Z) (backup_dir : option (list Z)) : method FsError S := fun s =>
  let file_name := match file_name path with Some n => n | None => [] end in
  let backup_name := from_utf8_lossy file_name ++ suffix in
  match backup_dir with
  | Some dir => then_ (mkdir F dir 0x1ED) (rename F path (path_join dir backup_name)) s
  | None => rename F path (with_file_name path backup_name) s
  end.

(** The mode a file is created with: that of the entry, changed by [--chmod]. *)
Definition file_mode (entry : FileEntry) (options : TransferConfig) (chmod : option ChmodSpec) : option Z :=
  if Get.preserve_perms options then
    let m := Z.land (mode entry) 0xFFF in
    Some (match chmod with Some spec => Chmod.apply spec m (FileEntry.is_dir entry) | None => m end)
  else None.

(** The writer is dropped on every path out of the block. *)
Definition write_streamed (dest_path data : list Z) (mode : option Z) : method FsError S := fun s =>
  match write_file_stream F dest_path mode s with
  | (inl e, s) => (inl e, s)
  | (inr writer, s) =>
      let '(ok, (writer, s)) := writer_write_all F data writer s in
      if negb ok then (inl (FsIo dest_path), writer_drop F writer s)
      else
        let '(ok, (writer, s)) := writer_flush F writer s in
        if negb ok then (inl (FsIo dest_path), writer_drop F writer s)
        else (inr tt, writer_drop F writer s)
  end.

Definition write_file_with_options (dest_path data : list Z) (entry : FileEntry) (options : TransferConfig)
    (chmod : option ChmodSpec) : method FsError S :=
  let mode := file_mode entry options chmod in
  if Get.sparse options then write_file_sparse F dest_path data mode
  else if Get.inplace options then write_file_inplace F dest_path data mode
  else if STREAMING_THRESHOLD <=? Z.of_nat (length data) then write_streamed dest_path data mode
  else write_file F dest_path data mode.

(** A failing metadata call is a warning. *)
Definition warn {E} (m : method E S) (s : S) : S := (m s).2.

Definition set_times (dest_path : list Z) (entry : FileEntry) (options : TransferConfig) (s : S) : S :=
  if Get.preserve_times options then warn (set_mtime F dest_path (mtime entry) (mtime_nsec entry)) s else s.
Definition unwrap_or {A} (o : option A) (d : A) : A := match o with Some a => a | None => d end.
Definition set_ownership (dest_path : list Z) (entry : FileEntry) (options : TransferConfig) (s : S) : S :=
  let u := unwrap_or (Get.chown_uid options) (uid entry) in
  let g := unwrap_or (Get.chown_gid options) (gid entry) in
  if Get.preserve_owner options || is_some (Get.chown_uid options) || is_some (Get.chown_gid options)
  then warn (set_owner F dest_path u g) s else s.
Definition ACCESS_ACL : list Z := str_bytes "system.posix_acl_access".
Definition DEFAULT_ACL : list Z := str_bytes "system.posix_acl_default".
Definition set_acls (dest_path : list Z) (entry : FileEntry) (options : TransferConfig) (s : S) : S :=
  if Get.preserve_acls options then
    match acl entry with
    | Some (Posix a) =>
        let s := warn (set_xattr F dest_path ACCESS_ACL (serialize_posix_acl_binary (access a))) s in
        match Types.default a with
        | Some d => warn (set_xattr F dest_path DEFAULT_ACL (serialize_posix_acl_binary d)) s
        | None => s
        end
    | None => s
    end
  else s.
(** The name without the terminator the wire format keeps. *)
Definition os_xattr_name (name : list Z) : list Z :=
  match last name with Some 0 => removelast name | _ => name end.
Definition set_xattrs (dest_path : list Z) (entry : FileEntry) (options : TransferConfig) (s : S) : S :=
  if Get.preserve_xattrs options then
    match xattrs entry with
    | Some x => foldl (fun s xa => warn (set_xattr F dest_path (os_xattr_name (xattr_name xa)) (xattr_value xa)) s)
                  s (xattr_entries x)
    | None => s
    end
  else s.
Definition set_file_metadata (dest_path : list Z) (entry : FileEntry) (options : TransferConfig) (s : S) : S :=
  set_xattrs dest_path entry options
    (set_acls dest_path entry options
      (set_ownership dest_path entry options
        (set_times dest_path entry options s))).

(** 'd' 'L' 'D' 'f', 'c' '>' '.' *)
Definition compute_itemized (s : S) (src_entry : FileEntry) (dest_path : list Z) (options : TransferConfig)
    : ItemizedChanges :=
  let file_type := if FileEntry.is_dir src_entry then 100
                   else if FileEntry.is_symlink src_entry then 76
                   else if FileEntry.is_device src_entry then 68 else 102 in
  match lstat (view F s) dest_path with
  | inl _ => mkItemizedChanges 99 file_type false true true true true true
  | inr dest_meta =>
      let size_changed := negb (md_len dest_meta =? len src_entry) in
      let time_changed := negb (md_mtime dest_meta =? mtime src_entry) in
      let perms_changed := Get.preserve_perms options &&
        negb (Z.land (md_mode dest_meta) 0xFFF =? Z.land (mode src_entry) 0xFFF) in
      let owner_changed := Get.preserve_owner options && negb (md_uid dest_meta =? uid src_entry) in
      let group_changed := (Get.preserve_group options || Get.preserve_owner options) &&
        negb (md_gid dest_meta =? gid src_entry) in
      let any_change := size_changed || time_changed || perms_changed || owner_changed || group_changed in
      mkItemizedChanges (if any_change then 62 else 46) file_type false
        size_changed time_changed perms_changed owner_changed group_changed
  end.

End decisions.

(** ** Fuzzy matching *)

(** One row of the table, from the row above and the cell to the left. *)
Fixpoint lcs_row (x : Z) (b : list Z) (prev : list nat) (left : nat) : list nat :=
  match b, prev with
  | y :: b', p0 :: p1 :: _ =>
      let c := if x =? y then S p0 else Nat.max p1 left in
      c :: lcs_row x b' (tail prev) c
  | _, _ => []
  end.
Definition longest_common_subsequence_len (a b : list Z) : nat :=
  let row := foldl (fun prev x => O :: lcs_row x b prev O) (replicate (S (length b)) O) a in
  nth (length b) row O.

(** The quotient that [fuzzy_score] returns as a float, numerator and
    denominator. *)
Definition fuzzy_score (a b : list Z) : Z * Z :=
  if bool_decide (a = []) || bool_decide (b = []) then (0, 1)
  else (Z.of_nat (longest_common_subsequence_len a b), Z.of_nat (Nat.max (length a) (length b))).
(** [p > q] *)
Definition score_gt (p q : Z * Z) : bool := q.1 * p.2 <? p.1 * q.2.

(** ** Symbolic links, lexically *)

(** Where a walk along the components ends, without looking at the disk: from
    the directory [dir], given by its components. *)
Fixpoint walk (dir : list (list Z)) (cs : list (list Z)) : list (list Z) :=
  match cs with
  | [] => dir
  | c :: cs' =>
      if bool_decide (c = [46; 46]) then walk (removelast dir) cs'
      else if bool_decide (c = [46]) then walk dir cs'
      else walk (dir ++ [c]) cs'
  end.

Lemma removelast_app_ne {A} (base below : list A) : below <> [] -> removelast (base ++ below) = base ++ removelast below.
Proof. apply removelast_app. Qed.

(** No prefix of the components leaves the directory, which lies [k] levels
    below the base. *)
Lemma escapes_walk (cs below base : list (list Z)) :
  Z.of_nat (length below) + Z.of_nat (length cs) < 2 ^ 31 ->
  escapes (Z.of_nat (length below)) cs = false ->
  forall n, exists below', walk (base ++ below) (take n cs) = base ++ below'.
Proof.
  revert below. induction cs as [|c cs IH]; intros below Hl He n.
  { rewrite take_nil. by exists below. }
  destruct n as [|n]; [by exists below|]. cbn [take walk escapes length] in *.
  rewrite !(swrap_id 32) in He by lia. repeat case_bool_decide.
  - destruct (Z.ltb_spec (Z.of_nat (length below) - 1) 0) as [|Hge]; [done|].
    assert (Hne : below <> []) by (intros ->; cbn in Hge; lia).
    rewrite removelast_app_ne by done. destruct (exists_last Hne) as (l & a & ->).
    rewrite removelast_last. apply IH; [rewrite length_app in Hl; cbn in Hl; lia|].
    rewrite length_app in He. cbn [length] in He. by replace (Z.of_nat (length l)) with (Z.of_nat (length l + 1) - 1) by lia.
  - apply IH; [lia|done].
  - rewrite <- app_assoc. apply IH; rewrite length_app; cbn [length]; [lia|].
    by replace (Z.of_nat (length below + 1)) with (Z.of_nat (length below) + 1) by lia.
Qed.

Lemma walk_escapes (cs below base : list (list Z)) :
  Z.of_nat (length below) + Z.of_nat (length cs) < 2 ^ 31 -> base <> [] ->
  escapes (Z.of_nat (length below)) cs = true ->
  exists n, walk (base ++ below) (take n cs) = removelast base.
Proof.
  intros Hl Hb. revert below Hl. induction cs as [|c cs IH]; intros below Hl He; [done|].
  cbn [escapes length] in *. rewrite !(swrap_id 32) in He by lia.
  assert (Hstep : forall dir', (exists n, walk dir' (take n cs) = removelast base) ->
    walk (base ++ below) [c] = dir' -> exists n, walk (base ++ below) (take n (c :: cs)) = removelast base).
  { intros dir' (n & Hn) Hc. exists (S n). cbn [take walk] in *. repeat case_bool_decide; by subst dir'. }
  repeat case_bool_decide.
  - destruct (Z.ltb_spec (Z.of_nat (length below) - 1) 0) as [Hlt|Hge].
    + destruct below; [|cbn in Hlt; lia]. rewrite app_nil_r in *. exists 1%nat. cbn [take walk].
      by rewrite bool_decide_true.
    + assert (Hne : below <> []) by (intros ->; cbn in Hge; lia). destruct (exists_last Hne) as (l & a & ->).
      rewrite length_app in *. cbn [length] in *. apply (Hstep (base ++ l)).
      * apply IH; [lia|]. by replace (Z.of_nat (length l)) with (Z.of_nat (length l + 1) - 1) by lia.
      * cbn [walk]. rewrite bool_decide_true, removelast_app_ne, removelast_last by done. done.
  - apply (Hstep (base ++ below)); [apply IH; [lia|done]|]. cbn [walk]. by rewrite bool_decide_false, bool_decide_true by done.
  - apply (Hstep (base ++ below ++ [c])).
    + apply IH; rewrite length_app; cbn [length]; [lia|].
      by replace (Z.of_nat (length below + 1)) with (Z.of_nat (length below) + 1) by lia.
    + cbn [walk]. by rewrite !bool_decide_false, <- app_assoc by done.
Qed.



(** The depth the link itself lies at is no part of the count: a link in a
    subdirectory to a file beside that directory counts as unsafe, though it
    stays inside the tree. *)
Lemma safe_links_own_depth :
  is_unsafe_symlink (str_bytes "../file") = true /\
  walk [str_bytes "tree"; str_bytes "sub"] (components (str_bytes "../file")) = [str_bytes "tree"; str_bytes "file"].
Proof. split; reflexivity. Qed.

(** ** The longest common subsequence *)

(** The recursion the table tabulates. *)
Fixpoint lcs (a : list Z) : list Z -> nat :=
  match a with
  | [] => fun _ => O
  | x :: a' =>
      fix go (b : list Z) : nat :=
        match b with
        | [] => O
        | y :: b' => if x =? y then S (lcs a' b') else Nat.max (lcs a' b) (go b')
        end
  end.

Lemma lcs_nil_r a : lcs a [] = O.
Proof. by destruct a. Qed.
Lemma lcs_cons x a y b : lcs (x :: a) (y :: b) = if x =? y then S (lcs a b) else Nat.max (lcs a (y :: b)) (lcs (x :: a) b).
Proof. done. Qed.

(** Below the part of a row still to be computed lies the part of [b] still to
    be read; everything is read backwards. *)
Fixpoint row_of (a done_ b : list Z) : list nat :=
  lcs a done_ :: match b with [] => [] | y :: b' => row_of a (y :: done_) b' end.

Lemma lcs_row_spec x a b done_ :
  lcs (x :: a) done_ :: lcs_row x b (row_of a done_ b) (lcs (x :: a) done_) = row_of (x :: a) done_ b.
Proof.
  revert done_. induction b as [|y b IH]; intros done_; [done|].
  assert (Hc : (if x =? y then S (lcs a done_) else Nat.max (lcs a (y :: done_)) (lcs (x :: a) done_)) =
    lcs (x :: a) (y :: done_)) by reflexivity.
  cbn [row_of]. f_equal. rewrite <- IH. destruct b as [|z b]; cbn [row_of lcs_row tail] in *; by rewrite Hc.
Qed.

Lemma row_of_nil b done_ : row_of [] done_ b = replicate (S (length b)) O.
Proof. revert done_. induction b as [|y b IH]; intros done_; [done|]. cbn. f_equal. apply IH. Qed.

Lemma table_spec a b : forall a0,
  foldl (fun prev x => O :: lcs_row x b prev O) (row_of a0 [] b) a = row_of (rev a ++ a0) [] b.
Proof.
  induction a as [|x a IH]; intros a0; [done|]. cbn [foldl rev].
  pose proof (lcs_row_spec x a0 b []) as Hr. rewrite lcs_nil_r in Hr. rewrite Hr, IH.
  by rewrite <- app_assoc.
Qed.

Lemma row_of_last a done_ b : nth (length b) (row_of a done_ b) O = lcs a (rev b ++ done_).
Proof.
  revert done_. induction b as [|y b IH]; intros done_; [by cbn|].
  cbn [length row_of nth rev]. rewrite IH. by rewrite <- app_assoc.
Qed.

Lemma longest_common_subsequence_len_lcs a b : longest_common_subsequence_len a b = lcs (rev a) (rev b).
Proof.
  unfold longest_common_subsequence_len. cbv zeta. rewrite <- (row_of_nil b []), table_spec, row_of_last.
  by rewrite !app_nil_r.
Qed.

Lemma lcs_common a b : exists s, s `sublist_of` a /\ s `sublist_of` b /\ length s = lcs a b.
Proof.
  revert b. induction a as [|x a IHa].
  { intros b. exists []. split_and!; [done|apply sublist_nil_l|done]. }
  induction b as [|y b IHb]; [exists []; split_and!; [apply sublist_nil_l|done|done]|].
  rewrite lcs_cons. destruct (Z.eqb_spec x y) as [->|Hxy].
  - destruct (IHa b) as (s & Ha & Hb & Hl). exists (y :: s). split_and!; [by constructor..|cbn; lia].
  - destruct (Nat.max_spec (lcs a (y :: b)) (lcs (x :: a) b)) as [[_ ->]|[_ ->]].
    + destruct IHb as (s & Ha & Hb & Hl). exists s. split_and!; [done|by constructor|done].
    + destruct (IHa (y :: b)) as (s & Ha & Hb & Hl). exists s. split_and!; [by constructor|done|done].
Qed.

Lemma lcs_longest a b s : s `sublist_of` a -> s `sublist_of` b -> (length s <= lcs a b)%nat.
Proof.
  revert b s. induction a as [|x a IHa].
  { intros b s Hs _. apply sublist_nil_r in Hs as ->. cbn. lia. }
  induction b as [|y b IHb]; intros s Ha Hb; [apply sublist_nil_r in Hb as ->; cbn; lia|].
  apply sublist_cons_r in Ha, Hb. rewrite lcs_cons. destruct (Z.eqb_spec x y) as [->|Hxy].
  - destruct s as [|z s]; [cbn; lia|]. cbn [length]. apply le_n_S, IHa.
    + destruct Ha as [Ha|(s' & [= _ <-] & Ha)]; [by eapply sublist_cons_l in Ha as (k1 & k2 & -> & Ha);
        apply sublist_inserts_l, sublist_cons|done].
    + destruct Hb as [Hb|(s' & [= _ <-] & Hb)]; [by eapply sublist_cons_l in Hb as (k1 & k2 & -> & Hb);
        apply sublist_inserts_l, sublist_cons|done].
  - destruct Ha as [Ha|(s' & -> & Ha)].
    + apply sublist_cons_r in Hb. apply (IHa _ _ Ha) in Hb. lia.
    + destruct Hb as [Hb|(s'' & [= -> ->] & Hb)]; [|done].
      assert (Hle : (length (x :: s') <= lcs (x :: a) b)%nat) by (apply IHb; [by constructor|done]). lia.
Qed.

Lemma sublist_rev_of (s a : list Z) : s `sublist_of` a -> rev s `sublist_of` rev a.
Proof.
  induction 1 as [|x s a Hs IH|x s a Hs IH]; [done| |]; cbn [rev].
  - by apply sublist_app.
  - by apply sublist_inserts_r.
Qed.

(** The two-row table computes what its name says: there is a common
    subsequence of that length, and none is longer. *)
Theorem lcs_is_longest (a b : list Z) :
  (exists s, s `sublist_of` a /\ s `sublist_of` b /\ length s = longest_common_subsequence_len a b) /\
  forall s, s `sublist_of` a -> s `sublist_of` b -> (length s <= longest_common_subsequence_len a b)%nat.
Proof.
  rewrite longest_common_subsequence_len_lcs. split.
  - destruct (lcs_common (rev a) (rev b)) as (s & Ha & Hb & Hl). exists (rev s).
    apply sublist_rev_of in Ha, Hb. rewrite rev_involutive in Ha, Hb. by rewrite length_rev.
  - intros s Ha Hb. apply sublist_rev_of in Ha, Hb. rewrite <- length_rev. by apply lcs_longest.
Qed.
