(* ===== verification/Delete.v ===== *)
(** [ferrosync-engine/src/delete.rs]: deleting what the source does not have,
    within a budget, and pruning empty directories. *)
From S2P Require Import Prelude Wire Types Text Utf8 Filter Scanner Options Fs FileDecision.

(** ** The budget *)

Definition U64_MAX : Z := 2 ^ 64 - 1.
Definition DeleteBudget_new (max_delete : option Z) : Z := unwrap_or max_delete U64_MAX.

(** One turn of the loop of [try_consume] that read [current] and whose
    compare-exchange goes through. *)
Definition try_consume (remaining : Z) : bool * Z :=
  if remaining =? 0 then (false, remaining)
  else if remaining =? U64_MAX then (true, remaining)
  else (true, remaining - 1).

(** The same with several threads: each has loaded a value, or not, or has
    returned; the compare-exchange may fail for no reason. *)
Inductive consumer := Loading | Loaded (current : Z) | Returned (granted : bool).
Inductive budget_step : Z * list consumer -> Z * list consumer -> Prop :=
  | step_load remaining ts i :
      ts !! i = Some Loading ->
      budget_step (remaining, ts) (remaining, <[i := Loaded remaining]> ts)
  | step_exhausted remaining ts i :
      ts !! i = Some (Loaded 0) ->
      budget_step (remaining, ts) (remaining, <[i := Returned false]> ts)
  | step_unlimited remaining ts i :
      ts !! i = Some (Loaded U64_MAX) ->
      budget_step (remaining, ts) (remaining, <[i := Returned true]> ts)
  | step_exchange remaining ts i :
      ts !! i = Some (Loaded remaining) -> remaining <> 0 -> remaining <> U64_MAX ->
      budget_step (remaining, ts) (remaining - 1, <[i := Returned true]> ts)
  | step_retry remaining ts i current :
      ts !! i = Some (Loaded current) -> current <> 0 -> current <> U64_MAX ->
      budget_step (remaining, ts) (remaining, <[i := Loading]> ts).

(** ** The deleter *)

Record Deleter := mkDeleter {
  dl_filters : FilterRuleList;
  dl_dry_run : bool;
  dl_delete_excluded : bool;
}.

Section deleter.
  Context {S : Type} (F : FsOps S) (d : Deleter).

Definition entry_is_dir (e : DirEntry) : bool := Z.land (md_mode (de_metadata e)) S_IFMT =? S_IFDIR.

(** The removal itself; its outcome is dropped. *)
Definition remove_entry (dest : list Z) (s : S) (e : DirEntry) : S :=
  if dl_dry_run d then s
  else
    let path := path_join dest (de_name e) in
    if entry_is_dir e then warn (remove_dir F path) s else warn (remove_file F path) s.

(** The loop over the directory: deleted so far, budget, file system. *)
Fixpoint delete_entries (dest : list Z) (in_source : list Z -> bool) (entries : list DirEntry)
    (deleted remaining : Z) (s : S) : Z * (Z * S) :=
  match entries with
  | [] => (deleted, (remaining, s))
  | e :: entries' =>
      if in_source (de_name e) then delete_entries dest in_source entries' deleted remaining s
      else if negb (dl_delete_excluded d) && negb (is_included (dl_filters d) (de_name e) (entry_is_dir e))
      then delete_entries dest in_source entries' deleted remaining s
      else
        let '(granted, remaining) := try_consume remaining in
        if negb granted then (deleted, (remaining, s))
        else delete_entries dest in_source entries' (as_u64 (deleted + 1)) remaining (remove_entry dest s e)
  end.

Definition delete_extraneous (dest : list Z) (source_entries : list FileEntry) (remaining : Z) (s : S)
    : Z * (Z * S) :=
  let source_names := map name source_entries in
  match read_dir (view F s) dest with
  | inr dest_entries =>
      delete_entries dest (fun n => bool_decide (n ∈ source_names)) dest_entries 0 remaining s
  | inl _ => (0, (remaining, s))
  end.

(** The name under [dir_name] of an entry that is a direct child of it. *)
Definition child_of (dir_name : list Z) (e : FileEntry) : option (list Z) :=
  let name := name e in
  if bool_decide (dir_name = [46]) then
    if negb (bool_decide (47 ∈ name)) && negb (bool_decide (name = [46])) then Some name else None
  else
    match strip_prefix dir_name name with
    | Some (c :: rest) => if (c =? 47) && negb (bool_decide (47 ∈ rest)) then Some rest else None
    | _ => None
    end.

Definition delete_extraneous_in_dir (dest_dir : list Z) (source_entries : list FileEntry) (dir_name : list Z)
    (remaining : Z) (s : S) : Z * (Z * S) :=
  match read_dir (view F s) dest_dir with
  | inl _ => (0, (remaining, s))
  | inr dest_entries =>
      let source_children := omap (child_of dir_name) source_entries in
      delete_entries dest_dir (fun n => bool_decide (n ∈ source_children)) dest_entries 0 remaining s
  end.

End deleter.

(** ** Pruning *)

Section prune.
  Context {S : Type} (F : FsOps S).

(** [None]: deeper than the fuel.  Errors of [read_dir] end a directory's turn. *)
Fixpoint prune_empty_dirs_recursive (fuel : nat) (root dir : list Z) (dry_run : bool) (s : S) : option (Z * S) :=
  match fuel with
  | O => None
  | Datatypes.S f =>
      match read_dir (view F s) dir with
      | inl _ => Some (0, s)
      | inr entries =>
          q ← foldl (fun (acc : option (Z * S)) e =>
                q ← acc;
                if entry_is_dir e then
                  p ← prune_empty_dirs_recursive f root (path_join dir (de_name e)) dry_run q.2;
                  Some (as_u64 (q.1 + p.1), p.2)
                else Some q) (Some (0, s)) entries;
          if path_eq dir root then Some q
          else match read_dir (view F q.2) dir with
               | inl _ => Some q
               | inr remaining =>
                   if bool_decide (map de_name remaining = []) then
                     Some (as_u64 (q.1 + 1), if dry_run then q.2 else warn (remove_dir F dir) q.2)
                   else Some q
               end
      end
  end.
Definition prune_empty_dirs (fuel : nat) (dest : list Z) (dry_run : bool) (s : S) : option (Z * S) :=
  prune_empty_dirs_recursive fuel dest dest dry_run s.

End prune.

(** ** The deleter's loop, all at once *)

Section spec.
  Context {S : Type} (F : FsOps S) (d : Deleter).

(** What is to go: not in the source, and not protected by a filter. *)
Definition extraneous (in_source : list Z -> bool) (e : DirEntry) : bool :=
  negb (in_source (de_name e)) &&
  (dl_delete_excluded d || is_included (dl_filters d) (de_name e) (entry_is_dir e)).

(** How many of [n] deletions the budget allows, and what is left of it. *)
Definition allowed (remaining : Z) (n : nat) : nat :=
  if remaining =? U64_MAX then n else Nat.min n (Z.to_nat remaining).
Definition budget_after (remaining : Z) (n : nat) : Z :=
  if remaining =? U64_MAX then remaining else remaining - Z.of_nat n.

Lemma delete_entries_cons dest in_source e entries deleted remaining s :
  delete_entries F d dest in_source (e :: entries) deleted remaining s =
  if extraneous in_source e then
    let '(granted, remaining) := try_consume remaining in
    if negb granted then (deleted, (remaining, s))
    else delete_entries F d dest in_source entries (as_u64 (deleted + 1)) remaining (remove_entry F d dest s e)
  else delete_entries F d dest in_source entries deleted remaining s.
Proof.
  cbn [delete_entries]. unfold extraneous. destruct (in_source (de_name e)); cbn [negb andb]; [done|].
  rewrite <- negb_orb. by destruct (dl_delete_excluded d || _).
Qed.

(** C16. One pass over a directory removes, in the order it lists them, exactly
    the entries that the source does not have and no filter protects, as many
    of them as the budget still allows, counts them, and takes them off the
    budget; a dry run only counts. *)
Theorem deletes_extraneous (dest : list Z) (in_source : list Z -> bool) (entries : list DirEntry)
    (deleted remaining : Z) (s : S) :
  in_u64 remaining -> 0 <= deleted -> deleted + Z.of_nat (length entries) < 2 ^ 64 ->
  let gone := List.filter (extraneous in_source) entries in
  let victims := take (allowed remaining (length gone)) gone in
  delete_entries F d dest in_source entries deleted remaining s =
    (deleted + Z.of_nat (length victims),
     (budget_after remaining (length victims), foldl (remove_entry F d dest) s victims)).
Proof.
  cbv zeta. revert deleted remaining s. induction entries as [|e entries IH]; intros deleted remaining s Hr Hd Hl.
  { cbn [delete_entries List.filter length]. rewrite take_nil. cbn [length foldl]. unfold budget_after.
    rewrite Z.add_0_r, Z.sub_0_r. by destruct (remaining =? U64_MAX). }
  rewrite delete_entries_cons. cbn [List.filter length] in *.
  destruct (extraneous in_source e); [|apply IH; lia]. cbn [length].
  unfold try_consume. destruct (Z.eqb_spec remaining 0) as [->|Hnz]; cbn [negb].
  { unfold allowed, budget_after. cbn [Z.eqb U64_MAX Z.to_nat]. rewrite Nat.min_0_r, take_0. cbn [length foldl].
    by rewrite Z.add_0_r. }
  assert (Hu : U64_MAX = 2 ^ 64 - 1) by reflexivity.
  destruct (Z.eqb_spec remaining U64_MAX) as [->|Hmax]; cbn [negb];
    rewrite (wrap_id 64), IH by lia; unfold allowed, budget_after.
  - rewrite Z.eqb_refl. cbn [take length foldl]. f_equal. lia.
  - rewrite !(proj2 (Z.eqb_neq _ _)) by lia.
    replace (Z.to_nat remaining) with (Datatypes.S (Z.to_nat (remaining - 1))) by lia.
    cbn [Nat.min take length foldl]. f_equal; [lia|f_equal; lia].
Qed.

End spec.

(** ** The budget under concurrency *)

Definition granted (ts : list consumer) : nat :=
  length (List.filter (fun t => match t with Returned true => true | _ => false end) ts).

(** What has been granted and what is left is what there was. *)
Definition budget_inv (max : Z) (st : Z * list consumer) : Prop :=
  st.1 + Z.of_nat (granted st.2) = max /\ 0 <= st.1 /\
  Forall (fun t => match t with Loaded c => c <> U64_MAX | _ => True end) st.2.

Lemma granted_insert ts i t t' : ts !! i = Some t ->
  Z.of_nat (granted (<[i := t']> ts)) = Z.of_nat (granted ts)
    - (match t with Returned true => 1 | _ => 0 end) + (match t' with Returned true => 1 | _ => 0 end).
Proof.
  unfold granted. revert i. induction ts as [|u ts IH]; intros i Hi; [done|]. destruct i as [|i]; cbn in Hi.
  - injection Hi as ->. cbn [insert list_insert List.filter].
    destruct t as [| |[]], t' as [| |[]]; cbn [length]; lia.
  - change (<[Datatypes.S i:=t']> (u :: ts)) with (u :: <[i:=t']> ts). cbn [List.filter]. specialize (IH i Hi).
    destruct u as [| |[]]; cbn [length]; lia.
Qed.

Lemma budget_step_inv max st st' : max < U64_MAX -> budget_inv max st -> budget_step st st' -> budget_inv max st'.
Proof.
  intros Hm (Hs & Hr & Hf) Hstep. unfold budget_inv.
  destruct Hstep as [remaining ts i Hi|remaining ts i Hi|remaining ts i Hi|remaining ts i Hi Hz Hu|remaining ts i c Hi Hz Hu];
    cbn [fst snd] in *; rewrite (granted_insert _ _ _ _ Hi).
  - split_and!; [lia|done|]. apply Forall_insert; [done|]. cbv beta iota. lia.
  - split_and!; [lia|done|]. by apply Forall_insert.
  - rewrite Forall_lookup in Hf. by apply Hf in Hi.
  - split_and!; [lia|lia|]. by apply Forall_insert.
  - split_and!; [lia|done|]. by apply Forall_insert.
Qed.

(** C17. The budget holds under any interleaving: however the loads and the
    compare-exchanges of any number of threads are ordered, spurious failures
    included, the deletions granted and the budget left add up to the budget
    given, so no more than [max_delete] deletions are granted. *)
Theorem budget_interleaved (max : Z) (n : nat) (remaining : Z) (ts : list consumer) :
  0 <= max < U64_MAX ->
  rtc budget_step (DeleteBudget_new (Some max), replicate n Loading) (remaining, ts) ->
  remaining + Z.of_nat (granted ts) = max /\ Z.of_nat (granted ts) <= max.
Proof.
  intros Hm Hsteps. cut (budget_inv max (remaining, ts)); [intros (Hs & Hr & _); cbn [fst snd] in *; lia|].
  assert (H0 : budget_inv max (DeleteBudget_new (Some max), replicate n Loading)).
  { unfold budget_inv, granted, DeleteBudget_new, unwrap_or. cbn [fst snd]. split_and!; [|lia|].
    - clear. induction n as [|n IH]; cbn; [lia|exact IH].
    - by apply Forall_replicate. }
  revert H0. induction Hsteps as [|x y z Hxy Hyz IH]; [done|]. intros H0. apply IH.
  eapply budget_step_inv; [lia|exact H0|exact Hxy].
Qed.

Lemma budget_interleaved_witness :
  exists remaining ts, rtc budget_step (DeleteBudget_new (Some 1), replicate 2 Loading) (remaining, ts) /\
  ts = [Returned true; Loading] /\ remaining + Z.of_nat (granted ts) = 1 /\ Z.of_nat (granted ts) <= 1.
Proof.
  assert (H : rtc budget_step (DeleteBudget_new (Some 1), replicate 2 Loading) (0, [Returned true; Loading])).
  { eapply rtc_l; [apply (step_load 1 [Loading; Loading] 0%nat); reflexivity|].
    eapply rtc_l; [apply (step_load 1 [Loaded 1; Loading] 1%nat); reflexivity|].
    eapply rtc_l; [apply (step_exchange 1 [Loaded 1; Loaded 1] 0%nat); [reflexivity|lia|done]|].
    eapply rtc_l; [apply (step_retry 0 [Returned true; Loaded 1] 1%nat 1); [reflexivity|lia|done]|].
    apply rtc_refl. }
  exists 0, [Returned true; Loading]. split; [exact H|]. split; [reflexivity|].
  apply (budget_interleaved 1 2%nat 0 [Returned true; Loading]); [split; [lia|reflexivity]|exact H].
Defined.

(** ** At concrete inputs *)

Definition sample_entry (n : string) (m : Z) : DirEntry := mkDirEntry (str_bytes n) (mkFileMetadata 0 0 0 m 0 0 0 0 0 0).
Definition sample_deleter : Deleter :=
  mkDeleter (match from_options (fun _ => None) [str_bytes "/sub/keep"; str_bytes "*.o"] [] [] [] [] with
             | inr l => l | inl _ => FilterRuleList_new end) false false.
Definition sample_dir : list DirEntry :=
  [sample_entry "a" 0x81A4; sample_entry "b.o" 0x81A4; sample_entry "c" 0x81A4; sample_entry "d" 0x41ED;
   sample_entry "e" 0x81A4].

Lemma deletes_extraneous_witness :
  delete_entries recorder sample_deleter (str_bytes "/t") (fun n => bool_decide (n = str_bytes "a")) sample_dir 0 2 [] =
    (2, (0, [str_bytes "/t/c"; str_bytes "/t/d"])).
Proof.
  rewrite (deletes_extraneous recorder sample_deleter (str_bytes "/t") (fun n => bool_decide (n = str_bytes "a"))
    sample_dir 0 2 []); [reflexivity|split; [discriminate|reflexivity]|discriminate|reflexivity].
Defined.

(** The filters see the bare name of what is to be deleted, not its path: a
    file that a path pattern excludes from the transfer is not protected. *)
Lemma delete_ignores_directory :
  is_included (dl_filters sample_deleter) (str_bytes "sub/keep") false = false /\
  delete_entries recorder sample_deleter (str_bytes "/t/sub") (fun _ => false) [sample_entry "keep" 0x81A4] 0 U64_MAX []
    = (1, (U64_MAX, [str_bytes "/t/sub/keep"])).
Proof. split; reflexivity. Qed.
