(* ===== verification/ReceiverEngine.v ===== *)
(** [ferrosync-engine/src/receiver_engine.rs]: what happens to one file-list
    entry on the destination side. *)
From S2P Require Import Prelude Wire Types Text Utf8 Acl Filter Scanner Options Fs Chmod Progress FileDecision.

Inductive HandledKind := HDirectory | HSymlink | HLinkDest | HCopyDest | HDryRun.

Inductive EntryAction :=
  | Handled (kind : HandledKind)
  | Skipped
  | DeferredHardlink (source_name : list Z)
  | NeedsTransfer (basis : list Z).

(** [ReceiverEngine] and [ReceiverRef]: the same fields behind an [Arc] and
    behind references; the file system is the section's. *)
Record Receiver := mkReceiver {
  rx_dest : list Z;
  rx_options : TransferConfig;
  rx_chmod_spec : option ChmodSpec;
  rx_resolved_link_dests : list (list Z);
  rx_resolved_backup_dir : option (list Z);
}.

(** [specs.join(",")] *)
Fixpoint join_comma (specs : list (list Z)) : list Z :=
  match specs with [] => [] | [s] => s | s :: specs' => s ++ 44 :: join_comma specs' end.

Definition Receiver_new (dest : list Z) (options : TransferConfig) : Receiver :=
  mkReceiver dest options
    (if bool_decide (Get.chmod options = []) then None
     else match Chmod.parse (join_comma (Get.chmod options)) with inr s => Some s | inl _ => None end)
    (resolve_link_dest_dirs (Get.link_dest options) dest)
    (option_map (fun bd => if is_absolute bd then bd else path_join dest bd) (Get.backup_dir options)).

Section receiver.
  Context {S : Type} (F : FsOps S).

(** ** Shared helpers *)

Definition should_skip_impl (s : S) (entry : FileEntry) (dest : list Z) (options : TransferConfig) : bool :=
  let dest_path := path_join dest (name entry) in
  if check_existence_skip F s dest_path options then true
  else if check_size_limits entry options then true
  else if negb (bool_decide (Get.compare_dest options = [])) &&
          is_some (check_alt_dest F s entry (Get.compare_dest options) options) then true
  else if negb (Get.checksum_mode options) then quick_check_skip F s entry dest_path options
  else false.

(** [--keep-dirlinks]: the directory is there already, as a link to one. *)
Definition dir_exists_as_symlink (s : S) (dest_path : list Z) (options : TransferConfig) : bool :=
  let type_is (m : FsError + FileMetadata) (t : Z) :=
    match m with inr m => Z.land (md_mode m) S_IFMT =? t | inl _ => false end in
  Get.keep_dirlinks options && negb (Get.dry_run options) &&
  type_is (lstat (view F s) dest_path) S_IFLNK && type_is (stat (view F s) dest_path) S_IFDIR.

Definition dir_mode (entry : FileEntry) (options : TransferConfig) (chmod_spec : option ChmodSpec) : Z :=
  let mode := if Get.preserve_perms options then Z.land (mode entry) 0xFFF else 0x1ED in
  match chmod_spec with Some spec => Chmod.apply spec mode true | None => mode end.

Definition create_directory_impl (dest_path : list Z) (entry : FileEntry) (options : TransferConfig)
    (chmod_spec : option ChmodSpec) : method FsError S := fun s =>
  if negb (dir_exists_as_symlink s dest_path options) && negb (Get.dry_run options) then
    then_ (mkdir F dest_path (dir_mode entry options chmod_spec))
      (fun s => (inr tt, set_acls F dest_path entry options s)) s
  else (inr tt, s).

(** The method of that name, which leaves the ACLs alone. *)
Definition create_directory (rx : Receiver) (entry : FileEntry) : method FsError S := fun s =>
  let dest_path := path_join (rx_dest rx) (name entry) in
  if negb (dir_exists_as_symlink s dest_path (rx_options rx)) && negb (Get.dry_run (rx_options rx)) then
    mkdir F dest_path (dir_mode entry (rx_options rx) (rx_chmod_spec rx)) s
  else (inr tt, s).

Definition create_symlink_impl (dest : list Z) (entry : FileEntry) (options : TransferConfig) : act failure S bool :=
  if Get.safe_links options && is_unsafe_symlink (link_target entry) then mret false
  else if negb (Get.dry_run options) && negb (bool_decide (link_target entry = [])) then
    _ ← try_fs (Fs.create_symlink F (link_target entry) (path_join dest (name entry))); mret true
  else mret true.

Definition try_link_dest_impl (entry : FileEntry) (dest : list Z) (resolved_link_dests : list (list Z))
    (options : TransferConfig) (s : S) : bool * S :=
  if bool_decide (resolved_link_dests = []) || Get.dry_run options then (false, s)
  else match check_alt_dest F s entry resolved_link_dests options with
       | Some alt_path =>
           let dest_path := path_join dest (name entry) in
           let s := warn (remove_file F dest_path) s in
           let '(r, s) := hard_link F alt_path dest_path s in
           (is_ok r, s)
       | None => (false, s)
       end.

Definition try_copy_dest_impl (entry : FileEntry) (dest : list Z) (options : TransferConfig) (s : S) : bool * S :=
  if bool_decide (Get.copy_dest options = []) || Get.dry_run options then (false, s)
  else match check_alt_dest F s entry (Get.copy_dest options) options with
       | Some alt_path => let '(r, s) := copy_file F alt_path (path_join dest (name entry)) s in (is_ok r, s)
       | None => (false, s)
       end.

Definition dispatch_entry_impl (dest : list Z) (entry : FileEntry) (options : TransferConfig)
    (chmod_spec : option ChmodSpec) (resolved_link_dests : list (list Z)) : act failure S EntryAction := fun s =>
  let dest_path := path_join dest (name entry) in
  if FileEntry.is_dir entry then
    (_ ← try_fs (create_directory_impl dest_path entry options chmod_spec); mret (Handled HDirectory)) s
  else if FileEntry.is_symlink entry && Get.preserve_links options then
    (created ← create_symlink_impl dest entry options;
     mret (if created : bool then Handled HSymlink else Skipped)) s
  else if negb (FileEntry.is_file entry) then (inr Skipped, s)
  else match hlink_source entry with
  | Some source_name => (inr (DeferredHardlink source_name), s)
  | None =>
      if should_skip_impl s entry dest options then (inr Skipped, s)
      else
        let '(linked, s) := try_link_dest_impl entry dest resolved_link_dests options s in
        if linked : bool then (inr (Handled HLinkDest), s)
        else
          let '(copied, s) := try_copy_dest_impl entry dest options s in
          if copied : bool then (inr (Handled HCopyDest), s)
          else if Get.dry_run options then (inr (Handled HDryRun), s)
          else (inr (NeedsTransfer (match map_file F s dest_path with inr d => d | inl _ => [] end)), s)
  end.

(** One deferred link: counted or not. *)
Definition deferred_hardlink (dest : list Z) (options : TransferConfig) (all_entries : list FileEntry)
    (count : Z * S) (d : FileEntry * list Z) : Z * S :=
  let '(dup_entry, source_name) := d in
  match List.find (fun e => bool_decide (name e = source_name)) all_entries with
  | Some source =>
      let source_path := path_join dest (name source) in
      let link_path := path_join dest (name dup_entry) in
      if negb (Get.dry_run options) then
        let s := warn (remove_file F link_path) count.2 in
        let '(r, s) := hard_link F source_path link_path s in
        if is_ok r then (as_u64 (count.1 + 1), s) else (count.1, s)
      else (as_u64 (count.1 + 1), count.2)
  | None => count
  end.
Definition create_deferred_hardlinks_impl (dest : list Z) (options : TransferConfig)
    (deferred : list (FileEntry * list Z)) (all_entries : list FileEntry) (s : S) : Z * S :=
  foldl (deferred_hardlink dest options all_entries) (0, s) deferred.

(** The first file of the right size and time, of those that can be read. *)
Fixpoint fuzzy_exact (s : S) (parent : list Z) (entry : FileEntry) (dir_entries : list DirEntry) : option (list Z) :=
  match dir_entries with
  | [] => None
  | e :: dir_entries' =>
      if (md_len (de_metadata e) =? len entry) && (md_mtime (de_metadata e) =? mtime entry) then
        match map_file F s (path_join parent (de_name e)) with
        | inr data => Some data
        | inl _ => fuzzy_exact s parent entry dir_entries'
        end
      else fuzzy_exact s parent entry dir_entries'
  end.
Definition fuzzy_best (target parent : list Z) (best : (Z * Z) * option (list Z)) (e : DirEntry)
    : (Z * Z) * option (list Z) :=
  let score := fuzzy_score target (de_name e) in
  if score_gt score best.1 then (score, Some (path_join parent (de_name e))) else best.
Definition find_fuzzy_basis_impl (s : S) (entry : FileEntry) (dest : list Z) (options : TransferConfig)
    : option (list Z) :=
  if negb (Get.fuzzy options) then None
  else
    let dest_path := path_join dest (name entry) in
    parent ← parent dest_path;
    target_name ← file_name dest_path;
    dir_entries ← match read_dir (view F s) parent with inr l => Some l | inl _ => None end;
    match fuzzy_exact s parent entry dir_entries with
    | Some data => Some data
    | None =>
        p ← (foldl (fuzzy_best target_name parent) ((1, 2), None) dir_entries).2;
        match map_file F s p with inr data => Some data | inl _ => None end
    end.

(** ** Methods of the receiver *)

Section methods.
  Context (rx : Receiver).
Let options := rx_options rx.

Definition dest_path (entry : FileEntry) : list Z := path_join (rx_dest rx) (name entry).
Definition should_skip_file (s : S) (entry : FileEntry) : bool := should_skip_impl s entry (rx_dest rx) options.
Definition try_link_dest (entry : FileEntry) : S -> bool * S :=
  try_link_dest_impl entry (rx_dest rx) (rx_resolved_link_dests rx) options.
Definition try_copy_dest (entry : FileEntry) : S -> bool * S := try_copy_dest_impl entry (rx_dest rx) options.
Definition dispatch_entry (entry : FileEntry) : act failure S EntryAction :=
  dispatch_entry_impl (rx_dest rx) entry options (rx_chmod_spec rx) (rx_resolved_link_dests rx).
Definition create_deferred_hardlinks (deferred : list (FileEntry * list Z)) (all_entries : list FileEntry)
    : S -> Z * S := create_deferred_hardlinks_impl (rx_dest rx) options deferred all_entries.
Definition find_fuzzy_basis (s : S) (entry : FileEntry) : option (list Z) :=
  find_fuzzy_basis_impl s entry (rx_dest rx) options.
Definition create_symlink (entry : FileEntry) : act failure S bool := create_symlink_impl (rx_dest rx) entry options.

Definition backup_first (path : list Z) : method FsError S := fun s =>
  if Get.backup options && lexists F s path
  then create_backup F path (Get.suffix options) (rx_resolved_backup_dir rx) s
  else (inr tt, s).

Definition ensure_parent (entry : FileEntry) : method FsError S := fun s =>
  match parent (dest_path entry) with
  | Some p => if negb (lexists F s p) then mkdir F p 0x1ED s else (inr tt, s)
  | None => (inr tt, s)
  end.

(** Where the data goes first, and then the rename that moves it. *)
Definition partial_path (partial_dir path fallback : list Z) : list Z :=
  path_join partial_dir (match file_name path with Some n => n | None => fallback end).
Definition move_partial (write_path dest_path : list Z) : method FsError S := fun s =>
  if is_some (Get.partial_dir options) && negb (path_eq write_path dest_path)
  then rename F write_path dest_path s else (inr tt, s).
Definition remove_source (source_path : option (list Z)) (s : S) : S :=
  match source_path with
  | Some src => if Get.remove_source_files options && negb (Get.dry_run options) then warn (remove_file F src) s else s
  | None => s
  end.

Definition receive_file (entry : FileEntry) (data : list Z) (source_path : option (list Z)) : method FsError S :=
  let dest_path := dest_path entry in
  then_ (backup_first dest_path)
  (then_ (match Get.partial_dir options with Some d => mkdir F d 0x1ED | None => skip end)
  (let write_path := match Get.partial_dir options with Some d => partial_path d dest_path [] | None => dest_path end in
   then_ (write_file_with_options F write_path data entry options (rx_chmod_spec rx))
  (then_ (move_partial write_path dest_path)
  (fun s => (inr tt, remove_source source_path (set_file_metadata F dest_path entry options s)))))).

Definition apply_transfer : FileEntry -> list Z -> option (list Z) -> method FsError S := receive_file.

(** [OpenOptions::new().append(true).create(true).open], of the standard
    library, around which the writer is built. *)
Definition create_writer (open_append : list Z -> act FsError S (Writer F)) (entry : FileEntry)
    : act FsError S (Writer F) := fun s =>
  let path := dest_path entry in
  if Get.append options || Get.append_verify options then
    match ensure_parent entry s with
    | (inr _, s) => open_append path s
    | (inl e, s) => (inl e, s)
    end
  else
    match backup_first path s with
    | (inl e, s) => (inl e, s)
    | (inr _, s) =>
        let start (write_path : list Z) : act FsError S (Writer F) :=
          let mode := if Get.preserve_perms options then
                        let m := Z.land (mode entry) 0xFFF in
                        Some (match rx_chmod_spec rx with Some spec => Chmod.apply spec m false | None => m end)
                      else None in
          if Get.inplace options then write_file_inplace_stream F write_path mode
          else write_file_stream F write_path mode in
        if Get.inplace options then start path s
        else match Get.partial_dir options with
             | Some d =>
                 match mkdir F d 0x1ED s with
                 | (inr _, s) => start (partial_path d (name entry) (str_bytes "partial")) s
                 | (inl e, s) => (inl e, s)
                 end
             | None => start path s
             end
    end.

Definition finish_file (entry : FileEntry) (source_path : option (list Z)) : method FsError S :=
  let path := dest_path entry in
  then_ (match Get.partial_dir options with
         | Some d => move_partial (partial_path d path (str_bytes "partial")) path
         | None => skip
         end)
  (fun s => (inr tt, remove_source source_path (set_file_metadata F path entry options s))).

Definition needs_buffered_receive : bool := Get.sparse options.

End methods.

End receiver.
