(* ===== verification/LocalTransfer.v ===== *)
(** [ferrosync-engine/src/transfer.rs]: a transfer inside one machine. *)
From S2P Require Import Prelude Wire Types Text Utf8 Acl Sort Filter Scanner Options Fs Chmod Progress Listing FileDecision Delete ReceiverEngine Checksum.

(** The state of a transfer: the file system, the statistics, the progress
    tracker, the deletion budget, the deferred hard links, the lines printed. *)
Record Transfer (S : Type) := mkTransfer {
  tx_fs : S;
  tx_stats : TransferStats;
  tx_progress : ProgressTracker;
  tx_budget : Z;
  tx_deferred : list (FileEntry * list Z);
  tx_printed : list (list Z);
}.
Arguments mkTransfer {S} _ _ _ _ _ _.
Arguments tx_fs {S} _.
Arguments tx_stats {S} _.
Arguments tx_progress {S} _.
Arguments tx_budget {S} _.
Arguments tx_deferred {S} _.
Arguments tx_printed {S} _.

Section setters.
  Context {S : Type}.
Definition with_fs (s : S) (x : Transfer S) : Transfer S :=
  mkTransfer s (tx_stats x) (tx_progress x) (tx_budget x) (tx_deferred x) (tx_printed x).
Definition with_stats (f : TransferStats -> TransferStats) (x : Transfer S) : Transfer S :=
  mkTransfer (tx_fs x) (f (tx_stats x)) (tx_progress x) (tx_budget x) (tx_deferred x) (tx_printed x).
Definition emitting (e : ProgressEvent) (x : Transfer S) : Transfer S :=
  mkTransfer (tx_fs x) (tx_stats x) (emit e (tx_progress x)) (tx_budget x) (tx_deferred x) (tx_printed x).
Definition with_budget (b : Z) (x : Transfer S) : Transfer S :=
  mkTransfer (tx_fs x) (tx_stats x) (tx_progress x) b (tx_deferred x) (tx_printed x).
Definition deferring (d : FileEntry * list Z) (x : Transfer S) : Transfer S :=
  mkTransfer (tx_fs x) (tx_stats x) (tx_progress x) (tx_budget x) (tx_deferred x ++ [d]) (tx_printed x).
Definition printing (line : list Z) (x : Transfer S) : Transfer S :=
  mkTransfer (tx_fs x) (tx_stats x) (tx_progress x) (tx_budget x) (tx_deferred x) (tx_printed x ++ [line]).
Definition totals (files bytes : Z) (x : Transfer S) : Transfer S :=
  mkTransfer (tx_fs x) (tx_stats x) (set_totals files bytes (tx_progress x)) (tx_budget x) (tx_deferred x) (tx_printed x).
End setters.

(** The counters, [u64]. *)
Definition count_transferred (n : Z) (t : TransferStats) : TransferStats :=
  mkTransferStats (as_u64 (files_transferred t + n)) (total_files t) (bytes_sent t) (bytes_received t) (total_size t)
    (matched_data t) (literal_data t) (files_skipped t) (files_deleted t) (symlinks t) (directories_created t).
Definition count_total (n : Z) (t : TransferStats) : TransferStats :=
  mkTransferStats (files_transferred t) n (bytes_sent t) (bytes_received t) (total_size t)
    (matched_data t) (literal_data t) (files_skipped t) (files_deleted t) (symlinks t) (directories_created t).
Definition count_size (n : Z) (t : TransferStats) : TransferStats :=
  mkTransferStats (files_transferred t) (total_files t) (bytes_sent t) (bytes_received t) (as_u64 (total_size t + n))
    (matched_data t) (literal_data t) (files_skipped t) (files_deleted t) (symlinks t) (directories_created t).
Definition count_literal (n : Z) (t : TransferStats) : TransferStats :=
  mkTransferStats (files_transferred t) (total_files t) (as_u64 (bytes_sent t + n)) (bytes_received t) (total_size t)
    (matched_data t) (as_u64 (literal_data t + n)) (files_skipped t) (files_deleted t) (symlinks t) (directories_created t).
Definition count_skipped (t : TransferStats) : TransferStats :=
  mkTransferStats (files_transferred t) (total_files t) (bytes_sent t) (bytes_received t) (total_size t)
    (matched_data t) (literal_data t) (as_u64 (files_skipped t + 1)) (files_deleted t) (symlinks t) (directories_created t).
Definition set_deleted (n : Z) (t : TransferStats) : TransferStats :=
  mkTransferStats (files_transferred t) (total_files t) (bytes_sent t) (bytes_received t) (total_size t)
    (matched_data t) (literal_data t) (files_skipped t) n (symlinks t) (directories_created t).
Definition count_deleted (n : Z) (t : TransferStats) : TransferStats := set_deleted (as_u64 (files_deleted t + n)) t.
Definition count_symlink (t : TransferStats) : TransferStats :=
  mkTransferStats (files_transferred t) (total_files t) (bytes_sent t) (bytes_received t) (total_size t)
    (matched_data t) (literal_data t) (files_skipped t) (files_deleted t) (as_u64 (symlinks t + 1)) (directories_created t).
Definition count_directory (t : TransferStats) : TransferStats :=
  mkTransferStats (files_transferred t) (total_files t) (bytes_sent t) (bytes_received t) (total_size t)
    (matched_data t) (literal_data t) (files_skipped t) (files_deleted t) (symlinks t) (as_u64 (directories_created t + 1)).

Section transfer.
  Context {S : Type} (F : FsOps S) (H : HashLib) (ctx : ProtocolContext).
  (** What the run of the pipeline for a file returns, plain and compressed. *)
  Context (transfer_file transfer_file_compressed : list Z -> list Z -> result (list Z)).

Definition step (A : Type) : Type := act failure (Transfer S) A.
Definition modify (f : Transfer S -> Transfer S) : step unit := fun x => (inr tt, f x).
Definition asking {A} (f : S -> A) : step A := fun x => (inr (f (tx_fs x)), x).
Definition asking_sum {A} (f : S -> failure + A) : step A := fun x => (f (tx_fs x), x).
Definition on_fs {A} (m : act failure S A) : step A := fun x =>
  let '(r, s) := m (tx_fs x) in (r, with_fs s x).
(** [deleter.delete_..(..)], which also spends the budget *)
Definition deleting (del : Z -> S -> Z * (Z * S)) : step Z := fun x =>
  let '(n, (b, s)) := del (tx_budget x) (tx_fs x) in (inr n, with_fs s (with_budget b x)).

Section run.
  Context (options : TransferConfig) (dest : list Z).
Let rx := Receiver_new dest options.

(** ** One entry *)

Definition skip_file (index : Z) (entry : FileEntry) : step unit :=
  _ ← modify (with_stats count_skipped); modify (emitting (FileSkipped index (name entry))).
Definition itemize (index : Z) (entry : FileEntry) : step unit :=
  if Get.itemize_changes options then
    changes ← asking (fun s => compute_itemized F s entry (dest_path rx entry) options);
    modify (emitting (FileItemized index (name entry) changes))
  else mret tt.

(** The file and its checksum equal the basis and its checksum ([--checksum]). *)
Definition same_checksum (s : S) (source_path : option (list Z)) (basis : list Z) : bool :=
  match source_path with
  | Some p => match map_file F s p with
              | inr src => bool_decide (file_checksum H src ctx = file_checksum H basis ctx)
              | inl _ => false
              end
  | None => false
  end.

Definition appended (index : Z) (entry : FileEntry) (literal_bytes matched_bytes : Z) : step unit :=
  _ ← modify (with_stats (fun t => count_literal literal_bytes (count_size (as_u64 (len entry)) (count_transferred 1 t))));
  modify (emitting (FileComplete index (name entry) literal_bytes matched_bytes)).

(** [--append]: true when that settles the file. *)
Definition append_tail (index : Z) (entry : FileEntry) (source_path basis : list Z) : step bool :=
  source ← on_fs (try_fs (fun s => (map_file F s source_path, s)));
  if (length source <=? length basis)%nat then _ ← skip_file index entry; mret true
  else
    let append_data := drop (length basis) source in
    let mode := if Get.preserve_perms options then Some (Z.land (mode entry) 0xFFF) else None in
    let path := dest_path rx entry in
    _ ← on_fs (try_fs (append_file F path append_data mode));
    let literal_bytes := Z.of_nat (length append_data) in
    let matched_bytes := Z.of_nat (length basis) in
    if Get.append_verify options then
      dest_data ← on_fs (try_fs (fun s => (map_file F s path, s)));
      if bool_decide (dest_data = source) then _ ← appended index entry literal_bytes matched_bytes; mret true
      else mret false
    else _ ← appended index entry literal_bytes matched_bytes; mret true.

Definition whole_or_delta (source basis : list Z) : step (list Z) :=
  if Get.whole_file options || bool_decide (basis = []) then mret source
  else if Get.compress options then of_result (transfer_file_compressed source basis)
  else of_result (transfer_file source basis).

Definition transfer_data (index : Z) (entry : FileEntry) (source_path basis : list Z) : step unit :=
  source ← on_fs (try_fs (fun s => (map_file F s source_path, s)));
  data ← whole_or_delta source basis;
  let literal_bytes := Z.of_nat (length data) in
  _ ← on_fs (try_fs (apply_transfer F rx entry data (Some source_path)));
  _ ← modify (with_stats (fun t => count_literal literal_bytes (count_size (as_u64 (len entry)) (count_transferred 1 t))));
  modify (emitting (FileComplete index (name entry) literal_bytes 0)).

Definition needs_transfer (index : Z) (entry : FileEntry) (source_path : option (list Z)) (basis : list Z) : step unit :=
  same ← asking (fun s => Get.checksum_mode options && same_checksum s source_path basis);
  if same : bool then skip_file index entry
  else
    _ ← itemize index entry;
    _ ← modify (emitting (FileStart index (name entry) (len entry)));
    match source_path with
    | None => of_sum (inl (EFs (NotFound (from_utf8_lossy (name entry)))))
    | Some source_path =>
        settled ← (if (Get.append options || Get.append_verify options) && negb (bool_decide (basis = []))
                   then append_tail index entry source_path basis else mret false);
        if settled : bool then mret tt else transfer_data index entry source_path basis
    end.

Definition handled (deleter : Deleter) (all_entries : list FileEntry) (index : Z) (entry : FileEntry) (kind : HandledKind)
    : step unit :=
  match kind with
  | HDirectory =>
      _ ← modify (with_stats count_directory);
      if bool_decide (Get.delete options = DelDuring) then
        deleted ← deleting (delete_extraneous_in_dir F deleter (dest_path rx entry) all_entries (name entry));
        modify (with_stats (count_deleted deleted))
      else mret tt
  | HSymlink =>
      _ ← modify (with_stats count_symlink); modify (emitting (FileComplete index (name entry) 0 0))
  | HLinkDest | HCopyDest =>
      _ ← modify (with_stats (count_transferred 1));
      modify (emitting (FileComplete index (name entry) 0 (as_u64 (len entry))))
  | HDryRun =>
      _ ← itemize index entry;
      _ ← modify (emitting (FileStart index (name entry) (len entry)));
      _ ← modify (with_stats (fun t => count_size (as_u64 (len entry)) (count_transferred 1 t)));
      modify (emitting (FileComplete index (name entry) (as_u64 (len entry)) 0))
  end.

Definition transfer_entry (deleter : Deleter) (all_entries : list FileEntry) (source_path_of : list Z -> option (list Z))
    (item : FileListItem) : step unit :=
  let entry := it_entry item in
  let index := it_index item in
  action ← on_fs (dispatch_entry F rx entry);
  match action with
  | Handled kind => handled deleter all_entries index entry kind
  | Skipped => skip_file index entry
  | DeferredHardlink source_name => modify (deferring (entry, source_name))
  | NeedsTransfer basis => needs_transfer index entry (source_path_of (name entry)) basis
  end.

Fixpoint each (f : FileListItem -> step unit) (items : list FileListItem) : step unit :=
  match items with
  | [] => mret tt
  | item :: items' => _ ← f item; each f items'
  end.

(** ** The whole transfer *)

(** The map from names to source paths: of equal names the last one counts. *)
Definition source_path_map (items : list FileListItem) (n : list Z) : option (list Z) :=
  option_map it_source_path (List.find (fun item => bool_decide (name (it_entry item) = n)) (rev items)).

Definition enrichers (fs : FileSystem) : list FileListEnricher :=
  (if negb (Get.copy_links options) then [SymlinkEnricher fs] else []) ++
  (if Get.preserve_hard_links options then [HardLinkGrouper] else []) ++
  (if Get.preserve_acls options then [AclEnricher fs] else []) ++
  (if Get.preserve_xattrs options then [XattrEnricher fs] else []).

Definition scan_options : ScanOptions :=
  mkScanOptions (Get.dir_mode options) (Get.one_file_system options) (Get.copy_links options) (Get.relative options)
    (Get.filter_merge_files options) (Get.preserve_hard_links options).

(** The filters that the options ask for. *)
Definition option_filters (fs : FileSystem) : failure + FilterRuleList :=
  filters ← lift_err EFilter (from_options (read_to_string fs) (Get.exclude options) (Get.include options)
    (Get.filter options) (Get.include_from options) (Get.exclude_from options));
  mret (if Get.cvs_exclude options then add_cvs_excludes filters else filters).

(** The file list, and the filters as the scan leaves them. *)
Definition build_list (fuel : nat) (fs : FileSystem) (filters : FilterRuleList)
    : failure + (list FileListItem * FilterRuleList) :=
  match Get.files_from options with
  | Some files_from =>
      items ← lift_err EFs (build_file_list_from_file fs (Get.source options) files_from filters); mret (items, filters)
  | None =>
      match scan fs scan_options (enrichers fs) fuel (Get.source options) filters with
      | Done q => mret q
      | Failed e => inl (EFs e)
      | Deep => inl EDeep
      end
  end.

Definition total_bytes (items : list FileListItem) : Z :=
  foldl (fun n item => as_i64 (n + len (it_entry item))) 0 items.

(** Everything after the file list is built and announced. *)
Definition transfer_items (fuel : nat) (items : list FileListItem) (filters : FilterRuleList) : step unit :=
  let deleter := mkDeleter filters (Get.dry_run options) (bool_decide (Get.delete options = DelExcluded)) in
  let all_entries := map it_entry items in
  _ ← (if bool_decide (Get.delete options = DelBefore) || bool_decide (Get.delete options = DelExcluded) then
         deleted ← deleting (delete_extraneous F deleter dest all_entries);
         modify (with_stats (set_deleted deleted))
       else mret tt);
  _ ← each (transfer_entry deleter all_entries (source_path_map items)) items;
  _ ← ((fun x =>
         let '(n, s) := create_deferred_hardlinks F rx (tx_deferred x) all_entries (tx_fs x) in
         (inr tt, with_stats (count_transferred n) (with_fs s x))) : step unit);
  _ ← (if bool_decide (Get.delete options = DelAfter) then
         deleted ← deleting (delete_extraneous F deleter dest all_entries);
         modify (with_stats (set_deleted deleted))
       else mret tt);
  if Get.prune_empty_dirs options then
    pruned ← ((fun x => match prune_empty_dirs F fuel dest (Get.dry_run options) (tx_fs x) with
                       | Some (n, s) => (inr n, with_fs s x)
                       | None => (inl EDeep, x)
                       end) : step Z);
    modify (with_stats (count_deleted pruned))
  else mret tt.

End run.

Definition execute_transfer_impl (fuel : nat) (options : TransferConfig) : step unit :=
  match Get.dest options with
  | None => of_sum (inl (EFs (NotFound (str_bytes "<no destination>"))))
  | Some dest =>
      filters ← asking_sum (fun s => option_filters options (view F s));
      q ← asking_sum (fun s => build_list options fuel (view F s) filters);
      let '(items, filters) := q in
      _ ← modify (with_stats (count_total (Z.of_nat (length items))));
      _ ← modify (totals (Z.of_nat (length items)) (as_u64 (total_bytes items)));
      if Get.list_only options then
        modify (fun x => foldl (fun x item => printing (format_list_entry (it_entry item)) x) x items)
      else
        _ ← modify (with_budget (DeleteBudget_new (Get.max_delete options)));
        transfer_items options dest fuel items filters
  end.

(** A transfer that starts: nothing counted, nothing deferred, nothing printed. *)
Definition fresh (s : S) (progress : ProgressTracker) : Transfer S :=
  mkTransfer s TransferStats_new progress 0 [] [].

(** ** Entries from a channel *)

Definition stream_entry (rx : Receiver) (filters : FilterRuleList) (index : Z) (entry : FileEntry) : step Z :=
  let options := rx_options rx in
  let next := as_i32 (index + 1) in
  if negb (is_included filters (name entry) (FileEntry.is_dir entry)) then mret index
  else
    _ ← modify (with_stats (fun t => count_total (as_u64 (total_files t + 1)) t));
    if FileEntry.is_dir entry then
      _ ← on_fs (try_fs (create_directory F rx entry));
      _ ← modify (with_stats count_directory);
      mret next
    else if FileEntry.is_symlink entry && Get.preserve_links options then
      created ← on_fs (create_symlink F rx entry);
      if negb created then _ ← modify (with_stats count_skipped); mret next
      else
        _ ← modify (with_stats count_symlink);
        _ ← modify (emitting (FileComplete index (name entry) 0 0));
        mret next
    else if negb (FileEntry.is_file entry) then mret next
    else
      skipped ← asking (fun s => should_skip_file F rx s entry);
      if skipped : bool then _ ← skip_file index entry; mret next
      else
        _ ← modify (emitting (FileStart index (name entry) (len entry)));
        _ ← (if Get.dry_run options then mret tt
             else modify (fun x => if lexists F (tx_fs x) (dest_path rx entry)
                                   then with_fs (set_file_metadata F (dest_path rx entry) entry options (tx_fs x)) x
                                   else x));
        _ ← modify (with_stats (fun t => count_size (as_u64 (len entry)) (count_transferred 1 t)));
        _ ← modify (emitting (FileComplete index (name entry) (as_u64 (len entry)) 0));
        mret next.
Fixpoint stream_entries (rx : Receiver) (filters : FilterRuleList) (index : Z) (entries : list FileEntry) : step unit :=
  match entries with
  | [] => mret tt
  | entry :: entries' => index ← stream_entry rx filters index entry; stream_entries rx filters index entries'
  end.
Definition execute_transfer_streaming_impl (options : TransferConfig) (entries : list FileEntry) : step unit :=
  match Get.dest options with
  | None => of_sum (inl (EFs (NotFound (str_bytes "<no destination>"))))
  | Some dest =>
      filters ← asking_sum (fun s => option_filters options (view F s));
      stream_entries (Receiver_new dest options) filters 0 entries
  end.

End transfer.

(** ** Steps that leave a part of the state alone *)

Section preserves.
  Context {S B : Type} (part : Transfer S -> B).

(** Whatever the outcome. *)
Definition preserves {A} (m : act failure (Transfer S) A) : Prop := forall x, part (m x).2 = part x.

Lemma preserves_ret {A} (a : A) : preserves (mret a).
Proof. done. Qed.
Lemma preserves_bind {A C} (m : act failure (Transfer S) A) (f : A -> act failure (Transfer S) C) :
  preserves m -> (forall a, preserves (f a)) -> preserves (m ≫= f).
Proof.
  intros Hm Hf x. unfold mbind, act_bind. specialize (Hm x). destruct (m x) as [[e|a] x']; cbn in *; [done|].
  by rewrite (Hf a x').
Qed.
Lemma preserves_modify f : (forall x : Transfer S, part (f x) = part x) -> preserves (modify f).
Proof. intros Hf x. apply Hf. Qed.
Lemma preserves_asking {A} (f : S -> A) : preserves (asking f).
Proof. done. Qed.
Lemma preserves_asking_sum {A} (f : S -> failure + A) : preserves (asking_sum f).
Proof. done. Qed.
Lemma preserves_of_sum {A} (r : failure + A) : preserves (of_sum r).
Proof. done. Qed.
Lemma preserves_of_result {A} (r : result A) : preserves (of_result r).
Proof. done. Qed.
Lemma preserves_each f items : (forall item, item ∈ items -> preserves (f item)) -> preserves (each f items).
Proof.
  intros Hf. induction items as [|item items IH]; [apply preserves_ret|]. apply preserves_bind; [apply Hf; left|].
  intros []. apply IH. intros i Hi. apply Hf. by right.
Qed.
End preserves.
Create HintDb preserves.
#[export] Hint Resolve preserves_ret preserves_asking preserves_asking_sum preserves_of_sum preserves_of_result : preserves.
Ltac preserves_step := first [apply preserves_bind; [|intros ?]|apply preserves_modify; done|by auto with preserves].

Lemma preserves_deferred_on_fs {S A} (m : act failure S A) : preserves tx_deferred (on_fs m).
Proof. intros x. unfold on_fs. by destruct (m (tx_fs x)). Qed.
Lemma preserves_deferred_deleting {S} del : preserves (tx_deferred (S := S)) (deleting del).
Proof. intros x. unfold deleting. by destruct (del (tx_budget x) (tx_fs x)) as [n [b s]]. Qed.
#[export] Hint Resolve preserves_deferred_on_fs preserves_deferred_deleting : preserves.
