(* ===== verification/Posix.v ===== *)
(** The functions of [std::fs] the file-system code calls, on a file system
    with inodes, names, symbolic and hard links, held in memory.

    A name is the list of the components of a canonical absolute path; the
    root is the empty one and always a directory.  A call that changes
    something can fail at any time for reasons of its own: the state carries a
    schedule of faults, one per call, and a write that fails may have written
    some of its bytes. *)
From S2P Require Import Prelude Wire Types Text Utf8 Filter Scanner Fs.

Inductive content :=
  | Reg (data : list Z)
  | Dir
  | Lnk (target : list Z)
  | Other (file_type : Z).

Record inode := mkInode {
  i_content : content;
  i_perm : Z;
  i_uid : Z;
  i_gid : Z;
  i_mtime : Z;
  i_mtime_nsec : Z;
  i_rdev : Z;
  i_xattrs : list (list Z * list Z);
}.

Inductive io_error := ENoent | EAccess | EOther.

Abbreviation loc := (list (list Z)).

Record os := mkOs {
  os_names : gmap loc positive;
  os_inodes : gmap positive inode;
  os_cwd : loc;
  os_umask : Z;
  os_user : Z * Z;
  os_now : Z * Z;
  os_pid : Z;
  os_counter : Z;
  os_faults : list (option (io_error * nat));
}.

Abbreviation sys := (act io_error os).

(** ** The state *)

Definition set_names (n : gmap loc positive) (o : os) : os :=
  mkOs n (os_inodes o) (os_cwd o) (os_umask o) (os_user o) (os_now o) (os_pid o) (os_counter o) (os_faults o).
Definition set_inodes (i : gmap positive inode) (o : os) : os :=
  mkOs (os_names o) i (os_cwd o) (os_umask o) (os_user o) (os_now o) (os_pid o) (os_counter o) (os_faults o).
Definition set_counter (c : Z) (o : os) : os :=
  mkOs (os_names o) (os_inodes o) (os_cwd o) (os_umask o) (os_user o) (os_now o) (os_pid o) c (os_faults o).
Definition set_faults (f : list (option (io_error * nat))) (o : os) : os :=
  mkOs (os_names o) (os_inodes o) (os_cwd o) (os_umask o) (os_user o) (os_now o) (os_pid o) (os_counter o) f.

Definition set_content (c : content) (i : inode) : inode :=
  mkInode c (i_perm i) (i_uid i) (i_gid i) (i_mtime i) (i_mtime_nsec i) (i_rdev i) (i_xattrs i).
Definition set_perm (p : Z) (i : inode) : inode :=
  mkInode (i_content i) p (i_uid i) (i_gid i) (i_mtime i) (i_mtime_nsec i) (i_rdev i) (i_xattrs i).
Definition set_ids (u g : Z) (i : inode) : inode :=
  mkInode (i_content i) (i_perm i) u g (i_mtime i) (i_mtime_nsec i) (i_rdev i) (i_xattrs i).
Definition set_times (t n : Z) (i : inode) : inode :=
  mkInode (i_content i) (i_perm i) (i_uid i) (i_gid i) t n (i_rdev i) (i_xattrs i).
Definition set_attrs (x : list (list Z * list Z)) (i : inode) : inode :=
  mkInode (i_content i) (i_perm i) (i_uid i) (i_gid i) (i_mtime i) (i_mtime_nsec i) (i_rdev i) x.

Definition inode_at (o : os) (l : loc) : option inode := os_names o !! l ≫= fun i => os_inodes o !! i.
Definition content_at (o : os) (l : loc) : option content :=
  match l with [] => Some Dir | _ => option_map i_content (inode_at o l) end.
Definition is_dir_at (o : os) (l : loc) : bool := match content_at o l with Some Dir => true | _ => false end.

Definition update_inode (n : positive) (f : inode -> inode) (o : os) : os :=
  set_inodes (alter f n (os_inodes o)) o.
Definition fresh_ino (o : os) : positive := fresh (dom (os_inodes o)).
(** A new inode under a name. *)
Definition add_node (l : loc) (c : content) (perm : Z) (o : os) : os :=
  let n := fresh_ino o in
  set_names (<[l := n]> (os_names o))
    (set_inodes (<[n := mkInode c perm (os_user o).1 (os_user o).2 (os_now o).1 (os_now o).2 0 []]> (os_inodes o)) o).

(** ** Path resolution *)

Definition MAX_LINKS : nat := 40.

(** Walks the components [todo] from the directory [cur]; the last symbolic
    link is followed or not.  The place need not exist; every directory on the
    way must.  What is left of the links is returned with it. *)
Fixpoint walk (o : os) (follow : bool) (links : nat) : loc -> list (list Z) -> io_error + (loc * nat) :=
  fix go (cur : loc) (todo : list (list Z)) : io_error + (loc * nat) :=
    match todo with
    | [] => inr (cur, links)
    | c :: rest =>
        if negb (is_dir_at o cur) then inl (match content_at o cur with Some _ => EOther | None => ENoent end)
        else if bool_decide (c = []) || bool_decide (c = [46]) then go cur rest
        else if bool_decide (c = [46; 46]) then go (removelast cur) rest
        else match content_at o (cur ++ [c]) with
             | Some (Lnk t) =>
                 if bool_decide (rest = []) && negb follow then inr (cur ++ [c], links)
                 else match links with
                      | O => inl EOther
                      | S links' => walk o follow links' (if is_absolute t then [] else cur) (split_slash [] t ++ rest)
                      end
             | _ => go (cur ++ [c]) rest
             end
    end.

Definition start (o : os) (path : list Z) : loc := if is_absolute path then [] else os_cwd o.
Definition resolve (o : os) (follow : bool) (path : list Z) : io_error + loc :=
  if bool_decide (path = []) then inl ENoent
  else q ← walk o follow MAX_LINKS (start o path) (split_slash [] path); mret q.1.

Definition node (o : os) (follow : bool) (path : list Z) : io_error + (loc * content) :=
  l ← resolve o follow path;
  match content_at o l with Some c => inr (l, c) | None => inl ENoent end.

(** ** Reading *)

Definition file_type (c : content) : Z :=
  match c with Reg _ => S_IFREG | Dir => S_IFDIR | Lnk _ => S_IFLNK | Other t => t end.
Definition file_size (c : content) : Z :=
  match c with Reg d => Z.of_nat (length d) | Dir => 4096 | Lnk t => Z.of_nat (length t) | Other _ => 0 end.

Definition children (o : os) (l : loc) : list (list Z) :=
  omap (fun n => match reverse n with
                 | c :: r => if bool_decide (reverse r = l) then Some c else None
                 | [] => None
                 end) (map fst (map_to_list (os_names o))).
Definition link_count (o : os) (l : loc) (c : content) : Z :=
  match c with
  | Dir => 2 + Z.of_nat (length (List.filter (fun n => is_dir_at o (l ++ [n])) (children o l)))
  | _ => Z.of_nat (length (List.filter (fun q => bool_decide (os_names o !! l = Some q.2)) (map_to_list (os_names o))))
  end.

(** [std::fs::Metadata], the root's made up. *)
Definition metadata_at (o : os) (l : loc) (c : content) : FileMetadata :=
  match os_names o !! l, inode_at o l with
  | Some n, Some i =>
      mkFileMetadata (file_size c) (i_mtime i) (i_mtime_nsec i) (Z.lor (file_type c) (i_perm i)) (i_uid i) (i_gid i)
        (i_rdev i) 1 (Z.pos n) (link_count o l c)
  | _, _ => mkFileMetadata 4096 0 0 (Z.lor S_IFDIR 0x1ED) 0 0 0 1 0 (link_count o l Dir)
  end.

Definition symlink_metadata (o : os) (path : list Z) : io_error + FileMetadata :=
  q ← node o false path; mret (metadata_at o q.1 q.2).
Definition metadata (o : os) (path : list Z) : io_error + FileMetadata :=
  q ← node o true path; mret (metadata_at o q.1 q.2).
Definition read_link (o : os) (path : list Z) : io_error + list Z :=
  q ← node o false path; match q.2 with Lnk t => inr t | _ => inl EOther end.
Definition read (o : os) (path : list Z) : io_error + list Z :=
  q ← node o true path; match q.2 with Reg d => inr d | _ => inl EOther end.
Definition read_dir (o : os) (path : list Z) : io_error + list (list Z) :=
  q ← node o true path; match q.2 with Dir => inr (children o q.1) | _ => inl EOther end.

(** ** Changing *)

(** The next fault of the schedule, if there is one, comes first. *)
Definition syscall {A} (m : sys A) : sys A := fun o =>
  match os_faults o with
  | [] => m o
  | None :: fs => m (set_faults fs o)
  | Some (e, _) :: fs => (inl e, set_faults fs o)
  end.

Definition sys_put (f : os -> os) : sys unit := fun o => (inr tt, f o).
Definition sys_fail {A} (e : io_error) : sys A := fun o => (inl e, o).
Definition sys_get {A} (f : os -> io_error + A) : sys A := fun o => (f o, o).

(** An open file: the inode, the offset, and whether writes go to the end. *)
Record file := mkFile { f_ino : positive; f_pos : nat; f_append : bool }.

Definition file_data (o : os) (n : positive) : list Z :=
  match os_inodes o !! n with Some i => match i_content i with Reg d => d | _ => [] end | None => [] end.

(** [OpenOptions::new().write(true).create(true)] and [truncate] or [append]. *)
Definition open_for_writing (append : bool) (path : list Z) : sys file := syscall (fun o =>
  match resolve o true path with
  | inl e => (inl e, o)
  | inr l =>
      match content_at o l with
      | Some (Reg _) =>
          match os_names o !! l with
          | Some n => (inr (mkFile n 0 append), if append then o else update_inode n (set_content (Reg [])) o)
          | None => (inl ENoent, o)
          end
      | Some _ => (inl EOther, o)
      | None => (inr (mkFile (fresh_ino o) 0 append), add_node l (Reg []) (Z.ldiff 0x1B6 (os_umask o)) o)
      end
  end).

(** [data] over [old] from the offset on, the gap filled with zeros. *)
Definition overwrite (old : list Z) (pos : nat) (data : list Z) : list Z :=
  take pos old ++ replicate (pos - length old) 0 ++ data ++ drop (pos + length data) old.

Definition write_at (f : file) (data : list Z) (o : os) : file * os :=
  let old := file_data o (f_ino f) in
  let pos := if f_append f then length old else f_pos f in
  (mkFile (f_ino f) (pos + length data) (f_append f), update_inode (f_ino f) (set_content (Reg (overwrite old pos data))) o).

(** [file.write_all(data)]: some of the data may be written before it fails. *)
Definition file_write_all (data : list Z) (f : file) : os -> option io_error * (file * os) := fun o =>
  match os_faults o with
  | [] => (None, write_at f data o)
  | None :: fs => (None, write_at f data (set_faults fs o))
  | Some (e, n) :: fs => (Some e, write_at f (take n data) (set_faults fs o))
  end.
(** [file.seek(SeekFrom::Current(n))]; [file.set_len(n)] *)
Definition file_seek (n : nat) (f : file) : file := mkFile (f_ino f) (f_pos f + n) (f_append f).
Definition file_set_len (n : nat) (f : file) : sys unit := syscall (sys_put (fun o =>
  let old := file_data o (f_ino f) in
  update_inode (f_ino f) (set_content (Reg (take n old ++ replicate (n - length old) 0))) o)).

(** [std::fs::write] *)
Definition write (path data : list Z) : sys unit := fun o =>
  match open_for_writing false path o with
  | (inl e, o) => (inl e, o)
  | (inr f, o) => match file_write_all data f o with
                  | (Some e, (_, o)) => (inl e, o)
                  | (None, (_, o)) => (inr tt, o)
                  end
  end.

(** Changes to the inode behind a path. *)
Definition on_inode (path : list Z) (f : inode -> inode) : sys unit := syscall (fun o =>
  match node o true path with
  | inl e => (inl e, o)
  | inr (l, _) => match os_names o !! l with Some n => (inr tt, update_inode n f o) | None => (inr tt, o) end
  end).
Definition set_permissions (path : list Z) (mode : Z) : sys unit := on_inode path (set_perm (Z.land mode 0xFFF)).
Definition chown (path : list Z) (uid gid : Z) : sys unit := on_inode path (set_ids uid gid).

(** Names below a directory, the directory included. *)
Definition below (d l : loc) : bool := bool_decide (take (length d) l = d).
Definition move_names (from to : loc) (names : gmap loc positive) : gmap loc positive :=
  list_to_map (map (fun q => (if below from q.1 then to ++ drop (length from) q.1 else q.1, q.2)) (map_to_list names)).

Definition rename (from to : list Z) : sys unit := syscall (fun o =>
  match node o false from, resolve o false to with
  | inl e, _ | _, inl e => (inl e, o)
  | inr (a, c), inr b =>
      match os_names o !! a with
      | None => (inl EOther, o)
      | Some n =>
          if bool_decide (os_names o !! b = Some n) then (inr tt, o)
          else match c, content_at o b with
               | Dir, (None | Some Dir) =>
                   if below a b || negb (bool_decide (children o b = [])) then (inl EOther, o)
                   else (inr tt, set_names (move_names a b (delete b (os_names o))) o)
               | Dir, Some _ | _, Some Dir => (inl EOther, o)
               | _, _ => (inr tt, set_names (<[b := n]> (delete a (os_names o))) o)
               end
      end
  end).

(** Separators at the end do not count where a directory is made. *)
Fixpoint drop_slashes (r : list Z) : list Z :=
  match r with c :: r' => if c =? 47 then drop_slashes r' else r | [] => [] end.
Definition strip_slashes (path : list Z) : list Z :=
  match rev (drop_slashes (rev path)) with
  | [] => take 1 path
  | q => q
  end.

Definition mkdir (path : list Z) : sys unit := syscall (fun o =>
  match resolve o false (strip_slashes path) with
  | inl e => (inl e, o)
  | inr l => match content_at o l with
             | Some _ => (inl EOther, o)
             | None => (inr tt, add_node l Dir (Z.ldiff 0x1FF (os_umask o)) o)
             end
  end).
Definition is_dir (o : os) (path : list Z) : bool :=
  match node o true path with inr (_, Dir) => true | _ => false end.

(** [std::fs::create_dir_all]; a path has fewer ancestors than bytes. *)
Fixpoint create_dir_all_within (fuel : nat) (path : list Z) : sys unit := fun o =>
  match fuel with
  | O => (inl EOther, o)
  | S f =>
      if bool_decide (path = []) then (inr tt, o)
      else
        let '(r, o) := mkdir path o in
        match r with
        | inr _ => (inr tt, o)
        | inl ENoent =>
            match parent path with
            | None => (inl EOther, o)
            | Some p =>
                let '(r, o) := create_dir_all_within f p o in
                match r with
                | inl e => (inl e, o)
                | inr _ =>
                    let '(r, o) := mkdir path o in
                    match r with
                    | inr _ => (inr tt, o)
                    | inl e => if is_dir o path then (inr tt, o) else (inl e, o)
                    end
                end
            end
        | inl e => if is_dir o path then (inr tt, o) else (inl e, o)
        end
  end.
Definition create_dir_all (path : list Z) : sys unit := create_dir_all_within (S (length path)) path.

Definition symlink (target link : list Z) : sys unit := syscall (fun o =>
  match resolve o false link with
  | inl e => (inl e, o)
  | inr l =>
      match content_at o l with
      | Some _ => (inl EOther, o)
      | None => if bool_decide (target = []) then (inl ENoent, o) else (inr tt, add_node l (Lnk target) 0x1FF o)
      end
  end).

Definition remove_file (path : list Z) : sys unit := syscall (fun o =>
  match node o false path with
  | inl e => (inl e, o)
  | inr (_, Dir) => (inl EOther, o)
  | inr (l, _) => (inr tt, set_names (delete l (os_names o)) o)
  end).
Definition remove_dir (path : list Z) : sys unit := syscall (fun o =>
  match node o false path with
  | inl e => (inl e, o)
  | inr (l, Dir) =>
      if bool_decide (l = []) || negb (bool_decide (children o l = [])) then (inl EOther, o)
      else (inr tt, set_names (delete l (os_names o)) o)
  | inr _ => (inl EOther, o)
  end).

Definition hard_link (original link : list Z) : sys unit := syscall (fun o =>
  match node o false original, resolve o false link with
  | inl e, _ | _, inl e => (inl e, o)
  | inr (_, Dir), _ => (inl EOther, o)
  | inr (a, _), inr b =>
      match os_names o !! a, content_at o b with
      | Some n, None => (inr tt, set_names (<[b := n]> (os_names o)) o)
      | _, _ => (inl EOther, o)
      end
  end).

(** [std::fs::copy]: the destination is truncated before the source is read. *)
Definition copy (from to : list Z) : sys unit := fun o =>
  match node o true from with
  | inr (a, Reg _) =>
      match os_names o !! a with
      | None => (inl EOther, o)
      | Some n =>
          let perm := match inode_at o a with Some i => i_perm i | None => 0 end in
          match open_for_writing false to o with
          | (inl e, o) => (inl e, o)
          | (inr f, o) =>
              let o := update_inode (f_ino f) (set_perm perm) o in
              match file_write_all (file_data o n) f o with
              | (Some e, (_, o)) => (inl e, o)
              | (None, (_, o)) => (inr tt, o)
              end
          end
      end
  | inr _ => (inl EOther, o)
  | inl e => (inl e, o)
  end.

Definition canonical (path : list Z) : loc := base.filter (fun c => c <> []) (split_slash [] path).

(** An empty disk, to try things on. *)
Definition empty_os : os := mkOs ∅ ∅ [] 0x12 (1000, 1000) (1700000000, 0) 42 0 [].
