(* ===== verification/PosixFacts.v ===== *)
(** Facts about the model of the file system: paths and their components,
    resolution along directories, and the few ways in which the calls change
    what lies where. *)
From S2P Require Import Prelude Wire Types Text Utf8 Filter Scanner Fs Posix.

(** ** Components *)

(** The components that name something. *)
Definition named (c : list Z) : Prop := c <> [] /\ c <> [46].
Definition names_of (path : list Z) : list (list Z) := base.filter named (split_slash [] path).

Lemma split_slash_app comp a b : split_slash comp (a ++ 47 :: b) = split_slash comp a ++ split_slash [] b.
Proof.
  revert comp. induction a as [|x a IH]; intros comp; cbn [app split_slash]; [done|].
  destruct (x =? 47); [by rewrite IH|apply IH].
Qed.
Lemma split_slash_word comp a : 47 ∉ a -> split_slash comp a = [comp ++ a].
Proof.
  revert comp. induction a as [|x a IH]; intros comp Ha; cbn [split_slash]; [by rewrite app_nil_r|].
  apply not_elem_of_cons in Ha as [Hx Ha]. destruct (Z.eqb_spec x 47) as [->|]; [done|].
  rewrite IH by done. by rewrite <- app_assoc.
Qed.

Lemma names_of_app a b : names_of (a ++ 47 :: b) = names_of a ++ names_of b.
Proof. unfold names_of. by rewrite split_slash_app, filter_app. Qed.
Lemma names_of_word a : 47 ∉ a -> named a -> names_of a = [a].
Proof. intros Ha Hn. unfold names_of. rewrite split_slash_word by done. cbn [app]. by rewrite filter_cons_True. Qed.
Lemma names_of_nothing a : 47 ∉ a -> ~ named a -> names_of a = [].
Proof. intros Ha Hn. unfold names_of. rewrite split_slash_word by done. cbn [app]. by rewrite filter_cons_False. Qed.
Lemma names_of_nil : names_of [] = [].
Proof. done. Qed.

(** A path is what precedes the last separator, and the word after it. *)
Lemma path_split p : (47 ∉ p) \/ exists a w, p = a ++ 47 :: w /\ 47 ∉ w.
Proof.
  destruct (rposition 47 p) as [i|] eqn:E.
  - right. apply rposition_Some in E as [H1 H2]. exists (take i p), (drop (S i) p). split; [|done].
    symmetry. by apply take_drop_middle.
  - left. by apply rposition_None.
Qed.

(** ** [trim_path] and [parent] *)

Lemma trim_path_rev_cases r :
  trim_path_rev r = r \/
  (exists b r', r = 47 :: b :: r' /\ trim_path_rev r = trim_path_rev (b :: r')) \/
  (exists r', r = 46 :: 47 :: r' /\ trim_path_rev r = trim_path_rev (47 :: r')).
Proof.
  destruct r as [|a [|b r]]; [by left..|]. cbn [trim_path_rev]. destruct (Z.eqb_spec a 47) as [->|]; [right; left; eauto|].
  destruct (Z.eqb_spec a 46) as [->|]; cbn [andb]; [|by left]. destruct (Z.eqb_spec b 47) as [->|]; [right; right; eauto|by left].
Qed.

Lemma is_absolute_cons x a : is_absolute (x :: a) = (47 =? x).
Proof. unfold is_absolute, starts_with. cbn [strip_prefix]. by destruct (47 =? x). Qed.

Lemma names_of_trim_rev r : names_of (rev (trim_path_rev r)) = names_of (rev r) /\
  is_absolute (rev (trim_path_rev r)) = is_absolute (rev r) /\ (rev (trim_path_rev r) = [] <-> rev r = []).
Proof.
  remember (length r) as n eqn:Hn. revert r Hn. induction n as [n IH] using lt_wf_ind. intros r ->.
  destruct (trim_path_rev_cases r) as [E|[(b & r' & Er & E)|(r' & Er & E)]]; rewrite E.
  - split_and!; try done.
  - destruct (IH (length (b :: r')) ltac:(subst r; cbn; lia) (b :: r') eq_refl) as (H1 & H2 & H3).
    rewrite H1, H2, H3, Er. cbn [rev]. split_and!.
    + rewrite (names_of_app (rev r' ++ [b]) []). by rewrite names_of_nil, app_nil_r.
    + destruct (rev r') as [|x l]; cbn [app]; by rewrite !is_absolute_cons.
    + by destruct (rev r').
  - destruct (IH (length (47 :: r')) ltac:(subst r; cbn; lia) (47 :: r') eq_refl) as (H1 & H2 & H3).
    rewrite H1, H2, H3, Er. cbn [rev]. split_and!.
    + rewrite <- app_assoc. cbn [app]. rewrite (names_of_app (rev r') [46]), (names_of_app (rev r') []). done.
    + destruct (rev r') as [|x l]; cbn [app]; by rewrite !is_absolute_cons.
    + by destruct (rev r').
Qed.

Lemma names_of_trim p : names_of (trim_path p) = names_of p /\ is_absolute (trim_path p) = is_absolute p /\
  (trim_path p = [] <-> p = []).
Proof. pose proof (names_of_trim_rev (rev p)) as H0. by rewrite rev_involutive in H0. Qed.

Lemma trim_path_word a w : 47 ∉ w -> named w -> trim_path (a ++ 47 :: w) = a ++ 47 :: w.
Proof.
  intros Hw [Hn Hd]. unfold trim_path. destruct (trim_path_rev_cases (rev (a ++ 47 :: w))) as [E|[(b & r' & Er & _)|(r' & Er & _)]].
  - by rewrite E, rev_involutive.
  - exfalso. apply (f_equal (@rev Z)) in Er. rewrite rev_involutive in Er. cbn [rev] in Er.
    destruct (exists_last Hn) as (w' & x & ->). rewrite app_comm_cons, app_assoc in Er. apply app_inj_tail in Er as [_ ->].
    apply Hw. rewrite elem_of_app. right. left.
  - exfalso. apply (f_equal (@rev Z)) in Er. rewrite rev_involutive in Er. cbn [rev] in Er.
    destruct (exists_last Hn) as (w' & x & ->). rewrite app_comm_cons, app_assoc in Er. apply app_inj_tail in Er as [Er ->].
    destruct (decide (w' = [])) as [->|Hw']; [done|]. destruct (exists_last Hw') as (w'' & y & ->).
    rewrite app_comm_cons, app_assoc in Er. apply app_inj_tail in Er as [_ ->]. apply Hw. rewrite !elem_of_app. left. right. left.
Qed.
Lemma trim_path_bare w : 47 ∉ w -> trim_path w = w.
Proof.
  intros Hw. unfold trim_path. destruct (trim_path_rev_cases (rev w)) as [E|[(b & r' & Er & _)|(r' & Er & _)]].
  - by rewrite E, rev_involutive.
  - exfalso. apply Hw. apply list_elem_of_In, in_rev. rewrite Er. by left.
  - exfalso. apply Hw. apply list_elem_of_In, in_rev. rewrite Er. by right; left.
Qed.

(** ** Resolution *)

Lemma content_root o : content_at o [] = Some Dir.
Proof. done. Qed.
Lemma is_dir_at_content o l : is_dir_at o l = true <-> content_at o l = Some Dir.
Proof. unfold is_dir_at. destruct (content_at o l) as [[]|]; split; congruence. Qed.

Lemma walk_nil o follow k cur : walk o follow k cur [] = inr (cur, k).
Proof. by destruct k. Qed.
Lemma walk_cons o follow k cur c rest :
  walk o follow k cur (c :: rest) =
    if negb (is_dir_at o cur) then inl (match content_at o cur with Some _ => EOther | None => ENoent end)
    else if bool_decide (c = []) || bool_decide (c = [46]) then walk o follow k cur rest
    else if bool_decide (c = [46; 46]) then walk o follow k (removelast cur) rest
    else match content_at o (cur ++ [c]) with
         | Some (Lnk t) =>
             if bool_decide (rest = []) && negb follow then inr (cur ++ [c], k)
             else match k with
                  | O => inl EOther
                  | S k' => walk o follow k' (if is_absolute t then [] else cur) (split_slash [] t ++ rest)
                  end
         | _ => walk o follow k (cur ++ [c]) rest
         end.
Proof. by destruct k. Qed.

Abbreviation names := (base.filter named).

Lemma names_nil_last (w : list Z) todo : named w -> last todo = Some w -> names todo <> [].
Proof.
  intros Hw Hl. apply last_Some in Hl as [l ->]. rewrite filter_app. intros H0%app_eq_nil. destruct H0 as [_ H0].
  by rewrite filter_cons_True in H0.
Qed.
Lemma named_bool c : bool_decide (c = []) || bool_decide (c = [46]) = negb (bool_decide (named c)).
Proof. unfold named. repeat case_bool_decide; cbn [orb negb]; tauto. Qed.

(** Along a way free of symbolic links the names are followed. *)
Section way.
  Context (o : os) (follow : bool) (k : nat).

Definition ends_named (todo : list (list Z)) : Prop := exists w, last todo = Some w /\ named w.
Definition no_links (cur : loc) (todo : list (list Z)) : Prop :=
  (forall q r t, names todo = q ++ r -> q <> [] -> r <> [] -> content_at o (cur ++ q) <> Some (Lnk t)) /\
  (forall t, content_at o (cur ++ names todo) = Some (Lnk t) -> follow = false /\ ends_named todo).
Definition on_dirs (cur : loc) (ns : list (list Z)) : Prop :=
  forall q r, ns = q ++ r -> r <> [] -> is_dir_at o (cur ++ q) = true.

Lemma on_dirs_cons cur c ns : on_dirs cur (c :: ns) <-> is_dir_at o cur = true /\ on_dirs (cur ++ [c]) ns.
Proof.
  split.
  - intros H0. split; [by rewrite <- (app_nil_r cur); apply (H0 [] (c :: ns))|].
    intros q r -> Hr. rewrite <- app_assoc. by apply (H0 (c :: q) r).
  - intros [Hc H0] [|c' q] r E Hr; [by rewrite app_nil_r|]. injection E as <- E.
    change (cur ++ c :: q) with (cur ++ [c] ++ q). rewrite app_assoc. by apply (H0 q r).
Qed.

Lemma ends_named_cons c todo : ends_named (c :: todo) -> todo <> [] -> ends_named todo.
Proof. intros (w & Hw & Hn) Ht. exists w. split; [|done]. by destruct todo. Qed.
Lemma ends_named_nil todo : ends_named todo -> names todo = [] -> todo = [].
Proof. intros (w & Hw & Hn) H0. by destruct (names_nil_last w todo Hn Hw). Qed.

Lemma no_links_skip cur c todo : ~ named c -> no_links cur (c :: todo) -> todo <> [] -> no_links cur todo.
Proof.
  intros Hc [H1 H2] Ht. rewrite filter_cons_False in H1, H2 by done. split; [exact H1|]. intros t Hl.
  destruct (H2 t Hl) as [Hf He]. split; [done|]. by eapply ends_named_cons.
Qed.
Lemma no_links_step cur c todo : named c -> no_links cur (c :: todo) -> todo <> [] ->
  no_links (cur ++ [c]) todo.
Proof.
  intros Hc [H1 H2] Ht. rewrite filter_cons_True in H1, H2 by done. split.
  - intros q r t E Hq Hr. rewrite <- app_assoc. apply (H1 (c :: q) r t); [by rewrite E|done..].
  - intros t. rewrite <- app_assoc. cbn [app]. intros Hl. destruct (H2 t Hl) as [Hf He]. split; [done|].
    by eapply ends_named_cons.
Qed.

Lemma walk_on_way todo : forall cur l k',
  [46; 46] ∉ todo -> no_links cur todo -> walk o follow k cur todo = inr (l, k') ->
  l = cur ++ names todo /\ k' = k /\ on_dirs cur (names todo).
Proof.
  induction todo as [|c todo IH]; intros cur l k' Hd Hn Hw.
  { rewrite walk_nil in Hw. injection Hw as <- <-. rewrite app_nil_r. split_and!; [done..|].
    intros q r E Hr. symmetry in E. by apply app_eq_nil in E as [_ ->]. }
  apply not_elem_of_cons in Hd as [Hdc Hd]. rewrite walk_cons, named_bool in Hw.
  destruct (is_dir_at o cur) eqn:Ecur; [|done]. cbn [negb] in Hw. case_bool_decide as Hc; cbn [negb] in Hw.
  - rewrite bool_decide_false in Hw by done. rewrite filter_cons_True by done.
    destruct (decide (todo = [])) as [->|Ht].
    + assert (Hin : inr (cur ++ [c], k) = (inr (l, k') : io_error + (loc * nat))).
      { destruct (content_at o (cur ++ [c])) as [[]|] eqn:E; try (rewrite walk_nil in Hw; exact Hw).
        destruct Hn as [_ Hn]. rewrite filter_cons_True in Hn by done. destruct (Hn _ E) as [Hf _]. by rewrite Hf in Hw. }
      injection Hin as <- <-. split_and!; [done..|]. apply on_dirs_cons. split; [done|].
      intros q r E Hr. symmetry in E. by apply app_eq_nil in E as [_ ->].
    + assert (Hw' : walk o follow k (cur ++ [c]) todo = inr (l, k')).
      { destruct (content_at o (cur ++ [c])) as [[]|] eqn:E; try exact Hw. exfalso. destruct Hn as [H1 H2].
        rewrite filter_cons_True in H1, H2 by done. destruct (decide (names todo = [])) as [En|En].
        - rewrite En in H2. destruct (H2 _ E) as [_ He]. apply ends_named_cons in He; [|done]. by apply ends_named_nil in He.
        - by apply (H1 [c] (names todo) target). }
      destruct (IH (cur ++ [c]) l k' Hd) as (-> & -> & Hdirs); [by apply no_links_step|exact Hw'|].
      rewrite <- app_assoc. split_and!; [done..|]. by apply on_dirs_cons.
  - rewrite filter_cons_False by done. destruct (decide (todo = [])) as [->|Ht].
    + rewrite walk_nil in Hw. injection Hw as <- <-. rewrite app_nil_r. split_and!; [done..|].
      intros q r E Hr. symmetry in E. by apply app_eq_nil in E as [_ ->].
    + apply IH; [done|by eapply no_links_skip|done].
Qed.

Lemma walk_clear todo : forall cur,
  [46; 46] ∉ todo -> (todo <> [] -> ends_named todo) -> on_dirs cur (names todo) ->
  (forall t, content_at o (cur ++ names todo) = Some (Lnk t) -> todo <> [] -> follow = false) ->
  walk o follow k cur todo = inr (cur ++ names todo, k).
Proof.
  induction todo as [|c todo IH]; intros cur Hd He Hdirs Hl; [by rewrite walk_nil, app_nil_r|].
  apply not_elem_of_cons in Hd as [Hdc Hd]. rewrite walk_cons, named_bool. specialize (He ltac:(done)).
  assert (He' : todo <> [] -> ends_named todo) by (intros; by eapply ends_named_cons).
  case_bool_decide as Hc; cbn [negb].
  - rewrite filter_cons_True in Hdirs, Hl |- * by done. apply on_dirs_cons in Hdirs as [-> Hdirs]. cbn [negb].
    rewrite bool_decide_false by done.
    assert (Hw : walk o follow k (cur ++ [c]) todo = inr (cur ++ c :: names todo, k)).
    { rewrite (IH (cur ++ [c]) Hd He' Hdirs); rewrite <- app_assoc; [done|]. intros t Ht _. by apply (Hl t Ht). }
    destruct (content_at o (cur ++ [c])) as [[]|] eqn:E; try exact Hw.
    destruct (decide (todo = [])) as [->|Ht].
    + rewrite (Hl _ E) by done. done.
    + exfalso. destruct (He' Ht) as (w & Hw1 & Hw2). pose proof (names_nil_last w todo Hw2 Hw1) as Hnn.
      destruct (names todo) as [|c' ns]; [done|]. apply on_dirs_cons in Hdirs as [Hdirs _].
      apply is_dir_at_content in Hdirs. congruence.
  - rewrite filter_cons_False in Hdirs, Hl |- * by done.
    destruct (decide (todo = [])) as [->|Ht]; [by destruct He as (w & [= <-] & ?)|].
    destruct (He' Ht) as (w & Hw1 & Hw2). pose proof (names_nil_last w todo Hw2 Hw1) as Hnn.
    replace (is_dir_at o cur) with true; [cbn [negb]; apply IH; try done; intros t Hlt _; by apply (Hl t Hlt)|].
    destruct (names todo) as [|c' ns]; [done|]. symmetry. by apply on_dirs_cons in Hdirs as [-> _].
Qed.
End way.

(** A place that a walk can end in: a directory, or below one. *)
Definition reachable (o : os) (l : loc) : Prop :=
  is_dir_at o l = true \/ (l <> [] /\ is_dir_at o (removelast l) = true).

Lemma walk_reachable o follow : (forall l, is_dir_at o l = true -> is_dir_at o (removelast l) = true) ->
  forall k todo cur l k', reachable o cur -> walk o follow k cur todo = inr (l, k') -> reachable o l.
Proof.
  intros Hup k. induction k as [k IHk] using lt_wf_ind. induction todo as [|c todo IH]; intros cur l k' Hr Hw.
  { rewrite walk_nil in Hw. by injection Hw as <- <-. }
  rewrite walk_cons in Hw. destruct (is_dir_at o cur) eqn:Ec; [|done]. cbn [negb] in Hw.
  destruct (_ || _); [by eapply IH|]. case_bool_decide; [by eapply IH; [|exact Hw]; left; apply Hup|].
  assert (Hr' : reachable o (cur ++ [c])).
  { right. split; [by destruct cur|]. by rewrite removelast_last. }
  destruct (content_at o (cur ++ [c])) as [[]|]; try (by eapply IH; [exact Hr'|exact Hw]).
  destruct (_ && _); [by injection Hw as <- <-|]. destruct k as [|k0]; [done|].
  eapply (IHk k0 ltac:(lia)); [|exact Hw]. left. by destruct (is_absolute target).
Qed.

(** ** The tree: names, contents, and where relative paths start *)

Record tree := mkTree { t_names : gmap loc positive; t_contents : gmap positive content; t_cwd : loc }.
Definition tree_of (o : os) : tree := mkTree (os_names o) (i_content <$> os_inodes o) (os_cwd o).
Definition at_loc (t : tree) (l : loc) : option content :=
  match l with [] => Some Dir | _ => n ← t_names t !! l; t_contents t !! n end.
Arguments at_loc : simpl never.

Lemma content_tree o l : content_at o l = at_loc (tree_of o) l.
Proof.
  unfold content_at, at_loc, inode_at. destruct l; [done|]. cbn [tree_of t_names t_contents].
  destruct (os_names o !! _) as [n|]; [|done]. cbn. rewrite lookup_fmap. by destruct (os_inodes o !! n).
Qed.

(** Every name is that of something, in a directory. *)
Definition tree_ok (t : tree) : Prop :=
  forall l n, t_names t !! l = Some n ->
    l <> [] /\ is_Some (t_contents t !! n) /\ at_loc t (removelast l) = Some Dir.

Definition put (l : loc) (n : positive) (c : content) (t : tree) : tree :=
  mkTree (<[l := n]> (t_names t)) (<[n := c]> (t_contents t)) (t_cwd t).
Definition store (n : positive) (c : content) (t : tree) : tree := mkTree (t_names t) (<[n := c]> (t_contents t)) (t_cwd t).
Definition del (l : loc) (t : tree) : tree := mkTree (delete l (t_names t)) (t_contents t) (t_cwd t).

Lemma at_loc_ne t l : l <> [] -> at_loc t l = n ← t_names t !! l; t_contents t !! n.
Proof. by destruct l. Qed.

Lemma at_loc_some t l c : tree_ok t -> at_loc t l = Some c -> l = [] \/ exists n, t_names t !! l = Some n /\ t_contents t !! n = Some c.
Proof.
  intros Ht. destruct (decide (l = [])) as [->|Hl]; [by left|]. rewrite at_loc_ne by done. intros H0. right.
  destruct (t_names t !! l) as [n|]; [|done]. eauto.
Qed.
Lemma at_loc_none t l : tree_ok t -> at_loc t l = None <-> l <> [] /\ t_names t !! l = None.
Proof.
  intros Ht. destruct (decide (l = [])) as [->|Hl]; [by split; [|intros []]|]. rewrite at_loc_ne by done.
  destruct (t_names t !! l) as [n|] eqn:E; [|by split]. destruct (Ht l n E) as (_ & [c Hc] & _). cbn. rewrite Hc.
  split; [done|by intros []].
Qed.

Section ops.
  Context (t : tree) (Ht : tree_ok t).

Lemma at_put l n c l' : t_contents t !! n = None -> l <> [] ->
  at_loc (put l n c t) l' = if decide (l' = l) then Some c else at_loc t l'.
Proof.
  intros Hn Hl. destruct (decide (l' = l)) as [->|Hne].
  - rewrite at_loc_ne by done. cbn [put t_names t_contents]. by rewrite lookup_insert_eq; cbn; rewrite lookup_insert_eq.
  - destruct (decide (l' = [])) as [->|Hl']; [done|]. rewrite !at_loc_ne by done. cbn [put t_names t_contents].
    rewrite lookup_insert_ne by done. destruct (t_names t !! l') as [m|] eqn:E; [|done]. cbn.
    rewrite lookup_insert_ne; [done|]. intros ->. destruct (Ht l' m E) as (_ & [c' Hc'] & _). congruence.
Qed.
Lemma put_ok l n c : t_contents t !! n = None -> l <> [] -> at_loc t (removelast l) = Some Dir -> at_loc t l <> Some Dir ->
  tree_ok (put l n c t).
Proof.
  intros Hn Hl Hp Hd l' m. cbn [put t_names t_contents]. destruct (decide (l' = l)) as [->|Hne].
  - rewrite lookup_insert_eq. intros [= <-]. split; [done|]. split; [by rewrite lookup_insert_eq|].
    rewrite at_put by done. destruct (decide (removelast l = l)) as [E|_]; [|done].
    exfalso. destruct (exists_last Hl) as (l0 & x & ->). rewrite removelast_last in E.
    apply (f_equal length) in E. rewrite length_app in E. cbn in E. lia.
  - rewrite lookup_insert_ne by done. intros H0. destruct (Ht l' m H0) as (H1 & [c' H2] & H3). split; [done|]. split.
    + rewrite lookup_insert_ne by congruence. by exists c'.
    + rewrite at_put by done. destruct (decide (removelast l' = l)) as [<-|_]; [by destruct Hd|done].
Qed.

Lemma at_store l n c c0 l' : t_names t !! l = Some n -> t_contents t !! n = Some c0 ->
  at_loc (store n c t) l' = if decide (l' <> [] /\ t_names t !! l' = Some n) then Some c else at_loc t l'.
Proof.
  intros Hl Hc. destruct (decide (l' = [])) as [->|Hl']; [by destruct (decide _) as [[]|]|]. rewrite !at_loc_ne by done.
  cbn [store t_names t_contents]. destruct (t_names t !! l') as [m|] eqn:E; cbn; [|by destruct (decide _) as [[]|]].
  destruct (decide _) as [[_ [= ->]]|Hd]; [by rewrite lookup_insert_eq|]. rewrite lookup_insert_ne; [done|]. intros ->. by destruct Hd.
Qed.
Lemma store_ok l n c c0 : t_names t !! l = Some n -> t_contents t !! n = Some c0 -> c0 <> Dir -> tree_ok (store n c t).
Proof.
  intros Hl Hc Hd l' m Hm. cbn [store t_names t_contents] in *. destruct (Ht l' m Hm) as (H1 & [c' H2] & H3). split; [done|].
  split. { destruct (decide (m = n)) as [->|]; [by rewrite lookup_insert_eq|rewrite lookup_insert_ne by done; by exists c']. }
  rewrite (at_store l n c c0) by done. destruct (decide _) as [[Hr Hrn]|_]; [|done]. exfalso.
  rewrite at_loc_ne, Hrn in H3 by done. cbn in H3. congruence.
Qed.

Lemma at_del l l' : l <> [] -> at_loc (del l t) l' = if decide (l' = l) then None else at_loc t l'.
Proof.
  intros Hl. destruct (decide (l' = l)) as [->|Hne].
  - rewrite at_loc_ne by done. cbn [del t_names]. by rewrite lookup_delete_eq.
  - destruct (decide (l' = [])) as [->|Hl']; [done|]. rewrite !at_loc_ne by done. cbn [del t_names t_contents].
    by rewrite lookup_delete_ne.
Qed.
Lemma del_ok l : l <> [] -> at_loc t l <> Some Dir -> tree_ok (del l t).
Proof.
  intros Hl Hd l' m. cbn [del t_names t_contents]. destruct (decide (l' = l)) as [->|Hne]; [by rewrite lookup_delete_eq|].
  rewrite lookup_delete_ne by done. intros H0. destruct (Ht l' m H0) as (H1 & H2 & H3). split_and!; [done..|].
  rewrite at_del by done. by destruct (decide _) as [<-|].
Qed.

Lemma dirs_up l : at_loc t l = Some Dir -> at_loc t (removelast l) = Some Dir.
Proof. intros H0. destruct (at_loc_some t l Dir Ht H0) as [->|(n & Hn & _)]; [done|]. by apply (Ht l n). Qed.
Lemma dirs_below l c q r : at_loc t (l ++ q ++ r) = Some c -> r <> [] -> at_loc t (l ++ q) = Some Dir.
Proof.
  revert c. induction r as [|x r IH] using rev_ind; intros c H0 Hr; [done|].
  destruct (at_loc_some t _ c Ht H0) as [E|(n & Hn & _)].
  { exfalso. apply app_nil in E as [_ E]. apply app_nil in E as [_ E]. by apply app_nil in E as []. }
  destruct (Ht _ n Hn) as (_ & _ & H1). rewrite !app_assoc, removelast_last, <- app_assoc in H1.
  destruct (decide (r = [])) as [->|Hr']; [by rewrite app_nil_r in H1|]. by eapply IH.
Qed.
End ops.

Lemma store_put l n c c0 t : store n c (put l n c0 t) = put l n c t.
Proof. unfold store, put. cbn [t_names t_contents t_cwd]. by rewrite insert_insert_eq. Qed.
Lemma store_store n c c0 t : store n c (store n c0 t) = store n c t.
Proof. unfold store. cbn [t_names t_contents t_cwd]. by rewrite insert_insert_eq. Qed.
Lemma put_del l n c t : put l n c (del l t) = put l n c t.
Proof. unfold put, del. cbn [t_names t_contents t_cwd]. by rewrite insert_delete_eq. Qed.
