(* ===== verification/UnixFs.v ===== *)
(** [ferrosync-fs/src/unix.rs] and [atomic_writer.rs]: the file system of the
    operating system as the trait has it. *)
From S2P Require Import Prelude Wire Types Text Utf8 Filter Scanner Listing Fs Posix.

(** ** The two crates it calls

    [filetime::set_file_mtime] and the functions of the [xattr] crate. *)
Record Crates := mkCrates {
  set_file_mtime : list Z -> Z -> Z -> sys unit;
  xattr_list : os -> list Z -> io_error + list (list Z);
  xattr_get : os -> list Z -> list Z -> io_error + option (list Z);
  xattr_set : list Z -> list Z -> list Z -> sys unit;
}.

Definition map_io_err (path : list Z) (e : io_error) : FsError :=
  match e with ENoent => NotFound path | EAccess => PermissionDenied path | EOther => FsIo path end.
Definition io {A} (path : list Z) (r : io_error + A) : FsError + A := lift_err (map_io_err path) r.
(** [m.map_err(|e| map_io_err(path, e))?] *)
Definition try_io {A} (path : list Z) (m : sys A) : act FsError os A := fun o => let '(r, o) := m o in (io path r, o).

Definition set_mode (path : list Z) (mode : option Z) : act FsError os unit :=
  match mode with Some m => try_io path (Posix.set_permissions path m) | None => mret tt end.

(** [format!(".ferrosync.{}.{}{}.tmp", pid, seq, suffix)]; the counter moves on. *)
Definition tmp_name (pid seq : Z) (suffix : string) : list Z :=
  str_bytes ".ferrosync." ++ decimal pid ++ str_bytes "." ++ decimal seq ++ str_bytes suffix ++ str_bytes ".tmp".
Definition unique_tmp_name (suffix : string) (o : os) : list Z * os :=
  (tmp_name (os_pid o) (os_counter o) suffix, set_counter (as_u64 (os_counter o + 1)) o).

Definition parent_or_dot (path : list Z) : list Z := match parent path with Some p => p | None => [46] end.

(** ** Reading *)

Section unix.
  Context (crates : Crates).

Definition dir_entry (o : os) (path n : list Z) : FsError + DirEntry :=
  meta ← io (path_join path n) (symlink_metadata o (path_join path n)); mret (mkDirEntry n meta).
Definition read_dir (o : os) (path : list Z) : FsError + list DirEntry :=
  names ← io path (Posix.read_dir o path);
  foldr (fun n acc => e ← dir_entry o path n; l ← acc; mret (e :: l)) (inr []) names.

Definition map_file (o : os) (path : list Z) : FsError + list Z :=
  meta ← io path (metadata o path);
  if md_len meta =? 0 then inr [] else io path (read o path).

Definition view (o : os) : FileSystem :=
  mkFileSystem (fun p => io p (symlink_metadata o p)) (fun p => io p (metadata o p)) (fun p => io p (read_link o p))
    (fun p => io p (read o p)) (read_dir o) (fun p => m ← io p (metadata o p); mret (md_dev m))
    (fun p => io p (xattr_list crates o p)) (fun p n => io p (xattr_get crates o p n))
    (fun p => match metadata o p with inr _ => true | inl _ => false end)
    (fun p => match read o p with
              | inr d => if utf8_valid d then Some d else None
              | inl _ => None
              end).

Definition lexists (o : os) (path : list Z) : bool := match symlink_metadata o path with inr _ => true | inl _ => false end.

(** ** Writing *)

(** To a temporary file beside it, then renamed. *)
Definition write_file (path data : list Z) (mode : option Z) : act FsError os unit := fun o =>
  let '(tmp, o) := unique_tmp_name "" o in
  let tmp_path := path_join (parent_or_dot path) tmp in
  (_ ← try_io tmp_path (write tmp_path data);
   _ ← set_mode tmp_path mode;
   try_io path (Posix.rename tmp_path path)) o.

(** [file.write_all(data)?] in a method about [path] *)
Definition write_all (path data : list Z) (f : file) : act FsError os file := fun o =>
  match file_write_all data f o with
  | (None, (f, o)) => (inr f, o)
  | (Some e, (_, o)) => (inl (map_io_err path e), o)
  end.

Definition write_file_inplace (path data : list Z) (mode : option Z) : act FsError os unit :=
  f ← try_io path (open_for_writing false path);
  _ ← write_all path data f;
  set_mode path mode.

Definition SPARSE_BLOCK : nat := 4096.
(** The loop over the blocks; each turn takes at least a byte. *)
Fixpoint write_sparse (fuel : nat) (path data : list Z) (f : file) : act FsError os file :=
  match fuel, data with
  | O, _ | _, [] => mret f
  | Datatypes.S fuel, _ =>
      let block := take SPARSE_BLOCK data in
      f ← (if forallb (fun b => b =? 0) block then mret (file_seek (length block) f) else write_all path block f);
      write_sparse fuel path (drop SPARSE_BLOCK data) f
  end.
Definition write_file_sparse (path data : list Z) (mode : option Z) : act FsError os unit :=
  f ← try_io path (open_for_writing false path);
  f ← write_sparse (length data) path data f;
  _ ← (if bool_decide (data = []) then mret tt else try_io path (file_set_len (length data) f));
  set_mode path mode.

Definition append_file (path data : list Z) (mode : option Z) : act FsError os unit :=
  f ← try_io path (open_for_writing true path);
  _ ← write_all path data f;
  set_mode path mode.

Definition mkdir (path : list Z) (mode : Z) : act FsError os unit :=
  _ ← try_io path (create_dir_all path); try_io path (Posix.set_permissions path mode).

Definition create_symlink (target link_path : list Z) : act FsError os unit := fun o =>
  (_ ← (match symlink_metadata o link_path with
        | inr _ => try_io link_path (Posix.remove_file link_path)
        | inl _ => mret tt
        end);
   try_io link_path (symlink target link_path)) o.

(** ** Streaming writers *)

(** [BufWriter], of 8 KiB. *)
Record buf_writer := mkBufWriter { bw_file : file; bw_buf : list Z }.
Definition BUF_CAPACITY : nat := 8 * 1024.

(** Writes the buffer out; what an error leaves unwritten stays in it. *)
Definition flush_buf (w : buf_writer) (o : os) : option io_error * (buf_writer * os) :=
  match bw_buf w with
  | [] => (None, (w, o))
  | _ =>
      match file_write_all (bw_buf w) (bw_file w) o with
      | (None, (f, o)) => (None, (mkBufWriter f [], o))
      | (Some e, (f, o)) =>
          let written := (f_pos f - f_pos (bw_file w))%nat in
          (Some e, (mkBufWriter f (drop written (bw_buf w)), o))
      end
  end.
Definition buf_write_all (data : list Z) (w : buf_writer) (o : os) : option io_error * (buf_writer * os) :=
  let '(r, (w, o)) := if (BUF_CAPACITY <? length (bw_buf w) + length data)%nat then flush_buf w o else (None, (w, o)) in
  match r with
  | Some e => (Some e, (w, o))
  | None =>
      if (BUF_CAPACITY <=? length data)%nat then
        let '(r, (f, o)) := file_write_all data (bw_file w) o in (r, (mkBufWriter f (bw_buf w), o))
      else (None, (mkBufWriter (bw_file w) (bw_buf w ++ data), o))
  end.

Record AtomicFileWriter := mkAtomicFileWriter {
  inner : buf_writer;
  tmp_path : list Z;
  dest_path : list Z;
  mode : option Z;
  finished : bool;
}.

Definition finish_inner (w : AtomicFileWriter) (o : os) : option io_error * (AtomicFileWriter * os) :=
  if finished w then (None, (w, o))
  else
    let '(r, (b, o)) := flush_buf (inner w) o in
    let w := mkAtomicFileWriter b (tmp_path w) (dest_path w) (mode w) true in
    match r with
    | Some e => (Some e, (w, o))
    | None =>
        let '(r, o) := match mode w with
                       | Some m => Posix.set_permissions (tmp_path w) m o
                       | None => (inr tt, o)
                       end in
        match r with
        | inl e => (Some e, (w, o))
        | inr _ =>
            match Posix.rename (tmp_path w) (dest_path w) o with
            | (inl e, o) => (Some e, (w, o))
            | (inr _, o) => (None, (w, o))
            end
        end
    end.

(** [Drop], then that of the buffered writer inside. *)
Definition atomic_drop (w : AtomicFileWriter) (o : os) : os :=
  let '(r, (w, o)) := finish_inner w o in
  let o := match r with Some _ => (Posix.remove_file (tmp_path w) o).2 | None => o end in
  (flush_buf (inner w) o).2.2.

Inductive UnixWriter :=
  | AtomicWriter (w : AtomicFileWriter)
  | PlainWriter (w : buf_writer).

Definition write_file_stream (path : list Z) (mode : option Z) : act FsError os UnixWriter := fun o =>
  let '(tmp, o) := unique_tmp_name ".stream" o in
  let tmp_path := path_join (parent_or_dot path) tmp in
  (f ← try_io tmp_path (open_for_writing false tmp_path);
   mret (AtomicWriter (mkAtomicFileWriter (mkBufWriter f []) tmp_path path mode false))) o.

Definition write_file_inplace_stream (path : list Z) (mode : option Z) : act FsError os UnixWriter := fun o =>
  match try_io path (open_for_writing false path) o with
  | (inl e, o) => (inl e, o)
  | (inr f, o) =>
      let o := match mode with Some m => (Posix.set_permissions path m o).2 | None => o end in
      (inr (PlainWriter (mkBufWriter f [])), o)
  end.

Definition with_buf (w : UnixWriter) (b : buf_writer) : UnixWriter :=
  match w with
  | AtomicWriter a => AtomicWriter (mkAtomicFileWriter b (tmp_path a) (dest_path a) (mode a) (finished a))
  | PlainWriter _ => PlainWriter b
  end.
Definition buf_of (w : UnixWriter) : buf_writer := match w with AtomicWriter a => inner a | PlainWriter b => b end.
Definition unix_write_all (data : list Z) (w : UnixWriter) (o : os) : bool * (UnixWriter * os) :=
  let '(r, (b, o)) := buf_write_all data (buf_of w) o in
  (match r with None => true | Some _ => false end, (with_buf w b, o)).
Definition unix_flush (w : UnixWriter) (o : os) : bool * (UnixWriter * os) :=
  let '(r, (b, o)) := flush_buf (buf_of w) o in
  (match r with None => true | Some _ => false end, (with_buf w b, o)).
Definition unix_drop (w : UnixWriter) (o : os) : os :=
  match w with AtomicWriter a => atomic_drop a o | PlainWriter b => (flush_buf b o).2.2 end.

(** ** The whole of the trait *)

Definition UnixFileSystem : FsOps os :=
  mkFsOps os view lexists map_file write_file write_file_inplace write_file_sparse append_file mkdir create_symlink
    (fun p m => try_io p (Posix.set_permissions p m))
    (fun p t n => try_io p (set_file_mtime crates p t n))
    (fun p u g => try_io p (chown p u g))
    (fun p => try_io p (Posix.remove_file p))
    (fun p => try_io p (Posix.remove_dir p))
    (fun p n v => try_io p (xattr_set crates p n v))
    (fun t l => try_io l (Posix.hard_link t l))
    (fun a b => try_io a (Posix.rename a b))
    (fun a b => try_io a (copy a b))
    UnixWriter write_file_stream write_file_inplace_stream unix_write_all unix_flush unix_drop.

End unix.
