(* ===== verification/FsSpec.v ===== *)
(** What a file system promises to the engine: an interface between the
    transfer and the implementations of the trait.

    The client names a set of paths, its [owned] paths, that lead to different
    places not below one another; [what] lies at each of them is the abstract
    state.  An operation on one of them that succeeds does what it says there,
    and leaves the others alone. *)
From S2P Require Import Prelude Wire Types Text Filter Scanner Fs.

Inductive thing := File (data : list Z) | Link (target : list Z).

Definition not_link (t : option thing) : Prop := forall target, t <> Some (Link target).

Section contracts.
  Context {S : Type} (what : S -> list Z -> option thing) (owned : list (list Z) -> S -> Prop).

(** Everything owned, except at [p], is as before. *)
Definition elsewhere (P : list (list Z)) (p : list Z) (s s' : S) : Prop :=
  forall q, q ∈ P -> q <> p -> what s' q = what s q.
Definition everywhere (P : list (list Z)) (s s' : S) : Prop := forall q, q ∈ P -> what s' q = what s q.

Definition writes_to (op : list Z -> list Z -> option Z -> method FsError S) : Prop :=
  forall P s s' p data mode, owned P s -> p ∈ P -> not_link (what s p) -> op p data mode s = (inr tt, s') ->
    owned P s' /\ what s' p = Some (File data) /\ elsewhere P p s s'.
(** Changes no contents, whatever its outcome. *)
Definition harmless (m : method FsError S) : Prop :=
  forall P s, owned P s -> owned P (m s).2 /\ everywhere P s (m s).2.


(** A writer that takes the data in pieces, until one fails. *)
Fixpoint write_pieces (F : FsOps S) (ps : list (list Z)) (w : Writer F) (s : S) : bool * (Writer F * S) :=
  match ps with
  | [] => (true, (w, s))
  | d :: ps' =>
      match writer_write_all F d w s with
      | (true, (w, s)) => write_pieces F ps' w s
      | failed => failed
      end
  end.
(** A writer that took all of the data leaves all of it when it is dropped, or,
    if it cannot be moved to its place, nothing of it. *)
Definition streams_to (F : FsOps S) (op : list Z -> option Z -> act FsError S (Writer F)) : Prop :=
  forall P s s1 s2 p mode w w' ps, owned P s -> p ∈ P -> not_link (what s p) -> op p mode s = (inr w, s1) ->
    write_pieces F ps w s1 = (true, (w', s2)) -> let s3 := writer_drop F w' s2 in
    owned P s3 /\ elsewhere P p s s3 /\ (what s3 p = what s p \/ what s3 p = Some (File (concat ps))).

End contracts.

Class FsSpec {S : Type} (F : FsOps S) := {
  what : S -> list Z -> option thing;
  owned : list (list Z) -> S -> Prop;
  owned_map_file P s p : owned P s -> p ∈ P -> not_link (what s p) ->
    forall d, map_file F s p = inr d <-> what s p = Some (File d);
  owned_write_file : writes_to what owned (write_file F);
  owned_write_file_inplace : writes_to what owned (write_file_inplace F);
  owned_write_file_sparse : writes_to what owned (write_file_sparse F);
  owned_mkdir P s s' d mode : owned P s -> mkdir F d mode s = (inr tt, s') ->
    owned P s' /\ everywhere what P s s';
  owned_create_symlink P s s' target p : owned P s -> p ∈ P -> target <> [] ->
    create_symlink F target p s = (inr tt, s') ->
    owned P s' /\ what s' p = Some (Link target) /\ elsewhere what P p s s';
  owned_set_mtime p t n : harmless what owned (set_mtime F p t n);
  owned_set_owner p u g : harmless what owned (set_owner F p u g);
  owned_set_xattr p n v : harmless what owned (set_xattr F p n v);
}.

(** What a transfer over the wire asks besides: it also goes on after an error,
    and it streams. *)
Class FsStreamSpec {S : Type} (F : FsOps S) `{!FsSpec F} := {
  owned_mkdir_any d mode : harmless what owned (mkdir F d mode);
  owned_create_symlink_any P s target p : owned P s -> p ∈ P -> let s' := (create_symlink F target p s).2 in
    owned P s' /\ elsewhere what P p s s';
  owned_write_file_stream : streams_to what owned F (write_file_stream F);
}.
