(* ===== verification/UnixSpec.v ===== *)
(** The Unix file system keeps the promises of the interface ([FsSpec.v]): its
    operations, each a sequence of system calls any of which can fail, do what
    the engine relies on. *)
From S2P Require Import Prelude Wire Types Text Utf8 Sort Filter Scanner Listing Fs Posix PosixFacts UnixFs FsSpec.

(** ** Where a path leads *)

(** The path ends in a name and does not climb. *)
Definition clean_path (p : list Z) : Prop := ends_named (split_slash [] p) /\ [46; 46] ∉ names_of p.
Definition origin (t : tree) (p : list Z) : loc := if is_absolute p then [] else t_cwd t.
Definition lies_at (t : tree) (p : list Z) : loc := origin t p ++ names_of p.
(** No symbolic link on the way. *)
Definition way (t : tree) (p : list Z) : Prop :=
  clean_path p /\ forall q r target, names_of p = q ++ r -> q <> [] -> r <> [] -> at_loc t (origin t p ++ q) <> Some (Lnk target).

Lemma no_climb p : clean_path p -> [46; 46] ∉ split_slash [] p.
Proof. intros [_ H0] H1. apply H0. unfold names_of. apply list_elem_of_filter. by split. Qed.
Lemma clean_names p : clean_path p -> exists ns w, names_of p = ns ++ [w].
Proof.
  intros [(w & Hl & Hw) _]. unfold names_of. apply last_Some in Hl as [l ->]. rewrite filter_app.
  exists (names l), w. by rewrite (filter_cons_True _ w []).
Qed.
Lemma lies_below t p : clean_path p -> lies_at t p <> [] /\ exists w, lies_at t p = removelast (lies_at t p) ++ [w].
Proof.
  intros Hp. destruct (clean_names p Hp) as (ns & w & E). unfold lies_at. rewrite E, app_assoc, removelast_last.
  split; [by destruct (origin t p ++ ns)|eauto].
Qed.
Lemma clean_nonempty p : clean_path p -> p <> [].
Proof. intros [(w & Hw & [Hn _]) _] ->. by injection Hw as <-. Qed.

Section resolve.
  Context (o : os) (p : list Z) (follow : bool).
Let t := tree_of o.

Lemma resolve_way l : way t p -> (follow = true -> forall target, at_loc t (lies_at t p) <> Some (Lnk target)) ->
  resolve o follow p = inr l -> l = lies_at t p /\ l <> [] /\ at_loc t (removelast l) = Some Dir.
Proof.
  intros [Hp Hn] Hf. unfold resolve. rewrite bool_decide_false by (by apply clean_nonempty).
  destruct (walk o follow MAX_LINKS (start o p) (split_slash [] p)) as [e|[l' k]] eqn:E; [done|]. cbn. intros [= ->].
  destruct (walk_on_way o follow MAX_LINKS (split_slash [] p) (start o p) l k) as (-> & _ & Hd); [by apply no_climb| |done|].
  - split; [intros q r target; rewrite content_tree; apply Hn|]. intros target. rewrite content_tree. intros Hl.
    split; [|apply Hp]. destruct follow; [|done]. by destruct (Hf eq_refl target).
  - destruct (lies_below t p Hp) as [H1 _]. split_and!; [done..|].
    destruct (clean_names p Hp) as (ns & w & En). fold (names_of p) in Hd |- *. rewrite En in Hd |- *.
    rewrite app_assoc, removelast_last. unfold t. rewrite <- content_tree, <- is_dir_at_content. by apply (Hd ns [w]).
Qed.

Lemma resolve_there c : tree_ok t -> clean_path p -> at_loc t (lies_at t p) = Some c ->
  (follow = true -> forall target, c <> Lnk target) -> resolve o follow p = inr (lies_at t p).
Proof.
  intros Ht Hp Hc Hf. unfold resolve. rewrite bool_decide_false by (by apply clean_nonempty).
  rewrite (walk_clear o follow MAX_LINKS (split_slash [] p) (start o p)); [done|by apply no_climb|intros _; apply Hp| |].
  - intros q r E Hr. rewrite is_dir_at_content, content_tree. eapply (dirs_below t Ht _ c q r); [|done]. by rewrite <- E.
  - intros target Hl _. destruct follow; [|done]. rewrite content_tree in Hl.
    destruct (Hf eq_refl target). change (at_loc t (lies_at t p) = Some (Lnk target)) in Hl. congruence.
Qed.
End resolve.

(** ** The name of the temporary file *)

Lemma split_slash_noslash comp a x : 47 ∉ comp -> x ∈ split_slash comp a -> 47 ∉ x.
Proof.
  revert comp. induction a as [|b a IH]; intros comp Hc; cbn [split_slash]; [by intros ->%list_elem_of_singleton|].
  destruct (Z.eqb_spec b 47) as [->|Hb].
  - intros [->|Hx]%elem_of_cons; [done|]. apply (IH []); [by apply not_elem_of_nil|done].
  - apply IH. rewrite elem_of_app, list_elem_of_singleton. by intros [|<-].
Qed.

Lemma beside p w : clean_path p -> 47 ∉ w -> named w -> w <> [46; 46] ->
  clean_path (path_join (parent_or_dot p) w) /\ is_absolute (path_join (parent_or_dot p) w) = is_absolute p /\
  names_of (path_join (parent_or_dot p) w) = removelast (names_of p) ++ [w].
Proof.
  intros Hp Hw Hn Hd. assert (Hrel : starts_with w [47] = false).
  { destruct w as [|x w]; [done|]. change (is_absolute (x :: w) = false). rewrite is_absolute_cons. apply Z.eqb_neq.
    intros <-. apply Hw. left. }
  assert (Hjoin : forall D, D <> [] -> names_of (path_join D w) = names_of D ++ [w] /\
    is_absolute (path_join D w) = is_absolute D /\ exists l, split_slash [] (path_join D w) = l ++ [w]).
  { intros D HD. unfold path_join. rewrite Hrel. destruct (exists_last HD) as (D' & x & ->). rewrite last_snoc.
    assert (Habs : forall z, is_absolute ((D' ++ [x]) ++ z) = is_absolute (D' ++ [x])).
    { intros z. destruct D' as [|y D']; cbn [app]; by rewrite !is_absolute_cons. }
    destruct (Z.eqb_spec x 47) as [->|].
    - split_and!; [|apply Habs|]; rewrite <- app_assoc; cbn [app].
      + rewrite !names_of_app, names_of_nil, app_nil_r. by rewrite (names_of_word w).
      + exists (split_slash [] D'). by rewrite split_slash_app, (split_slash_word [] w).
    - split_and!; [|apply Habs|].
      + by rewrite names_of_app, (names_of_word w).
      + exists (split_slash [] (D' ++ [x])). by rewrite split_slash_app, (split_slash_word [] w). }
  assert (Hlast : forall q l, split_slash [] q = l ++ [w] -> ends_named (split_slash [] q)).
  { intros q l ->. exists w. by rewrite last_snoc. }
  destruct Hp as [(w0 & Hl & Hw0) Hc]. unfold parent_or_dot, parent. destruct (path_split p) as [Hb|(a & v & -> & Hv)].
  - rewrite split_slash_word in Hl by done. injection Hl as <-. cbn [app] in Hw0. rewrite trim_path_bare by done.
    rewrite !bool_decide_false by (first [apply Hw0 | intros ->; apply Hb; left]). cbn [orb].
    destruct (rposition 47 p) as [i|] eqn:E. { apply rposition_Some in E as [E _]. destruct Hb. by eapply list_elem_of_lookup_2. }
    unfold path_join. rewrite Hrel. cbn [last]. rewrite (names_of_word w), (names_of_word p) by done.
    split_and!; [split| |done].
    + apply (Hlast w []). by rewrite split_slash_word.
    + rewrite names_of_word by done. by rewrite list_elem_of_singleton.
    + unfold is_absolute. rewrite Hrel. destruct p as [|x p]; [done|]. symmetry. change (is_absolute (x :: p) = false).
      rewrite is_absolute_cons. apply Z.eqb_neq. intros <-. apply Hb. left.
  - rewrite split_slash_app, (split_slash_word [] v), last_snoc in Hl by done. injection Hl as <-. cbn [app] in Hw0.
    rewrite trim_path_word by done. rewrite !bool_decide_false.
    2: { intros E. destruct a; cbn [app] in E; [|by destruct a]. injection E as ->. by destruct Hw0. }
    2: by destruct a.
    cbn [orb]. rewrite rposition_app by done.
    replace (take (S (length a)) (a ++ 47 :: v)) with (a ++ [47])
      by (rewrite (take_app_ge a) by lia; by replace (S (length a) - length a)%nat with 1%nat by lia).
    destruct (names_of_trim (a ++ [47])) as (H1 & H2 & H3). destruct (Hjoin (trim_path (a ++ [47]))) as (J1 & J2 & l & J3).
    { intros E'. apply H3 in E'. by destruct a. }
    rewrite names_of_app in Hc |- *. rewrite names_of_app, names_of_nil, app_nil_r in H1. rewrite (names_of_word v) in Hc |- * by done.
    rewrite J1, J2, H1, H2, removelast_last. split_and!; [split| |done].
    + by eapply Hlast.
    + rewrite J1, H1, elem_of_app, list_elem_of_singleton. intros [Hin|Hin]; [|by apply Hd].
      apply Hc. rewrite elem_of_app. by left.
    + destruct a as [|x a]; cbn [app]; by rewrite !is_absolute_cons.
Qed.

Definition TMP_PREFIX : list Z := str_bytes ".ferrosync.".
Definition tmp_like (w : list Z) : Prop := starts_with w TMP_PREFIX = true.

Lemma digits_noslash fuel n : 0 <= n -> 47 ∉ digits fuel n.
Proof.
  revert n. induction fuel as [|f IH]; intros n Hn; cbn [digits]; [apply not_elem_of_nil|].
  destruct (Z.ltb_spec n 10); [rewrite list_elem_of_singleton; lia|].
  rewrite elem_of_app, list_elem_of_singleton. intros [H0|H0]; [|pose proof (Z.mod_pos_bound n 10); lia].
  by apply (IH (n / 10)) in H0; [|apply Z.div_pos].
Qed.
Lemma decimal_noslash n : 47 ∉ decimal n.
Proof.
  unfold decimal. destruct (Z.ltb_spec n 0); [|by apply digits_noslash].
  apply not_elem_of_cons. split; [done|]. apply digits_noslash. lia.
Qed.
Lemma tmp_name_ok pid seq suffix : 47 ∉ str_bytes suffix ->
  (47 ∉ tmp_name pid seq suffix) /\ named (tmp_name pid seq suffix) /\ tmp_name pid seq suffix <> [46; 46] /\
  tmp_like (tmp_name pid seq suffix).
Proof.
  intros Hs. assert (Hl : tmp_like (tmp_name pid seq suffix)) by reflexivity. split_and!; [|by split|done|done].
  unfold tmp_name. change (str_bytes ".ferrosync.") with TMP_PREFIX.
  assert (Hp : (47 ∉ TMP_PREFIX) /\ (47 ∉ str_bytes ".") /\ (47 ∉ str_bytes ".tmp")).
  { split_and!; apply (bool_decide_eq_true_1 _); vm_compute; reflexivity. }
  destruct Hp as (H1 & H2 & H3). rewrite !elem_of_app. pose proof (decimal_noslash pid). pose proof (decimal_noslash seq). tauto.
Qed.

(** ** Owned paths *)

Definition no_tmp (t : tree) : Prop := forall l w c, tmp_like w -> at_loc t (l ++ [w]) = Some c -> c = Dir.

Record owns (P : list (list Z)) (t : tree) : Prop := {
  owns_ok : tree_ok t;
  owns_cwd : at_loc t (t_cwd t) = Some Dir;
  owns_no_tmp : no_tmp t;
  owns_way p : p ∈ P -> way t p;
  owns_word p l w : p ∈ P -> names_of p = l ++ [w] -> ~ tmp_like w;
  owns_plain p k : p ∈ P -> at_loc t (lies_at t p) <> Some (Other k);
  owns_apart p q : p ∈ P -> q ∈ P -> p <> q -> ~ (lies_at t p `prefix_of` lies_at t q);
  owns_inodes p q n : p ∈ P -> q ∈ P -> p <> q -> t_names t !! lies_at t p = Some n -> t_names t !! lies_at t q <> Some n;
}.

Definition thing_of (c : option content) : option thing :=
  match c with Some (Reg d) => Some (File d) | Some (Lnk target) => Some (Link target) | _ => None end.
Definition thing_at (t : tree) (p : list Z) : option thing := thing_of (at_loc t (lies_at t p)).

(** What may become of a place that is not the target of a change. *)
Definition quiet (c c' : option content) : Prop := c' = c \/ exists d d', c = Some (Reg d) /\ c' = Some (Reg d').

Lemma quiet_not_reg c c' : quiet c c' -> (forall d, c' <> Some (Reg d)) -> c' = c.
Proof. intros [->|(d & d' & _ & ->)] H0; [done|]. by destruct (H0 d'). Qed.

Lemma prefix_removelast {A} (l m : list A) : m <> [] -> ~ (l ++ m `prefix_of` l).
Proof. intros Hm [k E]. apply (f_equal length) in E. rewrite !length_app in E. destruct m; [done|]. cbn in E. lia. Qed.

Lemma lies_cwd t t' p : t_cwd t' = t_cwd t -> lies_at t' p = lies_at t p /\ origin t' p = origin t p.
Proof. unfold lies_at, origin. by intros ->. Qed.

(** One place changes, in one of the ways an owner of [P] can make it. *)
Lemma owns_change P t t' l :
  owns P t -> t_cwd t' = t_cwd t -> tree_ok t' -> at_loc t l <> Some Dir ->
  (forall l', l' <> l -> quiet (at_loc t l') (at_loc t' l') /\ t_names t' !! l' = t_names t !! l') ->
  (t_names t' !! l = t_names t !! l \/ t_names t' !! l = None \/
   exists n, t_names t' !! l = Some n /\ forall l', t_names t !! l' <> Some n) ->
  (at_loc t' l = None \/ at_loc t' l = Some Dir \/
   is_Some (thing_of (at_loc t' l)) /\ exists p, p ∈ P /\ l = lies_at t p) ->
  owns P t'.
Proof.
  intros Ho Hcwd Hok' Hl Hq Hn Hc. assert (Hlies := fun p => lies_cwd t t' p Hcwd). split.
  - done.
  - rewrite Hcwd. pose proof (owns_cwd P t Ho) as Hd. destruct (decide (t_cwd t = l)) as [<-|Hne]; [done|].
    destruct (Hq _ Hne) as [[->|(d & d' & E & _)] _]; congruence.
  - intros l0 w c Hw. destruct (decide (l0 ++ [w] = l)) as [<-|Hne].
    + destruct Hc as [->|[->|(_ & p & Hp & E)]]; [congruence..|]. intros _. exfalso.
      destruct (clean_names p) as (ns & w' & En); [by apply (owns_way P t Ho p Hp)|].
      unfold lies_at in E. rewrite En, app_assoc in E. apply app_inj_tail in E as [_ ->].
      by apply (owns_word P t Ho p ns w').
    + intros Hc'. destruct (Hq _ Hne) as [[E|(d & d' & E & _)] _].
      * apply (owns_no_tmp P t Ho l0 w c Hw). congruence.
      * by apply (owns_no_tmp P t Ho l0 w _ Hw) in E.
  - intros p Hp. destruct (owns_way P t Ho p Hp) as [H1 H2]. split; [done|]. intros q r target E Hqn Hr.
    rewrite (proj2 (Hlies p)). intros Hlnk. destruct (decide (origin t p ++ q = l)) as [<-|Hne].
    + destruct Hc as [Hc|[Hc|(_ & p' & Hp' & El)]]; [congruence..|]. destruct (decide (p' = p)) as [->|Hpp].
      * apply (prefix_removelast (origin t p ++ q) r Hr). exists []. rewrite app_nil_r. rewrite El at 1. unfold lies_at.
        by rewrite E, app_assoc.
      * apply (owns_apart P t Ho p' p Hp' Hp Hpp). rewrite <- El. exists r. unfold lies_at. by rewrite E, app_assoc.
    + destruct (Hq _ Hne) as [Hq' _].
      apply quiet_not_reg in Hq'; [|congruence]. apply (H2 q r target E Hqn Hr). congruence.
  - intros p l0 w. apply (owns_word P t Ho).
  - intros p k Hp. rewrite (proj1 (Hlies p)). destruct (decide (lies_at t p = l)) as [<-|Hne].
    + destruct Hc as [->|[->|[[x Hx] _]]]; [done..|]. intros E. by rewrite E in Hx.
    + destruct (Hq _ Hne) as [Hq' _]. intros E. apply quiet_not_reg in Hq'; [|congruence]. apply (owns_plain P t Ho p k Hp). congruence.
  - intros p q Hp Hqq Hpq. rewrite (proj1 (Hlies p)), (proj1 (Hlies q)). by apply (owns_apart P t Ho).
  - intros p q n Hp Hqq Hpq. rewrite (proj1 (Hlies p)), (proj1 (Hlies q)).
    assert (Hne : lies_at t p <> lies_at t q) by (intros E; apply (owns_apart P t Ho p q Hp Hqq Hpq); by rewrite E).
    assert (Hold : forall l', l' = l \/ t_names t' !! l' = t_names t !! l') by (intros l'; destruct (decide (l' = l)); [by left|right; by apply Hq]).
    pose proof (owns_inodes P t Ho p q n Hp Hqq Hpq) as Hi.
    destruct (Hold (lies_at t p)) as [Ep|Ep], (Hold (lies_at t q)) as [Eq|Eq].
    + congruence.
    + rewrite Eq, Ep. destruct Hn as [->|[->|(m & -> & Hm)]]; [by rewrite <- Ep|done|]. intros [= <-]. by apply Hm.
    + rewrite Ep, Eq. intros H0. destruct Hn as [->|[->|(m & -> & Hm)]]; [rewrite <- Eq; auto|done|].
      intros [= ->]. by apply (Hm (lies_at t p)).
    + by rewrite Ep, Eq.
Qed.

Definition became (P : list (list Z)) (p : list Z) (th : option thing) (t t' : tree) : Prop :=
  owns P t' /\ thing_at t' p = th /\ forall q, q ∈ P -> q <> p -> thing_at t' q = thing_at t q.

Section became.
  Context (P : list (list Z)) (t : tree) (Ho : owns P t).
Let Ht := owns_ok P t Ho.

Lemma lies_ne p q : p ∈ P -> q ∈ P -> q <> p -> lies_at t q <> lies_at t p.
Proof. intros Hp Hq Hne E. apply (owns_apart P t Ho q p Hq Hp Hne). by rewrite E. Qed.
Lemma no_name n : t_contents t !! n = None -> forall l, t_names t !! l <> Some n.
Proof. intros Hn l Hl. destruct (Ht l n Hl) as (_ & [c Hc] & _). congruence. Qed.

Lemma owns_put l n c : t_contents t !! n = None -> l <> [] -> at_loc t (removelast l) = Some Dir -> at_loc t l <> Some Dir ->
  (c = Dir \/ is_Some (thing_of (Some c)) /\ exists p, p ∈ P /\ l = lies_at t p) -> owns P (put l n c t).
Proof.
  intros Hn Hl Hp Hd Hc. apply (owns_change P t _ l); [done|done|by apply put_ok|done|..].
  - intros l' Hne. split; [left; rewrite at_put by done; by destruct (decide _)|]. cbn [put t_names]. by rewrite lookup_insert_ne.
  - right; right. exists n. split; [cbn [put t_names]; by rewrite lookup_insert_eq|by apply no_name].
  - rewrite at_put by done. destruct (decide _); [|done]. destruct Hc as [->|Hc]; [by right; left|by right; right].
Qed.

Lemma put_became p n c : p ∈ P -> t_contents t !! n = None -> lies_at t p <> [] ->
  at_loc t (removelast (lies_at t p)) = Some Dir -> at_loc t (lies_at t p) <> Some Dir -> is_Some (thing_of (Some c)) ->
  became P p (thing_of (Some c)) t (put (lies_at t p) n c t).
Proof.
  intros Hp Hn Hl Hpar Hd Hc. split; [apply owns_put; eauto 6|]. unfold thing_at. split.
  - change (lies_at (put (lies_at t p) n c t) p) with (lies_at t p). rewrite at_put by done. by destruct (decide _).
  - intros q Hq Hne. change (lies_at (put (lies_at t p) n c t) q) with (lies_at t q). rewrite at_put by done.
    destruct (decide _) as [E|]; [by destruct (lies_ne p q Hp Hq Hne)|done].
Qed.

Lemma store_became p n d0 d : p ∈ P -> t_names t !! lies_at t p = Some n -> t_contents t !! n = Some (Reg d0) ->
  became P p (Some (File d)) t (store n (Reg d) t).
Proof.
  intros Hp Hn Hc. assert (Hat := fun l' => at_store t (lies_at t p) n (Reg d) (Reg d0) l' Hn Hc).
  destruct (lies_below t p) as [Hl _]; [by apply (owns_way P t Ho p Hp)|]. split; [|unfold thing_at; split].
  - apply (owns_change P t _ (lies_at t p)); [done|done|by eapply store_ok| |..].
    + rewrite at_loc_ne, Hn by done. cbn. congruence.
    + intros l' Hne. split; [|done]. rewrite Hat. destruct (decide _) as [[Hl' E]|]; [right|by left].
      exists d0, d. split; [|done]. rewrite at_loc_ne, E by done. exact Hc.
    + by left.
    + right; right. rewrite Hat, decide_True by done. split; [by eexists|by exists p].
  - change (lies_at (store n (Reg d) t) p) with (lies_at t p). by rewrite Hat, decide_True.
  - intros q Hq Hne. change (lies_at (store n (Reg d) t) q) with (lies_at t q). rewrite Hat.
    destruct (decide _) as [[_ E]|]; [|done]. by destruct (owns_inodes P t Ho q p n Hq Hp Hne E).
Qed.

(** The file a write goes to: the one that is there, or a new one. *)
Definition target (l : loc) (n : positive) (t0 : tree) : Prop :=
  (t_names t !! l = Some n /\ (exists d, t_contents t !! n = Some (Reg d)) /\ t0 = t) \/
  (at_loc t l = None /\ l <> [] /\ at_loc t (removelast l) = Some Dir /\ t_contents t !! n = None /\ t0 = put l n (Reg []) t).

Lemma target_became p n t0 d : p ∈ P -> target (lies_at t p) n t0 -> became P p (Some (File d)) t (store n (Reg d) t0).
Proof.
  intros Hp [(Hn & [d0 Hd] & ->)|(Hno & Hl & Hpar & Hn & ->)]; [by eapply store_became|].
  rewrite store_put. apply (put_became p n (Reg d)); try done. by rewrite Hno.
Qed.
End became.

(** ** System calls and the tree *)

Lemma syscall_cases {A} (m : sys A) o :
  (exists e o1, syscall m o = (inl e, o1) /\ tree_of o1 = tree_of o) \/
  (exists o1, syscall m o = m o1 /\ tree_of o1 = tree_of o).
Proof.
  unfold syscall. destruct (os_faults o) as [|[[e k]|] fs]; [right; by exists o|left|right]; by eexists _, _ || by eexists.
Qed.

(** A call that leaves the tree alone, whatever its outcome. *)
Definition still {A E} (m : act E os A) : Prop := forall o, tree_of (m o).2 = tree_of o.
Lemma still_try_io {A} path (m : sys A) : still m -> still (try_io path m).
Proof. intros Hm o. unfold try_io. specialize (Hm o). by destruct (m o). Qed.
Lemma still_syscall {A} (m : sys A) : still m -> still (syscall m).
Proof.
  intros Hm o. destruct (syscall_cases m o) as [(e & o1 & -> & H1)|(o1 & -> & H1)]; [done|]. by rewrite Hm.
Qed.

Lemma tree_update n f o : (forall i, i_content (f i) = i_content i) -> tree_of (update_inode n f o) = tree_of o.
Proof.
  intros Hf. unfold tree_of, update_inode. cbn [set_inodes os_names os_inodes os_cwd]. f_equal. apply map_eq. intros m.
  rewrite !lookup_fmap. destruct (decide (m = n)) as [->|Hne]; [rewrite lookup_alter_eq|by rewrite lookup_alter_ne].
  destruct (os_inodes o !! n) as [i|]; [|done]. cbn. by rewrite Hf.
Qed.
Lemma tree_set_content n c c0 o : t_contents (tree_of o) !! n = Some c0 ->
  tree_of (update_inode n (set_content c) o) = store n c (tree_of o).
Proof.
  unfold tree_of, update_inode, store. cbn [set_inodes os_names os_inodes os_cwd t_names t_contents t_cwd].
  rewrite lookup_fmap. intros Hn. f_equal. apply map_eq. intros m. rewrite lookup_fmap.
  destruct (decide (m = n)) as [->|Hne]; [rewrite lookup_alter_eq, lookup_insert_eq|by rewrite lookup_alter_ne, lookup_insert_ne, lookup_fmap].
  by destruct (os_inodes o !! n) as [i|].
Qed.
Lemma tree_add_node l c perm o : tree_of (add_node l c perm o) = put l (fresh_ino o) c (tree_of o).
Proof. unfold tree_of, add_node, put. cbn [set_names set_inodes os_names os_inodes os_cwd t_names t_contents t_cwd]. by rewrite fmap_insert. Qed.
Lemma fresh_ino_new o : t_contents (tree_of o) !! fresh_ino o = None.
Proof.
  cbn [tree_of t_contents]. rewrite lookup_fmap. replace (os_inodes o !! fresh_ino o) with (@None inode); [done|].
  symmetry. apply (not_elem_of_dom_1 (D := gset positive)), (is_fresh (dom (os_inodes o) : gset positive)).
Qed.

Lemma on_inode_still path f : (forall i, i_content (f i) = i_content i) -> still (on_inode path f).
Proof.
  intros Hf. apply still_syscall. intros o. destruct (node o true path) as [e|[l c]]; [done|].
  destruct (os_names o !! l) as [n|]; [|done]. by apply tree_update.
Qed.
Lemma set_permissions_still path m : still (set_permissions path m).
Proof. by apply on_inode_still. Qed.
Lemma chown_still path u g : still (chown path u g).
Proof. by apply on_inode_still. Qed.
Lemma set_mode_still path m : still (set_mode path m).
Proof. destruct m; [apply still_try_io, set_permissions_still|done]. Qed.

Lemma file_data_tree o n d : t_contents (tree_of o) !! n = Some (Reg d) -> file_data o n = d.
Proof.
  unfold file_data. cbn [tree_of t_contents]. rewrite lookup_fmap. destruct (os_inodes o !! n) as [i|]; [|done].
  cbn. by intros [= ->].
Qed.

(** ** What the calls do *)

Lemma open_spec o p r o' : way (tree_of o) p -> not_link (thing_at (tree_of o) p) ->
  open_for_writing false p o = (r, o') ->
  match r with
  | inl _ => tree_of o' = tree_of o
  | inr f => exists n t0, target (tree_of o) (lies_at (tree_of o) p) n t0 /\ f = mkFile n 0 false /\
               tree_of o' = store n (Reg []) t0
  end.
Proof.
  intros Hw Hl. unfold open_for_writing.
  destruct (syscall_cases (fun o => match resolve o true p with
    | inl e => (inl e, o)
    | inr l => match content_at o l with
        | Some (Reg _) => match os_names o !! l with
            | Some n => (inr (mkFile n 0 false), update_inode n (set_content (Reg [])) o)
            | None => (inl ENoent, o)
            end
        | Some _ => (inl EOther, o)
        | None => (inr (mkFile (fresh_ino o) 0 false), add_node l (Reg []) (Z.ldiff 0x1B6 (os_umask o)) o)
        end
    end) o) as [(e & o1 & -> & H1)|(o1 & -> & H1)]; [by intros [= <- <-]|]. rewrite <- H1 in *. clear o H1. rename o1 into o.
  destruct (resolve o true p) as [e|l] eqn:E; [by intros [= <- <-]|].
  apply resolve_way in E as (-> & Hne & Hpar); [|done|].
  2: { intros _ tg Hlt. apply (Hl tg). unfold thing_at. by rewrite Hlt. }
  rewrite content_tree. destruct (at_loc (tree_of o) (lies_at (tree_of o) p)) as [[d| |tg|k]|] eqn:E; try by intros [= <- <-].
  - destruct (os_names o !! lies_at (tree_of o) p) as [n|] eqn:En; [|by intros [= <- <-]]. intros [= <- <-].
    rewrite at_loc_ne in E by done. cbn [tree_of t_names] in E. rewrite En in E. cbn in E.
    exists n, (tree_of o). split; [left; eauto|]. split; [done|]. by eapply tree_set_content.
  - intros [= <- <-]. exists (fresh_ino o), (put (lies_at (tree_of o) p) (fresh_ino o) (Reg []) (tree_of o)).
    split; [right; split_and!; try done; apply fresh_ino_new|]. split; [done|]. rewrite store_put. apply tree_add_node.
Qed.

Lemma write_spec o n pos d t0 data r f' o' : tree_of o = store n (Reg d) t0 ->
  file_write_all data (mkFile n pos false) o = (r, (f', o')) -> exists written rest,
  data = written ++ rest /\ (r = None -> rest = []) /\
  tree_of o' = store n (Reg (overwrite d pos written)) t0 /\ f' = mkFile n (pos + length written) false.
Proof.
  intros Ho. assert (Hat : forall dat o1, tree_of o1 = store n (Reg d) t0 ->
    write_at (mkFile n pos false) dat o1 = (mkFile n (pos + length dat) false, (write_at (mkFile n pos false) dat o1).2) /\
    tree_of (write_at (mkFile n pos false) dat o1).2 = store n (Reg (overwrite d pos dat)) t0).
  { intros dat o1 E. split; [done|]. unfold write_at. cbn [f_ino f_pos f_append snd].
    assert (Hn : t_contents (tree_of o1) !! n = Some (Reg d)) by (rewrite E; cbn [store t_contents]; by rewrite lookup_insert_eq).
    rewrite (file_data_tree o1 n d Hn), (tree_set_content n _ (Reg d)), E by done. by rewrite store_store. }
  unfold file_write_all. destruct (os_faults o) as [|[[e k]|] fs].
  - destruct (Hat data o Ho) as [-> E]. intros [= <- <- <-]. exists data, []. by rewrite app_nil_r.
  - destruct (Hat (take k data) (Posix.set_faults fs o) Ho) as [-> E]. intros [= <- <- <-].
    exists (take k data), (drop k data). by rewrite take_drop.
  - destruct (Hat data (Posix.set_faults fs o) Ho) as [-> E]. intros [= <- <- <-]. exists data, []. by rewrite app_nil_r.
Qed.

Lemma overwrite_empty d : overwrite [] 0 d = d.
Proof. unfold overwrite. cbn [take length Nat.sub replicate app]. by rewrite drop_nil, app_nil_r. Qed.

(** [std::fs::write]: whatever the outcome, all of the data or some. *)
Lemma fs_write_spec o p data r o' : way (tree_of o) p -> not_link (thing_at (tree_of o) p) -> write p data o = (r, o') ->
  (exists e, r = inl e /\ tree_of o' = tree_of o) \/
  exists n t0 d, target (tree_of o) (lies_at (tree_of o) p) n t0 /\ tree_of o' = store n (Reg d) t0 /\ (r = inr tt -> d = data).
Proof.
  intros Hw Hl. unfold write. destruct (open_for_writing false p o) as [r1 o1] eqn:E1.
  apply (open_spec o p r1 o1 Hw Hl) in E1. destruct r1 as [e|f]; [intros [= <- <-]; left; by exists e|].
  destruct E1 as (n & t0 & Ht & -> & E1). destruct (file_write_all data (mkFile n 0 false) o1) as [r2 [f2 o2]] eqn:E2.
  destruct (write_spec _ _ _ _ _ _ _ _ _ E1 E2) as (w & rest & -> & Hd & E3 & _). rewrite overwrite_empty in E3. intros H0. right. exists n, t0, w.
  destruct r2 as [e|]; injection H0 as <- <-; split_and!; try done. intros _. by rewrite (Hd eq_refl), app_nil_r.
Qed.

Lemma rename_spec o a b r o' d : way (tree_of o) a -> way (tree_of o) b ->
  at_loc (tree_of o) (lies_at (tree_of o) a) = Some (Reg d) -> Posix.rename a b o = (r, o') ->
  tree_of o' = tree_of o /\ (r = inr tt -> t_names (tree_of o) !! lies_at (tree_of o) b = t_names (tree_of o) !! lies_at (tree_of o) a) \/
  exists n, r = inr tt /\ t_names (tree_of o) !! lies_at (tree_of o) a = Some n /\
    lies_at (tree_of o) b <> [] /\ at_loc (tree_of o) (removelast (lies_at (tree_of o) b)) = Some Dir /\
    at_loc (tree_of o) (lies_at (tree_of o) b) <> Some Dir /\
    tree_of o' = mkTree (<[lies_at (tree_of o) b := n]> (delete (lies_at (tree_of o) a) (os_names o)))
      (t_contents (tree_of o)) (os_cwd o).
Proof.
  intros Ha Hb Hd. unfold Posix.rename.
  match goal with |- syscall ?m o = _ -> _ => destruct (syscall_cases m o) as [(e & o1 & -> & H1)|(o1 & -> & H1)] end;
    [intros [= <- <-]; by left|].
  assert (Hn : os_names o1 = os_names o) by exact (f_equal t_names H1).
  assert (Hc : os_cwd o1 = os_cwd o) by exact (f_equal t_cwd H1).
  rewrite <- H1 in *. rewrite <- Hn, <- Hc. clear o H1 Hn Hc. rename o1 into o.
  unfold node. destruct (resolve o false a) as [e|l] eqn:Ea; [intros [= <- <-]; by left|]. cbn [mbind sum_bind].
  apply resolve_way in Ea as (-> & Hane & _); [|done|done].
  destruct (content_at o (lies_at (tree_of o) a)) as [c|] eqn:Ec; [|intros [= <- <-]; by left].
  rewrite content_tree in Ec. rewrite Hd in Ec. injection Ec as <-.
  destruct (resolve o false b) as [e|l] eqn:Eb; [intros [= <- <-]; by left|]. cbn [mbind sum_bind].
  apply resolve_way in Eb as (-> & Hbne & Hbp); [|done|done].
  destruct (os_names o !! lies_at (tree_of o) a) as [n|] eqn:En; [|intros [= <- <-]; by left].
  case_bool_decide as Es.
  { intros [= <- <-]. left. split; [done|]. intros _. cbn [tree_of t_names]. congruence. }
  rewrite content_tree. destruct (at_loc (tree_of o) (lies_at (tree_of o) b)) as [[]|] eqn:Eat;
    intros [= <- <-]; first [by left|right; exists n; split_and!; try done].
Qed.

(** ** [write_file] *)

Lemma way_put t p l n d : tree_ok t -> t_contents t !! n = None -> l <> [] -> way t p -> way (put l n (Reg d) t) p.
Proof.
  intros Ht Hn Hl [H1 H2]. split; [done|]. intros q r tg E Hq Hr. change (origin (put l n (Reg d) t) p) with (origin t p).
  rewrite at_put by done. destruct (decide _); [done|]. by apply (H2 q r tg).
Qed.

(** The temporary file of an owned path: beside it, and not there yet. *)
Definition tmp_at (t : tree) (p tmp_path : list Z) : Prop :=
  way t tmp_path /\ tmp_path <> [] /\ (forall n t0, target t (lies_at t tmp_path) n t0 ->
    at_loc t (lies_at t tmp_path) = None /\ t_contents t !! n = None /\ t0 = put (lies_at t tmp_path) n (Reg []) t) /\
  not_link (thing_at t tmp_path).

Lemma tmp_place P t p w : owns P t -> p ∈ P -> 47 ∉ w -> named w -> w <> [46; 46] -> tmp_like w ->
  tmp_at t p (path_join (parent_or_dot p) w) /\
  forall q, q ∈ P -> lies_at t q <> lies_at t (path_join (parent_or_dot p) w).
Proof.
  intros Ho Hp Hs Hn Hd Hw. destruct (owns_way P t Ho p Hp) as [Hc Hl].
  destruct (beside p w Hc Hs Hn Hd) as (Ht & Ha & He). set (tp := path_join (parent_or_dot p) w) in *. clearbody tp.
  assert (Hor : origin t tp = origin t p) by (unfold origin; by rewrite Ha).
  assert (Hlie : lies_at t tp = (origin t p ++ removelast (names_of p)) ++ [w]).
  { unfold lies_at. by rewrite Hor, He, app_assoc. }
  destruct (clean_names p Hc) as (ns & w0 & Ens). rewrite Ens, removelast_last in He, Hlie.
  assert (Htmp := owns_no_tmp P t Ho (origin t p ++ ns) w). split.
  - split; [split; [done|]|split; [by apply clean_nonempty|]].
    + intros q r tg E Hq Hr. rewrite Hor. rewrite He in E. destruct (exists_last Hr) as (r' & x & ->).
      rewrite app_assoc in E. apply app_inj_tail in E as [E _]. apply (Hl q (r' ++ [w0]) tg); [|done|by destruct r'].
      rewrite Ens, E. by rewrite app_assoc.
    + rewrite Hlie. split.
      * intros n t0 [(H1 & [d H2] & _)|(H1 & _ & _ & H2 & ->)]; [|done]. exfalso.
        assert (H3 : Reg d = Dir); [|done]. apply Htmp; [done|]. rewrite at_loc_ne, H1 by (by destruct (origin t p ++ ns)). exact H2.
      * unfold thing_at. rewrite Hlie. intros tg. destruct (at_loc t _) as [c|] eqn:E; [|done].
        by rewrite (Htmp c Hw eq_refl).
  - intros q Hq E. destruct (owns_way P t Ho q Hq) as [Hcq _]. destruct (clean_names q Hcq) as (nsq & wq & Eq).
    rewrite Hlie in E. unfold lies_at in E. rewrite Eq, app_assoc in E. apply app_inj_tail in E as [_ ->].
    by apply (owns_word P t Ho q nsq w).
Qed.

Section write_file.
  Context (P : list (list Z)) (p data : list Z) (mode : option Z) (o : os).
  Context (Ho : owns P (tree_of o)) (Hp : p ∈ P).
Let t := tree_of o.

Definition as_before (o' : os) : Prop := forall q, q ∈ P -> thing_at (tree_of o') q = thing_at t q.

Lemma as_before_tmp tp n d o' : (forall q, q ∈ P -> lies_at t q <> lies_at t tp) -> t_contents t !! n = None ->
  lies_at t tp <> [] -> tree_of o' = put (lies_at t tp) n (Reg d) t -> as_before o'.
Proof.
  intros Hne Hn Hl E q Hq. rewrite E. unfold thing_at. change (lies_at (put _ _ _ _) q) with (lies_at t q).
  rewrite at_put; [|apply (owns_ok P t Ho)|done..]. destruct (decide _) as [Eq|]; [|done]. by destruct (Hne q Hq).
Qed.

Lemma rename_tmp tp n d o1 r o' : tmp_at t p tp -> (forall q, q ∈ P -> lies_at t q <> lies_at t tp) ->
  at_loc t (lies_at t tp) = None -> t_contents t !! n = None -> tree_of o1 = put (lies_at t tp) n (Reg d) t ->
  Posix.rename tp p o1 = (r, o') ->
  (r = inr tt /\ became P p (Some (File d)) t (tree_of o')) \/ (exists e, r = inl e) /\ tree_of o' = tree_of o1.
Proof.
  intros (Hw & _ & _) Hne Hno Hn E Hr. assert (Ht := owns_ok P t Ho). assert (Hwp := owns_way P t Ho p Hp).
  destruct (lies_below t tp (proj1 Hw)) as [Hl _]. destruct (lies_below t p (proj1 Hwp)) as [Hlp _].
  assert (Hlie : forall q, lies_at (tree_of o1) q = lies_at t q) by (intros q; by rewrite E).
  assert (Hat : forall l, at_loc (tree_of o1) l = if decide (l = lies_at t tp) then Some (Reg d) else at_loc t l)
    by (intros l; by rewrite E, at_put).
  apply (rename_spec _ _ _ _ _ d) in Hr;
    [|rewrite E; by apply way_put..|by rewrite Hlie, Hat, decide_True]. rewrite !Hlie in Hr.
  destruct Hr as [[Hs Hr]|(m & -> & Hm & _ & Hpar & Hd & E')].
  - right. split; [|done]. destruct r as [e|[]]; [by exists e|]. exfalso.
    specialize (Hr eq_refl). rewrite E in Hr. cbn [put t_names] in Hr.
    rewrite lookup_insert_eq, lookup_insert_ne in Hr by (by apply not_eq_sym, Hne). by apply (no_name P t Ho n Hn (lies_at t p)).
  - left. split; [done|]. rewrite E in Hm. cbn [put t_names] in Hm. rewrite lookup_insert_eq in Hm. injection Hm as <-.
    assert (Hnone : t_names t !! lies_at t tp = None) by (by apply (at_loc_none t _ Ht)).
    assert (E'' : tree_of o' = put (lies_at t p) n (Reg d) t).
    { rewrite E'. change (os_names o1) with (t_names (tree_of o1)). change (os_cwd o1) with (t_cwd (tree_of o1)).
      rewrite E. unfold put. cbn [t_names t_contents t_cwd]. by rewrite delete_insert_id. }
    rewrite E''. rewrite Hat in Hd, Hpar. destruct (decide (lies_at t p = lies_at t tp)) as [Eq|_]; [by destruct (Hne p Hp)|].
    destruct (decide (removelast (lies_at t p) = lies_at t tp)) as [|_]; [done|].
    by apply (put_became P t Ho p n (Reg d)).
Qed.

Lemma write_file_cases r o' : UnixFs.write_file p data mode o = (r, o') ->
  (r = inr tt /\ became P p (Some (File data)) t (tree_of o')) \/ (exists e, r = inl e) /\ as_before o'.
Proof.
  unfold UnixFs.write_file, unique_tmp_name. destruct (tmp_name_ok (os_pid o) (os_counter o) "") as (W1 & W2 & W3 & W4);
    [apply not_elem_of_nil|].
  destruct (tmp_place P t p _ Ho Hp W1 W2 W3 W4) as [Htmp Hne]. set (tp := path_join _ _) in *. clearbody tp.
  set (oc := set_counter _ o). assert (Hoc : tree_of oc = t) by done. clearbody oc.
  unfold mbind, act_bind, try_io. destruct (write tp data oc) as [r1 o1] eqn:E1. pose proof Htmp as (Hw & Htn & Htt & Hnl).
  apply fs_write_spec in E1; [|by rewrite Hoc..]. rewrite Hoc in E1.
  destruct E1 as [(e & -> & E1)|(n & t0 & d & Htgt & E1 & Hd)].
  { cbn. intros [= <- <-]. right. split; [by eexists|]. intros q _. by rewrite E1. }
  destruct (Htt n t0 Htgt) as (Hnone & Hn & ->). rewrite store_put in E1.
  destruct (lies_below t tp (proj1 Hw)) as [Hl _].
  destruct r1 as [e|[]]; cbn [io lift_err].
  { intros [= <- <-]. right. split; [by eexists|]. by eapply as_before_tmp. }
  rewrite (Hd eq_refl) in E1. pose proof (set_mode_still tp mode o1) as Hsm.
  destruct (set_mode tp mode o1) as [[e|[]] o2]; cbn [snd] in Hsm; rewrite E1 in Hsm.
  { intros [= <- <-]. right. split; [by eexists|]. by eapply as_before_tmp. }
  destruct (Posix.rename tp p o2) as [r3 o3] eqn:E3.
  destruct (rename_tmp tp n data o2 r3 o3 Htmp Hne Hnone Hn Hsm E3) as [[-> Hb]|[[e ->] Hb]]; intros [= <- <-];
    [by left|right; split; [by eexists|]]. rewrite Hsm in Hb. by eapply as_before_tmp.
Qed.
End write_file.

(** ** Writing in place *)

Lemma became_elsewhere P p th o o' t' : tree_of o' = t' -> became P p th (tree_of o) t' ->
  owns P (tree_of o') /\ thing_at (tree_of o') p = th /\ elsewhere (fun o => thing_at (tree_of o)) P p o o'.
Proof. by intros <-. Qed.

Lemma write_all_spec o n pos d t0 path data r o' : tree_of o = store n (Reg d) t0 ->
  UnixFs.write_all path data (mkFile n pos false) o = (inr r, o') ->
  r = mkFile n (pos + length data) false /\ tree_of o' = store n (Reg (overwrite d pos data)) t0.
Proof.
  intros E. unfold UnixFs.write_all. destruct (file_write_all data (mkFile n pos false) o) as [r1 [f1 o1]] eqn:E1.
  destruct (write_spec _ _ _ _ _ _ _ _ _ E E1) as (w & rest & -> & Hw & E2 & ->). destruct r1; [done|]. intros [= <- <-].
  by rewrite (Hw eq_refl), app_nil_r.
Qed.

Lemma set_mode_inr path mode o o' : set_mode path mode o = (inr tt, o') -> tree_of o' = tree_of o.
Proof. intros E. rewrite <- (set_mode_still path mode o), E. done. Qed.

Lemma write_file_inplace_writes : writes_to (fun o => thing_at (tree_of o)) (fun P o => owns P (tree_of o)) UnixFs.write_file_inplace.
Proof.
  intros P o o' p data mode Ho Hp Hl. unfold UnixFs.write_file_inplace, mbind, act_bind, try_io.
  destruct (open_for_writing false p o) as [r1 o1] eqn:E1. apply open_spec in E1; [|by apply (owns_way P _ Ho)|done].
  destruct r1 as [e|f]; [done|]. cbn [io lift_err]. destruct E1 as (n & t0 & Ht & -> & E1).
  destruct (UnixFs.write_all p data (mkFile n 0 false) o1) as [[e|f] o2] eqn:E2; [done|].
  apply (write_all_spec _ _ _ _ _ _ _ _ _ E1) in E2 as [_ E2]. rewrite overwrite_empty in E2.
  intros E3. apply set_mode_inr in E3. rewrite E2 in E3. eapply became_elsewhere; [exact E3|]. by apply target_became.
Qed.

(** What is in the file after some blocks: those, without the zeros at the
    end that were skipped. *)
Definition sparsely (d pre : list Z) : Prop := d ++ replicate (length pre - length d) 0 = pre.
Lemma sparsely_length d pre : sparsely d pre -> (length d <= length pre)%nat.
Proof. intros E. apply (f_equal length) in E. rewrite length_app, length_replicate in E. lia. Qed.
Lemma sparsely_skip d pre block : sparsely d pre -> forallb (fun b => b =? 0) block = true -> sparsely d (pre ++ block).
Proof.
  intros Hd Hb. pose proof (sparsely_length d pre Hd) as Hl.
  assert (Hz : block = replicate (length block) 0).
  { clear -Hb. induction block as [|b block IH]; [done|]. cbn [forallb] in Hb. apply andb_true_iff in Hb as [Hb1 Hb2].
    apply Z.eqb_eq in Hb1 as ->. cbn [length replicate]. f_equal. by apply IH. }
  unfold sparsely. rewrite length_app. replace (length pre + length block - length d)%nat
    with ((length pre - length d) + length block)%nat by lia. by rewrite replicate_add, app_assoc, Hd, <- Hz.
Qed.
Lemma sparsely_write d pre block : sparsely d pre -> overwrite d (length pre) block = pre ++ block.
Proof.
  intros Hd. pose proof (sparsely_length d pre Hd) as Hl. unfold overwrite. rewrite take_ge, drop_ge by lia.
  rewrite app_nil_r, app_assoc. f_equal. exact Hd.
Qed.
Lemma sparsely_refl d : sparsely d d.
Proof. unfold sparsely. by rewrite Nat.sub_diag, app_nil_r. Qed.

Lemma write_sparse_spec path fuel : forall data o n d pre t0 r o', (length data <= fuel)%nat -> sparsely d pre ->
  tree_of o = store n (Reg d) t0 -> write_sparse fuel path data (mkFile n (length pre) false) o = (inr r, o') ->
  exists d', sparsely d' (pre ++ data) /\ f_ino r = n /\ tree_of o' = store n (Reg d') t0.
Proof.
  induction fuel as [|fuel IH]; intros data o n d pre t0 r o' Hf Hd E.
  { destruct data; [|cbn in Hf; lia]. intros [= <- <-]. exists d. by rewrite app_nil_r. }
  destruct data as [|b data]; [intros [= <- <-]; exists d; by rewrite app_nil_r|].
  set (dat := b :: data) in *. change (write_sparse (S fuel) path dat) with
    (fun f => f ← (if forallb (fun b => b =? 0) (take SPARSE_BLOCK dat) then mret (file_seek (length (take SPARSE_BLOCK dat)) f)
                   else UnixFs.write_all path (take SPARSE_BLOCK dat) f);
              write_sparse fuel path (drop SPARSE_BLOCK dat) f).
  assert (Hf' : (length (drop SPARSE_BLOCK dat) <= fuel)%nat) by (rewrite length_drop; unfold SPARSE_BLOCK; subst dat; cbn [length] in *; lia).
  assert (Hpre : pre ++ dat = (pre ++ take SPARSE_BLOCK dat) ++ drop SPARSE_BLOCK dat) by (by rewrite <- app_assoc, take_drop).
  rewrite Hpre. cbv beta. unfold mbind, act_bind at 1.
  set (block := take SPARSE_BLOCK dat) in *. set (rest := drop SPARSE_BLOCK dat) in *. clearbody block rest dat.
  destruct (forallb _ block) eqn:Ez.
  - unfold mret, act_ret, file_seek. cbn [f_ino f_pos f_append]. rewrite <- length_app.
    by apply (IH rest o n d); [|apply sparsely_skip|].
  - destruct (UnixFs.write_all path block (mkFile n (length pre) false) o) as [[e|f] o1] eqn:E1; [done|].
    apply (write_all_spec _ _ _ _ _ _ _ _ _ E) in E1 as [-> E1]. rewrite (sparsely_write d pre block Hd) in E1.
    rewrite <- length_app. by apply (IH rest o1 n (pre ++ block)); [|apply sparsely_refl|].
Qed.

Lemma write_file_sparse_writes : writes_to (fun o => thing_at (tree_of o)) (fun P o => owns P (tree_of o)) UnixFs.write_file_sparse.
Proof.
  intros P o o' p data mode Ho Hp Hl. unfold UnixFs.write_file_sparse. unfold mbind, act_bind at 1, try_io at 1.
  destruct (open_for_writing false p o) as [r1 o1] eqn:E1. apply open_spec in E1; [|by apply (owns_way P _ Ho)|done].
  destruct r1 as [e|f]; [done|]. cbn [io lift_err]. destruct E1 as (n & t0 & Ht & -> & E1).
  unfold act_bind at 1. destruct (write_sparse (length data) p data (mkFile n 0 false) o1) as [[e|f] o2] eqn:E2; [done|].
  apply (write_sparse_spec p (length data) data o1 n [] [] t0) in E2 as (d & Hd & <- & E2); [|done|apply sparsely_refl|done].
  cbn [app] in Hd. unfold act_bind. case_bool_decide as Hnil.
  - unfold mret, act_ret. intros E3. apply set_mode_inr in E3. subst data.
    assert (d = []) as -> by (destruct d; [done|by apply app_eq_nil in Hd as []]).
    rewrite E2 in E3. eapply became_elsewhere; [exact E3|]. by apply target_became.
  - unfold try_io, file_set_len. match goal with |- context [syscall ?m o2] =>
      destruct (syscall_cases m o2) as [(e & o3 & -> & E3)|(o3 & -> & E3)] end; [done|]. cbn [sys_put io lift_err].
    intros E4. apply set_mode_inr in E4. rewrite E2 in E3.
    assert (Hn : t_contents (tree_of o3) !! f_ino f = Some (Reg d)) by (rewrite E3; cbn [store t_contents]; by rewrite lookup_insert_eq).
    rewrite (file_data_tree o3 _ d Hn), (tree_set_content _ _ (Reg d)) in E4 by done.
    rewrite take_ge in E4 by (by apply sparsely_length). unfold sparsely in Hd. rewrite Hd, E3, store_store in E4.
    eapply became_elsewhere; [exact E4|]. by apply target_became.
Qed.

(** ** Links, directories, and reading *)

Lemma remove_file_spec o p r o' : way (tree_of o) p -> Posix.remove_file p o = (r, o') ->
  match r with
  | inl _ => tree_of o' = tree_of o
  | inr _ => at_loc (tree_of o) (lies_at (tree_of o) p) <> Some Dir /\ tree_of o' = del (lies_at (tree_of o) p) (tree_of o)
  end.
Proof.
  intros Hw. unfold Posix.remove_file.
  match goal with |- syscall ?m o = _ -> _ => destruct (syscall_cases m o) as [(e & o1 & -> & H1)|(o1 & -> & H1)] end;
    [by intros [= <- <-]|]. rewrite <- H1 in *. clear o H1. rename o1 into o.
  unfold node. destruct (resolve o false p) as [e|l] eqn:E; [by intros [= <- <-]|]. cbn [mbind sum_bind].
  apply resolve_way in E as (-> & _ & _); [|done|done]. rewrite content_tree.
  destruct (at_loc (tree_of o) (lies_at (tree_of o) p)) as [[]|]; intros [= <- <-]; done.
Qed.

Lemma symlink_spec o p tg r o' : way (tree_of o) p -> symlink tg p o = (r, o') ->
  match r with
  | inl _ => tree_of o' = tree_of o
  | inr _ => exists n, at_loc (tree_of o) (lies_at (tree_of o) p) = None /\
      at_loc (tree_of o) (removelast (lies_at (tree_of o) p)) = Some Dir /\ t_contents (tree_of o) !! n = None /\
      tree_of o' = put (lies_at (tree_of o) p) n (Lnk tg) (tree_of o)
  end.
Proof.
  intros Hw. unfold symlink.
  match goal with |- syscall ?m o = _ -> _ => destruct (syscall_cases m o) as [(e & o1 & -> & H1)|(o1 & -> & H1)] end;
    [by intros [= <- <-]|]. rewrite <- H1 in *. clear o H1. rename o1 into o.
  destruct (resolve o false p) as [e|l] eqn:E; [by intros [= <- <-]|].
  apply resolve_way in E as (-> & Hne & Hpar); [|done|done]. rewrite content_tree.
  destruct (at_loc (tree_of o) (lies_at (tree_of o) p)) as [c|] eqn:Ec; [by intros [= <- <-]|].
  case_bool_decide; intros [= <- <-]; [done|]. exists (fresh_ino o). split_and!; try done; [apply fresh_ino_new|apply tree_add_node].
Qed.

Lemma create_symlink_links P o o' tg p : owns P (tree_of o) -> p ∈ P -> UnixFs.create_symlink tg p o = (inr tt, o') ->
  became P p (Some (Link tg)) (tree_of o) (tree_of o').
Proof.
  intros Ho Hp. assert (Hw := owns_way P _ Ho p Hp). destruct (lies_below (tree_of o) p (proj1 Hw)) as [Hl _].
  unfold UnixFs.create_symlink, mbind, act_bind.
  set (m := match symlink_metadata o p with inr _ => _ | inl _ => _ end). destruct (m o) as [[e|[]] o1] eqn:E1; [done|].
  unfold try_io. destruct (symlink tg p o1) as [[e|[]] o2] eqn:E2; [done|]. intros [= <-].
  assert (H1 : tree_of o1 = tree_of o \/
    at_loc (tree_of o) (lies_at (tree_of o) p) <> Some Dir /\ tree_of o1 = del (lies_at (tree_of o) p) (tree_of o)).
  { revert E1. unfold m. destruct (symlink_metadata o p); [by intros [= <-]; left|]. unfold try_io.
    destruct (Posix.remove_file p o) as [[e|[]] o3] eqn:E3; [done|]. intros [= <-]. right. by apply remove_file_spec in E3. }
  assert (Hw1 : way (tree_of o1) p).
  { destruct H1 as [->|[_ ->]]; [done|]. destruct Hw as [Hc Hn]. split; [done|]. intros q r t0 E Hq Hr.
    change (origin (del _ _) p) with (origin (tree_of o) p). rewrite at_del by done. destruct (decide _); [done|]. by apply (Hn q r t0). }
  apply symlink_spec in E2 as (n & Hno & Hpar & Hn & E2); [|done].
  assert (Hd : at_loc (tree_of o) (lies_at (tree_of o) p) <> Some Dir).
  { destruct H1 as [H1|[Hd _]]; [|done]. by rewrite <- H1, Hno. }
  assert (Hres : tree_of o2 = put (lies_at (tree_of o) p) n (Lnk tg) (tree_of o) /\ t_contents (tree_of o) !! n = None /\
    at_loc (tree_of o) (removelast (lies_at (tree_of o) p)) = Some Dir).
  { destruct H1 as [H1|[_ H1]]; rewrite H1 in *; [done|]. change (lies_at (del _ _) p) with (lies_at (tree_of o) p) in *.
    rewrite at_del in Hpar by done. destruct (decide _); [done|]. by rewrite put_del in E2. }
  destruct Hres as (-> & Hn' & Hpar'). by apply (put_became P (tree_of o) Ho p n (Lnk tg)).
Qed.

(** Directories may appear, where there was nothing. *)
Definition grown (P : list (list Z)) (o o' : os) : Prop :=
  owns P (tree_of o') /\ forall q, q ∈ P -> thing_at (tree_of o') q = thing_at (tree_of o) q.
Lemma grown_still P o o' : owns P (tree_of o) -> tree_of o' = tree_of o -> grown P o o'.
Proof. unfold grown. by intros Ho ->. Qed.
Lemma grown_trans P o o1 o2 : grown P o o1 -> grown P o1 o2 -> grown P o o2.
Proof. intros [_ H1] [H2 H3]. split; [done|]. intros q Hq. by rewrite H3, H1. Qed.

Lemma mkdir_grown P p o : owns P (tree_of o) -> grown P o (Posix.mkdir p o).2.
Proof.
  intros Ho. unfold Posix.mkdir.
  match goal with |- grown _ _ (syscall ?m o).2 => destruct (syscall_cases m o) as [(e & o1 & -> & H1)|(o1 & -> & H1)] end;
    [by apply grown_still|].
  eapply grown_trans; [by apply grown_still|]. rewrite <- H1 in Ho. clear o H1. rename o1 into o.
  destruct (resolve o false (strip_slashes p)) as [e|l] eqn:E; [by apply grown_still|].
  destruct (content_at o l) as [c|] eqn:Ec; [by apply grown_still|]. assert (Ht := owns_ok P _ Ho).
  assert (Hr : reachable o l).
  { unfold resolve in E. case_bool_decide; [done|].
    destruct (walk o false MAX_LINKS (start o (strip_slashes p)) (split_slash [] (strip_slashes p))) as [e|[l0 k0]] eqn:Ew;
      [done|]. injection E as ->. eapply walk_reachable; [| |exact Ew].
    - intros l0. rewrite !is_dir_at_content, !content_tree. by apply dirs_up.
    - left. rewrite is_dir_at_content, content_tree. unfold start. destruct (is_absolute _); [done|]. apply (owns_cwd P _ Ho). }
  rewrite content_tree in Ec. destruct Hr as [Hr|[Hl Hr]]; rewrite is_dir_at_content, content_tree in Hr; [congruence|].
  unfold grown. cbn [snd]. rewrite tree_add_node. pose proof (fresh_ino_new o) as Hn. split.
  - apply owns_put; try done; [congruence|by left].
  - intros q Hq. unfold thing_at. change (lies_at (put _ _ _ _) q) with (lies_at (tree_of o) q). rewrite at_put by done.
    destruct (decide _) as [E'|]; [|done]. by rewrite E', Ec.
Qed.

Lemma create_dir_all_grown P fuel : forall p o, owns P (tree_of o) -> grown P o (create_dir_all_within fuel p o).2.
Proof.
  induction fuel as [|fuel IH]; intros p o Ho; cbn [create_dir_all_within]; [by apply grown_still|].
  case_bool_decide; [by apply grown_still|]. pose proof (mkdir_grown P p o Ho) as H1.
  destruct (Posix.mkdir p o) as [r1 o1]. cbn [snd] in H1. destruct r1 as [[]|]; [|by destruct (is_dir o1 p)..|done].
  destruct (parent p) as [d|]; [|done]. pose proof (IH d o1 (proj1 H1)) as H2.
  destruct (create_dir_all_within fuel d o1) as [r2 o2]. cbn [snd] in H2. apply (grown_trans _ _ _ _ H1) in H2.
  destruct r2; [done|]. pose proof (mkdir_grown P p o2 (proj1 H2)) as H3.
  destruct (Posix.mkdir p o2) as [r3 o3]. cbn [snd] in H3. apply (grown_trans _ _ _ _ H2) in H3.
  destruct r3; [by destruct (is_dir o3 p)|done].
Qed.

Lemma node_owned P o p : owns P (tree_of o) -> p ∈ P -> not_link (thing_at (tree_of o) p) ->
  match at_loc (tree_of o) (lies_at (tree_of o) p) with
  | Some c => node o true p = inr (lies_at (tree_of o) p, c)
  | None => exists e, node o true p = inl e
  end.
Proof.
  intros Ho Hp Hl. unfold node. assert (Hw := owns_way P _ Ho p Hp).
  assert (Hnl : forall tg, at_loc (tree_of o) (lies_at (tree_of o) p) <> Some (Lnk tg))
    by (intros tg E; apply (Hl tg); unfold thing_at; by rewrite E).
  destruct (at_loc (tree_of o) (lies_at (tree_of o) p)) as [c|] eqn:E.
  - rewrite (resolve_there o p true c); [|apply (owns_ok P _ Ho)|apply Hw|done|intros _ tg ->; by apply (Hnl tg)].
    cbn [mbind sum_bind]. by rewrite content_tree, E.
  - destruct (resolve o true p) as [e|l] eqn:Er; [by exists e|]. cbn [mbind sum_bind].
    apply resolve_way in Er as (-> & _); [|done|by intros _ tg; rewrite E]. rewrite content_tree, E. by eexists.
Qed.

Lemma map_file_owned P o p : owns P (tree_of o) -> p ∈ P -> not_link (thing_at (tree_of o) p) ->
  forall d, UnixFs.map_file o p = inr d <-> thing_at (tree_of o) p = Some (File d).
Proof.
  intros Ho Hp Hl d. pose proof (node_owned P o p Ho Hp Hl) as Hnode. pose proof (owns_plain P _ Ho p) as Hpl.
  unfold thing_at, not_link in *. unfold UnixFs.map_file, metadata, read.
  destruct (at_loc (tree_of o) (lies_at (tree_of o) p)) as [c|] eqn:E.
  2: { destruct Hnode as [e ->]. by split. }
  rewrite Hnode. cbn [mbind sum_bind fst snd mret sum_ret io lift_err].
  assert (Hlen : md_len (metadata_at o (lies_at (tree_of o) p) c) = file_size c).
  { unfold metadata_at, inode_at. destruct (lies_below (tree_of o) p (proj1 (owns_way P _ Ho p Hp))) as [Hne _].
    rewrite at_loc_ne in E by done. cbn [tree_of t_names t_contents] in E.
    destruct (os_names o !! lies_at (tree_of o) p) as [n|]; [|done]. cbn in E |- *. rewrite lookup_fmap in E.
    by destruct (os_inodes o !! n). }
  rewrite Hlen. destruct c as [d0| |tg|k]; cbn [file_size thing_of].
  - destruct d0 as [|x d0]; [split; by intros [= <-]|]. cbn [length]. destruct (Z.eqb_spec (Z.of_nat (S (length d0))) 0); [lia|]. cbn [lift_err].
    split; by intros [= <-].
  - by split.
  - by destruct (Hl tg).
  - by destruct (Hpl k Hp).
Qed.

(** ** The promises *)

(** The calls of the two crates change no contents and no names. *)
Class CratesStill (crates : Crates) : Prop := {
  set_file_mtime_still p t n : still (set_file_mtime crates p t n);
  xattr_set_still p n v : still (xattr_set crates p n v);
}.

Lemma harmless_still (m : method FsError os) :
  still m -> harmless (fun o => thing_at (tree_of o)) (fun P o => owns P (tree_of o)) m.
Proof.
  intros Hm P o Ho. rewrite (Hm o). split; [done|]. intros q _. by rewrite Hm.
Qed.

Lemma write_file_writes : writes_to (fun o => thing_at (tree_of o)) (fun P o => owns P (tree_of o)) UnixFs.write_file.
Proof.
  intros P o o' p data mode Ho Hp _ E.
  destruct (write_file_cases P p data mode o Ho Hp _ _ E) as [[_ Hb]|[[e He] _]]; [|done]. by eapply became_elsewhere.
Qed.
Lemma unix_mkdir_grown P o o' d mode : owns P (tree_of o) -> UnixFs.mkdir d mode o = (inr tt, o') -> grown P o o'.
Proof.
  intros Ho. unfold UnixFs.mkdir, mbind, act_bind, try_io.
  pose proof (create_dir_all_grown P (S (length d)) d o Ho) as Hg. unfold create_dir_all.
  destruct (create_dir_all_within (S (length d)) d o) as [[e|[]] o1]; [done|]. cbn [snd io lift_err] in *.
  pose proof (set_permissions_still d mode o1) as Hs. destruct (Posix.set_permissions d mode o1) as [r2 o2].
  cbn [snd] in Hs. intros [= _ <-]. apply (grown_trans P o o1 o2 Hg). apply grown_still; [apply Hg|done].
Qed.

#[export] Instance unix_spec (crates : Crates) `{!CratesStill crates} : FsSpec (UnixFileSystem crates) := {
  what o := thing_at (tree_of o);
  owned P o := owns P (tree_of o);
  owned_map_file P o p := map_file_owned P o p;
  owned_write_file := write_file_writes;
  owned_write_file_inplace := write_file_inplace_writes;
  owned_write_file_sparse := write_file_sparse_writes;
  owned_mkdir P o o' d mode := unix_mkdir_grown P o o' d mode;
  owned_create_symlink P o o' tg p Ho Hp _ E :=
    became_elsewhere P p _ o o' _ eq_refl (create_symlink_links P o o' tg p Ho Hp E);
  owned_set_mtime p t n := harmless_still _ (still_try_io p _ (set_file_mtime_still p t n));
  owned_set_owner p u g := harmless_still _ (still_try_io p _ (chown_still p u g));
  owned_set_xattr p n v := harmless_still _ (still_try_io p _ (xattr_set_still p n v));
}.

Lemma unix_what (crates : Crates) `{!CratesStill crates} o p :
  FsSpec.what (F := UnixFileSystem crates) o p = thing_at (tree_of o) p.
Proof. reflexivity. Qed.

(** ** Deciding ownership *)

Definition contentb (c : option content) (f : content -> bool) : bool := match c with Some c => f c | None => true end.
Definition is_dirb (c : option content) : bool := match c with Some Dir => true | _ => false end.
Definition endsb (todo : list (list Z)) (f : list Z -> bool) : bool := match last todo with Some w => f w | None => false end.

Definition names_ok_b (t : tree) : bool :=
  forallb (fun q : loc * positive => negb (bool_decide (q.1 = [])) && (match t_contents t !! q.2 with Some _ => true | None => false end) &&
    is_dirb (at_loc t (removelast q.1)) &&
    (negb (endsb q.1 (fun w => starts_with w TMP_PREFIX)) || is_dirb (at_loc t q.1))) (map_to_list (t_names t)).
Definition path_ok_b (t : tree) (p : list Z) : bool :=
  endsb (split_slash [] p) (fun w => bool_decide (named w)) && bool_decide ([46; 46] ∉ names_of p) &&
  forallb (fun k => contentb (at_loc t (origin t p ++ take k (names_of p))) (fun c => match c with Lnk _ => false | _ => true end))
    (seq 1 (length (names_of p) - 1)) &&
  negb (endsb (names_of p) (fun w => starts_with w TMP_PREFIX)) &&
  contentb (at_loc t (lies_at t p)) (fun c => match c with Other _ => false | _ => true end).
Definition pair_ok_b (t : tree) (p q : list Z) : bool :=
  bool_decide (p = q) ||
  negb (bool_decide (lies_at t p `prefix_of` lies_at t q)) &&
  match t_names t !! lies_at t p with Some n => negb (bool_decide (t_names t !! lies_at t q = Some n)) | None => true end.
Definition owns_b (P : list (list Z)) (t : tree) : bool :=
  names_ok_b t && is_dirb (at_loc t (t_cwd t)) && forallb (path_ok_b t) P &&
  forallb (fun p => forallb (pair_ok_b t p) P) P.

Lemma is_dirb_true c : is_dirb c = true -> c = Some Dir.
Proof. by destruct c as [[]|]. Qed.
Lemma forallb_elem {A} (f : A -> bool) l x : forallb f l = true -> x ∈ l -> f x = true.
Proof. intros H0 Hx. rewrite forallb_forall in H0. by apply H0, list_elem_of_In. Qed.

Lemma names_ok_b_sound t : names_ok_b t = true -> tree_ok t /\ no_tmp t.
Proof.
  intros H0. assert (H1 : forall l n, t_names t !! l = Some n ->
    negb (bool_decide (l = [])) && (match t_contents t !! n with Some _ => true | None => false end) &&
    is_dirb (at_loc t (removelast l)) && (negb (endsb l (fun w => starts_with w TMP_PREFIX)) || is_dirb (at_loc t l)) = true).
  { intros l n Hl. apply elem_of_map_to_list in Hl. exact (forallb_elem _ _ _ H0 Hl). }
  assert (Ht : tree_ok t).
  { intros l n Hl. specialize (H1 l n Hl). rewrite !andb_true_iff, negb_true_iff, bool_decide_eq_false in H1.
    destruct H1 as (((Ha & Hb) & Hc) & _). split; [done|]. split; [by destruct (t_contents t !! n)|by apply is_dirb_true]. }
  split; [done|]. intros l w c Hw Hc. destruct (at_loc_some t _ c Ht Hc) as [E|(n & Hn & _)]; [by destruct l|].
  specialize (H1 _ n Hn). rewrite !andb_true_iff in H1. destruct H1 as [_ H1]. unfold endsb in H1. rewrite last_snoc in H1.
  unfold tmp_like in Hw. rewrite Hw in H1. apply is_dirb_true in H1. congruence.
Qed.

Lemma path_ok_b_sound t p : path_ok_b t p = true ->
  way t p /\ (forall l w, names_of p = l ++ [w] -> ~ tmp_like w) /\ (forall k, at_loc t (lies_at t p) <> Some (Other k)).
Proof.
  unfold path_ok_b. rewrite !andb_true_iff, negb_true_iff, bool_decide_eq_true. intros ((((H1 & H2) & H3) & H4) & H5). split_and!.
  - split; [split; [|done]|].
    + unfold endsb in H1. destruct (last _) as [w|] eqn:E; [|done]. apply bool_decide_eq_true in H1. by exists w.
    + intros q r tg E Hq Hr Hl. assert (Hk : length q ∈ seq 1 (length (names_of p) - 1)).
      { apply elem_of_seq. rewrite E, length_app. destruct q, r; try done. cbn [length]. lia. }
      pose proof (forallb_elem _ _ _ H3 Hk) as H6. cbv beta in H6. rewrite E, take_app_length in H6. by rewrite Hl in H6.
  - intros l w E Hw. unfold endsb in H4. rewrite E, last_snoc in H4. unfold tmp_like in Hw. congruence.
  - intros k E. by rewrite E in H5.
Qed.

Lemma owns_b_sound P t : owns_b P t = true -> owns P t.
Proof.
  unfold owns_b. rewrite !andb_true_iff. intros (((H1 & H2) & H3) & H4). apply names_ok_b_sound in H1 as [Ht Hno].
  assert (Hp := fun p Hp => path_ok_b_sound t p (forallb_elem _ _ p H3 Hp)).
  assert (Hpq : forall p q, p ∈ P -> q ∈ P -> p <> q -> pair_ok_b t p q = true /\ bool_decide (p = q) = false).
  { intros p q Hpp Hq Hne. split; [|by apply bool_decide_eq_false]. exact (forallb_elem _ _ q (forallb_elem _ _ p H4 Hpp) Hq). }
  split; [done|by apply is_dirb_true|done|intros p Hi; by apply (Hp p)|intros p l w Hi; by apply (Hp p)|intros p k Hi; by apply (Hp p)|..].
  - intros p q Hi Hj Hne. destruct (Hpq p q Hi Hj Hne) as [H5 H6]. unfold pair_ok_b in H5. rewrite H6 in H5. cbn [orb] in H5.
    apply andb_true_iff in H5 as [H5 _]. by rewrite negb_true_iff, bool_decide_eq_false in H5.
  - intros p q n Hi Hj Hne Hn. destruct (Hpq p q Hi Hj Hne) as [H5 H6]. unfold pair_ok_b in H5. rewrite H6 in H5. cbn [orb] in H5.
    apply andb_true_iff in H5 as [_ H5]. rewrite Hn in H5. by rewrite negb_true_iff, bool_decide_eq_false in H5.
Qed.

(** C5. [write_file] replaces a file in one step: whatever fails, and
    whenever, the file is as it was and an error is returned, or it holds
    exactly the new data and success is returned; a fault can stop the sequence
    of system calls after any of them, so this covers every state in between.
    Every other owned path is untouched either way. *)
Theorem write_file_atomic (P : list (list Z)) (p data : list Z) (mode : option Z) (o : os) :
  owns P (tree_of o) -> p ∈ P ->
  let done := UnixFs.write_file p data mode o in
  thing_at (tree_of done.2) p = (match done.1 with inr _ => Some (File data) | inl _ => thing_at (tree_of o) p end) /\
  (forall q, q ∈ P -> q <> p -> thing_at (tree_of done.2) q = thing_at (tree_of o) q) /\
  (done.1 = inr tt -> owns P (tree_of done.2)).
Proof.
  intros Ho Hp. destruct (UnixFs.write_file p data mode o) as [r o'] eqn:E. cbn [fst snd].
  destruct (write_file_cases P p data mode o Ho Hp r o' E) as [[-> (H1 & H2 & H3)]|[[e ->] Hb]]; [done|].
  split_and!; [by apply Hb|intros q Hq _; by apply Hb|done].
Qed.
Lemma write_file_atomic_witness :
  let file := str_bytes "/d/f" in
  let o := (UnixFs.write_file file (str_bytes "old") None (UnixFs.mkdir (str_bytes "/d") 0x1ED empty_os).2).2 in
  let faulty := Posix.set_faults [None; Some (EOther, 1%nat)] o in
  owns [file] (tree_of o) /\
  thing_at (tree_of (UnixFs.write_file file (str_bytes "new") None o).2) file = Some (File (str_bytes "new")) /\
  thing_at (tree_of (UnixFs.write_file file (str_bytes "new") None faulty).2) file = Some (File (str_bytes "old")).
Proof.
  intros file o faulty. assert (Ho : owns [file] (tree_of o)) by (apply owns_b_sound; vm_compute; reflexivity).
  assert (Hf : file ∈ [file]) by left. split; [done|]. split.
  - pose proof (write_file_atomic [file] file (str_bytes "new") None o Ho Hf) as H0. cbv zeta in H0.
    destruct H0 as [H0 _]. rewrite H0. vm_compute. reflexivity.
  - pose proof (write_file_atomic [file] file (str_bytes "new") None faulty Ho Hf) as H0. cbv zeta in H0.
    destruct H0 as [H0 _]. rewrite H0. vm_compute. reflexivity.
Defined.
