(* ===== verification/UnixStream.v ===== *)
(** Large files are streamed ([write_streamed] of [file_decision.rs]) through
    the buffered writer of [atomic_writer.rs]: what is in the destination
    afterwards, whatever fails on the way. *)
From S2P Require Import Prelude Wire Types Text Utf8 Sort Filter Scanner Listing Fs FileDecision Posix PosixFacts UnixFs FsSpec UnixSpec.

(** ** The buffer *)

Section buffer.
  Context (n : positive) (t0 : tree).

(** So far [sofar] went into the writer: some of it is in the file, the rest in
    the buffer. *)
Definition took (sofar : list Z) (w : buf_writer) (o : os) : Prop := exists d buf,
  sofar = d ++ buf /\ tree_of o = store n (Reg d) t0 /\ w = mkBufWriter (mkFile n (length d) false) buf.

Lemma overwrite_end d data : overwrite d (length d) data = d ++ data.
Proof. apply sparsely_write, sparsely_refl. Qed.

Lemma flush_buf_took sofar w o r w' o' : took sofar w o -> flush_buf w o = (r, (w', o')) ->
  took sofar w' o' /\ (r = None -> bw_buf w' = []).
Proof.
  intros (d & buf & -> & E & ->). unfold flush_buf. cbn [bw_buf bw_file].
  destruct buf as [|b buf]; [intros [= <- <- <-]; split; [exists d, []; by rewrite app_nil_r|done]|].
  set (bs := b :: buf). destruct (file_write_all bs (mkFile n (length d) false) o) as [r1 [f1 o1]] eqn:E1.
  destruct (write_spec _ _ _ _ _ _ _ _ _ E E1) as (wr & rest & Hb & Hr & E2 & ->). rewrite overwrite_end in E2.
  rewrite <- length_app. destruct r1 as [e|]; intros [= <- <- <-].
  - split; [|done]. exists (d ++ wr), rest. rewrite Hb, app_assoc. split_and!; [done..|]. f_equal. cbn [f_pos].
    replace (length (d ++ wr) - length d)%nat with (length wr) by (rewrite length_app; lia). by rewrite drop_app_length.
  - split; [|done]. exists (d ++ wr), []. rewrite Hb, (Hr eq_refl), !app_nil_r. done.
Qed.

Lemma buf_write_all_took sofar w o data r w' o' : took sofar w o -> buf_write_all data w o = (r, (w', o')) ->
  exists wr rest, data = wr ++ rest /\ (r = None -> rest = []) /\ took (sofar ++ wr) w' o'.
Proof.
  intros Hw. unfold buf_write_all.
  destruct (if (BUF_CAPACITY <? _)%nat then flush_buf w o else (None, (w, o))) as [r1 [w1 o1]] eqn:E1.
  assert (H1 : took sofar w1 o1 /\ (r1 = None -> (BUF_CAPACITY <= length data)%nat -> bw_buf w1 = [])).
  { destruct (Nat.ltb_spec BUF_CAPACITY (length (bw_buf w) + length data)).
    - apply (flush_buf_took sofar) in E1 as [H1 H2]; [|done]. split; [done|]. by intros Hr _; apply H2.
    - injection E1 as <- <- <-. split; [done|]. intros _ Hl. destruct (bw_buf w); [done|cbn [length] in *; lia]. }
  destruct H1 as [H1 H2]. destruct r1 as [e|].
  { intros [= <- <- <-]. exists [], data. by rewrite app_nil_r. }
  destruct (Nat.leb_spec BUF_CAPACITY (length data)) as [Hc|_].
  - specialize (H2 eq_refl Hc). destruct H1 as (d & buf & -> & E & ->). cbn [bw_buf bw_file] in *. subst buf. rewrite app_nil_r.
    destruct (file_write_all data (mkFile n (length d) false) o1) as [r2 [f2 o2]] eqn:E2.
    destruct (write_spec _ _ _ _ _ _ _ _ _ E E2) as (wr & rest & Hb & Hr & E3 & ->). rewrite overwrite_end in E3.
    intros [= <- <- <-]. exists wr, rest. split_and!; [done..|]. exists (d ++ wr), []. rewrite app_nil_r, length_app. done.
  - destruct H1 as (d & buf & -> & E & ->). intros [= <- <- <-]. exists data, []. rewrite app_nil_r. split_and!; [done..|].
    exists d, (buf ++ data). rewrite <- app_assoc. done.
Qed.
End buffer.

(** ** The file *)

Section stream.
  Context (P : list (list Z)) (p : list Z) (o : os) (Ho : owns P (tree_of o)) (Hp : p ∈ P).
Let t := tree_of o.

(** The writer, open: its temporary file, and what it was given so far. *)
Definition streaming (mode : option Z) (sofar : list Z) (w : UnixWriter) (o1 : os) : Prop := exists n tp b,
  w = AtomicWriter (mkAtomicFileWriter b tp p mode false) /\ tmp_at t p tp /\
  (forall q, q ∈ P -> lies_at t q <> lies_at t tp) /\ at_loc t (lies_at t tp) = None /\ t_contents t !! n = None /\
  at_loc t (removelast (lies_at t tp)) = Some Dir /\ took n (put (lies_at t tp) n (Reg []) t) sofar b o1.

Lemma write_file_stream_opens mode r o1 : UnixFs.write_file_stream p mode o = (r, o1) ->
  match r with inl _ => as_before P o o1 | inr w => streaming mode [] w o1 end.
Proof.
  unfold UnixFs.write_file_stream, unique_tmp_name.
  destruct (tmp_name_ok (os_pid o) (os_counter o) ".stream") as (W1 & W2 & W3 & W4);
    [apply (bool_decide_eq_true_1 _); vm_compute; reflexivity|].
  destruct (tmp_place P t p _ Ho Hp W1 W2 W3 W4) as [Htmp Hne]. set (tp := path_join _ _) in *. clearbody tp.
  set (oc := set_counter _ o). assert (Hoc : tree_of oc = t) by done. clearbody oc.
  unfold mbind, act_bind, try_io. destruct (open_for_writing false tp oc) as [r1 o2] eqn:E1. pose proof Htmp as (Hw & Htn & Htt & Hnl).
  apply open_spec in E1; [|by rewrite Hoc..]. rewrite Hoc in E1. destruct r1 as [e|f]; cbn [io lift_err].
  { intros [= <- <-] q _. by rewrite E1. }
  destruct E1 as (n & t0 & Htgt & -> & E1). destruct (Htt n t0 Htgt) as (Hnone & Hn & Ht0). intros [= <- <-].
  assert (Hpar : at_loc t (removelast (lies_at t tp)) = Some Dir).
  { destruct Htgt as [(Hm & [d Hd] & _)|(_ & _ & Hpar & _)]; [|done]. destruct (lies_below t tp (proj1 Hw)) as [Hl _].
    apply (at_loc_none t _ (owns_ok P t Ho)) in Hnone as [_ Hnone]. congruence. }
  subst t0. exists n, tp, (mkBufWriter (mkFile n 0 false) []). split_and!; try done. exists [], []. done.
Qed.

Lemma streaming_writes mode sofar w o1 data r w' o2 : streaming mode sofar w o1 -> unix_write_all data w o1 = (r, (w', o2)) ->
  exists wr rest, data = wr ++ rest /\ (r = true -> rest = []) /\ streaming mode (sofar ++ wr) w' o2.
Proof.
  intros (n & tp & b & -> & H1 & H2 & H3 & H4 & H5 & Hb). unfold unix_write_all. cbn [buf_of with_buf inner UnixFs.tmp_path UnixFs.dest_path UnixFs.mode finished].
  destruct (buf_write_all data b o1) as [r1 [b1 o3]] eqn:E.
  destruct (buf_write_all_took _ _ _ _ _ _ _ _ _ Hb E) as (wr & rest & Hd & Hr & Hb1). intros [= <- <- <-].
  exists wr, rest. split_and!; [done|by destruct r1; auto|]. by exists n, tp, b1.
Qed.
Lemma streaming_flushes mode sofar w o1 r w' o2 : streaming mode sofar w o1 -> unix_flush w o1 = (r, (w', o2)) -> streaming mode sofar w' o2.
Proof.
  intros (n & tp & b & -> & H1 & H2 & H3 & H4 & H5 & Hb). unfold unix_flush. cbn [buf_of with_buf inner UnixFs.tmp_path UnixFs.dest_path UnixFs.mode finished].
  destruct (flush_buf b o1) as [r1 [b1 o3]] eqn:E. destruct (flush_buf_took _ _ _ _ _ _ _ _ Hb E) as [Hb1 _].
  intros [= <- <- <-]. by exists n, tp, b1.
Qed.

(** The temporary file, still there or removed. *)
Lemma leftover_before n tp d o1 : (forall q, q ∈ P -> lies_at t q <> lies_at t tp) -> t_contents t !! n = None -> way t tp ->
  tree_of o1 = put (lies_at t tp) n (Reg d) t \/ tree_of o1 = del (lies_at t tp) (put (lies_at t tp) n (Reg d) t) ->
  as_before P o o1.
Proof.
  intros Hne Hn Hw Hs. destruct (lies_below t tp (proj1 Hw)) as [Hl _]. destruct Hs as [Hs|Hs]; [by eapply as_before_tmp|].
  intros q Hq. rewrite Hs. unfold thing_at. change (lies_at (del _ _) q) with (lies_at t q).
  rewrite at_del, at_put by (done || apply (owns_ok P t Ho)). by destruct (decide _) as [E|]; [destruct (Hne q Hq)|].
Qed.

Lemma cleanup n tp sofar b o1 : (forall q, q ∈ P -> lies_at t q <> lies_at t tp) -> t_contents t !! n = None -> way t tp ->
  took n (put (lies_at t tp) n (Reg []) t) sofar b o1 ->
  as_before P o (flush_buf b (Posix.remove_file tp o1).2).2.2.
Proof.
  intros Hne Hn Hw Hb. destruct (lies_below t tp (proj1 Hw)) as [Hl _].
  destruct (Posix.remove_file tp o1) as [r1 o2] eqn:E1. cbn [snd]. pose proof Hb as (d & buf & Hso & E & Hbw). rewrite store_put in E.
  apply remove_file_spec in E1; [|rewrite E; by apply way_put; [apply (owns_ok P t Ho)|..]].
  assert (Hb2 : exists t0, took n t0 sofar b o2 /\ (t0 = put (lies_at t tp) n (Reg []) t \/ t0 = del (lies_at t tp) (put (lies_at t tp) n (Reg []) t))).
  { destruct r1 as [e|].
    - eexists. split; [|by left]. exists d, buf. by rewrite store_put, E1.
    - destruct E1 as [_ E1]. eexists. split; [|by right]. exists d, buf. split_and!; [done| |done].
      rewrite E1, E. unfold store, del, put. cbn [t_names t_contents t_cwd]. by rewrite insert_insert_eq. }
  destruct Hb2 as (t0 & Hb2 & Ht0). destruct (flush_buf b o2) as [r2 [b2 o3]] eqn:E2. cbn [snd].
  destruct (flush_buf_took _ _ _ _ _ _ _ _ Hb2 E2) as [(d2 & buf2 & _ & E3 & _) _].
  apply (leftover_before n tp d2); [done..|]. rewrite E3.
  destruct Ht0 as [->| ->]; [left; apply store_put|right]. unfold store, del, put. cbn [t_names t_contents t_cwd]. by rewrite insert_insert_eq.
Qed.

Lemma streaming_drops mode sofar w o1 : streaming mode sofar w o1 ->
  as_before P o (unix_drop w o1) \/ became P p (Some (File sofar)) t (tree_of (unix_drop w o1)).
Proof.
  intros (n & tp & b & -> & Htmp & Hne & Hno & Hn & _ & Hb). assert (Hw := proj1 Htmp). unfold unix_drop, atomic_drop, finish_inner.
  cbn [inner UnixFs.tmp_path UnixFs.dest_path UnixFs.mode finished]. destruct (flush_buf b o1) as [r1 [b1 o2]] eqn:E1.
  destruct (flush_buf_took _ _ _ _ _ _ _ _ Hb E1) as [Hb1 Hr1].
  destruct r1 as [e|]; cbn [inner UnixFs.tmp_path]; [left; by eapply cleanup|].
  assert (Hm : still (match mode with Some m => Posix.set_permissions tp m | None => fun o => (inr tt, o) end))
    by (destruct mode; [apply set_permissions_still|done]).
  replace (match mode with Some m => Posix.set_permissions tp m o2 | None => (inr tt, o2) end)
    with ((match mode with Some m => Posix.set_permissions tp m | None => fun o => (inr tt, o) end) o2) by (by destruct mode).
  set (sm := match mode with Some m => _ | None => _ end) in *. clearbody sm.
  specialize (Hm o2). destruct (sm o2) as [r2 o3]. cbn [snd] in Hm.
  assert (Hb3 : took n (put (lies_at t tp) n (Reg []) t) sofar b1 o3).
  { destruct Hb1 as (d & buf & H1 & H2 & H3). exists d, buf. by rewrite Hm. }
  destruct r2 as [e|[]]; cbn [inner UnixFs.tmp_path]; [left; by eapply cleanup|].
  pose proof Hb3 as (d & buf & Hd & E3 & Hbw). specialize (Hr1 eq_refl). rewrite Hbw in Hr1. cbn in Hr1. subst buf.
  rewrite app_nil_r in Hd. subst d. rewrite store_put in E3. destruct (Posix.rename tp p o3) as [r4 o4] eqn:E4.
  destruct (rename_tmp P p o Ho Hp tp n sofar o3 r4 o4 Htmp Hne Hno Hn E3 E4) as [[-> Hbc]|[[e ->] Hs]];
    cbn [inner UnixFs.tmp_path].
  - right. rewrite Hbw. exact Hbc.
  - left. eapply cleanup; [done..|]. exists sofar, []. rewrite app_nil_r, Hs, store_put. done.
Qed.
End stream.

(** ** When nothing fails *)

Definition free (o : os) : Prop := os_faults o = [].
Lemma syscall_free {A} (m : sys A) o : free o -> syscall m o = m o.
Proof. unfold syscall. by intros ->. Qed.

(** There is room for the file: its directory exists, it is not itself a
    directory, and no temporary file lies beside it. *)
Definition room (t : tree) (p : list Z) : Prop :=
  at_loc t (removelast (lies_at t p)) = Some Dir /\ at_loc t (lies_at t p) <> Some Dir /\
  forall w, tmp_like w -> at_loc t (removelast (lies_at t p) ++ [w]) = None.

Lemma resolve_new o follow p : tree_ok (tree_of o) -> clean_path p ->
  at_loc (tree_of o) (removelast (lies_at (tree_of o) p)) = Some Dir ->
  (follow = true -> forall tg, at_loc (tree_of o) (lies_at (tree_of o) p) <> Some (Lnk tg)) ->
  resolve o follow p = inr (lies_at (tree_of o) p).
Proof.
  intros Ht Hp Hd Hf. destruct (clean_names p Hp) as (ns & w & E). unfold lies_at in Hd. rewrite E, app_assoc, removelast_last in Hd.
  unfold resolve. rewrite bool_decide_false by (by apply clean_nonempty).
  rewrite (walk_clear o follow MAX_LINKS (split_slash [] p) (start o p)); [done|by apply no_climb|intros _; apply Hp| |].
  - fold (names_of p). intros q r Eq Hr. rewrite is_dir_at_content, content_tree. rewrite E in Eq.
    destruct (exists_last Hr) as (r' & x & ->). rewrite app_assoc in Eq. apply app_inj_tail in Eq as [-> _].
    destruct (decide (r' = [])) as [->|Hr']; [by rewrite app_nil_r in Hd|]. by eapply (dirs_below _ Ht _ Dir q r').
  - intros tg Hl _. destruct follow; [|done]. rewrite content_tree in Hl. by destruct (Hf eq_refl tg).
Qed.

Section free.
  Context (P : list (list Z)) (p : list Z) (o : os) (Ho : owns P (tree_of o)) (Hp : p ∈ P) (Hroom : room (tree_of o) p).
Let t := tree_of o.
  Context (w : list Z) (Hs : 47 ∉ w) (Hn : named w) (Hd : w <> [46; 46]) (Hw : tmp_like w).
Let tp := path_join (parent_or_dot p) w.

Lemma tmp_lies : lies_at t tp = removelast (lies_at t p) ++ [w].
Proof.
  destruct (owns_way P t Ho p Hp) as [Hc _]. destruct (beside p w Hc Hs Hn Hd) as (_ & Ha & He).
  destruct (clean_names p Hc) as (ns & w0 & E). unfold lies_at, origin. unfold tp. rewrite Ha, He, E, removelast_last.
  by rewrite !app_assoc, removelast_last.
Qed.

Lemma open_tmp o1 : free o1 -> tree_of o1 = t -> exists n o2, open_for_writing false tp o1 = (inr (mkFile n 0 false), o2) /\
  free o2 /\ t_contents t !! n = None /\ tree_of o2 = put (lies_at t tp) n (Reg []) t.
Proof.
  intros Hfree E. destruct (tmp_place P t p w Ho Hp Hs Hn Hd Hw) as [[[Hc _] _] _]. fold tp in Hc.
  unfold open_for_writing. rewrite syscall_free by done. destruct Hroom as (H1 & _ & H2).
  rewrite (resolve_new o1 true tp); rewrite ?E; [|apply (owns_ok P t Ho)|done|by rewrite tmp_lies, removelast_last|].
  2: { intros _ tg. rewrite tmp_lies. by rewrite H2. }
  rewrite content_tree, E, tmp_lies, H2 by done. eexists (fresh_ino o1), _. split_and!; [done|done|rewrite <- E; apply fresh_ino_new|].
  by rewrite tree_add_node, E.
Qed.

Section there.
  Context (n : positive) (d : list Z) (o1 : os) (Hnew : t_contents t !! n = None) (Hfree : free o1)
    (E : tree_of o1 = put (lies_at t tp) n (Reg d) t).

Lemma tmp_there : lies_at t tp <> [] /\ tree_ok (tree_of o1) /\ (forall q, lies_at (tree_of o1) q = lies_at t q) /\
  forall l, at_loc (tree_of o1) l = if decide (l = lies_at t tp) then Some (Reg d) else at_loc t l.
Proof.
  destruct (tmp_place P t p w Ho Hp Hs Hn Hd Hw) as [[[Hc _] _] _]. fold tp in Hc. destruct (lies_below t tp Hc) as [Hl _].
  assert (Ht := owns_ok P t Ho). destruct Hroom as (H1 & _ & H2). rewrite E. split_and!; [done| |done|intros l; by rewrite at_put].
  apply put_ok; [done..| |]; rewrite tmp_lies; [by rewrite removelast_last|by rewrite H2].
Qed.

Lemma permissions_tmp m : exists o2, Posix.set_permissions tp m o1 = (inr tt, o2) /\ free o2 /\ tree_of o2 = tree_of o1.
Proof.
  destruct tmp_there as (Hl & Ht1 & Hlie & Hat). destruct (tmp_place P t p w Ho Hp Hs Hn Hd Hw) as [[[Hc _] _] _]. fold tp in Hc.
  pose proof (set_permissions_still tp m o1) as Hst. revert Hst.
  unfold Posix.set_permissions, on_inode. rewrite syscall_free by done. unfold node.
  rewrite (resolve_there o1 tp true (Reg d)); [|done..|by rewrite Hlie, Hat, decide_True|done].
  cbn [mbind sum_bind]. rewrite content_tree, Hlie, Hat, decide_True by done.
  destruct (os_names o1 !! lies_at t tp); intros Hst; by eexists.
Qed.

Lemma rename_tmp_free : (Posix.rename tp p o1).1 = inr tt.
Proof.
  destruct tmp_there as (Hl & Ht1 & Hlie & Hat). destruct (tmp_place P t p w Ho Hp Hs Hn Hd Hw) as [[[Hc _] _] Hne]. fold tp in Hc, Hne.
  unfold Posix.rename. rewrite syscall_free by done. unfold node.
  rewrite (resolve_there o1 tp false (Reg d)); [|done..|by rewrite Hlie, Hat, decide_True|done].
  cbn [mbind sum_bind]. rewrite content_tree, Hlie, Hat, decide_True by done. destruct Hroom as (H1 & H2 & H3).
  rewrite (resolve_new o1 false p); [|done|apply (owns_way P t Ho p Hp)| |done].
  2: { rewrite Hlie, Hat. destruct (decide _) as [Eq|_]; [|exact H1]. exfalso. specialize (H3 w Hw). fold t in H1, H3.
       rewrite <- tmp_lies, <- Eq in H3. congruence. }
  assert (En : os_names o1 !! lies_at t tp = Some n).
  { change (os_names o1) with (t_names (tree_of o1)). rewrite E. cbn [put t_names]. by rewrite lookup_insert_eq. }
  rewrite En. case_bool_decide; [done|]. rewrite content_tree, !Hlie, Hat.
  destruct (decide _) as [Eq|_]; [by destruct (Hne p Hp)|].
  change (tree_of o) with t in H2. destruct (at_loc t (lies_at t p)) as [[]|]; done.
Qed.
End there.
End free.

Lemma flush_buf_free b o : free o -> exists b' o', flush_buf b o = (None, (b', o')) /\ free o'.
Proof.
  intros Hf. unfold flush_buf. destruct (bw_buf b) as [|x l]; [by eexists _, _|]. unfold file_write_all. rewrite Hf.
  destruct (write_at (bw_file b) (x :: l) o) as [f o1] eqn:E. unfold write_at in E. injection E as <- <-. by eexists _, _.
Qed.
Lemma buf_write_all_free data b o : free o -> exists b' o', buf_write_all data b o = (None, (b', o')) /\ free o'.
Proof.
  intros Hf. unfold buf_write_all.
  assert (H1 : exists b1 o1, (if (BUF_CAPACITY <? length (bw_buf b) + length data)%nat then flush_buf b o else (None, (b, o))) =
    (None, (b1, o1)) /\ free o1) by (destruct (_ <? _)%nat; [by apply flush_buf_free|by eexists _, _]).
  destruct H1 as (b1 & o1 & -> & Hf1). destruct (_ <=? _)%nat; [|by eexists _, _]. unfold file_write_all. rewrite Hf1.
  destruct (write_at (bw_file b1) data o1) as [f o2] eqn:E. unfold write_at in E. injection E as <- <-. by eexists _, _.
Qed.

Section success.
  Context (P : list (list Z)) (p data : list Z) (mode : option Z) (o : os).
  Context (Ho : owns P (tree_of o)) (Hp : p ∈ P) (Hroom : room (tree_of o) p) (Hfree : free o).
Let t := tree_of o.

Lemma mode_tmp w n d o1 : (47 ∉ w) -> named w -> w <> [46; 46] -> tmp_like w -> t_contents t !! n = None -> free o1 ->
  tree_of o1 = put (lies_at t (path_join (parent_or_dot p) w)) n (Reg d) t -> exists o2,
  (match mode with Some m => Posix.set_permissions (path_join (parent_or_dot p) w) m o1 | None => (inr tt, o1) end) = (inr tt, o2) /\
  free o2 /\ tree_of o2 = tree_of o1.
Proof.
  intros. destruct mode as [m|]; [|by eexists]. by apply (permissions_tmp P p o Ho Hp Hroom w ltac:(done) ltac:(done) ltac:(done) ltac:(done) n d o1).
Qed.

Lemma write_file_free : (UnixFs.write_file p data mode o).1 = inr tt.
Proof.
  unfold UnixFs.write_file, unique_tmp_name. destruct (tmp_name_ok (os_pid o) (os_counter o) "") as (W1 & W2 & W3 & W4);
    [apply not_elem_of_nil|].
  set (w := tmp_name _ _ _) in *. clearbody w. set (oc := set_counter _ o). assert (Hoc : tree_of oc = t) by done.
  assert (Hfc : free oc) by done. clearbody oc. unfold mbind, act_bind, try_io, write.
  destruct (open_tmp P p o Ho Hp Hroom w W1 W2 W3 W4 oc Hfc Hoc) as (n & o1 & -> & Hf1 & Hn & E1).
  unfold file_write_all. rewrite Hf1.
  destruct (write_at (mkFile n 0 false) data o1) as [f o2] eqn:E2.
  assert (H2 : free o2 /\ tree_of o2 = put (lies_at t (path_join (parent_or_dot p) w)) n (Reg data) t).
  { assert (Hw : file_write_all data (mkFile n 0 false) o1 = (None, (f, o2))) by (unfold file_write_all; by rewrite Hf1, E2).
    split; [unfold write_at in E2; by injection E2 as <- <-|].
    change (tree_of o1 = put (lies_at t (path_join (parent_or_dot p) w)) n (Reg []) t) in E1. rewrite <- store_put with (c0 := Reg []) in E1.
    destruct (write_spec _ _ _ _ _ _ _ _ _ E1 Hw) as (wr & rest & -> & Hr & E3 & _).
    by rewrite E3, overwrite_empty, store_put, (Hr eq_refl), app_nil_r. }
  destruct H2 as [Hf2 E3]. cbn [io lift_err]. unfold set_mode.
  destruct (mode_tmp w n data o2 W1 W2 W3 W4 Hn Hf2 E3) as (o3 & Hm & Hf3 & E4).
  assert (Hm' : (match mode with Some m => try_io (path_join (parent_or_dot p) w) (Posix.set_permissions (path_join (parent_or_dot p) w) m)
    | None => mret tt end) o2 = (inr tt, o3)).
  { destruct mode as [m|]; [unfold try_io; by rewrite Hm|by injection Hm as ->]. }
  rewrite Hm'. cbn [io lift_err].
  pose proof (rename_tmp_free P p o Ho Hp Hroom w W1 W2 W3 W4 n data o3 Hn Hf3) as Hr. rewrite E4 in Hr. specialize (Hr E3).
  destruct (Posix.rename (path_join (parent_or_dot p) w) p o3) as [r o4]. cbn [fst] in *. by rewrite Hr.
Qed.

Lemma write_streamed_free crates :
  (write_streamed (UnixFileSystem crates) p data mode o).1 = inr tt /\
  thing_at (tree_of (write_streamed (UnixFileSystem crates) p data mode o).2) p = Some (File data).
Proof.
  unfold write_streamed. cbn [Fs.write_file_stream UnixFileSystem writer_write_all writer_flush writer_drop].
  unfold UnixFs.write_file_stream, unique_tmp_name. destruct (tmp_name_ok (os_pid o) (os_counter o) ".stream") as (W1 & W2 & W3 & W4);
    [apply (bool_decide_eq_true_1 _); vm_compute; reflexivity|].
  set (w := tmp_name _ _ _) in *. clearbody w. set (oc := set_counter _ o). assert (Hoc : tree_of oc = t) by done.
  assert (Hfc : free oc) by done. clearbody oc. unfold mbind, act_bind, try_io.
  destruct (open_tmp P p o Ho Hp Hroom w W1 W2 W3 W4 oc Hfc Hoc) as (n & o1 & -> & Hf1 & Hn & E1).
  cbn [io lift_err mret act_ret]. unfold unix_write_all. cbn [buf_of inner].
  set (tp := path_join (parent_or_dot p) w) in *.
  assert (Hb : took n (put (lies_at t tp) n (Reg []) t) [] (mkBufWriter (mkFile n 0 false) []) o1)
    by (exists [], []; rewrite store_put; done).
  destruct (buf_write_all_free data (mkBufWriter (mkFile n 0 false) []) o1 Hf1) as (b1 & o2 & E2 & Hf2). rewrite E2.
  destruct (buf_write_all_took _ _ _ _ _ _ _ _ _ Hb E2) as (wr & rest & Hd & Hr & Hb1). rewrite (Hr eq_refl), app_nil_r in Hd. subst wr.
  cbn [negb with_buf UnixFs.tmp_path UnixFs.dest_path UnixFs.mode finished app] in *. unfold unix_flush. cbn [buf_of inner].
  destruct (flush_buf_free b1 o2 Hf2) as (b2 & o3 & E3 & Hf3). rewrite E3. destruct (flush_buf_took _ _ _ _ _ _ _ _ Hb1 E3) as [Hb2 _].
  cbn [negb with_buf UnixFs.tmp_path UnixFs.dest_path UnixFs.mode finished fst snd]. split; [done|].
  unfold unix_drop, atomic_drop, finish_inner. cbn [inner UnixFs.tmp_path UnixFs.dest_path UnixFs.mode finished].
  destruct (flush_buf_free b2 o3 Hf3) as (b3 & o4 & E4 & Hf4). rewrite E4. destruct (flush_buf_took _ _ _ _ _ _ _ _ Hb2 E4) as [Hb3 Hbe].
  pose proof Hb3 as (d & buf & Hd & E5 & Hbw). specialize (Hbe eq_refl). rewrite Hbw in Hbe. cbn in Hbe. subst buf.
  rewrite app_nil_r in Hd. subst d. rewrite store_put in E5.
  destruct (mode_tmp w n data o4 W1 W2 W3 W4 Hn Hf4 E5) as (o5 & Hm & Hf5 & E6). fold tp in Hm. rewrite Hm. cbn [inner UnixFs.tmp_path].
  pose proof (rename_tmp_free P p o Ho Hp Hroom w W1 W2 W3 W4 n data o5 Hn Hf5) as Hren. rewrite E6 in Hren. specialize (Hren E5).
  rewrite E5 in E6. fold tp in Hren. destruct (Posix.rename tp p o5) as [r6 o6] eqn:E7. cbn [fst] in Hren. subst r6.
  destruct (tmp_place P t p w Ho Hp W1 W2 W3 W4) as [Htmp Hne]. fold tp in Htmp, Hne.
  assert (Hnone : at_loc t (lies_at t tp) = None).
  { unfold t, tp. rewrite (tmp_lies P p o Ho Hp w W1 W2 W3). destruct Hroom as (_ & _ & H3). by apply H3. }
  destruct (rename_tmp P p o Ho Hp tp n data o5 _ o6 Htmp Hne Hnone Hn E6 E7) as [[_ (_ & Hth & _)]|[[e He] _]]; [|done].
  rewrite Hbw. exact Hth.
Qed.
End success.

Definition room_b (t : tree) (p : list Z) : bool :=
  is_dirb (at_loc t (removelast (lies_at t p))) && negb (is_dirb (at_loc t (lies_at t p))) &&
  forallb (fun q : loc * positive => negb (endsb q.1 (fun w => starts_with w TMP_PREFIX))) (map_to_list (t_names t)).
Lemma room_b_sound t p : tree_ok t -> room_b t p = true -> room t p.
Proof.
  intros Ht. unfold room_b. rewrite !andb_true_iff, negb_true_iff. intros ((H1 & H2) & H3). split_and!.
  - by apply is_dirb_true.
  - intros E. by rewrite E in H2.
  - intros w Hw. apply (at_loc_none t _ Ht). split; [by destruct (removelast _)|].
    destruct (t_names t !! (removelast (lies_at t p) ++ [w])) as [n|] eqn:E; [|done]. apply elem_of_map_to_list in E.
    pose proof (forallb_elem _ _ _ H3 E) as H4. unfold endsb in H4. cbn [fst] in H4. rewrite last_snoc in H4. unfold tmp_like in Hw.
    by rewrite Hw in H4.
Qed.

(** ** A disk to try it on *)

Definition no_crates : Crates :=
  mkCrates (fun p t n => on_inode p (Posix.set_times t n)) (fun _ _ => inr []) (fun _ _ _ => inr None) (fun _ _ _ o => (inr tt, o)).
#[export] Instance no_crates_still : CratesStill no_crates.
Proof. split; [intros p t n; by apply on_inode_still|done]. Qed.

Definition trial_file : list Z := str_bytes "/d/f".
Definition trial_disk : os :=
  (UnixFs.write_file trial_file (str_bytes "old") None (UnixFs.mkdir (str_bytes "/d") 0x1ED empty_os).2).2.
Lemma trial_owned : owns [trial_file] (tree_of trial_disk).
Proof. apply owns_b_sound. vm_compute. reflexivity. Qed.

(** Dropped after a failed write, the writer puts the part that was written in
    the place of the file; dropped after a failed rename, it says nothing. *)
Lemma failed_write_commits :
  let o := Posix.set_faults [None; Some (EOther, 1%nat)] trial_disk in
  let done := write_streamed (UnixFileSystem no_crates) trial_file (replicate BUF_CAPACITY 120) None o in
  done.1 = inl (FsIo trial_file) /\ thing_at (tree_of done.2) trial_file = Some (File [120]).
Proof. vm_compute. split; reflexivity. Qed.
Lemma failed_rename_is_silent :
  let o := Posix.set_faults [None; None; Some (EAccess, 0%nat)] trial_disk in
  let done := write_streamed (UnixFileSystem no_crates) trial_file (str_bytes "new") None o in
  done.1 = inr tt /\ thing_at (tree_of done.2) trial_file = Some (File (str_bytes "old")).
Proof. vm_compute. split; reflexivity. Qed.


(** A file that can be written is written: where its directory exists, it
    is not itself a directory, no temporary file is in the way and no system
    call fails, both ways of writing a file, at once and streamed, return
    success and leave exactly the data. *)
Theorem writes_succeed (crates : Crates) (P : list (list Z)) (p data : list Z) (mode : option Z) (o : os) :
  owns P (tree_of o) -> p ∈ P -> room (tree_of o) p -> os_faults o = [] ->
  let at_once := UnixFs.write_file p data mode o in
  let streamed := write_streamed (UnixFileSystem crates) p data mode o in
  (at_once.1 = inr tt /\ thing_at (tree_of at_once.2) p = Some (File data)) /\
  (streamed.1 = inr tt /\ thing_at (tree_of streamed.2) p = Some (File data)).
Proof.
  intros Ho Hp Hr Hf. split; [|by apply (write_streamed_free P)]. pose proof (write_file_free P p data mode o Ho Hp Hr Hf) as H1.
  split; [done|]. destruct (UnixFs.write_file p data mode o) as [r o'] eqn:E. cbn [fst] in H1. subst r.
  destruct (write_file_cases P p data mode o Ho Hp _ o' E) as [[_ (_ & H2 & _)]|[[e He] _]]; done.
Qed.
Lemma writes_succeed_witness :
  (UnixFs.write_file trial_file (str_bytes "new") (Some 0x1A4) trial_disk).1 = inr tt /\
  thing_at (tree_of (write_streamed (UnixFileSystem no_crates) trial_file (replicate (9 * 1000) 7) None trial_disk).2) trial_file =
    Some (File (replicate (9 * 1000) 7)).
Proof.
  assert (Hr : room (tree_of trial_disk) trial_file)
    by (apply room_b_sound; [apply (owns_ok _ _ trial_owned)|vm_compute; reflexivity]).
  assert (Hin : trial_file ∈ [trial_file]) by left. assert (Hf : os_faults trial_disk = []) by (vm_compute; reflexivity). split.
  - exact (proj1 (proj1 (writes_succeed no_crates [trial_file] trial_file (str_bytes "new") (Some 0x1A4) trial_disk
      trial_owned Hin Hr Hf))).
  - exact (proj2 (proj2 (writes_succeed no_crates [trial_file] trial_file (replicate (9 * 1000) 7) None trial_disk
      trial_owned Hin Hr Hf))).
Defined.
