(* ===== verification/LocalSpec.v ===== *)
(** What a local transfer leaves behind, on any file system that keeps its
    promises ([FsSpec.v]). *)
From S2P Require Import Prelude Wire Types Text Utf8 Acl Sort Filter Scanner Options Fs Chmod Progress Listing FileDecision Delete ReceiverEngine Checksum Sum Matcher Pipes Transfer Pipeline LocalTransfer FsSpec.

Section spec.
  Context {S : Type} (F : FsOps S) `{!FsSpec F}.

Lemma everywhere_elsewhere P p s s' : everywhere what P s s' -> elsewhere what P p s s'.
Proof. intros He q Hq _. by apply He. Qed.
Lemma elsewhere_trans P p s s' s'' : elsewhere what P p s s' -> elsewhere what P p s' s'' -> elsewhere what P p s s''.
Proof. intros H1 H2 q Hq Hp. by rewrite (H2 q Hq Hp), (H1 q Hq Hp). Qed.

(** ** Metadata *)

(** A function of the state that changes no contents. *)
Definition mild (f : S -> S) : Prop := forall P s, owned P s -> owned P (f s) /\ everywhere what P s (f s).
Lemma mild_id : mild (fun s => s).
Proof. done. Qed.
Lemma mild_comp f g : mild f -> mild g -> mild (fun s => g (f s)).
Proof.
  intros Hf Hg P s Hs. destruct (Hf P s Hs) as [H1 H2]. destruct (Hg P (f s) H1) as [H3 H4]. split; [done|].
  intros q Hq. by rewrite (H4 q Hq), (H2 q Hq).
Qed.
Lemma mild_warn (m : method FsError S) : harmless what owned m -> mild (warn m).
Proof. intros Hm P s Hs. apply (Hm P s Hs). Qed.
Lemma mild_if (b : bool) f g : mild f -> mild g -> mild (fun s => if b then f s else g s).
Proof. by destruct b. Qed.

Lemma set_times_mild path entry options : mild (set_times F path entry options).
Proof. unfold set_times. destruct (Get.preserve_times options); [apply mild_warn, owned_set_mtime|apply mild_id]. Qed.
Lemma set_ownership_mild path entry options : mild (set_ownership F path entry options).
Proof. unfold set_ownership. destruct (_ || _); [apply mild_warn, owned_set_owner|apply mild_id]. Qed.
Lemma set_acls_mild path entry options : mild (set_acls F path entry options).
Proof.
  unfold set_acls. destruct (Get.preserve_acls options); [|apply mild_id]. destruct (acl entry) as [[a]|]; [|apply mild_id].
  destruct (Types.default a).
  - apply (mild_comp _ _ (mild_warn _ (owned_set_xattr _ _ _)) (mild_warn _ (owned_set_xattr _ _ _))).
  - apply mild_warn, owned_set_xattr.
Qed.
Lemma set_xattrs_mild path entry options : mild (set_xattrs F path entry options).
Proof.
  unfold set_xattrs. destruct (Get.preserve_xattrs options); [|apply mild_id].
  destruct (xattrs entry) as [[l]|]; [|apply mild_id]. cbn [xattr_entries].
  induction l as [|xa l IH]; [apply mild_id|].
  apply (mild_comp _ _ (mild_warn _ (owned_set_xattr path (os_xattr_name (xattr_name xa)) (xattr_value xa))) IH).
Qed.
Lemma set_file_metadata_mild path entry options : mild (set_file_metadata F path entry options).
Proof.
  unfold set_file_metadata.
  apply (mild_comp _ _ (mild_comp _ _ (mild_comp _ _ (set_times_mild _ _ _) (set_ownership_mild _ _ _)) (set_acls_mild _ _ _))
    (set_xattrs_mild _ _ _)).
Qed.

(** ** One file *)

(** The data is small enough to be written in one go, or the mode of writing
    is one that does. *)
Definition written_whole (options : TransferConfig) (data : list Z) : Prop :=
  Get.sparse options = true \/ Get.inplace options = true \/ Z.of_nat (length data) < STREAMING_THRESHOLD.

Lemma writes_file_with_options P s s' p data entry options chmod :
  owned P s -> p ∈ P -> not_link (what s p) -> written_whole options data ->
  write_file_with_options F p data entry options chmod s = (inr tt, s') ->
  owned P s' /\ what s' p = Some (File data) /\ elsewhere what P p s s'.
Proof.
  intros Ho Hp Hl Hw. unfold write_file_with_options. destruct (Get.sparse options) eqn:Es.
  { by apply owned_write_file_sparse. }
  destruct (Get.inplace options) eqn:Ei; [by apply owned_write_file_inplace|].
  destruct Hw as [Hw|[Hw|Hw]]; [congruence|congruence|]. destruct (Z.leb_spec STREAMING_THRESHOLD (Z.of_nat (length data))); [lia|].
  by apply owned_write_file.
Qed.

(** A received file is where it belongs: the destination holds exactly the
    data and every other owned path is untouched, whichever way of writing the
    options choose and whatever becomes of the metadata. *)
Lemma receive_file_writes (rx : Receiver) P (s s' : S) (entry : FileEntry) data source_path :
  Get.backup (rx_options rx) = false -> Get.partial_dir (rx_options rx) = None ->
  Get.remove_source_files (rx_options rx) = false -> written_whole (rx_options rx) data ->
  owned P s -> dest_path rx entry ∈ P -> not_link (what s (dest_path rx entry)) ->
  receive_file F rx entry data source_path s = (inr tt, s') ->
  owned P s' /\ what s' (dest_path rx entry) = Some (File data) /\ elsewhere what P (dest_path rx entry) s s'.
Proof.
  intros Hb Hpart Hrm Hw Ho Hp Hl. unfold receive_file, backup_first, move_partial, remove_source. rewrite Hb, Hpart, Hrm.
  cbn [andb negb is_some]. unfold then_, skip.
  destruct (write_file_with_options F (dest_path rx entry) data entry (rx_options rx) (rx_chmod_spec rx) s) as [[e|[]] s1] eqn:E;
    [done|].
  destruct (writes_file_with_options _ _ _ _ _ _ _ _ Ho Hp Hl Hw E) as (Ho1 & Hd1 & He1).
  destruct (set_file_metadata_mild (dest_path rx entry) entry (rx_options rx) P s1 Ho1) as [Ho2 He2].
  intros [= <-].
  replace (match source_path with Some _ => _ | None => _ end) with
    (set_file_metadata F (dest_path rx entry) entry (rx_options rx) s1) by (by destruct source_path).
  split; [done|]. split; [by rewrite He2|]. eapply elsewhere_trans; [exact He1|by apply everywhere_elsewhere].
Qed.

(** ** One entry *)

Lemma bind_ok {A B} (m : step (S := S) A) (f : A -> step B) x b x' :
  (m ≫= f) x = (inr b, x') -> exists a x1, m x = (inr a, x1) /\ f a x1 = (inr b, x').
Proof. unfold mbind, act_bind. destruct (m x) as [[e|a] x1]; [done|]. eauto. Qed.

Lemma on_fs_ok {A} (m : act failure S A) x (a : A) x' :
  on_fs m x = (inr a, x') -> m (tx_fs x) = (inr a, tx_fs x').
Proof. unfold on_fs. destruct (m (tx_fs x)) as [r s]. by intros [= -> <-]. Qed.

Lemma try_fs_ok {A} (m : act FsError S A) s (a : A) s' : try_fs m s = (inr a, s') -> m s = (inr a, s').
Proof. unfold try_fs. destruct (m s) as [[e|a1] s1]; [done|]. by intros [= -> ->]. Qed.

Section local.
  Context (H : HashLib) (HL : HashLaws H) (ctx : ProtocolContext).
  Context (pipe pipe_compressed : list Z -> list Z -> result (list Z)).
  Context (options : TransferConfig) (dest : list Z).
Let rx := Receiver_new dest options.

(** The options under which a transfer only creates and overwrites: no dry
    run, no backup, deletion, append, alternative directories, compression,
    checksum mode or removal of the source. *)
Definition plain_options : bool :=
  negb (Get.dry_run options) && negb (Get.backup options) && negb (is_some (Get.partial_dir options)) &&
  negb (Get.append options) && negb (Get.append_verify options) && bool_decide (Get.delete options = DelNone) &&
  negb (Get.prune_empty_dirs options) && bool_decide (Get.link_dest options = []) &&
  bool_decide (Get.copy_dest options = []) && negb (Get.remove_source_files options) &&
  negb (Get.compress options) && negb (Get.checksum_mode options) && negb (Get.list_only options).

(** The entries that get a place in the destination besides the directories. *)
Definition makes_link (e : FileEntry) : bool :=
  negb (FileEntry.is_dir e) && (FileEntry.is_symlink e && Get.preserve_links options).
Definition makes_file (e : FileEntry) : bool :=
  negb (FileEntry.is_dir e) && negb (FileEntry.is_symlink e && Get.preserve_links options) && FileEntry.is_file e.
Definition placed (item : FileListItem) : bool := makes_link (it_entry item) || makes_file (it_entry item).
Definition place (item : FileListItem) : list Z := dest_path rx (it_entry item).

(** The pipeline can carry the file, and what it returns for it is the outcome
    of one of its runs. *)
Definition carried (basis source : list Z) : Prop :=
  deliverable H ctx basis source /\
  exists n, rtc (net_step DUPLEX_CAPACITY) (transfer_file H source basis ctx) n /\ transfer_outcome n = Some (pipe source basis).

(** What an entry asks of the state it is met in. *)
Definition item_ok (P : list (list Z)) (s : S) (item : FileListItem) : Prop :=
  let e := it_entry item in
  (placed item = true -> place item ∈ P) /\
  (makes_file e = true ->
    hlink_source e = None /\ it_source_path item ∈ P /\
    not_link (what s (place item)) /\ not_link (what s (it_source_path item)) /\
    forall d, what s (it_source_path item) = Some (File d) ->
      written_whole options d /\
      (Get.whole_file options = false -> forall b, what s (place item) = Some (File b) -> b <> [] -> carried b d)).

(** What it leaves, given the state [s0] before, the state [s1] of its turn,
    and a later state. *)
Definition item_done (item : FileListItem) (s0 s1 s' : S) : Prop :=
  let e := it_entry item in
  (makes_link e = true ->
    if Get.safe_links options && is_unsafe_symlink (link_target e) then what s' (place item) = what s0 (place item)
    else link_target e <> [] -> what s' (place item) = Some (Link (link_target e))) /\
  (makes_file e = true ->
    if should_skip_impl F s1 e dest options then what s' (place item) = what s0 (place item)
    else exists d, what s0 (it_source_path item) = Some (File d) /\ what s' (place item) = Some (File d)).

Definition untouched (P : list (list Z)) (item : FileListItem) (s s' : S) : Prop :=
  forall q, q ∈ P -> (placed item = true -> q <> place item) -> what s' q = what s q.

Context (Hplain : plain_options = true).

Lemma options_facts :
  Get.dry_run options = false /\ Get.backup options = false /\ Get.partial_dir options = None /\
  Get.append options = false /\ Get.append_verify options = false /\ Get.delete options = DelNone /\
  Get.prune_empty_dirs options = false /\ Get.link_dest options = [] /\ Get.copy_dest options = [] /\
  Get.remove_source_files options = false /\ Get.compress options = false /\ Get.checksum_mode options = false /\
  Get.list_only options = false.
Proof.
  revert Hplain. unfold plain_options. rewrite !andb_true_iff, !negb_true_iff, !bool_decide_eq_true.
  intros H0. repeat match type of H0 with _ /\ _ => destruct H0 as [H0 ?] end. split_and!; try done.
  by destruct (Get.partial_dir options).
Qed.

Lemma itemize_fs index e x x' : itemize F options dest index e x = (inr tt, x') -> tx_fs x' = tx_fs x.
Proof. unfold itemize. destruct (Get.itemize_changes options); by intros [= <-]. Qed.

Lemma whole_or_delta_ok source basis x data x' :
  (Get.whole_file options = false -> basis <> [] -> carried basis source) ->
  whole_or_delta (S := S) pipe pipe_compressed options source basis x = (inr data, x') -> data = source /\ x' = x.
Proof.
  intros Hd. unfold whole_or_delta. destruct (Get.whole_file options) eqn:Ew; [by intros [= <- <-]|].
  cbn [orb]. case_bool_decide as Eb; [by intros [= <- <-]|].
  destruct options_facts as (_ & _ & _ & _ & _ & _ & _ & _ & _ & _ & -> & _ & _).
  destruct (Hd eq_refl Eb) as (Hdel & n & Hn & Hr).
  destruct (pipeline_outcome H HL basis source ctx n _ Hdel Hn Hr) as [E|E]; rewrite E; by intros [= <- <-].
Qed.

(** A file that needs a transfer gets one. *)
Lemma needs_transfer_ok P x x' item basis :
  owned P (tx_fs x) -> item_ok P (tx_fs x) item -> makes_file (it_entry item) = true ->
  basis = match map_file F (tx_fs x) (place item) with inr d => d | inl _ => [] end ->
  needs_transfer F H ctx pipe pipe_compressed options dest (it_index item) (it_entry item) (Some (it_source_path item))
    basis x = (inr tt, x') ->
  owned P (tx_fs x') /\ elsewhere what P (place item) (tx_fs x) (tx_fs x') /\
  exists d, what (tx_fs x) (it_source_path item) = Some (File d) /\ what (tx_fs x') (place item) = Some (File d).
Proof.
  intros Ho (Hpl & Hok) Hf Hbasis Hrun. destruct (Hok Hf) as (_ & Hsrc & Hnl & Hnls & Hd).
  assert (Hp : place item ∈ P) by (apply Hpl; unfold placed; by rewrite Hf, orb_true_r).
  destruct options_facts as (_ & Hb & Hpart & Ha & Hav & _ & _ & _ & _ & Hrm & _ & Hck & _).
  unfold needs_transfer in Hrun. rewrite Hck, Ha, Hav in Hrun. cbn [andb orb] in Hrun.
  apply bind_ok in Hrun as (same & x1 & [= <- <-] & Hrun). cbn beta iota in Hrun.
  apply bind_ok in Hrun as ([] & x1 & Hi & Hrun). apply itemize_fs in Hi.
  apply bind_ok in Hrun as ([] & x2 & [= <-] & Hrun). apply bind_ok in Hrun as (settled & x2 & [= <- <-] & Hrun).
  unfold transfer_data in Hrun. apply bind_ok in Hrun as (source & x3 & Hs & Hrun).
  apply on_fs_ok, try_fs_ok in Hs. cbn [tx_fs emitting] in Hs. rewrite Hi in Hs. injection Hs as Hs Hx3.
  apply (owned_map_file P) in Hs; [|done..]. destruct (Hd _ Hs) as [Hw Hdel].
  apply bind_ok in Hrun as (data & x4 & Hdata & Hrun). apply whole_or_delta_ok in Hdata as [-> ->].
  2:{ intros Hwf Hne. subst basis. destruct (map_file F (tx_fs x) (place item)) as [e|b] eqn:Eb; [done|].
      apply (owned_map_file P) in Eb; [|done..]. by apply (Hdel Hwf b). }
  apply bind_ok in Hrun as ([] & x5 & Hr & [= <-]). apply on_fs_ok, try_fs_ok in Hr. rewrite <- Hx3 in Hr.
  destruct (receive_file_writes rx P (tx_fs x) (tx_fs x5) (it_entry item) source (Some (it_source_path item)))
    as (H1 & H2 & H3); try done.
  cbn [tx_fs emitting with_stats]. eauto.
Qed.

Lemma untouched_refl P item s : untouched P item s s.
Proof. done. Qed.
Lemma everywhere_untouched P item s s' : everywhere what P s s' -> untouched P item s s'.
Proof. intros He q Hq _. by apply He. Qed.

Lemma create_directory_ok P s s' entry :
  owned P s ->
  create_directory_impl F (dest_path rx entry) entry options (rx_chmod_spec rx) s = (inr tt, s') ->
  owned P s' /\ everywhere what P s s'.
Proof.
  intros Ho. unfold create_directory_impl. destruct (negb _ && _); [|by intros [= <-]]. unfold then_.
  destruct (Fs.mkdir F (dest_path rx entry) (dir_mode entry options (rx_chmod_spec rx)) s) as [[e|[]] s1] eqn:E; [done|].
  intros [= <-]. destruct (owned_mkdir P s s1 _ _ Ho E) as [H1 H2].
  destruct (set_acls_mild (dest_path rx entry) entry options P s1 H1) as [H3 H4]. split; [done|].
  intros q Hq. by rewrite (H4 q Hq), (H2 q Hq).
Qed.

Lemma handled_fs deleter all_entries index e kind x x' :
  handled F options dest deleter all_entries index e kind x = (inr tt, x') -> tx_fs x' = tx_fs x.
Proof.
  destruct options_facts as (_ & _ & _ & _ & _ & Hdel & _).
  destruct kind; cbn [handled]; unfold mbind, act_bind; cbn beta iota delta [modify]; rewrite ?Hdel; try by intros [= <-].
  unfold itemize. destruct (Get.itemize_changes options); by intros [= <-].
Qed.

(** A step that ends well leaves every owned path but the entry's own as it
    was, and there what it should. *)
Lemma transfer_entry_ok P deleter all_entries source_path_of item x x' :
  owned P (tx_fs x) -> item_ok P (tx_fs x) item ->
  (makes_file (it_entry item) = true -> source_path_of (name (it_entry item)) = Some (it_source_path item)) ->
  transfer_entry F H ctx pipe pipe_compressed options dest deleter all_entries source_path_of item x = (inr tt, x') ->
  owned P (tx_fs x') /\ untouched P item (tx_fs x) (tx_fs x') /\ item_done item (tx_fs x) (tx_fs x) (tx_fs x').
Proof.
  intros Ho Hok Hsp Hrun. pose proof Hok as (Hpl & Hfile).
  destruct options_facts as (Hdry & _ & _ & _ & _ & _ & _ & Hld & Hcd & _).
  unfold transfer_entry in Hrun. apply bind_ok in Hrun as (action & x1 & Hact & Hrun). apply on_fs_ok in Hact.
  unfold dispatch_entry, dispatch_entry_impl in Hact.
  change (rx_options (Receiver_new dest options)) with options in Hact. change (Receiver_new dest options) with rx in Hact.
  change (rx_dest rx) with dest in Hact. change (path_join dest (name (it_entry item))) with (dest_path rx (it_entry item)) in Hact.
  unfold item_done, untouched, placed in *. unfold makes_link, makes_file in *.
  destruct (FileEntry.is_dir (it_entry item)) eqn:Ed; cbn [negb andb orb] in *.
  { unfold mbind, act_bind, try_fs in Hact.
    destruct (create_directory_impl F (dest_path rx (it_entry item)) (it_entry item) options (rx_chmod_spec rx) (tx_fs x))
      as [[e|[]] s1] eqn:E; [done|]. injection Hact as <- Hs1.
    apply (create_directory_ok P) in E as [H1 H2]; [|done]. apply handled_fs in Hrun. rewrite Hrun, <- Hs1.
    split; [done|]. split; [intros q Hq _; by apply H2|done]. }
  destruct (FileEntry.is_symlink (it_entry item) && Get.preserve_links options) eqn:El; cbn [negb andb orb] in *.
  { unfold create_symlink_impl in Hact.
    destruct (Get.safe_links options && is_unsafe_symlink (link_target (it_entry item))) eqn:Esafe.
    { injection Hact as <- Hs1. injection Hrun as <-. cbn [tx_fs emitting with_stats]. rewrite <- Hs1. done. }
    rewrite Hdry in Hact. cbn [negb andb] in Hact. case_bool_decide as Et; cbn [negb] in Hact.
    { injection Hact as <- Hs1. apply handled_fs in Hrun. rewrite Hrun, <- Hs1. done. }
    unfold mbind, act_bind, try_fs in Hact.
    change (path_join dest (name (it_entry item))) with (place item) in Hact.
    destruct (Fs.create_symlink F (link_target (it_entry item)) (place item) (tx_fs x))
      as [[e|[]] s1] eqn:E; [done|]. injection Hact as <- Hs1. apply handled_fs in Hrun. rewrite Hrun, <- Hs1.
    apply (owned_create_symlink P) in E as (H1 & H2 & H3); [|done|by apply Hpl|done].
    split; [done|]. split; [intros q Hq Hne; apply H3; [done|by apply Hne]|done]. }
  destruct (FileEntry.is_file (it_entry item)) eqn:Ef; cbn [negb] in *.
  2:{ injection Hact as <- Hs1. injection Hrun as <-. cbn [tx_fs emitting with_stats]. by rewrite <- Hs1. }
  destruct (Hfile eq_refl) as (Hh & _). rewrite Hh in Hact.
  destruct (should_skip_impl F (tx_fs x) (it_entry item) dest options) eqn:Eskip.
  { injection Hact as <- Hs1. injection Hrun as <-. cbn [tx_fs emitting with_stats]. rewrite <- Hs1. done. }
  unfold try_link_dest_impl, try_copy_dest_impl in Hact.
  replace (rx_resolved_link_dests rx) with ([] : list (list Z)) in Hact
    by (unfold rx, Receiver_new; cbn [rx_resolved_link_dests]; by rewrite Hld).
  rewrite Hcd, Hdry, !bool_decide_true in Hact by done. cbn [orb] in Hact. injection Hact as <- Hs1.
  rewrite Hsp in Hrun by done.
  destruct (needs_transfer_ok P x1 x' item (match map_file F (tx_fs x1) (place item) with inr d => d | inl _ => [] end))
    as (H1 & H2 & H3); [by rewrite <- Hs1| |unfold makes_file; by rewrite Ed, El, Ef|reflexivity|by rewrite <- Hs1|].
  { rewrite <- Hs1. unfold item_ok, placed, makes_link, makes_file. rewrite Ed, El, Ef. done. }
  rewrite <- Hs1 in H2, H3. split; [done|]. split; [intros q Hq Hne; apply H2; [done|by apply Hne]|done].
Qed.

(** ** The list *)

Lemma item_ok_same P s s' item :
  (placed item = true -> what s' (place item) = what s (place item)) ->
  (makes_file (it_entry item) = true -> what s' (it_source_path item) = what s (it_source_path item)) ->
  item_ok P s item -> item_ok P s' item.
Proof.
  intros Hp Hs (H2 & H3). split; [done|]. intros Hf. rewrite Hs by done.
  rewrite Hp by (unfold placed; by rewrite Hf, orb_true_r). by apply H3.
Qed.

Lemma item_done_same item s0 s0' s1 s s' :
  (placed item = true -> what s0' (place item) = what s0 (place item)) ->
  (makes_file (it_entry item) = true -> what s0' (it_source_path item) = what s0 (it_source_path item)) ->
  (placed item = true -> what s' (place item) = what s (place item)) ->
  item_done item s0 s1 s -> item_done item s0' s1 s'.
Proof.
  intros Hp Hs Hq [H1 H2]. assert (Hl : makes_link (it_entry item) = true -> placed item = true)
    by (unfold placed; by intros ->). assert (Hf : makes_file (it_entry item) = true -> placed item = true)
    by (unfold placed; intros ->; by rewrite orb_true_r).
  split; intros Hm.
  - specialize (H1 Hm). rewrite Hp, Hq by auto. exact H1.
  - specialize (H2 Hm). rewrite Hp, Hq, Hs by auto. exact H2.
Qed.

(** No two entries have the same place, and no place is a source. *)
Definition apart (items : list FileListItem) : Prop :=
  NoDup (map place (List.filter placed items)) /\
  forall i j, i ∈ items -> j ∈ items -> makes_file (it_entry i) = true -> placed j = true -> it_source_path i <> place j.

Lemma apart_cons i items : apart (i :: items) ->
  apart items /\ (placed i = true -> forall j, j ∈ items -> placed j = true -> place j <> place i).
Proof.
  intros [Hn Hs]. cbn [List.filter] in Hn. split.
  - split; [|intros a b Ha Hb; apply Hs; by right]. destruct (placed i); [|done]. by apply NoDup_cons in Hn as [_ Hn].
  - intros Hi j Hj Hpj Heq. rewrite Hi in Hn. cbn [map] in Hn. apply NoDup_cons in Hn as [Hn _]. apply Hn.
    rewrite <- Heq. apply list_elem_of_fmap_2. apply list_elem_of_In, filter_In. by rewrite <- list_elem_of_In.
Qed.

Section items.
  Context (P : list (list Z)) (deleter : Deleter) (all_entries : list FileEntry) (source_path_of : list Z -> option (list Z)).
Let one := transfer_entry F H ctx pipe pipe_compressed options dest deleter all_entries source_path_of.

Lemma each_ok items x x' :
  owned P (tx_fs x) -> Forall (item_ok P (tx_fs x)) items -> apart items ->
  (forall i, i ∈ items -> makes_file (it_entry i) = true -> source_path_of (name (it_entry i)) = Some (it_source_path i)) ->
  each one items x = (inr tt, x') ->
  (forall q, q ∈ P -> (forall j, j ∈ items -> placed j = true -> q <> place j) -> what (tx_fs x') q = what (tx_fs x) q) /\
  forall pre item post, items = pre ++ item :: post -> exists x1,
    each one pre x = (inr tt, x1) /\ item_done item (tx_fs x) (tx_fs x1) (tx_fs x').
Proof.
  revert x. induction items as [|i items IH]; intros x Ho Hok Hap Hsp Hrun.
  { injection Hrun as <-. split; [done|]. by intros [] ? ?. }
  cbn [each] in Hrun. apply bind_ok in Hrun as ([] & x1 & Hi & Hrun). apply Forall_cons in Hok as [Hoki Hok].
  destruct (apart_cons _ _ Hap) as [Hap' Hpl]. destruct Hap as [_ Hsrc].
  destruct (transfer_entry_ok P deleter all_entries source_path_of i x x1 Ho Hoki) as (Ho1 & Hu & Hdone);
    [apply Hsp; left|exact Hi|].
  assert (Hsame : forall j, j ∈ items ->
    (placed j = true -> what (tx_fs x1) (place j) = what (tx_fs x) (place j)) /\
    (makes_file (it_entry j) = true -> what (tx_fs x1) (it_source_path j) = what (tx_fs x) (it_source_path j))).
  { intros j Hj. rewrite Forall_forall in Hok. destruct (Hok j Hj) as (Hpj & Hfj). split.
    - intros Hp. apply Hu; [by apply Hpj|]. intros Hpi. by apply Hpl.
    - intros Hf. apply Hu; [by apply Hfj|]. intros Hpi. apply Hsrc; [by right|left|done|done]. }
  destruct (IH x1 Ho1) as [Hfr Hall]; [|exact Hap'|intros; by apply Hsp; [right|]|exact Hrun|].
  { rewrite Forall_forall in Hok |- *. intros j Hj. destruct (Hsame j Hj). by apply (item_ok_same P (tx_fs x)); [..|apply Hok]. }
  split.
  - intros q Hq Hne. rewrite Hfr by (try done; intros j Hj; apply Hne; by right). apply Hu; [done|]. apply Hne. left.
  - intros [|i' pre] item post E; injection E as -> E.
    + exists x. split; [done|]. subst post. eapply item_done_same; [done|done| |exact Hdone].
      intros Hp. apply Hfr; [by apply Hoki|]. intros j Hj Hpj. apply not_eq_sym. by apply Hpl.
    + destruct (Hall pre item post E) as (x2 & Hx2 & Hd). exists x2. cbn [each]. split.
      * unfold mbind, act_bind. fold one in Hi. rewrite Hi. exact Hx2.
      * assert (Hj : item ∈ items) by (rewrite E, elem_of_app; right; left). destruct (Hsame item Hj) as [Hs1 Hs2].
        eapply item_done_same; [..|exact Hd]; [intros; symmetry; auto..|done].
Qed.
End items.

(** ** The whole transfer *)

Lemma needs_transfer_defers_nothing index e source_path basis :
  preserves tx_deferred (needs_transfer F H ctx pipe pipe_compressed options dest index e source_path basis).
Proof.
  unfold needs_transfer, append_tail, transfer_data, whole_or_delta, appended, skip_file, itemize.
  repeat first [preserves_step | case_bool_decide | match goal with |- preserves _ (if ?b then _ else _) => destruct b end
    | match goal with |- preserves _ (match ?b with Some _ => _ | None => _ end) => destruct b end].
Qed.

Lemma each_defers_nothing deleter all_entries source_path_of items :
  (forall i, i ∈ items -> makes_file (it_entry i) = true -> hlink_source (it_entry i) = None) ->
  preserves tx_deferred (each (transfer_entry F H ctx pipe pipe_compressed options dest deleter all_entries source_path_of) items).
Proof.
  intros Hh. apply preserves_each. intros i Hi x. specialize (Hh i Hi). unfold transfer_entry, mbind at 1, act_bind.
  assert (Hnd : forall n, (on_fs (dispatch_entry F rx (it_entry i)) x).1 <> inr (DeferredHardlink n)).
  { intros n. unfold on_fs, dispatch_entry, dispatch_entry_impl. revert Hh. unfold makes_file.
    destruct (FileEntry.is_dir (it_entry i)).
    { intros _. unfold mbind, act_bind, try_fs. by destruct (create_directory_impl F _ _ _ _ (tx_fs x)) as [[e|[]] s1]. }
    change (rx_options rx) with options.
    destruct (FileEntry.is_symlink (it_entry i) && Get.preserve_links options).
    { intros _. unfold mbind at 1, act_bind. destruct (create_symlink_impl F _ _ _ (tx_fs x)) as [[e|[]] s1]; done. }
    destruct (FileEntry.is_file (it_entry i)); [|done]. cbn [negb]. intros ->; [|done].
    destruct (should_skip_impl F (tx_fs x) (it_entry i) (rx_dest rx) options); [done|].
    destruct (try_link_dest_impl F _ _ _ _ (tx_fs x)) as [[] s1]; [done|].
    destruct (try_copy_dest_impl F _ _ _ s1) as [[] s2]; [done|]. by destruct (Get.dry_run options). }
  assert (Hd : tx_deferred (on_fs (dispatch_entry F rx (it_entry i)) x).2 = tx_deferred x) by apply preserves_deferred_on_fs.
  fold rx. destruct (on_fs (dispatch_entry F rx (it_entry i)) x) as [[e|action] x1]; cbn [fst snd] in *; [done|].
  rewrite <- Hd. revert x1 Hd Hnd. intros x1 _ Hnd. clear -Hnd.
  destruct action as [kind| |n|basis]; [..|by destruct (Hnd n)|].
  - revert x1. change (preserves tx_deferred (handled F options dest deleter all_entries (it_index i) (it_entry i) kind)).
    destruct kind; cbn [handled]; unfold itemize; repeat first [preserves_step|case_bool_decide|destruct (Get.itemize_changes options)].
  - done.
  - apply (needs_transfer_defers_nothing _ _ _ _ x1).
Qed.
Lemma source_path_map_ok items i : NoDup (map (fun i => name (it_entry i)) items) -> i ∈ items ->
  source_path_map items (name (it_entry i)) = Some (it_source_path i).
Proof.
  intros Hn Hi. unfold source_path_map. destruct (List.find _ (rev items)) as [j|] eqn:E; cbn [option_map].
  - apply List.find_some in E as [Hj%in_rev He]. apply bool_decide_eq_true in He. do 2 f_equal.
    apply list_elem_of_In in Hj. apply list_elem_of_lookup in Hi as [a Ha], Hj as [b Hb].
    assert (a = b); [|by simplify_eq]. eapply (NoDup_lookup _ a b (name (it_entry i)) Hn);
      rewrite list_lookup_fmap; [by rewrite Ha|rewrite Hb; cbn; by rewrite He].
  - exfalso. eapply List.find_none in E; [|apply in_rev; rewrite rev_involutive; by apply list_elem_of_In].
    by rewrite bool_decide_true in E.
Qed.

(** The places of the entries and the sources of the files, all owned. *)
Definition paths_of (items : list FileListItem) : list (list Z) :=
  map place (List.filter placed items) ++ map it_source_path (List.filter (fun i => makes_file (it_entry i)) items).

(** The list can be transferred: it asks nothing the state does not give. *)
Definition transferable (s : S) (items : list FileListItem) : Prop :=
  owned (paths_of items) s /\ apart items /\ NoDup (map (fun i => name (it_entry i)) items) /\
  Forall (item_ok (paths_of items) s) items.

(** The counters as they are when the first entry is met. *)
Definition announced (items : list FileListItem) (x : Transfer S) : Transfer S :=
  with_budget (DeleteBudget_new (Get.max_delete options))
    (totals (Z.of_nat (length items)) (as_u64 (total_bytes items))
      (with_stats (count_total (Z.of_nat (length items))) x)).

Lemma local_transfer_items fuel items filters x x' :
  tx_deferred x = [] -> transferable (tx_fs x) items ->
  transfer_items F H ctx pipe pipe_compressed options dest fuel items filters x = (inr tt, x') ->
  let one := transfer_entry F H ctx pipe pipe_compressed options dest
    (mkDeleter filters (Get.dry_run options) (bool_decide (Get.delete options = DelExcluded)))
    (map it_entry items) (source_path_map items) in
  forall pre item post, items = pre ++ item :: post -> exists x1,
    each one pre x = (inr tt, x1) /\ item_done item (tx_fs x) (tx_fs x1) (tx_fs x').
Proof.
  intros Hdef (Ho & Hap & Hn & Hok) Hrun one.
  destruct options_facts as (_ & _ & _ & _ & _ & Hdel & Hpr & _). unfold transfer_items in Hrun. rewrite Hdel, Hpr in Hrun.
  cbn [bool_decide] in Hrun. apply bind_ok in Hrun as ([] & x0 & [= <-] & Hrun).
  apply bind_ok in Hrun as ([] & x1 & Heach & Hrun).
  assert (Hd1 : tx_deferred x1 = []).
  { rewrite <- Hdef. change x1 with (inr tt : failure + unit, x1).2. rewrite <- Heach. apply each_defers_nothing.
    intros i Hi Hf. rewrite Forall_forall in Hok. by apply (Hok i Hi). }
  apply bind_ok in Hrun as ([] & x2 & Hl & Hrun). rewrite Hd1 in Hl. injection Hl as <-.
  apply bind_ok in Hrun as ([] & x3 & [= <-] & [= <-]). cbn [tx_fs with_stats with_fs].
  unfold one. rewrite Hdel.
  apply (each_ok (paths_of items) _ _ _ items x x1 Ho Hok Hap); [|exact Heach].
  intros i Hi _. by apply source_path_map_ok.
Qed.


End local.
End spec.

(** ** A transfer on the Unix file system *)

From S2P Require Import Posix PosixFacts UnixFs UnixSpec UnixStream.

Definition unix := UnixFileSystem no_crates.
Definition trial_source : os :=
  let o := (Fs.mkdir unix (str_bytes "/s") 0x1ED empty_os).2 in
  let o := (Fs.write_file unix (str_bytes "/s/f") small_source (Some 0x1A4) o).2 in
  let o := (Fs.create_symlink unix (str_bytes "f") (str_bytes "/s/l") o).2 in
  let o := (Fs.mkdir unix (str_bytes "/t") 0x1ED o).2 in
  (Fs.write_file unix (str_bytes "/t/f") small_basis (Some 0x1A4) o).2.
Definition trial_options : TransferConfig :=
  Builder.build (Builder.ignore_times true (Builder.dest (str_bytes "/t")
    (Builder.source (str_bytes "/s") (Builder.archive TransferConfig.default)))).
(** What the pipeline returns on one schedule. *)
Definition trial_pipe (source basis : list Z) : result (list Z) :=
  match transfer_outcome (greedy DUPLEX_CAPACITY [1; 2; 3]%nat 1000 (transfer_file toy_hash source basis small_ctx)) with
  | Some r => r
  | None => Err broken
  end.
Definition trial_filters : FilterRuleList :=
  match option_filters trial_options (Fs.view unix trial_source) with inr f => f | inl _ => FilterRuleList_new end.
Definition trial_list : list FileListItem * FilterRuleList :=
  match build_list trial_options 10 (Fs.view unix trial_source) trial_filters with inr q => q | inl _ => ([], trial_filters) end.
Definition trial_start : Transfer os := fresh trial_source ProgressTracker_new.
Abbreviation trial_run :=
  (execute_transfer_impl unix toy_hash small_ctx trial_pipe trial_pipe 10 trial_options trial_start).
Lemma run_ok {A B C} (q : (A + B) * C) b : q.1 = inr b -> q = (inr b, q.2).
Proof. by destruct q as [r c]; intros [= ->]. Qed.

Lemma trial_carried : carried toy_hash small_ctx trial_pipe small_basis small_source.
Proof.
  split.
  - exists small_sums. split_and!; [vm_compute; reflexivity..|vm_compute; discriminate|apply collision_free_dec; vm_compute; reflexivity].
  - exists (greedy DUPLEX_CAPACITY [1; 2; 3]%nat 1000 (transfer_file toy_hash small_source small_basis small_ctx)).
    split; [apply greedy_reaches|]. vm_compute. reflexivity.
Qed.

Definition trial_items : list FileListItem := trial_list.1.

Lemma trial_items_ok :
  Forall (item_ok unix toy_hash small_ctx trial_pipe trial_options (str_bytes "/t") (paths_of trial_options (str_bytes "/t") trial_items) (tx_fs trial_start)) trial_items.
Proof.
  assert (Hb : forallb (fun i => implb (placed trial_options i) (bool_decide (place trial_options (str_bytes "/t") i ∈ (paths_of trial_options (str_bytes "/t") trial_items))) &&
    implb (makes_file trial_options (it_entry i)) (match hlink_source (it_entry i) with None => true | _ => false end &&
      bool_decide (it_source_path i ∈ (paths_of trial_options (str_bytes "/t") trial_items)) &&
      match thing_at (tree_of (tx_fs trial_start)) (place trial_options (str_bytes "/t") i), thing_at (tree_of (tx_fs trial_start)) (it_source_path i) with
      | Some (File b), Some (File d) => bool_decide (b = small_basis) && bool_decide (d = small_source)
      | _, _ => false
      end)) trial_items = true) by (vm_compute; reflexivity).
  revert Hb. generalize (paths_of trial_options (str_bytes "/t") trial_items), (tx_fs trial_start), trial_items. intros P s items Hb.
  rewrite Forall_forall. intros i Hi. apply (forallb_elem _ _ i Hb) in Hi. clear Hb. apply andb_true_iff in Hi as [H1 H2]. split.
  { intros Hp. rewrite Hp in H1. by apply bool_decide_eq_true in H1. }
  intros Hf. rewrite Hf in H2. cbn [implb] in H2. rewrite !andb_true_iff in H2. destruct H2 as ((H2 & H3) & H4).
  apply bool_decide_eq_true in H3. change (FsSpec.what (F := unix)) with (fun o => thing_at (tree_of o)). cbv beta. unfold not_link.
  destruct (thing_at _ (place _ _ i)) as [[b|]|] eqn:Eb; try done.
  destruct (thing_at _ (it_source_path i)) as [[d|]|] eqn:Ed; try done. apply andb_true_iff in H4 as [H4 H5].
  apply bool_decide_eq_true in H4, H5. subst b d. split_and!; try done; [by destruct (hlink_source _)|].
  intros d [= <-]. split; [right; right; vm_compute; reflexivity|]. intros _ b [= <-] _. exact trial_carried.
Qed.

Lemma trial_apart : apart trial_options (str_bytes "/t") trial_items /\ NoDup (map (fun i => name (it_entry i)) trial_items).
Proof.
  assert (Hb : forallb (fun i => forallb (fun j => negb (placed trial_options j && bool_decide (it_source_path i = place trial_options (str_bytes "/t") j)))
    trial_items) trial_items = true) by (vm_compute; reflexivity).
  split; [split|]; [apply (bool_decide_eq_true_1 _); vm_compute; reflexivity| |apply (bool_decide_eq_true_1 _); vm_compute; reflexivity].
  revert Hb. generalize trial_items. intros items Hb i j Hi Hj _ Hp E.
  pose proof (forallb_elem _ _ j (forallb_elem _ _ i Hb Hi) Hj) as H1. cbv beta in H1. by rewrite Hp, E, bool_decide_true in H1.
Qed.

