(* ===== verification/DryRun.v ===== *)
(** A dry run of the local transfer changes nothing ([transfer.rs],
    [receiver_engine.rs], [delete.rs]), on any file system. *)
From S2P Require Import Prelude Wire Types Text Utf8 Acl Sort Filter Scanner Options Fs Chmod Progress Listing FileDecision Delete ReceiverEngine Checksum LocalTransfer.

Section dry.
  Context {S : Type} (F : FsOps S) (H : HashLib) (ctx : ProtocolContext).
  Context (pipe pipe_compressed : list Z -> list Z -> result (list Z)).
  Context (options : TransferConfig) (Hdry : Get.dry_run options = true).

Abbreviation keeps := (preserves (tx_fs (S := S))).

Lemma keeps_on_fs {A} (m : act failure S A) : (forall s, (m s).2 = s) -> keeps (on_fs m).
Proof. intros Hm x. unfold on_fs. specialize (Hm (tx_fs x)). destruct (m (tx_fs x)) as [r s]; cbn in *. by subst. Qed.
Lemma keeps_deleting del : (forall b s, (del b s).2.2 = s) -> keeps (deleting del).
Proof.
  intros Hd x. unfold deleting. specialize (Hd (tx_budget x) (tx_fs x)).
  destruct (del (tx_budget x) (tx_fs x)) as [n [b s]]; cbn in *. by subst.
Qed.
(** *** The calls on the file system *)

Lemma dry_delete_entries d dest in_source entries deleted remaining s : dl_dry_run d = true ->
  (delete_entries F d dest in_source entries deleted remaining s).2.2 = s.
Proof.
  intros Hd. revert deleted remaining. induction entries as [|e entries IH]; intros deleted remaining; [done|].
  rewrite delete_entries_cons. destruct (extraneous d in_source e); [|apply IH].
  destruct (try_consume remaining) as [[] r]; cbn [negb]; [|done]. unfold remove_entry at 1. rewrite Hd. apply IH.
Qed.

Lemma dry_prune fuel root dir s n s' :
  prune_empty_dirs_recursive F fuel root dir true s = Some (n, s') -> s' = s.
Proof.
  revert dir s n s'. induction fuel as [|f IH]; intros dir s n s'; [done|]. cbn [prune_empty_dirs_recursive].
  destruct (read_dir (view F s) dir) as [|entries]; [by intros [= _ <-]|].
  assert (Hfold : forall entries q p, q.2 = s ->
    foldl (fun (acc : option (Z * S)) e => q ← acc;
      if entry_is_dir e then p ← prune_empty_dirs_recursive F f root (path_join dir (de_name e)) true q.2;
        Some (as_u64 (q.1 + p.1), p.2) else Some q) (Some q) entries = Some p -> p.2 = s).
  { clear entries. induction entries as [|e entries IHe]; intros q p Hq; cbn [foldl]; [by intros [= <-]|].
    cbn [mbind option_bind]. destruct (entry_is_dir e); [|by apply IHe].
    destruct (prune_empty_dirs_recursive F f root (path_join dir (de_name e)) true q.2) as [[m u]|] eqn:E; cbn [mbind option_bind].
    - apply IHe. cbn. apply IH in E. congruence.
    - intros Hn. exfalso. revert Hn. clear. induction entries; [done|exact IHentries]. }
  match goal with |- context [foldl ?g ?a ?l] => destruct (foldl g a l) as [q|] eqn:E; [|done] end.
  apply Hfold in E; [|done]. cbn [mbind option_bind]. destruct (path_eq dir root); [by intros [= ->]; cbn in E|].
  destruct (read_dir (view F q.2) dir); [by intros [= ->]; cbn in E|]. case_bool_decide; [by intros [= _ <-]|by intros [= ->]].
Qed.

Lemma dry_dispatch rx entry : rx_options rx = options -> forall s,
  (dispatch_entry F rx entry s).2 = s /\ forall basis, (dispatch_entry F rx entry s).1 <> inr (NeedsTransfer basis).
Proof.
  intros Hrx s. unfold dispatch_entry, dispatch_entry_impl. rewrite Hrx.
  destruct (FileEntry.is_dir entry).
  { unfold mbind, act_bind, try_fs, create_directory_impl. rewrite Hdry. cbn [negb]. by rewrite andb_false_r. }
  destruct (FileEntry.is_symlink entry && Get.preserve_links options).
  { unfold create_symlink_impl. rewrite Hdry. cbn [negb andb].
    destruct (Get.safe_links options && is_unsafe_symlink (link_target entry)); done. }
  destruct (negb (FileEntry.is_file entry)); [done|]. destruct (hlink_source entry); [done|].
  destruct (should_skip_impl F s entry (rx_dest rx) options); [done|].
  unfold try_link_dest_impl, try_copy_dest_impl. by rewrite Hdry, !orb_true_r.
Qed.

Lemma dry_hardlinks rx deferred all_entries s : rx_options rx = options ->
  (create_deferred_hardlinks F rx deferred all_entries s).2 = s.
Proof.
  intros Hrx. unfold create_deferred_hardlinks, create_deferred_hardlinks_impl. rewrite Hrx.
  enough (He : forall q : Z * S, (foldl (deferred_hardlink F (rx_dest rx) options all_entries) q deferred).2 = q.2) by apply He.
  induction deferred as [|[e n] deferred IH]; intros q; [done|]. cbn [foldl]. rewrite IH. unfold deferred_hardlink.
  destruct (List.find _ all_entries); [|done]. by rewrite Hdry.
Qed.

(** *** The steps *)

Lemma keeps_skip_file index entry : keeps (skip_file (S := S) index entry).
Proof. unfold skip_file. repeat preserves_step. Qed.
Lemma keeps_itemize dest index entry : keeps (itemize F options dest index entry).
Proof. unfold itemize. destruct (Get.itemize_changes options); repeat preserves_step. Qed.
#[local] Hint Resolve keeps_skip_file keeps_itemize : preserves.

Lemma keeps_delete_in_dir filters excluded path all_entries n :
  keeps (deleting (delete_extraneous_in_dir F (mkDeleter filters true excluded) path all_entries n)).
Proof.
  apply keeps_deleting. intros b s. unfold delete_extraneous_in_dir. destruct (read_dir (view F s) path); [done|].
  by apply dry_delete_entries.
Qed.
Lemma keeps_delete filters excluded path all_entries :
  keeps (deleting (delete_extraneous F (mkDeleter filters true excluded) path all_entries)).
Proof.
  apply keeps_deleting. intros b s. unfold delete_extraneous. destruct (read_dir (view F s) path); [done|].
  by apply dry_delete_entries.
Qed.
#[local] Hint Resolve keeps_delete_in_dir keeps_delete : preserves.

Lemma keeps_handled dest filters excluded all_entries index entry kind :
  keeps (handled F options dest (mkDeleter filters true excluded) all_entries index entry kind).
Proof. destruct kind; cbn [handled]; repeat first [preserves_step|case_bool_decide]. Qed.

Lemma keeps_transfer_entry dest filters excluded all_entries source_path_of item :
  keeps (transfer_entry F H ctx pipe pipe_compressed options dest (mkDeleter filters true excluded) all_entries source_path_of item).
Proof.
  intros x. unfold transfer_entry, mbind, act_bind, on_fs.
  destruct (dry_dispatch (Receiver_new dest options) (it_entry item) eq_refl (tx_fs x)) as [Hs Hn].
  destruct (dispatch_entry F (Receiver_new dest options) (it_entry item) (tx_fs x)) as [[e|action] s]; cbn in Hs, Hn; subst s; [done|].
  destruct action as [kind| |n|basis]; [by rewrite keeps_handled|by rewrite keeps_skip_file|done|by destruct (Hn basis)].
Qed.

Lemma keeps_hardlinks_step dest all_entries : keeps (fun x : Transfer S =>
  let '(n, s) := create_deferred_hardlinks F (Receiver_new dest options) (tx_deferred x) all_entries (tx_fs x) in
  (inr tt : failure + unit, with_stats (count_transferred n) (with_fs s x))).
Proof.
  intros x. pose proof (dry_hardlinks (Receiver_new dest options) (tx_deferred x) all_entries (tx_fs x) eq_refl) as Hs.
  by destruct (create_deferred_hardlinks _ _ _ _ _).
Qed.
Lemma keeps_prune_step fuel dest : keeps (fun x : Transfer S =>
  match prune_empty_dirs F fuel dest true (tx_fs x) with
  | Some (n, s) => (inr n : failure + Z, with_fs s x)
  | None => (inl EDeep, x)
  end).
Proof.
  intros x. destruct (prune_empty_dirs F fuel dest true (tx_fs x)) as [[n s]|] eqn:E; [|done].
  by apply dry_prune in E as ->.
Qed.
#[local] Hint Resolve keeps_hardlinks_step keeps_prune_step keeps_transfer_entry : preserves.

(** C14. A dry run changes nothing: whatever the options are besides, and
    whatever the outcome, the file system is afterwards what it was. *)
Theorem dry_run_changes_nothing (fuel : nat) (x : Transfer S) :
  tx_fs (execute_transfer_impl F H ctx pipe pipe_compressed fuel options x).2 = tx_fs x.
Proof.
  revert x. change (keeps (execute_transfer_impl F H ctx pipe pipe_compressed fuel options)).
  unfold execute_transfer_impl. destruct (Get.dest options) as [dest|]; [|by auto with preserves].
  repeat first [preserves_step | match goal with |- preserves _ (let '(_, _) := ?q in _) => destruct q end].
  destruct (Get.list_only options).
  { apply preserves_modify. intros x. revert x. induction l as [|i l IH]; intros x; [done|]. cbn [foldl]. by rewrite IH. }
  preserves_step; [preserves_step|]. unfold transfer_items. rewrite Hdry.
  repeat first [apply keeps_transfer_entry | preserves_step | apply preserves_each; intros ? _ | case_bool_decide
    | match goal with |- preserves _ (if ?b then _ else _) => destruct b end].
Qed.
End dry.

From S2P Require Import Pipeline Posix UnixFs UnixSpec UnixStream LocalSpec Transfer.
Definition dry_options : TransferConfig :=
  Builder.build (Builder.dry_run true (Builder.delete DelBefore (Builder.dest (str_bytes "/t")
    (Builder.source (str_bytes "/s") (Builder.archive TransferConfig.default))))).
Abbreviation dry_trial :=
  (execute_transfer_impl unix toy_hash small_ctx trial_pipe trial_pipe 10 dry_options trial_start).
Lemma dry_run_changes_nothing_witness :
  dry_trial.1 = inr tt /\ files_transferred (tx_stats dry_trial.2) = 1 /\ tx_fs dry_trial.2 = tx_fs trial_start.
Proof.
  split; [vm_compute; reflexivity|]. split; [vm_compute; reflexivity|].
  apply dry_run_changes_nothing. vm_compute. reflexivity.
Defined.
