(* ===== verification/WireTransfer.v ===== *)
(** [ferrosync-engine/src/wire_transfer.rs]: the sender's loop, and the
    generator and the receiver of the other side, over the data streams that
    the multiplexer delivers ([Multiplex.v]).

    A loop works on a [Peer]: the file system of its machine, the data bytes
    that are there to be read, those it has written, the indices it confirmed
    with a success message, the statistics and the progress.  Each turn of a
    loop is a definition of its own; [WireSystem.v] interleaves them. *)
From S2P Require Import Prelude Wire Types Text Utf8 Varint WireFormat Handshake Checksum Sum Matcher Compress Token Incremental Filter Scanner Options Fs Chmod Progress FileDecision ReceiverEngine Transfer LocalTransfer.

Record Peer (S : Type) := mkPeer {
  pr_fs : S;
  pr_in : list Z;
  pr_out : list Z;
  pr_success : list Z;
  pr_stats : TransferStats;
  pr_progress : ProgressTracker;
}.
Arguments mkPeer {S} _ _ _ _ _ _.
Arguments pr_fs {S} _.
Arguments pr_in {S} _.
Arguments pr_out {S} _.
Arguments pr_success {S} _.
Arguments pr_stats {S} _.
Arguments pr_progress {S} _.

Abbreviation wire_act S := (act failure (Peer S)).

Section peer.
  Context {S : Type}.
Definition peer_fs (s : S) (x : Peer S) : Peer S := mkPeer s (pr_in x) (pr_out x) (pr_success x) (pr_stats x) (pr_progress x).
Definition peer_in (i : list Z) (x : Peer S) : Peer S := mkPeer (pr_fs x) i (pr_out x) (pr_success x) (pr_stats x) (pr_progress x).
Definition peer_put (bs : list Z) (x : Peer S) : Peer S :=
  mkPeer (pr_fs x) (pr_in x) (pr_out x ++ bs) (pr_success x) (pr_stats x) (pr_progress x).
Definition peer_confirm (ndx : Z) (x : Peer S) : Peer S :=
  mkPeer (pr_fs x) (pr_in x) (pr_out x) (pr_success x ++ [ndx]) (pr_stats x) (pr_progress x).
Definition peer_stats (f : TransferStats -> TransferStats) (x : Peer S) : Peer S :=
  mkPeer (pr_fs x) (pr_in x) (pr_out x) (pr_success x) (f (pr_stats x)) (pr_progress x).
Definition peer_emit (e : ProgressEvent) (x : Peer S) : Peer S :=
  mkPeer (pr_fs x) (pr_in x) (pr_out x) (pr_success x) (pr_stats x) (emit e (pr_progress x)).

Definition update (f : Peer S -> Peer S) : wire_act S unit := fun x => (inr tt, f x).
(** [r(demux).await?] *)
Definition get {A} (r : rd A) : wire_act S A := fun x =>
  match r (pr_in x) with
  | Ok (a, rest) => (inr a, peer_in rest x)
  | Err e => (inl (EProtocol e), x)
  | Panic => (inl EPanic, x)
  end.
(** Write into a buffer, and the buffer to the stream. *)
Definition put {A} (w : wr A) : wire_act S A := fun x =>
  match w with
  | (Ok a, bs) => (inr a, peer_put bs x)
  | (Err e, _) => (inl (EProtocol e), x)
  | (Panic, _) => (inl EPanic, x)
  end.
Definition lift_fs {A} (m : act failure S A) : wire_act S A := fun x =>
  let '(r, s) := m (pr_fs x) in (r, peer_fs s x).
(** The outcome of a call whose error is looked at; a panic goes on. *)
Definition attempt {A} (m : act failure S A) : wire_act S (failure + A) := fun x =>
  let '(r, s) := m (pr_fs x) in
  match r with
  | inl EPanic => (inl EPanic, peer_fs s x)
  | inl EDeep => (inl EDeep, peer_fs s x)
  | r => (inr r, peer_fs s x)
  end.
(** [v[i]] *)
Definition at_index {A} (v : list A) (i : nat) : wire_act S A :=
  of_sum (match v !! i with Some a => inr a | None => inl EPanic end).
End peer.

(** The counters that a local transfer does not use. *)
Definition count_matched (n : Z) (t : TransferStats) : TransferStats :=
  mkTransferStats (files_transferred t) (total_files t) (bytes_sent t) (bytes_received t) (total_size t)
    (as_u64 (matched_data t + n)) (literal_data t) (files_skipped t) (files_deleted t) (symlinks t) (directories_created t).
Definition count_received (n : Z) (t : TransferStats) : TransferStats :=
  mkTransferStats (files_transferred t) (total_files t) (bytes_sent t) (as_u64 (bytes_received t + n)) (total_size t)
    (matched_data t) (as_u64 (literal_data t + n)) (files_skipped t) (files_deleted t) (symlinks t) (directories_created t).

(** ** The source files *)

Record FileReader (S : Type) := mkFileReader {
  fr_read_file : S -> FileEntry -> FsError + list Z;
  fr_open_stream : S -> FileEntry -> FsError + list Z;
}.
Arguments mkFileReader {S} _ _.
Arguments fr_read_file {S} _.
Arguments fr_open_stream {S} _.

Section readers.
  Context {S : Type} (G : FsOps S).

(** The trait's own [open_stream]. *)
Definition default_open_stream (read_file : S -> FileEntry -> FsError + list Z) : S -> FileEntry -> FsError + list Z :=
  read_file.

(** What a stream over a file reads, to its end. *)
Definition read_file_stream (s : S) (path : list Z) : FsError + list Z := Scanner.read_file (view G s) path.

Definition local_source_path (s : S) (source_paths : list (list Z)) (source : list Z) (entry : FileEntry) : list Z :=
  if (length source_paths =? 1)%nat &&
     match lstat (view G s) source with inr m => Z.land (md_mode m) S_IFMT =? S_IFDIR | inl _ => false end
  then path_join source (from_utf8_lossy (name entry))
  else source.

(** The first of the sources that can be opened; else nothing at all. *)
Fixpoint first_readable (open : list Z -> FsError + list Z) (paths : list (list Z)) : FsError + list Z :=
  match paths with
  | [] => inr []
  | p :: paths' => match open p with inr d => inr d | inl _ => first_readable open paths' end
  end.

Definition LocalFileReader (source_paths : list (list Z)) : FileReader S :=
  mkFileReader
    (fun s entry => first_readable (map_file G s) (map (fun p => local_source_path s source_paths p entry) source_paths))
    (fun s entry => first_readable (read_file_stream s) (map (fun p => local_source_path s source_paths p entry) source_paths)).

Definition ModuleFileReader (module_path : list Z) : FileReader S :=
  let path (entry : FileEntry) := path_join module_path (from_utf8_lossy (name entry)) in
  mkFileReader
    (fun s entry => match map_file G s (path entry) with inr d => inr d | inl _ => inr [] end)
    (fun s entry => match read_file_stream s (path entry) with inr d => inr d | inl _ => inr [] end).
End readers.

(** ** Either token writer *)

Inductive AnyTokenWriter (C : Compression) :=
  | PlainWriter (w : PlainTokenWriter)
  | CompressedWriter (w : CompressedTokenWriter C).
Arguments PlainWriter {C} _.
Arguments CompressedWriter {C} _.

Definition any_write {C} (plain : PlainTokenWriter -> wr PlainTokenWriter)
    (compressed : CompressedTokenWriter C -> wr (CompressedTokenWriter C)) (w : AnyTokenWriter C) : wr (AnyTokenWriter C) :=
  match w with
  | PlainWriter w => w ← plain w; mret (PlainWriter w)
  | CompressedWriter w => w ← compressed w; mret (CompressedWriter w)
  end.
#[export] Instance any_writer (C : Compression) : TokenWriter (AnyTokenWriter C) := {
  tw_write_data := fun data => any_write (tw_write_data data) (tw_write_data data);
  tw_write_block_match := fun index => any_write (tw_write_block_match index) (tw_write_block_match index);
  tw_write_eof := any_write tw_write_eof tw_write_eof;
}.

Definition ITEM_TRANSFER : Z := 2 ^ 15.

Section wire.
  Context (H : HashLib) (B : Backends) (fuel : nat).
  Context (protocol : NegotiatedProtocol) (block_size : option Z).

Definition wire_ctx : ProtocolContext :=
  let c := from_protocol protocol in
  mkProtocolContext (ctx_seed c) (ctx_checksum_type c) (char_offset c) (ctx_proper_seed_order c) block_size.
Definition codec : IntCodec := int_codec (wire protocol).

Definition any_token_writer : result (AnyTokenWriter (backends B fuel)) :=
  if negb (bool_decide (compress protocol = CpNone)) then
    c ← Compressor_from_type B (compress protocol) 6;
    Ok (CompressedWriter (CompressedTokenWriter_new (backends B fuel) c))
  else Ok (PlainWriter mkPlainWriter).

(** [HashMap::from_iter]: of equal indices the last one counts. *)
Definition build_ndx_map (ndx_values : list Z) : gmap Z nat :=
  foldl (fun m p => <[p.2 := p.1]> m) ∅ (imap pair ndx_values).

(** ** The sender *)

Section sender.
  Context {S : Type} (reader : FileReader S) (entries : list FileEntry) (ndx_map : gmap Z nat).
  Context (dry_run append_mode : bool).

Record SenderState := mkSenderState {
  gen_ndx_state : NdxState;
  send_ndx_state : NdxState;
  phase : Z;
  pending_flists : option PendingSubFlists;
}.

Definition inject_pending (st : SenderState) : wire_act S SenderState :=
  match pending_flists st with
  | Some p =>
      if is_done p then mret st
      else p ← put (send_pending 1 p);
           mret (mkSenderState (gen_ndx_state st) (send_ndx_state st) (phase st) (Some p))
  | None => mret st
  end.

(** What the tokens of a file have come to. *)
Record Sent := mkSent {
  tok_writer : AnyTokenWriter (backends B fuel);
  literal_bytes : Z;
  matched_bytes : Z;
}.

Definition send_op (blength : Z) (sent : Sent) (op : DiffOp) : wire_act S Sent :=
  match op with
  | Matcher.Literal data =>
      w ← put (tw_write_data data (tok_writer sent));
      mret (mkSent w (as_u64 (literal_bytes sent + Z.of_nat (length data))) (matched_bytes sent))
  | Matcher.Copy bref =>
      w ← put (i ← wr_lift (block_index bref blength); tw_write_block_match i (tok_writer sent));
      mret (mkSent w (literal_bytes sent) (as_u64 (matched_bytes sent + br_length bref)))
  end.
Fixpoint send_ops (blength : Z) (sent : Sent) (ops : list DiffOp) : wire_act S Sent :=
  match ops with
  | [] => mret sent
  | op :: ops' => sent ← send_op blength sent op; send_ops blength sent ops'
  end.

(** The loop over the chunks; one turn per byte and two more are enough. *)
Fixpoint send_stream (rounds : nat) (blength : Z) (m : StreamingMatcher) (source : list Z)
    (file_hash : IncrementalChecksum H) (sent : Sent) : wire_act S (IncrementalChecksum H * Sent) :=
  match rounds with
  | O => of_sum (inl EDeep)
  | Datatypes.S rounds' =>
      let '(ops, done, m, source, file_hash) := process_chunk H m source file_hash in
      sent ← send_ops blength sent ops;
      if done : bool then mret (file_hash, sent)
      else send_stream rounds' blength m source file_hash sent
  end.

(** Tokens and checksum. *)
Definition send_file (entry : FileEntry) (s : SumStruct) : wire_act S Sent :=
  w ← of_result any_token_writer;
  let blength := as_u32 (blength (head s)) in
  let sent := mkSent w 0 0 in
  if STREAMING_THRESHOLD <=? len entry then
    source ← lift_fs (try_fs (fun fs => (fr_open_stream reader fs entry, fs)));
    q ← send_stream (Datatypes.S (Datatypes.S (length source))) blength
          (StreamingMatcher_new s wire_ctx DEFAULT_STREAM_CHUNK) source
          (IncrementalChecksum_new H (ctx_checksum_type wire_ctx)) sent;
    w ← put (tw_write_eof (tok_writer q.2));
    _ ← put (write_all (inc_finalize H q.1));
    mret (mkSent w (literal_bytes q.2) (matched_bytes q.2))
  else
    source ← lift_fs (try_fs (fun fs => (fr_read_file reader fs entry, fs)));
    sent ← send_ops blength sent (match_blocks H source s wire_ctx);
    w ← put (tw_write_eof (tok_writer sent));
    _ ← put (write_all (file_checksum H source wire_ctx));
    mret (mkSent w (literal_bytes sent) (matched_bytes sent)).

Definition reply_head (s : SumStruct) : SumHead :=
  if count (head s) =? 0 then mkSumHead 0 0 0 0
  else mkSumHead (count (head s)) (blength (head s)) (s2length (head s)) (remainder (head s)).

Definition with_send_ndx (n : NdxState) (st : SenderState) : SenderState :=
  mkSenderState (gen_ndx_state st) n (phase st) (pending_flists st).

(** A request for the data of a file. *)
Definition serve_file (ndx iflags : Z) (entry : FileEntry) (st : SenderState) : wire_act S SenderState :=
  s ← (if append_mode then h ← get read_sum_head; mret (mkSumStruct h []) else get read_sums);
  _ ← update (peer_emit (FileStart ndx (name entry) (len entry)));
  n ← put (n ← write_ndx ndx (send_ndx_state st) codec;
           _ ← write_iflags (wire protocol) iflags;
           _ ← write_sum_head (reply_head s);
           mret n);
  sent ← send_file entry s;
  _ ← update (peer_stats (fun t => count_literal (literal_bytes sent)
        (count_matched (matched_bytes sent) (count_size (as_u64 (len entry)) (count_transferred 1 t)))));
  _ ← update (peer_emit (FileComplete ndx (name entry) (literal_bytes sent) (matched_bytes sent)));
  mret (with_send_ndx n st).

(** An index other than the end markers. *)
Definition serve_ndx (ndx : Z) (st : SenderState) : wire_act S SenderState :=
  iflags ← get (read_iflags (wire protocol));
  match ndx_map !! ndx with
  | None => mret st
  | Some entry_idx =>
      entry ← at_index entries entry_idx;
      if negb (Z.land (mode entry) S_IFMT =? S_IFREG) then mret st
      else if has_iflags (wire protocol) && (Z.land iflags ITEM_TRANSFER =? 0) then
        n ← put (n ← write_ndx ndx (send_ndx_state st) codec; _ ← write_iflags_echo (wire protocol) iflags; mret n);
        mret (with_send_ndx n st)
      else if dry_run then
        _ ← update (peer_stats (fun t => count_size (as_u64 (len entry)) (count_transferred 1 t)));
        _ ← update (peer_emit (FileComplete ndx (name entry) (as_u64 (len entry)) 0));
        mret st
      else serve_file ndx iflags entry st
  end.

(** One turn of the loop: the next state, or the state at its end. *)
Definition sender_round (st : SenderState) : wire_act S (SenderState + SenderState) :=
  st ← inject_pending st;
  p ← get (read_ndx (gen_ndx_state st) codec);
  let '(ndx, g) := p in
  let st := mkSenderState g (send_ndx_state st) (phase st) (pending_flists st) in
  if ndx =? NDX_DONE then
    let st := mkSenderState g (send_ndx_state st) (phase st + 1) (pending_flists st) in
    if phase_count (wire protocol) <? phase st then mret (inr st)
    else n ← put (write_ndx NDX_DONE (send_ndx_state st) codec); mret (inl (with_send_ndx n st))
  else if ndx <? -1 then mret (inl st)
  else st ← serve_ndx ndx st; mret (inl st).

Fixpoint sender_rounds (rounds : nat) (st : SenderState) : wire_act S SenderState :=
  match rounds with
  | O => of_sum (inl EDeep)
  | Datatypes.S rounds' =>
      r ← sender_round st;
      match r with inl st => sender_rounds rounds' st | inr st => mret st end
  end.

Definition sender_start (pending : option PendingSubFlists) : SenderState :=
  mkSenderState NdxState_default NdxState_default 0 pending.
(** Every turn reads a byte, so there are no more turns than bytes to read, and
    the one that fails for want of one. *)
Definition sender_loop (pending : option PendingSubFlists) : wire_act S unit := fun x =>
  (st ← sender_rounds (Datatypes.S (length (pr_in x))) (sender_start pending);
   _ ← put (write_ndx NDX_DONE (send_ndx_state st) codec);
   mret tt) x.

End sender.

(** ** The generator and the receiver *)

Inductive GeneratorItem :=
  | ItemHandled (entry_idx : nat) (kind : HandledKind)
  | ItemDeferredHardlink (entry_idx : nat) (source_name : list Z)
  | ItemTransfer (entry_idx : nat) (basis_data : list Z) (blength : Z)
  | ItemDone.

Section receiver.
  Context {S : Type} (F : FsOps S) (open_append : list Z -> act FsError S (Writer F)) (rx : Receiver).
  Context (entries : list FileEntry) (entry_ndx : list Z).

(** What the generator says over the wire about a file it wants. *)
Definition request (ndx : Z) (sigs : SumStruct) (st : NdxState) : wr NdxState :=
  n ← write_ndx ndx st codec;
  _ ← (if has_iflags (wire protocol) then write_shortint ITEM_TRANSFER else mret tt);
  _ ← (if Get.append (rx_options rx) || Get.append_verify (rx_options rx) then write_sum_head (head sigs)
       else write_sums sigs);
  mret n.

(** One turn of the generator task: the item for the receiver, if there is one.
    The entry comes with its position and its index on the wire. *)
Definition generator_round (e : nat * Z * FileEntry) (st : NdxState) : wire_act S (NdxState * option GeneratorItem) :=
  let '(idx, file_ndx, entry) := e in
  _ ← (if FileEntry.is_file entry then _ ← attempt (try_fs (ensure_parent F rx entry)); mret tt else mret tt);
  action ← attempt (dispatch_entry F rx entry);
  match action with
  | inl _ => mret (st, None)
  | inr (Handled kind) => mret (st, Some (ItemHandled idx kind))
  | inr Skipped => mret (st, None)
  | inr (DeferredHardlink source_name) => mret (st, Some (ItemDeferredHardlink idx source_name))
  | inr (NeedsTransfer basis) =>
      x ← reading (fun x : Peer S => pr_fs x);
      let basis_data := if bool_decide (basis = []) then from_option id basis (find_fuzzy_basis F rx x entry) else basis in
      sigs ← of_result (compute_signatures H basis_data wire_ctx);
      let blength := if 0 <? blength (head sigs) then as_u64 (blength (head sigs)) else 700 in
      st ← put (request file_ndx sigs st);
      mret (st, Some (ItemTransfer idx basis_data blength))
  end.

Record ReceiverState := mkReceiverState {
  recv_ndx_state : NdxState;
  deferred_hardlinks : list (nat * list Z);
  successful_ndxs : list Z;
}.

(** *** The data of one file

    [recv_file_delta_to_writer_with] ([receiver.rs]) around a writer of the
    file system: what it holds, besides the peer. *)
Abbreviation writing_act := (act failure (Writer F * Peer S)).
Definition on_peer {A} (m : wire_act S A) : writing_act A := fun wx =>
  let '(r, x) := m wx.2 in (r, (wx.1, x)).
Definition write_part_to (d : list Z) : writing_act unit := fun wx =>
  let '(ok, (w, s)) := writer_write_all F d wx.1 (pr_fs wx.2) in
  (if ok then inr tt else inl (EProtocol (Io OtherIo)), (w, peer_fs s wx.2)).

Section tokens.
  Context {R : Type} `{TokenReaderT R} (basis : list Z) (blength : Z).

(** The reader, the checksum and the count of the bytes written so far. *)
Fixpoint tokens_to_writer (rounds : nat) (reader : R) (hasher : IncrementalChecksum H) (bytes_written : Z)
    : writing_act (IncrementalChecksum H * Z) :=
  match rounds with
  | O => of_sum (inl EDeep)
  | Datatypes.S rounds' =>
      p ← on_peer (get (tr_read_token reader));
      let part (d : list Z) : writing_act (IncrementalChecksum H * Z) :=
        _ ← write_part_to d;
        tokens_to_writer rounds' p.2 (inc_update H hasher d) (as_u64 (bytes_written + Z.of_nat (length d))) in
      match p.1 with
      | TData data => part data
      | TBlockMatch idx =>
          d ← of_result (block_slice basis blength idx);
          match d with Some d => part d | None => tokens_to_writer rounds' p.2 hasher bytes_written end
      | TEndOfFile => mret (hasher, bytes_written)
      end
  end.

Definition recv_file_to_writer (reader : R) : writing_act Z := fun wx =>
  (q ← tokens_to_writer (token_rounds basis blength (length (pr_in wx.2))) reader
         (IncrementalChecksum_new H (ctx_checksum_type wire_ctx)) 0;
   received ← on_peer (get (read_exact (Z.of_nat (ChecksumType.digest_len (ctx_checksum_type wire_ctx)))));
   let computed := inc_finalize H q.1 in
   if bool_decide (received = computed) then mret q.2
   else of_sum (inl (EProtocol (ChecksumMismatch (hex_encode received) (hex_encode computed))))) wx.
End tokens.

(** [let mut writer = ..; recv(.., &mut writer).await?; drop(writer)]: the
    writer is dropped also when the error is returned. *)
Definition with_writer {A} (entry : FileEntry) (recv : writing_act A) : wire_act S A :=
  w ← lift_fs (try_fs (create_writer F rx open_append entry));
  ((fun x =>
    let '(r, (w, x)) := recv (w, x) in
    (r, peer_fs (writer_drop F w (pr_fs x)) x)) : wire_act S A).

Definition receive_data (entry : FileEntry) (basis : list Z) (blength : Z) : wire_act S Z :=
  if needs_buffered_receive rx then
    data ← get (recv_file_delta H basis blength wire_ctx);
    _ ← lift_fs (try_fs (apply_transfer F rx entry data None));
    mret (Z.of_nat (length data))
  else
    n ← with_writer entry
      (if negb (bool_decide (compress protocol = CpNone)) then
         d ← of_result (Decompressor_from_type B (compress protocol));
         recv_file_to_writer basis blength (CompressedTokenReader_new (backends B fuel) d)
       else recv_file_to_writer basis blength mkPlainReader);
    _ ← lift_fs (try_fs (finish_file F rx entry None));
    mret n.

(** The reply to a request. *)
Definition receive_transfer (entry_idx : nat) (basis_data : list Z) (blength : Z) (st : ReceiverState)
    : wire_act S ReceiverState :=
  entry ← at_index entries entry_idx;
  _ ← update (peer_emit (FileStart (as_i32 (Z.of_nat entry_idx)) (name entry) (len entry)));
  p ← get (read_ndx (recv_ndx_state st) codec);
  _ ← get (read_iflags (wire protocol));
  sum_head ← get read_sum_head;
  let blength_actual := if 0 <? Sum.blength sum_head then as_u64 (Sum.blength sum_head) else blength in
  n ← receive_data entry basis_data blength_actual;
  _ ← update (peer_stats (fun t => count_received n (count_size (as_u64 (len entry)) (count_transferred 1 t))));
  _ ← update (peer_emit (FileComplete (as_i32 (Z.of_nat entry_idx)) (name entry) n 0));
  ndx ← at_index entry_ndx entry_idx;
  mret (mkReceiverState p.2 (deferred_hardlinks st) (successful_ndxs st ++ [ndx])).

Definition note_handled (index : Z) (entry : FileEntry) (kind : HandledKind) : wire_act S unit :=
  match kind with
  | HDirectory => update (peer_stats count_directory)
  | HSymlink =>
      _ ← update (peer_stats count_symlink);
      update (peer_emit (FileComplete index (name entry) 0 0))
  | HLinkDest | HCopyDest =>
      _ ← update (peer_stats (fun t => count_matched (as_u64 (len entry)) (count_transferred 1 t)));
      update (peer_emit (FileComplete index (name entry) 0 (as_u64 (len entry))))
  | HDryRun =>
      _ ← update (peer_stats (fun t => count_size (as_u64 (len entry)) (count_transferred 1 t)));
      update (peer_emit (FileComplete index (name entry) (as_u64 (len entry)) 0))
  end.

(** One turn of the receiver: the next state, or the state at its end. *)
Definition receiver_round (item : GeneratorItem) (st : ReceiverState) : wire_act S (ReceiverState + ReceiverState) :=
  match item with
  | ItemHandled entry_idx kind =>
      entry ← at_index entries entry_idx;
      _ ← note_handled (as_i32 (Z.of_nat entry_idx)) entry kind;
      mret (inl st)
  | ItemDeferredHardlink entry_idx source_name =>
      mret (inl (mkReceiverState (recv_ndx_state st) (deferred_hardlinks st ++ [(entry_idx, source_name)]) (successful_ndxs st)))
  | ItemTransfer entry_idx basis_data blength =>
      st ← receive_transfer entry_idx basis_data blength st; mret (inl st)
  | ItemDone => mret (inr st)
  end.

(** After the last item: the confirmations, then the hard links. *)
Definition link_deferred (d : nat * list Z) : wire_act S unit :=
  dup_entry ← (at_index entries d.1 : wire_act S FileEntry);
  ((fun x =>
    let '(n, s) := deferred_hardlink F (rx_dest rx) (rx_options rx) entries (0, pr_fs x) (dup_entry, d.2) in
    (inr tt, peer_stats (count_transferred n) (peer_fs s x))) : wire_act S unit).
Definition confirm (ndx : Z) : wire_act S unit := update (peer_confirm ndx).
Fixpoint for_each {A} (f : A -> wire_act S unit) (l : list A) : wire_act S unit :=
  match l with [] => mret tt | a :: l' => _ ← f a; for_each f l' end.
Definition receiver_finish (st : ReceiverState) : wire_act S unit :=
  _ ← for_each confirm (successful_ndxs st);
  for_each link_deferred (deferred_hardlinks st).

Definition receiver_start : ReceiverState := mkReceiverState NdxState_default [] [].
(** What the generator task iterates over. *)
Definition gen_entries : result (list (nat * Z * FileEntry)) :=
  match mapM (fun p => ndx ← entry_ndx !! p.1; Some (p.1, ndx, p.2)) (imap pair entries) with
  | Some l => Ok l
  | None => Panic
  end.

(** ** Phases *)

(** Say that a phase is over, and hear it. *)
Definition say_done (gen : NdxState) : wire_act S NdxState := put (write_ndx NDX_DONE gen codec).
Definition hear_done (recv : NdxState) : wire_act S NdxState := p ← get (read_ndx recv codec); mret p.2.
Definition exchange_done (gen recv : NdxState) : wire_act S (NdxState * NdxState) :=
  gen ← say_done gen;
  recv ← hear_done recv;
  mret (gen, recv).
Fixpoint exchange_rounds (n : nat) (st : NdxState * NdxState) : wire_act S (NdxState * NdxState) :=
  match n with
  | O => mret st
  | Datatypes.S n' => st ← exchange_done st.1 st.2; exchange_rounds n' st
  end.

Definition total_ndx_rounds (num_flists : Z) : Z :=
  (if supports_incremental_flist (wire protocol) then Z.max 0 (as_u32 num_flists - 1) else 0) +
  phase_count (wire protocol) + 1.
Definition receiver_phase_exchange (num_flists : Z) : wire_act S unit :=
  _ ← exchange_rounds (Z.to_nat (total_ndx_rounds num_flists)) (NdxState_default, NdxState_default); mret tt.

Definition server_receiver_phase_exchange : wire_act S unit :=
  st ← exchange_rounds (Z.to_nat (phase_count (wire protocol))) (NdxState_default, NdxState_default);
  _ ← say_done st.1;
  _ ← hear_done st.2;
  mret tt.

End receiver.
End wire.
