(* ===== verification/WireSpec.v ===== *)
(** The turns of the loops of [WireTransfer.v], one against the other: what a
    request says, what the sender answers, what the receiver makes of it. *)
From S2P Require Import Prelude Wire Types Text Varint WireFormat Handshake Checksum Sum Matcher Compress Token Proc Filter Scanner Options Fs Progress FileDecision ReceiverEngine Transfer Pipeline LocalTransfer FsSpec LocalSpec WireTransfer.

Lemma wr_bind_ok {A A'} (w : wr A) (f : A -> wr A') b bs : (w ≫= f) = (Ok b, bs) ->
  exists a o1 o2, w = (Ok a, o1) /\ f a = (Ok b, o2) /\ bs = o1 ++ o2.
Proof.
  unfold mbind, wr_bind. destruct w as [[a| |] o1]; [|done..]. destruct (f a) as [r o2] eqn:E. intros [= -> <-].
  by exists a, o1, o2.
Qed.

Lemma bind_run {E T A A'} (m : act E T A) (f : A -> act E T A') x a x' : m x = (inr a, x') -> (m ≫= f) x = f a x'.
Proof. intros Hm. unfold mbind, act_bind. by rewrite Hm. Qed.
Lemma bind_fail {E T A A'} (m : act E T A) (f : A -> act E T A') x e x' : m x = (inl e, x') -> (m ≫= f) x = (inl e, x').
Proof. intros Hm. unfold mbind, act_bind. by rewrite Hm. Qed.
Lemma get_run {S A} (r : rd A) bs a k (x : Peer S) : pr_in x = bs ++ k -> (forall k, r (bs ++ k) = Ok (a, k)) ->
  get r x = (inr a, peer_in k x).
Proof. intros Hi Hr. unfold get. by rewrite Hi, Hr. Qed.

(** ** Turns that leave the file system alone *)

Section talks.
  Context {S : Type} (s : S).

(** On the file system [s] the turn [m] reads [i], writes [o] and gives [a]. *)
Definition talks {A} (m : wire_act S A) (a : A) (i o : list Z) : Prop := forall x k,
  pr_fs x = s -> pr_in x = i ++ k -> exists x', m x = (inr a, x') /\
    pr_fs x' = s /\ pr_in x' = k /\ pr_out x' = pr_out x ++ o /\ pr_success x' = pr_success x.

Lemma talks_ret {A} (a : A) : talks (mret a) a [] [].
Proof. intros x k Hf Hi. exists x. by rewrite app_nil_r. Qed.

Lemma talks_bind {A A'} (m : wire_act S A) (f : A -> wire_act S A') a b i1 o1 i2 o2 :
  talks m a i1 o1 -> talks (f a) b i2 o2 -> talks (m ≫= f) b (i1 ++ i2) (o1 ++ o2).
Proof.
  intros Hm Hf x k Hs Hi. rewrite <- app_assoc in Hi. destruct (Hm x _ Hs Hi) as (x1 & E1 & F1 & I1 & O1 & C1).
  destruct (Hf x1 k F1 I1) as (x2 & E2 & F2 & I2 & O2 & C2). exists x2. unfold mbind, act_bind. rewrite E1, E2.
  split_and!; [done..| |congruence]. by rewrite O2, O1, app_assoc.
Qed.
Lemma talks_step {A A'} (m : wire_act S A) (f : A -> wire_act S A') a b i o :
  talks m a [] [] -> talks (f a) b i o -> talks (m ≫= f) b i o.
Proof. intros Hm Hf. apply (talks_bind m f a b [] [] i o Hm Hf). Qed.
Lemma talks_writes {A A'} (m : wire_act S A) (f : A -> wire_act S A') a b i o1 o2 :
  talks m a [] o1 -> talks (f a) b i o2 -> talks (m ≫= f) b i (o1 ++ o2).
Proof. intros Hm Hf. apply (talks_bind m f a b [] o1 i o2 Hm Hf). Qed.
Lemma talks_reads {A A'} (m : wire_act S A) (f : A -> wire_act S A') a b i1 i2 o :
  talks m a i1 [] -> talks (f a) b i2 o -> talks (m ≫= f) b (i1 ++ i2) o.
Proof. intros Hm Hf. apply (talks_bind m f a b i1 [] i2 o Hm Hf). Qed.

Lemma talks_get {A} (r : rd A) a i : (forall k, r (i ++ k) = Ok (a, k)) -> talks (get r) a i [].
Proof.
  intros Hr x k Hf Hi. exists (peer_in k x). unfold get. rewrite Hi, Hr. rewrite app_nil_r. by destruct x.
Qed.
Lemma talks_put {A} (w : wr A) a o : w = (Ok a, o) -> talks (put w) a [] o.
Proof. intros -> x k Hf Hi. exists (peer_put o x). by destruct x. Qed.
Lemma talks_stats f : talks (update (peer_stats f)) tt [] [].
Proof. intros x k Hf Hi. exists (peer_stats f x). rewrite app_nil_r. by destruct x. Qed.
Lemma talks_emit e : talks (update (peer_emit e)) tt [] [].
Proof. intros x k Hf Hi. exists (peer_emit e x). rewrite app_nil_r. by destruct x. Qed.
Lemma talks_of_result {A} (r : result A) a : r = Ok a -> talks (of_result r) a [] [].
Proof. intros -> x k Hf Hi. exists x. by rewrite app_nil_r. Qed.
Lemma talks_at_index {A} (v : list A) i a : v !! i = Some a -> talks (at_index v i) a [] [].
Proof. intros E x k Hf Hi. exists x. unfold at_index, of_sum. by rewrite E, app_nil_r. Qed.
Lemma talks_reading {A} (f : S -> FsError + A) a : f s = inr a -> talks (lift_fs (try_fs (fun fs => (f fs, fs)))) a [] [].
Proof.
  intros E x k Hf Hi. exists (peer_fs (pr_fs x) x). unfold lift_fs, try_fs. rewrite Hf, E, app_nil_r. by destruct x.
Qed.
End talks.

(** ** The numbers of a request and of its reply *)

Lemma read_iflags_transfer wf k :
  read_iflags wf ((if has_iflags wf then le_bytes 2 ITEM_TRANSFER else []) ++ k) =
  Ok (if has_iflags wf then ITEM_TRANSFER else 0, k).
Proof.
  unfold read_iflags. destruct (has_iflags wf); [|done]. cbn [negb].
  erewrite rd_bind_run by (apply (read_exact_app (le_bytes 2 ITEM_TRANSFER)); reflexivity). reflexivity.
Qed.
Lemma write_shortint_transfer : write_shortint ITEM_TRANSFER = (Ok tt, le_bytes 2 ITEM_TRANSFER).
Proof. reflexivity. Qed.

Definition iflags_bytes (wf : WireFormat) : list Z := if has_iflags wf then le_bytes 2 ITEM_TRANSFER else [].
Lemma write_iflags_transfer wf : write_iflags wf (if has_iflags wf then ITEM_TRANSFER else 0) = (Ok tt, iflags_bytes wf).
Proof. unfold write_iflags, iflags_bytes. by destruct (has_iflags wf). Qed.

Section turns.
  Context (H : HashLib) (HL : HashLaws H) (B : Backends) `{BL : !BackendLaws B} (fuel : nat).
  Context (protocol : NegotiatedProtocol) (block_size : option Z).
Let ctx := wire_ctx protocol block_size.
Let C := backends B fuel.

(** An index and its state, from one side to the other. *)
Definition index_bytes (ndx : Z) (n n' : NdxState) (bs : list Z) : Prop :=
  write_ndx ndx n (codec protocol) = (Ok n', bs) /\ ndx_state_ok n' /\
  forall k, read_ndx n (codec protocol) (bs ++ k) = Ok ((ndx, n'), k).
Lemma index_sent ndx n : ndx_state_ok n -> - 2 ^ 31 < ndx < 2 ^ 31 -> exists n' bs, index_bytes ndx n n' bs.
Proof.
  intros Hn Hx. destruct (write_ndx_mirrors ndx n (codec protocol) Hn Hx) as (n' & [v n2] & bs & Hw & Hr & -> & <- & Ho).
  by exists n', bs.
Qed.

(** What the generator sends for the signatures [sigs] of a basis. *)
Definition request_bytes (ndx : Z) (sigs : SumStruct) (n n' : NdxState) (bs : list Z) : Prop :=
  exists b1 b3, bs = b1 ++ iflags_bytes (wire protocol) ++ b3 /\ index_bytes ndx n n' b1 /\
    write_sums sigs = (Ok tt, b3) /\ forall k, read_sums (b3 ++ k) = Ok (sigs, k).

(** What the sender says before the tokens. *)
Definition header_bytes (ndx : Z) (sigs : SumStruct) (n n' : NdxState) (bs : list Z) : Prop :=
  exists b1 b3, bs = b1 ++ iflags_bytes (wire protocol) ++ b3 /\ index_bytes ndx n n' b1 /\
    write_sum_head (reply_head sigs) = (Ok tt, b3) /\ forall k, read_sum_head (b3 ++ k) = Ok (reply_head sigs, k).

Lemma request_sent ndx sigs n (rx : Receiver) : ndx_state_ok n -> - 2 ^ 31 < ndx < 2 ^ 31 -> sums_ok implicit_len sigs ->
  Get.append (rx_options rx) = false -> Get.append_verify (rx_options rx) = false ->
  exists n' bs, request protocol rx ndx sigs n = (Ok n', bs) /\ request_bytes ndx sigs n n' bs.
Proof.
  intros Hn Hx Hs Ha Hv. destruct (index_sent ndx n Hn Hx) as (n' & b1 & Hb1).
  destruct (write_sums_mirrors sigs Hs) as ([] & s' & b3 & Hw & Hr & ->).
  exists n', (b1 ++ iflags_bytes (wire protocol) ++ b3). split; [|by exists b1, b3].
  unfold request. rewrite Ha, Hv. cbn [orb]. destruct Hb1 as [E _]. unfold iflags_bytes, mbind, wr_bind. rewrite E.
  destruct (has_iflags (wire protocol)); [rewrite write_shortint_transfer|]; rewrite Hw; unfold mret, wr_ret; by rewrite app_nil_r.
Qed.

Lemma header_sent ndx sigs n : ndx_state_ok n -> - 2 ^ 31 < ndx < 2 ^ 31 -> sums_ok implicit_len sigs ->
  exists n' bs, (n0 ← write_ndx ndx n (codec protocol);
    _ ← write_iflags (wire protocol) (if has_iflags (wire protocol) then ITEM_TRANSFER else 0);
    _ ← write_sum_head (reply_head sigs); mret n0) = (Ok n', bs) /\ header_bytes ndx sigs n n' bs.
Proof.
  intros Hn Hx Hs. destruct (index_sent ndx n Hn Hx) as (n' & b1 & Hb1). destruct Hs as (_ & Hc & Hs2 & Hb & Hr & _).
  unfold MAX_BLOCK_COUNT in Hc.
  destruct (write_sum_head_mirrors (reply_head sigs)) as ([] & h & b3 & Hw & Hrd & ->);
    [unfold reply_head; destruct (_ =? 0); cbn [count blength s2length remainder]; lia..|].
  exists n', (b1 ++ iflags_bytes (wire protocol) ++ b3). split; [|by exists b1, b3].
  destruct Hb1 as [E _]. unfold mbind, wr_bind. rewrite E, write_iflags_transfer, Hw. unfold mret, wr_ret. by rewrite app_nil_r.
Qed.

(** ** The sender's tokens *)

Section sender.
  Context {S : Type} (s0 : S).

Lemma send_ops_talks ops : forall b w l m w' bs, write_diffops w ops b = (Ok w', bs) ->
  exists l' m', talks s0 (send_ops B fuel b (mkSent B fuel w l m) ops) (mkSent B fuel w' l' m') [] bs.
Proof.
  induction ops as [|[d|bref] ops IH]; intros b w l m w' bs; cbn [write_diffops send_ops send_op tok_writer literal_bytes matched_bytes].
  - intros [= <- <-]. exists l, m. apply talks_ret.
  - intros (w1 & o1 & o2 & E1 & E2 & ->)%wr_bind_ok.
    destruct (IH b w1 (as_u64 (l + Z.of_nat (length d))) m w' o2 E2) as (l' & m' & Ht). exists l', m'.
    eapply talks_writes; [|exact Ht]. rewrite <- (app_nil_r o1). eapply talks_writes; [by apply talks_put|apply talks_ret].
  - intros (i & o0 & o1 & Ei & (w1 & o2 & o3 & E1 & E2 & ->)%wr_bind_ok & ->)%wr_bind_ok.
    destruct (IH b w1 l (as_u64 (m + br_length bref)) w' o3 E2) as (l' & m' & Ht). exists l', m'.
    rewrite app_assoc. eapply talks_writes; [|exact Ht]. rewrite <- (app_nil_r (o0 ++ o2)).
    eapply talks_writes; [apply talks_put|apply talks_ret]. unfold mbind, wr_bind. by rewrite Ei, E1.
Qed.

Lemma send_stream_talks rounds : forall b m source ck w l mt ops ck' w' bs,
  stream_all H rounds m source ck = Some (ops, [], ck') -> write_diffops w ops b = (Ok w', bs) ->
  exists l' m', talks s0 (send_stream H B fuel rounds b m source ck (mkSent B fuel w l mt)) (ck', mkSent B fuel w' l' m') [] bs.
Proof.
  induction rounds as [|rounds IH]; intros b m source ck w l mt ops ck' w' bs; cbn [stream_all send_stream]; [done|].
  destruct (process_chunk H m source ck) as [[[[ops1 done] m1] source1] ck1]. destruct done.
  { intros [= -> -> ->] Hw. destruct (send_ops_talks ops b w l mt w' bs Hw) as (l' & m' & Ht). exists l', m'.
    rewrite <- (app_nil_r bs). eapply talks_writes; [exact Ht|apply talks_ret]. }
  destruct (stream_all H rounds m1 source1 ck1) as [[[ops2 rest] ck2]|] eqn:E; [|done]. intros [= <- -> ->].
  rewrite write_diffops_app. intros (w1 & o1 & o2 & E1 & E2 & ->)%wr_bind_ok.
  destruct (send_ops_talks ops1 b w l mt w1 o1 E1) as (l1 & m1' & Ht).
  destruct (IH b m1 source1 ck1 w1 l1 m1' ops2 ck' w' o2 E E2) as (l' & m' & Ht'). exists l', m'.
  eapply talks_writes; [exact Ht|exact Ht'].
Qed.
End sender.

(** ** A file the sender can send *)

(** The operations its matcher finds. *)
Definition found_ops (entry : FileEntry) (s : SumStruct) (source : list Z) (ops : list DiffOp) : Prop :=
  if STREAMING_THRESHOLD <=? len entry then
    exists ck, stream_all H (Datatypes.S (Datatypes.S (length source))) (StreamingMatcher_new s ctx DEFAULT_STREAM_CHUNK) source
      (IncrementalChecksum_new H (ctx_checksum_type ctx)) = Some (ops, [], ck) /\ inc_finalize H ck = file_checksum H source ctx
  else ops = match_blocks H source s ctx.

(** The backends of the negotiated compression can be made and take the file's
    literals. *)
Definition compressible (entry : FileEntry) (s : SumStruct) (source : list Z) : Prop :=
  compress protocol <> CpNone -> exists c d,
    Compressor_from_type B (compress protocol) 6 = Ok c /\ Decompressor_from_type B (compress protocol) = Ok d /\
    forall ops, found_ops entry s source ops -> ops_ok C (compressor_type B c) true ops.

(** A basis and a source that the wire can carry: sizes within the formats,
    and no two blocks that the checksums confuse. *)
Record sendable (basis source : list Z) (entry : FileEntry) (s : SumStruct) : Prop := {
  sd_basis : Z.of_nat (length basis) < 2 ^ 31;
  sd_block : 0 < effective_blength basis ctx < 2 ^ 31;
  sd_sums : compute_signatures H basis ctx = Ok s;
  sd_count : count (head s) <= MAX_BLOCK_COUNT;
  sd_free : collision_free H ctx (Z.to_nat (effective_blength basis ctx)) (s2length (head s)) basis source;
  sd_stream : STREAMING_THRESHOLD <= len entry -> effective_blength basis ctx <= Z.of_nat DEFAULT_STREAM_CHUNK;
  sd_compress : compressible entry s source;
}.

(** What a receiver with the reader [r] can make of [bs]. *)
Definition reads_file {R} `{TokenReaderT R} (r : R) (basis source : list Z) (blength : Z) (bs : list Z) : Prop :=
  exists tok ts ps r', bs = tok ++ file_checksum H source ctx /\ reads r tok (ts ++ [TEndOfFile]) r' /\
    mapM (piece basis blength) ts = Some ps /\ concat ps = source.
Definition payload (basis source : list Z) (blength : Z) (bs : list Z) : Prop :=
  if negb (bool_decide (compress protocol = CpNone)) then
    exists d, Decompressor_from_type B (compress protocol) = Ok d /\
      reads_file (CompressedTokenReader_new C d) basis source blength bs
  else reads_file mkPlainReader basis source blength bs.

Lemma any_diffops {W} `{TokenWriter W} (f : W -> AnyTokenWriter C) ops b w :
  (forall d w, tw_write_data d (f w) = (w' ← tw_write_data d w; mret (f w'))) ->
  (forall i w, tw_write_block_match i (f w) = (w' ← tw_write_block_match i w; mret (f w'))) ->
  write_diffops (f w) ops b = (w' ← write_diffops w ops b; mret (f w')).
Proof.
  intros Hd Hb. revert w. induction ops as [|[d|bref] ops IH]; intros w; cbn [write_diffops].
  - by rewrite wr_ret_bind_eq.
  - rewrite Hd, !wr_bind_assoc. apply wr_bind_ext. intros w1 o _. by rewrite wr_ret_bind_eq, IH.
  - rewrite wr_bind_assoc. apply wr_bind_ext. intros i o _. rewrite Hb, !wr_bind_assoc. apply wr_bind_ext.
    intros w1 o1 _. by rewrite wr_ret_bind_eq, IH.
Qed.

(** The bytes of the operations from either writer, whose reader makes the
    source of them. *)
Lemma tokens_written {W R} `{HW : TokenWriter W} `{HR : TokenReaderT R} `{HT : !TokenTransport W R} `{HP : !PacedReader R}
    (f : W -> AnyTokenWriter C) (w : W) (r : R) basis source entry s ops :
  (forall d w, tw_write_data d (f w) = (w' ← tw_write_data d w; mret (f w'))) ->
  (forall i w, tw_write_block_match i (f w) = (w' ← tw_write_block_match i w; mret (f w'))) ->
  (forall w, tw_write_eof (f w) = (w' ← tw_write_eof w; mret (f w'))) ->
  sendable basis source entry s -> held w [] r ->
  (copies_ok (receiver_blength s) ops -> accepts (receiver_blength s) w ops) ->
  Forall (known_copy (match_config s ctx)) ops -> apply_diffops basis ops = source ->
  exists w1 o1 w2 o2, write_diffops (f w) ops (as_u32 (blength (head s))) = (Ok w1, o1) /\ tw_write_eof w1 = (Ok w2, o2) /\
    reads_file r basis source (receiver_blength s) (o1 ++ o2 ++ file_checksum H source ctx).
Proof.
  intros Hd Hb He Hs Hh Ha Hk Hsrc. destruct Hs as [H1 H2 H3 _ _ _ _].
  pose proof (receiver_blength_ok H HL basis ctx s H1 H2 H3) as Hrb.
  destruct (known_ops_sent H HL basis ctx s H1 H2 H3 w ops Hk) as [Ho Hw].
  destruct (diffops_delivered basis _ Hrb w r ops Hh (Ha (op_sent_copies _ _ Hrb _ Ho)) Ho)
    as (w2 & bs & ts & ps & r' & Ew & Hr & _ & Hps & Hc).
  apply wr_bind_ok in Ew as (w1 & o1 & o2 & E1 & E2 & ->).
  exists (f w1), o1, (f w2), o2. split_and!.
  - rewrite any_diffops, Hw by done. unfold mbind, wr_bind. rewrite E1. unfold mret, wr_ret. by rewrite app_nil_r.
  - rewrite He. unfold mbind, wr_bind. rewrite E2. unfold mret, wr_ret. by rewrite app_nil_r.
  - exists (o1 ++ o2), ts, ps, r'. rewrite <- app_assoc. split_and!; [done..|]. by rewrite Hc.
Qed.

Lemma file_tokens basis source entry s ops : sendable basis source entry s ->
  found_ops entry s source ops -> Forall (known_copy (match_config s ctx)) ops -> apply_diffops basis ops = source ->
  exists w0 w1 o1 w2 o2, any_token_writer B fuel protocol = Ok w0 /\
    write_diffops w0 ops (as_u32 (blength (head s))) = (Ok w1, o1) /\ tw_write_eof w1 = (Ok w2, o2) /\
    payload basis source (receiver_blength s) (o1 ++ o2 ++ file_checksum H source ctx).
Proof.
  intros Hs Hf Hk Hsrc. unfold any_token_writer, payload. case_bool_decide as Ec; cbn [negb].
  - destruct (tokens_written (fun w => PlainWriter w) mkPlainWriter mkPlainReader basis source entry s ops)
      as (w1 & o1 & w2 & o2 & E1 & E2 & Hr); try done; [intros _; apply plain_accepts|].
    by eexists _, w1, o1, w2, o2.
  - destruct (sd_compress _ _ _ _ Hs Ec) as (c & d & Hc & Hd & Hok). specialize (Hok ops Hf).
    assert (Ht : comp_type C c = decomp_type C d).
    { clear -Hc Hd. destruct (compress protocol); cbn in Hc, Hd; simplify_eq; try done.
      unfold Compressor_new_zstd in Hc. unfold Decompressor_new_zstd in Hd.
      unfold Compress.io, mbind, res_bind in *. destruct (sc_new B _); [|discriminate Hc]. destruct (sd_new B); [|discriminate Hd].
      injection Hc as <-. injection Hd as <-. reflexivity. }
    pose proof (compressed_new C c d Ht) as Hh.
    destruct (tokens_written (fun w => CompressedWriter w) (CompressedTokenWriter_new C c) (CompressedTokenReader_new C d)
      basis source entry s ops) as (w1 & o1 & w2 & o2 & E1 & E2 & Hr); try done.
    { intros Hcp. by eapply ops_ok_accepts. }
    exists (CompressedWriter (CompressedTokenWriter_new C c)), w1, o1, w2, o2. rewrite Hc. split_and!; [done..|]. by exists d.
Qed.

(** ** The sender's turns *)

Section serving.
  Context {S : Type} (s0 : S) (reader : FileReader S).

(** What the reader makes of the file system [s0] for an entry. *)
Definition source_is (entry : FileEntry) (source : list Z) : Prop :=
  if STREAMING_THRESHOLD <=? len entry then fr_open_stream reader s0 entry = inr source
  else fr_read_file reader s0 entry = inr source.

Lemma send_file_talks basis source entry s : sendable basis source entry s -> source_is entry source ->
  exists sent bs, talks s0 (send_file H B fuel protocol block_size reader entry s) sent [] bs /\
    payload basis source (receiver_blength s) bs.
Proof.
  intros Hs Hsrc. unfold send_file, source_is in *. pose proof Hs as [H1 H2 H3 _ Hfree Hst _].
  destruct (STREAMING_THRESHOLD <=? len entry) eqn:Et.
  - destruct (streamed_source H HL basis ctx s H1 H2 H3 source DEFAULT_STREAM_CHUNK Hfree)
      as (ops & ck & Hall & Hops & Hck & Hk); [by vm_compute|apply Hst; lia|].
    destruct (file_tokens basis source entry s ops Hs) as (w0 & w1 & o1 & w2 & o2 & E0 & E1 & E2 & Hp); try done.
    { unfold found_ops. rewrite Et. by exists ck. }
    destruct (send_stream_talks s0 _ _ _ _ _ w0 0 0 _ _ _ _ Hall E1) as (l' & m' & Ht).
    exists (mkSent B fuel w2 l' m'), (o1 ++ o2 ++ file_checksum H source ctx). split; [|done].
    eapply talks_step; [by apply talks_of_result|]. cbv zeta.
    eapply talks_step; [by apply (talks_reading s0 (fun fs => fr_open_stream reader fs entry))|].
    eapply talks_writes; [exact Ht|]. eapply talks_writes; [by apply talks_put|].
    rewrite <- (app_nil_r (file_checksum H source ctx)), <- Hck. cbn [fst snd literal_bytes matched_bytes].
    eapply talks_writes; [by apply talks_put|apply talks_ret].
  - pose proof (matched_source H HL basis ctx s H1 H2 H3 source Hfree) as Hops.
    destruct (file_tokens basis source entry s (match_blocks H source s ctx) Hs)
      as (w0 & w1 & o1 & w2 & o2 & E0 & E1 & E2 & Hp); try done.
    { unfold found_ops. by rewrite Et. }
    { apply match_blocks_known. }
    destruct (send_ops_talks s0 _ _ w0 0 0 _ _ E1) as (l' & m' & Ht).
    exists (mkSent B fuel w2 l' m'), (o1 ++ o2 ++ file_checksum H source ctx). split; [|done].
    eapply talks_step; [by apply talks_of_result|]. cbv zeta.
    eapply talks_step; [by apply (talks_reading s0 (fun fs => fr_read_file reader fs entry))|].
    eapply talks_writes; [exact Ht|]. eapply talks_writes; [by apply talks_put|].
    rewrite <- (app_nil_r (file_checksum H source ctx)). cbn [literal_bytes matched_bytes].
    eapply talks_writes; [by apply talks_put|apply talks_ret].
Qed.

Section loop.
  Context (entries : list FileEntry) (ndx_map : gmap Z nat).

Abbreviation round := (sender_round H B fuel protocol block_size reader entries ndx_map false false).

(** A request is answered. *)
Lemma sender_serves (g g' n : NdxState) ph ndx idx entry basis source s req : ndx_state_ok n ->
  0 <= ndx < 2 ^ 31 -> ndx_map !! ndx = Some idx -> entries !! idx = Some entry -> FileEntry.is_file entry = true ->
  sums_ok implicit_len s -> sendable basis source entry s -> source_is entry source -> request_bytes ndx s g g' req ->
  exists n' hdr bs, talks s0 (round (mkSenderState g n ph None)) (inl (mkSenderState g' n' ph None)) req (hdr ++ bs) /\
    header_bytes ndx s n n' hdr /\ payload basis source (receiver_blength s) bs.
Proof.
  intros Hn Hx Hm He Hf Hok Hs Hsrc (b1 & b3 & -> & (_ & _ & Hr1) & _ & Hr3).
  destruct (header_sent ndx s n Hn ltac:(lia) Hok) as (n' & hdr & Hw & Hh).
  destruct (send_file_talks basis source entry s Hs Hsrc) as (sent & bs & Ht & Hp).
  exists n', hdr, bs. split; [|done]. unfold sender_round, inject_pending. cbn [pending_flists gen_ndx_state].
  eapply talks_step; [apply talks_ret|]. cbn [gen_ndx_state].
  eapply talks_reads; [by apply talks_get|]. cbn [phase send_ndx_state pending_flists].
  destruct (Z.eqb_spec ndx NDX_DONE) as [->|_]; [by destruct Hx|]. destruct (Z.ltb_spec ndx (-1)); [lia|].
  rewrite <- (app_nil_r (iflags_bytes (wire protocol) ++ b3)), <- (app_nil_r (hdr ++ bs)).
  eapply talks_bind; [|apply talks_ret]. unfold serve_ndx. rewrite Hm.
  eapply talks_reads; [apply talks_get, read_iflags_transfer|].
  eapply talks_step; [by apply talks_at_index|]. unfold FileEntry.is_file in Hf. rewrite Hf. cbn [negb].
  replace (has_iflags (wire protocol) && _) with false by (by destruct (has_iflags (wire protocol))). cbv iota.
  unfold serve_file. rewrite <- (app_nil_r b3). eapply talks_reads; [by apply talks_get|].
  eapply talks_step; [apply talks_emit|]. eapply talks_writes; [by apply talks_put|].
  rewrite <- (app_nil_r bs). eapply talks_writes; [exact Ht|].
  eapply talks_step; [apply talks_stats|]. eapply talks_step; [apply talks_emit|]. apply talks_ret.
Qed.

(** An end marker is answered with one, or it is the last. *)
Lemma sender_next_phase g n n' ph req rep : index_bytes NDX_DONE g g req -> index_bytes NDX_DONE n n' rep ->
  ph + 1 <= phase_count (wire protocol) ->
  talks s0 (round (mkSenderState g n ph None)) (inl (mkSenderState g n' (ph + 1) None)) req rep.
Proof.
  intros (_ & _ & Hr) (Hw & _) Hp. unfold sender_round, inject_pending. cbn [pending_flists gen_ndx_state].
  eapply talks_step; [apply talks_ret|]. cbn [gen_ndx_state]. rewrite <- (app_nil_r req).
  eapply talks_reads; [by apply talks_get|]. cbn [phase send_ndx_state pending_flists]. rewrite Z.eqb_refl.
  destruct (Z.ltb_spec (phase_count (wire protocol)) (ph + 1)); [lia|]. rewrite <- (app_nil_r rep).
  eapply talks_writes; [by apply talks_put|]. apply talks_ret.
Qed.
Lemma sender_last_phase g n ph req : index_bytes NDX_DONE g g req -> phase_count (wire protocol) < ph + 1 ->
  talks s0 (round (mkSenderState g n ph None)) (inr (mkSenderState g n (ph + 1) None)) req [].
Proof.
  intros (_ & _ & Hr) Hp. unfold sender_round, inject_pending. cbn [pending_flists gen_ndx_state].
  eapply talks_step; [apply talks_ret|]. cbn [gen_ndx_state]. rewrite <- (app_nil_r req).
  eapply talks_reads; [by apply talks_get|]. cbn [phase send_ndx_state pending_flists]. rewrite Z.eqb_refl.
  destruct (Z.ltb_spec (phase_count (wire protocol)) (ph + 1)); [|lia]. apply talks_ret.
Qed.
End loop.
End serving.

End turns.

(** ** The receiver's turns *)

Lemma index_done protocol n n' bs : index_bytes protocol NDX_DONE n n' bs -> n' = n.
Proof.
  intros (Hw & _). revert Hw. unfold write_ndx. case_bool_decide.
  - intros (u & o1 & o2 & _ & E & _)%wr_bind_ok. by injection E.
  - rewrite Z.eqb_refl. intros (u & o1 & o2 & _ & E & _)%wr_bind_ok. by injection E.
Qed.

Lemma token_count basis blength {R : Type} `{PacedReader R} (r : R) bs ts r' ps k :
  Z.of_nat (length basis) < 2 ^ 63 -> blength < 2 ^ 63 ->
  reads r bs (ts ++ [TEndOfFile]) r' -> mapM (piece basis blength) ts = Some ps ->
  (length ts <= round_measure (St := list Z) basis blength ([], r) (length (bs ++ k)))%nat.
Proof.
  intros Hm Hb Hr. generalize ([] : list Z) as out. revert r bs ps Hr. induction ts as [|t ts IH]; intros r bs ps Hr out Hps; [cbn [length]; lia|].
  cbn [app] in Hr. inversion Hr as [|? bs1 t1 r1 bs2 ts1 r2 Hstep Hrest]; subst. cbn [mapM] in Hps.
  destruct (piece basis blength t) as [d|] eqn:Ed; [|done]. cbn [mbind option_bind] in Hps.
  destruct (mapM (piece basis blength) ts) as [ps'|] eqn:Eps; [|done].
  specialize (IH r1 bs2 ps' Hrest (extend d out) eq_refl).
  assert (Hround : token_round extend basis blength (out, r) ((bs1 ++ bs2) ++ k) = Ok (inl (extend d out, r1), bs2 ++ k)).
  { rewrite <- app_assoc. unfold token_round. cbn [fst snd]. erewrite rd_bind_run by apply Hstep. cbn [fst snd].
    destruct t as [d'|j|]; cbn [piece] in Ed; [by simplify_eq| |done].
    destruct (block_slice basis blength j) as [x| |] eqn:Ej; [|done..]. subst x. unfold mbind, rd_bind, rd_lift. done. }
  apply (round_measure_ok basis blength Hm Hb extend (out, r)) in Hround. cbn [length]. unfold round_measure in *. cbn [snd] in *. lia.
Qed.

Section receiving.
  Context (H : HashLib) (HL : HashLaws H) (B : Backends) `{BL : !BackendLaws B} (fuel : nat).
  Context (protocol : NegotiatedProtocol) (block_size : option Z).
Let ctx := wire_ctx protocol block_size.
Let C := backends B fuel.
  Context {S : Type} (F : FsOps S).

(** A failure of the file system, and not of the protocol. *)
Definition fails (e : failure) : Prop := (exists fe, e = EFs fe) \/ e = EProtocol (Io OtherIo).

Lemma tokens_to_writer_run basis blength {R : Type} `{TokenReaderT R} bs ts r' ps k : forall (rounds : nat) (r : R) hasher n w (x : Peer S),
  reads r bs (ts ++ [TEndOfFile]) r' -> mapM (piece basis blength) ts = Some ps -> (length ts < rounds)%nat ->
  pr_in x = bs ++ k ->
  match write_pieces F ps w (pr_fs x), tokens_to_writer H F basis blength rounds r hasher n (w, x) with
  | (true, (w', s')), (inr q, (w1, x')) => w1 = w' /\ pr_fs x' = s' /\ pr_in x' = k /\ pr_out x' = pr_out x /\
      pr_success x' = pr_success x /\ q.1 = foldl (inc_update H) hasher ps
  | (false, _), (inl e, _) => fails e
  | _, _ => False
  end.
Proof.
  revert bs ps. induction ts as [|t ts IH]; intros bs ps [|rounds] r hasher n w x Hr Hps Hlt Hi; [cbn in Hlt; lia| |cbn in Hlt; lia|].
  - inversion Hr as [|? bs1 t1 r1 bs2 ts1 r2 Hstep Hrest]; subst. inversion Hrest; subst. injection Hps as <-.
    rewrite app_nil_r in Hi. cbn [write_pieces tokens_to_writer].
    erewrite bind_run by (unfold on_peer; cbn [fst snd]; by rewrite (get_run _ _ _ _ _ Hi Hstep)). by destruct x.
  - cbn [app] in Hr. inversion Hr as [|? bs1 t1 r1 bs2 ts1 r2 Hstep Hrest]; subst. cbn [mapM] in Hps.
    destruct (piece basis blength t) as [d|] eqn:Ed; [|done]. cbn [mbind option_bind] in Hps.
    destruct (mapM (piece basis blength) ts) as [ps'|] eqn:Eps; [|done]. injection Hps as <-.
    cbn [write_pieces tokens_to_writer foldl]. rewrite <- app_assoc in Hi.
    erewrite bind_run by (unfold on_peer; cbn [fst snd]; by rewrite (get_run _ _ _ _ _ Hi Hstep)). cbn [fst snd].
    assert (Hgo : forall x : Peer S, pr_in x = bs2 ++ k ->
      match (let '(ok, (w, s)) := writer_write_all F d w (pr_fs x) in if ok then write_pieces F ps' w s else (false, (w, s))),
        (_ ← write_part_to F d; tokens_to_writer H F basis blength rounds r1 (inc_update H hasher d) (as_u64 (n + Z.of_nat (length d)))) (w, x) with
      | (true, (w', s')), (inr q, (w1, x')) => w1 = w' /\ pr_fs x' = s' /\ pr_in x' = k /\ pr_out x' = pr_out x /\
          pr_success x' = pr_success x /\ q.1 = foldl (inc_update H) (inc_update H hasher d) ps'
      | (false, _), (inl e, _) => fails e
      | _, _ => False
      end).
    { intros x1 Hi1. unfold mbind, act_bind, write_part_to. cbn [fst snd].
      destruct (writer_write_all F d w (pr_fs x1)) as [[] [w1 s1]]; [|by right].
      specialize (IH bs2 ps' rounds r1 (inc_update H hasher d) (as_u64 (n + Z.of_nat (length d))) w1 (peer_fs s1 x1) Hrest eq_refl ltac:(cbn in Hlt; lia)).
      cbn [pr_fs pr_in peer_fs] in IH. by apply IH. }
    specialize (Hgo (peer_in (bs2 ++ k) x) eq_refl). cbn [pr_fs peer_in] in Hgo. destruct x as [s i o c st pg]. cbn [pr_fs] in *.
    destruct t as [d'|j|]; cbn [piece] in Ed; [| |done].
    + injection Ed as ->. destruct (writer_write_all F d w s) as [[] [w1 s1]]; exact Hgo.
    + destruct (block_slice basis blength j) as [y| |] eqn:Ej; [|done..]. subst y. erewrite bind_run by reflexivity.
      destruct (writer_write_all F d w s) as [[] [w1 s1]]; exact Hgo.
Qed.


(** The bytes up to [k] are read, and nothing is written. *)
Definition took_in (x x' : Peer S) (k : list Z) : Prop :=
  pr_in x' = k /\ pr_out x' = pr_out x /\ pr_success x' = pr_success x.

Lemma recv_file_to_writer_run basis source blength {R : Type} `{PacedReader R} (r : R) bs k w x :
  Z.of_nat (length basis) < 2 ^ 63 -> blength < 2 ^ 63 -> reads_file H protocol block_size r basis source blength bs ->
  pr_in x = bs ++ k ->
  match recv_file_to_writer H protocol block_size F basis blength r (w, x) with
  | (inr n, (w', x')) => exists ps, concat ps = source /\ write_pieces F ps w (pr_fs x) = (true, (w', pr_fs x')) /\ took_in x x' k
  | (inl e, _) => fails e
  end.
Proof.
  intros Hm Hb (tok & ts & ps & r' & -> & Hr & Hps & Hc) Hi. rewrite <- app_assoc in Hi.
  pose proof (token_count basis blength r tok ts r' ps (file_checksum H source ctx ++ k) Hm Hb Hr Hps) as Hcount.
  pose proof (token_rounds_enough basis blength Hm ([] : list Z, r) (length (tok ++ file_checksum H source ctx ++ k))) as Henough.
  unfold recv_file_to_writer. cbn [snd]. rewrite Hi.
  pose proof (tokens_to_writer_run basis blength tok ts r' ps (file_checksum H source ctx ++ k)
    (token_rounds basis blength (length (tok ++ file_checksum H source ctx ++ k))) r
    (IncrementalChecksum_new H (ctx_checksum_type ctx)) 0 w x Hr Hps ltac:(lia) Hi) as Hrun.
  change (wire_ctx protocol block_size) with ctx. set (m := tokens_to_writer _ _ _ _ _ _ _ _) in *. clearbody m.
  destruct (write_pieces F ps w (pr_fs x)) as [[] [w' s']] eqn:Ew; destruct (m (w, x)) as [[e|q] [w1 x1]] eqn:Em; try done.
  - destruct Hrun as (-> & Hfs & Hin & Hout & Hsuc & Hq). rewrite (bind_run _ _ _ _ _ Em).
    assert (Hread : forall k, read_exact (Z.of_nat (ChecksumType.digest_len (ctx_checksum_type ctx))) (file_checksum H source ctx ++ k) =
      Ok (file_checksum H source ctx, k)) by (intros k'; apply read_exact_app; by rewrite file_checksum_length).
    erewrite bind_run by (unfold on_peer; cbn [fst snd]; by rewrite (get_run _ _ _ _ _ Hin Hread)). cbv zeta.
    rewrite Hq, inc_update_fold, inc_one_shot, Hc, bool_decide_true by done. exists ps. rewrite <- Hfs in Ew. by destruct x1.
  - by rewrite (bind_fail _ _ _ _ _ Em).
Qed.

Context (rx : Receiver) (open_append : list Z -> act FsError S (Writer F)) `{!FsSpec F, !FsStreamSpec F}.

(** The options under which the receiver streams every file into a temporary
    one and moves it. *)
Definition streams_plainly : Prop :=
  Get.dry_run (rx_options rx) = false /\ Get.backup (rx_options rx) = false /\ Get.partial_dir (rx_options rx) = None /\
  Get.append (rx_options rx) = false /\ Get.append_verify (rx_options rx) = false /\ Get.inplace (rx_options rx) = false /\
  Get.sparse (rx_options rx) = false /\ Get.fuzzy (rx_options rx) = false /\ rx_resolved_link_dests rx = [] /\
  Get.copy_dest (rx_options rx) = [].
Context (Hplain : streams_plainly).

(** The entry's place is as it was or holds the source; nothing else changed. *)
Definition placed_file (P : list (list Z)) (entry : FileEntry) (source : list Z) (s s' : S) : Prop :=
  owned P s' /\ elsewhere what P (dest_path rx entry) s s' /\
  (what s' (dest_path rx entry) = what s (dest_path rx entry) \/ what s' (dest_path rx entry) = Some (File source)).

Lemma receive_data_run P entry basis source blength bs k x :
  owned P (pr_fs x) -> dest_path rx entry ∈ P -> not_link (what (pr_fs x) (dest_path rx entry)) ->
  Z.of_nat (length basis) < 2 ^ 63 -> blength < 2 ^ 63 -> payload H B fuel protocol block_size basis source blength bs ->
  pr_in x = bs ++ k ->
  match receive_data H B fuel protocol block_size F open_append rx entry basis blength x with
  | (inr _, x') => took_in x x' k /\ placed_file P entry source (pr_fs x) (pr_fs x')
  | (inl e, _) => fails e
  end.
Proof.
  intros Ho Hp Hl Hm Hb Hpay Hi. destruct Hplain as (_ & Hbk & Hpart & Ha & Hv & Hin & Hsp & _).
  unfold receive_data, needs_buffered_receive. rewrite Hsp.
  set (recv := if negb (bool_decide (compress protocol = CpNone)) then _ else _).
  assert (Hrecv : forall w (x : Peer S), pr_in x = bs ++ k -> match recv (w, x) with
    | (inr n, (w', x')) => exists ps, concat ps = source /\ write_pieces F ps w (pr_fs x) = (true, (w', pr_fs x')) /\ took_in x x' k
    | (inl e, _) => fails e
    end).
  { intros w x0 Hi0. subst recv. unfold payload in Hpay. destruct (negb (bool_decide (compress protocol = CpNone))).
    - destruct Hpay as (d & Hd & Hpay). rewrite Hd. erewrite bind_run by reflexivity.
      by apply (recv_file_to_writer_run basis source blength (CompressedTokenReader_new C d) bs k).
    - by apply (recv_file_to_writer_run basis source blength mkPlainReader bs k). }
  clearbody recv. clear Hpay. unfold with_writer.
  assert (Ec : create_writer F rx open_append entry (pr_fs x) =
    write_file_stream F (dest_path rx entry) (if Get.preserve_perms (rx_options rx) then
      Some (match rx_chmod_spec rx with Some spec => Chmod.apply spec (Z.land (mode entry) 0xFFF) false | None => Z.land (mode entry) 0xFFF end)
      else None) (pr_fs x)).
  { unfold create_writer, backup_first. by rewrite Ha, Hv, Hbk, Hin, Hpart. }
  destruct (write_file_stream F (dest_path rx entry) _ (pr_fs x)) as [[e|w] s1] eqn:E1.
  { erewrite bind_fail; [|erewrite bind_fail; [reflexivity|]; unfold lift_fs, try_fs; rewrite Ec; reflexivity]. left. by eexists. }
  assert (E2 : lift_fs (try_fs (create_writer F rx open_append entry)) x = (inr w, peer_fs s1 x))
    by (unfold lift_fs, try_fs; by rewrite Ec).
  specialize (Hrecv w (peer_fs s1 x) Hi).
  destruct (recv (w, peer_fs s1 x)) as [[e|n] [w' x1]] eqn:E3.
  { erewrite bind_fail; [|rewrite (bind_run _ _ _ _ _ E2), E3; reflexivity]. exact Hrecv. }
  destruct Hrecv as (ps & Hps & Hw & Hti & Hto & Hts). cbn [pr_fs peer_fs pr_out pr_success] in *.
  erewrite bind_run by (rewrite (bind_run _ _ _ _ _ E2), E3; reflexivity).
  destruct (owned_write_file_stream P (pr_fs x) s1 (pr_fs x1) _ _ w w' ps Ho Hp Hl E1 Hw) as (H1 & H2 & H3).
  set (s3 := writer_drop F w' (pr_fs x1)) in *. rewrite Hps in H3.
  assert (Ef : finish_file F rx entry None s3 = (inr tt, set_file_metadata F (dest_path rx entry) entry (rx_options rx) s3)).
  { unfold finish_file. rewrite Hpart. reflexivity. }
  destruct (set_file_metadata_mild F (dest_path rx entry) entry (rx_options rx) P s3 H1) as [H4 H5].
  erewrite bind_run by (unfold lift_fs, try_fs; cbn [pr_fs peer_fs]; rewrite Ef; reflexivity).
  cbn [mret act_ret]. split; [by destruct x1|]. cbn [pr_fs peer_fs]. split; [done|]. split.
  - eapply elsewhere_trans; [exact H2|by apply everywhere_elsewhere].
  - by rewrite H5.
Qed.


(** The reply to a request, received. *)
Lemma receive_transfer_run P (entries : list FileEntry) (entry_ndx : list Z) idx ndx entry basis source s n n' hdr bs k
    defs succ x :
  entries !! idx = Some entry -> entry_ndx !! idx = Some ndx -> sums_ok implicit_len s ->
  sendable H B fuel protocol block_size basis source entry s ->
  header_bytes protocol ndx s n n' hdr -> payload H B fuel protocol block_size basis source (receiver_blength s) bs ->
  owned P (pr_fs x) -> dest_path rx entry ∈ P -> not_link (what (pr_fs x) (dest_path rx entry)) ->
  pr_in x = (hdr ++ bs) ++ k ->
  match receive_transfer H B fuel protocol block_size F open_append rx entries entry_ndx idx basis (receiver_blength s)
      (mkReceiverState n defs succ) x with
  | (inr st', x') => took_in x x' k /\ placed_file P entry source (pr_fs x) (pr_fs x') /\
      st' = mkReceiverState n' defs (succ ++ [ndx])
  | (inl e, _) => fails e
  end.
Proof.
  intros He Hx Hok Hs (b1 & b3 & -> & (_ & _ & Hr1) & _ & Hr3) Hpay Ho Hp Hl Hi.
  pose proof Hs as [Hbs Hbl Hsig _ _ _ _]. pose proof (receiver_blength_ok H HL basis _ s Hbs Hbl Hsig) as Hrb.
  rewrite <- !app_assoc in Hi. unfold receive_transfer, at_index, of_sum. rewrite He, Hx.
  erewrite bind_run by reflexivity. erewrite bind_run by reflexivity.
  erewrite bind_run by (eapply get_run; [exact Hi|exact Hr1]). cbn [recv_ndx_state fst snd].
  erewrite bind_run by (eapply get_run; [reflexivity|apply read_iflags_transfer]).
  erewrite bind_run by (eapply get_run; [reflexivity|exact Hr3]).
  assert (Ebl : (if 0 <? blength (reply_head s) then as_u64 (blength (reply_head s)) else receiver_blength s) = receiver_blength s).
  { unfold reply_head. destruct (count (head s) =? 0); [done|]. cbn [blength].
    destruct (0 <? blength (head s)) eqn:E; [|done]. unfold receiver_blength in *. rewrite E in *. apply (wrap_id 64). lia. }
  cbv zeta. rewrite Ebl. set (x1 := peer_in _ (peer_in _ _)).
  pose proof (receive_data_run P entry basis source (receiver_blength s) bs k x1 Ho Hp Hl ltac:(lia) ltac:(lia) Hpay eq_refl) as Hrun.
  destruct (receive_data _ _ _ _ _ _ _ _ _ _ _ x1) as [[e|nb] x2] eqn:E2; [by rewrite (bind_fail _ _ _ _ _ E2)|].
  rewrite (bind_run _ _ _ _ _ E2). destruct Hrun as [(H1 & H2 & H3) Hpl].
  erewrite bind_run by reflexivity. erewrite bind_run by reflexivity. erewrite bind_run by reflexivity.
  cbn [mret act_ret fst snd deferred_hardlinks successful_ndxs]. split; [|done]. by destruct x.
Qed.

(** ** The generator's turns *)

Definition makes_link (e : FileEntry) : bool := LocalSpec.makes_link (rx_options rx) e.
Definition makes_file (e : FileEntry) : bool := LocalSpec.makes_file (rx_options rx) e.

(** A part of a turn that leaves the owned paths alone, but for that of a link. *)
Definition spares (P : list (list Z)) (entry : FileEntry) (s s' : S) : Prop :=
  owned P s' /\ forall q, q ∈ P -> (makes_link entry = true -> q <> dest_path rx entry) -> what s' q = what s q.
Lemma spares_refl P entry s : owned P s -> spares P entry s s.
Proof. done. Qed.
Lemma spares_trans P entry s s1 s2 : spares P entry s s1 -> spares P entry s1 s2 -> spares P entry s s2.
Proof. intros [_ H1] [H2 H3]. split; [done|]. intros q Hq Hne. by rewrite H3, H1. Qed.
Lemma spares_harmless P entry (m : method FsError S) s : owned P s -> harmless what owned m -> spares P entry s (m s).2.
Proof. intros Ho Hm. destruct (Hm P s Ho) as [H1 H2]. split; [done|]. intros q Hq _. by apply H2. Qed.

Lemma ensure_parent_spares P entry e s : owned P s -> spares P e s (ensure_parent F rx entry s).2.
Proof.
  intros Ho. unfold ensure_parent. destruct (parent _); [|by apply spares_refl].
  destruct (negb _); [|by apply spares_refl]. apply spares_harmless; [done|apply owned_mkdir_any].
Qed.
Lemma create_directory_spares P entry s : owned P s ->
  spares P entry s (create_directory_impl F (dest_path rx entry) entry (rx_options rx) (rx_chmod_spec rx) s).2.
Proof.
  intros Ho. unfold create_directory_impl. destruct (negb _ && _); [|by apply spares_refl]. unfold then_.
  pose proof (spares_harmless P entry _ s Ho (owned_mkdir_any (dest_path rx entry) (dir_mode entry (rx_options rx) (rx_chmod_spec rx)))) as Hd.
  destruct (Fs.mkdir F _ _ s) as [[e|[]] s1]; [done|]. cbn [snd] in *. eapply spares_trans; [exact Hd|].
  destruct Hd as [Ho1 _]. destruct (set_acls_mild F (dest_path rx entry) entry (rx_options rx) P s1 Ho1) as [H1 H2].
  split; [done|]. intros q Hq _. by apply H2.
Qed.

(** What a dispatch decides, and what it leaves. *)
Lemma dispatch_run P entry s : owned P s -> (makes_link entry = true -> dest_path rx entry ∈ P) ->
  (makes_file entry = true -> hlink_source entry = None) ->
  let '(r, s') := dispatch_entry F rx entry s in
  spares P entry s s' /\
  match r with
  | inl e => makes_file entry = false /\ exists fe, e = EFs fe
  | inr (NeedsTransfer basis) => makes_file entry = true /\ s' = s /\
      basis = match map_file F s (dest_path rx entry) with inr d => d | inl _ => [] end
  | inr (DeferredHardlink _) => False
  | inr Skipped => makes_file entry = true -> s' = s /\ should_skip_impl F s entry (rx_dest rx) (rx_options rx) = true
  | inr (Handled _) => makes_file entry = false
  end.
Proof.
  intros Ho Hl Hh. destruct Hplain as (Hdry & _ & _ & _ & _ & _ & _ & _ & Hld & Hcd).
  unfold dispatch_entry, dispatch_entry_impl. change (path_join (rx_dest rx) (name entry)) with (dest_path rx entry).
  unfold spares, makes_link, makes_file, LocalSpec.makes_link, LocalSpec.makes_file in *.
  destruct (FileEntry.is_dir entry) eqn:Ed; cbn [negb andb] in *.
  { pose proof (create_directory_spares P entry s Ho) as [H1 H2]. unfold spares, makes_link, LocalSpec.makes_link in H2. rewrite Ed in H2.
    unfold mbind, act_bind, try_fs. destruct (create_directory_impl F _ _ _ _ s) as [[e|[]] s1]; cbn [snd lift_err negb andb] in *.
    all: split; [split; [done|]; intros q Hq _; by apply H2|eauto]. }
  destruct (FileEntry.is_symlink entry && Get.preserve_links (rx_options rx)) eqn:El; cbn [negb andb] in *.
  { unfold create_symlink_impl. change (path_join (rx_dest rx) (name entry)) with (dest_path rx entry).
    destruct (Get.safe_links (rx_options rx) && is_unsafe_symlink (link_target entry)); [done|].
    destruct (negb (Get.dry_run (rx_options rx)) && _); [|done].
    destruct (owned_create_symlink_any P s (link_target entry) (dest_path rx entry) Ho (Hl eq_refl)) as [H1 H2].
    unfold mbind, act_bind, try_fs. destruct (Fs.create_symlink F _ _ s) as [[e|[]] s1]; cbn [snd lift_err fst] in *.
    all: split; [split; [done|]; intros q Hq Hne; apply H2; auto|eauto]. }
  destruct (FileEntry.is_file entry) eqn:Ef; cbn [negb] in *; [|done]. rewrite Hh by done.
  destruct (should_skip_impl F s entry (rx_dest rx) (rx_options rx)); [done|].
  unfold try_link_dest_impl, try_copy_dest_impl. rewrite Hld, Hcd, Hdry, !bool_decide_true by done. cbn [orb]. done.
Qed.

Lemma attempt_run {A} (m : act failure S A) (x : Peer S) r s' : m (pr_fs x) = (r, s') ->
  (forall e, r = inl e -> exists fe, e = EFs fe) -> attempt m x = (inr r, peer_fs s' x).
Proof.
  intros E Hr. unfold attempt. rewrite E. destruct r as [e|a]; [|done]. by destruct (Hr e eq_refl) as [fe ->].
Qed.

(** The request for a file, and the item that announces it. *)
Definition requested (ndx : Z) (entry : FileEntry) (source : list Z) (n n' : NdxState) (basis : list Z) (bl : Z) (req : list Z) : Prop :=
  exists s, sendable H B fuel protocol block_size basis source entry s /\ sums_ok implicit_len s /\
    bl = receiver_blength s /\ request_bytes protocol ndx s n n' req /\ ndx_state_ok n'.

Lemma generator_round_run P idx ndx entry source n x :
  owned P (pr_fs x) -> ndx_state_ok n -> 0 <= ndx < 2 ^ 31 ->
  (makes_link entry = true -> dest_path rx entry ∈ P) -> (makes_file entry = true -> hlink_source entry = None) ->
  (makes_file entry = true -> dest_path rx entry ∈ P /\ not_link (what (pr_fs x) (dest_path rx entry)) /\
    forall basis, basis = [] \/ what (pr_fs x) (dest_path rx entry) = Some (File basis) ->
      exists s, sendable H B fuel protocol block_size basis source entry s) ->
  exists n' item x', generator_round H protocol block_size F rx (idx, ndx, entry) n x = (inr (n', item), x') /\
    spares P entry (pr_fs x) (pr_fs x') /\ pr_in x' = pr_in x /\ pr_success x' = pr_success x /\
    match item with
    | Some (ItemTransfer i basis bl) => i = idx /\ makes_file entry = true /\
        exists req, requested ndx entry source n n' basis bl req /\ pr_out x' = pr_out x ++ req
    | Some ItemDone => False
    | Some (ItemHandled i _) => i = idx /\ n' = n /\ pr_out x' = pr_out x /\ makes_file entry = false
    | Some (ItemDeferredHardlink _ _) => False
    | None => n' = n /\ pr_out x' = pr_out x /\
        (makes_file entry = true -> should_skip_impl F (pr_fs x') entry (rx_dest rx) (rx_options rx) = true)
    end.
Proof.
  intros Ho Hn Hx Hl Hh Hf. unfold generator_round.
  assert (H1 : exists s1, (if FileEntry.is_file entry then _ ← attempt (try_fs (ensure_parent F rx entry)); mret tt else mret tt) x
      = (inr tt, peer_fs s1 x) /\ spares P entry (pr_fs x) s1 /\ (makes_file entry = true -> everywhere what P (pr_fs x) s1)).
  { destruct (FileEntry.is_file entry); [|exists (pr_fs x); by destruct x].
    pose proof (ensure_parent_spares P entry entry (pr_fs x) Ho) as Hs. destruct (ensure_parent F rx entry (pr_fs x)) as [r s1] eqn:E.
    exists s1. split; [|split; [done|]].
    - erewrite bind_run; [done|]. apply (attempt_run _ x (lift_err EFs r) s1); [unfold try_fs; by rewrite E|].
      intros e. destruct r; [|done]. intros [= <-]. eauto.
    - intros Hm q Hq. apply Hs; [done|]. intros Hml. exfalso. revert Hm Hml. unfold makes_file, makes_link, LocalSpec.makes_file, LocalSpec.makes_link.
      by destruct (FileEntry.is_dir entry), (FileEntry.is_symlink entry && Get.preserve_links (rx_options rx)). }
  destruct H1 as (s1 & E1 & Hs1 & Hev). rewrite (bind_run _ _ _ _ _ E1). pose proof (proj1 Hs1) as Ho1.
  pose proof (dispatch_run P entry s1 Ho1 Hl Hh) as Hd. destruct (dispatch_entry F rx entry s1) as [r s2] eqn:E2.
  destruct Hd as [Hs2 Hr].
  assert (E3 : attempt (dispatch_entry F rx entry) (peer_fs s1 x) = (inr r, peer_fs s2 (peer_fs s1 x))).
  { apply attempt_run; [done|]. intros e ->. apply Hr. }
  rewrite (bind_run _ _ _ _ _ E3). pose proof (spares_trans _ _ _ _ _ Hs1 Hs2) as Hs.
  destruct r as [e|[kind| |nm|basis]]; [exists n, None, (peer_fs s2 x)|exists n, (Some (ItemHandled idx kind)), (peer_fs s2 x)|
    exists n, None, (peer_fs s2 x)|done|].
  1: { destruct Hr as [Hr _]. rewrite Hr. by destruct x. }
  1: { by destruct x. }
  1: { destruct x. split_and!; try done. intros Hm. by destruct (Hr Hm) as [-> ?]. } destruct Hr as (Hm & -> & Hb). specialize (Hev Hm). destruct (Hf Hm) as (Hp & Hnl & Hsend).
  assert (Hbasis : basis = [] \/ what (pr_fs x) (dest_path rx entry) = Some (File basis)).
  { subst basis. destruct (map_file F s1 (dest_path rx entry)) as [e|d] eqn:Em; [by left|right].
    apply (owned_map_file P) in Em; [|done..|by rewrite Hev]. by rewrite <- Hev. }
  destruct (Hsend basis Hbasis) as [sigs Hsd]. pose proof Hsd as [Hb1 Hb2 Hsg Hcnt _ _ _].
  assert (Hok : sums_ok implicit_len sigs) by (by apply (computed_sums_ok H HL basis ctx sigs)).
  destruct Hplain as (_ & _ & _ & Ha & Hv & _ & _ & Hfz & _).
  destruct (request_sent protocol ndx sigs n rx Hn ltac:(lia) Hok Ha Hv) as (n' & req & Hreq & Hrb).
  exists n', (Some (ItemTransfer idx basis (receiver_blength sigs))), (peer_put req (peer_fs s1 x)).
  split.
  - erewrite bind_run by reflexivity. cbv zeta.
    replace (if bool_decide (basis = []) then _ else basis) with basis
      by (unfold find_fuzzy_basis, find_fuzzy_basis_impl; rewrite Hfz; by case_bool_decide).
    erewrite bind_run by (unfold of_result; rewrite Hsg; reflexivity).
    erewrite bind_run by (unfold put; rewrite Hreq; reflexivity). cbn [mret act_ret].
    rewrite (receiver_blength_code H HL basis _ sigs Hb1 Hb2 Hsg). by destruct x.
  - split; [exact Hs|]. split_and!; try done. exists req. split; [|done]. exists sigs. split_and!; try done.
    destruct Hrb as (b1 & b3 & _ & (_ & Hno & _) & _). done.
Qed.

End receiving.
