(* ===== verification/UnixWire.v ===== *)
(** The file system of the operating system receives over the wire
    ([FsStreamSpec] of [FsSpec.v]), when none of its calls fails. *)
From S2P Require Import Prelude Wire Types Text Utf8 Sort Filter Scanner Listing Fs FileDecision Posix PosixFacts UnixFs FsSpec UnixSpec UnixStream.

(** ** Calls that use up no faults *)

Definition unfailing {E A} (m : act E os A) : Prop := forall o, free o -> free (m o).2.

Lemma unfailing_syscall {A} (m : sys A) : unfailing m -> unfailing (syscall m).
Proof. intros Hm o Ho. rewrite syscall_free by done. by apply Hm. Qed.
Lemma unfailing_ret {E A} (a : A) : unfailing (E := E) (mret a).
Proof. by intros o. Qed.
Lemma unfailing_bind {E A A'} (m : act E os A) (f : A -> act E os A') :
  unfailing m -> (forall a, unfailing (f a)) -> unfailing (m ≫= f).
Proof.
  intros Hm Hf o Ho. unfold mbind, act_bind. specialize (Hm o Ho). destruct (m o) as [[e|a] o']; [done|]. by apply Hf.
Qed.
Lemma unfailing_try_io {A} p (m : sys A) : unfailing m -> unfailing (try_io p m).
Proof. intros Hm o Ho. unfold try_io. specialize (Hm o Ho). by destruct (m o). Qed.
Create HintDb quiet.
#[local] Hint Resolve unfailing_syscall unfailing_ret unfailing_bind unfailing_try_io : quiet.

Ltac calm := let o := fresh in let H := fresh in
  intros o H; cbv beta; repeat case_match; try exact H; simplify_eq/=; exact H.

Lemma on_inode_unfailing p f : unfailing (on_inode p f).
Proof. apply unfailing_syscall. calm. Qed.
Lemma open_unfailing a p : unfailing (open_for_writing a p).
Proof. unfold open_for_writing. apply unfailing_syscall. calm. Qed.
Lemma rename_unfailing a b : unfailing (Posix.rename a b).
Proof. apply unfailing_syscall. calm. Qed.
Lemma mkdir_unfailing p : unfailing (Posix.mkdir p).
Proof. apply unfailing_syscall. calm. Qed.
Lemma symlink_unfailing t p : unfailing (symlink t p).
Proof. apply unfailing_syscall. calm. Qed.
Lemma remove_unfailing p : unfailing (Posix.remove_file p).
Proof. apply unfailing_syscall. calm. Qed.
Lemma set_len_unfailing n f : unfailing (file_set_len n f).
Proof. apply unfailing_syscall. calm. Qed.
#[local] Hint Resolve on_inode_unfailing open_unfailing rename_unfailing mkdir_unfailing symlink_unfailing remove_unfailing
  set_len_unfailing : quiet.

Lemma file_write_all_unfailing data f o : free o -> free (file_write_all data f o).2.2.
Proof. intros Ho. unfold file_write_all. by rewrite Ho. Qed.
Lemma write_unfailing p data : unfailing (write p data).
Proof.
  intros o Ho. unfold write. pose proof (open_unfailing false p o Ho) as H1. destruct (open_for_writing false p o) as [[e|f] o1]; [done|].
  pose proof (file_write_all_unfailing data f o1 H1) as H2. by destruct (file_write_all data f o1) as [[e|] [f1 o2]].
Qed.
Lemma set_mode_unfailing p mode : unfailing (set_mode p mode).
Proof. unfold set_mode. destruct mode; [|apply unfailing_ret]. apply unfailing_try_io, on_inode_unfailing. Qed.
Lemma write_all_unfailing p data f : unfailing (UnixFs.write_all p data f).
Proof.
  intros o Ho. unfold UnixFs.write_all. pose proof (file_write_all_unfailing data f o Ho) as H1.
  by destruct (file_write_all data f o) as [[e|] [f1 o1]].
Qed.
#[local] Hint Resolve write_unfailing set_mode_unfailing write_all_unfailing : quiet.

Lemma write_file_unfailing p data mode : unfailing (UnixFs.write_file p data mode).
Proof. intros o Ho. unfold UnixFs.write_file, unique_tmp_name. apply unfailing_bind; auto 8 with quiet. Qed.
Lemma write_file_inplace_unfailing p data mode : unfailing (UnixFs.write_file_inplace p data mode).
Proof. unfold UnixFs.write_file_inplace. auto 8 with quiet. Qed.
Lemma write_sparse_unfailing fuel p data f : unfailing (write_sparse fuel p data f).
Proof.
  revert data f. induction fuel as [|fuel IH]; intros data f; cbn [write_sparse]; [destruct data; apply unfailing_ret|].
  destruct data; [apply unfailing_ret|]. apply unfailing_bind; [|auto]. destruct (forallb _ _); auto with quiet.
Qed.
Lemma write_file_sparse_unfailing p data mode : unfailing (UnixFs.write_file_sparse p data mode).
Proof.
  unfold UnixFs.write_file_sparse. apply unfailing_bind; [auto with quiet|]. intros f.
  apply unfailing_bind; [apply write_sparse_unfailing|]. intros f'. apply unfailing_bind; [|auto with quiet].
  destruct (bool_decide _); auto with quiet.
Qed.
Lemma create_dir_all_unfailing fuel p : unfailing (create_dir_all_within fuel p).
Proof.
  revert p. induction fuel as [|fuel IH]; intros p o Ho; cbn [create_dir_all_within]; [done|]. case_bool_decide; [done|].
  pose proof (mkdir_unfailing p o Ho) as H1. destruct (Posix.mkdir p o) as [[[]|] o1]; [|by destruct (is_dir o1 p)..|done].
  destruct (parent p) as [d|]; [|done]. pose proof (IH d o1 H1) as H2. destruct (create_dir_all_within fuel d o1) as [[e|] o2]; [done|].
  pose proof (mkdir_unfailing p o2 H2) as H3. destruct (Posix.mkdir p o2) as [[e|] o3]; [by destruct (is_dir o3 p)|done].
Qed.
Lemma unix_mkdir_unfailing d mode : unfailing (UnixFs.mkdir d mode).
Proof.
  unfold UnixFs.mkdir. apply unfailing_bind; [apply unfailing_try_io, create_dir_all_unfailing|]. intros _.
  apply unfailing_try_io, on_inode_unfailing.
Qed.
Lemma create_symlink_unfailing tg p : unfailing (UnixFs.create_symlink tg p).
Proof.
  intros o Ho. unfold UnixFs.create_symlink. apply unfailing_bind; [|auto with quiet|done].
  destruct (symlink_metadata o p); auto with quiet.
Qed.
Lemma write_file_stream_unfailing p mode : unfailing (UnixFs.write_file_stream p mode).
Proof. intros o Ho. unfold UnixFs.write_file_stream, unique_tmp_name. apply unfailing_bind; auto with quiet. Qed.
Lemma flush_buf_unfailing w o : free o -> free (flush_buf w o).2.2.
Proof.
  intros Ho. destruct (flush_buf_free w o Ho) as (w' & o' & E & Hf). by rewrite E.
Qed.
Lemma unix_write_all_unfailing d w o : free o -> (unix_write_all d w o).1 = true /\ free (unix_write_all d w o).2.2.
Proof.
  intros Ho. unfold unix_write_all. destruct (buf_write_all_free d (buf_of w) o Ho) as (b & o' & E & Hf). by rewrite E.
Qed.
Lemma unix_drop_unfailing w o : free o -> free (unix_drop w o).
Proof.
  intros Ho. destruct w as [a|b]; cbn [unix_drop]; [|by apply flush_buf_unfailing]. unfold atomic_drop, finish_inner.
  destruct (finished a); [by apply flush_buf_unfailing|]. destruct (flush_buf_free (inner a) o Ho) as (b1 & o1 & -> & H1).
  cbn [UnixFs.tmp_path UnixFs.dest_path UnixFs.mode finished inner].
  assert (H2 : free (match mode a with Some m => Posix.set_permissions (UnixFs.tmp_path a) m o1 | None => (inr tt, o1) end).2).
  { destruct (mode a); [by apply on_inode_unfailing|done]. }
  destruct (match mode a with Some m => _ | None => _ end) as [[e|] o2]; cbn [snd] in H2; cbn [inner UnixFs.tmp_path].
  { apply flush_buf_unfailing, remove_unfailing, H2. }
  pose proof (rename_unfailing (UnixFs.tmp_path a) (UnixFs.dest_path a) o2 H2) as H3.
  destruct (Posix.rename _ _ o2) as [[e|] o3]; cbn [snd] in H3; cbn [inner UnixFs.tmp_path]; apply flush_buf_unfailing; [|done].
  by apply remove_unfailing.
Qed.

(** ** The promises, with the calls that succeed *)

Class CratesQuiet (crates : Crates) : Prop := {
  set_file_mtime_quiet p t n : unfailing (set_file_mtime crates p t n);
  xattr_set_quiet p n v : unfailing (xattr_set crates p n v);
}.

Abbreviation unix_what := (fun o => thing_at (tree_of o)).
Definition unix_owned (P : list (list Z)) (o : os) : Prop := owns P (tree_of o) /\ free o.

Lemma free_writes op : writes_to unix_what (fun P o => owns P (tree_of o)) op ->
  (forall p data mode, unfailing (op p data mode)) -> writes_to unix_what unix_owned op.
Proof.
  intros Hw Hu P o o' p data mode [Ho Hf] Hp Hl E. destruct (Hw P o o' p data mode Ho Hp Hl E) as (H1 & H2 & H3).
  split; [|done]. split; [done|]. pose proof (Hu p data mode o Hf) as H4. by rewrite E in H4.
Qed.
Lemma free_harmless m : harmless unix_what (fun P o => owns P (tree_of o)) m -> unfailing m -> harmless unix_what unix_owned m.
Proof. intros Hm Hu P o [Ho Hf]. destruct (Hm P o Ho) as [H1 H2]. split; [split; [done|by apply Hu]|done]. Qed.

Lemma unix_mkdir_any P o d mode : owns P (tree_of o) -> grown P o (UnixFs.mkdir d mode o).2.
Proof.
  intros Ho. unfold UnixFs.mkdir, mbind, act_bind, try_io.
  pose proof (create_dir_all_grown P (S (length d)) d o Ho) as Hg. unfold create_dir_all.
  destruct (create_dir_all_within (S (length d)) d o) as [[e|[]] o1]; [done|]. cbn [snd io lift_err] in *.
  pose proof (set_permissions_still d mode o1) as Hs. destruct (Posix.set_permissions d mode o1) as [r2 o2].
  apply (grown_trans P o o1 o2 Hg). apply grown_still; [apply Hg|done].
Qed.

(** A place that is not a directory may be emptied. *)
Lemma owns_del P t p : owns P t -> p ∈ P -> at_loc t (lies_at t p) <> Some Dir -> owns P (del (lies_at t p) t) /\
  forall q, q ∈ P -> q <> p -> thing_at (del (lies_at t p) t) q = thing_at t q.
Proof.
  intros Ho Hp Hd. destruct (lies_below t p) as [Hl _]; [by apply (owns_way P t Ho p Hp)|]. split.
  - apply (owns_change P t _ (lies_at t p)); [done|done|by apply (del_ok t (owns_ok P t Ho))|done|..].
    + intros l' Hne. split; [left; rewrite at_del by done; by destruct (decide _)|]. cbn [del t_names]. by rewrite lookup_delete_ne.
    + right; left. cbn [del t_names]. by rewrite lookup_delete_eq.
    + left. rewrite at_del by done. by destruct (decide _).
  - intros q Hq Hne. unfold thing_at. change (lies_at (del _ _) q) with (lies_at t q). rewrite at_del by done.
    destruct (decide _) as [E|]; [|done]. by destruct (lies_ne P t Ho p q Hp Hq Hne).
Qed.

Section stream.
  Context (P : list (list Z)) (p : list Z) (o : os) (Ho : owns P (tree_of o)) (Hp : p ∈ P).
Let t := tree_of o.

(** A file that was put in a new place and taken away again. *)
Lemma owns_gone l n c : l <> [] -> at_loc t l = None -> t_contents t !! n = None -> owns P (del l (put l n c t)).
Proof.
  intros Hl Hno Hn. assert (Ht : tree_ok t) by apply (owns_ok P t Ho).
  assert (Hname : t_names t !! l = None) by (by apply (at_loc_none t _ Ht)).
  assert (En : t_names (del l (put l n c t)) = t_names t) by (cbn [del put t_names]; by rewrite delete_insert_id).
  assert (Hat : forall l', at_loc (del l (put l n c t)) l' = at_loc t l').
  { intros l'. unfold at_loc. rewrite En. destruct l' as [|w l']; [done|].
    destruct (t_names t !! (w :: l')) as [m|] eqn:Em; [|done]. cbn. rewrite lookup_insert_ne; [done|]. intros <-.
    by apply (no_name P t Ho n Hn (w :: l')). }
  apply (owns_change P t _ l); [done|done| |congruence|..].
  - intros l' m. rewrite En, Hat. intros Hm. destruct (Ht l' m Hm) as (H1 & [c' H2] & H3). split; [done|]. split; [|done].
    cbn [del put t_contents]. rewrite lookup_insert_ne; [by rewrite H2|]. intros <-. congruence.
  - intros l' Hne. rewrite En. split; [left; apply Hat|done].
  - left. by rewrite En.
  - left. by rewrite Hat.
Qed.

Lemma remove_tmp_free tp n d o1 : way t tp -> at_loc t (lies_at t tp) = None -> t_contents t !! n = None -> free o1 ->
  tree_ok (tree_of o1) -> tree_of o1 = put (lies_at t tp) n (Reg d) t ->
  (Posix.remove_file tp o1).1 = inr tt.
Proof.
  intros Hw Hno Hn Hf Hok E. destruct (lies_below t tp (proj1 Hw)) as [Hl _].
  assert (Hlie : forall q, lies_at (tree_of o1) q = lies_at t q) by (intros q; by rewrite E).
  unfold Posix.remove_file. rewrite syscall_free by done. unfold node.
  assert (Hat : at_loc (tree_of o1) (lies_at t tp) = Some (Reg d)).
  { rewrite E, at_put by (done || apply (owns_ok P t Ho)). by rewrite decide_True. }
  rewrite (resolve_there o1 tp false (Reg d)); [|done|apply Hw|by rewrite Hlie|done].
  cbn [mbind sum_bind]. rewrite content_tree, Hlie, Hat. done.
Qed.

Lemma flush_empty f o1 : flush_buf (mkBufWriter f []) o1 = (None, (mkBufWriter f [], o1)).
Proof. done. Qed.

(** The writer, dropped, moved its file into place or took it away. *)
Lemma cleanup_free tp n d b o1 : way t tp -> at_loc t (lies_at t tp) = None -> t_contents t !! n = None ->
  at_loc t (removelast (lies_at t tp)) = Some Dir -> (forall q, q ∈ P -> lies_at t q <> lies_at t tp) ->
  free o1 -> tree_of o1 = put (lies_at t tp) n (Reg d) t -> bw_buf b = [] ->
  let o' := (flush_buf b (Posix.remove_file tp o1).2).2.2 in owns P (tree_of o') /\ as_before P o o'.
Proof.
  intros Hw Hno Hn Hpar Hne Hf E Hb. destruct (lies_below t tp (proj1 Hw)) as [Hl _].
  assert (Hok : tree_ok (tree_of o1)) by (rewrite E; apply put_ok; [apply (owns_ok P t Ho)|done..|by rewrite Hno]).
  pose proof (remove_tmp_free tp n d o1 Hw Hno Hn Hf Hok E) as Hr.
  destruct (Posix.remove_file tp o1) as [r o2] eqn:E1. cbn [fst snd] in *. subst r.
  apply remove_file_spec in E1 as [_ E1]; [|rewrite E; by apply way_put; [apply (owns_ok P t Ho)|..]].
  rewrite E in E1. change (lies_at (put _ _ _ _) tp) with (lies_at t tp) in E1. unfold flush_buf. rewrite Hb. cbn [snd].
  split; [rewrite E1; by apply owns_gone|]. apply (leftover_before P o Ho n tp d); [done..|by right].
Qed.

Lemma streaming_drops_free mode sofar w o1 : streaming P p o mode sofar w o1 -> free o1 -> let o' := unix_drop w o1 in
  free o' /\ (owns P (tree_of o') /\ as_before P o o' \/ became P p (Some (File sofar)) t (tree_of o')).
Proof.
  intros (n & tp & b & -> & Htmp & Hne & Hno & Hn & Hpar & Hb) Hf o'. split; [by apply unix_drop_unfailing|]. subst o'.
  assert (Hw := proj1 Htmp). unfold unix_drop, atomic_drop, finish_inner. cbn [inner UnixFs.tmp_path UnixFs.dest_path UnixFs.mode finished].
  destruct (flush_buf_free b o1 Hf) as (b1 & o2 & E1 & Hf2). rewrite E1. destruct (flush_buf_took _ _ _ _ _ _ _ _ Hb E1) as [Hb1 Hr1].
  specialize (Hr1 eq_refl).
  assert (E2 : tree_of o2 = put (lies_at t tp) n (Reg sofar) t).
  { destruct Hb1 as (d & buf & Hd & E2 & Hbw). rewrite Hbw in Hr1. cbn in Hr1. subst buf. rewrite app_nil_r in Hd. subst d.
    by rewrite store_put in E2. }
  replace (match mode with Some m => Posix.set_permissions tp m o2 | None => (inr tt, o2) end)
    with ((match mode with Some m => Posix.set_permissions tp m | None => fun o => (inr tt, o) end) o2) by (by destruct mode).
  assert (Hm : still (match mode with Some m => Posix.set_permissions tp m | None => fun o => (inr tt, o) end))
    by (destruct mode; [apply set_permissions_still|done]).
  assert (Hu : unfailing (match mode with Some m => Posix.set_permissions tp m | None => fun o => (inr tt, o) end))
    by (destruct mode; [apply on_inode_unfailing|by intros ? ?]).
  set (sm := match mode with Some m => _ | None => _ end) in *. clearbody sm. specialize (Hm o2). specialize (Hu o2 Hf2).
  destruct (sm o2) as [r2 o3]. cbn [snd] in Hm, Hu. rewrite E2 in Hm.
  destruct r2 as [e|[]]; cbn [inner UnixFs.tmp_path]; [left; by eapply cleanup_free|].
  pose proof (rename_unfailing tp p o3 Hu) as Hf4.
  destruct (Posix.rename tp p o3) as [r4 o4] eqn:E4. cbn [snd] in Hf4.
  destruct (rename_tmp P p o Ho Hp tp n sofar o3 r4 o4 Htmp Hne Hno Hn Hm E4) as [[-> Hbc]|[[e ->] Hs]]; cbn [inner UnixFs.tmp_path].
  - right. unfold flush_buf. rewrite Hr1. exact Hbc.
  - left. rewrite Hm in Hs. by eapply cleanup_free.
Qed.
End stream.

Lemma unix_pieces_free P p o (Ho : owns P (tree_of o)) (Hp : p ∈ P) crates mode ps sofar w o1 w' o2 :
  streaming P p o mode sofar w o1 -> free o1 -> write_pieces (UnixFileSystem crates) ps w o1 = (true, (w', o2)) ->
  streaming P p o mode (sofar ++ concat ps) w' o2 /\ free o2.
Proof.
  revert sofar w o1. induction ps as [|d ps IH]; intros sofar w o1 Hs Hf; cbn [write_pieces concat].
  { intros [= <- <-]. by rewrite app_nil_r. }
  cbn [writer_write_all UnixFileSystem]. pose proof (unix_write_all_unfailing d w o1 Hf) as [Ht Hf1].
  destruct (unix_write_all d w o1) as [ok [w1 o3]] eqn:E. cbn [fst snd] in Ht, Hf1. subst ok.
  destruct (streaming_writes _ _ _ _ _ _ _ _ _ _ _ Hs E) as (wr & rest & -> & Hr & Hs1). rewrite (Hr eq_refl), app_nil_r.
  rewrite app_assoc. by apply IH.
Qed.

Lemma unix_streams crates : streams_to unix_what unix_owned (UnixFileSystem crates) UnixFs.write_file_stream.
Proof.
  intros P o o1 o2 p mode w w' ps [Ho Hf] Hp _ E E2 o3. pose proof (write_file_stream_unfailing p mode o Hf) as Hf1.
  rewrite E in Hf1. apply (write_file_stream_opens P p o Ho Hp) in E. cbn [snd] in Hf1.
  destruct (unix_pieces_free P p o Ho Hp crates mode ps [] w o1 w' o2 E Hf1 E2) as [Hs Hf2]. cbn [app] in Hs.
  destruct (streaming_drops_free P p o Ho Hp mode _ w' o2 Hs Hf2) as [Hf3 [[H1 H2]|(H1 & H2 & H3)]].
  - split; [done|]. split; [intros q Hq _; by apply H2|]. left. by apply H2.
  - split; [done|]. split; [done|]. by right.
Qed.

(** A link may take the place of a file, or leave it empty. *)
Lemma unix_create_symlink_any P o tg p : unix_owned P o -> p ∈ P -> let o' := (UnixFs.create_symlink tg p o).2 in
  unix_owned P o' /\ elsewhere unix_what P p o o'.
Proof.
  intros [Ho Hf] Hp o'. pose proof (create_symlink_unfailing tg p o Hf) as Hf'. fold o' in Hf'.
  enough (H : owns P (tree_of o') /\ elsewhere unix_what P p o o') by (destruct H; split; [by split|done]).
  clear Hf'. subst o'. destruct (UnixFs.create_symlink tg p o) as [[e|[]] o'] eqn:E; cbn [snd];
    [|by destruct (create_symlink_links P o o' tg p Ho Hp E) as (H1 & _ & H3)].
  revert E. assert (Hw := owns_way P _ Ho p Hp). unfold UnixFs.create_symlink, mbind, act_bind.
  assert (H0 : owns P (tree_of o) /\ elsewhere unix_what P p o o) by done.
  set (m := match symlink_metadata o p with inr _ => _ | inl _ => _ end). destruct (m o) as [r1 o1] eqn:E1.
  assert (H1 : (owns P (tree_of o1) /\ elsewhere unix_what P p o o1) /\ way (tree_of o1) p).
  { revert E1. unfold m. destruct (symlink_metadata o p); [by intros [= _ <-]|]. unfold try_io.
    destruct (Posix.remove_file p o) as [r3 o3] eqn:E3. intros [= _ <-]. apply remove_file_spec in E3; [|done].
    destruct r3 as [e3|]; [by unfold elsewhere; rewrite E3|]. destruct E3 as [Hd E3].
    destruct (owns_del P (tree_of o) p Ho Hp Hd) as [H1 H2]. unfold elsewhere. rewrite E3. split; [done|]. by apply (owns_way P _ H1). }
  destruct H1 as [H1 Hw1]. destruct r1 as [e1|[]]; [by intros [= _ <-]|]. unfold try_io.
  destruct (symlink tg p o1) as [[e2|] o2] eqn:E2; [|done]. intros [= _ <-]. apply symlink_spec in E2; [|done].
  unfold elsewhere. by rewrite E2.
Qed.

(** ** The file system of the operating system keeps them *)

Section unix_free.
  Context (crates : Crates) `{!CratesStill crates} `{!CratesQuiet crates}.

Lemma unix_set_mtime_unfailing p t n : unfailing (try_io p (set_file_mtime crates p t n)).
Proof. apply unfailing_try_io, set_file_mtime_quiet. Qed.
Lemma unix_set_owner_unfailing p u g : unfailing (try_io p (Posix.chown p u g)).
Proof. apply unfailing_try_io, on_inode_unfailing. Qed.
Lemma unix_set_xattr_unfailing p n v : unfailing (try_io p (xattr_set crates p n v)).
Proof. apply unfailing_try_io, xattr_set_quiet. Qed.

Lemma unix_mkdir_free P o o' d mode : unix_owned P o -> UnixFs.mkdir d mode o = (inr tt, o') ->
  unix_owned P o' /\ everywhere unix_what P o o'.
Proof.
  intros [Ho Hf] E. pose proof (unix_mkdir_unfailing d mode o Hf) as Hf'. rewrite E in Hf'.
  destruct (unix_mkdir_grown P o o' d mode Ho E) as [H1 H2]. by split.
Qed.
Lemma unix_symlink_free P o o' tg p : unix_owned P o -> p ∈ P -> UnixFs.create_symlink tg p o = (inr tt, o') ->
  unix_owned P o' /\ unix_what o' p = Some (Link tg) /\ elsewhere unix_what P p o o'.
Proof.
  intros [Ho Hf] Hp E. pose proof (create_symlink_unfailing tg p o Hf) as Hf'. rewrite E in Hf'.
  by destruct (create_symlink_links P o o' tg p Ho Hp E) as (H1 & H2 & H3).
Qed.

#[local] Instance unix_free_spec : FsSpec (UnixFileSystem crates) := {
  what := unix_what;
  owned := unix_owned;
  owned_map_file P o p Ho := map_file_owned P o p (proj1 Ho);
  owned_write_file := free_writes _ write_file_writes write_file_unfailing;
  owned_write_file_inplace := free_writes _ write_file_inplace_writes write_file_inplace_unfailing;
  owned_write_file_sparse := free_writes _ write_file_sparse_writes write_file_sparse_unfailing;
  owned_mkdir := unix_mkdir_free;
  owned_create_symlink P o o' tg p Ho Hp _ := unix_symlink_free P o o' tg p Ho Hp;
  owned_set_mtime p t n := free_harmless _ (harmless_still _ (still_try_io p _ (set_file_mtime_still p t n))) (unix_set_mtime_unfailing p t n);
  owned_set_owner p u g := free_harmless _ (harmless_still _ (still_try_io p _ (chown_still p u g))) (unix_set_owner_unfailing p u g);
  owned_set_xattr p n v := free_harmless _ (harmless_still _ (still_try_io p _ (xattr_set_still p n v))) (unix_set_xattr_unfailing p n v);
}.

Lemma unix_mkdir_harmless d mode : harmless unix_what unix_owned (UnixFs.mkdir d mode).
Proof.
  intros P o [Ho Hf]. destruct (unix_mkdir_any P o d mode Ho) as [H1 H2]. split; [|done]. split; [done|].
  by apply unix_mkdir_unfailing.
Qed.
#[local] Instance unix_stream_spec : FsStreamSpec (FsSpec0 := unix_free_spec) (UnixFileSystem crates) := {
  owned_mkdir_any := unix_mkdir_harmless;
  owned_create_symlink_any P o tg p := unix_create_symlink_any P o tg p;
  owned_write_file_stream := unix_streams crates;
}.
End unix_free.
