(* ===== verification/WireSystem.v ===== *)
(** The two machines of a transfer over the wire, their three loops interleaved.

    The generator's task, the receiver's task and the sender take their turns
    ([WireTransfer.v]) in any order; a turn that lacks bytes, an item or room in
    the channel waits.  What a turn writes is there for the other side when it
    is over, and a turn's operations on a file system are taken together. *)
From S2P Require Import Prelude Wire Types Text Varint WireFormat Handshake Checksum Sum Matcher Compress Token Proc Filter Scanner Options Fs Progress FileDecision ReceiverEngine Transfer LocalTransfer FsSpec LocalSpec WireTransfer WireSpec.

(** [channel::<GeneratorItem>(4)]; an item that finds it full is held by the
    generator until there is room. *)
Definition CHANNEL_CAPACITY : nat := 4.

(** Where the receiving side and the sending side are in their functions. *)
Inductive RxStage :=
  | Receiving (st : ReceiverState)
  | Exchanging (rounds : nat) (waiting : bool) (gen recv : NdxState)
  | RxDone.
Inductive TxStage :=
  | Serving (st : SenderState)
  | TxDone.

Record System (S T : Type) := mkSystem {
  sy_todo : list (nat * Z * FileEntry);
  sy_gen : NdxState;
  sy_gen_over : bool;
  sy_channel : list GeneratorItem;
  sy_here : Peer S;
  sy_rx : RxStage;
  sy_there : Peer T;
  sy_tx : TxStage;
}.
Arguments mkSystem {S T} _ _ _ _ _ _ _ _.
Arguments sy_todo {S T} _.
Arguments sy_gen {S T} _.
Arguments sy_gen_over {S T} _.
Arguments sy_channel {S T} _.
Arguments sy_here {S T} _.
Arguments sy_rx {S T} _.
Arguments sy_there {S T} _.
Arguments sy_tx {S T} _.

Definition sent_all {S} (x : Peer S) : Peer S := mkPeer (pr_fs x) (pr_in x) [] (pr_success x) (pr_stats x) (pr_progress x).
(** What [x] has written, arrived at [y]. *)
Definition arrive {S T} (x : Peer S) (y : Peer T) : Peer T := peer_in (pr_in y ++ pr_out x) y.

(** A turn that needs more bytes than there are does not happen yet. *)
Definition turn {S A Sys} (m : (failure + A) * Peer S) (k : A -> Peer S -> Sys) : option (failure + Sys) :=
  match m with
  | (inr a, x) => Some (inr (k a x))
  | (inl (EProtocol (Io UnexpectedEof)), _) => None
  | (inl e, _) => Some (inl e)
  end.

Section system.
  Context (H : HashLib) (B : Backends) (fuel : nat) (protocol : NegotiatedProtocol) (block_size : option Z).
  Context {S T : Type} (F : FsOps S) (open_append : list Z -> act FsError S (Writer F)) (rx : Receiver).
  Context (reader : FileReader T) (entries : list FileEntry) (entry_ndx : list Z) (num_flists : Z).

Definition generator_step (s : System S T) : option (failure + System S T) :=
  if (CHANNEL_CAPACITY <? length (sy_channel s))%nat then None
  else match sy_todo s with
  | e :: todo =>
      turn (generator_round H protocol block_size F rx e (sy_gen s) (sy_here s)) (fun r here =>
        mkSystem todo r.1 (sy_gen_over s) (sy_channel s ++ match r.2 with Some item => [item] | None => [] end)
          (sent_all here) (sy_rx s) (arrive here (sy_there s)) (sy_tx s))
  | [] =>
      if sy_gen_over s then None
      else Some (inr (mkSystem [] (sy_gen s) true (sy_channel s ++ [ItemDone]) (sy_here s) (sy_rx s) (sy_there s) (sy_tx s)))
  end.

Definition receiver_step (s : System S T) : option (failure + System S T) :=
  let next (channel : list GeneratorItem) (stage : RxStage) (here : Peer S) : System S T :=
    mkSystem (sy_todo s) (sy_gen s) (sy_gen_over s) channel (sent_all here) stage (arrive here (sy_there s)) (sy_tx s) in
  match sy_rx s with
  | Receiving st =>
      match sy_channel s with
      | [] => None
      | item :: channel =>
          turn ((r ← receiver_round H B fuel protocol block_size F open_append rx entries entry_ndx item st;
                 match r with
                 | inl st => mret (Receiving st)
                 | inr st =>
                     _ ← receiver_finish F rx entries st;
                     mret (Exchanging (Z.to_nat (total_ndx_rounds protocol num_flists)) false NdxState_default NdxState_default)
                 end) (sy_here s)) (next channel)
      end
  | Exchanging O _ _ _ => Some (inr (next (sy_channel s) RxDone (sy_here s)))
  | Exchanging (Datatypes.S n) false gen recv =>
      turn (say_done protocol gen (sy_here s)) (fun gen => next (sy_channel s) (Exchanging (Datatypes.S n) true gen recv))
  | Exchanging (Datatypes.S n) true gen recv =>
      turn (hear_done protocol recv (sy_here s)) (fun recv => next (sy_channel s) (Exchanging n false gen recv))
  | RxDone => None
  end.

Definition sender_step (s : System S T) : option (failure + System S T) :=
  match sy_tx s with
  | Serving st =>
      turn ((r ← sender_round H B fuel protocol block_size reader entries (build_ndx_map entry_ndx) false false st;
             match r with
             | inl st => mret (Serving st)
             | inr st => _ ← put (write_ndx NDX_DONE (send_ndx_state st) (codec protocol)); mret TxDone
             end) (sy_there s)) (fun stage there =>
        mkSystem (sy_todo s) (sy_gen s) (sy_gen_over s) (sy_channel s) (arrive there (sy_here s)) (sy_rx s) (sent_all there) stage)
  | TxDone => None
  end.

Definition wire_step (s s' : System S T) : Prop :=
  generator_step s = Some (inr s') \/ receiver_step s = Some (inr s') \/ sender_step s = Some (inr s').
(** The receiver's task may fail, with its file system. *)
Definition wire_fails (s : System S T) : Prop := exists e, receiver_step s = Some (inl e) /\ fails e.

Definition wire_start (todo : list (nat * Z * FileEntry)) (here : Peer S) (there : Peer T) : System S T :=
  mkSystem todo NdxState_default false [] here (Receiving receiver_start) there (Serving (sender_start None)).

(** Whatever the order of the turns, [P] in the end, unless a file operation
    of the receiver fails. *)
Inductive surely (P : System S T -> Prop) (s : System S T) : Prop :=
  | surely_here : P s -> surely P s
  | surely_next : wire_fails s \/ (exists s', wire_step s s') -> (forall s', wire_step s s' -> surely P s') -> surely P s.
End system.

(** ** Lists of requests and replies under way *)

Lemma index_done_bytes protocol : exists bs, forall n, ndx_state_ok n -> index_bytes protocol NDX_DONE n n bs.
Proof.
  destruct (write_ndx NDX_DONE NdxState_default (codec protocol)) as [r bs] eqn:E. exists bs. intros n1 Hn.
  destruct (index_sent protocol NDX_DONE n1 Hn) as (n' & bs' & Hb); [done|]. pose proof (index_done _ _ _ _ Hb) as ->.
  replace bs with bs'; [done|]. destruct Hb as (Hw & _). revert E Hw. unfold write_ndx.
  case_bool_decide; [intros E Hw|rewrite Z.eqb_refl; intros E Hw].
  - unfold write_int, mbind, wr_bind, write_all, mret, wr_ret in *. congruence.
  - unfold mbind, wr_bind, write_all, mret, wr_ret in *. congruence.
Qed.

Lemma read_ndx_nothing n codec : read_ndx n codec [] = Err (Io UnexpectedEof).
Proof. unfold read_ndx. case_bool_decide; reflexivity. Qed.

Section correct.
  Context (H : HashLib) (HL : HashLaws H) (B : Backends) `{BL : !BackendLaws B} (fuel : nat).
  Context (protocol : NegotiatedProtocol) (block_size : option Z).
  Context {S T : Type} (F : FsOps S) (open_append : list Z -> act FsError S (Writer F)) (rx : Receiver).
  Context (reader : FileReader T) (entries : list FileEntry) (entry_ndx : list Z) (num_flists : Z).
  Context `{!FsSpec F, !FsStreamSpec F} (Hplain : streams_plainly rx).
  Context (P : list (list Z)) (s0 : S) (t0 : T) (source : FileEntry -> list Z).

Abbreviation place e := (dest_path rx e).
Abbreviation sends := (sendable H B fuel protocol block_size).

(** What the entries ask of the two file systems at the start. *)
Record wire_ready : Prop := {
  wr_length : length entry_ndx = length entries;
  wr_nodup : NoDup entry_ndx;
  wr_range ndx : ndx ∈ entry_ndx -> 0 <= ndx < 2 ^ 31;
  wr_owned : owned P s0;
  wr_place i e : entries !! i = Some e -> makes_link rx e || makes_file rx e = true -> place e ∈ P;
  wr_apart i j e e' : entries !! i = Some e -> entries !! j = Some e' -> i <> j ->
    makes_link rx e || makes_file rx e = true -> makes_link rx e' || makes_file rx e' = true -> place e <> place e';
  wr_file i e : entries !! i = Some e -> makes_file rx e = true -> hlink_source e = None /\ not_link (what s0 (place e)) /\
    source_is t0 reader e (source e) /\
    forall basis, basis = [] \/ what s0 (place e) = Some (File basis) -> exists s, sends basis (source e) e s;
  wr_phases : 0 <= phase_count (wire protocol);
  wr_flists : total_ndx_rounds protocol num_flists = phase_count (wire protocol) + 1;
}.
Context (Hready : wire_ready).

(** A file on its way: its position, the basis, the block length. *)
Definition flight : Type := (nat * list Z * Z)%type.
Definition flights (channel : list GeneratorItem) : list flight :=
  omap (fun item => match item with ItemTransfer i b l => Some (i, b, l) | _ => None end) channel.

Inductive requests : NdxState -> list flight -> list Z -> NdxState -> Prop :=
  | requests_nil n : requests n [] [] n
  | requests_cons n i e ndx basis l req n1 fl bs n2 :
      entries !! i = Some e -> entry_ndx !! i = Some ndx -> makes_file rx e = true ->
      requested H B fuel protocol block_size ndx e (source e) n n1 basis l req -> requests n1 fl bs n2 ->
      requests n ((i, basis, l) :: fl) (req ++ bs) n2.
Inductive replies : NdxState -> list flight -> list Z -> NdxState -> Prop :=
  | replies_nil n : replies n [] [] n
  | replies_cons n i e ndx basis s hdr pay n1 fl bs n2 :
      entries !! i = Some e -> entry_ndx !! i = Some ndx -> makes_file rx e = true ->
      sends basis (source e) e s -> sums_ok implicit_len s -> header_bytes protocol ndx s n n1 hdr ->
      payload H B fuel protocol block_size basis (source e) (receiver_blength s) pay -> replies n1 fl bs n2 ->
      replies n ((i, basis, receiver_blength s) :: fl) ((hdr ++ pay) ++ bs) n2.

Lemma requests_snoc n fl bs n1 i e ndx basis l req n2 : requests n fl bs n1 ->
  entries !! i = Some e -> entry_ndx !! i = Some ndx -> makes_file rx e = true ->
  requested H B fuel protocol block_size ndx e (source e) n1 n2 basis l req -> requests n (fl ++ [(i, basis, l)]) (bs ++ req) n2.
Proof.
  induction 1 as [n|n j e' ndx' b' l' req' n1 fl bs n1' H1 H2 H3 H4 Hr IH]; intros.
  - cbn [app]. rewrite <- (app_nil_r req). econstructor; try done. constructor.
  - cbn [app]. rewrite <- app_assoc. econstructor; eauto.
Qed.
Lemma replies_snoc n fl bs n1 i e ndx basis s hdr pay n2 : replies n fl bs n1 ->
  entries !! i = Some e -> entry_ndx !! i = Some ndx -> makes_file rx e = true ->
  sends basis (source e) e s -> sums_ok implicit_len s -> header_bytes protocol ndx s n1 n2 hdr ->
  payload H B fuel protocol block_size basis (source e) (receiver_blength s) pay ->
  replies n (fl ++ [(i, basis, receiver_blength s)]) (bs ++ hdr ++ pay) n2.
Proof.
  induction 1 as [n|n j e' ndx' b' s' hdr' pay' n1 fl bs n1' H1 H2 H3 H4 H5 H6 H7 Hr IH]; intros.
  - cbn [app]. rewrite <- (app_nil_r (hdr ++ pay)). econstructor; try done. constructor.
  - cbn [app]. rewrite <- app_assoc. econstructor; eauto.
Qed.

(** ** The files *)

(** A file is settled: its data arrived and the sender was told so, or the skip
    criteria held for it, in a state where it was as at the start. *)
Definition settled (told : list Z) (e : FileEntry) (ndx : Z) (s : S) : Prop :=
  (ndx ∈ told /\ (what s (place e) = what s0 (place e) \/ what s (place e) = Some (File (source e)))) \/
  (what s (place e) = what s0 (place e) /\ exists s1, what s1 (place e) = what s0 (place e) /\
    should_skip_impl F s1 e (rx_dest rx) (rx_options rx) = true).

Definition waiting (s : System S T) : list nat := (flights (sy_channel s)).*1.*1 ++ (sy_todo s).*1.*1.

Record files_ok (told : list Z) (s : System S T) : Prop := {
  fo_owned : owned P (pr_fs (sy_here s));
  fo_nodup : NoDup (waiting s);
  fo_todo i ndx e : (i, ndx, e) ∈ sy_todo s -> entries !! i = Some e /\ entry_ndx !! i = Some ndx;
  fo_wait i e : entries !! i = Some e -> makes_file rx e = true -> i ∈ waiting s ->
    what (pr_fs (sy_here s)) (place e) = what s0 (place e);
  fo_done i e ndx : entries !! i = Some e -> entry_ndx !! i = Some ndx -> makes_file rx e = true -> i ∉ waiting s ->
    settled told e ndx (pr_fs (sy_here s));
}.

(** The channel's items, as the generator leaves them. *)
Definition item_known (item : GeneratorItem) : Prop :=
  match item with
  | ItemHandled i _ => is_Some (entries !! i)
  | ItemDeferredHardlink _ _ => False
  | ItemTransfer i _ _ => is_Some (entries !! i)
  | ItemDone => False
  end.

(** While entries are transferred; [m] bounds the turns left. *)
Record in_transfer (st : ReceiverState) (tx : SenderState) (m : nat) (s : System S T) : Prop := {
  it_rx : sy_rx s = Receiving st;
  it_tx : sy_tx s = Serving tx;
  it_silent : pr_out (sy_here s) = [] /\ pr_out (sy_there s) = [] /\ pr_success (sy_here s) = [];
  it_source : pr_fs (sy_there s) = t0;
  it_phase : phase tx = 0 /\ pending_flists tx = None;
  it_states : ndx_state_ok (sy_gen s) /\ ndx_state_ok (send_ndx_state tx) /\ ndx_state_ok (gen_ndx_state tx);
  it_streams : exists answered asked, flights (sy_channel s) = answered ++ asked /\
    replies (recv_ndx_state st) answered (pr_in (sy_here s)) (send_ndx_state tx) /\
    requests (gen_ndx_state tx) asked (pr_in (sy_there s)) (sy_gen s) /\
    m = (3 * length (sy_todo s) + (if sy_gen_over s then 0 else 2) + length (sy_channel s) + length asked +
         3 * Z.to_nat (total_ndx_rounds protocol num_flists) + 2)%nat;
  it_channel : exists items, Forall item_known items /\
    if sy_gen_over s then sy_todo s = [] /\ sy_channel s = items ++ [ItemDone] else sy_channel s = items;
  it_links : deferred_hardlinks st = [];
  it_files : files_ok (successful_ndxs st) s;
}.

(** While the phases end: the receiving side, what it has still to read, what
    the sender has to read, the sender, a bound of the turns left. *)
Inductive phases_ok (done : list Z) : RxStage -> list Z -> list Z -> TxStage -> nat -> Prop :=
  | po_say r g n ng ns ph : ndx_state_ok g -> ndx_state_ok n -> ndx_state_ok ng -> ndx_state_ok ns ->
      ph + Z.of_nat (Datatypes.S r) = phase_count (wire protocol) + 1 ->
      phases_ok done (Exchanging (Datatypes.S r) false g n) [] [] (Serving (mkSenderState ng ns ph None)) (3 * r + 4)
  | po_said r g n ng ns ph : ndx_state_ok g -> ndx_state_ok n -> ndx_state_ok ng -> ndx_state_ok ns ->
      ph + Z.of_nat (Datatypes.S r) = phase_count (wire protocol) + 1 ->
      phases_ok done (Exchanging (Datatypes.S r) true g n) [] done (Serving (mkSenderState ng ns ph None)) (3 * r + 3)
  | po_answered r g n ng ns ph : ndx_state_ok g -> ndx_state_ok n -> ndx_state_ok ng -> ndx_state_ok ns ->
      ph + Z.of_nat (Datatypes.S r) = phase_count (wire protocol) + 1 ->
      phases_ok done (Exchanging (Datatypes.S (Datatypes.S r)) true g n) done [] (Serving (mkSenderState ng ns ph None)) (3 * r + 5)
  | po_last g n : ndx_state_ok g -> ndx_state_ok n -> phases_ok done (Exchanging 1 true g n) done [] TxDone 2
  | po_over g n : phases_ok done (Exchanging 0 false g n) [] [] TxDone 1
  | po_done : phases_ok done RxDone [] [] TxDone 0.

Record in_phases (m : nat) (s : System S T) : Prop := {
  ip_gen : sy_todo s = [] /\ sy_gen_over s = true /\ sy_channel s = [];
  ip_silent : pr_out (sy_here s) = [] /\ pr_out (sy_there s) = [];
  ip_source : pr_fs (sy_there s) = t0;
  ip_phase : exists done, (forall n, ndx_state_ok n -> index_bytes protocol NDX_DONE n n done) /\
    phases_ok done (sy_rx s) (pr_in (sy_here s)) (pr_in (sy_there s)) (sy_tx s) m;
  ip_files : files_ok (pr_success (sy_here s)) s;
}.

Definition on_course (m : nat) (s : System S T) : Prop :=
  (exists st tx, in_transfer st tx m s) \/ in_phases m s.

(** Both sides are through, and every file is settled. *)
Definition all_settled (s : System S T) : Prop :=
  sy_rx s = RxDone /\ sy_tx s = TxDone /\
  forall i e ndx, entries !! i = Some e -> entry_ndx !! i = Some ndx -> makes_file rx e = true ->
    settled (pr_success (sy_here s)) e ndx (pr_fs (sy_here s)).

(** ** One turn *)

Abbreviation gen_step := (generator_step (T := T) H protocol block_size F rx).
Abbreviation rx_step := (receiver_step (T := T) H B fuel protocol block_size F open_append rx entries entry_ndx num_flists).
Abbreviation tx_step := (sender_step (S := S) H B fuel protocol block_size reader entries entry_ndx).

Lemma turn_ok {A Sys S'} (m : wire_act S' A) x a x' (k : A -> Peer S' -> Sys) : m x = (inr a, x') -> turn (m x) k = Some (inr (k a x')).
Proof. unfold turn. by intros ->. Qed.

Lemma flights_app l l' : flights (l ++ l') = flights l ++ flights l'.
Proof. apply omap_app. Qed.

Lemma link_not_file e : makes_link rx e = true -> makes_file rx e = false.
Proof.
  unfold makes_link, makes_file, LocalSpec.makes_link, LocalSpec.makes_file.
  by destruct (FileEntry.is_dir e), (FileEntry.is_symlink e && Get.preserve_links (rx_options rx)).
Qed.
Lemma place_owned i e : entries !! i = Some e -> makes_file rx e = true -> place e ∈ P.
Proof. intros He Hf. apply (wr_place Hready i e He). by rewrite Hf, orb_true_r. Qed.
Lemma place_apart i j e e' : entries !! i = Some e -> entries !! j = Some e' -> i <> j ->
  makes_link rx e || makes_file rx e = true -> makes_file rx e' = true -> place e' <> place e.
Proof. intros He He' Hne H1 H2. apply (wr_apart Hready j i e' e He' He (not_eq_sym Hne)); [by rewrite H2, orb_true_r|done]. Qed.

Lemma settled_same told told' e ndx s s' : what s' (place e) = what s (place e) -> told ⊆ told' ->
  settled told e ndx s -> settled told' e ndx s'.
Proof. intros Hw Ht. unfold settled. rewrite Hw. intros [[H1 H2]|H1]; [left|by right]. split; [by apply Ht|done]. Qed.

Lemma flights_known fl bs n n' : requests n fl bs n' -> Forall (fun f : flight => exists e, entries !! f.1.1 = Some e /\ makes_file rx e = true) fl.
Proof. induction 1; constructor; eauto. Qed.
(** The generator takes an entry: the files, when its item is in the channel. *)
Lemma files_generated told (s s' : System S T) i ndx e todo item :
  files_ok told s -> sy_todo s = (i, ndx, e) :: todo -> sy_todo s' = todo ->
  sy_channel s' = sy_channel s ++ match item with Some item => [item] | None => [] end ->
  spares F rx P e (pr_fs (sy_here s)) (pr_fs (sy_here s')) ->
  match item with
  | Some (ItemTransfer j _ _) => j = i
  | Some _ => makes_file rx e = false
  | None => makes_file rx e = true -> should_skip_impl F (pr_fs (sy_here s')) e (rx_dest rx) (rx_options rx) = true
  end ->
  files_ok told s'.
Proof.
  intros [Ho Hn Ht Hw Hd] Etodo Etodo' Ech [Ho' Hsp] Hitem.
  assert (He : entries !! i = Some e /\ entry_ndx !! i = Some ndx) by (apply Ht; rewrite Etodo; left). destruct He as [He Hx].
  assert (Ewait : waiting s = (flights (sy_channel s)).*1.*1 ++ i :: todo.*1.*1) by (unfold waiting; by rewrite Etodo).
  assert (Esub : waiting s' = waiting s \/ (forall j b l, item <> Some (ItemTransfer j b l)) /\
    waiting s' = (flights (sy_channel s)).*1.*1 ++ todo.*1.*1).
  { unfold waiting at 1 3. rewrite Etodo', Ech, flights_app, !fmap_app, Ewait, <- app_assoc.
    destruct item as [[j k|j nm|j b l|]|]; cbn [flights omap list_omap fmap list_fmap app fst]; [by right..| |by right|by right].
    subst j. by left. }
  assert (Hin : forall j, j ∈ waiting s' -> j ∈ waiting s).
  { intros j. destruct Esub as [->|[_ ->]]; [done|]. rewrite Ewait, !elem_of_app, elem_of_cons. tauto. }
  assert (Hsame : forall j e', entries !! j = Some e' -> makes_file rx e' = true ->
    (j = i -> makes_link rx e = false) -> what (pr_fs (sy_here s')) (place e') = what (pr_fs (sy_here s)) (place e')).
  { intros j e' He' Hf Hji. apply Hsp; [by eapply place_owned|]. intros Hl. destruct (decide (j = i)) as [->|Hne].
    - by rewrite Hji in Hl.
    - apply (place_apart i j e e' He He' (not_eq_sym Hne)); [by rewrite Hl|done]. }
  assert (Hlink : forall j e', entries !! j = Some e' -> makes_file rx e' = true -> j = i -> makes_link rx e = false).
  { intros j e' He' Hf ->. destruct (makes_link rx e) eqn:El; [|done]. apply link_not_file in El. congruence. }
  split.
  - done.
  - destruct Esub as [->|[_ ->]]; [done|]. rewrite Ewait in Hn. eapply sublist_NoDup; [exact Hn|].
    apply sublist_app; [done|by constructor].
  - intros j n e'. rewrite Etodo'. intros Hj. apply Ht. rewrite Etodo. by right.
  - intros j e' He' Hf Hj. rewrite (Hsame j) by eauto. eapply Hw; eauto.
  - intros j e' n He' Hx' Hf Hj. destruct (decide (j ∈ waiting s)) as [Hj'|Hj'].
    + destruct Esub as [Es|[Hnt Es]]; [by rewrite Es in Hj|]. rewrite Es in Hj. rewrite Ewait in Hj'.
      assert (j = i) as -> by (revert Hj Hj'; rewrite !elem_of_app, elem_of_cons; tauto).
      assert (e' = e) as -> by congruence. right. rewrite (Hsame i) by eauto.
      assert (Hwi : what (pr_fs (sy_here s)) (place e) = what s0 (place e)).
      { eapply Hw; eauto. rewrite Ewait, elem_of_app. right. left. }
      split; [done|]. exists (pr_fs (sy_here s')). split; [by rewrite (Hsame i) by eauto|].
      destruct item as [[]|]; [congruence|congruence| |congruence|auto]. by destruct (Hnt entry_idx basis_data blength).
    + eapply settled_same; [by apply (Hsame j); eauto|reflexivity|]. by apply (Hd j).
Qed.

(** The receiver writes a file. *)
Lemma files_received told (s s' : System S T) i ndx e b l channel :
  files_ok told s -> entries !! i = Some e -> entry_ndx !! i = Some ndx -> makes_file rx e = true ->
  sy_channel s = ItemTransfer i b l :: channel -> sy_channel s' = channel -> sy_todo s' = sy_todo s ->
  placed_file F rx P e (source e) (pr_fs (sy_here s)) (pr_fs (sy_here s')) -> files_ok (told ++ [ndx]) s'.
Proof.
  intros [Ho Hn Ht Hw Hd] He Hx Hf Ech Ech' Etodo (Ho' & Hel & Hpl).
  assert (Ewait : waiting s = i :: waiting s') by (unfold waiting; rewrite Ech, Ech', Etodo; done).
  rewrite Ewait in Hn, Hd, Hw. apply NoDup_cons in Hn as [Hni Hn].
  assert (Hsame : forall j e', entries !! j = Some e' -> makes_file rx e' = true -> j <> i ->
    what (pr_fs (sy_here s')) (place e') = what (pr_fs (sy_here s)) (place e')).
  { intros j e' He' Hf' Hne. apply Hel; [by eapply place_owned|].
    apply (place_apart i j e e' He He' (not_eq_sym Hne)); [by rewrite Hf, orb_true_r|done]. }
  split.
  - done.
  - done.
  - by rewrite Etodo.
  - intros j e' He' Hf' Hj. rewrite (Hsame j) by (try done; by intros ->). eapply Hw; eauto. by right.
  - intros j e' n He' Hx' Hf' Hj. destruct (decide (j = i)) as [->|Hne].
    + assert (e' = e) as -> by congruence. assert (n = ndx) as -> by congruence. left.
      split; [rewrite elem_of_app; right; left|]. rewrite <- (Hw i e He Hf ltac:(left)). exact Hpl.
    + eapply settled_same; [by apply (Hsame j)| |apply (Hd j); try done; by apply not_elem_of_cons].
      intros x. rewrite elem_of_app. by left.
Qed.

(** Nothing that the files depend on. *)
Lemma files_kept told (s s' : System S T) : waiting s' = waiting s -> sy_todo s' = sy_todo s ->
  pr_fs (sy_here s') = pr_fs (sy_here s) -> files_ok told s -> files_ok told s'.
Proof. intros Hw Ht Hf [H1 H2 H3 H4 H5]. split; rewrite ?Hw, ?Ht, ?Hf; try done. Qed.

Ltac proj := cbn [sy_here sy_there sy_rx sy_tx sy_gen sy_todo sy_gen_over sy_channel pr_fs pr_in pr_out pr_success
  sent_all arrive peer_in peer_put peer_fs].

(** *** The generator *)

Lemma generator_turn m s : on_course m s ->
  match gen_step s with
  | Some (inr s') => exists m', (m' < m)%nat /\ on_course m' s'
  | Some (inl _) => False
  | None => (CHANNEL_CAPACITY < length (sy_channel s))%nat \/ sy_todo s = [] /\ sy_gen_over s = true
  end.
Proof.
  intros Hc. unfold generator_step. destruct (Nat.ltb_spec CHANNEL_CAPACITY (length (sy_channel s))); [by left|].
  destruct Hc as [(st & tx & Hc)|Hc].
  2: { destruct (ip_gen _ _ Hc) as (-> & -> & _). by right. }
  pose proof Hc as [Hrx Htx (Hs1 & Hs2 & Hs3) Hsrc Hph (Hg1 & Hg2 & Hg3) (A & U & Hfl & Hrep & Hreq & ->) (items & Hit & Hch) Hlk Hfo].
  destruct (sy_todo s) as [|[[i ndx] e] todo] eqn:Etodo.
  - destruct (sy_gen_over s) eqn:Eo; [by right|].
    exists (length (sy_channel s) + 1 + length U + 3 * Z.to_nat (total_ndx_rounds protocol num_flists) + 2)%nat.
    split; [cbn [length]; lia|]. left. exists st, tx. split; proj; try done.
    + exists A, U. rewrite flights_app. cbn [flights omap list_omap]. rewrite app_nil_r, length_app. split_and!; try done.
    + exists items. by rewrite Hch.
    + apply (files_kept _ s); [|done..]. unfold waiting. proj. rewrite flights_app, Etodo.
      cbn [flights omap list_omap]. by rewrite (app_nil_r (flights _)).
  - destruct (fo_todo _ _ Hfo i ndx e ltac:(rewrite Etodo; left)) as [He Hx].
    assert (Hwait : i ∈ waiting s) by (unfold waiting; rewrite Etodo, elem_of_app; right; left).
    destruct (generator_round_run H HL B fuel protocol block_size F rx Hplain P i ndx e (source e) (sy_gen s) (sy_here s))
      as (n' & item & here & Hrun & Hsp & Hi & Hsuc & Hitem).
    + apply (fo_owned _ _ Hfo).
    + done.
    + apply (wr_range Hready). by eapply list_elem_of_lookup_2.
    + intros Hl. apply (wr_place Hready i e He). by rewrite Hl.
    + intros Hf. apply (wr_file Hready i e He Hf).
    + intros Hf. destruct (wr_file Hready i e He Hf) as (_ & Hnl & _ & Hsend). rewrite (fo_wait _ _ Hfo i e He Hf Hwait).
      split_and!; [by eapply place_owned|done|done].
    + rewrite (turn_ok (generator_round H protocol block_size F rx (i, ndx, e) (sy_gen s)) _ _ _ _ Hrun). cbn [fst snd].
      assert (Hover : sy_gen_over s = false) by (destruct (sy_gen_over s); [by destruct Hch as [? _]|done]). rewrite Hover in *. subst items.
      exists (3 * length todo + 2 + length (sy_channel s ++ match item with Some item => [item] | None => [] end) +
        (length U + match item with Some (ItemTransfer _ _ _) => 1 | _ => 0 end) +
        3 * Z.to_nat (total_ndx_rounds protocol num_flists) + 2)%nat.
      split; [rewrite length_app; destruct item as [[]|]; cbn [length]; lia|]. left. exists st, tx. split; proj; try done.
      * split_and!; [done|done|congruence].
      * split_and!; try done. destruct item as [[]|]; try done; [by destruct Hitem as (_ & -> & _)| |by destruct Hitem as (-> & _)].
        destruct Hitem as (_ & _ & req & (sg & _ & _ & _ & _ & Hok) & _). done.
      * destruct item as [[j k|j nm|j b l|]|]; try done; rewrite ?Nat.add_0_r.
        -- destruct Hitem as (-> & -> & Ho & _). exists A, U. rewrite flights_app. cbn [flights omap list_omap].
           rewrite app_nil_r, Ho, Hs1, app_nil_r, Hi. done.
        -- destruct Hitem as (-> & Hf & req & Hrq & Ho). exists A, (U ++ [(i, b, l)]). rewrite flights_app, Hfl, <- app_assoc, Ho, Hs1, Hi, (length_app U).
           split_and!; [done|done| |reflexivity]. by eapply requests_snoc.
        -- destruct Hitem as (-> & Ho & _). exists A, U. rewrite app_nil_r, Ho, Hs1, app_nil_r, Hi. done.
      * eexists. split; [|reflexivity]. apply Forall_app. split; [done|].
        destruct item as [[j k|j nm|j b l|]|]; try done; constructor; try done; cbn; destruct Hitem as (-> & _); by eexists.
      * eapply (files_generated _ s _ i ndx e todo item); try done.
        destruct item as [[]|]; try done; [by destruct Hitem as (_ & _ & _ & ?)|by destruct Hitem|].
        intros Hf. by apply Hitem.
Qed.

(** *** The receiver *)

Lemma note_handled_run i e kind (x : Peer S) : exists x', note_handled i e kind x = (inr tt, x') /\
  pr_fs x' = pr_fs x /\ pr_in x' = pr_in x /\ pr_out x' = pr_out x /\ pr_success x' = pr_success x.
Proof. destruct kind; eexists; (split; [reflexivity|done]). Qed.

Lemma confirm_all l (x : Peer S) : exists x', for_each confirm l x = (inr tt, x') /\
  pr_fs x' = pr_fs x /\ pr_in x' = pr_in x /\ pr_out x' = pr_out x /\ pr_success x' = pr_success x ++ l.
Proof.
  revert x. induction l as [|n l IH]; intros x; cbn [for_each].
  - exists x. by rewrite app_nil_r.
  - destruct (IH (peer_confirm n x)) as (x' & E & H1 & H2 & H3 & H4). exists x'. erewrite bind_run by reflexivity.
    rewrite E, H4. cbn [peer_confirm pr_success]. by rewrite <- app_assoc.
Qed.

Lemma get_nothing {Q A} (r : rd A) (x : Peer Q) : pr_in x = [] -> r [] = Err (Io UnexpectedEof) ->
  get r x = (inl (EProtocol (Io UnexpectedEof)), x).
Proof. intros Hi Hr. unfold get. by rewrite Hi, Hr. Qed.

Lemma index_nonempty ndx n n' bs : index_bytes protocol ndx n n' bs -> bs <> [].
Proof. intros (_ & _ & Hr) ->. specialize (Hr []). by rewrite app_nil_r, read_ndx_nothing in Hr. Qed.
Lemma requests_nonempty f fl n n' bs : requests n (f :: fl) bs n' -> bs <> [].
Proof.
  intros Hr. inversion Hr as [|? ? ? ndx ? ? req ? ? ? ? ? ? ? Hq]; subst. destruct Hq as (sg & _ & _ & _ & (b1 & b3 & -> & Hb & _) & _).
  apply index_nonempty in Hb. by destruct b1.
Qed.

Lemma receive_nothing i b l st (x : Peer S) e : entries !! i = Some e -> pr_in x = [] -> exists x',
  receive_transfer H B fuel protocol block_size F open_append rx entries entry_ndx i b l st x =
    (inl (EProtocol (Io UnexpectedEof)), x').
Proof.
  intros He Hi. eexists. unfold receive_transfer, at_index, of_sum. rewrite He. erewrite bind_run by reflexivity.
  erewrite bind_run by reflexivity. erewrite bind_fail; [reflexivity|]. apply get_nothing; [done|apply read_ndx_nothing].
Qed.

Lemma receiver_transfers st tx m s : in_transfer st tx m s ->
  match rx_step s with
  | Some (inr s') => exists m', (m' < m)%nat /\ on_course m' s'
  | Some (inl e) => fails e
  | None => sy_channel s = [] \/ pr_in (sy_there s) <> []
  end.
Proof.
  intros [Hrx Htx (Hs1 & Hs2 & Hs3) Hsrc [Hph Hpd] (Hg1 & Hg2 & Hg3) (A & U & Hfl & Hrep & Hreq & ->) (items & Hit & Hch) Hlk Hfo].
  unfold receiver_step. rewrite Hrx. destruct (sy_channel s) as [|item channel] eqn:Ech; [by left|].
  assert (Hitems : item = ItemDone /\ items = [] /\ sy_gen_over s = true /\ sy_todo s = [] /\ channel = [] \/
    item_known item /\ exists items', Forall item_known items' /\
      if sy_gen_over s then sy_todo s = [] /\ channel = items' ++ [ItemDone] else channel = items').
  { destruct (sy_gen_over s).
    - destruct Hch as [Ht Hch]. destruct items as [|i items']; injection Hch as -> ->; [by left|right].
      apply Forall_cons in Hit as [? ?]. eauto.
    - subst items. apply Forall_cons in Hit as [? ?]. right. eauto. }
  destruct Hitems as [(-> & -> & Hov & Htodo & ->)|[Hk (items' & Hit' & Hch')]].
  { cbn [receiver_round]. destruct (confirm_all (successful_ndxs st) (sy_here s)) as (x' & E & H1 & H2 & H3 & H4).
    assert (Efin : receiver_finish F rx entries st (sy_here s) = (inr tt, x')).
    { unfold receiver_finish. rewrite (bind_run _ _ _ _ _ E), Hlk. done. }
    erewrite turn_ok; [|erewrite bind_run by reflexivity; cbv beta iota; erewrite (bind_run _ _ _ _ _ Efin); reflexivity].
    cbn [flights omap list_omap] in Hfl. symmetry in Hfl. apply app_eq_nil in Hfl as [-> ->].
    inversion Hrep as [nr Er0 Er|]; subst. inversion Hreq as [nq|]; subst. rewrite Hov, Htodo in *.
    pose proof (wr_flists Hready) as Htot. pose proof (wr_phases Hready) as Hpp. rewrite Htot.
    destruct (Z.to_nat (phase_count (wire protocol) + 1)) as [|r] eqn:Er1; [lia|].
    exists (3 * r + 4)%nat. split; [cbn [length]; lia|]. right. split; proj; try done.
    - destruct (index_done_bytes protocol) as [done Hdone]. exists done. split; [done|].
      rewrite Htx, H3, Hs1, app_nil_r, H2. destruct tx as [ng ns ph pd]. cbn [phase pending_flists send_ndx_state gen_ndx_state recv_ndx_state] in *. subst ph pd.
      replace (pr_in (sy_here s)) with ([] : list Z) by done. replace (pr_in (sy_there s)) with ([] : list Z) by done.
      constructor; try done; lia.
    - rewrite H4, Hs3. cbn [app]. eapply (files_kept _ s); [..|exact Hfo]; unfold waiting; proj; by rewrite ?Ech, ?Htodo. }
  destruct item as [j k|j nm|i b l|]; [|done| |done].
  - destruct Hk as [e He]. cbn [receiver_round]. unfold at_index, of_sum. rewrite He.
    destruct (note_handled_run (as_i32 (Z.of_nat j)) e k (sy_here s)) as (x' & E & H1 & H2 & H3 & H4).
    erewrite turn_ok; [|erewrite bind_run; [|erewrite bind_run by reflexivity; erewrite bind_run by exact E; reflexivity]; reflexivity].
    eexists. split; [|left; exists st, tx; split; proj; try done].
    2: { destruct x', (sy_there s); cbn in *. by rewrite H4. }
    2: { exists A, U. rewrite H2, H3, Hs1, app_nil_r. split_and!; try done. }
    2: { by exists items'. }
    2: { eapply (files_kept _ s); [..|exact Hfo]; unfold waiting; proj; rewrite ?Ech; done. }
    cbn [length]. lia.
  - destruct Hk as [e He]. cbn [receiver_round]. cbn [flights omap list_omap] in Hfl.
    destruct A as [|f A].
    + inversion Hrep as [nr Er|]; subst. destruct (receive_nothing i b l st (sy_here s) e He ltac:(done)) as [x' E].
      unfold turn. erewrite bind_fail; [|by rewrite (bind_fail _ _ _ _ _ E)]. right. cbn [app] in Hfl. subst U.
      by apply requests_nonempty in Hreq.
    + cbn [app] in Hfl. injection Hfl as <- Hfl.
      inversion Hrep as [|? ? e' ndx ? sg hdr pay n1 ? bs ? He' Hx Hf Hsd Hok Hhdr Hpay Hrest]; subst.
      assert (e' = e) as -> by congruence. destruct st as [rn defs succ]. cbn [recv_ndx_state deferred_hardlinks successful_ndxs] in *. subst defs.
      assert (Hwait : i ∈ waiting s) by (unfold waiting; rewrite Ech; left).
      pose proof (fo_wait _ _ Hfo i e He Hf Hwait) as Hw0.
      pose proof (receive_transfer_run H HL B fuel protocol block_size F rx open_append Hplain P entries entry_ndx i ndx e b (source e) sg rn n1
        hdr pay bs [] succ (sy_here s) He Hx Hok Hsd Hhdr Hpay (fo_owned _ _ Hfo) (place_owned i e He Hf)) as Hrun.
      specialize (Hrun ltac:(rewrite Hw0; by apply (wr_file Hready i e He Hf)) ltac:(congruence)).
      destruct (receive_transfer _ _ _ _ _ _ _ _ _ _ _ _ _ _ (sy_here s)) as [[er|st'] x'] eqn:E.
      { unfold turn. erewrite bind_fail; [|by rewrite (bind_fail _ _ _ _ _ E)].
        destruct Hrun as [[fe ->]| ->]; [left; by eexists|by right]. }
      destruct Hrun as ((Hi' & Ho' & Hsu') & Hpl & ->).
      erewrite turn_ok; [|erewrite bind_run; [|erewrite bind_run by exact E; reflexivity]; reflexivity].
      eexists. split; [|left; exists (mkReceiverState n1 [] (succ ++ [ndx])), tx; split; proj; try done].
      2: { destruct x', (sy_there s); cbn in *. by rewrite Hsu'. }
      2: { exists A, U. rewrite Ho', Hs1, app_nil_r, Hi'. split_and!; try done. }
      2: { by exists items'. }
      2: { eapply (files_received _ s); try done. }
      cbn [length]. lia.
Qed.

(** *** The sender *)

Abbreviation send_round := (sender_round H B fuel protocol block_size reader entries (build_ndx_map entry_ndx) false false).

Lemma build_map_lookup (l : list Z) i ndx : NoDup l -> l !! i = Some ndx -> build_ndx_map l !! ndx = Some i.
Proof.
  intros Hn Hi. unfold build_ndx_map.
  assert (Hg : forall l k (m : gmap Z nat), NoDup l -> forall j ndx, l !! j = Some ndx ->
    foldl (fun m p => <[p.2 := p.1]> m) m (imap (fun i => pair (k + i)%nat) l) !! ndx = Some (k + j)%nat).
  { clear. induction l as [|x l IH]; intros k m Hn j ndx Hj; [done|]. apply NoDup_cons in Hn as [Hx Hn].
    cbn [imap foldl fst snd]. rewrite (imap_ext _ (fun i => pair (Datatypes.S k + i)%nat) l) by (intros; cbn; f_equal; lia).
    destruct j as [|j]; [|rewrite (IH (Datatypes.S k) _ Hn j ndx Hj); f_equal; lia].
    injection Hj as ->. clear IH Hn. revert Hx. generalize (Datatypes.S k). rewrite Nat.add_0_r.
    assert (Hm : <[ndx := k]> m !! ndx = Some k) by apply lookup_insert_eq. revert Hm. generalize (<[ndx := k]> m).
    induction l as [|y l IH]; intros m1 Hm k1 Hx; [done|]. apply not_elem_of_cons in Hx as [Hy Hx].
    cbn [imap foldl fst snd]. rewrite (imap_ext _ (fun i => pair (Datatypes.S k1 + i)%nat) l) by (intros; cbn; f_equal; lia).
    apply IH; [|done]. by rewrite lookup_insert_ne. }
  apply (Hg l 0%nat ∅ Hn i ndx Hi).
Qed.

Lemma sender_nothing ng ns ph (x : Peer T) : pr_in x = [] ->
  send_round (mkSenderState ng ns ph None) x = (inl (EProtocol (Io UnexpectedEof)), x).
Proof.
  intros Hi. unfold sender_round, inject_pending. cbn [pending_flists]. erewrite bind_run by reflexivity.
  apply bind_fail. apply get_nothing; [done|apply read_ndx_nothing].
Qed.

Lemma sender_transfers st tx m s : in_transfer st tx m s ->
  match tx_step s with
  | Some (inr s') => exists m', (m' < m)%nat /\ on_course m' s'
  | Some (inl _) => False
  | None => pr_in (sy_there s) = []
  end.
Proof.
  intros [Hrx Htx (Hs1 & Hs2 & Hs3) Hsrc [Hph Hpd] (Hg1 & Hg2 & Hg3) (A & U & Hfl & Hrep & Hreq & ->) (items & Hit & Hch) Hlk Hfo].
  unfold sender_step. rewrite Htx. destruct tx as [ng ns ph pd]. cbn [phase pending_flists gen_ndx_state send_ndx_state] in *. subst ph pd.
  inversion Hreq as [nq|? i e ndx b l req n1 U' bs n2 He Hx Hf (sg & Hsd & Hok & -> & Hrq & Hn1) Hrest]; subst.
  { unfold turn. erewrite bind_fail by (by apply sender_nothing). done. }
  destruct (wr_file Hready i e He Hf) as (_ & _ & Hsrc' & _).
  destruct (sender_serves H HL B fuel protocol block_size (pr_fs (sy_there s)) reader entries (build_ndx_map entry_ndx) ng n1 ns 0 ndx i e b
    (source e) sg req Hg2) as (ns' & hdr & pay & Ht & Hh & Hpay); try done.
  { apply (wr_range Hready). by eapply list_elem_of_lookup_2. }
  { apply build_map_lookup; [apply (wr_nodup Hready)|done]. }
  { unfold makes_file, LocalSpec.makes_file in Hf. by apply andb_prop in Hf as [_ ?]. }
  { by rewrite Hsrc. }
  destruct (Ht (sy_there s) bs eq_refl ltac:(done)) as (x' & E & Hfs & Hin & Hout & Hsu).
  erewrite turn_ok; [|erewrite bind_run by exact E; reflexivity].
  eexists. split; [|left; exists st, (mkSenderState n1 ns' 0 None); split; proj; try done].
  2: congruence.
  2: { split_and!; try done. destruct Hh as (b1 & b3 & _ & (_ & Hn' & _) & _). done. }
  2: { exists (A ++ [(i, b, receiver_blength sg)]), U'. rewrite <- app_assoc, Hout, Hs2. split_and!; [done| | |reflexivity].
       - apply (replies_snoc _ _ _ ns _ e ndx b sg hdr pay); done.
       - by rewrite Hin. }
  2: by exists items.
  2: { eapply (files_kept _ s); [..|exact Hfo]; done. }
  cbn [length]. lia.
Qed.

(** *** The phases *)

Lemma done_read done n k (x : Peer S) : index_bytes protocol NDX_DONE n n done -> pr_in x = done ++ k ->
  hear_done protocol n x = (inr n, peer_in k x).
Proof. intros (_ & _ & Hr) Hi. unfold hear_done. erewrite bind_run by (eapply get_run; [exact Hi|exact Hr]). done. Qed.
Lemma hear_nothing n (x : Peer S) : pr_in x = [] -> hear_done protocol n x = (inl (EProtocol (Io UnexpectedEof)), x).
Proof. intros Hi. unfold hear_done. apply bind_fail, get_nothing; [done|apply read_ndx_nothing]. Qed.
Lemma done_said {Q} done n (x : Peer Q) : index_bytes protocol NDX_DONE n n done ->
  put (write_ndx NDX_DONE n (codec protocol)) x = (inr n, peer_put done x).
Proof. intros (Hw & _). unfold put. by rewrite Hw. Qed.

Lemma receiver_phases m s : in_phases m s ->
  match rx_step s with
  | Some (inr s') => exists m', (m' < m)%nat /\ on_course m' s'
  | Some (inl e) => fails e
  | None => all_settled s \/ pr_in (sy_there s) <> []
  end.
Proof.
  intros [(Htodo & Hov & Hch) (Hs1 & Hs2) Hsrc (done & Hdone & Hph) Hfo]. unfold receiver_step.
  remember (sy_rx s) as stage eqn:Erx. remember (pr_in (sy_here s)) as ih eqn:Eih.
  remember (pr_in (sy_there s)) as it eqn:Eit. remember (sy_tx s) as txs eqn:Etx.
  assert (Hstay : forall (st : RxStage) (x : Peer S) y tx m', pr_fs x = pr_fs (sy_here s) -> pr_success x = pr_success (sy_here s) ->
    pr_fs y = t0 -> pr_out y = [] -> phases_ok done st (pr_in x) (pr_in y) tx m' ->
    on_course m' (mkSystem (sy_todo s) (sy_gen s) (sy_gen_over s) (sy_channel s) (sent_all x) st y tx)).
  { intros st x y tx m' Hx Hsu Hy Ho Hp. right. split; proj; try done. { eauto. }
    rewrite Hsu. eapply (files_kept _ s); [..|exact Hfo]; try done. }
  destruct Hph as [r g n ng ns ph Hg Hn Hng Hns Hr|r g n ng ns ph Hg Hn Hng Hns Hr|r g n ng ns ph Hg Hn Hng Hns Hr|g n Hg Hn|g n|].
  - unfold say_done. erewrite turn_ok by (apply (done_said done); by apply Hdone). eexists. split; [|apply Hstay]; proj; try done.
    2: { destruct (sy_here s), (sy_there s); cbn in *. subst. cbn. by constructor. }
    lia.
  - unfold turn. rewrite hear_nothing by done. right. intros ->. destruct (Hdone g Hg) as (_ & _ & Hr0). specialize (Hr0 []).
    by rewrite app_nil_r, read_ndx_nothing in Hr0.
  - erewrite turn_ok by (apply (done_read done n []); [by apply Hdone|by rewrite app_nil_r]). eexists. split; [|apply Hstay]; proj; try done.
    2: { destruct (sy_here s), (sy_there s); cbn in *. subst. cbn. by constructor. }
    lia.
  - erewrite turn_ok by (apply (done_read done n []); [by apply Hdone|by rewrite app_nil_r]). eexists. split; [|apply Hstay]; proj; try done.
    2: { destruct (sy_here s), (sy_there s); cbn in *. subst. cbn. by constructor. }
    lia.
  - eexists. split; [|apply Hstay]; proj; try done.
    2: { destruct (sy_here s), (sy_there s); cbn in *. subst. cbn. by constructor. }
    lia.
  - left. split; [done|]. split; [done|]. intros i e ndx He Hx Hf. apply (fo_done _ _ Hfo i); try done.
    unfold waiting. rewrite Htodo, Hch. apply not_elem_of_nil.
Qed.

Lemma sender_phases m s : in_phases m s ->
  match tx_step s with
  | Some (inr s') => exists m', (m' < m)%nat /\ on_course m' s'
  | Some (inl _) => False
  | None => pr_in (sy_there s) = []
  end.
Proof.
  intros [(Htodo & Hov & Hch) (Hs1 & Hs2) Hsrc (done & Hdone & Hph) Hfo]. unfold sender_step.
  remember (sy_rx s) as stage eqn:Erx. remember (pr_in (sy_here s)) as ih eqn:Eih.
  remember (pr_in (sy_there s)) as it eqn:Eit. remember (sy_tx s) as txs eqn:Etx.
  assert (Hstay : forall (x : Peer S) (y : Peer T) tx m', pr_fs x = pr_fs (sy_here s) -> pr_success x = pr_success (sy_here s) ->
    pr_fs y = t0 -> pr_out x = [] -> phases_ok done (sy_rx s) (pr_in x) (pr_in y) tx m' ->
    on_course m' (mkSystem (sy_todo s) (sy_gen s) (sy_gen_over s) (sy_channel s) x (sy_rx s) (sent_all y) tx)).
  { intros x y tx m' Hx Hsu Hy Ho Hp. right. split; proj; try done. { eauto. }
    rewrite Hsu. eapply (files_kept _ s); [..|exact Hfo]; try done. }
  rewrite Erx in *.
  destruct Hph as [r g n ng ns ph Hg Hn Hng Hns Hr|r g n ng ns ph Hg Hn Hng Hns Hr|r g n ng ns ph Hg Hn Hng Hns Hr|g n Hg Hn|g n|];
    [| | |done..].
  - unfold turn. erewrite bind_fail by (by apply sender_nothing). done.
  - destruct r as [|r].
    + destruct (sender_last_phase H B fuel protocol block_size (pr_fs (sy_there s)) reader entries (build_ndx_map entry_ndx) ng ns ph done
        (Hdone ng Hng) ltac:(lia) (sy_there s) [] eq_refl ltac:(by rewrite app_nil_r)) as (x' & E & Hfs & Hin & Hout & Hsu).
      erewrite turn_ok; [|erewrite bind_run by exact E; cbv beta iota; erewrite bind_run by (apply (done_said done); by apply Hdone); reflexivity].
      eexists. split; [|apply Hstay]; proj; try done; [|destruct x'; cbn in *; congruence|].
      2: { rewrite Hout, Hs2, <- Eih. destruct x'; cbn in *. rewrite Hin. by constructor. }
      lia.
    + destruct (sender_next_phase H B fuel protocol block_size (pr_fs (sy_there s)) reader entries (build_ndx_map entry_ndx) ng ns ns ph done done
        (Hdone ng Hng) (Hdone ns Hns) ltac:(lia) (sy_there s) [] eq_refl ltac:(by rewrite app_nil_r)) as (x' & E & Hfs & Hin & Hout & Hsu).
      erewrite turn_ok; [|erewrite bind_run by exact E; reflexivity].
      eexists. split; [|apply Hstay]; proj; try done; [|congruence|].
      2: { rewrite Hout, Hs2, <- Eih. cbn [app]. rewrite Hin. constructor; try done. lia. }
      lia.
  - unfold turn. erewrite bind_fail by (by apply sender_nothing). done.
Qed.


(** ** Every run *)

Lemma on_course_surely m s : on_course m s ->
  surely H B fuel protocol block_size F open_append rx reader entries entry_ndx num_flists all_settled s.
Proof.
  revert s. induction (lt_wf m) as [m _ IH]. intros s Hc. pose proof (generator_turn m s Hc) as Hgen.
  assert (Hrx : match rx_step s with
    | Some (inr s') => exists m', (m' < m)%nat /\ on_course m' s'
    | Some (inl e) => fails e
    | None => all_settled s \/ sy_channel s = [] /\ (exists st tx, in_transfer st tx m s) \/ pr_in (sy_there s) <> []
    end).
  { destruct Hc as [(st & tx & Hc)|Hc].
    - pose proof (receiver_transfers st tx m s Hc) as Hr. destruct (rx_step s) as [[e|s']|]; [done..|].
      destruct Hr as [Hr|Hr]; [right; left; eauto|by right; right].
    - pose proof (receiver_phases m s Hc) as Hr. destruct (rx_step s) as [[e|s']|]; [done..|]. tauto. }
  assert (Htx : match tx_step s with
    | Some (inr s') => exists m', (m' < m)%nat /\ on_course m' s' | Some (inl _) => False | None => pr_in (sy_there s) = [] end).
  { destruct Hc as [(st & tx & Hc)|Hc]; [by eapply sender_transfers|by eapply sender_phases]. }
  assert (Hall : forall s', wire_step H B fuel protocol block_size F open_append rx reader entries entry_ndx num_flists s s' ->
    exists m', (m' < m)%nat /\ on_course m' s').
  { intros s' [E|[E|E]]; [rewrite E in Hgen|rewrite E in Hrx|rewrite E in Htx]; done. }
  assert (Hnext : forall s', wire_step H B fuel protocol block_size F open_append rx reader entries entry_ndx num_flists s s' ->
    surely H B fuel protocol block_size F open_append rx reader entries entry_ndx num_flists all_settled s').
  { intros s' E. destruct (Hall s' E) as (m' & Hm & Hc'). by apply (IH m' Hm). }
  destruct (rx_step s) as [[e|s']|] eqn:Er.
  - apply surely_next; [|done]. left. by exists e.
  - apply surely_next; [|done]. right. exists s'. right; left. done.
  - destruct (tx_step s) as [[e|s']|] eqn:Et; [done| |].
    { apply surely_next; [|done]. right. exists s'. right; right. done. }
    destruct (gen_step s) as [[e|s']|] eqn:Eg; [done| |].
    { apply surely_next; [|done]. right. exists s'. by left. }
    destruct Hrx as [Hdone|[[Hch (st & tx & Hit)]|Hin]]; [by apply surely_here| |done]. exfalso.
    destruct Hgen as [Hg|[_ Hg]]; [rewrite Hch in Hg; cbn in Hg; lia|].
    destruct (it_channel _ _ _ _ Hit) as (items & _ & Hi). rewrite Hg in Hi. destruct Hi as [_ Hi]. rewrite Hch in Hi. by destruct items.
Qed.

Lemma gen_entries_at todo : gen_entries entries entry_ndx = Ok todo ->
  todo.*1.*1 = seq 0 (length entries) /\
  forall i ndx e, (i, ndx, e) ∈ todo -> entries !! i = Some e /\ entry_ndx !! i = Some ndx.
Proof.
  unfold gen_entries. destruct (mapM _ _) as [l|] eqn:E; [|done]. intros [= ->]. apply mapM_Some_1 in E. split.
  - apply list_eq. intros i. rewrite !list_lookup_fmap. pose proof (Forall2_length _ _ _ E) as Hl. rewrite length_imap in Hl.
    destruct (decide (i < length entries)%nat) as [Hi|Hi].
    + rewrite lookup_seq_lt by done. destruct (lookup_lt_is_Some_2 entries i Hi) as [e He].
      destruct (Forall2_lookup_l _ _ _ i (i, e) E) as ([[j n] e'] & Hj & Hf); [by rewrite list_lookup_imap, He|].
      cbn in Hf. destruct (entry_ndx !! i); [|done]. cbn in Hf. injection Hf as <- <- <-. by rewrite Hj.
    + rewrite lookup_seq_ge, lookup_ge_None_2 by lia. done.
  - intros i ndx e (k & Hk)%list_elem_of_lookup. destruct (Forall2_lookup_r _ _ _ k _ E Hk) as ([j e'] & Hj & Hf).
    rewrite list_lookup_imap in Hj. destruct (entries !! k) as [e''|] eqn:He; [|done]. cbn in Hj. injection Hj as <- <-.
    cbn in Hf. destruct (entry_ndx !! k) eqn:Hx; [|done]. cbn in Hf. injection Hf as <- <- <-. done.
Qed.

End correct.

(** ** Over the wire on the Unix file system *)

From S2P Require Import Utf8 Acl Posix PosixFacts UnixFs UnixSpec UnixStream UnixWire.

#[export] Instance no_crates_quiet : CratesQuiet no_crates.
Proof. split; [intros p t n; apply on_inode_unfailing|by intros p n v o]. Qed.
#[local] Existing Instance unix_free_spec | 0.
#[local] Existing Instance unix_stream_spec.

Definition trial_protocol : NegotiatedProtocol :=
  mkNegotiatedProtocol 31 0 Md5 CpNone true 9 (Fixed 3) (WireFormat_new 31 0).
Definition trial_rx : Receiver := Receiver_new (str_bytes "/t") trial_options.
Definition trial_entries : list FileEntry := map it_entry trial_items.
Definition trial_ndx : list Z := map Z.of_nat (seq 1 (length trial_entries)).
Definition trial_reader : FileReader os := LocalFileReader unix [str_bytes "/s"].
Definition trial_places : list (list Z) :=
  map (ReceiverEngine.dest_path trial_rx) (List.filter (fun e => makes_link trial_rx e || makes_file trial_rx e) trial_entries).
Definition trial_peer (o : os) : Peer os := mkPeer o [] [] [] TransferStats_new ProgressTracker_new.
Definition trial_todo : list (nat * Z * FileEntry) :=
  match gen_entries trial_entries trial_ndx with Ok l => l | _ => [] end.

Lemma trial_sendable e basis : basis = [] \/ basis = small_basis -> len e < STREAMING_THRESHOLD ->
  exists s, sendable toy_hash stored_backends 9 trial_protocol (Some 3) basis small_source e s.
Proof.
  intros Hb He. exists (match compute_signatures toy_hash basis (wire_ctx trial_protocol (Some 3)) with Ok s => s | _ => small_sums end).
  destruct Hb as [->| ->]; split; try (intros; lia); try (intros Hn; by destruct Hn).
  all: try (apply collision_free_dec; vm_compute; reflexivity).
  all: try (split; vm_compute; reflexivity).
  all: first [vm_compute; reflexivity|vm_compute; discriminate].
Qed.

Lemma unix_free_what o p : FsSpec.what (F := unix) o p = thing_at (tree_of o) p.
Proof. reflexivity. Qed.
Lemma map_filter_elem {A B'} (g : A -> B') (f : A -> bool) (l : list A) i a : l !! i = Some a -> f a = true -> g a ∈ map g (List.filter f l).
Proof.
  intros He Hf. apply list_elem_of_In, in_map, filter_In. split; [|done]. apply list_elem_of_In. by apply list_elem_of_lookup_2 in He.
Qed.

Lemma trial_wire_ready : wire_ready toy_hash stored_backends 9 trial_protocol (Some 3) unix trial_rx trial_reader trial_entries trial_ndx 1
  trial_places trial_source trial_source (fun _ => small_source).
Proof.
  assert (Hb : forallb (fun e => implb (WireSpec.makes_file trial_rx e) (match hlink_source e with None => true | _ => false end &&
      (len e <? STREAMING_THRESHOLD) && (match fr_read_file trial_reader trial_source e with inr d => bool_decide (d = small_source) | inl _ => false end) &&
      match thing_at (tree_of trial_source) (ReceiverEngine.dest_path trial_rx e) with Some (File b) => bool_decide (b = small_basis) | _ => false end))
    trial_entries = true) by (vm_compute; reflexivity).
  assert (Hp : forallb (fun i => forallb (fun j => implb (negb (i =? j)%nat) (match trial_entries !! i, trial_entries !! j with
      | Some e, Some e' => negb (bool_decide (ReceiverEngine.dest_path trial_rx e = ReceiverEngine.dest_path trial_rx e'))
      | _, _ => true end)) (seq 0 3)) (seq 0 3) = true) by (vm_compute; reflexivity).
  assert (H3 : length trial_entries = 3%nat) by (vm_compute; reflexivity).
  split.
  - unfold trial_ndx. by rewrite length_map, length_seq.
  - apply (bool_decide_eq_true_1 _). vm_compute. reflexivity.
  - intros ndx. unfold trial_ndx. rewrite H3. change (map Z.of_nat (seq 1 3)) with [1; 2; 3]. rewrite !elem_of_cons, elem_of_nil. lia.
  - split; [apply owns_b_sound; vm_compute; reflexivity|vm_compute; reflexivity].
  - intros i e He Hm. by apply (map_filter_elem _ _ _ i).
  - intros i j e e' He He' Hne _ _ E. pose proof (lookup_lt_Some _ _ _ He). pose proof (lookup_lt_Some _ _ _ He').
    assert (Hi : i ∈ seq 0 3) by (apply elem_of_seq; lia). assert (Hj : j ∈ seq 0 3) by (apply elem_of_seq; lia).
    pose proof (forallb_elem _ _ j (forallb_elem _ _ i Hp Hi) Hj) as Hq. cbv beta in Hq. rewrite He, He', bool_decide_true in Hq by exact E.
    clear Hb Hp. destruct (Nat.eqb_spec i j) as [Hij|_]; [exact (Hne Hij)|cbn [implb negb] in Hq; discriminate Hq].
  - intros i e He Hf. apply list_elem_of_lookup_2 in He. pose proof (forallb_elem _ _ e Hb He) as Hq. cbv beta in Hq. rewrite Hf in Hq.
    cbn [implb] in Hq. rewrite !andb_true_iff in Hq. destruct Hq as (((Hh & Hl) & Hr) & Ht). apply Z.ltb_lt in Hl.
    destruct (fr_read_file trial_reader trial_source e) as [?|d] eqn:Ed; [discriminate Hr|]. apply bool_decide_eq_true in Hr. subst d.
    pose proof (unix_free_what trial_source (ReceiverEngine.dest_path trial_rx e)) as Hw.
    destruct (thing_at (tree_of trial_source) (ReceiverEngine.dest_path trial_rx e)) as [[b|]|]; try discriminate Ht.
    apply bool_decide_eq_true in Ht. subst b. split_and!.
    + destruct (hlink_source e); [discriminate Hh|reflexivity].
    + rewrite Hw. intros tg Htg. discriminate Htg.
    + unfold source_is. rewrite (proj2 (Z.leb_gt _ _) Hl). exact Ed.
    + intros basis Hbasis. rewrite Hw in Hbasis. apply trial_sendable; [|exact Hl].
      destruct Hbasis as [->|Hbasis]; [left; reflexivity|right; injection Hbasis as <-; reflexivity].
  - vm_compute. discriminate.
  - reflexivity.
Qed.

Lemma trial_plain : streams_plainly trial_rx.
Proof. split_and!; vm_compute; reflexivity. Qed.
Lemma trial_todo_ok : gen_entries trial_entries trial_ndx = Ok trial_todo.
Proof. vm_compute. reflexivity. Qed.

Lemma trial_peer_is o : pr_fs (trial_peer o) = o /\ pr_in (trial_peer o) = [] /\ pr_out (trial_peer o) = [] /\ pr_success (trial_peer o) = [].
Proof. done. Qed.

