(* ===== verification/WireCases.v ===== *)
(** What the loops of [wire_transfer.rs] do outside the good case, on concrete
    machines: the Unix file system, the trial disk of [LocalSpec.v]. *)
From S2P Require Import Prelude Wire Types Text Varint WireFormat Handshake Checksum Sum Matcher Compress Token Proc Filter Scanner Options Fs Progress FileDecision ReceiverEngine Transfer LocalTransfer FsSpec LocalSpec WireTransfer WireSpec Utf8 Acl Posix PosixFacts UnixFs UnixSpec UnixStream UnixWire WireSystem.

Definition trial_entry (n : string) : FileEntry :=
  match List.filter (fun e => bool_decide (name e = str_bytes n)) trial_entries with e :: _ => e | [] => FileEntry.default end.
Abbreviation held o p := (thing_at (tree_of o) (str_bytes p)).
Abbreviation open_append := (fun p => UnixFs.write_file_stream p None).

(** The reply to a request, with the literal [data] and the checksum [sum]. *)
Definition literal_reply (data sum : list Z) : list Z :=
  [1] ++ le_bytes 2 ITEM_TRANSFER ++ replicate 16 0 ++ le_bytes 4 (Z.of_nat (length data)) ++ data ++ le_bytes 4 0 ++ sum.
Definition receive_reply (rx : Receiver) (protocol : NegotiatedProtocol) (bs : list Z) : (failure + ReceiverState) * Peer os :=
  receive_transfer toy_hash stored_backends 9 protocol (Some 3) unix open_append rx trial_entries trial_ndx 1 [] 3 receiver_start
    (peer_in bs (trial_peer trial_source)).

(** A file whose checksum does not match is reported, and left in the place of
    the file that was there. *)
Lemma corrupt_reply_commits :
  let run := receive_reply trial_rx trial_protocol (literal_reply [7; 7] (replicate 16 0)) in
  (exists a b, run.1 = inl (EProtocol (ChecksumMismatch a b))) /\
  held trial_source "/t/f" = Some (File small_basis) /\ held (pr_fs run.2) "/t/f" = Some (File [7; 7]).
Proof. split; [vm_compute; by eexists _, _|split; vm_compute; reflexivity]. Qed.

(** A source that cannot be opened is read as an empty file: the sender sends
    it, with the checksum of nothing, and the receiver has no way to tell. *)
Lemma vanished_source_is_empty {S} (G : FsOps S) source_paths s entry :
  Forall (fun p => exists e, Fs.map_file G s (local_source_path G s source_paths p entry) = inl e) source_paths ->
  fr_read_file (LocalFileReader G source_paths) s entry = inr [].
Proof. unfold LocalFileReader. cbn [fr_read_file]. generalize source_paths at 1 3. induction 1 as [|p ps [e E] _ IH]; cbn; [done|by rewrite E]. Qed.

(** With several sources every entry is read from the first that can be read,
    whatever its name. *)
Lemma several_sources_read_the_first {S} (G : FsOps S) first second others s entry data : Fs.map_file G s first = inr data ->
  fr_read_file (LocalFileReader G (first :: second :: others)) s entry = inr data.
Proof. intros E. cbn [fr_read_file LocalFileReader map first_readable]. unfold local_source_path. cbn [length Nat.eqb andb]. by rewrite E. Qed.

(** A file sent with compression and received with [--sparse] is refused: the
    buffered receiver reads plain tokens. *)
Definition zlib_protocol : NegotiatedProtocol := mkNegotiatedProtocol 31 0 Md5 Zlib true 9 (Fixed 3) (WireFormat_new 31 0).
Definition no_sums : SumStruct := mkSumStruct (mkSumHead 0 0 0 0) [].
Definition compressed_reply : list Z :=
  pr_out (send_file toy_hash stored_backends 9 zlib_protocol (Some 3) trial_reader (trial_entry "f") no_sums (trial_peer trial_source)).2.
Definition compressed_run (rx : Receiver) : (failure + Z) * Peer os :=
  receive_data toy_hash stored_backends 9 zlib_protocol (Some 3) unix open_append rx (trial_entry "f") [] 3
    (peer_in compressed_reply (trial_peer trial_source)).
Lemma sparse_receiver_misreads_compressed :
  let sparse_rx := Receiver_new (str_bytes "/t") (Builder.build (Builder.sparse true (Builder.dest (str_bytes "/t") (Builder.archive TransferConfig.default)))) in
  (compressed_run trial_rx).1 = inr (Z.of_nat (length small_source)) /\
  held (pr_fs (compressed_run trial_rx).2) "/t/f" = Some (File small_source) /\
  exists e, (compressed_run sparse_rx).1 = inl e.
Proof. split; [vm_compute; reflexivity|split; [vm_compute; reflexivity|vm_compute; by eexists]]. Qed.

(** With sub-lists the receiver ends more rounds than the sender answers: two
    lists, and it waits for a reply that does not come. *)
Definition incremental_protocol : NegotiatedProtocol :=
  mkNegotiatedProtocol 31 0 Md5 CpNone true 9 (Fixed 3) (WireFormat_new 31 (Z.lor compat_flags.INC_RECURSE compat_flags.VARINT_FLIST_FLAGS)).
Definition dones : list Z := concat (replicate 4 (say_done incremental_protocol NdxState_default (trial_peer trial_source)).2.(pr_out)).
Definition answered_dones : (failure + unit) * Peer os :=
  sender_loop toy_hash stored_backends 9 incremental_protocol (Some 3) trial_reader trial_entries (build_ndx_map trial_ndx) false false None
    (peer_in dones (trial_peer trial_source)).
Lemma two_lists_wait_forever :
  let answers := pr_out answered_dones.2 in
  answered_dones.1 = inr tt /\
  (receiver_phase_exchange incremental_protocol 1 (peer_in answers (trial_peer trial_source))).1 = inr tt /\
  (receiver_phase_exchange incremental_protocol 2 (peer_in answers (trial_peer trial_source))).1 = inl (EProtocol (Io UnexpectedEof)).
Proof. vm_compute. split_and!; reflexivity. Qed.
