(* ===== verification/Numerals.v ===== *)
(** Numbers as text: what [format!] prints in a radix and what
    [str::parse] and [from_str_radix] of the standard library read. *)
From S2P Require Import Prelude Types Text Utf8 Listing.

(** ** Printing *)

Fixpoint digits_in (radix : Z) (fuel : nat) (n : Z) : list Z :=
  match fuel with
  | O => []
  | S f => if n <? radix then [48 + n] else digits_in radix f (n / radix) ++ [48 + n mod radix]
  end.
(** [{:o}] of a 32-bit integer has at most eleven digits. *)
Definition octal (n : Z) : list Z := digits_in 8 11 n.

(** ** Reading *)

(** [char::to_digit], for radixes up to ten. *)
Definition to_digit (radix c : Z) : option Z := if (48 <=? c) && (c <? 48 + radix) then Some (c - 48) else None.
(** [checked_mul], then [checked_add] or, after a minus sign, [checked_sub]. *)
Fixpoint read_digits (radix lo hi sign : Z) (s : list Z) (acc : Z) : option Z :=
  match s with
  | [] => Some acc
  | c :: s' =>
      d ← to_digit radix c;
      let scaled := acc * radix in
      let next := scaled + sign * d in
      if bool_decide (lo <= scaled <= hi) && bool_decide (lo <= next <= hi)
      then read_digits radix lo hi sign s' next else None
  end.
(** The integer type holds [lo] to [hi]; it is signed when [lo] is below 0. *)
Definition from_str_radix (radix lo hi : Z) (s : list Z) : option Z :=
  match s with
  | [] => None
  | c :: s' =>
      if bool_decide (s' = []) && (bool_decide (c = 43) || bool_decide (c = 45)) then None
      else if bool_decide (c = 43) then read_digits radix lo hi 1 s' 0
      else if bool_decide (c = 45) && (lo <? 0) then read_digits radix lo hi (-1) s' 0
      else read_digits radix lo hi 1 s 0
  end.
Definition parse_u32 : list Z -> option Z := from_str_radix 10 0 (2 ^ 32 - 1).
Definition parse_u64 : list Z -> option Z := from_str_radix 10 0 (2 ^ 64 - 1).
Definition parse_i32 : list Z -> option Z := from_str_radix 10 (- 2 ^ 31) (2 ^ 31 - 1).

(** ** What is printed reads back *)

Lemma digits_decimal fuel n : digits fuel n = digits_in 10 fuel n.
Proof. revert n. induction fuel as [|f IH]; intros n; cbn; [done|]. by rewrite IH. Qed.

Lemma to_digit_ok radix d : 0 <= d < radix -> to_digit radix (48 + d) = Some d.
Proof. intros Hd. unfold to_digit. rewrite (proj2 (Z.leb_le _ _)), (proj2 (Z.ltb_lt _ _)) by lia. cbn [andb]. f_equal; lia. Qed.

Section digits.
  Context (radix lo hi : Z) (Hr : 2 <= radix <= 10).

Lemma read_digits_app sign a b acc :
  read_digits radix lo hi sign (a ++ b) acc = (v ← read_digits radix lo hi sign a acc; read_digits radix lo hi sign b v).
Proof.
  revert acc. induction a as [|c a IH]; intros acc; cbn [read_digits app]; [done|].
  destruct (to_digit radix c) as [d|]; [|done]. cbn [mbind option_bind]. destruct (_ && _); [apply IH|done].
Qed.

(** With a sign of one, or of minus one for a signed type. *)
Lemma read_printed sign fuel n : (sign = 1 \/ sign = -1) -> lo <= 0 <= hi -> 0 <= n < radix ^ Z.of_nat fuel -> lo <= sign * n <= hi ->
  read_digits radix lo hi sign (digits_in radix fuel n) 0 = Some (sign * n).
Proof.
  intros Hs H0. revert n. induction fuel as [|f IH]; intros n Hn Hb; cbn [digits_in]; [cbn in Hn; f_equal; lia|].
  destruct (Z.ltb_spec n radix) as [Hlt|Hge].
  - cbn [read_digits]. rewrite to_digit_ok by lia. cbn [mbind option_bind]. rewrite !bool_decide_true by lia. cbn [andb]. f_equal; lia.
  - assert (Hdiv : n = radix * (n / radix) + n mod radix) by (apply Z.div_mod; lia).
    pose proof (Z.mod_pos_bound n radix ltac:(lia)) as Hm. assert (Hq : 0 <= n / radix) by (apply Z.div_pos; lia).
    rewrite read_digits_app, IH.
    + cbn [mbind option_bind read_digits]. rewrite to_digit_ok by done. cbn [mbind option_bind].
      rewrite !bool_decide_true by (destruct Hs; subst sign; nia). cbn [andb]. f_equal. destruct Hs; subst sign; nia.
    + split; [done|]. apply Z.div_lt_upper_bound; [lia|]. rewrite Nat2Z.inj_succ, Z.pow_succ_r in Hn by lia. lia.
    + destruct Hs; subst sign; nia.
Qed.

Lemma digits_nonempty fuel n : fuel <> O -> digits_in radix fuel n <> [].
Proof. destruct fuel as [|f]; [done|]. intros _. cbn [digits_in]. destruct (_ <? _); [done|]. by destruct (digits_in radix f _). Qed.
Lemma digits_are fuel n c : 0 <= n -> c ∈ digits_in radix fuel n -> 48 <= c < 48 + radix.
Proof.
  revert n. induction fuel as [|f IH]; intros n Hn; cbn [digits_in]; [by rewrite elem_of_nil|].
  destruct (Z.ltb_spec n radix); [rewrite list_elem_of_singleton; lia|]. rewrite elem_of_app, list_elem_of_singleton.
  pose proof (Z.mod_pos_bound n radix ltac:(lia)). intros [H1| ->]; [|lia]. apply (IH (n / radix)) in H1; [done|]. apply Z.div_pos; lia.
Qed.

Lemma parse_printed fuel n : fuel <> O -> lo <= 0 -> 0 <= n < radix ^ Z.of_nat fuel -> n <= hi ->
  from_str_radix radix lo hi (digits_in radix fuel n) = Some n.
Proof.
  intros Hf H0 Hn Hh. pose proof (read_printed 1 fuel n ltac:(by left) ltac:(lia) Hn ltac:(lia)) as Hrd. rewrite Z.mul_1_l in Hrd.
  pose proof (digits_nonempty fuel n Hf) as Hne. pose proof (digits_are fuel n) as Hd.
  destruct (digits_in radix fuel n) as [|c s] eqn:E; [done|]. specialize (Hd c ltac:(lia) ltac:(left)).
  unfold from_str_radix. rewrite !(bool_decide_false (c = _)) by lia. by rewrite andb_false_r.
Qed.
Lemma parse_printed_negative fuel n : fuel <> O -> lo < 0 <= hi -> 0 < n < radix ^ Z.of_nat fuel -> lo <= - n ->
  from_str_radix radix lo hi (45 :: digits_in radix fuel n) = Some (- n).
Proof.
  intros Hf H0 Hn Hl. pose proof (read_printed (-1) fuel n ltac:(by right) ltac:(lia) ltac:(lia) ltac:(lia)) as Hrd.
  unfold from_str_radix. rewrite (bool_decide_false (digits_in _ _ _ = [])) by (by apply digits_nonempty). cbn [andb].
  rewrite (bool_decide_false (45 = 43)), (bool_decide_true (45 = 45)), (proj2 (Z.ltb_lt _ _)) by lia. cbn [andb]. rewrite Hrd. f_equal; lia.
Qed.
End digits.

Lemma parse_u32_decimal n : 0 <= n < 2 ^ 32 -> parse_u32 (decimal n) = Some n.
Proof. intros Hn. unfold decimal. rewrite (proj2 (Z.ltb_ge _ _)), digits_decimal by lia. apply parse_printed; lia. Qed.
Lemma parse_u64_decimal n : 0 <= n < 2 ^ 64 -> parse_u64 (decimal n) = Some n.
Proof. intros Hn. unfold decimal. rewrite (proj2 (Z.ltb_ge _ _)), digits_decimal by lia. apply parse_printed; lia. Qed.
Lemma parse_i32_decimal n : - 2 ^ 31 <= n < 2 ^ 31 -> parse_i32 (decimal n) = Some n.
Proof.
  intros Hn. unfold decimal. destruct (Z.ltb_spec n 0); rewrite digits_decimal; [|apply parse_printed; lia].
  unfold parse_i32. rewrite parse_printed_negative by lia. f_equal. lia.
Qed.
Lemma parse_u32_octal n : 0 <= n < 2 ^ 32 -> from_str_radix 8 0 (2 ^ 32 - 1) (octal n) = Some n.
Proof. intros Hn. apply parse_printed; lia. Qed.
