(* ===== verification/TextOps.v ===== *)
(** More of [str]: splitting at a character, ASCII case, prefixes and
    substrings.  The separators are ASCII, so bytes serve for characters. *)
From S2P Require Import Prelude Text Utf8.

(** [s.split_once(c)] *)
Fixpoint split_once (c : Z) (s : list Z) : option (list Z * list Z) :=
  match s with
  | [] => None
  | b :: s' => if b =? c then Some ([], s') else p ← split_once c s'; Some (b :: p.1, p.2)
  end.

(** [s.split(p)] *)
Fixpoint split_by (p : Z -> bool) (part s : list Z) : list (list Z) :=
  match s with
  | [] => [part]
  | c :: s' => if p c then part :: split_by p [] s' else split_by p (part ++ [c]) s'
  end.
Definition split (p : Z -> bool) (s : list Z) : list (list Z) := split_by p [] s.

Definition is_ascii_whitespace (c : Z) : bool := bool_decide (c ∈ [9; 10; 12; 13; 32]).
Definition ascii_lower (c : Z) : Z := if in_range 65 90 c then c + 32 else c.
Definition to_ascii_lowercase : list Z -> list Z := map ascii_lower.
Definition eq_ignore_ascii_case (a b : list Z) : bool := bool_decide (to_ascii_lowercase a = to_ascii_lowercase b).
(** [s.replace(c, d)], of a character by another. *)
Definition replace_char (c d : Z) : list Z -> list Z := map (fun b => if b =? c then d else b).

(** [s.trim_start_matches(p)], of a non-empty [p]. *)
Definition trim_start_matches (p s : list Z) : list Z := trim_with [p] (length s) s.
(** [s.contains(p)] *)
Fixpoint contains (s p : list Z) : bool :=
  starts_with s p || match s with [] => false | _ :: s' => contains s' p end.

(** [if s.ends_with(c) { s.pop(); }] *)
Definition pop_char (c : Z) (s : list Z) : list Z := match strip_suffix [c] s with Some r => r | None => s end.

(** ** Laws *)

Lemma split_once_app c a b : c ∉ a -> split_once c (a ++ c :: b) = Some (a, b).
Proof.
  induction a as [|x a IH]; cbn [app split_once]; intros H.
  - by rewrite Z.eqb_refl.
  - apply not_elem_of_cons in H as [H1 H2]. destruct (Z.eqb_spec x c); [congruence|]. by rewrite IH.
Qed.
Lemma split_once_None c s : c ∉ s -> split_once c s = None.
Proof.
  induction s as [|x s IH]; cbn [split_once]; intros H; [done|].
  apply not_elem_of_cons in H as [H1 H2]. destruct (Z.eqb_spec x c); [congruence|]. by rewrite IH.
Qed.
Lemma split_once_Some c s a b : split_once c s = Some (a, b) <-> s = a ++ c :: b /\ c ∉ a.
Proof.
  split; [|intros [-> H]; by apply split_once_app]. revert a. induction s as [|x s IH]; intros a; cbn [split_once]; [done|].
  destruct (Z.eqb_spec x c) as [->|Hx]; [intros [= <- <-]; split; [done|apply not_elem_of_nil]|].
  destruct (split_once c s) as [[a' b']|] eqn:E; cbn [mbind option_bind fst snd]; [|done].
  intros [= <- <-]. destruct (IH a' eq_refl) as [-> H]. split; [done|]. apply not_elem_of_cons. split; congruence.
Qed.

Lemma to_ascii_lowercase_idem s : to_ascii_lowercase (to_ascii_lowercase s) = to_ascii_lowercase s.
Proof.
  unfold to_ascii_lowercase. rewrite map_map. apply map_ext. intros c. unfold ascii_lower, in_range.
  destruct ((65 <=? c) && (c <=? 90)) eqn:E; [|by rewrite E]. apply andb_prop in E as [?%Z.leb_le ?%Z.leb_le].
  destruct (Z.leb_spec (c + 32) 90); [lia|]. by rewrite andb_false_r.
Qed.

Lemma pop_char_app c s : pop_char c (s ++ [c]) = s.
Proof. unfold pop_char. assert (E : strip_suffix [c] (s ++ [c]) = Some s) by by apply strip_suffix_Some. by rewrite E. Qed.
Lemma pop_char_other c s : last s <> Some c -> pop_char c s = s.
Proof.
  unfold pop_char. intros H. destruct (strip_suffix [c] s) as [r|] eqn:E; [|done].
  apply strip_suffix_Some in E as ->. by rewrite last_snoc in H.
Qed.

Lemma starts_with_app p l : starts_with (p ++ l) p = true.
Proof. apply starts_with_spec. eauto. Qed.
(** Both are prefixes, or one of them already is not. *)
Lemma starts_with_decided p q l : starts_with (p ++ l) q = true -> strip_prefix p q = None -> strip_prefix q p = None -> False.
Proof.
  intros (r & E)%starts_with_spec. revert q E. induction p as [|b p IH]; intros [|c q] E; cbn [strip_prefix app] in *; try done.
  injection E as -> E. rewrite Z.eqb_refl. eauto.
Qed.
Lemma starts_with_not p q l : strip_prefix p q = None -> strip_prefix q p = None -> starts_with (p ++ l) q = false.
Proof. intros H1 H2. destruct (starts_with (p ++ l) q) eqn:E; [|done]. exfalso. by eapply starts_with_decided. Qed.

(** Text between visible characters is trimmed. *)
Lemma trimmed_between a m b : 32 < a < 128 -> 32 < b < 128 -> trimmed (a :: m ++ [b]).
Proof.
  intros Ha Hb. assert (Hsp : forallb (fun p => invisible_head p && invisible_head (rev p)) WHITE_SPACE = true) by reflexivity.
  rewrite forallb_forall in Hsp.
  assert (H : forall q c l, 32 < c < 128 -> invisible_head q = true -> strip_prefix q (c :: l) = None).
  { intros [|d q] c l Hc Hq; [done|]. cbn [strip_prefix invisible_head] in *. destruct (Z.eqb_spec d c); [lia|done]. }
  split; apply first_strip_None; intros p Hp.
  - apply H; [done|]. apply list_elem_of_In in Hp. apply Hsp, andb_prop in Hp. by destruct Hp.
  - apply list_elem_of_fmap in Hp as (q & -> & Hq). cbn [rev]. rewrite rev_app_distr. cbn [rev app]. apply H; [done|].
    apply list_elem_of_In in Hq. apply Hsp, andb_prop in Hq. by destruct Hq.
Qed.
