(* ===== verification/FakeSuper.v ===== *)
(** [ferrosync-fs/src/fake_super.rs]: a file system over another one that keeps
    mode, owner and device of a file in an extended attribute, for users who
    may not set them. *)
From S2P Require Import Prelude Wire Types Text Utf8 Filter Scanner Handshake Fs FsSpec Listing Numerals TextOps.

Definition FAKE_SUPER_XATTR : list Z := str_bytes "user.rsync.%stat".

(** Mode, user, group, device. *)
Definition FakeStat : Type := Z * Z * Z * Z.

(** Octal mode, [major,minor], [uid:gid]; what is missing after the mode is 0. *)
Definition parse_stat (value : list Z) : option FakeStat :=
  if negb (utf8_valid value) then None
  else
    let parts := split_whitespace value in
    match parts with
    | [] => None
    | mode_s :: parts =>
        mode ← from_str_radix 8 0 (2 ^ 32 - 1) mode_s;
        let dev := hd (str_bytes "0,0") parts in
        let '(maj_s, min_s) := from_option id ([48], [48]) (split_once 44 dev) in
        major ← parse_u64 maj_s;
        minor ← parse_u64 min_s;
        let rdev := Z.lor (as_u64 (major ≪ 8)) minor in
        let ug := hd (str_bytes "0:0") (tail parts) in
        p ← split_once 58 ug;
        uid ← parse_u32 p.1;
        gid ← parse_u32 p.2;
        Some (mode, uid, gid, rdev)
    end.

Definition format_stat (st : FakeStat) : list Z :=
  let '(mode, uid, gid, rdev) := st in
  let major := rdev ≫ 8 in
  let minor := Z.land rdev 0xFF in
  octal mode ++ 32 :: decimal major ++ 44 :: decimal minor ++ 32 :: decimal uid ++ 58 :: decimal gid.

Section fake.
  Context {S : Type} (inner : FsOps S).

Definition read_fake_stat (s : S) (path : list Z) : option FakeStat :=
  match get_xattr (view inner s) path FAKE_SUPER_XATTR with inr (Some value) => parse_stat value | _ => None end.

Definition overlay_metadata (s : S) (path : list Z) (m : FileMetadata) : FileMetadata :=
  match read_fake_stat s path with
  | Some (mode, uid, gid, rdev) =>
      mkFileMetadata (md_len m) (md_mtime m) (md_mtime_nsec m) mode uid gid rdev (md_dev m) (md_ino m) (md_nlink m)
  | None => m
  end.

Definition read_or_init_stat (s : S) (path : list Z) : FsError + FakeStat :=
  match read_fake_stat s path with
  | Some st => inr st
  | None => m ← lstat (view inner s) path; mret (md_mode m, md_uid m, md_gid m, md_rdev m)
  end.

(** The reading half; octal 700 is [0x1C0], 600 is [0x180], 40000 [0x4000]. *)
Definition fake_view (s : S) : FileSystem :=
  let fs := view inner s in
  mkFileSystem (fun p => m ← lstat fs p; mret (overlay_metadata s p m)) (fun p => m ← stat fs p; mret (overlay_metadata s p m))
    (read_link fs) (read_file fs) (read_dir fs) (device_id fs)
    (fun p => names ← list_xattrs fs p; mret (List.filter (fun n => negb (bool_decide (n = FAKE_SUPER_XATTR))) names))
    (get_xattr fs) (path_exists fs) (read_to_string fs).

Definition fake_mkdir (path : list Z) (mode : Z) : method FsError S := fun s =>
  match mkdir inner path 0x1C0 s with
  | (inl e, s) => (inl e, s)
  | (inr _, s) => (inr tt, (set_xattr inner path FAKE_SUPER_XATTR (format_stat (Z.lor mode 0x4000, 0, 0, 0)) s).2)
  end.

Definition real_mode (mode : Z) : Z := if negb (Z.land mode 0x4000 =? 0) then 0x1C0 else 0x180.
Definition fake_set_permissions (path : list Z) (mode : Z) : method FsError S := fun s =>
  match read_or_init_stat s path with
  | inl e => (inl e, s)
  | inr (_, uid, gid, rdev) =>
      then_ (set_xattr inner path FAKE_SUPER_XATTR (format_stat (mode, uid, gid, rdev)))
        (set_permissions inner path (real_mode mode)) s
  end.
Definition fake_set_owner (path : list Z) (uid gid : Z) : method FsError S := fun s =>
  match read_or_init_stat s path with
  | inl e => (inl e, s)
  | inr (mode, _, _, rdev) => set_xattr inner path FAKE_SUPER_XATTR (format_stat (mode, uid, gid, rdev)) s
  end.

Definition FakeSuperFs : FsOps S :=
  mkFsOps S fake_view (lexists inner) (map_file inner)
    (fun p d _ => write_file inner p d (Some 0x180)) (fun p d _ => write_file_inplace inner p d (Some 0x180))
    (fun p d _ => write_file_sparse inner p d (Some 0x180)) (fun p d _ => append_file inner p d (Some 0x180))
    fake_mkdir (create_symlink inner) fake_set_permissions (set_mtime inner) fake_set_owner
    (remove_file inner) (remove_dir inner) (set_xattr inner) (hard_link inner) (rename inner) (copy_file inner)
    (Writer inner) (fun p _ => write_file_stream inner p (Some 0x180)) (fun p _ => write_file_inplace_stream inner p (Some 0x180))
    (writer_write_all inner) (writer_flush inner) (writer_drop inner).
End fake.

(** ** The attribute reads back *)

Definition word_char (c : Z) : Prop := 32 < c < 128.
Lemma whitespace_word c l : word_char c -> whitespace_len (c :: l) = 0%nat.
Proof.
  unfold word_char. intros Hc. cbn [whitespace_len]. unfold in_range.
  assert (E1 : (9 <=? c) && (c <=? 13) || (c =? 32) = false) by (apply orb_false_intro; [apply andb_false_intro2, Z.leb_gt|apply Z.eqb_neq]; lia).
  rewrite E1. destruct l as [|c1 l]; [done|]. rewrite (proj2 (Z.eqb_neq c 0xC2)) by lia. cbn [andb]. destruct l as [|c2 l]; [done|].
  by rewrite (proj2 (Z.eqb_neq c 0xE1)), (proj2 (Z.eqb_neq c 0xE2)), (proj2 (Z.eqb_neq c 0xE3)) by lia.
Qed.
Lemma split_ws_word fuel cur w r : Forall word_char w -> (length w < fuel)%nat ->
  split_ws_aux fuel cur (w ++ 32 :: r) =
  match cur ++ w with [] => split_ws_aux (fuel - length w - 1) [] r | word => word :: split_ws_aux (fuel - length w - 1) [] r end.
Proof.
  intros Hw. revert fuel cur. induction Hw as [|c w Hc _ IH]; intros fuel cur Hf; (destruct fuel as [|fuel]; [cbn in Hf; lia|]).
  - cbn [app split_ws_aux]. change (whitespace_len (32 :: r)) with 1%nat. cbn [drop length]. rewrite app_nil_r.
    replace (S fuel - 0 - 1)%nat with fuel by lia. by destruct cur.
  - cbn [app split_ws_aux]. rewrite whitespace_word by done. cbn [length] in Hf. rewrite IH by lia. cbn [length].
    by rewrite <- app_assoc.
Qed.
Lemma split_ws_last fuel cur w : Forall word_char w -> (length w < fuel)%nat -> cur ++ w <> [] -> split_ws_aux fuel cur w = [cur ++ w].
Proof.
  intros Hw. revert fuel cur. induction Hw as [|c w Hc _ IH]; intros fuel cur Hf Hne; (destruct fuel as [|fuel]; [cbn in Hf; lia|]).
  - cbn [split_ws_aux]. rewrite app_nil_r in *. by destruct cur.
  - cbn [split_ws_aux]. rewrite whitespace_word by done. cbn [length] in Hf. rewrite IH; [by rewrite <- app_assoc|lia|by destruct cur].
Qed.
Lemma split_three a b c : Forall word_char a -> Forall word_char b -> Forall word_char c -> a <> [] -> b <> [] -> c <> [] ->
  split_whitespace (a ++ 32 :: b ++ 32 :: c) = [a; b; c].
Proof.
  intros Ha Hb Hc Na Nb Nc. unfold split_whitespace. rewrite !length_app. cbn [length]. rewrite !length_app. cbn [length].
  rewrite split_ws_word by (done || lia). cbn [app]. destruct a as [|x a]; [done|]. f_equal.
  rewrite split_ws_word by (done || lia). cbn [app]. destruct b as [|y b]; [done|]. f_equal.
  rewrite split_ws_last by (done || lia). done.
Qed.

Lemma digit_word radix fuel n : radix <= 10 -> 2 <= radix -> 0 <= n -> Forall word_char (digits_in radix fuel n).
Proof. intros Hr Hr2 Hn. apply Forall_forall. intros c Hc. apply digits_are in Hc; [|lia|done]. unfold word_char. lia. Qed.
Lemma decimal_digits n : 0 <= n -> decimal n = digits_in 10 20 n.
Proof. intros Hn. unfold decimal. destruct (Z.ltb_spec n 0); [lia|]. apply digits_decimal. Qed.
Lemma decimal_word n : 0 <= n -> Forall word_char (decimal n).
Proof. intros Hn. rewrite decimal_digits by done. by apply digit_word. Qed.
Lemma decimal_nonempty n : 0 <= n -> decimal n <> [].
Proof. intros Hn. rewrite decimal_digits by done. by apply digits_nonempty. Qed.
Lemma decimal_lacks n c : 0 <= n -> ~ (48 <= c < 58) -> c ∉ decimal n.
Proof. intros Hn Hc Hin. rewrite decimal_digits in Hin by done. apply digits_are in Hin; lia. Qed.

Definition stat_typed (st : FakeStat) : Prop := let '(mode, uid, gid, rdev) := st in in_u32 mode /\ in_u32 uid /\ in_u32 gid /\ in_u64 rdev.

Lemma device_joined rdev : in_u64 rdev -> Z.lor (as_u64 ((rdev ≫ 8) ≪ 8)) (Z.land rdev 0xFF) = rdev.
Proof.
  intros Hr. rewrite Z.shiftr_div_pow2, Z.shiftl_mul_pow2 by lia. change 0xFF with (Z.ones 8). rewrite Z.land_ones by lia.
  pose proof (Z.div_mod rdev (2 ^ 8) ltac:(lia)) as Hd. pose proof (Z.mod_pos_bound rdev (2 ^ 8) ltac:(lia)) as Hm.
  pose proof (Z.div_pos rdev (2 ^ 8) ltac:(lia) ltac:(lia)) as Hp. rewrite Z.mul_comm in Hd. rewrite wrap_id by lia.
  rewrite (lor_disjoint _ _ 8 (rdev / 2 ^ 8)) by lia. lia.
Qed.
Lemma parse_format_stat st : stat_typed st -> parse_stat (format_stat st) = Some st.
Proof.
  destruct st as [[[mode uid] gid] rdev]. intros (Hm & Hu & Hg & Hr). unfold parse_stat, format_stat.
  assert (Hmaj : 0 <= rdev ≫ 8 < 2 ^ 64).
  { rewrite Z.shiftr_div_pow2 by lia. split; [apply Z.div_pos; lia|]. apply Z.div_lt_upper_bound; lia. }
  assert (Hmin : 0 <= Z.land rdev 0xFF < 2 ^ 8) by (change 0xFF with (Z.ones 8); rewrite Z.land_ones by lia; apply Z.mod_pos_bound; lia).
  pose proof (digit_word 8 11 mode ltac:(lia) ltac:(lia) ltac:(lia)) as Wm. pose proof (digits_nonempty 8 11 mode ltac:(done)) as Nm. fold (octal mode) in Wm, Nm.
  set (dev := decimal (rdev ≫ 8) ++ 44 :: decimal (Z.land rdev 0xFF)). set (own := decimal uid ++ 58 :: decimal gid).
  assert (Wd : Forall word_char dev) by (apply Forall_app_2; [apply decimal_word; lia|constructor; [done|apply decimal_word; lia]]).
  assert (Wo : Forall word_char own) by (apply Forall_app_2; [apply decimal_word; lia|constructor; [done|apply decimal_word; lia]]).
  replace (octal mode ++ _) with (octal mode ++ 32 :: dev ++ 32 :: own) by (unfold dev, own; by rewrite <- !app_assoc).
  assert (Hv : utf8_valid (octal mode ++ 32 :: dev ++ 32 :: own) = true).
  { assert (Hi : forall w, Forall word_char w -> Forall (fun b => 0 <= b < 128) w)
      by (intros w Hw; eapply Forall_impl; [exact Hw|]; unfold word_char; lia).
    apply utf8_valid_ascii, Forall_app_2; [by apply Hi|]. constructor; [lia|]. apply Forall_app_2; [by apply Hi|]. constructor; [lia|by apply Hi]. }
  rewrite Hv. cbn [negb]. rewrite split_three; [|done|done|done|done|apply not_eq_sym, app_cons_not_nil..].
  rewrite parse_u32_octal by lia. cbn [mbind option_bind hd tail]. unfold dev. rewrite split_once_app by (apply decimal_lacks; lia).
  cbn [from_option id]. rewrite !parse_u64_decimal by lia. cbn [mbind option_bind]. unfold own. rewrite split_once_app by (apply decimal_lacks; lia).
  cbn [mbind option_bind fst snd]. rewrite !parse_u32_decimal by lia. cbn [mbind option_bind]. by rewrite device_joined.
Qed.

(** A missing device or owner, and what is not a stat. *)
Lemma parse_stat_examples :
  parse_stat (str_bytes "100644 0,0 1000:100") = Some (0x81A4, 1000, 100, 0) /\ parse_stat (str_bytes "755") = Some (0x1ED, 0, 0, 0) /\
  parse_stat (str_bytes "60660 8,1 0:6") = Some (0x61B0, 0, 6, 0x801) /\ parse_stat (str_bytes "644 x 0:0") = Some (0x1A4, 0, 0, 0) /\
  parse_stat (str_bytes "644 0,0 0") = None /\ parse_stat (str_bytes "688") = None.
Proof. vm_compute. split_and!; reflexivity. Qed.

(** ** Ownership without the right to it *)

(** What the file system underneath promises about metadata. *)
Class MetadataLaws {S : Type} (F : FsOps S) := {
  set_xattr_get p n v s s' : set_xattr F p n v s = (inr tt, s') -> get_xattr (view F s') p n = inr (Some v);
  set_xattr_lstat p n v s s' : set_xattr F p n v s = (inr tt, s') -> lstat (view F s') p = lstat (view F s) p;
  set_permissions_xattr p m s s' n : set_permissions F p m s = (inr tt, s') -> get_xattr (view F s') p n = get_xattr (view F s) p n;
  set_permissions_lstat p m s s' meta : set_permissions F p m s = (inr tt, s') -> lstat (view F s) p = inr meta ->
    exists meta', lstat (view F s') p = inr meta' /\
      meta' = mkFileMetadata (md_len meta) (md_mtime meta) (md_mtime_nsec meta) (md_mode meta') (md_uid meta) (md_gid meta) (md_rdev meta)
        (md_dev meta) (md_ino meta) (md_nlink meta);
}.

Definition with_stat (m : FileMetadata) (st : FakeStat) : FileMetadata :=
  let '(mode, uid, gid, rdev) := st in
  mkFileMetadata (md_len m) (md_mtime m) (md_mtime_nsec m) mode uid gid rdev (md_dev m) (md_ino m) (md_nlink m).
Definition stat_of (m : FileMetadata) : FakeStat := (md_mode m, md_uid m, md_gid m, md_rdev m).

Section ownership.
  Context {S : Type} (F : FsOps S) `{!MetadataLaws F}.

Lemma fake_lstat s p meta : lstat (view (FakeSuperFs F) s) p = inr meta ->
  exists real, lstat (view F s) p = inr real /\ read_or_init_stat F s p = inr (stat_of meta) /\ meta = with_stat real (stat_of meta).
Proof.
  cbn [view FakeSuperFs fake_view lstat]. destruct (lstat (view F s) p) as [e|real] eqn:E; [done|]. cbn [mbind sum_bind]. intros [= <-].
  exists real. split; [done|]. unfold overlay_metadata, read_or_init_stat. rewrite E.
  destruct (read_fake_stat F s p) as [[[[mode uid] gid] rdev]|]; cbn [mbind sum_bind]; [done|]. split; [done|]. by destruct real.
Qed.
Lemma lstat_recorded s p st real : stat_typed st -> get_xattr (view F s) p FAKE_SUPER_XATTR = inr (Some (format_stat st)) ->
  lstat (view F s) p = inr real -> lstat (view (FakeSuperFs F) s) p = inr (with_stat real st).
Proof.
  intros Ht Ex El. cbn [view FakeSuperFs fake_view lstat]. rewrite El. cbn [mbind sum_bind]. unfold overlay_metadata, read_fake_stat.
  rewrite Ex, parse_format_stat by done. by destruct st as [[[mode uid] gid] rdev].
Qed.

Lemma fake_set_owner_lstat s s' p uid gid meta : fake_set_owner F p uid gid s = (inr tt, s') -> in_u32 uid -> in_u32 gid ->
  lstat (view (FakeSuperFs F) s) p = inr meta -> stat_typed (stat_of meta) ->
  lstat (view (FakeSuperFs F) s') p = inr (with_stat meta (md_mode meta, uid, gid, md_rdev meta)).
Proof.
  intros Hs Hu Hg Hl (Hm & _ & _ & Hr). destruct (fake_lstat s p meta Hl) as (real & Er & Ei & Em). unfold fake_set_owner in Hs. rewrite Ei in Hs.
  cbn [stat_of] in Hs. pose proof (set_xattr_get _ _ _ _ _ Hs) as Ex. pose proof (set_xattr_lstat _ _ _ _ _ Hs) as El. rewrite Er in El.
  assert (Ht : stat_typed (md_mode meta, uid, gid, md_rdev meta)) by (cbv [stat_typed stat_of] in *; lia).
  rewrite (lstat_recorded _ _ _ _ Ht Ex El). f_equal. rewrite Em. by destruct meta.
Qed.
Lemma fake_set_permissions_lstat s s' p mode meta : fake_set_permissions F p mode s = (inr tt, s') -> in_u32 mode ->
  lstat (view (FakeSuperFs F) s) p = inr meta -> stat_typed (stat_of meta) ->
  lstat (view (FakeSuperFs F) s') p = inr (with_stat meta (mode, md_uid meta, md_gid meta, md_rdev meta)).
Proof.
  intros Hs Hmode Hl (_ & Hu & Hg & Hr). destruct (fake_lstat s p meta Hl) as (real & Er & Ei & Em). unfold fake_set_permissions in Hs. rewrite Ei in Hs.
  cbn [stat_of] in Hs. unfold then_ in Hs. destruct (set_xattr F p FAKE_SUPER_XATTR _ s) as [[e|[]] s1] eqn:E1; [done|].
  pose proof (set_xattr_get _ _ _ _ _ E1) as Ex. pose proof (set_xattr_lstat _ _ _ _ _ E1) as El. rewrite Er in El.
  rewrite <- (set_permissions_xattr _ _ _ _ FAKE_SUPER_XATTR Hs) in Ex. destruct (set_permissions_lstat _ _ _ _ _ Hs El) as (real' & El' & Er').
  assert (Ht : stat_typed (mode, md_uid meta, md_gid meta, md_rdev meta)) by (cbv [stat_typed stat_of] in *; lia).
  rewrite (lstat_recorded _ _ _ _ Ht Ex El'). f_equal. rewrite Er', Em. by destruct meta.
Qed.
End ownership.


(** A disk with a single file. *)
Definition single : Type := FileMetadata * list (list Z * list Z).
Definition single_disk : FsOps single :=
  let ok : method FsError single := fun s => (inr tt, s) in
  let none {A} (p : list Z) : FsError + A := inl (NotFound p) in
  mkFsOps single
    (fun s => mkFileSystem (fun _ => inr s.1) (fun _ => inr s.1) none none none none (fun _ => inr (map fst s.2))
       (fun _ n => inr (snd <$> List.find (fun a => bool_decide (a.1 = n)) s.2)) (fun _ => true) (fun _ => None))
    (fun _ _ => true) (fun _ => none) (fun _ _ _ => ok) (fun _ _ _ => ok) (fun _ _ _ => ok)
    (fun _ _ _ => ok) (fun _ _ => ok) (fun _ _ => ok)
    (fun _ m s => (inr tt, (with_stat s.1 (m, md_uid s.1, md_gid s.1, md_rdev s.1), s.2))) (fun _ _ _ => ok)
    (fun p _ _ s => (inl (PermissionDenied p), s)) (fun _ => ok) (fun _ => ok)
    (fun _ n v s => (inr tt, (s.1, (n, v) :: s.2))) (fun _ _ => ok) (fun _ _ => ok) (fun _ _ => ok)
    unit (fun p _ s => (inr tt, s)) (fun p _ s => (inr tt, s)) (fun _ w s => (true, (w, s)))
    (fun w s => (true, (w, s))) (fun _ s => s).
#[export] Instance single_laws : MetadataLaws single_disk.
Proof.
  split.
  - intros p n v [m l] s' [= <-]. cbn. by rewrite bool_decide_true.
  - by intros p n v [m l] s' [= <-].
  - by intros p mode [m l] s' n [= <-].
  - intros p mode [m l] s' meta [= <-] [= <-]. by eexists.
Qed.
Definition plain_file : FileMetadata := mkFileMetadata 10 0 0 0x81A4 500 500 0 1 2 1.
Definition owned_file : single := (fake_set_owner single_disk [] 0 7 (plain_file, [])).2.

(** ** The contract of a file system is kept *)

Section contract.
  Context {S : Type} (F : FsOps S) `{!FsSpec F}.

Lemma harmless_then (m1 m2 : method FsError S) : harmless what owned m1 -> harmless what owned m2 -> harmless what owned (then_ m1 m2).
Proof.
  intros H1 H2 P s Ho. destruct (H1 P s Ho) as [O1 E1]. unfold then_. destruct (m1 s) as [[e|[]] s1]; cbn [snd] in *; [done|].
  destruct (H2 P s1 O1) as [O2 E2]. split; [done|]. intros q Hq. by rewrite E2, E1.
Qed.
Lemma harmless_skip (r : FsError + unit) : harmless (S := S) what owned (fun s => (r, s)).
Proof. intros P s Ho. split; [done|]. by intros q. Qed.

#[export] Instance fake_super_spec : FsSpec (FakeSuperFs F).
Proof.
  refine {| what := what (F := F); owned := owned (F := F) |}.
  - apply (owned_map_file (F := F)).
  - intros P s s' p data mode Ho Hp Hl E. exact (owned_write_file (F := F) P s s' p data (Some 0x180) Ho Hp Hl E).
  - intros P s s' p data mode Ho Hp Hl E. exact (owned_write_file_inplace (F := F) P s s' p data (Some 0x180) Ho Hp Hl E).
  - intros P s s' p data mode Ho Hp Hl E. exact (owned_write_file_sparse (F := F) P s s' p data (Some 0x180) Ho Hp Hl E).
  - intros P s s' d mode Ho E. cbn [mkdir FakeSuperFs] in E. unfold fake_mkdir in E.
    destruct (mkdir F d 0x1C0 s) as [[e|[]] s1] eqn:E1; [done|]. injection E as <-.
    destruct (owned_mkdir P s s1 d 0x1C0 Ho E1) as [O1 W1].
    destruct (owned_set_xattr (F := F) d FAKE_SUPER_XATTR (format_stat (Z.lor mode 0x4000, 0, 0, 0)) P s1 O1) as [O2 W2].
    split; [done|]. intros q Hq. by rewrite W2, W1.
  - apply (owned_create_symlink (F := F)).
  - apply (owned_set_mtime (F := F)).
  - intros p u g P s Ho. cbn [set_owner FakeSuperFs]. unfold fake_set_owner. destruct (read_or_init_stat F s p) as [e|[[[mode ?] ?] rdev]];
      [by apply harmless_skip|by apply (owned_set_xattr (F := F))].
  - apply (owned_set_xattr (F := F)).
Defined.
End contract.

(** A directory is read from underneath: what a scan sees of the files in it is
    their real metadata, not what was recorded. *)
Lemma read_dir_shows_the_real {S : Type} (F : FsOps S) s p : read_dir (view (FakeSuperFs F) s) p = read_dir (view F s) p.
Proof. done. Qed.
