(* ===== verification/ServerArgs.v ===== *)
(** The arguments of [rsync --server]
    ([ferrosync-engine/src/session.rs]: [build_server_options_config],
    [parse_server_args_config]): the client writes its options as one condensed
    word and long options, the server reads them back. *)
From S2P Require Import Prelude Wire Types Text Utf8 Filter Scanner Options Handshake Listing Numerals TextOps.

(** [Path::display] *)
Definition display (path : list Z) : list Z := from_utf8_lossy path.

Definition flag (on : bool) (ch : string) : list Z := if on then str_bytes ch else [].
Definition long (on : bool) (arg : string) : list (list Z) := if on then [str_bytes arg] else [].
Definition valued (key : string) (v : list Z) : list Z := str_bytes key ++ v.
Definition long_value (key : string) (v : option (list Z)) : list (list Z) :=
  match v with Some v => [valued key v] | None => [] end.

(** ** The client's side *)

Definition verbosity_flags (v : Verbosity) : list Z :=
  match v with
  | VQuiet => str_bytes "q"
  | VVerbose => str_bytes "v"
  | VVeryVerbose => str_bytes "vv"
  | VDebug => str_bytes "vvv"
  | VNormal => []
  end.

(** The flags, in the order they are pushed, and what belongs between them. *)
Definition condensed_flags (opts : TransferConfig) : list Z :=
  flag (Get.preserve_links opts) "l" ++
  flag (Get.preserve_owner opts) "o" ++
  flag (Get.preserve_group opts) "g" ++
  flag (Get.preserve_devices opts || Get.preserve_specials opts) "D" ++
  flag (Get.preserve_times opts) "t" ++
  flag (Get.preserve_perms opts) "p" ++
  flag (Get.recursive opts) "r" ++
  flag (Get.compress opts) "z" ++
  flag (Get.checksum_mode opts) "c" ++
  flag (Get.update opts) "u" ++
  flag (Get.dry_run opts) "n" ++
  flag (Get.whole_file opts) "W" ++
  flag (Get.one_file_system opts) "x" ++
  flag (Get.sparse opts) "S" ++
  flag (Get.ignore_times opts) "I" ++
  flag (Get.prune_empty_dirs opts) "m" ++
  flag (Get.relative opts) "R" ++
  flag (Get.copy_links opts) "L" ++
  flag (Get.keep_dirlinks opts) "K" ++
  flag (Get.dirs opts) "d" ++
  flag (Get.cvs_exclude opts) "C" ++
  flag (Get.fuzzy opts) "y" ++
  flag (Get.backup opts) "b" ++
  flag (Get.preserve_hard_links opts) "H" ++
  flag (Get.preserve_acls opts) "A" ++
  flag (Get.preserve_xattrs opts) "X" ++
  replicate (Z.to_nat (Get.filter_merge_files opts)) 70 ++
  verbosity_flags (Get.verbosity opts).

Definition condensed_arg (opts : TransferConfig) : list Z :=
  str_bytes "-" ++ condensed_flags opts ++ str_bytes "e" ++ build_capability_string (Get.recursive opts) true false.

Definition append_args (opts : TransferConfig) : list (list Z) :=
  if Get.append_verify opts then [str_bytes "--append"; str_bytes "--append"]
  else long (Get.append opts) "--append".
Definition chown_arg (opts : TransferConfig) : list (list Z) :=
  match Get.chown_uid opts, Get.chown_gid opts with
  | None, None => []
  | uid, gid =>
      let text (id : option Z) := match id with Some n => decimal n | None => [] end in
      [valued "--chown=" (text uid ++ str_bytes ":" ++ text gid)]
  end.
Definition suffix_arg (opts : TransferConfig) : list (list Z) :=
  let default_suffix := match Get.backup_dir opts with Some _ => [] | None => str_bytes "~" end in
  if bool_decide (Get.suffix opts = default_suffix) then [] else [valued "--suffix=" (Get.suffix opts)].
Definition delete_arg (mode : DeleteMode) : list (list Z) :=
  match mode with
  | DelBefore => [str_bytes "--delete-before"]
  | DelDuring => [str_bytes "--delete-during"]
  | DelAfter => [str_bytes "--delete-after"]
  | DelExcluded => [str_bytes "--delete-excluded"]
  | DelNone => []
  end.

Definition common_args (opts : TransferConfig) : list (list Z) :=
  long (Get.inplace opts) "--inplace" ++
  long (Get.numeric_ids opts) "--numeric-ids" ++
  append_args opts ++
  long (Get.safe_links opts) "--safe-links" ++
  long (Get.remove_source_files opts) "--remove-source-files" ++
  long_value "--block-size=" (decimal <$> Get.block_size opts) ++
  map (valued "--chmod=") (Get.chmod opts) ++
  chown_arg opts ++
  long_value "--backup-dir=" (display <$> Get.backup_dir opts) ++
  suffix_arg opts ++
  long (Get.list_only opts) "--list-only" ++
  long (Get.fake_super opts) "--fake-super" ++
  long_value "--iconv=" (Get.iconv opts).
Definition push_args (opts : TransferConfig) : list (list Z) :=
  long (Get.size_only opts) "--size-only" ++
  long (Get.existing opts) "--existing" ++
  long (Get.ignore_existing opts) "--ignore-existing" ++
  long_value "--max-delete=" (decimal <$> Get.max_delete opts) ++
  (if 0 <? Get.modify_window opts then [valued "--modify-window=" (decimal (Get.modify_window opts))] else []) ++
  long (Get.partial opts) "--partial" ++
  long_value "--partial-dir=" (display <$> Get.partial_dir opts) ++
  delete_arg (Get.delete opts) ++
  map (fun dir => valued "--link-dest=" (display dir)) (Get.link_dest opts).
Definition pull_args (opts : TransferConfig) : list (list Z) :=
  long_value "--max-size=" (decimal <$> Get.max_size opts) ++
  long_value "--min-size=" (decimal <$> Get.min_size opts).

Definition build_server_options_config (opts : TransferConfig) (am_sender : bool) : list (list Z) :=
  [condensed_arg opts] ++ common_args opts ++ (if am_sender then push_args opts else pull_args opts).

(** ** The server's side *)

(** [arg == "--server" || ...], then [starts_with("--")], [starts_with('-')] *)
Definition sort_arg (found : list Z * list (list Z)) (arg : list Z) : list Z * list (list Z) :=
  if bool_decide (arg = str_bytes "--server") || bool_decide (arg = str_bytes "--sender") || bool_decide (arg = str_bytes ".")
  then found
  else if starts_with arg (str_bytes "--") then (found.1, found.2 ++ [arg])
  else if starts_with arg (str_bytes "-") && bool_decide (found.1 = []) then (arg, found.2)
  else found.

Fixpoint before_e (s : list Z) : list Z :=
  match s with
  | [] => []
  | c :: s' => if c =? 101 then [] else c :: before_e s'
  end.
(** [&condensed[1..pos]]: the slice of an empty string panics. *)
Definition flags_part (condensed : list Z) : result (list Z) :=
  match condensed with
  | [] => Panic
  | c :: rest => if c =? 101 then Panic else Ok (before_e rest)
  end.

Definition is_flag (ch : Z) (s : string) : bool := bool_decide ([ch] = str_bytes s).
(** One character of the condensed word: the builder and the number of [F]s. *)
Definition short_flag (b : TransferConfig * Z) (ch : Z) : TransferConfig * Z :=
  let '(builder, filter_merge_count) := b in
  let set (f : bool -> TransferConfig -> TransferConfig) := (f true builder, filter_merge_count) in
  if is_flag ch "l" then set Builder.preserve_links
  else if is_flag ch "o" then set Builder.preserve_owner
  else if is_flag ch "g" then set Builder.preserve_group
  else if is_flag ch "D" then set (fun v c => Builder.preserve_specials v (Builder.preserve_devices v c))
  else if is_flag ch "t" then set Builder.preserve_times
  else if is_flag ch "p" then set Builder.preserve_perms
  else if is_flag ch "r" then set Builder.recursive
  else if is_flag ch "z" then set Builder.compress
  else if is_flag ch "c" then set Builder.checksum_mode
  else if is_flag ch "u" then set Builder.update
  else if is_flag ch "n" then set Builder.dry_run
  else if is_flag ch "W" then set Builder.whole_file
  else if is_flag ch "x" then set Builder.one_file_system
  else if is_flag ch "S" then set Builder.sparse
  else if is_flag ch "I" then set Builder.ignore_times
  else if is_flag ch "m" then set Builder.prune_empty_dirs
  else if is_flag ch "L" then set Builder.copy_links
  else if is_flag ch "K" then set Builder.keep_dirlinks
  else if is_flag ch "d" then set Builder.dirs
  else if is_flag ch "R" then set Builder.relative
  else if is_flag ch "C" then set Builder.cvs_exclude
  else if is_flag ch "y" then set Builder.fuzzy
  else if is_flag ch "F" then (builder, Z.min 255 (filter_merge_count + 1))
  else if is_flag ch "b" then set Builder.backup
  else if is_flag ch "H" then set Builder.preserve_hard_links
  else if is_flag ch "A" then set Builder.preserve_acls
  else if is_flag ch "X" then set Builder.preserve_xattrs
  else if is_flag ch "v" then (Builder.verbosity VVerbose builder, filter_merge_count)
  else b.

Definition on_some {A} (v : option A) (f : A -> TransferConfig -> TransferConfig) : TransferConfig -> TransferConfig :=
  match v with Some a => f a | None => fun c => c end.

(** One long option; the arms in the order of the [match]. *)
Definition long_option (builder : TransferConfig) (opt : list Z) : TransferConfig :=
  let eq (s : string) := bool_decide (opt = str_bytes s) in
  let key (s : string) (k : list Z -> TransferConfig) (others : TransferConfig) :=
    match strip_prefix (str_bytes s) opt with Some v => k v | None => others end in
  if eq "--inplace" then Builder.inplace true builder
  else if eq "--numeric-ids" then Builder.numeric_ids true builder
  else if eq "--append" then Builder.append true builder
  else if eq "--size-only" then Builder.size_only true builder
  else if eq "--existing" then Builder.existing true builder
  else if eq "--ignore-existing" then Builder.ignore_existing true builder
  else if eq "--delete-before" then Builder.delete DelBefore builder
  else if eq "--delete-during" then Builder.delete DelDuring builder
  else if eq "--delete-after" then Builder.delete DelAfter builder
  else if eq "--delete-excluded" then Builder.delete DelExcluded builder
  else if eq "--safe-links" then Builder.safe_links true builder
  else key "--backup-dir=" (fun dir => Builder.backup_dir dir builder)
  (key "--suffix=" (fun s => Builder.suffix s builder)
  (if eq "--list-only" then Builder.list_only true builder
  else if eq "--fake-super" then Builder.fake_super true builder
  else key "--iconv=" (fun charset => Builder.iconv charset builder)
  (if eq "--remove-source-files" then Builder.remove_source_files true builder
  else if eq "--partial" then Builder.partial true builder
  else if eq "--append-verify" then Builder.append_verify true builder
  else key "--max-delete=" (fun n => on_some (parse_u64 n) Builder.max_delete builder)
  (key "--modify-window=" (fun n => on_some (parse_u32 n) Builder.modify_window builder)
  (key "--block-size=" (fun n => on_some (parse_i32 n) Builder.block_size builder)
  (key "--chmod=" (fun spec => Builder.chmod spec builder)
  (key "--chown=" (fun v =>
     match split_once 58 v with
     | Some (uid, gid) => on_some (parse_u32 gid) Builder.chown_gid (on_some (parse_u32 uid) Builder.chown_uid builder)
     | None => builder
     end)
  (key "--link-dest=" (fun dir => Builder.link_dest dir builder)
  (key "--partial-dir=" (fun dir => Builder.partial_dir dir builder)
  (key "--max-size=" (fun n => on_some (parse_u64 n) Builder.max_size builder)
  (key "--min-size=" (fun n => on_some (parse_u64 n) Builder.min_size builder)
  builder))))))))))).

Definition parse_server_args_config (args : list (list Z)) (module_path : list Z) (am_sender : bool) : result TransferConfig :=
  let '(condensed, long_opts) := foldl sort_arg ([], []) args in
  flags ← flags_part condensed;
  let '(builder, filter_merge_count) := foldl short_flag (TransferConfig.default, 0) flags in
  let builder := if 0 <? filter_merge_count then Builder.filter_merge_files filter_merge_count builder else builder in
  let builder := foldl long_option builder long_opts in
  Ok (Builder.build (if am_sender then Builder.source module_path builder else Builder.dest module_path builder)).

(** ** What the server is told *)

(** Field by field: what the arguments carry, and the default for the rest. *)
Definition heard_verbosity (v : Verbosity) : Verbosity :=
  match v with VVerbose | VVeryVerbose | VDebug => VVerbose | _ => VNormal end.
Definition heard_suffix (opts : TransferConfig) : list Z :=
  match Get.backup_dir opts with
  | Some _ => if bool_decide (Get.suffix opts = []) then str_bytes "~" else Get.suffix opts
  | None => Get.suffix opts
  end.
Definition when {A} (carried : bool) (v default : A) : A := if carried then v else default.

Definition server_view (opts : TransferConfig) (push : bool) (paths : PathConfig.t) : TransferConfig :=
  TransferConfig.mk paths
    (PreservationConfig.mk (Get.preserve_times opts) (Get.preserve_perms opts) (Get.preserve_owner opts) (Get.preserve_group opts)
       (Get.preserve_links opts) (Get.preserve_hard_links opts) (Get.preserve_devices opts || Get.preserve_specials opts)
       (Get.preserve_devices opts || Get.preserve_specials opts) (Get.preserve_acls opts) (Get.preserve_xattrs opts)
       (Get.numeric_ids opts) (Get.chmod opts) (Get.chown_uid opts) (Get.chown_gid opts))
    (FileSelectionConfig.mk (Get.checksum_mode opts) (Get.update opts) (Get.ignore_times opts) (push && Get.size_only opts)
       (push && Get.existing opts) (push && Get.ignore_existing opts) (when push None (Get.max_size opts))
       (when push None (Get.min_size opts)) (when push (Get.modify_window opts) 0) (Get.fuzzy opts))
    (FileWriteConfig.mk (Get.inplace opts) (Get.whole_file opts) (Get.sparse opts) (Get.backup opts) (Get.backup_dir opts)
       (heard_suffix opts) (push && Get.partial opts) (when push (Get.partial_dir opts) None)
       (Get.append opts || Get.append_verify opts) false (Get.remove_source_files opts) (Get.safe_links opts) (Get.keep_dirlinks opts)
       (when push (Get.link_dest opts) []) [] [])
    (FilteringConfig.mk [] [] [] [] [] (Get.cvs_exclude opts) (Get.filter_merge_files opts))
    (TraversalConfig.mk (Get.dir_mode opts) (Get.one_file_system opts) (Get.relative opts) (Get.copy_links opts))
    (DeletionConfig.mk (when push (Get.delete opts) DelNone) (when push (Get.max_delete opts) None) (Get.prune_empty_dirs opts))
    (ProtocolConfig.mk (Get.compress opts) 6 None None)
    (LimitsConfig.mk None None (Get.block_size opts))
    (OutputConfig.mk (heard_verbosity (Get.verbosity opts)) false false (Get.dry_run opts) false (Get.list_only opts) (Get.fake_super opts))
    (Get.iconv opts) None None None.

(** The fields hold values of their Rust types, and the paths are text. *)
Definition fits (lo hi : Z) (v : option Z) : Prop := forall n, v = Some n -> lo <= n < hi.
Record options_typed (opts : TransferConfig) : Prop := {
  ot_merge : 0 <= Get.filter_merge_files opts < 2 ^ 8;
  ot_window : 0 <= Get.modify_window opts < 2 ^ 32;
  ot_block : fits (- 2 ^ 31) (2 ^ 31) (Get.block_size opts);
  ot_uid : fits 0 (2 ^ 32) (Get.chown_uid opts);
  ot_gid : fits 0 (2 ^ 32) (Get.chown_gid opts);
  ot_delete : fits 0 (2 ^ 64) (Get.max_delete opts);
  ot_max : fits 0 (2 ^ 64) (Get.max_size opts);
  ot_min : fits 0 (2 ^ 64) (Get.min_size opts);
  ot_backup : forall d, Get.backup_dir opts = Some d -> utf8_valid d = true;
  ot_partial : forall d, Get.partial_dir opts = Some d -> utf8_valid d = true;
  ot_links : Forall (fun d => utf8_valid d = true) (Get.link_dest opts);
}.

(** ** The words are told apart *)

Definition long_arg (a : list Z) : bool :=
  starts_with a (str_bytes "--") && negb (bool_decide (a = str_bytes "--server")) && negb (bool_decide (a = str_bytes "--sender")).
Lemma sort_long cond l args : forallb long_arg args = true -> foldl sort_arg (cond, l) args = (cond, l ++ args).
Proof.
  revert l. induction args as [|a args IH]; intros l; cbn [forallb foldl]; [by rewrite app_nil_r|].
  rewrite andb_true_iff. intros [Ha Hargs]. unfold long_arg in Ha. rewrite !andb_true_iff, !negb_true_iff in Ha.
  destruct Ha as ((H1 & H2) & H3). unfold sort_arg at 2. rewrite H1, H2, H3. cbn [orb].
  rewrite bool_decide_false by (intros ->; discriminate H1). cbn [fst snd]. rewrite IH by done. by rewrite <- app_assoc.
Qed.
Lemma before_e_app a b : 101 ∉ a -> before_e (a ++ str_bytes "e" ++ b) = a.
Proof.
  induction a as [|c a IH]; intros H; cbn [before_e app]; [done|]. apply not_elem_of_cons in H as [H1 H2].
  destruct (Z.eqb_spec c 101); [congruence|]. by rewrite IH.
Qed.

Lemma forallb_map {A B} (f : A -> B) (p : B -> bool) l : (forall a, p (f a) = true) -> forallb p (map f l) = true.
Proof. intros Hf. induction l as [|a l IH]; [done|]. cbn. by rewrite Hf. Qed.
Lemma all_long opts (push : bool) : forallb long_arg (common_args opts ++ (if push then push_args opts else pull_args opts)) = true.
Proof.
  unfold common_args, push_args, pull_args, append_args, chown_arg, suffix_arg, delete_arg, long, long_value.
  destruct push; rewrite !forallb_app, !andb_true_iff; split_and!;
    repeat match goal with
    | |- forallb _ (map _ _) = true => apply forallb_map; reflexivity
    | |- context [match ?x with _ => _ end] => lazymatch x with context [match _ with _ => _ end] => fail | _ => destruct x end
    end; try reflexivity.
Qed.
Lemma not_a_flag opts c : c = 101 \/ c = 45 -> c ∉ condensed_flags opts.
Proof.
  intros Hc. unfold condensed_flags, flag. rewrite !not_elem_of_app. split_and!;
    repeat match goal with |- _ ∉ (if ?b then _ else _) => destruct b end;
    try (destruct Hc; subst c; apply (bool_decide_eq_true_1 _); vm_compute; reflexivity).
  - rewrite elem_of_replicate. intros [? _]. lia.
  - destruct (Get.verbosity opts), Hc; subst c; apply (bool_decide_eq_true_1 _); vm_compute; reflexivity.
Qed.

Lemma words_sorted opts (push : bool) :
  foldl sort_arg ([], []) (build_server_options_config opts push) =
  (condensed_arg opts, common_args opts ++ (if push then push_args opts else pull_args opts)).
Proof.
  unfold build_server_options_config. rewrite foldl_app. cbn [foldl].
  assert (E : sort_arg ([], []) (condensed_arg opts) = (condensed_arg opts, [])).
  { unfold condensed_arg. pose proof (not_a_flag opts 45 ltac:(by right)) as Hm.
    destruct (condensed_flags opts) as [|c flags]; [reflexivity|]. apply not_elem_of_cons in Hm as [Hm _].
    change (str_bytes "-" ++ (c :: flags) ++ ?r) with (45 :: c :: flags ++ r). set (r := flags ++ _). clearbody r.
    unfold sort_arg. rewrite !(bool_decide_false (45 :: _ = _)); [|intros E; cbv in E; congruence..]. cbn [orb].
    unfold starts_with. change (str_bytes "--") with [45; 45]. change (str_bytes "-") with [45]. cbn [strip_prefix].
    rewrite Z.eqb_refl. destruct (Z.eqb_spec 45 c); [congruence|]. reflexivity. }
  rewrite E. by rewrite sort_long by apply all_long.
Qed.

(** ** The flags *)

Ltac flag_step set :=
  match goal with |- context [foldl short_flag (?st, ?n) (flag ?b ?s)] =>
    lazymatch st with context [foldl] => fail | _ =>
      let st' := eval cbv -[orb Get.dir_mode Get.preserve_links Get.preserve_owner Get.preserve_group Get.preserve_devices
        Get.preserve_specials Get.preserve_times Get.preserve_perms Get.recursive Get.compress Get.checksum_mode Get.update Get.dry_run
        Get.whole_file Get.one_file_system Get.sparse Get.ignore_times Get.prune_empty_dirs Get.relative Get.copy_links
        Get.keep_dirlinks Get.dirs Get.cvs_exclude Get.fuzzy Get.backup Get.preserve_hard_links Get.preserve_acls Get.preserve_xattrs]
        in (set b st) in
      replace (foldl short_flag (st, n) (flag b s)) with (st', n) by (destruct b; reflexivity)
    end
  end.

Lemma count_merges b k n : 0 <= k -> k + Z.of_nat n < 256 -> foldl short_flag (b, k) (replicate n 70) = (b, k + Z.of_nat n).
Proof.
  revert k. induction n as [|n IH]; intros k Hk Hn; [cbn; by rewrite Z.add_0_r|]. cbn [replicate foldl].
  change (short_flag (b, k) 70) with (b, Z.min 255 (k + 1)). rewrite IH by lia. f_equal. lia.
Qed.

(** What the condensed word says. *)
Definition flags_view (opts : TransferConfig) (merges : Z) : TransferConfig :=
  TransferConfig.mk PathConfig.default
    (PreservationConfig.mk (Get.preserve_times opts) (Get.preserve_perms opts) (Get.preserve_owner opts) (Get.preserve_group opts)
       (Get.preserve_links opts) (Get.preserve_hard_links opts) (Get.preserve_devices opts || Get.preserve_specials opts)
       (Get.preserve_devices opts || Get.preserve_specials opts) (Get.preserve_acls opts) (Get.preserve_xattrs opts) false [] None None)
    (FileSelectionConfig.mk (Get.checksum_mode opts) (Get.update opts) (Get.ignore_times opts) false false false None None 0 (Get.fuzzy opts))
    (FileWriteConfig.mk false (Get.whole_file opts) (Get.sparse opts) (Get.backup opts) None (str_bytes "~") false None false false false false
       (Get.keep_dirlinks opts) [] [] [])
    (FilteringConfig.mk [] [] [] [] [] (Get.cvs_exclude opts) merges)
    (TraversalConfig.mk (Get.dir_mode opts) (Get.one_file_system opts) (Get.relative opts) (Get.copy_links opts))
    (DeletionConfig.mk DelNone None (Get.prune_empty_dirs opts))
    (ProtocolConfig.mk (Get.compress opts) 6 None None)
    LimitsConfig.default
    (OutputConfig.mk (heard_verbosity (Get.verbosity opts)) false false (Get.dry_run opts) false false false)
    None None None None.

Lemma flags_parsed opts : 0 <= Get.filter_merge_files opts < 2 ^ 8 ->
  foldl short_flag (TransferConfig.default, 0) (condensed_flags opts) = (flags_view opts 0, Get.filter_merge_files opts).
Proof.
  intros Hm. unfold condensed_flags. rewrite !foldl_app. unfold TransferConfig.default at 1.
  flag_step Builder.preserve_links. flag_step Builder.preserve_owner. flag_step Builder.preserve_group.
  flag_step (fun v c => Builder.preserve_specials v (Builder.preserve_devices v c)).
  flag_step Builder.preserve_times. flag_step Builder.preserve_perms. flag_step Builder.recursive. flag_step Builder.compress.
  flag_step Builder.checksum_mode. flag_step Builder.update. flag_step Builder.dry_run. flag_step Builder.whole_file.
  flag_step Builder.one_file_system. flag_step Builder.sparse. flag_step Builder.ignore_times. flag_step Builder.prune_empty_dirs.
  flag_step Builder.relative. flag_step Builder.copy_links. flag_step Builder.keep_dirlinks.
  flag_step (fun (v : bool) c => Builder.upd TransferConfig.traversal TransferConfig.set_traversal
    (TraversalConfig.set_dir_mode (if v then DmList else TraversalConfig.dir_mode (TransferConfig.traversal c))) c).
  flag_step Builder.cvs_exclude. flag_step Builder.fuzzy. flag_step Builder.backup. flag_step Builder.preserve_hard_links.
  flag_step Builder.preserve_acls. flag_step Builder.preserve_xattrs.
  rewrite count_merges by lia. rewrite Z2Nat.id by lia. unfold flags_view.
  replace (Get.dir_mode opts) with (if Get.dirs opts then DmList else if Get.recursive opts then DmRecurse else DmSkip)
    by (unfold Get.dirs, Get.recursive; change (TraversalConfig.dir_mode (TransferConfig.traversal opts)) with (Get.dir_mode opts);
        by destruct (Get.dir_mode opts)).
  by destruct (Get.verbosity opts).
Qed.

(** ** The long options *)

Lemma numbered {key} {parse : list Z -> option Z} {set : Z -> TransferConfig -> TransferConfig} lo hi v :
  (forall b s, long_option b (valued key s) = on_some (parse s) set b) -> (forall n, lo <= n < hi -> parse (decimal n) = Some n) ->
  fits lo hi v -> forall b, foldl long_option b (long_value key (decimal <$> v)) = on_some v set b.
Proof.
  intros Hk Hp Hv b. destruct v as [n|]; [|done]. cbn [fmap option_fmap option_map long_value foldl]. by rewrite Hk, Hp by (by apply Hv).
Qed.
Lemma block_heard v b : fits (- 2 ^ 31) (2 ^ 31) v ->
  foldl long_option b (long_value "--block-size=" (decimal <$> v)) = on_some v Builder.block_size b.
Proof. intros Hv. by apply (numbered (parse := parse_i32) (- 2 ^ 31) (2 ^ 31)); [reflexivity|apply parse_i32_decimal|]. Qed.
Lemma max_delete_heard v b : fits 0 (2 ^ 64) v ->
  foldl long_option b (long_value "--max-delete=" (decimal <$> v)) = on_some v Builder.max_delete b.
Proof. intros Hv. by apply (numbered (parse := parse_u64) 0 (2 ^ 64)); [reflexivity|apply parse_u64_decimal|]. Qed.
Lemma max_size_heard v b : fits 0 (2 ^ 64) v ->
  foldl long_option b (long_value "--max-size=" (decimal <$> v)) = on_some v Builder.max_size b.
Proof. intros Hv. by apply (numbered (parse := parse_u64) 0 (2 ^ 64)); [reflexivity|apply parse_u64_decimal|]. Qed.
Lemma min_size_heard v b : fits 0 (2 ^ 64) v ->
  foldl long_option b (long_value "--min-size=" (decimal <$> v)) = on_some v Builder.min_size b.
Proof. intros Hv. by apply (numbered (parse := parse_u64) 0 (2 ^ 64)); [reflexivity|apply parse_u64_decimal|]. Qed.
Lemma window_heard opts b : 0 <= Get.modify_window opts < 2 ^ 32 -> FileSelectionConfig.modify_window (TransferConfig.file_selection b) = 0 ->
  foldl long_option b (if 0 <? Get.modify_window opts then [valued "--modify-window=" (decimal (Get.modify_window opts))] else []) =
  Builder.modify_window (Get.modify_window opts) b.
Proof.
  intros Hw Hb. destruct (Z.ltb_spec 0 (Get.modify_window opts)) as [Hp|Hp]; cbn [foldl].
  - change (long_option b (valued "--modify-window=" ?s)) with (on_some (parse_u32 s) Builder.modify_window b). by rewrite parse_u32_decimal.
  - replace (Get.modify_window opts) with 0 by lia. by destruct b as [? ? [] ? ? ? ? ? ? ?]; cbn in Hb; subst.
Qed.

Lemma split_decimal n s : 0 <= n -> split_once 58 (decimal n ++ 58 :: s) = Some (decimal n, s).
Proof.
  intros Hn. unfold decimal. rewrite (proj2 (Z.ltb_ge _ _)), digits_decimal by lia.
  pose proof (digits_are 10 ltac:(lia) 20 n) as Hd. induction (digits_in 10 20 n) as [|c l IH]; [done|]. cbn [app split_once].
  pose proof (Hd c Hn ltac:(left)). destruct (Z.eqb_spec c 58); [lia|]. rewrite IH; [done|]. intros c' _ Hc. apply Hd; [done|by right].
Qed.
Lemma chown_heard opts b : fits 0 (2 ^ 32) (Get.chown_uid opts) -> fits 0 (2 ^ 32) (Get.chown_gid opts) ->
  foldl long_option b (chown_arg opts) = on_some (Get.chown_gid opts) Builder.chown_gid (on_some (Get.chown_uid opts) Builder.chown_uid b).
Proof.
  intros Hu Hg. unfold chown_arg.
  assert (Hk : forall v, long_option b (valued "--chown=" v) = match split_once 58 v with
     | Some (uid, gid) => on_some (parse_u32 gid) Builder.chown_gid (on_some (parse_u32 uid) Builder.chown_uid b) | None => b end) by reflexivity.
  change (str_bytes ":") with [58].
  destruct (Get.chown_uid opts) as [u|] eqn:Eu, (Get.chown_gid opts) as [g|] eqn:Eg; cbn [foldl]; try done; rewrite Hk.
  - specialize (Hu u eq_refl). specialize (Hg g eq_refl). cbn [app]. rewrite split_decimal by lia. by rewrite !parse_u32_decimal.
  - specialize (Hu u eq_refl). cbn [app]. rewrite split_decimal by lia. rewrite parse_u32_decimal by done. reflexivity.
  - specialize (Hg g eq_refl). cbn [app split_once]. change (58 =? 58) with true. cbv iota. rewrite parse_u32_decimal by done. reflexivity.
Qed.

Lemma chmods_heard l b : foldl long_option b (map (valued "--chmod=") l) =
  Builder.upd TransferConfig.preservation TransferConfig.set_preservation
    (fun s => PreservationConfig.set_chmod (PreservationConfig.chmod s ++ l) s) b.
Proof.
  revert b. induction l as [|s l IH]; intros b; cbn [map foldl].
  - unfold Builder.upd. rewrite app_nil_r. by destruct b as [? [] ? ? ? ? ? ? ?].
  - rewrite IH. change (long_option b (valued "--chmod=" s)) with (Builder.chmod s b). unfold Builder.chmod, Builder.upd.
    cbn. by rewrite <- app_assoc.
Qed.
Lemma link_dests_heard l b : Forall (fun d => utf8_valid d = true) l ->
  foldl long_option b (map (fun dir => valued "--link-dest=" (display dir)) l) =
  Builder.upd TransferConfig.file_write TransferConfig.set_file_write
    (fun s => FileWriteConfig.set_link_dest (FileWriteConfig.link_dest s ++ l) s) b.
Proof.
  intros Hl. revert b. induction Hl as [|s l Hs Hl IH]; intros b; cbn [map foldl].
  - unfold Builder.upd. rewrite app_nil_r. by destruct b as [? ? ? [] ? ? ? ? ? ?].
  - rewrite IH. change (long_option b (valued "--link-dest=" ?s)) with (Builder.link_dest s b). unfold display.
    rewrite from_utf8_lossy_valid by done. unfold Builder.link_dest, Builder.upd. cbn. by rewrite <- app_assoc.
Qed.
Lemma path_heard {key set} v : (forall b s, long_option b (valued key s) = set s b) -> (forall d, v = Some d -> utf8_valid d = true) ->
  forall b, foldl long_option b (long_value key (display <$> v)) = on_some v set b.
Proof.
  intros Hk Hv b. destruct v as [d|]; [|done]. cbn [fmap option_fmap option_map long_value foldl]. rewrite Hk. unfold display.
  by rewrite from_utf8_lossy_valid by (by apply Hv).
Qed.
Lemma suffix_heard opts b : FileWriteConfig.suffix (TransferConfig.file_write b) = str_bytes "~" ->
  foldl long_option b (suffix_arg opts) = Builder.suffix (heard_suffix opts) b.
Proof.
  intros Hb. assert (Hid : Builder.suffix (str_bytes "~") b = b).
  { destruct b as [? ? ? [] ? ? ? ? ? ?]. cbn in Hb. subst. reflexivity. }
  unfold suffix_arg, heard_suffix. destruct (Get.backup_dir opts); case_bool_decide as E; cbn [foldl]; rewrite ?(bool_decide_true _ E), ?(bool_decide_false _ E), ?Hid; try done; by rewrite E, Hid.
Qed.

Ltac said set b :=
  let v := eval cbv -[orb andb when heard_suffix heard_verbosity app Get.dir_mode Get.preserve_links Get.preserve_owner Get.preserve_group
    Get.preserve_devices Get.preserve_specials Get.preserve_times Get.preserve_perms Get.recursive Get.compress Get.checksum_mode
    Get.update Get.dry_run Get.whole_file Get.one_file_system Get.sparse Get.ignore_times Get.prune_empty_dirs Get.relative Get.copy_links
    Get.keep_dirlinks Get.dirs Get.cvs_exclude Get.fuzzy Get.backup Get.preserve_hard_links Get.preserve_acls Get.preserve_xattrs
    Get.inplace Get.numeric_ids Get.append Get.append_verify Get.safe_links Get.remove_source_files Get.block_size Get.chmod Get.chown_uid
    Get.chown_gid Get.backup_dir Get.suffix Get.list_only Get.fake_super Get.iconv Get.size_only Get.existing Get.ignore_existing
    Get.max_delete Get.modify_window Get.partial Get.partial_dir Get.delete Get.link_dest Get.max_size Get.min_size Get.verbosity
    Get.filter_merge_files] in (set b) in constr:(v).
(** The next option is a word, or a field that was given or not. *)
Ltac long_step set :=
  match goal with |- context [foldl long_option ?st (long ?b ?s)] =>
    lazymatch st with context [foldl] => fail | _ =>
      let st' := said (set b) st in replace (foldl long_option st (long b s)) with st' by (destruct b; reflexivity) end
  end.
Ltac some_step set :=
  match goal with |- context [on_some ?v ?f ?st] =>
    lazymatch st with context [on_some] => fail | _ =>
      let st' := said (set v) st in replace (on_some v f st) with st' by (destruct v; reflexivity) end
  end.
Ltac settle := match goal with |- context [Builder.upd ?g ?s ?f ?st] => let st' := said (Builder.upd g s f) st in change (Builder.upd g s f st) with st' end.

Lemma append_heard opts b : FileWriteConfig.append (TransferConfig.file_write b) = false ->
  foldl long_option b (append_args opts) = Builder.append (Get.append opts || Get.append_verify opts) b.
Proof.
  intros Hb. unfold append_args. destruct (Get.append_verify opts); [by destruct (Get.append opts)|].
  destruct (Get.append opts); [done|]. by destruct b as [? ? ? [] ? ? ? ? ? ?]; cbn in Hb; subst.
Qed.
Lemma iconv_heard opts b : foldl long_option b (long_value "--iconv=" (Get.iconv opts)) = on_some (Get.iconv opts) Builder.iconv b.
Proof. by destruct (Get.iconv opts). Qed.
Lemma delete_heard opts b : DeletionConfig.mode (TransferConfig.deletion b) = DelNone ->
  foldl long_option b (delete_arg (Get.delete opts)) = Builder.delete (Get.delete opts) b.
Proof. intros Hb. destruct (Get.delete opts); try done. by destruct b as [? ? ? ? ? ? [] ? ? ?]; cbn in Hb; subst. Qed.

Ltac call f := match goal with |- context [f ?v ?st] => let st' := said (f v) st in change (f v st) with st' end.
Abbreviation pres := (Builder.upd TransferConfig.preservation TransferConfig.set_preservation).
Abbreviation sel := (Builder.upd TransferConfig.file_selection TransferConfig.set_file_selection).
Abbreviation fwr := (Builder.upd TransferConfig.file_write TransferConfig.set_file_write).
Abbreviation del := (Builder.upd TransferConfig.deletion TransferConfig.set_deletion).
Abbreviation lim := (Builder.upd TransferConfig.limits TransferConfig.set_limits).

Lemma options_heard opts (push : bool) : options_typed opts ->
  foldl long_option (flags_view opts (Get.filter_merge_files opts)) (common_args opts ++ (if push then push_args opts else pull_args opts)) =
  server_view opts push PathConfig.default.
Proof.
  intros Ht. rewrite foldl_app. unfold common_args. rewrite !foldl_app. unfold flags_view.
  long_step Builder.inplace. long_step Builder.numeric_ids.
  rewrite append_heard by reflexivity. call Builder.append.
  long_step Builder.safe_links. long_step Builder.remove_source_files.
  rewrite block_heard by apply Ht. some_step (fun v => lim (LimitsConfig.set_block_size v)).
  rewrite chmods_heard. settle. rewrite chown_heard by apply Ht.
  some_step (fun v => pres (PreservationConfig.set_chown_uid v)). some_step (fun v => pres (PreservationConfig.set_chown_gid v)).
  rewrite (path_heard (key := "--backup-dir=") (set := Builder.backup_dir)) by (reflexivity || apply Ht).
  some_step (fun v => fwr (FileWriteConfig.set_backup_dir v)).
  rewrite suffix_heard by reflexivity. call Builder.suffix.
  long_step Builder.list_only. long_step Builder.fake_super.
  rewrite iconv_heard. some_step TransferConfig.set_iconv.
  destruct push; unfold push_args, pull_args; rewrite !foldl_app.
  - long_step Builder.size_only. long_step Builder.existing. long_step Builder.ignore_existing.
    rewrite max_delete_heard by apply Ht. some_step (fun v => del (DeletionConfig.set_max_delete v)).
    rewrite window_heard by (apply Ht || reflexivity). call Builder.modify_window. long_step Builder.partial.
    rewrite (path_heard (key := "--partial-dir=") (set := Builder.partial_dir)) by (reflexivity || apply Ht).
    some_step (fun v => fwr (FileWriteConfig.set_partial_dir v)).
    rewrite delete_heard by reflexivity. call Builder.delete.
    rewrite link_dests_heard by apply Ht. settle. reflexivity.
  - rewrite max_size_heard by apply Ht. some_step (fun v => sel (FileSelectionConfig.set_max_size v)).
    rewrite min_size_heard by apply Ht. some_step (fun v => sel (FileSelectionConfig.set_min_size v)). reflexivity.
Qed.

(** The server is told the client's options.  What [parse_server_args]
    makes of the arguments [build_server_options] wrote for any well-typed
    configuration, pushing or pulling, is exactly the configuration
    [server_view] lists field by field: every option the wire carries with the
    client's value, the default for every other, the module's path as source
    or destination. *)
Theorem server_args_roundtrip (opts : TransferConfig) (push sends : bool) (module_path : list Z) :
  options_typed opts ->
  parse_server_args_config (build_server_options_config opts push) module_path sends =
  Ok (server_view opts push (if sends then PathConfig.mk [module_path] None else PathConfig.mk [] (Some module_path))).
Proof.
  intros Ht. unfold parse_server_args_config. rewrite words_sorted.
  assert (Ef : flags_part (condensed_arg opts) = Ok (condensed_flags opts)).
  { unfold condensed_arg. change (str_bytes "-" ++ ?l) with (45 :: l). unfold flags_part. cbn [Z.eqb Pos.eqb].
    by rewrite before_e_app by (apply not_a_flag; by left). }
  rewrite Ef. cbn [mbind res_bind]. rewrite flags_parsed by apply Ht. cbv beta iota.
  replace (if 0 <? Get.filter_merge_files opts then Builder.filter_merge_files (Get.filter_merge_files opts) (flags_view opts 0) else flags_view opts 0)
    with (flags_view opts (Get.filter_merge_files opts)).
  - rewrite options_heard by done. by destruct sends.
  - pose proof (ot_merge _ Ht). destruct (Z.ltb_spec 0 (Get.filter_merge_files opts)); [done|].
    by replace (Get.filter_merge_files opts) with 0 by lia.
Qed.
Definition sample_options : TransferConfig :=
  Builder.build (Builder.max_delete 7 (Builder.backup_dir (str_bytes "/b") (Builder.chown_gid 100 (Builder.verbosity VDebug
    (Builder.delete DelAfter (Builder.filter_merge_files 2 (Builder.link_dest (str_bytes "../x") (Builder.archive TransferConfig.default)))))))).
Lemma sample_typed : options_typed sample_options.
Proof.
  split; try (intros v; cbn; intros [=]; subst; vm_compute; split; congruence); try (vm_compute; split; congruence);
    try (intros v [=]; subst; vm_compute; reflexivity). repeat constructor.
Qed.
Lemma server_args_roundtrip_witness :
  parse_server_args_config (build_server_options_config sample_options true) (str_bytes "/m") false =
  Ok (server_view sample_options true (PathConfig.mk [] (Some (str_bytes "/m")))).
Proof. exact (server_args_roundtrip sample_options true false (str_bytes "/m") sample_typed). Defined.

(** ** What is lost on the way *)

(** [--append-verify] arrives as [--append], without the verification. *)
Lemma append_verify_arrives_as_append :
  let opts := Builder.append_verify true TransferConfig.default in
  exists told, parse_server_args_config (build_server_options_config opts true) [] false = Ok told /\
    Get.append_verify opts = true /\ Get.append_verify told = false /\ Get.append told = true.
Proof. eexists. split; [vm_compute; reflexivity|]. by vm_compute. Qed.
(** An empty suffix beside a backup directory arrives as the default one. *)
Lemma empty_suffix_is_lost :
  let opts := Builder.suffix [] (Builder.backup_dir (str_bytes "/b") TransferConfig.default) in
  exists told, parse_server_args_config (build_server_options_config opts true) [] false = Ok told /\
    Get.suffix opts = [] /\ Get.suffix told = str_bytes "~".
Proof. eexists. split; [vm_compute; reflexivity|]. by vm_compute. Qed.
(** Arguments without a condensed word make the server panic. *)
Lemma no_flags_panics module_path sends :
  parse_server_args_config [str_bytes "--server"; str_bytes "--delete-after"; str_bytes "."] module_path sends = Panic.
Proof. reflexivity. Qed.
