(* ===== verification/Session.v ===== *)
(** [ferrosync-engine/src/session.rs]: what a client does on an open connection,
    from the filter list to the goodbye, pushing and pulling.

    A session works on a [Peer] ([WireTransfer.v]); it returns the lines that
    [--list-only] prints.  The two tasks of the pipelined receiver take turns as
    a schedule says. *)
From S2P Require Import Prelude Wire Types Text Utf8 Varint WireFormat Handshake Checksum Compress Token Proc Incremental Exchange Filter Scanner Listing Options Fs Progress FileDecision Delete ReceiverEngine Transfer LocalTransfer WireTransfer WireSystem.

(** ** Names from the wire *)

Definition sanitize_path (dest name : list Z) : failure + list Z :=
  let denied := inl (EFs (PermissionDenied name)) in
  if is_absolute name then denied
  else if existsb (fun c => bool_decide (c = [46; 46])) (components name) then denied
  else inr (path_join dest name).

(** ** The filter list *)

Definition rule_bytes (rule : list Z) : list Z := le_bytes 4 (as_u32 (Z.of_nat (length rule))) ++ rule.
Definition collect_filter_list (options : TransferConfig) : list Z :=
  let delete_excluded := bool_decide (Get.delete options = DelExcluded) in
  concat (map rule_bytes (Get.filter options)) ++
  (if negb delete_excluded then
     concat (map (fun pattern => rule_bytes (str_bytes "+ " ++ pattern)) (Get.include options)) ++
     concat (map (fun pattern => rule_bytes (str_bytes "- " ++ pattern)) (Get.exclude options))
   else []) ++
  le_bytes 4 0.
(** When a push sends it. *)
Definition send_filter_list (options : TransferConfig) : bool :=
  negb (bool_decide (Get.delete options = DelNone)) || Get.prune_empty_dirs options.

(** The options the file-list codec asks for. *)
Definition codec_config (opts : TransferConfig) : CodecConfig :=
  mkCodecConfig (Get.preserve_owner opts) (Get.preserve_group opts) (Get.preserve_devices opts) (Get.preserve_specials opts)
    (Get.preserve_links opts) (Get.preserve_hard_links opts) (Get.checksum_mode opts) (Get.numeric_ids opts) (Get.preserve_acls opts)
    (Get.preserve_xattrs opts) (Get.recursive opts).

Definition entries_total (entries : list FileEntry) : Z := foldl (fun n e => as_i64 (n + len e)) 0 entries.

Section session.
  Context (H : HashLib) (B : Backends) (fuel : nat) (protocol : NegotiatedProtocol).
  Context {S : Type} (F : FsOps S) (open_append : list Z -> act FsError S (Writer F)).

Definition on_fs {A} (f : S -> failure + A) : wire_act S A := fun x => (f (pr_fs x), x).
Definition announce (entries : list FileEntry) : wire_act S unit :=
  let n := Z.of_nat (length entries) in
  _ ← update (peer_stats (count_total n));
  update (fun x => mkPeer (pr_fs x) (pr_in x) (pr_out x) (pr_success x) (pr_stats x)
                     (set_totals n (as_u64 (entries_total entries)) (pr_progress x))).

(** An exchange of goodbyes, over the streams. *)
Fixpoint converse {A} (m : io A) : wire_act S A :=
  match m with
  | IoDone r => of_result r
  | IoRead r k => fun x =>
      match r (pr_in x) with
      | Ok (a, rest) => converse (k (Ok a)) (peer_in rest x)
      | Err e => converse (k (Err e)) x
      | Panic => (inl EPanic, x)
      end
  | IoWrite (Ok tt, bs) k => fun x => converse (k (Ok tt)) (peer_put bs x)
  | IoWrite (Err e, bs) k => fun x => converse (k (Err e)) (peer_put bs x)
  | IoWrite (Panic, _) k => fun x => (inl EPanic, x)
  end.

(** ** The sources of a push *)

Definition build_source_entries (options : TransferConfig) (scan_fuel : nat) (s : S) : failure + list FileEntry :=
  let fs := view F s in
  filters ← option_filters options fs;
  match Get.files_from options with
  | Some files_from =>
      items ← lift_err EFs (build_file_list_from_file fs (Get.source options) files_from filters);
      mret (map it_entry items)
  | None =>
      let scan_opts := mkScanOptions (if Get.recursive options then DmRecurse else DmList) false (Get.copy_links options)
        (Get.relative options) (Get.filter_merge_files options) false in
      let enrichers := (if negb (Get.copy_links options) then [SymlinkEnricher fs] else []) ++
        (if Get.preserve_acls options then [AclEnricher fs] else []) ++
        (if Get.preserve_xattrs options then [XattrEnricher fs] else []) in
      match scan_entries fs scan_opts enrichers scan_fuel (Get.source options) filters with
      | Done q => mret q.1
      | Failed e => inl (EFs e)
      | Deep => inl EDeep
      end
  end.

Definition within_limits (options : TransferConfig) (entries : list FileEntry) : list FileEntry :=
  match Get.max_size options, Get.min_size options with
  | None, None => entries
  | _, _ => List.filter (fun e => negb (check_size_limits e options)) entries
  end.

(** [--remove-source-files]: an error is a warning. *)
Definition remove_sources (options : TransferConfig) (entries : list FileEntry) (s : S) : S :=
  if Get.remove_source_files options && negb (Get.dry_run options) then
    let base := match Get.source options with p :: _ => p | [] => [] end in
    foldl (fun s (entry : FileEntry) =>
      if FileEntry.is_file entry then
        let name := if utf8_valid (name entry) then name entry else [] in
        (remove_file F (path_join base name) s).2
      else s) s entries
  else s.

(** ** Push *)

Definition run_push (options : TransferConfig) (scan_fuel : nat) : wire_act S (list (list Z)) :=
  _ ← (if send_filter_list options then put (write_all (collect_filter_list options)) else mret tt);
  entries ← on_fs (build_source_entries options scan_fuel);
  let entries := within_limits options entries in
  _ ← announce entries;
  let entries := sort_file_list entries in
  q ← put (send_file_list entries protocol (codec_config options));
  if Get.list_only options then
    _ ← converse (sender_goodbye write_all (wire protocol));
    mret (map format_list_entry entries)
  else
    _ ← sender_loop H B fuel protocol (Get.block_size options) (LocalFileReader F (Get.source options)) entries (build_ndx_map q.1)
          (Get.dry_run options) (Get.append options || Get.append_verify options) q.2;
    _ ← update (fun x => peer_fs (remove_sources options entries (pr_fs x)) x);
    _ ← converse (sender_goodbye write_all (wire protocol));
    mret [].

(** ** The pipelined receiver *)

(** The two tasks and the channel between them; the error that ended the
    generator. *)
Record Pipeline := mkPipeline {
  pl_todo : list (nat * Z * FileEntry);
  pl_gen : NdxState;
  pl_over : bool;
  pl_failed : option failure;
  pl_channel : list GeneratorItem;
  pl_recv : ReceiverState;
}.

Section receiving.
  Context (block_size : option Z) (rx : Receiver) (entries : list FileEntry) (entry_ndx : list Z).

Definition generator_turn (p : Pipeline) : wire_act S Pipeline :=
  match pl_todo p with
  | [] => mret (mkPipeline [] (pl_gen p) true None (pl_channel p ++ [ItemDone]) (pl_recv p))
  | e :: todo => fun x =>
      match generator_round H protocol block_size F rx e (pl_gen p) x with
      | (inr (gen, item), x) =>
          (inr (mkPipeline todo gen false None (pl_channel p ++ match item with Some i => [i] | None => [] end) (pl_recv p)), x)
      | (inl e, x) => (inr (mkPipeline todo (pl_gen p) true (Some e) (pl_channel p) (pl_recv p)), x)
      end
  end.
Definition generator_may (p : Pipeline) : bool := negb (pl_over p) && (length (pl_channel p) <=? CHANNEL_CAPACITY)%nat.

(** One turn of either task; in the end what the receiver has, and how the
    generator ended. *)
Definition pipeline_turn (generator_first : bool) (p : Pipeline) : wire_act S (Pipeline + (ReceiverState * option failure)) :=
  match pl_channel p with
  | item :: channel =>
      if generator_first && generator_may p then p ← generator_turn p; mret (inl p)
      else
        r ← receiver_round H B fuel protocol block_size F open_append rx entries entry_ndx item (pl_recv p);
        match r with
        | inl st => mret (inl (mkPipeline (pl_todo p) (pl_gen p) (pl_over p) (pl_failed p) channel st))
        | inr st => mret (inr (st, pl_failed p))
        end
  | [] =>
      if pl_over p then mret (inr (pl_recv p, pl_failed p))
      else p ← generator_turn p; mret (inl p)
  end.
Definition turns_left (p : Pipeline) : nat := 2 * length (pl_todo p) + (if pl_over p then 0 else 2) + length (pl_channel p).
Fixpoint pipeline_turns (n : nat) (schedule : list bool) (p : Pipeline) : wire_act S (ReceiverState * option failure) :=
  match n with
  | O => of_sum (inl EDeep)
  | Datatypes.S n' =>
      r ← pipeline_turn (hd true schedule) p;
      match r with inl p => pipeline_turns n' (tl schedule) p | inr q => mret q end
  end.

(** [handle.await.map_err(..)??] *)
Definition generator_outcome (failed : option failure) : wire_act S unit :=
  match failed with
  | None => mret tt
  | Some EPanic => of_sum (inl (EProtocol (Handshake "generator task panicked")))
  | Some e => of_sum (inl e)
  end.

Definition receiver_loop_pipelined (schedule : list bool) : wire_act S unit :=
  todo ← of_result (gen_entries entries entry_ndx);
  let p := mkPipeline todo NdxState_default false None [] receiver_start in
  q ← pipeline_turns (Datatypes.S (turns_left p)) schedule p;
  _ ← generator_outcome q.2;
  receiver_finish F rx entries q.1.
End receiving.

(** ** Pull *)

Definition check_name (dest : list Z) (so_far : failure + unit) (entry : FileEntry) : failure + unit :=
  _ ← so_far; _ ← sanitize_path dest (from_utf8_lossy (name entry)); mret tt.
Definition check_names (dest : list Z) (entries : list FileEntry) : failure + unit := foldl (check_name dest) (inr tt) entries.

Definition delete_pass (options : TransferConfig) (deleter : Deleter) (dest : list Z) (entries : list FileEntry) (budget : Z) : wire_act S Z :=
  fun x =>
    let '(n, (budget, s)) := delete_extraneous F deleter dest entries budget (pr_fs x) in
    (inr budget, peer_stats (set_deleted n) (peer_fs s x)).
Definition prune_pass (options : TransferConfig) (prune_fuel : nat) (dest : list Z) : wire_act S unit := fun x =>
  match prune_empty_dirs F prune_fuel dest (Get.dry_run options) (pr_fs x) with
  | Some (n, s) => (inr tt, peer_stats (count_deleted n) (peer_fs s x))
  | None => (inl EDeep, x)
  end.

(** What a dry run counts for an entry. *)
Definition count_entry (e : nat * FileEntry) : wire_act S unit :=
  let '(idx, entry) := e in
  if FileEntry.is_dir entry then update (peer_stats count_directory)
  else if FileEntry.is_file entry then
    _ ← update (peer_stats (fun t => count_size (as_u64 (len entry)) (count_transferred 1 t)));
    update (peer_emit (FileComplete (as_i32 (Z.of_nat idx)) (name entry) (as_u64 (len entry)) 0))
  else mret tt.

(** What happens to the destination, shared by a pull and by the replay of a
    batch file. *)
Definition receive_entries (options : TransferConfig) (schedule : list bool) (prune_fuel : nat) (dest : list Z)
    (entries : list FileEntry) (entry_ndx : list Z) : wire_act S unit :=
  filters ← on_fs (fun s => option_filters options (view F s));
  let deleter := mkDeleter filters (Get.dry_run options) (bool_decide (Get.delete options = DelExcluded)) in
  let budget := DeleteBudget_new (Get.max_delete options) in
  budget ← (if bool_decide (Get.delete options ∈ [DelBefore; DelDuring; DelExcluded])
            then delete_pass options deleter dest entries budget else mret budget);
  _ ← (if Get.dry_run options then for_each count_entry (imap pair entries)
       else receiver_loop_pipelined (Get.block_size options) (Receiver_new dest options) entries entry_ndx schedule);
  _ ← (if bool_decide (Get.delete options = DelAfter)
       then delete_pass options deleter dest entries budget else mret budget);
  if Get.prune_empty_dirs options then prune_pass options prune_fuel dest else mret tt.

Definition run_pull (options : TransferConfig) (schedule : list bool) (prune_fuel : nat) : wire_act S (list (list Z)) :=
  _ ← put (write_all (collect_filter_list options));
  received ← get (recv_file_list protocol (codec_config options));
  let entries := rl_entries received in
  let finish : wire_act S unit :=
    _ ← receiver_phase_exchange protocol (Z.of_nat (rl_num_flists received));
    _ ← get (read_stats (wire protocol));
    converse (receiver_goodbye write_all (wire protocol)) in
  _ ← announce entries;
  dest ← of_sum (match Get.dest options with Some d => inr d | None => inl (EFs (NotFound (str_bytes "<no destination>"))) end);
  _ ← of_sum (check_names dest entries);
  if Get.list_only options then _ ← finish; mret (map format_list_entry entries)
  else
    _ ← receive_entries options schedule prune_fuel dest entries (rl_entry_ndx received);
    _ ← finish;
    mret [].
End session.
