(* ===== verification/SessionSpec.v ===== *)
(** What a session lets through: names that lead out of the destination are
    refused, although the check looks at the lossy text of a name and the
    receiver uses its bytes. *)
From S2P Require Import Prelude Wire Types Text Utf8 Posix PosixFacts UnixFs UnixSpec Varint WireFormat Handshake Checksum Compress Token Proc Incremental Exchange Filter Scanner Listing Options Fs Progress FileDecision Delete ReceiverEngine Transfer LocalTransfer WireTransfer WireSpec WireSystem Session.

(** ** The lossy text of a path *)

Lemma second_slash b : second_ok b 47 = false.
Proof. unfold second_ok. by repeat case_match. Qed.
(** A slash ends every sequence before it. *)
Lemma utf8_step_slash b a r : utf8_step b (a ++ 47 :: r) = utf8_step b a.
Proof.
  unfold utf8_step. destruct (utf8_width b) as [|[|[|[|[|n]]]]]; try done; destruct a as [|a0 [|a1 [|a2 a]]]; cbn [app];
    rewrite ?second_slash; try done; repeat case_match; done.
Qed.
Lemma utf8_step_bounds b l : (1 <= (utf8_step b l).1 <= Datatypes.S (length l))%nat.
Proof. unfold utf8_step. repeat case_match; cbn [fst length]; lia. Qed.

Lemma lossy_fuel f l : (length l <= f)%nat -> lossy_aux f l = from_utf8_lossy l.
Proof.
  unfold from_utf8_lossy. revert l. induction f as [f IH] using lt_wf_ind. intros [|b l] Hf; [by destruct f|].
  destruct f as [|f]; cbn [length] in Hf; [lia|]. cbn [lossy_aux length]. pose proof (utf8_step_bounds b l) as Hb.
  destruct (utf8_step b l) as [n ok]. cbn [fst] in Hb. f_equal.
  assert (Hl : (length (drop n (b :: l)) <= length l)%nat) by (rewrite length_drop; cbn [length]; lia).
  rewrite (IH f) by lia. destruct (decide (length l < Datatypes.S f)%nat); [|lia]. by rewrite (IH (length l)) by lia.
Qed.
Lemma lossy_cons b l : from_utf8_lossy (b :: l) =
  (if (utf8_step b l).2 then take (utf8_step b l).1 (b :: l) else REPLACEMENT) ++ from_utf8_lossy (drop (utf8_step b l).1 (b :: l)).
Proof.
  unfold from_utf8_lossy at 1. cbn [lossy_aux length]. pose proof (utf8_step_bounds b l) as Hb.
  destruct (utf8_step b l) as [n ok]. cbn [fst snd] in *. f_equal. apply lossy_fuel. rewrite length_drop. cbn [length]. lia.
Qed.

Lemma lossy_slash a r : from_utf8_lossy (a ++ 47 :: r) = from_utf8_lossy a ++ 47 :: from_utf8_lossy r.
Proof.
  induction a as [a IH] using (induction_ltof1 _ length). destruct a as [|b a].
  { cbn [app]. rewrite lossy_cons. reflexivity. }
  cbn [app]. rewrite !lossy_cons, utf8_step_slash. pose proof (utf8_step_bounds b a) as Hb. destruct (utf8_step b a) as [n ok].
  cbn [fst snd] in *. change (b :: a ++ 47 :: r) with ((b :: a) ++ 47 :: r).
  rewrite take_app_le, drop_app_le by (cbn [length]; lia). rewrite IH, <- app_assoc; [done|].
  unfold ltof. rewrite length_drop. cbn [length]. lia.
Qed.
Lemma lossy_noslash l : 47 ∉ l -> 47 ∉ from_utf8_lossy l.
Proof.
  induction l as [l IH] using (induction_ltof1 _ length). destruct l as [|b l]; [done|]. intros Hl. rewrite lossy_cons.
  pose proof (utf8_step_bounds b l) as Hb. destruct (utf8_step b l) as [n ok]. cbn [fst snd] in *.
  rewrite not_elem_of_app. split.
  - destruct ok; [|by apply (bool_decide_eq_true_1 _)]. intros Hin. apply Hl. by eapply elem_of_take in Hin as (i & Hi%list_elem_of_lookup_2 & _).
  - apply IH; [unfold ltof; rewrite length_drop; cbn [length]; lia|]. intros Hin. apply Hl.
    rewrite <- (take_drop n (b :: l)), elem_of_app. by right.
Qed.

Lemma split_noslash comp l : 47 ∉ l -> split_slash comp l = [comp ++ l].
Proof.
  revert comp. induction l as [|b l IH]; intros comp Hl; cbn [split_slash]; [by rewrite app_nil_r|].
  apply not_elem_of_cons in Hl as [H1 H2]. destruct (Z.eqb_spec b 47); [congruence|]. rewrite IH by done. by rewrite <- app_assoc.
Qed.
Lemma first_slash (l : list Z) : 47 ∉ l \/ exists a r, l = a ++ 47 :: r /\ 47 ∉ a.
Proof.
  destruct (decide (47 ∈ l)) as [H|H]; [right|by left]. induction l as [|b l IH]; [by apply elem_of_nil in H|].
  destruct (decide (b = 47)) as [->|Hb]; [exists [], l; split; [done|apply not_elem_of_nil]|].
  apply elem_of_cons in H as [H|H]; [congruence|]. destruct (IH H) as (a & r & -> & Ha). exists (b :: a), r. split; [done|].
  apply not_elem_of_cons. split; [congruence|done].
Qed.
(** The components of the text are the texts of the components. *)
Lemma split_lossy l : split_slash [] (from_utf8_lossy l) = map from_utf8_lossy (split_slash [] l).
Proof.
  induction l as [l IH] using (induction_ltof1 _ length). destruct (first_slash l) as [Hl|(a & r & -> & Ha)].
  { by rewrite !split_noslash by (done || by apply lossy_noslash). }
  rewrite lossy_slash, !split_slash_app, map_app, !(split_noslash [] a), (split_noslash [] (from_utf8_lossy a)) by (done || by apply lossy_noslash).
  cbn [map app]. rewrite IH; [done|]. unfold ltof. rewrite length_app. cbn [length]. lia.
Qed.

(** ** Names that pass *)

Lemma components_parent p : [46; 46] ∈ split_slash [] p -> [46; 46] ∈ components p.
Proof.
  unfold components. intros H. assert (Hk : forall l, [46; 46] ∈ l -> [46; 46] ∈ base.filter (fun c : list Z => c <> [] /\ c <> [46]) l)
    by (intros l Hl; apply list_elem_of_filter; done).
  destruct (split_slash [] p) as [|c cs]; [by apply elem_of_nil in H|]. case_bool_decide as E; [|by apply Hk].
  right. apply Hk. apply elem_of_cons in H as [H|H]; [congruence|done].
Qed.
Lemma sanitized dest n p : sanitize_path dest (from_utf8_lossy n) = inr p -> is_absolute n = false /\ [46; 46] ∉ split_slash [] n.
Proof.
  unfold sanitize_path. destruct (is_absolute (from_utf8_lossy n)) eqn:Ea; [done|].
  destruct (existsb _ _) eqn:Ec; [done|]. intros _. split.
  - destruct (is_absolute n) eqn:E; [|done]. exfalso. destruct n as [|b n]; [done|]. rewrite is_absolute_cons in E.
    apply Z.eqb_eq in E. subst b. change (47 :: n) with ([] ++ 47 :: n) in Ea. rewrite lossy_slash in Ea. discriminate Ea.
  - intros Hin. assert (Hx : existsb (fun c : list Z => bool_decide (c = [46; 46])) (components (from_utf8_lossy n)) = true); [|congruence].
    apply existsb_exists. exists [46; 46]. split; [|by rewrite bool_decide_true]. apply list_elem_of_In, components_parent.
    rewrite split_lossy. apply list_elem_of_In, in_map_iff. exists [46; 46]. split; [done|by apply list_elem_of_In].
Qed.

(** The name lies below the destination, wherever that lies. *)
Definition stays_inside (dest n : list Z) : Prop :=
  ([46; 46] ∉ names_of n) /\ forall t, lies_at t (path_join dest n) = lies_at t dest ++ names_of n.
Lemma names_join dest n : is_absolute n = false -> names_of (path_join dest n) = names_of dest ++ names_of n.
Proof.
  intros Hn. unfold path_join. unfold is_absolute in Hn. rewrite Hn. destruct (last dest) as [c|] eqn:E; [|by apply last_None in E; subst].
  apply last_Some in E as (d & ->). unfold names_of. destruct (Z.eqb_spec c 47) as [->|_].
  - rewrite <- app_assoc. cbn [app]. rewrite !split_slash_app, !filter_app. cbn [split_slash].
    assert (E : base.filter named [[]] = []) by (apply (bool_decide_eq_true_1 _); vm_compute; reflexivity). by rewrite E, app_nil_r.
  - by rewrite split_slash_app, filter_app.
Qed.
Lemma absolute_join dest n : is_absolute n = false -> dest <> [] -> is_absolute (path_join dest n) = is_absolute dest.
Proof.
  intros Hn Hd. unfold path_join. unfold is_absolute in Hn. rewrite Hn. destruct dest as [|b dest]; [done|].
  destruct (last (b :: dest)) as [c|] eqn:E; [|by apply last_None in E]. destruct (c =? 47); cbn [app]; by rewrite !is_absolute_cons.
Qed.
Lemma sanitized_inside dest n p : sanitize_path dest (from_utf8_lossy n) = inr p -> stays_inside dest n.
Proof.
  intros [Ha Hp]%sanitized. split.
  - intros [_ H]%list_elem_of_filter. done.
  - intros t. unfold lies_at, origin. rewrite names_join, app_assoc by done. do 2 f_equal.
    destruct (decide (dest = [])) as [->|Hd]; [|by rewrite absolute_join].
    unfold path_join. unfold is_absolute in *. rewrite Ha. cbn [last]. by rewrite Ha.
Qed.

(** ** Before the names are checked *)

(** Leaves the file system alone. *)
Definition calm {S A} (m : wire_act S A) : Prop := forall x, pr_fs (m x).2 = pr_fs x.
Lemma calm_bind {S A A'} (m : wire_act S A) (f : A -> wire_act S A') : calm m -> (forall a, calm (f a)) -> calm (m ≫= f).
Proof.
  intros Hm Hf x. unfold mbind, act_bind. specialize (Hm x). destruct (m x) as [[e|a] x1]; cbn [snd] in *; [done|]. by rewrite Hf.
Qed.
Lemma calm_get {S A} (r : rd A) : calm (S := S) (get r).
Proof. intros x. unfold get. by destruct (r (pr_in x)) as [[a rest]| |]. Qed.
Lemma calm_put {S A} (w : wr A) : calm (S := S) (put w).
Proof. intros x. unfold put. by destruct w as [[a| |] bs]. Qed.
Lemma calm_sum {S A} (r : failure + A) : calm (S := S) (of_sum r).
Proof. by intros x. Qed.
Lemma calm_announce {S} entries : calm (S := S) (announce entries).
Proof. by intros x. Qed.

(** A step that leaves the file system alone, and ends there or goes on. *)
Lemma calm_then {S A A'} (m : wire_act S A) (f : A -> wire_act S A') x : calm m ->
  ((exists e, ((m ≫= f) x).1 = inl e) /\ pr_fs ((m ≫= f) x).2 = pr_fs x) \/
  exists a x1, m x = (inr a, x1) /\ pr_fs x1 = pr_fs x /\ (m ≫= f) x = f a x1.
Proof.
  intros Hm. specialize (Hm x). unfold mbind, act_bind. destruct (m x) as [[e|a] x1]; cbn [fst snd] in *; [left; eauto|right; eauto].
Qed.

Lemma check_names_safe {dest} entries : check_names dest entries = inr tt -> Forall (fun e => stays_inside dest (name e)) entries.
Proof.
  assert (Hl : forall es f, foldl (check_name dest) (inl f) es = inl f) by (by intros es f; induction es).
  unfold check_names. generalize (inr tt : failure + unit) at 1. induction entries as [|e entries IH]; intros r; cbn [foldl]; [constructor|].
  intros E. constructor; [|by eapply IH]. unfold check_name in E at 2.
  destruct r as [f|[]]; cbn [mbind sum_bind] in E; [by rewrite Hl in E|].
  destruct (sanitize_path dest (from_utf8_lossy (name e))) as [f|p] eqn:Es; cbn [mbind sum_bind] in E; [by rewrite Hl in E|].
  by apply sanitized_inside in Es.
Qed.

(** The next step of a run. *)
Ltac calm_step lem pat :=
  match goal with |- context [mbind ?f ?m ?x] => destruct (calm_then m f x lem) as pat end.

(** A pull writes only inside the destination.  Whatever bytes the other
    side sends, the session fails without having touched the file system, or
    it received a list in which no name climbs: the place of every entry lies
    below the destination, in every tree.  The names are checked as text with
    replacement characters, and used as bytes. *)
Theorem pull_stays_inside (H : HashLib) (B : Backends) (fuel : nat) (protocol : NegotiatedProtocol) {S : Type} (F : FsOps S)
    (open_append : list Z -> act FsError S (Writer F)) (options : TransferConfig) (schedule : list bool) (prune_fuel : nat) (x : Peer S) :
  let run := run_pull H B fuel protocol F open_append options schedule prune_fuel x in
  (exists e, run.1 = inl e) /\ pr_fs run.2 = pr_fs x \/
  exists received rest dest, recv_file_list protocol (codec_config options) (pr_in x) = Ok (received, rest) /\
    Get.dest options = Some dest /\
    Forall (fun e => ([46; 46] ∉ names_of (name e)) /\
      forall t, lies_at t (ReceiverEngine.dest_path (Receiver_new dest options) e) = lies_at t dest ++ names_of (name e)) (rl_entries received).
Proof.
  cbv zeta. unfold run_pull.
  calm_step (calm_put (S := S) (Wire.write_all (collect_filter_list options))) ipattern:([Hf|([] & x1 & E1 & F1 & ->)]); [by left|].
  assert (Hi : pr_in x1 = pr_in x) by (by injection E1 as <-).
  calm_step (calm_get (S := S) (recv_file_list protocol (codec_config options))) ipattern:([Hf|(received & x2 & E2 & F2 & ->)]);
    [left; by rewrite <- F1|].
  assert (Hr : exists rest, recv_file_list protocol (codec_config options) (pr_in x) = Ok (received, rest)).
  { unfold get in E2. rewrite Hi in E2. destruct (recv_file_list _ _ _) as [[a rest]| |]; [|done..]. injection E2 as -> _. eauto. }
  destruct Hr as [rest Hr]. rewrite <- F1, <- F2. clear E1 E2 F1 F2 Hi. cbv zeta.
  calm_step (calm_announce (S := S) (rl_entries received)) ipattern:([Hf|([] & x3 & _ & F3 & ->)]); [by left|].
  rewrite <- F3. clear F3. destruct (Get.dest options) as [dest|] eqn:Ed; [|left; by split; [eexists|]].
  calm_step (calm_sum (S := S) (inr dest)) ipattern:([Hf|(d & x4 & E4 & F4 & ->)]); [by left|].
  injection E4 as <- <-. clear F4.
  calm_step (calm_sum (S := S) (check_names dest (rl_entries received))) ipattern:([Hf|([] & x5 & E5 & F5 & ->)]); [by left|].
  right. exists received, rest, dest. split_and!; [done..|]. injection E5 as E5 _. exact (check_names_safe _ E5).
Qed.
