(* ===== verification/Auth.v ===== *)
(** [ferrosync-server/src/auth.rs]: challenge and response of the daemon
    protocol, and the secrets file.

    The digest is the [md5] of [HashLib] ([Checksum.v]); what a challenge is
    made of (clock, process, counter) is an argument. *)
From S2P Require Import Prelude Text Utf8 TextOps Checksum.

Inductive AuthError :=
  | ReadSecretsFile (path : list Z)
  | AuthFailed (user : list Z)
  | UserNotFound (user : list Z)
  | InvalidResponse.

Definition MAX_PASSWORD_LEN : nat := 64.

(** ** Base64 *)

Definition ALPHABET : list Z := str_bytes "ABCDEFGHIJKLMNOPQRSTUVWXYZabcdefghijklmnopqrstuvwxyz0123456789+/".
Definition digit64 (n : Z) : Z := ALPHABET !!! Z.to_nat (Z.land n 0x3F).

Fixpoint base64_encode (data : list Z) : list Z :=
  match data with
  | a :: b :: c :: data' =>
      let n := Z.lor (Z.lor (a ≪ 16) (b ≪ 8)) c in
      [digit64 (n ≫ 18); digit64 (n ≫ 12); digit64 (n ≫ 6); digit64 n] ++ base64_encode data'
  | [a; b] =>
      let n := Z.lor (a ≪ 16) (b ≪ 8) in
      [digit64 (n ≫ 18); digit64 (n ≫ 12); digit64 (n ≫ 6); 61]
  | [a] =>
      let n := a ≪ 16 in
      [digit64 (n ≫ 18); digit64 (n ≫ 12); 61; 61]
  | [] => []
  end.

(** ** Challenge and response *)

Section auth.
  Context (H : HashLib).

Definition md5_of (pieces : list (list Z)) : list Z := dg_finalize (md5 H) (foldl (dg_update (md5 H)) (dg_new (md5 H)) pieces).

Definition challenge_input (secs nanos pid counter : Z) : list Z :=
  le_bytes 8 secs ++ le_bytes 4 nanos ++ le_bytes 4 pid ++ le_bytes 8 counter ++ replicate 8 0.
Definition generate_challenge (secs nanos pid counter : Z) : list Z :=
  base64_encode (md5_of [challenge_input secs nanos pid counter]).

Definition padded (password : list Z) : list Z :=
  let copy_len := Nat.min (length password) MAX_PASSWORD_LEN in
  copy_at 0 (take copy_len password) (replicate MAX_PASSWORD_LEN 0).
Definition compute_response (password challenge : list Z) : list Z := base64_encode (md5_of [padded password; challenge]).

Definition constant_time_eq (a b : list Z) : bool :=
  if negb (length a =? length b)%nat then false
  else foldl (fun diff (xy : Z * Z) => Z.lor diff (Z.lxor xy.1 xy.2)) 0 (zip a b) =? 0.

Definition parse_auth_response (line : list Z) : AuthError + list Z * list Z :=
  match split_once 32 (trim line) with
  | Some (user, hash) =>
      if negb (bool_decide (user = [])) && negb (bool_decide (hash = [])) then inr (user, hash) else inl InvalidResponse
  | None => inl InvalidResponse
  end.

(** ** The secrets file *)

Fixpoint find_password (user : list Z) (ls : list (list Z)) : AuthError + list Z :=
  match ls with
  | [] => inl (UserNotFound user)
  | line :: ls' =>
      let line := trim line in
      if bool_decide (line = []) || starts_with line [35] then find_password user ls'
      else match split_once 58 line with
           | Some (file_user, password) =>
               if bool_decide (trim file_user = user) then inr (trim password) else find_password user ls'
           | None => find_password user ls'
           end
  end.

Context (read_to_string : list Z -> option (list Z)).

Definition lookup_password (user secrets_path : list Z) : AuthError + list Z :=
  match read_to_string secrets_path with
  | None => inl (ReadSecretsFile secrets_path)
  | Some content => find_password user (lines content)
  end.

Definition verify_response (user client_hash challenge secrets_path : list Z) : AuthError + unit :=
  password ← lookup_password user secrets_path;
  let expected_hash := compute_response password challenge in
  if constant_time_eq expected_hash client_hash then inr tt else inl (AuthFailed user).
End auth.

(** ** Base64 can be read back *)

Definition value64 (c : Z) : option Z :=
  if in_range 65 90 c then Some (c - 65) else if in_range 97 122 c then Some (c - 71)
  else if in_range 48 57 c then Some (c + 4) else if c =? 43 then Some 62 else if c =? 47 then Some 63 else None.
Fixpoint base64_decode (s : list Z) : option (list Z) :=
  match s with
  | [] => Some []
  | p :: q :: r :: t :: s' =>
      vp ← value64 p; vq ← value64 q;
      let n := vp * 2 ^ 18 + vq * 2 ^ 12 in
      if r =? 61 then Some [n / 2 ^ 16]
      else
        vr ← value64 r;
        let n := n + vr * 2 ^ 6 in
        if t =? 61 then Some [n / 2 ^ 16; n / 2 ^ 8 mod 256]
        else vt ← value64 t; let n := n + vt in data ← base64_decode s'; Some ([n / 2 ^ 16; n / 2 ^ 8 mod 256; n mod 256] ++ data)
  | _ => None
  end.

Definition is_digit64 (c : Z) : bool := in_range 65 90 c || in_range 97 122 c || in_range 48 57 c || (c =? 43) || (c =? 47).

Lemma digit64_mod n : digit64 n = digit64 (n mod 64).
Proof.
  unfold digit64. f_equal. f_equal. change 63 with (Z.ones 6). rewrite !Z.land_ones by lia. by rewrite Zmod_mod.
Qed.
Lemma digit64_small v : 0 <= v < 64 -> value64 (digit64 v) = Some v /\ is_digit64 (digit64 v) = true.
Proof.
  assert (E : forall b, 0 <= b < 64 -> bool_decide (value64 (digit64 b) = Some b) && is_digit64 (digit64 b) = true) by byte_cases 64%nat.
  intros H. specialize (E v H). apply andb_prop in E as [E1 E2]. by apply bool_decide_eq_true_1 in E1.
Qed.
Lemma digit64_value n : value64 (digit64 n) = Some (n mod 64).
Proof. rewrite digit64_mod. apply digit64_small, Z.mod_pos_bound. lia. Qed.
Lemma digit64_is n : is_digit64 (digit64 n) = true.
Proof. rewrite digit64_mod. apply digit64_small, Z.mod_pos_bound. lia. Qed.
Lemma digit64_padding n : (digit64 n =? 61) = false.
Proof. destruct (Z.eqb_spec (digit64 n) 61) as [E|]; [|done]. pose proof (digit64_is n) as H. by rewrite E in H. Qed.

Lemma three_bytes a b c : is_byte a -> is_byte b -> is_byte c -> Z.lor (Z.lor (a ≪ 16) (b ≪ 8)) c = a * 2 ^ 16 + b * 2 ^ 8 + c.
Proof.
  unfold is_byte. intros Ha Hb Hc. rewrite !Z.shiftl_mul_pow2 by lia.
  rewrite (lor_disjoint (a * 2 ^ 16) (b * 2 ^ 8) 16 a) by lia. by rewrite (lor_disjoint _ c 8 (a * 2 ^ 8 + b)) by lia.
Qed.

Lemma sextets n : 0 <= n < 2 ^ 24 ->
  n / 2 ^ 18 mod 64 * 2 ^ 18 + n / 2 ^ 12 mod 64 * 2 ^ 12 + n / 2 ^ 6 mod 64 * 2 ^ 6 + n mod 64 = n.
Proof.
  intros Hn. change (2 ^ 18) with (64 * (64 * 64)). change (2 ^ 12) with (64 * 64). change (2 ^ 6) with 64.
  rewrite <- !Z.div_div by lia. assert (n / 64 / 64 / 64 < 64) by (rewrite !Z.div_div by lia; apply Z.div_lt_upper_bound; lia).
  pose proof (Z.div_pos n 64). pose proof (Z.div_mod n 64). set (n1 := n / 64) in *. pose proof (Z.div_mod n1 64). pose proof (Z.div_pos n1 64).
  set (n2 := n1 / 64) in *. pose proof (Z.div_mod n2 64). pose proof (Z.div_pos n2 64). set (n3 := n2 / 64) in *. rewrite (Z.mod_small n3) by lia. lia.
Qed.
Lemma octets a b c n : is_byte a -> is_byte b -> is_byte c -> n = a * 2 ^ 16 + b * 2 ^ 8 + c ->
  n / 2 ^ 16 = a /\ n / 2 ^ 8 mod 256 = b /\ n mod 256 = c.
Proof.
  unfold is_byte. intros Ha Hb Hc ->. split_and!.
  - symmetry. apply Z.div_unique with (b * 2 ^ 8 + c); lia.
  - rewrite <- (Z.div_unique _ (2 ^ 8) (a * 2 ^ 8 + b) c) by lia. symmetry. apply Z.mod_unique with a; lia.
  - symmetry. apply Z.mod_unique with (a * 2 ^ 8 + b); lia.
Qed.

Lemma base64_decode_encode data : Forall is_byte data -> base64_decode (base64_encode data) = Some data.
Proof.
  revert data. fix IH 1. intros [|a [|b [|c data]]] Hd; [done|..];
    repeat match goal with H : Forall _ (_ :: _) |- _ => apply Forall_cons in H as [? H] end;
    cbn [base64_encode app base64_decode]; rewrite !digit64_value, ?digit64_padding; cbn [mbind option_bind];
    rewrite ?Z.shiftr_div_pow2 by lia.
  - assert (E : a ≪ 16 = a * 2 ^ 16 + 0 * 2 ^ 8 + 0) by (rewrite Z.shiftl_mul_pow2 by lia; lia). generalize dependent (a ≪ 16).
    intros n E. pose proof (sextets n ltac:(unfold is_byte in *; lia)) as Hs. destruct (octets a 0 0 n) as (Ha & _ & _); [done..|].
    assert (E0 : n mod 64 = 0) by (replace n with (a * 1024 * 64) by lia; apply Z_mod_mult).
    assert (E1 : n / 2 ^ 6 mod 64 = 0)
      by (replace n with (a * 16 * 64 * 2 ^ 6) by lia; rewrite Z.div_mul by lia; apply Z_mod_mult).
    rewrite E0, E1, Z.mul_0_l, !Z.add_0_r in Hs. by rewrite Z.eqb_refl, Hs, Ha.
  - pose proof (three_bytes a b 0 ltac:(done) ltac:(done) ltac:(done)) as E. rewrite Z.lor_0_r in E. generalize dependent (Z.lor (a ≪ 16) (b ≪ 8)).
    intros n E. pose proof (sextets n ltac:(unfold is_byte in *; lia)) as Hs. destruct (octets a b 0 n) as (Ha & Hb & _); [done..|].
    assert (E0 : n mod 64 = 0) by (replace n with ((a * 1024 + b * 4) * 64) by lia; apply Z_mod_mult).
    rewrite E0, Z.add_0_r in Hs. by rewrite Z.eqb_refl, Hs, Ha, Hb.
  - pose proof (three_bytes a b c ltac:(done) ltac:(done) ltac:(done)) as E. generalize dependent (Z.lor (Z.lor (a ≪ 16) (b ≪ 8)) c).
    intros n E. pose proof (sextets n ltac:(unfold is_byte in *; lia)) as Hs. destruct (octets a b c n) as (Ha & Hb & Hc); [done..|].
    rewrite Hs, Ha, Hb, Hc. by rewrite IH.
Qed.
Lemma base64_encode_inj d1 d2 : Forall is_byte d1 -> Forall is_byte d2 -> base64_encode d1 = base64_encode d2 -> d1 = d2.
Proof. intros H1 H2 E. apply (f_equal base64_decode) in E. rewrite !base64_decode_encode in E by done. by injection E. Qed.

Lemma base64_length data : length (base64_encode data) = (4 * ((length data + 2) / 3))%nat.
Proof.
  revert data. fix IH 1. intros [|a [|b [|c data]]]; [done..|]. cbn [base64_encode app length]. rewrite IH.
  replace (S (S (S (length data))) + 2)%nat with ((length data + 2) + 1 * 3)%nat by lia. rewrite Nat.div_add by lia. lia.
Qed.
(** Digits and padding only: a response is one word of one line. *)
Lemma base64_word data : Forall (fun c => is_digit64 c || (c =? 61) = true) (base64_encode data).
Proof.
  revert data. fix IH 1. intros [|a [|b [|c data]]]; cbn [base64_encode app]; repeat constructor; rewrite ?digit64_is; try done; apply IH.
Qed.
Lemma word64_visible c : is_digit64 c || (c =? 61) = true -> 32 < c < 128.
Proof.
  unfold is_digit64, in_range. intros H. repeat (apply orb_prop in H as [H|H]); try apply andb_prop in H as [H H'];
    rewrite ?Z.leb_le, ?Z.eqb_eq in *; lia.
Qed.
Lemma base64_visible data : Forall (fun c => 32 < c < 128) (base64_encode data).
Proof. eapply Forall_impl; [apply base64_word|]. apply word64_visible. Qed.

(** ** What verification decides *)

Lemma fold_xor_zero l d : foldl (fun diff (xy : Z * Z) => Z.lor diff (Z.lxor xy.1 xy.2)) d l = 0 <-> d = 0 /\ Forall (fun xy => xy.1 = xy.2) l.
Proof.
  revert d. induction l as [|[x y] l IH]; intros d; cbn [foldl fst snd].
  { split; [intros ->; by split|by intros [-> _]]. }
  rewrite IH, Z.lor_eq_0_iff, Z.lxor_eq_0_iff, Forall_cons. cbn [fst snd]. tauto.
Qed.
Lemma zip_equal (a b : list Z) : length a = length b -> Forall (fun xy => xy.1 = xy.2) (zip a b) <-> a = b.
Proof.
  revert b. induction a as [|x a IH]; intros [|y b] Hl; cbn [length] in Hl; try lia; [done|].
  cbn [zip_with]. rewrite Forall_cons, IH by lia. cbn [fst snd]. split; [by intros [-> ->]|by intros [= -> ->]].
Qed.
Lemma constant_time_eq_spec a b : constant_time_eq a b = bool_decide (a = b).
Proof.
  unfold constant_time_eq. destruct (Nat.eqb_spec (length a) (length b)) as [Hl|Hl]; cbn [negb].
  - apply eq_bool_prop_intro. rewrite !Is_true_true, Z.eqb_eq, fold_xor_zero, zip_equal, bool_decide_eq_true by done. tauto.
  - rewrite bool_decide_false; [done|]. by intros ->.
Qed.

(** The entry a line holds. *)
Definition secret_entry (line : list Z) : option (list Z * list Z) :=
  let line := trim line in
  if bool_decide (line = []) || starts_with line [35] then None
  else p ← split_once 58 line; Some (trim p.1, trim p.2).
(** The first entry of the user counts. *)
Lemma find_password_entries user ls : find_password user ls =
  match list_find (fun e => e.1 = user) (omap secret_entry ls) with Some (_, e) => inr e.2 | None => inl (UserNotFound user) end.
Proof.
  induction ls as [|line ls IH]; [done|]. cbn [find_password omap list_omap]. rewrite IH.
  assert (Es : secret_entry line = if bool_decide (trim line = []) || starts_with (trim line) [35] then None
    else p ← split_once 58 (trim line); Some (trim p.1, trim p.2)) by done. rewrite Es. clear Es.
  destruct (bool_decide (trim line = []) || starts_with (trim line) [35]); [reflexivity|].
  destruct (split_once 58 (trim line)) as [[u p]|]; cbn [mbind option_bind fst snd]; [|done].
  cbn [list_find fst]. destruct (decide (trim u = user)) as [E|E]; [by rewrite bool_decide_true by done|].
  rewrite bool_decide_false by done. by destruct (list_find _ _) as [[i e]|].
Qed.

Section verification.
  Context (H : HashLib) (read_to_string : list Z -> option (list Z)).

Lemma verify_decides user client_hash challenge path :
  verify_response H read_to_string user client_hash challenge path = inr tt <->
  exists content password, read_to_string path = Some content /\ find_password user (lines content) = inr password /\
    client_hash = compute_response H password challenge.
Proof.
  unfold verify_response, lookup_password. destruct (read_to_string path) as [content|]; cbn [mbind sum_bind].
  - destruct (find_password user (lines content)) as [e|password] eqn:E; cbn [mbind sum_bind].
    + split; [done|]. by intros (? & ? & [= <-] & E' & _); rewrite E in E'.
    + rewrite constant_time_eq_spec. case_bool_decide as Hh.
      * split; [|done]. intros _. exists content, password. auto.
      * split; [done|]. intros (? & ? & [= <-] & E' & ->). rewrite E in E'. by injection E' as ->.
  - split; [done|]. by intros (? & ? & ? & _).
Qed.

(** Digests that tell the messages apart tell the passwords apart, as far as
    padding keeps them apart. *)
Lemma responses_equal `{!HashLaws H} password password' challenge :
  compute_response H password challenge = compute_response H password' challenge <->
  md5_of H [padded password ++ challenge] = md5_of H [padded password' ++ challenge].
Proof.
  unfold compute_response, md5_of. cbn [foldl]. rewrite !(dg_update_app (DigestLaws := md5_laws)).
  split; [|congruence]. intros E%base64_encode_inj; [done|apply (dg_bytes (DigestLaws := md5_laws))..].
Qed.
End verification.

Lemma padded_eq password : padded password = take 64 password ++ replicate (64 - length password) 0.
Proof.
  unfold padded, copy_at, MAX_PASSWORD_LEN. change (take 0 (replicate 64 0)) with (@nil Z). cbn [app Nat.add].
  assert (E : take (Nat.min (length password) 64) password = take 64 password).
  { destruct (Nat.le_gt_cases (length password) 64); [|f_equal; lia]. rewrite Nat.min_l by lia. by rewrite !take_ge by lia. }
  rewrite E. f_equal. rewrite length_take, drop_replicate. f_equal. lia.
Qed.
Lemma padded_length password : length (padded password) = 64%nat.
Proof. rewrite padded_eq, length_app, length_take, length_replicate. lia. Qed.

(** Passwords of at most 64 bytes without NUL are kept apart. *)
Lemma nul_free_app (p p' : list Z) m n : 0 ∉ p -> 0 ∉ p' -> p ++ replicate m 0 = p' ++ replicate n 0 -> p = p'.
Proof.
  revert p'. induction p as [|x p IH]; intros [|x' p'] Hp Hp' E; [done|..]; cbn [app] in E.
  - destruct m; [done|]. injection E as <- _. by apply not_elem_of_cons in Hp' as [? _].
  - destruct n; [done|]. injection E as -> _. by apply not_elem_of_cons in Hp as [? _].
  - injection E as -> E. f_equal. apply not_elem_of_cons in Hp as [_ Hp]. apply not_elem_of_cons in Hp' as [_ Hp']. auto.
Qed.
Lemma padded_inj p p' : (length p <= 64)%nat -> (length p' <= 64)%nat -> 0 ∉ p -> 0 ∉ p' -> padded p = padded p' -> p = p'.
Proof. intros Hl Hl' Hp Hp'. rewrite !padded_eq, !take_ge by lia. by apply nul_free_app. Qed.
(** Of longer ones only the first 64 bytes count. *)
Lemma padded_truncates p : padded p = padded (take 64 p).
Proof. rewrite !padded_eq, take_take, length_take, Nat.min_id. f_equal. f_equal. lia. Qed.

(** Two challenges of a process are never made of the same bytes, as long as
    the counter has not wrapped. *)
Lemma challenge_input_inj secs nanos pid counter secs' nanos' pid' counter' :
  in_u64 counter -> in_u64 counter' ->
  challenge_input secs nanos pid counter = challenge_input secs' nanos' pid' counter' -> counter = counter'.
Proof.
  intros Hc Hc' E. unfold challenge_input in E. do 3 (apply app_inj_1 in E as [_ E]; [|by rewrite !length_le_bytes]).
  apply app_inj_1 in E as [E _]; [|by rewrite !length_le_bytes]. apply (f_equal le_val) in E. rewrite !le_val_le_bytes in E.
  by rewrite !Z.mod_small in E by done.
Qed.

(** The line a client answers with is read back. *)
Lemma auth_line_parses H user password challenge : user <> [] -> 32 ∉ user -> first_strip WHITE_SPACE user = None ->
  md5_of H [padded password; challenge] <> [] ->
  parse_auth_response (user ++ 32 :: compute_response H password challenge) = inr (user, compute_response H password challenge).
Proof.
  intros Hu Hs Hw Hd. assert (Hr : compute_response H password challenge <> []).
  { unfold compute_response. by destruct (md5_of _ _) as [|a [|b [|c d]]]. }
  unfold parse_auth_response. rewrite trim_trimmed.
  - rewrite split_once_app by done. by rewrite !bool_decide_false.
  - apply trimmed_keyword; [done..|]. apply trimmed_visible, base64_visible.
Qed.

Lemma auth_examples :
  base64_encode (str_bytes "Hello, World") = str_bytes "SGVsbG8sIFdvcmxk" /\ base64_encode (str_bytes "f") = str_bytes "Zg==" /\
  parse_auth_response (str_bytes "  bob a b c ") = inr (str_bytes "bob", str_bytes "a b c") /\
  find_password (str_bytes "bob") (lines (str_bytes "# who
alice:1

 bob : two:three
bob:later")) = inr (str_bytes "two:three").
Proof. vm_compute. split_and!; reflexivity. Qed.
