(* ===== verification/Ip.v ===== *)
(** [std::net::IpAddr]: how addresses print and parse. *)
From S2P Require Import Prelude Types Text Utf8 Listing Numerals TextOps.

(** Four octets, or eight 16-bit groups. *)
Inductive IpAddr :=
  | V4 (a b c d : Z)
  | V6 (groups : list Z).

(** ** Printing *)

Definition show_v4 (a b c d : Z) : list Z := decimal a ++ 46 :: decimal b ++ 46 :: decimal c ++ 46 :: decimal d.

Definition hex_digit (d : Z) : Z := if d <? 10 then 48 + d else 87 + d.
(** [{:x}] of a group. *)
Fixpoint hex (fuel : nat) (n : Z) : list Z :=
  match fuel with
  | O => []
  | S f => if n <? 16 then [hex_digit n] else hex f (n / 16) ++ [hex_digit (n mod 16)]
  end.
Fixpoint join (sep : list Z) (parts : list (list Z)) : list Z :=
  match parts with
  | [] => []
  | [p] => p
  | p :: parts' => p ++ sep ++ join sep parts'
  end.
(** The first of the longest runs of zeros, as its start and length. *)
Fixpoint longest_zeros (gs : list Z) (i start run : nat) (best : nat * nat) : nat * nat :=
  match gs with
  | [] => best
  | g :: gs' =>
      if g =? 0 then
        let start := if (run =? 0)%nat then i else start in
        let run := S run in
        longest_zeros gs' (S i) start run (if (best.2 <? run)%nat then (start, run) else best)
      else longest_zeros gs' (S i) 0 0 best
  end.
Definition show_groups (gs : list Z) : list Z := join [58] (map (hex 4) gs).
Definition show_v6 (gs : list Z) : list Z :=
  match gs with
  | [0; 0; 0; 0; 0; 65535; g; h] => str_bytes "::ffff:" ++ show_v4 (g / 256) (g mod 256) (h / 256) (h mod 256)
  | _ =>
      let '(start, run) := longest_zeros gs 0 0 0 (0%nat, 0%nat) in
      if (1 <? run)%nat then show_groups (take start gs) ++ [58; 58] ++ show_groups (drop (start + run) gs) else show_groups gs
  end.
(** [to_string] *)
Definition show_ip (ip : IpAddr) : list Z := match ip with V4 a b c d => show_v4 a b c d | V6 gs => show_v6 gs end.

(** ** Parsing *)

(** A parser that fails leaves its input alone. *)
Definition parser (A : Type) : Type := list Z -> option (A * list Z).
#[export] Instance parser_ret : MRet parser := fun A a s => Some (a, s).
#[export] Instance parser_bind : MBind parser := fun A B f m s => match m s with Some (a, s') => f a s' | None => None end.

Definition read_given_char (c : Z) : parser unit := fun s =>
  match s with b :: s' => if b =? c then Some (tt, s') else None | [] => None end.
Definition read_separator {A} (sep : Z) (index : nat) (inner : parser A) : parser A :=
  if (index =? 0)%nat then inner else _ ← read_given_char sep; inner.

Definition hex_value (c : Z) : option Z :=
  if in_range 48 57 c then Some (c - 48) else if in_range 97 102 c then Some (c - 87)
  else if in_range 65 70 c then Some (c - 55) else None.
Definition digit_value (radix c : Z) : option Z := v ← hex_value c; if v <? radix then Some v else None.

(** Digits up to the first other character; no more than [max_digits]. *)
Fixpoint take_number (radix max_value : Z) (left : nat) (result : Z) (count : nat) (s : list Z) {struct s} : option (Z * nat * list Z) :=
  match s with
  | c :: s' =>
      match digit_value radix c with
      | Some d =>
          match left with
          | O => None
          | S left' =>
              let result := result * radix + d in
              if result <=? max_value then take_number radix max_value left' result (S count) s' else None
          end
      | None => Some (result, count, s)
      end
  | [] => Some (result, count, [])
  end.
Definition read_number (radix max_value : Z) (max_digits : nat) (allow_zero_prefix : bool) : parser Z := fun s =>
  let has_leading_zero := match s with c :: _ => c =? 48 | [] => false end in
  match take_number radix max_value max_digits 0 0 s with
  | Some (result, count, s') =>
      if (count =? 0)%nat then None
      else if negb allow_zero_prefix && has_leading_zero && (1 <? count)%nat then None
      else Some (result, s')
  | None => None
  end.

Definition read_octet (i : nat) : parser Z := read_separator 46 i (read_number 10 255 3 false).
Definition read_ipv4_addr : parser (Z * Z * Z * Z) :=
  a ← read_octet 0; b ← read_octet 1; c ← read_octet 2; d ← read_octet 3; mret (a, b, c, d).

(** Up to [limit] groups, the last two perhaps an IPv4 address. *)
Fixpoint read_groups (fuel i limit : nat) (s : list Z) : list Z * bool * list Z :=
  match fuel with
  | O => ([], false, s)
  | S fuel' =>
      let ipv4 := if (S i <? limit)%nat then read_separator 58 i read_ipv4_addr s else None in
      match ipv4 with
      | Some ((a, b, c, d), s') => ([a * 256 + b; c * 256 + d], true, s')
      | None =>
          match read_separator 58 i (read_number 16 65535 4 true) s with
          | Some (g, s') => let '(gs, v4, s'') := read_groups fuel' (S i) limit s' in (g :: gs, v4, s'')
          | None => ([], false, s)
          end
      end
  end.
Definition read_tail (head : list Z) : parser (list Z) := fun s =>
  let limit := (8 - (length head + 1))%nat in
  let '(tail, _, s) := read_groups limit 0 limit s in
  Some (head ++ replicate (8 - length head - length tail) 0 ++ tail, s).
Definition read_double_colon : parser unit := _ ← read_given_char 58; read_given_char 58.
Definition read_ipv6_addr : parser (list Z) := fun s =>
  let '(head, head_ipv4, s) := read_groups 8 0 8 s in
  if (length head =? 8)%nat then Some (head, s)
  else if head_ipv4 then None
  else match read_double_colon s with Some (_, s) => read_tail head s | None => None end.

(** [s.parse::<IpAddr>().ok()] *)
Definition parse_ip (s : list Z) : option IpAddr :=
  let ip :=
    match read_ipv4_addr s with
    | Some ((a, b, c, d), s') => Some (V4 a b c d, s')
    | None => match read_ipv6_addr s with Some (gs, s') => Some (V6 gs, s') | None => None end
    end in
  match ip with Some (ip, []) => Some ip | _ => None end.

Lemma ip_examples :
  show_ip (V4 192 168 1 20) = str_bytes "192.168.1.20" /\ show_ip (V6 [0; 0; 0; 0; 0; 0; 0; 1]) = str_bytes "::1" /\
  show_ip (V6 [0x2001; 0xdb8; 0; 0; 1; 0; 0; 1]) = str_bytes "2001:db8::1:0:0:1" /\
  show_ip (V6 [0; 0; 0; 0; 0; 65535; 0x0a00; 1]) = str_bytes "::ffff:10.0.0.1" /\
  parse_ip (str_bytes "192.168.1.20") = Some (V4 192 168 1 20) /\ parse_ip (str_bytes "192.168.01.20") = None /\
  parse_ip (str_bytes "::1") = Some (V6 [0; 0; 0; 0; 0; 0; 0; 1]) /\ parse_ip (str_bytes "1::2::3") = None /\
  parse_ip (str_bytes "2001:db8::1:0:0:1") = Some (V6 [0x2001; 0xdb8; 0; 0; 1; 0; 0; 1]) /\
  parse_ip (str_bytes "::ffff:10.0.0.1") = Some (V6 [0; 0; 0; 0; 0; 65535; 0x0a00; 1]) /\
  parse_ip (str_bytes "1:2:3:4:5:6:7:8") = Some (V6 [1; 2; 3; 4; 5; 6; 7; 8]) /\ parse_ip (str_bytes "0.0.0.256") = None.
Proof. vm_compute. split_and!; reflexivity. Qed.

(** ** What prints parses *)

Lemma octet_digits v : 0 <= v < 256 ->
  take_number 10 255 3 0 0 (decimal v ++ [46]) = Some (v, length (decimal v), [46]) /\
  take_number 10 255 3 0 0 (decimal v) = Some (v, length (decimal v), []) /\
  (length (decimal v) =? 0)%nat = false /\
  (1 <? length (decimal v))%nat && (match decimal v with c :: _ => c =? 48 | [] => false end) = false.
Proof.
  intros Hv. assert (E : forall b, 0 <= b < 256 -> bool_decide (
    take_number 10 255 3 0 0 (decimal b ++ [46]) = Some (b, length (decimal b), [46]) /\
    take_number 10 255 3 0 0 (decimal b) = Some (b, length (decimal b), []) /\
    (length (decimal b) =? 0)%nat = false /\
    (1 <? length (decimal b))%nat && (match decimal b with c :: _ => c =? 48 | [] => false end) = false) = true)
    by byte_cases 256%nat.
  by specialize (E v Hv); apply bool_decide_eq_true_1 in E.
Qed.
Lemma take_number_dot radix hi left acc n s s' v c : take_number radix hi left acc n (s ++ [46]) = Some (v, c, [46]) ->
  take_number radix hi left acc n (s ++ 46 :: s') = Some (v, c, 46 :: s').
Proof.
  revert left acc n. induction s as [|x s IH]; intros left acc n; cbn [app take_number].
  - change (digit_value radix 46) with (@None Z); by intros [= -> ->].
  - destruct (digit_value radix x); [|intros [= _ _ ? E]; exfalso; apply (f_equal length) in E; rewrite length_app in E; cbn in E; lia].
    destruct left; [done|]. destruct (_ <=? _); [apply IH|done].
Qed.
Lemma read_octet_printed v s : 0 <= v < 256 -> s = [] \/ (exists s', s = 46 :: s') ->
  read_number 10 255 3 false (decimal v ++ s) = Some (v, s).
Proof.
  intros Hv Hs. destruct (octet_digits v Hv) as (E1 & E2 & E3 & E4). unfold read_number.
  assert (E : take_number 10 255 3 0 0 (decimal v ++ s) = Some (v, length (decimal v), s)).
  { destruct Hs as [->|[s' ->]]; [by rewrite app_nil_r|by apply take_number_dot]. }
  rewrite E, E3. destruct (decimal v) as [|c l]; [done|]. cbn [app length negb andb] in *.
  by rewrite andb_comm, E4.
Qed.
Lemma parse_ip_show_v4 a b c d : 0 <= a < 256 -> 0 <= b < 256 -> 0 <= c < 256 -> 0 <= d < 256 ->
  parse_ip (show_ip (V4 a b c d)) = Some (V4 a b c d).
Proof.
  intros Ha Hb Hc Hd. unfold parse_ip, show_ip, show_v4, read_ipv4_addr, read_octet, read_separator. cbn [Nat.eqb].
  unfold mbind, parser_bind, read_given_char. rewrite read_octet_printed by eauto. rewrite Z.eqb_refl.
  rewrite read_octet_printed by eauto. rewrite Z.eqb_refl. rewrite read_octet_printed by eauto. rewrite Z.eqb_refl.
  rewrite <- (app_nil_r (decimal d)). by rewrite read_octet_printed by auto.
Qed.
