(* ===== verification/Rsyncd.v ===== *)
(** [ferrosync-server/src/config.rs] and [module.rs]: the configuration file of
    the daemon, and the registry of the modules it serves.

    Strings and paths are their bytes.  [parse_config] is given the outcome of
    reading the file. *)
From S2P Require Import Prelude Text Utf8 Listing Numerals TextOps Ip.

(** ** The configuration *)

Module GlobalConfig.
Record t := mk {
  bind_address : option IpAddr;
  port : Z;
  motd_file : option (list Z);
  pid_file : option (list Z);
  log_file : option (list Z);
  max_connections : Z;
  timeout : Z;
}.
Definition default : t := mk None 873 None None None 0 0.
Definition set_bind_address (v : option IpAddr) (c : t) : t :=
  mk v (port c) (motd_file c) (pid_file c) (log_file c) (max_connections c) (timeout c).
Definition set_port (v : Z) (c : t) : t :=
  mk (bind_address c) v (motd_file c) (pid_file c) (log_file c) (max_connections c) (timeout c).
Definition set_motd_file (v : option (list Z)) (c : t) : t :=
  mk (bind_address c) (port c) v (pid_file c) (log_file c) (max_connections c) (timeout c).
Definition set_pid_file (v : option (list Z)) (c : t) : t :=
  mk (bind_address c) (port c) (motd_file c) v (log_file c) (max_connections c) (timeout c).
Definition set_log_file (v : option (list Z)) (c : t) : t :=
  mk (bind_address c) (port c) (motd_file c) (pid_file c) v (max_connections c) (timeout c).
Definition set_max_connections (v : Z) (c : t) : t :=
  mk (bind_address c) (port c) (motd_file c) (pid_file c) (log_file c) v (timeout c).
Definition set_timeout (v : Z) (c : t) : t :=
  mk (bind_address c) (port c) (motd_file c) (pid_file c) (log_file c) (max_connections c) v.
End GlobalConfig.

Module ModuleConfig.
Record t := mk {
  name : list Z;
  path : list Z;
  comment : list Z;
  read_only : bool;
  list_ : bool;
  auth_users : list Z;
  secrets_file : option (list Z);
  hosts_allow : list (list Z);
  hosts_deny : list (list Z);
  max_connections : Z;
  timeout : Z;
  uid : option (list Z);
  gid : option (list Z);
  use_chroot : bool;
  log_file : option (list Z);
  exclude : list (list Z);
  include : list (list Z);
  filter : list (list Z);
}.
(** The default, with the name of its section. *)
Definition default (name : list Z) : t := mk name [] [] true true [] None [] [] 0 0 None None true None [] [] [].
Definition set_path (v : list Z) (c : t) : t :=
  mk (name c) v (comment c) (read_only c) (list_ c) (auth_users c) (secrets_file c) (hosts_allow c) (hosts_deny c)
    (max_connections c) (timeout c) (uid c) (gid c) (use_chroot c) (log_file c) (exclude c) (include c) (filter c).
Definition set_comment (v : list Z) (c : t) : t :=
  mk (name c) (path c) v (read_only c) (list_ c) (auth_users c) (secrets_file c) (hosts_allow c) (hosts_deny c)
    (max_connections c) (timeout c) (uid c) (gid c) (use_chroot c) (log_file c) (exclude c) (include c) (filter c).
Definition set_read_only (v : bool) (c : t) : t :=
  mk (name c) (path c) (comment c) v (list_ c) (auth_users c) (secrets_file c) (hosts_allow c) (hosts_deny c)
    (max_connections c) (timeout c) (uid c) (gid c) (use_chroot c) (log_file c) (exclude c) (include c) (filter c).
Definition set_list_ (v : bool) (c : t) : t :=
  mk (name c) (path c) (comment c) (read_only c) v (auth_users c) (secrets_file c) (hosts_allow c) (hosts_deny c)
    (max_connections c) (timeout c) (uid c) (gid c) (use_chroot c) (log_file c) (exclude c) (include c) (filter c).
Definition set_auth_users (v : list Z) (c : t) : t :=
  mk (name c) (path c) (comment c) (read_only c) (list_ c) v (secrets_file c) (hosts_allow c) (hosts_deny c)
    (max_connections c) (timeout c) (uid c) (gid c) (use_chroot c) (log_file c) (exclude c) (include c) (filter c).
Definition set_secrets_file (v : option (list Z)) (c : t) : t :=
  mk (name c) (path c) (comment c) (read_only c) (list_ c) (auth_users c) v (hosts_allow c) (hosts_deny c)
    (max_connections c) (timeout c) (uid c) (gid c) (use_chroot c) (log_file c) (exclude c) (include c) (filter c).
Definition set_hosts_allow (v : list (list Z)) (c : t) : t :=
  mk (name c) (path c) (comment c) (read_only c) (list_ c) (auth_users c) (secrets_file c) v (hosts_deny c)
    (max_connections c) (timeout c) (uid c) (gid c) (use_chroot c) (log_file c) (exclude c) (include c) (filter c).
Definition set_hosts_deny (v : list (list Z)) (c : t) : t :=
  mk (name c) (path c) (comment c) (read_only c) (list_ c) (auth_users c) (secrets_file c) (hosts_allow c) v
    (max_connections c) (timeout c) (uid c) (gid c) (use_chroot c) (log_file c) (exclude c) (include c) (filter c).
Definition set_max_connections (v : Z) (c : t) : t :=
  mk (name c) (path c) (comment c) (read_only c) (list_ c) (auth_users c) (secrets_file c) (hosts_allow c) (hosts_deny
    c) v (timeout c) (uid c) (gid c) (use_chroot c) (log_file c) (exclude c) (include c) (filter c).
Definition set_timeout (v : Z) (c : t) : t :=
  mk (name c) (path c) (comment c) (read_only c) (list_ c) (auth_users c) (secrets_file c) (hosts_allow c) (hosts_deny
    c) (max_connections c) v (uid c) (gid c) (use_chroot c) (log_file c) (exclude c) (include c) (filter c).
Definition set_uid (v : option (list Z)) (c : t) : t :=
  mk (name c) (path c) (comment c) (read_only c) (list_ c) (auth_users c) (secrets_file c) (hosts_allow c) (hosts_deny
    c) (max_connections c) (timeout c) v (gid c) (use_chroot c) (log_file c) (exclude c) (include c) (filter c).
Definition set_gid (v : option (list Z)) (c : t) : t :=
  mk (name c) (path c) (comment c) (read_only c) (list_ c) (auth_users c) (secrets_file c) (hosts_allow c) (hosts_deny
    c) (max_connections c) (timeout c) (uid c) v (use_chroot c) (log_file c) (exclude c) (include c) (filter c).
Definition set_use_chroot (v : bool) (c : t) : t :=
  mk (name c) (path c) (comment c) (read_only c) (list_ c) (auth_users c) (secrets_file c) (hosts_allow c) (hosts_deny
    c) (max_connections c) (timeout c) (uid c) (gid c) v (log_file c) (exclude c) (include c) (filter c).
Definition set_log_file (v : option (list Z)) (c : t) : t :=
  mk (name c) (path c) (comment c) (read_only c) (list_ c) (auth_users c) (secrets_file c) (hosts_allow c) (hosts_deny
    c) (max_connections c) (timeout c) (uid c) (gid c) (use_chroot c) v (exclude c) (include c) (filter c).
Definition set_exclude (v : list (list Z)) (c : t) : t :=
  mk (name c) (path c) (comment c) (read_only c) (list_ c) (auth_users c) (secrets_file c) (hosts_allow c) (hosts_deny
    c) (max_connections c) (timeout c) (uid c) (gid c) (use_chroot c) (log_file c) v (include c) (filter c).
Definition set_include (v : list (list Z)) (c : t) : t :=
  mk (name c) (path c) (comment c) (read_only c) (list_ c) (auth_users c) (secrets_file c) (hosts_allow c) (hosts_deny
    c) (max_connections c) (timeout c) (uid c) (gid c) (use_chroot c) (log_file c) (exclude c) v (filter c).
Definition set_filter (v : list (list Z)) (c : t) : t :=
  mk (name c) (path c) (comment c) (read_only c) (list_ c) (auth_users c) (secrets_file c) (hosts_allow c) (hosts_deny
    c) (max_connections c) (timeout c) (uid c) (gid c) (use_chroot c) (log_file c) (exclude c) (include c) v.
End ModuleConfig.

Record RsyncdConfig := mkRsyncdConfig {
  cfg_global : GlobalConfig.t;
  cfg_modules : list ModuleConfig.t;
}.

Definition find_module (config : RsyncdConfig) (name : list Z) : option ModuleConfig.t :=
  List.find (fun m => eq_ignore_ascii_case (ModuleConfig.name m) name) (cfg_modules config).

Inductive ParseMessage :=
  | UnterminatedSection
  | ExpectedKeyValue (line : list Z).
Inductive ConfigError :=
  | ReadFile (path : list Z)
  | ConfigParse (path : list Z) (line : Z) (message : ParseMessage).

(** ** Parameters *)

Definition parse_u16 : list Z -> option Z := from_str_radix 10 0 (2 ^ 16 - 1).
Definition normalize_key (key : list Z) : list Z := replace_char 32 95 (to_ascii_lowercase key).
Definition is_key (key : list Z) (names : list string) : bool := existsb (fun n => bool_decide (key = str_bytes n)) names.

Definition parse_bool (value : list Z) (default : bool) : bool :=
  let v := to_ascii_lowercase value in
  if is_key v ["yes"; "true"; "1"] then true else if is_key v ["no"; "false"; "0"] then false else default.
Definition is_separator (c : Z) : bool := (c =? 44) || is_ascii_whitespace c.
Definition split_list (value : list Z) : list (list Z) :=
  List.filter (fun s => negb (bool_decide (s = []))) (map trim (split is_separator value)).

(** [if let Some(v) = kvs.get(key) { .. }] *)
Definition on_key (kvs : gmap (list Z) (list Z)) (key : string) (f : list Z -> GlobalConfig.t -> GlobalConfig.t)
    (g : GlobalConfig.t) : GlobalConfig.t :=
  match kvs !! str_bytes key with Some v => f v g | None => g end.
Definition apply_global_params (global : GlobalConfig.t) (kvs : gmap (list Z) (list Z)) : GlobalConfig.t :=
  let global := on_key kvs "port" (fun v => GlobalConfig.set_port (default 873 (parse_u16 v))) global in
  let global := on_key kvs "address" (fun v g =>
    match parse_ip v with Some addr => GlobalConfig.set_bind_address (Some addr) g | None => g end) global in
  let global := on_key kvs "motd_file" (fun v => GlobalConfig.set_motd_file (Some v)) global in
  let global := on_key kvs "pid_file" (fun v => GlobalConfig.set_pid_file (Some v)) global in
  let global := on_key kvs "log_file" (fun v => GlobalConfig.set_log_file (Some v)) global in
  let global := on_key kvs "max_connections" (fun v => GlobalConfig.set_max_connections (default 0 (parse_u32 v))) global in
  on_key kvs "timeout" (fun v => GlobalConfig.set_timeout (default 0 (parse_u32 v))) global.

Definition apply_module_param (module : ModuleConfig.t) (key value : list Z) : ModuleConfig.t :=
  if is_key key ["path"] then ModuleConfig.set_path value module
  else if is_key key ["comment"] then ModuleConfig.set_comment value module
  else if is_key key ["read_only"; "readonly"] then ModuleConfig.set_read_only (parse_bool value true) module
  else if is_key key ["list"] then ModuleConfig.set_list_ (parse_bool value true) module
  else if is_key key ["auth_users"; "auth users"] then ModuleConfig.set_auth_users value module
  else if is_key key ["secrets_file"; "secrets file"] then ModuleConfig.set_secrets_file (Some value) module
  else if is_key key ["hosts_allow"; "hosts allow"] then ModuleConfig.set_hosts_allow (split_list value) module
  else if is_key key ["hosts_deny"; "hosts deny"] then ModuleConfig.set_hosts_deny (split_list value) module
  else if is_key key ["max_connections"; "max connections"] then
    ModuleConfig.set_max_connections (default 0 (parse_u32 value)) module
  else if is_key key ["timeout"] then ModuleConfig.set_timeout (default 0 (parse_u32 value)) module
  else if is_key key ["uid"] then ModuleConfig.set_uid (Some value) module
  else if is_key key ["gid"] then ModuleConfig.set_gid (Some value) module
  else if is_key key ["use_chroot"; "use chroot"] then ModuleConfig.set_use_chroot (parse_bool value true) module
  else if is_key key ["log_file"; "log file"] then ModuleConfig.set_log_file (Some value) module
  else if is_key key ["exclude"] then ModuleConfig.set_exclude (ModuleConfig.exclude module ++ [value]) module
  else if is_key key ["include"] then ModuleConfig.set_include (ModuleConfig.include module ++ [value]) module
  else if is_key key ["filter"] then ModuleConfig.set_filter (ModuleConfig.filter module ++ [value]) module
  else module.

(** ** The file *)

Record ParserState := mkParserState {
  ps_modules : list ModuleConfig.t;
  ps_current : option ModuleConfig.t;
  ps_in_global : bool;
  ps_kvs : gmap (list Z) (list Z);
}.

(** [if let Some(module) = current_module.take() { modules.push(module); }] *)
Definition finalize (st : ParserState) : ParserState :=
  mkParserState (ps_modules st ++ match ps_current st with Some m => [m] | None => [] end) None (ps_in_global st) (ps_kvs st).

Definition parse_line (source_path : list Z) (line_num : Z) (raw_line : list Z) (st : ParserState) : ConfigError + ParserState :=
  let line := trim raw_line in
  if bool_decide (line = []) || starts_with line [35] || starts_with line [59] then inr st
  else if starts_with line [91] then
    match split_once 93 line with
    | Some (before, _) =>
        let section_name := trim (tail before) in
        let st := finalize st in
        if eq_ignore_ascii_case section_name (str_bytes "global") then
          inr (mkParserState (ps_modules st) (ps_current st) true (ps_kvs st))
        else inr (mkParserState (ps_modules st) (Some (ModuleConfig.default section_name)) false (ps_kvs st))
    | None => inl (ConfigParse source_path line_num UnterminatedSection)
    end
  else
    match split_once 61 line with
    | None => inl (ConfigParse source_path line_num (ExpectedKeyValue line))
    | Some (k, v) =>
        let key := normalize_key (trim k) in
        let value := trim v in
        if ps_in_global st then
          inr (mkParserState (ps_modules st) (ps_current st) (ps_in_global st) (<[key := value]> (ps_kvs st)))
        else match ps_current st with
             | Some module =>
                 inr (mkParserState (ps_modules st) (Some (apply_module_param module key value)) (ps_in_global st) (ps_kvs st))
             | None => inr (mkParserState (ps_modules st) None (ps_in_global st) (<[key := value]> (ps_kvs st)))
             end
    end.
Fixpoint parse_lines (source_path : list Z) (line_num : Z) (ls : list (list Z)) (st : ParserState) : ConfigError + ParserState :=
  match ls with
  | [] => inr st
  | l :: ls' => st ← parse_line source_path line_num l st; parse_lines source_path (line_num + 1) ls' st
  end.
Definition parse_config_str (content source_path : list Z) : ConfigError + RsyncdConfig :=
  st ← parse_lines source_path 1 (lines content) (mkParserState [] None false ∅);
  let st := finalize st in
  mret (mkRsyncdConfig (apply_global_params GlobalConfig.default (ps_kvs st)) (ps_modules st)).
Definition parse_config (read_to_string : list Z -> option (list Z)) (path : list Z) : ConfigError + RsyncdConfig :=
  match read_to_string path with
  | None => inl (ReadFile path)
  | Some content => parse_config_str content path
  end.

(** ** Modules *)

Record ModuleAuth := mkModuleAuth {
  ma_auth_users : list Z;
  ma_secrets_file : option (list Z);
}.
Record AccessControl := mkAccessControl {
  ac_hosts_allow : list (list Z);
  ac_hosts_deny : list (list Z);
}.
Record DaemonModule := mkModule {
  mod_name : list Z;
  mod_path : list Z;
  mod_read_only : bool;
  mod_list : bool;
  mod_comment : list Z;
  mod_auth : ModuleAuth;
  mod_access : AccessControl;
  mod_max_connections : Z;
  mod_timeout : Z;
  mod_exclude : list (list Z);
  mod_include : list (list Z);
  mod_filter : list (list Z);
}.

Definition requires_auth (a : ModuleAuth) : bool := negb (bool_decide (ma_auth_users a = [])).
Definition user_list (a : ModuleAuth) : list (list Z) :=
  if bool_decide (ma_auth_users a = []) then []
  else List.filter (fun s => negb (bool_decide (s = []))) (map trim (split is_separator (ma_auth_users a))).

Definition from_config (config : ModuleConfig.t) : DaemonModule :=
  mkModule (ModuleConfig.name config) (ModuleConfig.path config) (ModuleConfig.read_only config) (ModuleConfig.list_ config)
    (ModuleConfig.comment config) (mkModuleAuth (ModuleConfig.auth_users config) (ModuleConfig.secrets_file config))
    (mkAccessControl (ModuleConfig.hosts_allow config) (ModuleConfig.hosts_deny config))
    (ModuleConfig.max_connections config) (ModuleConfig.timeout config) (ModuleConfig.exclude config)
    (ModuleConfig.include config) (ModuleConfig.filter config).

(** ** Host rules *)

Definition parse_u8 : list Z -> option Z := from_str_radix 10 0 255.
Definition octets (s : list Z) : list Z := omap parse_u8 (split (fun c => c =? 46) s).
Definition from_be_bytes (a b c d : Z) : Z := ((a * 256 + b) * 256 + c) * 256 + d.

(** The shift amount of a 32-bit shift counts modulo 32. *)
Definition cidr_match (network : list Z) (prefix_len : Z) (addr : list Z) : bool :=
  match octets network, octets addr with
  | [a; b; c; d], [a'; b'; c'; d'] =>
      let net_u32 := from_be_bytes a b c d in
      let addr_u32 := from_be_bytes a' b' c' d' in
      let mask := if 32 <=? prefix_len then 2 ^ 32 - 1 else as_u32 ((2 ^ 32 - 1) ≪ ((32 - prefix_len) mod 32)) in
      Z.land net_u32 mask =? Z.land addr_u32 mask
  | _, _ => false
  end.
Definition host_matches (pattern addr : list Z) : bool :=
  if bool_decide (pattern = [42]) then true
  else if bool_decide (pattern = addr) then true
  else match split_once 47 pattern with
       | Some (network, prefix_len_str) =>
           match parse_u8 prefix_len_str with Some prefix_len => cidr_match network prefix_len addr | None => false end
       | None => false
       end.
Definition check_host (access : AccessControl) (addr : IpAddr) : bool :=
  let addr_str := show_ip addr in
  if negb (bool_decide (ac_hosts_allow access = [])) then existsb (fun p => host_matches p addr_str) (ac_hosts_allow access)
  else if negb (bool_decide (ac_hosts_deny access = [])) && existsb (fun p => host_matches p addr_str) (ac_hosts_deny access)
  then false
  else true.

(** ** The registry *)

Record ModuleRegistry := mkRegistry {
  reg_modules : gmap (list Z) DaemonModule;
  reg_order : list (list Z);
}.
Definition ModuleRegistry_new : ModuleRegistry := mkRegistry ∅ [].
Definition register (r : ModuleRegistry) (module : DaemonModule) : ModuleRegistry :=
  let key := to_ascii_lowercase (mod_name module) in
  let order := if bool_decide (is_Some (reg_modules r !! key)) then reg_order r else reg_order r ++ [key] in
  mkRegistry (<[key := module]> (reg_modules r)) order.
Definition from_configs (configs : list ModuleConfig.t) : ModuleRegistry :=
  foldl (fun r config => register r (from_config config)) ModuleRegistry_new configs.
Definition resolve_module (r : ModuleRegistry) (name : list Z) : option DaemonModule := reg_modules r !! to_ascii_lowercase name.
Definition list_visible (r : ModuleRegistry) : list DaemonModule :=
  omap (fun name => m ← reg_modules r !! name; if mod_list m then Some m else None) (reg_order r).

(** ** The file by its sections

    What a line says, and the file as a whole: the pairs before the first
    section and those of every section [global] make up the settings of the
    server, every other section is a module of its own. *)

Inductive Item :=
  | Blank
  | Header (name : list Z)
  | Entry (key value : list Z)
  | Malformed (message : ParseMessage).

Definition classify (raw_line : list Z) : Item :=
  let line := trim raw_line in
  if bool_decide (line = []) || starts_with line [35] || starts_with line [59] then Blank
  else if starts_with line [91] then
    match split_once 93 line with Some (before, _) => Header (trim (tail before)) | None => Malformed UnterminatedSection end
  else match split_once 61 line with
       | Some (k, v) => Entry (normalize_key (trim k)) (trim v)
       | None => Malformed (ExpectedKeyValue line)
       end.

Fixpoint first_malformed (n : Z) (items : list Item) : option (Z * ParseMessage) :=
  match items with
  | [] => None
  | Malformed m :: _ => Some (n, m)
  | _ :: items' => first_malformed (n + 1) items'
  end.

(** The pairs up to the first header, and the sections. *)
Fixpoint sections (items : list Item) : list (list Z * list Z) * list (list Z * list (list Z * list Z)) :=
  match items with
  | [] => ([], [])
  | Header name :: items' => let '(pairs, secs) := sections items' in ([], (name, pairs) :: secs)
  | Entry k v :: items' => let '(pairs, secs) := sections items' in ((k, v) :: pairs, secs)
  | _ :: items' => sections items'
  end.

Definition is_global (section : list Z * list (list Z * list Z)) : bool := eq_ignore_ascii_case section.1 (str_bytes "global").
Definition set_all (m : ModuleConfig.t) (pairs : list (list Z * list Z)) : ModuleConfig.t :=
  foldl (fun m kv => apply_module_param m kv.1 kv.2) m pairs.
Definition module_of (section : list Z * list (list Z * list Z)) : ModuleConfig.t :=
  set_all (ModuleConfig.default section.1) section.2.
Definition last_values (kvs : gmap (list Z) (list Z)) (pairs : list (list Z * list Z)) : gmap (list Z) (list Z) :=
  foldl (fun m kv => <[kv.1 := kv.2]> m) kvs pairs.
Definition modules_in (secs : list (list Z * list (list Z * list Z))) : list ModuleConfig.t :=
  map module_of (List.filter (fun s => negb (is_global s)) secs).
Definition globals_in (secs : list (list Z * list (list Z * list Z))) : list (list Z * list Z) :=
  concat (map snd (List.filter is_global secs)).

Lemma last_values_app kvs p q : last_values kvs (p ++ q) = last_values (last_values kvs p) q.
Proof. apply foldl_app. Qed.

(** What an item does to the parser. *)
Definition on_item (st : ParserState) (item : Item) : ParserState :=
  match item with
  | Header name =>
      let st := finalize st in
      if eq_ignore_ascii_case name (str_bytes "global") then mkParserState (ps_modules st) None true (ps_kvs st)
      else mkParserState (ps_modules st) (Some (ModuleConfig.default name)) false (ps_kvs st)
  | Entry k v =>
      match ps_in_global st, ps_current st with
      | false, Some m => mkParserState (ps_modules st) (Some (apply_module_param m k v)) false (ps_kvs st)
      | g, c => mkParserState (ps_modules st) c g (<[k := v]> (ps_kvs st))
      end
  | _ => st
  end.
Lemma parse_line_item source_path n l st : parse_line source_path n l st =
  match classify l with Malformed m => inl (ConfigParse source_path n m) | item => inr (on_item st item) end.
Proof.
  unfold parse_line, classify. destruct (bool_decide _ || _ || _); [done|]. destruct (starts_with (trim l) [91]).
  - destruct (split_once 93 (trim l)) as [[before after]|]; [|done]. unfold on_item. by destruct (eq_ignore_ascii_case _ _).
  - destruct (split_once 61 (trim l)) as [[k v]|]; [|done]. unfold on_item. by destruct (ps_in_global st), (ps_current st).
Qed.

Lemma modules_in_cons sec secs : modules_in (sec :: secs) = if is_global sec then modules_in secs else module_of sec :: modules_in secs.
Proof. unfold modules_in. cbn [List.filter]. by destruct (is_global sec). Qed.
Lemma globals_in_cons sec secs : globals_in (sec :: secs) = if is_global sec then sec.2 ++ globals_in secs else globals_in secs.
Proof. unfold globals_in. cbn [List.filter]. by destruct (is_global sec). Qed.

(** What the parser has from a state on. *)
Definition parsed_from (source_path : list Z) (n : Z) (ls : list (list Z)) (st : ParserState) : Prop :=
  match first_malformed n (map classify ls) with
  | Some (i, m) => parse_lines source_path n ls st = inl (ConfigParse source_path i m)
  | None =>
      let '(pairs, secs) := sections (map classify ls) in
      exists st', parse_lines source_path n ls st = inr st' /\
        ps_modules (finalize st') = ps_modules st ++ match ps_current st with Some m => [set_all m pairs] | None => [] end ++ modules_in secs /\
        ps_kvs st' = last_values (ps_kvs st) (match ps_current st with Some _ => [] | None => pairs end ++ globals_in secs)
  end.
Lemma parse_lines_sections source_path n ls st : (ps_in_global st = true -> ps_current st = None) -> parsed_from source_path n ls st.
Proof.
  revert n st. induction ls as [|l ls IH]; intros n st Hst.
  { unfold parsed_from. cbn [map first_malformed sections parse_lines]. exists st. split; [done|]. split; [|by destruct (ps_current st)].
    unfold finalize, modules_in, set_all. cbn [ps_modules List.filter map foldl]. by rewrite app_nil_r. }
  assert (Hi : ps_in_global (on_item st (classify l)) = true -> ps_current (on_item st (classify l)) = None).
  { destruct (classify l) as [|name|k v|m]; cbn [on_item]; [done| |..|done].
    - by destruct (eq_ignore_ascii_case _ _).
    - by destruct (ps_in_global st), (ps_current st); cbn in *; auto. }
  specialize (IH (n + 1) _ Hi). unfold parsed_from in *. cbn [map first_malformed sections parse_lines]. rewrite parse_line_item.
  destruct (classify l) as [|name|k v|m]; cbn [mbind sum_bind]; [exact IH| |..|done];
    destruct (first_malformed (n + 1) _) as [[i m]|]; try done;
    destruct (sections (map classify ls)) as [pairs secs]; destruct IH as (st' & E & Em & Ek); exists st'; (split; [done|]); rewrite Em, Ek.
  - rewrite modules_in_cons, globals_in_cons. unfold is_global. cbn [on_item fst].
    by destruct (eq_ignore_ascii_case name (str_bytes "global")); cbn [ps_modules ps_current ps_kvs finalize]; rewrite <- app_assoc; destruct (ps_current st).
  - clear Em Ek E Hi. cbn [on_item].
    destruct (ps_in_global st); [rewrite Hst by done; done|]. by destruct (ps_current st).
Qed.

(** C24. The parser, line by line with its flag and its pending module, comes to
    what the file says section by section: the first malformed line is
    reported with its number; else the pairs before the first section and
    those of all global sections, the last of a key counting, set the server,
    and every other section in its order a module. *)
Theorem parse_config_sections content source_path :
  parse_config_str content source_path =
  match first_malformed 1 (map classify (lines content)) with
  | Some (i, m) => inl (ConfigParse source_path i m)
  | None =>
      let '(pairs, secs) := sections (map classify (lines content)) in
      inr (mkRsyncdConfig (apply_global_params GlobalConfig.default (last_values ∅ (pairs ++ globals_in secs))) (modules_in secs))
  end.
Proof.
  unfold parse_config_str. pose proof (parse_lines_sections source_path 1 (lines content) (mkParserState [] None false ∅) ltac:(done)) as Hp.
  unfold parsed_from in Hp. destruct (first_malformed _ _) as [[i m]|]; [by rewrite Hp|].
  destruct (sections _) as [pairs secs]. destruct Hp as (st' & E & Em & Ek). rewrite E. cbn [mbind sum_bind].
  change (ps_kvs (finalize st')) with (ps_kvs st'). cbn [ps_modules ps_current ps_kvs app] in Em, Ek. by rewrite Em, Ek.
Qed.

(** ** The registry *)

Definition key_of (config : ModuleConfig.t) : list Z := to_ascii_lowercase (ModuleConfig.name config).

(** Every module is under the lower-case form of its name and in the order
    exactly once. *)
Definition registry_ok (r : ModuleRegistry) : Prop :=
  NoDup (reg_order r) /\ (forall k, k ∈ reg_order r <-> is_Some (reg_modules r !! k)) /\
  (forall k m, reg_modules r !! k = Some m -> k = to_ascii_lowercase (mod_name m)).

Lemma register_ok r m : registry_ok r -> registry_ok (register r m).
Proof.
  intros (Hn & Ho & Hk). unfold register, registry_ok. cbn [reg_modules reg_order]. set (key := to_ascii_lowercase (mod_name m)).
  split_and!.
  - case_bool_decide as E; [done|]. apply NoDup_app. split; [done|]. split; [|apply NoDup_singleton].
    intros x Hx [->|[]%elem_of_nil]%elem_of_cons. by apply Ho in Hx.
  - intros k. destruct (decide (k = key)) as [->|Hne].
    + rewrite lookup_insert_eq. split; [by eauto|intros _]. case_bool_decide as E; [by apply Ho|].
      apply elem_of_app. right. by apply list_elem_of_singleton.
    + rewrite lookup_insert_ne by done. pose proof (Ho k) as Hok. case_bool_decide as E; [done|].
      rewrite elem_of_app, list_elem_of_singleton. tauto.
  - intros k m'. destruct (decide (k = key)) as [->|Hne]; [rewrite lookup_insert_eq; by intros [= <-]|].
    rewrite lookup_insert_ne by done. apply Hk.
Qed.
Lemma from_configs_snoc cs c : from_configs (cs ++ [c]) = register (from_configs cs) (from_config c).
Proof. unfold from_configs. by rewrite foldl_app. Qed.
Lemma from_configs_ok cs : registry_ok (from_configs cs).
Proof.
  induction cs as [|c cs IH] using rev_ind; [|rewrite from_configs_snoc; by apply register_ok].
  split_and!; [apply NoDup_nil_2| |done]. intros k. split; [by intros []%elem_of_nil|by intros [m Hm]].
Qed.

(** Under a name, in any case, the last module of that name. *)
Lemma resolve_last cs name : resolve_module (from_configs cs) name =
  from_config <$> last (List.filter (fun c => eq_ignore_ascii_case (ModuleConfig.name c) name) cs).
Proof.
  induction cs as [|c cs IH] using rev_ind; [done|]. rewrite from_configs_snoc, List.filter_app.
  unfold resolve_module, register in *. cbn [reg_modules List.filter]. unfold eq_ignore_ascii_case at 2.
  case_bool_decide as E; cbn [mod_name from_config].
  - by rewrite last_snoc, <- E, lookup_insert_eq.
  - rewrite app_nil_r, <- IH. by rewrite lookup_insert_ne.
Qed.

(** A listing shows every visible module once. *)
Lemma list_visible_elem r m : registry_ok r -> m ∈ list_visible r <-> exists name, resolve_module r name = Some m /\ mod_list m = true.
Proof.
  intros (Hn & Ho & Hk). unfold list_visible, resolve_module. rewrite list_elem_of_omap. split.
  - intros (k & Hin & E). destruct (reg_modules r !! k) as [m'|] eqn:Em; [|done]. cbn [mbind option_bind] in E.
    destruct (mod_list m') eqn:El; [|done]. injection E as ->. exists (mod_name m). by rewrite <- (Hk _ _ Em).
  - intros (name & E & El). exists (to_ascii_lowercase name). rewrite E. cbn [mbind option_bind]. rewrite El. split; [|done]. apply Ho. eauto.
Qed.
Lemma list_visible_once r : registry_ok r -> NoDup (map (fun m => to_ascii_lowercase (mod_name m)) (list_visible r)).
Proof.
  intros (Hn & _ & Hk). unfold list_visible. induction (reg_order r) as [|k l IH]; [apply NoDup_nil_2|].
  apply NoDup_cons in Hn as [Hnk Hn]. cbn [omap list_omap]. destruct (reg_modules r !! k) as [m|] eqn:Em; cbn [mbind option_bind]; [|by apply IH].
  destruct (mod_list m); [|by apply IH]. cbn [map]. apply NoDup_cons. split; [|by apply IH].
  rewrite <- (Hk _ _ Em). intros (m' & E & Hm')%list_elem_of_fmap. apply list_elem_of_omap in Hm' as (k' & Hin & E').
  destruct (reg_modules r !! k') as [m''|] eqn:Em'; [|done]. cbn [mbind option_bind] in E'. destruct (mod_list m''); [|done].
  injection E' as ->. apply Hk in Em'. by rewrite E, <- Em' in Hnk.
Qed.

(** ** Host rules *)

Lemma parse_u8_decimal n : 0 <= n < 256 -> parse_u8 (decimal n) = Some n.
Proof.
  intros Hn. assert (E : forall b, 0 <= b < 256 -> bool_decide (parse_u8 (decimal b) = Some b) = true) by byte_cases 256%nat.
  by specialize (E n Hn); apply bool_decide_eq_true_1 in E.
Qed.
Lemma decimal_no_dot n : 0 <= n < 256 -> Forall (fun c => c <> 46) (decimal n).
Proof.
  intros Hn. assert (E : forall b, 0 <= b < 256 -> forallb (fun c => negb (c =? 46)) (decimal b) = true) by byte_cases 256%nat.
  specialize (E n Hn). apply Forall_forall. intros c Hc%list_elem_of_In. rewrite forallb_forall in E. specialize (E c Hc).
  by destruct (Z.eqb_spec c 46).
Qed.
Lemma split_by_part (p : Z -> bool) part s sep rest : Forall (fun c => p c = false) s -> p sep = true ->
  split_by p part (s ++ sep :: rest) = (part ++ s) :: split_by p [] rest.
Proof.
  intros Hs Hsep. revert part. induction Hs as [|c s Hc _ IH]; intros part; cbn [app split_by]; [by rewrite Hsep, app_nil_r|].
  by rewrite Hc, IH, <- app_assoc.
Qed.
Lemma split_by_last (p : Z -> bool) part s : Forall (fun c => p c = false) s -> split_by p part s = [part ++ s].
Proof.
  intros Hs. revert part. induction Hs as [|c s Hc _ IH]; intros part; cbn [split_by]; [by rewrite app_nil_r|].
  by rewrite Hc, IH, <- app_assoc.
Qed.
Lemma octets_shown a b c d : 0 <= a < 256 -> 0 <= b < 256 -> 0 <= c < 256 -> 0 <= d < 256 -> octets (show_v4 a b c d) = [a; b; c; d].
Proof.
  assert (Hd : forall n, 0 <= n < 256 -> Forall (fun c => (c =? 46) = false) (decimal n)).
  { intros n Hn. eapply Forall_impl; [by apply decimal_no_dot|]. intros x Hx. by destruct (Z.eqb_spec x 46). }
  intros Ha Hb Hc Hd'. unfold octets, split, show_v4. rewrite !split_by_part by (done || by apply Hd). rewrite split_by_last by (by apply Hd).
  cbn [app omap list_omap]. by rewrite !parse_u8_decimal by done.
Qed.

(** The address as a number. *)
Definition v4_number (ip : Z * Z * Z * Z) : Z := let '(a, b, c, d) := ip in from_be_bytes a b c d.
Definition show_quad (ip : Z * Z * Z * Z) : list Z := let '(a, b, c, d) := ip in show_v4 a b c d.
Definition quad_ok (ip : Z * Z * Z * Z) : Prop := let '(a, b, c, d) := ip in 0 <= a < 256 /\ 0 <= b < 256 /\ 0 <= c < 256 /\ 0 <= d < 256.
Lemma v4_number_bound ip : quad_ok ip -> 0 <= v4_number ip < 2 ^ 32.
Proof. destruct ip as [[[a b] c] d]. unfold quad_ok, v4_number, from_be_bytes. lia. Qed.

Lemma masked x n : 0 <= x < 2 ^ 32 -> 1 <= n < 32 -> Z.land x (as_u32 ((2 ^ 32 - 1) ≪ (32 - n))) = x / 2 ^ (32 - n) * 2 ^ (32 - n).
Proof.
  intros Hx Hn. unfold wrap. rewrite <- Z.shiftl_mul_pow2, <- Z.shiftr_div_pow2 by lia. apply Z.bits_inj'. intros i Hi.
  rewrite Z.land_spec, Z.shiftl_spec by done. destruct (Z.ltb_spec i 32) as [Hlt|Hge].
  - rewrite Z.mod_pow2_bits_low, Z.shiftl_spec by done. destruct (Z.ltb_spec i (32 - n)) as [Hl|Hl].
    + rewrite !(Z.testbit_neg_r _ (i - (32 - n))) by lia. apply andb_false_r.
    + change (2 ^ 32 - 1) with (Z.ones 32). rewrite Z.ones_spec_low, andb_true_r, Z.shiftr_spec by lia. f_equal. lia.
  - rewrite Z.mod_pow2_bits_high, andb_false_r, Z.shiftr_spec by lia. symmetry. replace (i - (32 - n) + (32 - n)) with i by lia.
    apply Z.bits_above_log2; [lia|]. destruct (decide (x = 0)) as [->|]; [cbn; lia|]. apply Z.log2_lt_pow2; [lia|]. eapply Z.lt_le_trans; [apply Hx|]. apply Z.pow_le_mono_r; lia.
Qed.
(** A network of [n] bits, [n] not 0, is the addresses that agree on the first
    [n] bits. *)
Lemma cidr_prefix net ip n : quad_ok net -> quad_ok ip -> 1 <= n <= 32 ->
  cidr_match (show_quad net) n (show_quad ip) = (v4_number net / 2 ^ (32 - n) =? v4_number ip / 2 ^ (32 - n)).
Proof.
  intros Hnet Hip Hn. pose proof (v4_number_bound _ Hnet) as Bnet. pose proof (v4_number_bound _ Hip) as Bip.
  destruct net as [[[a b] c] d], ip as [[[a' b'] c'] d']. unfold cidr_match, show_quad, v4_number, quad_ok in *.
  rewrite !octets_shown by tauto. destruct (Z.leb_spec 32 n).
  - assert (n = 32) as -> by lia. change (2 ^ 32 - 1) with (Z.ones 32). rewrite !Z.land_ones, !Z.mod_small by (done || lia).
    change (32 - 32) with 0. by rewrite !Z.div_1_r.
  - rewrite (Z.mod_small (32 - n)), !masked by (done || lia). apply eq_bool_prop_intro. rewrite !Is_true_true, !Z.eqb_eq.
    split; [|by intros ->]. intros E%Z.mul_cancel_r; [done|]. apply Z.pow_nonzero; lia.
Qed.
(** One of 0 bits is not everybody: it is that one address. *)
Lemma cidr_zero net ip : quad_ok net -> quad_ok ip -> cidr_match (show_quad net) 0 (show_quad ip) = (v4_number net =? v4_number ip).
Proof.
  intros Hnet Hip. pose proof (v4_number_bound _ Hnet) as Bnet. pose proof (v4_number_bound _ Hip) as Bip.
  destruct net as [[[a b] c] d], ip as [[[a' b'] c'] d']. unfold cidr_match, show_quad, v4_number, quad_ok in *.
  rewrite !octets_shown by tauto. cbn [Z.leb Z.compare]. change (as_u32 ((2 ^ 32 - 1) ≪ ((32 - 0) mod 32))) with (Z.ones 32).
  by rewrite !Z.land_ones, !Z.mod_small by (done || lia).
Qed.

(** Who is let in: when there are allowed hosts these only, the denied ones
    not even looked at; else all but the denied. *)
Lemma check_host_allows access addr : check_host access addr = true <->
  (ac_hosts_allow access <> [] /\ exists p, p ∈ ac_hosts_allow access /\ host_matches p (show_ip addr) = true) \/
  (ac_hosts_allow access = [] /\ forall p, p ∈ ac_hosts_deny access -> host_matches p (show_ip addr) = false).
Proof.
  unfold check_host. destruct (ac_hosts_allow access) as [|a l] eqn:Ea; cbn [bool_decide negb andb].
  - rewrite bool_decide_true by done. cbn [negb]. assert (Hx : existsb (fun p => host_matches p (show_ip addr)) (ac_hosts_deny access) = true <->
      exists p, p ∈ ac_hosts_deny access /\ host_matches p (show_ip addr) = true).
    { rewrite existsb_exists. split; intros (p & Hp & E); exists p; by rewrite list_elem_of_In in *. }
    destruct (ac_hosts_deny access) as [|d ds] eqn:Ed.
    { rewrite bool_decide_true by done. split; [|done]. intros _. right. split; [done|]. by intros p []%elem_of_nil. }
    rewrite bool_decide_false by done. cbn [negb andb]. destruct (existsb _ _) eqn:Ex.
    + split; [done|]. intros [[? _]|[_ Hall]]; [done|]. destruct (proj1 Hx eq_refl) as (p & Hp & E). by rewrite Hall in E.
    + split; [|done]. intros _. right. split; [done|]. intros p Hp. destruct (host_matches p (show_ip addr)) eqn:E; [|done]. exfalso.
      destruct Hx as [_ Hx]. discriminate Hx. eauto.
  - rewrite bool_decide_false by done. cbn [negb]. rewrite existsb_exists. split.
    + intros (p & Hp & E). left. split; [done|]. exists p. by rewrite list_elem_of_In.
    + intros [[_ (p & Hp & E)]|[? _]]; [|done]. exists p. by rewrite <- list_elem_of_In.
Qed.

(** A list of nothing but separators authorizes nobody, and yet is a list. *)
Lemma auth_users_examples :
  requires_auth (mkModuleAuth [44] None) = true /\ user_list (mkModuleAuth [44] None) = [] /\
  user_list (mkModuleAuth (str_bytes "alice, bob") None) = [str_bytes "alice"; str_bytes "bob"].
Proof. vm_compute. split_and!; reflexivity. Qed.

Lemma config_example :
  exists config, parse_config_str (str_bytes "port = 8730
[pub]
 path = /srv/pub
 Hosts Allow = 10.0.0.0/8, 192.168.0.0/16
 read only = no
[GLOBAL]
 timeout = 30
 port = 9000
[Pub]
 path = /srv/other
 odd = 1") [] = inr config /\
  GlobalConfig.port (cfg_global config) = 9000 /\ GlobalConfig.timeout (cfg_global config) = 30 /\
  map ModuleConfig.path (cfg_modules config) = [str_bytes "/srv/pub"; str_bytes "/srv/other"] /\
  (ModuleConfig.path <$> find_module config (str_bytes "PUB")) = Some (str_bytes "/srv/pub") /\
  (mod_path <$> resolve_module (from_configs (cfg_modules config)) (str_bytes "PUB")) = Some (str_bytes "/srv/other") /\
  parse_config_str (str_bytes "[a]
  nonsense") (str_bytes "f") = inl (ConfigParse (str_bytes "f") 2 (ExpectedKeyValue (str_bytes "nonsense"))).
Proof. vm_compute. eexists. split_and!; reflexivity. Qed.
