(* ===== verification/Daemon.v ===== *)
(** [ferrosync-server/src/listener.rs]: the text protocol a daemon speaks with a
    client until it hands the connection to a session.

    A [Conn] is the bytes that are still to come from the client, until it
    closes, and those sent to it.  The listener's accept loop runs one
    [handle_connection] per client and shares nothing between them but the
    registry, which it only reads. *)
From S2P Require Import Prelude Wire Types Text Utf8 Filter Scanner Fs Listing Numerals TextOps Checksum Handshake Ip Auth Rsyncd.

Record Conn := mkConn {
  cn_in : list Z;
  cn_out : list Z;
}.

Inductive ConnError :=
  | ClientClosed
  | NotUtf8
  | LineTooLong (len : nat)
  | InvalidGreeting (line : list Z)
  | InvalidVersion (version : list Z)
  | OutOfSteps.

Abbreviation conn_act := (act ConnError Conn).

Definition DAEMON_PROTOCOL_VERSION : Z := MAX_PROTOCOL_VERSION.
Definition DAEMON_SUB_PROTOCOL_VERSION : Z := 0.
Definition MAX_LINE_LENGTH : nat := Z.to_nat 8192.

(** [writer.write_all(..)] *)
Definition say (bs : list Z) : conn_act unit := fun c => (inr tt, mkConn (cn_in c) (cn_out c ++ bs)).

(** Up to and with the next line feed, or to the end of the stream. *)
Fixpoint take_line (i : list Z) : list Z * list Z :=
  match i with
  | [] => ([], [])
  | b :: i' => if b =? 10 then ([b], i') else let '(l, r) := take_line i' in (b :: l, r)
  end.
Definition chomp (line : list Z) : list Z := pop_char 13 (pop_char 10 line).

Definition read_line : conn_act (list Z) := fun c =>
  let '(line, rest) := take_line (cn_in c) in
  let c := mkConn rest (cn_out c) in
  if bool_decide (line = []) then (inl ClientClosed, c)
  else if negb (utf8_valid line) then (inl NotUtf8, c)
  else if (MAX_LINE_LENGTH <? length line)%nat then (inl (LineTooLong (length line)), c)
  else (inr (chomp line), c).

Definition GREETING : list Z := str_bytes "@RSYNCD: ".
Definition parse_version (greeting : list Z) : ConnError + Z :=
  let version_str := trim (trim_start_matches GREETING greeting) in
  let major_str := hd version_str (split (fun c => c =? 46) version_str) in
  let major_str := hd major_str (split_whitespace major_str) in
  match parse_u8 major_str with Some major => inr major | None => inl (InvalidVersion version_str) end.

(** [for line in text.lines()], [for module in ..] *)
Fixpoint say_each {A} (f : A -> list Z) (l : list A) : conn_act unit :=
  match l with [] => mret tt | x :: l' => _ ← say (f x); say_each f l' end.

(** Lines up to an empty one. *)
Fixpoint read_args (fuel : nat) : conn_act (list (list Z)) :=
  match fuel with
  | O => of_sum (inl OutOfSteps)
  | S fuel' =>
      line ← read_line;
      if bool_decide (line = []) then mret []
      else args ← read_args fuel'; mret (line :: args)
  end.

Section listener.
  Context (H : HashLib) (read_to_string : list Z -> option (list Z)).
  (** What a challenge is made of: the clock, the process, the counter. *)
  Context (secs nanos pid counter : Z).

Definition auth_failed (module_name : list Z) : list Z := str_bytes "@ERROR: auth failed on module " ++ module_name ++ [10].

(** Step 6; whether the client may go on. *)
Definition authenticate (module : DaemonModule) (module_name : list Z) : conn_act bool :=
  if requires_auth (mod_auth module) then
    let challenge := generate_challenge H secs nanos pid counter in
    _ ← say (str_bytes "@RSYNCD: AUTHREQD " ++ challenge ++ [10]);
    auth_line ← read_line;
    match parse_auth_response auth_line with
    | inl _ => _ ← say (auth_failed module_name); mret false
    | inr (user, client_hash) =>
        let authorized_users := user_list (mod_auth module) in
        if negb (bool_decide (authorized_users = [])) && negb (bool_decide (user ∈ authorized_users)) then
          _ ← say (auth_failed module_name); mret false
        else
          match ma_secrets_file (mod_auth module) with
          | Some secrets_path =>
              match verify_response H read_to_string user client_hash challenge secrets_path with
              | inl _ => _ ← say (auth_failed module_name); mret false
              | inr _ => mret true
              end
          | None => mret true
          end
    end
  else mret true.

(** One connection, to the hand-over: the module and the arguments of the
    session, if there is to be one. *)
Definition handle_connection (peer_ip : IpAddr) (registry : ModuleRegistry) (motd : option (list Z))
    : conn_act (option (DaemonModule * list (list Z))) :=
  _ ← say (GREETING ++ decimal DAEMON_PROTOCOL_VERSION ++ 46 :: decimal DAEMON_SUB_PROTOCOL_VERSION ++ [10]);
  client_greeting ← read_line;
  if negb (starts_with client_greeting GREETING) then
    _ ← say (str_bytes "@ERROR: protocol startup error" ++ [10]);
    of_sum (inl (InvalidGreeting client_greeting))
  else
    _ ← of_sum (parse_version client_greeting);
    _ ← match motd with Some text => say_each (fun line => line ++ [10]) (lines text) | None => mret tt end;
    module_name ← read_line;
    if bool_decide (module_name = []) || bool_decide (module_name = str_bytes "#list") then
      _ ← say_each (fun m => mod_name m ++ 9 :: mod_comment m ++ [10]) (list_visible registry);
      _ ← say (str_bytes "@RSYNCD: EXIT" ++ [10]);
      mret None
    else if starts_with module_name [35] then
      _ ← say (str_bytes "@ERROR: Unknown command '" ++ module_name ++ 39 :: [10]);
      mret None
    else
      match resolve_module registry module_name with
      | None => _ ← say (str_bytes "@ERROR: Unknown module '" ++ module_name ++ 39 :: [10]); mret None
      | Some module =>
          if negb (check_host (mod_access module) peer_ip) then
            _ ← say (str_bytes "@ERROR: access denied to " ++ module_name ++ str_bytes " from " ++ show_ip peer_ip ++
                     str_bytes " (" ++ show_ip peer_ip ++ 41 :: [10]);
            mret None
          else
            ok ← authenticate module module_name;
            if (ok : bool) then
              _ ← say (str_bytes "@RSYNCD: OK" ++ [10]);
              args ← (fun c => read_args (S (length (cn_in c))) c) : conn_act (list (list Z));
              mret (Some (module, args))
            else mret None
      end.
End listener.
