(* ===== verification/DaemonClient.v ===== *)
(** [ferrosync-transport/src/daemon.rs]: the client of the text protocol.

    A [Conn] is seen from the client's end: the bytes that the daemon sends
    until it closes, and those sent to it.  The TCP connection itself is not
    modelled. *)
From S2P Require Import Prelude Wire Types Text Utf8 Filter Scanner Fs Listing Numerals TextOps Checksum Handshake Auth Rsyncd Daemon.

Record ListedModule := mkListed {
  lm_name : list Z;
  lm_comment : list Z;
}.
Record DaemonTransportConfig := mkTransportConfig {
  dt_module : list Z;
  dt_path : list Z;
  dt_user : option (list Z);
  dt_password : option (list Z);
}.

Inductive ConnectionError :=
  | ClosedUnexpectedly
  | DaemonLineTooLong
  | NoGreeting (line : list Z)
  | InvalidDaemonVersion (version : list Z)
  | SentExit
  | ErrorMessage (message : list Z).
(** [OutOfTurns]: the fuel. *)
Inductive TransportError :=
  | ConnectionFailed (e : ConnectionError)
  | ModuleNotFound (module : list Z)
  | AuthRefused (module : list Z)
  | UnexpectedAfterAuth (line : list Z)
  | OutOfTurns.

Abbreviation client_act := (act TransportError Conn).

Definition send (bs : list Z) : client_act unit := fun c => (inr tt, mkConn (cn_in c) (cn_out c ++ bs)).

Module Client.
Definition read_line : client_act (list Z) := fun c =>
  let '(line, rest) := take_line (cn_in c) in
  let c := mkConn rest (cn_out c) in
  if bool_decide (line = []) then (inl (ConnectionFailed ClosedUnexpectedly), c)
  else if (MAX_LINE_LENGTH <? length line)%nat then (inl (ConnectionFailed DaemonLineTooLong), c)
  else (inr (chomp (from_utf8_lossy line)), c).
End Client.

(** ** Greetings *)

Record DaemonGreeting := mkGreeting {
  version : Z;
  digest_list : list (list Z);
}.
Definition AUTH_DIGEST_LIST : list Z := str_bytes "md5 md4".

Definition read_greeting : client_act DaemonGreeting :=
  line ← Client.read_line;
  if negb (starts_with line GREETING) then of_sum (inl (ConnectionFailed (NoGreeting line)))
  else
    let version_str := trim (trim_start_matches GREETING line) in
    let tokens := split_whitespace version_str in
    let ver_token := hd version_str tokens in
    let major_str := hd ver_token (split (fun c => c =? 46) ver_token) in
    match parse_u8 major_str with
    | Some v => mret (mkGreeting v (tail tokens))
    | None => of_sum (inl (ConnectionFailed (InvalidDaemonVersion version_str)))
    end.
Definition send_greeting : client_act unit :=
  send (GREETING ++ decimal DAEMON_PROTOCOL_VERSION ++ 46 :: decimal DAEMON_SUB_PROTOCOL_VERSION ++
        (if 32 <=? DAEMON_PROTOCOL_VERSION then 32 :: AUTH_DIGEST_LIST else []) ++ [10]).

(** ** Authentication *)

Inductive AuthDigest := Md4Digest | Md5Digest.
(** One name of our list; a name that is neither is passed over. *)
Fixpoint first_digest (server_digests ours : list (list Z)) : AuthDigest :=
  match ours with
  | [] => Md4Digest
  | our :: ours' =>
      if existsb (fun s => bool_decide (s = our)) server_digests then
        if bool_decide (our = str_bytes "md5") then Md5Digest
        else if bool_decide (our = str_bytes "md4") then Md4Digest
        else first_digest server_digests ours'
      else first_digest server_digests ours'
  end.
Definition negotiate_auth_digest (server_digests : list (list Z)) : AuthDigest :=
  if bool_decide (server_digests = []) then Md4Digest
  else first_digest server_digests (split_whitespace AUTH_DIGEST_LIST).

Section client.
  Context (H : HashLib).

Definition digest_of (d : AuthDigest) : Digest := match d with Md4Digest => md4 H | Md5Digest => md5 H end.
Definition compute_auth_response (challenge user password : list Z) (digest : AuthDigest) : list Z :=
  let d := digest_of digest in
  let hash := dg_finalize d (dg_update d (dg_update d (dg_new d) (padded password)) challenge) in
  user ++ 32 :: base64_encode hash ++ [10].

Definition OK_LINE : list Z := str_bytes "@RSYNCD: OK".
Definition EXIT_LINE : list Z := str_bytes "@RSYNCD: EXIT".
Definition AUTHREQD : list Z := str_bytes "@RSYNCD: AUTHREQD ".
Definition ERROR : list Z := str_bytes "@ERROR:".
Definition error_text (line : list Z) : list Z := trim (trim_start_matches ERROR line).

Section connect.
  Context (config : DaemonTransportConfig) (am_sender : bool) (options : list (list Z)).

Definition build_args : list (list Z) :=
  [str_bytes "--server"] ++ (if negb am_sender then [str_bytes "--sender"] else []) ++ options ++ [[46]] ++
  [if bool_decide (dt_path config = []) then [46] else dt_path config].

(** The answer to a challenge, and what comes of it. *)
Definition answer_challenge (remote : DaemonGreeting) (line : list Z) : client_act unit :=
  let challenge := trim (trim_start_matches AUTHREQD line) in
  let digest := negotiate_auth_digest (digest_list remote) in
  _ ← send (compute_auth_response challenge (from_option id [] (dt_user config)) (from_option id [] (dt_password config)) digest);
  auth_line ← Client.read_line;
  if starts_with auth_line OK_LINE then mret tt
  else if starts_with auth_line ERROR then
    let msg := error_text auth_line in
    if contains msg (str_bytes "auth failed") then of_sum (inl (AuthRefused (dt_module config)))
    else of_sum (inl (ConnectionFailed (ErrorMessage msg)))
  else of_sum (inl (UnexpectedAfterAuth auth_line)).

(** Lines of the daemon up to its verdict. *)
Fixpoint await_module (fuel : nat) (remote : DaemonGreeting) : client_act unit :=
  match fuel with
  | O => of_sum (inl OutOfTurns)
  | S fuel' =>
      line ← Client.read_line;
      if starts_with line OK_LINE then mret tt
      else if starts_with line AUTHREQD then answer_challenge remote line
      else if starts_with line ERROR then
        let msg := error_text line in
        if contains msg (str_bytes "Unknown module") then of_sum (inl (ModuleNotFound (dt_module config)))
        else of_sum (inl (ConnectionFailed (ErrorMessage msg)))
      else if starts_with line EXIT_LINE then of_sum (inl (ConnectionFailed SentExit))
      else await_module fuel' remote
  end.

(** After this the stream, as it then stands, belongs to the binary protocol. *)
Definition connect : client_act unit :=
  remote ← read_greeting;
  _ ← send_greeting;
  _ ← send (dt_module config ++ [10]);
  _ ← ((fun c => await_module (S (length (cn_in c))) remote c) : client_act unit);
  _ ← send (concat (map (fun arg => arg ++ [10]) build_args));
  send [10].
End connect.

(** ** The list of modules *)

Definition listed (line : list Z) : option ListedModule :=
  let '(name, comment) :=
    match split_once 9 line with Some (n, c) => (trim n, trim c) | None => (trim line, []) end in
  if negb (bool_decide (name = [])) then Some (mkListed name comment) else None.
Fixpoint read_listing (fuel : nat) : client_act (list ListedModule) :=
  match fuel with
  | O => of_sum (inl OutOfTurns)
  | S fuel' =>
      line ← Client.read_line;
      if starts_with line EXIT_LINE then mret []
      else if starts_with line ERROR then of_sum (inl (ConnectionFailed (ErrorMessage (error_text line))))
      else modules ← read_listing fuel'; mret (match listed line with Some m => m :: modules | None => modules end)
  end.
Definition list_modules : client_act (list ListedModule) :=
  _ ← read_greeting;
  _ ← send_greeting;
  _ ← send (str_bytes "#list" ++ [10]);
  ((fun c => read_listing (S (length (cn_in c))) c) : client_act (list ListedModule)).
End client.
