(* ===== verification/DaemonSpec.v ===== *)
(** The daemon's text protocol: who gets a session, and that client and daemon
    of this program understand each other. *)
From S2P Require Import Prelude Wire Types Text Utf8 Filter Scanner Fs Listing Numerals TextOps Checksum Handshake Ip Auth Rsyncd Daemon DaemonClient.

(** ** Lines *)

Lemma take_line_eq i : take_line i = ((take_line i).1, (take_line i).2) /\ i = (take_line i).1 ++ (take_line i).2.
Proof.
  split; [by destruct (take_line i)|]. induction i as [|b i IH]; [done|]. cbn [take_line]. destruct (b =? 10); [done|].
  destruct (take_line i) as [l r]. cbn [fst snd] in *. by rewrite IH at 1.
Qed.
Lemma take_line_app l k : 10 ∉ l -> take_line (l ++ 10 :: k) = (l ++ [10], k).
Proof.
  induction l as [|b l IH]; intros Hl; cbn [app take_line]; [done|]. apply not_elem_of_cons in Hl as [Hb Hl].
  destruct (Z.eqb_spec b 10); [congruence|]. by rewrite IH.
Qed.

(** The next line the daemon accepts, and what follows it. *)
Definition next_line (i : list Z) : option (list Z * list Z) :=
  let '(line, rest) := take_line i in
  if bool_decide (line = []) || negb (utf8_valid line) || (MAX_LINE_LENGTH <? length line)%nat then None
  else Some (chomp line, rest).
Lemma read_line_next c l c' : read_line c = (inr l, c') <-> next_line (cn_in c) = Some (l, cn_in c') /\ cn_out c' = cn_out c.
Proof.
  unfold read_line, next_line. destruct (take_line (cn_in c)) as [line rest].
  destruct (bool_decide (line = [])), (utf8_valid line), (MAX_LINE_LENGTH <? length line)%nat; cbn [negb orb];
    (split; [try (by intros [= <- <-])|try (by intros [[= <- E1] E2]; destruct c'; cbn in *; subst)]); done.
Qed.
Lemma next_line_shorter i l rest : next_line i = Some (l, rest) -> (length rest < length i)%nat.
Proof.
  unfold next_line. destruct (take_line_eq i) as [E1 E2]. rewrite E1. set (line := (take_line i).1) in *. set (r := (take_line i).2) in *.
  clearbody line r. destruct (bool_decide_reflect (line = [])) as [|Hl]; [done|]. destruct (_ || _); [done|]. intros [= _ <-].
  rewrite E2, length_app. destruct line; [done|]. cbn [length]. lia.
Qed.

Fixpoint lines_read (i : list Z) (ls : list (list Z)) (rest : list Z) : Prop :=
  match ls with
  | [] => i = rest
  | l :: ls' => exists i', next_line i = Some (l, i') /\ lines_read i' ls' rest
  end.
Lemma lines_read_app i l1 l2 rest : lines_read i (l1 ++ l2) rest <-> exists i', lines_read i l1 i' /\ lines_read i' l2 rest.
Proof.
  revert i. induction l1 as [|l l1 IH]; intros i; cbn [app lines_read].
  - split; [eauto|by intros (i' & -> & H)].
  - split.
    + intros (i1 & E & (i2 & H1 & H2)%IH). eauto.
    + intros (i2 & (i1 & E & H1) & H2). exists i1. split; [done|]. apply IH. eauto.
Qed.

Lemma read_args_lines fuel c args c' : (length (cn_in c) < fuel)%nat ->
  read_args fuel c = (inr args, c') <->
  lines_read (cn_in c) (args ++ [[]]) (cn_in c') /\ Forall (fun l => l <> []) args /\ cn_out c' = cn_out c.
Proof.
  revert c args. induction fuel as [|fuel IH]; intros c args Hf; [lia|]. cbn [read_args]. unfold mbind, act_bind. split.
  - destruct (read_line c) as [[e|l] c1] eqn:E; [done|]. apply read_line_next in E as [E Eo].
    pose proof (next_line_shorter _ _ _ E) as Hs. case_bool_decide as El.
    + intros [= <- <-]. cbn [app lines_read]. split_and!; [|constructor|done]. subst l. eauto.
    + destruct (read_args fuel c1) as [[e|args'] c2] eqn:Ea; [done|]. intros [= <- <-]. apply IH in Ea as (Hr & Hn & Ho); [|lia].
      split_and!; [|by constructor|congruence]. cbn [app lines_read]. eauto.
  - intros (Hr & Hn & Ho). destruct args as [|a args]; cbn [app lines_read] in Hr; destruct Hr as (i' & E & Hr).
    + assert (El : read_line c = (inr [], c')) by (apply read_line_next; by rewrite E, Hr). by rewrite El.
    + apply Forall_cons in Hn as [Ha Hn]. assert (El : read_line c = (inr a, mkConn i' (cn_out c))) by by apply read_line_next.
      rewrite El, bool_decide_false by done. pose proof (next_line_shorter _ _ _ E) as Hs.
      assert (Ea : read_args fuel (mkConn i' (cn_out c)) = (inr args, c')) by (apply IH; [cbn; lia|by split_and!]). by rewrite Ea.
Qed.

(** ** Who is admitted *)

Section admission.
  Context (H : HashLib) (read_to_string : list Z -> option (list Z)) (secs nanos pid counter : Z).

(** What a module asks of those who want in. *)
Definition credentials (m : DaemonModule) (answers : list (list Z)) : Prop :=
  if requires_auth (mod_auth m) then
    exists line user hash, answers = [line] /\ parse_auth_response line = inr (user, hash) /\
      (user_list (mod_auth m) = [] \/ user ∈ user_list (mod_auth m)) /\
      match ma_secrets_file (mod_auth m) with
      | Some path => exists content password, read_to_string path = Some content /\
          find_password user (lines content) = inr password /\
          hash = compute_response H password (generate_challenge H secs nanos pid counter)
      | None => True
      end
  else answers = [].

(** A client that greets, names a module it may use from where it is, answers
    for itself and gives its arguments. *)
Definition admitted (ip : IpAddr) (registry : ModuleRegistry) (i : list Z) (m : DaemonModule) (args : list (list Z)) (rest : list Z) : Prop :=
  exists greeting v name answers,
    lines_read i (greeting :: name :: answers ++ args ++ [[]]) rest /\
    starts_with greeting GREETING = true /\ parse_version greeting = inr v /\
    name <> [] /\ starts_with name [35] = false /\ resolve_module registry name = Some m /\
    check_host (mod_access m) ip = true /\ credentials m answers /\ Forall (fun l => l <> []) args.

Lemma say_run bs c : say bs c = (inr tt, mkConn (cn_in c) (cn_out c ++ bs)).
Proof. done. Qed.
Lemma say_each_run {A} (f : A -> list Z) l c : say_each f l c = (inr tt, mkConn (cn_in c) (cn_out c ++ concat (map f l))).
Proof.
  revert c. induction l as [|x l IH]; intros c; cbn [say_each map concat]; [destruct c; by rewrite app_nil_r|].
  unfold mbind, act_bind. rewrite say_run, IH. cbn [cn_in cn_out]. by rewrite app_assoc.
Qed.
Definition motd_bytes (motd : option (list Z)) : list Z :=
  match motd with Some text => concat (map (fun line => line ++ [10]) (lines text)) | None => [] end.
Lemma say_motd motd c :
  (match motd with Some text => say_each (fun line => line ++ [10]) (lines text) | None => mret tt end) c =
  (inr tt, mkConn (cn_in c) (cn_out c ++ motd_bytes motd)).
Proof. destruct motd as [text|]; [apply say_each_run|]. destruct c. cbn. by rewrite app_nil_r. Qed.

Lemma authenticate_admits m name c c' :
  authenticate H read_to_string secs nanos pid counter m name c = (inr true, c') ->
  exists answers, lines_read (cn_in c) answers (cn_in c') /\ credentials m answers.
Proof.
  unfold authenticate, credentials. destruct (requires_auth (mod_auth m)); [|intros [= <-]; exists []; done].
  unfold mbind, act_bind. rewrite say_run. destruct (read_line _) as [[e|line] c1] eqn:E; [done|].
  apply read_line_next in E as [E _]. cbn [cn_in] in E. destruct (parse_auth_response line) as [e|[user hash]] eqn:Ep; [done|].
  destruct (negb (bool_decide (user_list (mod_auth m) = [])) && negb (bool_decide (user ∈ user_list (mod_auth m)))) eqn:Eu; [done|].
  intros Hs. assert (Hc : c1 = c' /\ match ma_secrets_file (mod_auth m) with
      | Some path => verify_response H read_to_string user hash (generate_challenge H secs nanos pid counter) path = inr tt | None => True end).
  { destruct (ma_secrets_file (mod_auth m)) as [path|]; [|by injection Hs]. destruct (verify_response _ _ _ _ _ _) as [e|[]]; [done|by injection Hs]. }
  destruct Hc as [-> Hv]. exists [line]. split; [cbn; eauto|]. exists line, user, hash. split_and!; [done..| |].
  - apply andb_false_iff in Eu as [Eu|Eu]; apply negb_false_iff, bool_decide_eq_true in Eu; auto.
  - destruct (ma_secrets_file (mod_auth m)) as [path|]; [|done]. by apply verify_decides.
Qed.
Lemma authenticate_complete m name c answers rest : lines_read (cn_in c) answers rest -> credentials m answers ->
  exists o, authenticate H read_to_string secs nanos pid counter m name c = (inr true, mkConn rest o).
Proof.
  unfold authenticate, credentials. destruct (requires_auth (mod_auth m)); [|intros Hr ->; cbn in Hr; subst rest; destruct c; by eexists].
  intros Hr (line & user & hash & -> & Ep & Hu & Hv). cbn in Hr. destruct Hr as (i' & E & <-).
  unfold mbind, act_bind. rewrite say_run. set (c1 := mkConn _ _).
  assert (El : read_line c1 = (inr line, mkConn i' (cn_out c1))) by by apply read_line_next. rewrite El, Ep.
  assert (Eu : negb (bool_decide (user_list (mod_auth m) = [])) && negb (bool_decide (user ∈ user_list (mod_auth m))) = false).
  { destruct Hu as [Hu|Hu]; [by rewrite bool_decide_true|]. rewrite (bool_decide_true (user ∈ _)) by done. apply andb_false_r. }
  rewrite Eu. destruct (ma_secrets_file (mod_auth m)) as [path|]; [|by eexists]. apply verify_decides in Hv. rewrite Hv. by eexists.
Qed.

Lemma handed_over_admitted ip registry motd c m args rest o :
  handle_connection H read_to_string secs nanos pid counter ip registry motd c = (inr (Some (m, args)), mkConn rest o) ->
  admitted ip registry (cn_in c) m args rest.
Proof.
  unfold handle_connection, admitted. unfold mbind, act_bind. rewrite say_run. set (c0 := mkConn _ _).
  assert (Hc0 : cn_in c0 = cn_in c) by done.
  intros Hrun. destruct (read_line c0) as [[e|greeting] c1] eqn:E1; [done|]. apply read_line_next in E1 as [E1 _].
  destruct (starts_with greeting GREETING) eqn:Eg; cbn [negb] in Hrun; [|done]. unfold of_sum in Hrun at 1.
  destruct (parse_version greeting) as [e|v] eqn:Ev; [done|]. rewrite say_motd in Hrun.
  destruct (read_line _) as [[e|name] c2] eqn:E2 in Hrun; [done|]. apply read_line_next in E2 as [E2 _]. cbn [cn_in] in E2.
  destruct (bool_decide_reflect (name = [])) as [|Hn]; cbn [orb] in Hrun; [by rewrite say_each_run in Hrun|].
  destruct (bool_decide (name = str_bytes "#list")); cbn [orb] in Hrun; [by rewrite say_each_run in Hrun|].
  destruct (starts_with name [35]) eqn:Eh; [done|]. destruct (resolve_module registry name) as [m'|] eqn:Em; [|done].
  destruct (check_host (mod_access m') ip) eqn:Ec; cbn [negb] in Hrun; [|done].
  destruct (authenticate _ _ _ _ _ _ m' name c2) as [[e|[]] c3] eqn:Ea; try done. apply authenticate_admits in Ea as (answers & Hr & Hcr).
  rewrite say_run in Hrun. destruct (read_args _ _) as [[e|args'] c4] eqn:E4 in Hrun; [done|]. injection Hrun as -> -> ->.
  apply read_args_lines in E4 as (Hl & Hne & _); [|lia]. cbn [cn_in] in Hl.
  exists greeting, v, name, answers. split_and!; try done. rewrite Hc0 in E1. cbn [lines_read]. exists (cn_in c1). split; [done|].
  exists (cn_in c2). split; [done|]. apply lines_read_app. eauto.
Qed.
Lemma admitted_handed_over ip registry motd c m args rest : admitted ip registry (cn_in c) m args rest ->
  exists o, handle_connection H read_to_string secs nanos pid counter ip registry motd c = (inr (Some (m, args)), mkConn rest o).
Proof.
  unfold handle_connection, admitted. unfold mbind, act_bind. rewrite say_run. set (c0 := mkConn _ _).
  assert (Hc0 : cn_in c0 = cn_in c) by done.
  intros (greeting & v & name & answers & Hl & Eg & Ev & Hn & Eh & Em & Ec & Hcr & Hne).
  cbn [lines_read] in Hl. destruct Hl as (i1 & E1 & i2 & E2 & (i3 & Hr & Hl)%lines_read_app).
  assert (R1 : read_line c0 = (inr greeting, mkConn i1 (cn_out c0))) by (apply read_line_next; by rewrite Hc0). rewrite R1, Eg.
  cbn [negb]. unfold of_sum at 1. rewrite Ev, say_motd. set (c1 := mkConn (cn_in (mkConn i1 _)) _).
  assert (R2 : read_line c1 = (inr name, mkConn i2 (cn_out c1))) by by apply read_line_next. rewrite R2.
  rewrite (bool_decide_false (name = [])) by done. assert (Hlist : name <> str_bytes "#list") by (by intros ->).
  rewrite bool_decide_false by done. cbn [orb]. rewrite Eh, Em, Ec. cbn [negb].
  destruct (authenticate_complete m name (mkConn i2 (cn_out c1)) answers i3) as [o Ha]; [done..|]. rewrite Ha, say_run.
  set (c3 := mkConn (cn_in (mkConn i3 o)) _).
  assert (R4 : read_args (S (length (cn_in c3))) c3 = (inr args, mkConn rest (cn_out c3))) by (apply read_args_lines; [lia|by split_and!]).
  rewrite R4. by eexists.
Qed.

End admission.

(** ** Text that survives the lines *)

Lemma utf8_step_ok_app b l r : (utf8_step b l).2 = true -> utf8_step b (l ++ r) = utf8_step b l.
Proof.
  unfold utf8_step. destruct (utf8_width b) as [|[|[|[|[|n]]]]]; try done; destruct l as [|b1 [|b2 [|b3 l]]]; cbn [app]; try done;
    repeat case_match; done.
Qed.
Lemma utf8_step_ok_bound b l : (utf8_step b l).2 = true -> (1 <= (utf8_step b l).1 <= S (length l))%nat.
Proof. unfold utf8_step. intros _. repeat case_match; cbn [fst length]; lia. Qed.
Lemma utf8_valid_fuel f l : (length l <= f)%nat -> utf8_valid_aux f l = utf8_valid l.
Proof.
  unfold utf8_valid. revert l. induction f as [f IH] using lt_wf_ind. intros [|b l] Hf; [by destruct f|].
  destruct f as [|f]; cbn [length] in Hf; [lia|]. cbn [utf8_valid_aux length]. pose proof (utf8_step_ok_bound b l) as Hb.
  destruct (utf8_step b l) as [n ok]. cbn [fst snd] in Hb. destruct ok; [|done]. specialize (Hb eq_refl). cbn [andb].
  assert (Hl : (length (drop n (b :: l)) <= length l)%nat) by (rewrite length_drop; cbn [length]; lia).
  rewrite (IH f) by lia. destruct (decide (length l < S f)%nat); [|lia]. by rewrite (IH (length l)) by lia.
Qed.
Lemma utf8_valid_app l r : utf8_valid l = true -> utf8_valid r = true -> utf8_valid (l ++ r) = true.
Proof.
  intros Hl Hr. induction l as [l IH] using (induction_ltof1 _ length). destruct l as [|b l]; [done|].
  unfold utf8_valid in Hl |- *. cbn [app utf8_valid_aux length] in *. pose proof (utf8_step_ok_app b l r) as Ha.
  pose proof (utf8_step_ok_bound b l) as Hb. destruct (utf8_step b l) as [n ok]. cbn [fst snd] in *.
  destruct ok; [|done]. specialize (Ha eq_refl). specialize (Hb eq_refl). rewrite Ha. cbn [andb] in *.
  change (b :: l ++ r) with ((b :: l) ++ r). rewrite drop_app_le by (cbn [length]; lia).
  assert (Hd : (length (drop n (b :: l)) <= length l)%nat) by (rewrite length_drop; cbn [length]; lia).
  rewrite utf8_valid_fuel in Hl by done. rewrite utf8_valid_fuel by (rewrite !length_app; lia).
  apply IH; [unfold ltof; cbn [length]; lia|done].
Qed.

(** A line both sides take for what it is. *)
Definition plain_line (l : list Z) : Prop :=
  (10 ∉ l) /\ last l <> Some 13 /\ utf8_valid l = true /\ (length l < MAX_LINE_LENGTH)%nat.
Lemma plain_check l : bool_decide ((10 ∉ l) /\ last l <> Some 13 /\ utf8_valid l = true /\ (length l < 64)%nat) = true -> plain_line l.
Proof.
  intros (H10 & H13 & Hu & Hl)%bool_decide_eq_true. split_and!; [done..|]. eapply Nat.lt_trans; [exact Hl|]. unfold MAX_LINE_LENGTH. lia.
Qed.
Lemma chomp_line l : last l <> Some 13 -> chomp (l ++ [10]) = l.
Proof. intros H. unfold chomp. by rewrite pop_char_app, pop_char_other. Qed.
Lemma long_line (l : list Z) : (length l < MAX_LINE_LENGTH)%nat -> (MAX_LINE_LENGTH <? length (l ++ [10%Z]))%nat = false.
Proof. intros. apply Nat.ltb_ge. rewrite length_app. cbn [length]. lia. Qed.
Lemma next_line_plain l k : plain_line l -> next_line (l ++ 10 :: k) = Some (l, k).
Proof.
  intros (H10 & H13 & Hu & Hl). unfold next_line. rewrite take_line_app by done.
  rewrite bool_decide_false by (by destruct l). rewrite utf8_valid_app by done. rewrite long_line by done.
  cbn [negb orb]. by rewrite chomp_line.
Qed.
Lemma lines_read_plain ls k : Forall plain_line ls -> lines_read (concat (map (fun l => l ++ [10]) ls) ++ k) ls k.
Proof.
  induction 1 as [|l ls Hl _ IH]; cbn [map concat lines_read]; [done|]. exists (concat (map (fun l => l ++ [10]) ls) ++ k).
  split; [|done]. rewrite <- !app_assoc. cbn [app]. by apply next_line_plain.
Qed.
Lemma client_reads_plain l k o : plain_line l -> Client.read_line (mkConn (l ++ 10 :: k) o) = (inr l, mkConn k o).
Proof.
  intros (H10 & H13 & Hu & Hl). unfold Client.read_line. cbn [cn_in cn_out]. rewrite take_line_app by done.
  rewrite bool_decide_false by (by destruct l). rewrite long_line by done.
  by rewrite from_utf8_lossy_valid, chomp_line by (done || by apply utf8_valid_app).
Qed.

Lemma visible_plain l : Forall (fun c => 32 < c < 128) l -> (length l < MAX_LINE_LENGTH)%nat -> plain_line l.
Proof.
  intros Hl Hlen. split_and!; [| | |done].
  - intros Hin. rewrite Forall_forall in Hl. apply Hl in Hin. lia.
  - intros E. apply last_Some_elem_of in E. rewrite Forall_forall in Hl. apply Hl in E. lia.
  - apply utf8_valid_ascii. eapply Forall_impl; [exact Hl|]. intros x Hx. cbn beta in Hx. lia.
Qed.
Lemma plain_app l r : plain_line l -> plain_line r -> r <> [] -> (length l + length r < MAX_LINE_LENGTH)%nat -> plain_line (l ++ r).
Proof.
  intros (H1 & H2 & H3 & _) (H4 & H5 & H6 & _) Hr Hlen. split_and!.
  - rewrite not_elem_of_app. done.
  - rewrite last_app. destruct (last r) eqn:E; [done|]. by apply last_None in E.
  - by apply utf8_valid_app.
  - by rewrite length_app.
Qed.

(** A line of the message of the day that the client passes over. *)
Definition idle_line (l : list Z) : Prop :=
  (10 ∉ l) /\ (length l < MAX_LINE_LENGTH)%nat /\ starts_with (chomp (from_utf8_lossy (l ++ [10]))) [64] = false.
Lemma not_at l p : starts_with l [64] = false -> starts_with l (64 :: p) = false.
Proof.
  intros H. destruct (starts_with l (64 :: p)) eqn:E; [|done]. apply starts_with_spec in E as (r & ->).
  by rewrite (proj2 (starts_with_spec _ [64])) in H by by exists (p ++ r).
Qed.

Lemma not_keyword l : starts_with l [64] = false ->
  starts_with l OK_LINE = false /\ starts_with l AUTHREQD = false /\ starts_with l ERROR = false /\ starts_with l EXIT_LINE = false.
Proof.
  intros Hl. split_and!; [apply (not_at l (tail OK_LINE))|apply (not_at l (tail AUTHREQD))|apply (not_at l (tail ERROR))
    |apply (not_at l (tail EXIT_LINE))]; exact Hl.
Qed.

Section conversation.
  Context (H : HashLib) (config : DaemonTransportConfig) (am_sender : bool) (options : list (list Z)).

Lemma await_idle ls k o fuel remote : Forall idle_line ls -> (length ls < fuel)%nat ->
  await_module H config fuel remote (mkConn (concat (map (fun l => l ++ [10]) ls) ++ k) o) =
  await_module H config (fuel - length ls) remote (mkConn k o).
Proof.
  intros Hl. revert fuel. induction Hl as [|l ls (H10 & Hlen & Hat) _ IH]; intros fuel Hf; cbn [map concat length] in *;
    [by rewrite Nat.sub_0_r|].
  destruct fuel as [|fuel]; [lia|]. cbn [await_module]. unfold mbind at 1, act_bind at 1. unfold Client.read_line. cbn [cn_in cn_out].
  rewrite <- !app_assoc. cbn [app]. rewrite take_line_app by done. rewrite bool_decide_false by (by destruct l).
  rewrite long_line by done. destruct (not_keyword _ Hat) as (-> & -> & -> & ->). by apply IH; lia.
Qed.

Definition line_of (l : list Z) : list Z := l ++ [10].
Definition server_hello : list Z := GREETING ++ decimal DAEMON_PROTOCOL_VERSION ++ 46 :: decimal DAEMON_SUB_PROTOCOL_VERSION.
Definition client_hello : list Z := server_hello ++ 32 :: AUTH_DIGEST_LIST.
Definition motd_lines (motd : option (list Z)) : list (list Z) := match motd with Some text => lines text | None => [] end.
Lemma motd_bytes_lines motd : motd_bytes motd = concat (map line_of (motd_lines motd)).
Proof. by destruct motd. Qed.

Lemma plain_hello : plain_line server_hello /\ plain_line client_hello.
Proof. split; apply plain_check; vm_compute; reflexivity. Qed.

Lemma lines_length ls : (length ls <= length (concat (map line_of ls)))%nat.
Proof.
  induction ls as [|l ls IH]; cbn [map concat length]; [lia|]. unfold line_of at 1. rewrite !length_app. cbn [length]. lia.
Qed.

(** Past the message of the day there is fuel left. *)
Lemma await_motd ls k o remote : Forall idle_line ls -> exists n,
  await_module H config (S (length (concat (map line_of ls) ++ k))) remote (mkConn (concat (map line_of ls) ++ k) o) =
  await_module H config (S n) remote (mkConn k o).
Proof.
  intros Hl. pose proof (lines_length ls) as Hn. rewrite await_idle by (done || rewrite length_app; lia).
  rewrite length_app. exists (length (concat (map line_of ls)) + length k - length ls)%nat. f_equal. lia.
Qed.

(** ** The daemon's part *)

Section daemon.
  Context (read_to_string : list Z -> option (list Z)) (secs nanos pid counter : Z) (ip : IpAddr) (registry : ModuleRegistry) (motd : option (list Z)).

Lemma read_plain l k o : plain_line l -> read_line (mkConn (l ++ 10 :: k) o) = (inr l, mkConn k o).
Proof. intros Hl. apply read_line_next. split; [by apply next_line_plain|done]. Qed.

(** Up to the choice of a module. *)
Lemma daemon_chooses name k o : plain_line name -> name <> [] -> starts_with name [35] = false ->
  handle_connection H read_to_string secs nanos pid counter ip registry motd (mkConn (line_of client_hello ++ line_of name ++ k) o) =
  (match resolve_module registry name with
   | None => _ ← say (str_bytes "@ERROR: Unknown module '" ++ name ++ 39 :: [10]); mret None
   | Some m =>
       if negb (check_host (mod_access m) ip) then
         _ ← say (str_bytes "@ERROR: access denied to " ++ name ++ str_bytes " from " ++ show_ip ip ++ str_bytes " (" ++ show_ip ip ++ 41 :: [10]);
         mret None
       else
         ok ← authenticate H read_to_string secs nanos pid counter m name;
         if (ok : bool) then
           _ ← say (line_of OK_LINE);
           args ← (fun c => read_args (S (length (cn_in c))) c) : conn_act (list (list Z));
           mret (Some (m, args))
         else mret None
   end) (mkConn k (o ++ line_of server_hello ++ concat (map line_of (motd_lines motd)))).
Proof.
  intros Hp Hn Hh. unfold handle_connection. unfold mbind at 1 2, act_bind at 1 2. rewrite say_run. cbn [cn_in cn_out].
  unfold line_of at 1 2. rewrite <- !app_assoc. cbn [app]. rewrite read_plain by apply plain_hello.
  assert (Eg : starts_with client_hello GREETING = true) by (vm_compute; reflexivity). rewrite Eg. cbn [negb].
  unfold mbind at 1 2 3, act_bind at 1 2 3. assert (Ev : parse_version client_hello = inr 32) by (vm_compute; reflexivity).
  unfold of_sum at 1. rewrite Ev, say_motd. cbn [cn_in cn_out]. rewrite read_plain by done.
  rewrite bool_decide_false by done. assert (Hlist : name <> str_bytes "#list") by (by intros ->).
  rewrite bool_decide_false by done. cbn [orb]. rewrite Hh, motd_bytes_lines, <- app_assoc. done.
Qed.
Lemma daemon_resolves name m k o : plain_line name -> name <> [] -> starts_with name [35] = false ->
  resolve_module registry name = Some m -> check_host (mod_access m) ip = true ->
  handle_connection H read_to_string secs nanos pid counter ip registry motd (mkConn (line_of client_hello ++ line_of name ++ k) o) =
  (ok ← authenticate H read_to_string secs nanos pid counter m name;
   if (ok : bool) then
     _ ← say (line_of OK_LINE);
     args ← (fun c => read_args (S (length (cn_in c))) c) : conn_act (list (list Z));
     mret (Some (m, args))
   else mret None) (mkConn k (o ++ line_of server_hello ++ concat (map line_of (motd_lines motd)))).
Proof. intros Hp Hn Hh Hm Hc. by rewrite daemon_chooses, Hm, Hc. Qed.
End daemon.

(** ** The client's part *)

Lemma client_hears_hello k o : read_greeting (mkConn (line_of server_hello ++ k) o) = (inr (mkGreeting 32 []), mkConn k o).
Proof.
  unfold read_greeting, mbind, act_bind, line_of. rewrite <- app_assoc. cbn [app]. rewrite client_reads_plain by apply plain_hello.
  assert (Eg : starts_with server_hello GREETING = true) by (vm_compute; reflexivity). rewrite Eg. cbn [negb].
  set (s := trim (trim_start_matches GREETING server_hello)).
  assert (Es : s = str_bytes "32.0") by (vm_compute; reflexivity). rewrite Es. vm_compute split_whitespace. by vm_compute parse_u8.
Qed.

Definition client_opening : list Z := line_of client_hello ++ line_of (dt_module config).
Lemma client_opens k o ls : Forall idle_line ls ->
  connect H config am_sender options (mkConn (line_of server_hello ++ concat (map line_of ls) ++ k) o) =
  (_ ← ((fun c => await_module H config (S (length (cn_in c))) (mkGreeting 32 []) c) : client_act unit);
   _ ← send (concat (map (fun arg => arg ++ [10]) (build_args config am_sender options)));
   send [10]) (mkConn (concat (map line_of ls) ++ k) (o ++ client_opening)).
Proof.
  intros Hl. unfold connect. unfold mbind at 1, act_bind at 1. rewrite client_hears_hello. unfold mbind at 1 2, act_bind at 1 2.
  unfold send_greeting, send at 1 2. cbn [cn_in cn_out]. rewrite <- app_assoc. do 3 f_equal. 
Qed.
End conversation.

(** ** They understand each other *)

Section agreement.
  Context (H : HashLib) (read_to_string : list Z -> option (list Z)) (secs nanos pid counter : Z).

(** What the client sends can be sent in lines. *)
Definition sendable (config : DaemonTransportConfig) (options : list (list Z)) : Prop :=
  plain_line (dt_module config) /\ plain_line (dt_path config) /\ Forall (fun l => plain_line l /\ l <> []) options.

Lemma sendable_args config am_sender options : sendable config options ->
  Forall plain_line (build_args config am_sender options) /\ Forall (fun l => l <> []) (build_args config am_sender options).
Proof.
  intros (_ & Hp & Ho). assert (Hw : forall w, w ∈ [str_bytes "--server"; str_bytes "--sender"; [46]] -> plain_line w /\ w <> []).
  { intros w [->|[->|[->|[]%elem_of_nil]%elem_of_cons]%elem_of_cons]%elem_of_cons; (split; [apply plain_check; vm_compute; reflexivity|done]). }
  assert (Hpath : plain_line (if bool_decide (dt_path config = []) then [46] else dt_path config) /\
      (if bool_decide (dt_path config = []) then [46] else dt_path config) <> []).
  { case_bool_decide; [apply Hw; by do 2 right; left|done]. }
  assert (Hall : Forall (fun l => plain_line l /\ l <> []) (build_args config am_sender options)).
  { unfold build_args. repeat apply Forall_app_2; [| |done| |].
    - constructor; [apply Hw; by left|constructor].
    - destruct am_sender; cbn [negb]; [constructor|]. constructor; [apply Hw; right; by left|constructor].
    - constructor; [apply Hw; by do 2 right; left|constructor].
    - by constructor. }
  split; (eapply Forall_impl; [exact Hall|]); by intros l [].
Qed.

End agreement.

(** ** Refusals *)

Lemma trim_prefix_space l : l <> [] -> trimmed l -> trim (32 :: l) = l.
Proof.
  intros Hl Ht. unfold trim, trim_start. cbn [length trim_with]. change (first_strip WHITE_SPACE (32 :: l)) with (Some l).
  fold (trim_start l). fold (trim l). by apply trim_trimmed.
Qed.
Lemma contains_prefix p l : contains (p ++ l) p = true.
Proof. destruct p; cbn [app contains]; [by destruct l|]. by rewrite (starts_with_app (z :: p) l : starts_with (z :: p ++ l) (z :: p) = true). Qed.

Lemma trim_matches_once p l : p <> [] -> strip_prefix p l = None -> trim_start_matches p (p ++ l) = l.
Proof.
  intros Hp Hl. unfold trim_start_matches. destruct p as [|b p]; [done|]. cbn [app length trim_with first_strip].
  change (b :: p ++ l) with ((b :: p) ++ l). rewrite strip_prefix_app. destruct (length (p ++ l)); [done|]. cbn [trim_with first_strip]. by rewrite Hl.
Qed.

Section refusals.
  Context (H : HashLib) (read_to_string : list Z -> option (list Z)) (secs nanos pid counter : Z).

(** What the daemon says of a module it does not have, or does not serve to the
    address. *)
Definition refused_text (name : list Z) (ip : IpAddr) (m : option DaemonModule) : list Z :=
  match m with
  | None => str_bytes "Unknown module '" ++ name ++ [39]
  | Some _ => str_bytes "access denied to " ++ name ++ str_bytes " from " ++ show_ip ip ++ str_bytes " (" ++ show_ip ip ++ [41]
  end.
Definition refused_line (name : list Z) (ip : IpAddr) (m : option DaemonModule) : list Z := ERROR ++ 32 :: refused_text name ip m.

Lemma refused_trimmed name ip m : trimmed (refused_text name ip m).
Proof.
  destruct m as [m|]; cbn [refused_text]; rewrite ?app_assoc.
  - change (str_bytes "access denied to ") with (97 :: tail (str_bytes "access denied to ")). cbn [app]. by apply trimmed_between.
  - change (str_bytes "Unknown module '") with (85 :: tail (str_bytes "Unknown module '")). cbn [app]. by apply trimmed_between.
Qed.
Lemma refused_heard name ip m : starts_with (refused_line name ip m) OK_LINE = false /\ starts_with (refused_line name ip m) AUTHREQD = false /\
  starts_with (refused_line name ip m) ERROR = true /\ error_text (refused_line name ip m) = refused_text name ip m.
Proof.
  unfold refused_line. split_and!; [apply starts_with_not; vm_compute; reflexivity..|apply starts_with_app|].
  unfold error_text. rewrite trim_matches_once by done. apply trim_prefix_space; [by destruct m|]. apply refused_trimmed.
Qed.
Lemma refused_plain name ip m : plain_line name -> plain_line (show_ip ip) ->
  (length name < 2000)%nat -> (length (show_ip ip) < 2000)%nat -> plain_line (refused_line name ip m).
Proof.
  intros Hn Hi Hln Hli. assert (Hc : forall s : list Z, bool_decide ((10 ∉ s) /\ last s <> Some 13 /\ utf8_valid s = true /\ (length s < 64)%nat) = true ->
    s <> [] -> plain_line s /\ s <> []) by (intros s Hs Hne; split; [by apply plain_check|done]).
  assert (Happ : forall a b, plain_line a -> plain_line b /\ b <> [] -> (length a + length b < MAX_LINE_LENGTH)%nat -> plain_line (a ++ b) /\ a ++ b <> [])
    by (intros a b Ha [Hb Hne] Hl; split; [by apply plain_app|by destruct a]).
  unfold refused_line. change (32 :: refused_text name ip m) with ([32] ++ refused_text name ip m). rewrite app_assoc.
  assert (Hp : plain_line (ERROR ++ [32])) by (apply plain_check; vm_compute; reflexivity).
  unfold MAX_LINE_LENGTH in *. destruct m as [m|]; cbn [refused_text];
    repeat first [done | apply Happ | apply Hc; [vm_compute; reflexivity|done] | (apply plain_check; vm_compute; reflexivity)];
    rewrite ?length_app; repeat match goal with |- context [length (str_bytes ?s)] => let n := eval vm_compute in (length (str_bytes s)) in change (length (str_bytes s)) with n end;
    change (length ERROR) with 7%nat; cbn [length]; lia.
Qed.

(** What a client makes of it. *)
Definition refused_error (config : DaemonTransportConfig) (text : list Z) : TransportError :=
  if contains text (str_bytes "Unknown module") then ModuleNotFound (dt_module config) else ConnectionFailed (ErrorMessage text).

End refusals.

(** ** Passwords *)

Lemma visible_challenge H data : Forall (fun c => 32 < c < 128 /\ c <> 64) (generate_challenge H data.1.1.1 data.1.1.2 data.1.2 data.2).
Proof.
  unfold generate_challenge. eapply Forall_impl; [apply base64_word|]. intros c Hc. cbn beta in Hc. split; [by apply word64_visible|].
  intros ->. discriminate Hc.
Qed.

Section refusal.
  Context (H : HashLib) (HL : HashLaws H) (read_to_string : list Z -> option (list Z)) (secs nanos pid counter : Z).

Let challenge : list Z := generate_challenge H secs nanos pid counter.
Lemma challenge_chars : Forall (fun c => 32 < c < 128 /\ c <> 64) challenge.
Proof. apply (visible_challenge H (secs, nanos, pid, counter)). Qed.
Lemma base64_16 d : length d = 16%nat -> length (base64_encode d) = 24%nat.
Proof. intros E. rewrite base64_length, E. done. Qed.
Lemma md5_of_16 ps : length (md5_of H ps) = 16%nat.
Proof. apply (dg_length (DigestLaws := md5_laws)). Qed.

Lemma authreq_line : plain_line (AUTHREQD ++ challenge) /\ starts_with (AUTHREQD ++ challenge) OK_LINE = false /\
  starts_with (AUTHREQD ++ challenge) AUTHREQD = true /\ trim (trim_start_matches AUTHREQD (AUTHREQD ++ challenge)) = challenge.
Proof.
  assert (Hv : Forall (fun c => 32 < c < 128) challenge) by (eapply Forall_impl; [apply challenge_chars|]; by intros c []).
  assert (Hlen : length challenge = 24%nat) by apply base64_16, md5_of_16. split_and!.
  - apply plain_app; [apply plain_check; vm_compute; reflexivity|apply visible_plain; [done|]| |]; try (rewrite Hlen; unfold MAX_LINE_LENGTH; cbn; lia).
    by destruct challenge.
  - apply starts_with_not; vm_compute; reflexivity.
  - apply starts_with_app.
  - rewrite trim_matches_once; [by apply trim_trimmed, trimmed_visible|done|].
    pose proof challenge_chars as Hc. destruct challenge as [|c l]; [done|]. apply Forall_cons in Hc as [[_ Hc] _].
    change AUTHREQD with (64 :: tail AUTHREQD). cbn [strip_prefix]. destruct (Z.eqb_spec 64 c); [congruence|done].
Qed.

Section refused.
  Context (ip : IpAddr) (registry : ModuleRegistry) (motd : option (list Z)) (config : DaemonTransportConfig)
    (am_sender : bool) (options : list (list Z)) (m : DaemonModule) (user password secrets content : list Z).
  Context (Hmodule : plain_line (dt_module config) /\ dt_module config <> [] /\ trimmed (dt_module config) /\
    (length (dt_module config) < 4096)%nat /\ starts_with (dt_module config) [35] = false).
  Context (Huser : plain_line user /\ user <> [] /\ (32 ∉ user) /\ first_strip WHITE_SPACE user = None /\ (length user < 4096)%nat).
  Context (Hserves : resolve_module registry (dt_module config) = Some m /\ check_host (mod_access m) ip = true /\
    requires_auth (mod_auth m) = true /\ user ∈ user_list (mod_auth m) /\ ma_secrets_file (mod_auth m) = Some secrets /\
    read_to_string secrets = Some content /\ find_password user (lines content) = inr password).

Definition refusal : list Z := str_bytes "@ERROR: auth failed on module" ++ 32 :: dt_module config.
Definition md4_reply : list Z := base64_encode (dg_finalize (md4 H) (dg_update (md4 H) (dg_update (md4 H) (dg_new (md4 H)) (padded password)) challenge)).

Lemma md4_reply_visible : Forall (fun c => 32 < c < 128) md4_reply /\ length md4_reply = 24%nat /\ md4_reply <> [].
Proof.
  assert (Hl : length md4_reply = 24%nat) by apply base64_16, (dg_length (DigestLaws := md4_laws)).
  split_and!; [apply base64_visible|done|by destruct md4_reply].
Qed.
Lemma reply_line : plain_line (user ++ 32 :: md4_reply) /\ parse_auth_response (user ++ 32 :: md4_reply) = inr (user, md4_reply).
Proof.
  destruct md4_reply_visible as (Hv & Hl & Hne). destruct Huser as (Hp & Hu & Hs & Hw & Hul). split.
  - change (32 :: md4_reply) with ([32] ++ md4_reply). apply plain_app; [done|apply plain_app| |]; rewrite ?length_app, ?Hl; try done.
    + apply plain_check; vm_compute; reflexivity.
    + apply visible_plain; [done|]. rewrite Hl. unfold MAX_LINE_LENGTH. lia.
    + unfold MAX_LINE_LENGTH. cbn [length]. lia.
    + unfold MAX_LINE_LENGTH. cbn [length]. lia.
  - unfold parse_auth_response. rewrite trim_trimmed.
    + rewrite split_once_app by done. by rewrite !bool_decide_false.
    + apply trimmed_keyword; [done..|]. by apply trimmed_visible.
Qed.
Lemma refusal_line : plain_line refusal /\ starts_with refusal OK_LINE = false /\ starts_with refusal ERROR = true /\
  contains (error_text refusal) (str_bytes "auth failed") = true.
Proof.
  destruct Hmodule as (Hp & Hne & Ht & Hl & _). split_and!.
  - unfold refusal. change (32 :: dt_module config) with ([32] ++ dt_module config). apply plain_app; [|apply plain_app| |]; try done.
    + apply plain_check; vm_compute; reflexivity.
    + apply plain_check; vm_compute; reflexivity.
    + unfold MAX_LINE_LENGTH. cbn [length]. lia.
    + unfold MAX_LINE_LENGTH. rewrite length_app. vm_compute (length (str_bytes _)). cbn [length]. lia.
  - apply starts_with_not; vm_compute; reflexivity.
  - apply (starts_with_app ERROR).
  - assert (E : error_text refusal = str_bytes "auth failed on module" ++ 32 :: dt_module config).
    { unfold error_text. change refusal with (ERROR ++ 32 :: str_bytes "auth failed on module" ++ 32 :: dt_module config).
      rewrite trim_matches_once by done. apply trim_prefix_space; [done|]. by apply trimmed_keyword. }
    rewrite E. apply (contains_prefix (str_bytes "auth failed")).
Qed.

Context (Hdigests : dg_finalize (md4 H) (dg_update (md4 H) (dg_update (md4 H) (dg_new (md4 H)) (padded password)) challenge) <>
  md5_of H [padded password; challenge]).

Lemma daemon_refuses :
  handle_connection H read_to_string secs nanos pid counter ip registry motd (mkConn (client_opening config ++ line_of (user ++ 32 :: md4_reply)) []) =
  (inr None, mkConn [] (line_of server_hello ++ concat (map line_of (motd_lines motd)) ++ line_of (AUTHREQD ++ challenge) ++ line_of refusal)).
Proof.
  destruct Hmodule as (Hp & Hne & _ & _ & Hh). destruct Hserves as (Hm & Hc & Ha & Hu & Hsec & Hread & Hfind). destruct reply_line as [Hr Hpr].
  unfold client_opening. rewrite <- !app_assoc.
  rewrite (daemon_resolves H read_to_string secs nanos pid counter ip registry motd (dt_module config) m) by done.
  unfold mbind at 1, act_bind at 1. unfold authenticate. rewrite Ha. unfold mbind, act_bind. rewrite say_run. cbn [cn_in cn_out app].
  unfold line_of at 1. rewrite read_plain by done. rewrite Hpr, (bool_decide_true (user ∈ _)), andb_false_r by done. cbn [negb]. rewrite Hsec.
  destruct (verify_response _ _ _ _ _ _) as [e|[]] eqn:Ev.
  - cbn [mret act_ret]. rewrite say_run. unfold mret, act_ret, line_of, refusal, auth_failed. cbn [cn_in cn_out].
    do 2 f_equal. rewrite <- !app_assoc. reflexivity.
  - exfalso. apply verify_decides in Ev as (content' & password' & E1 & E2 & E3). rewrite Hread in E1. injection E1 as <-.
    rewrite Hfind in E2. injection E2 as <-. apply base64_encode_inj in E3; [done|..].
    + apply (dg_bytes (DigestLaws := md4_laws)).
    + apply (dg_bytes (DigestLaws := md5_laws)).
Qed.

Lemma client_is_turned_away k : Forall idle_line (motd_lines motd) -> dt_user config = Some user -> dt_password config = Some password ->
  connect H config am_sender options
    (mkConn (line_of server_hello ++ concat (map line_of (motd_lines motd)) ++ line_of (AUTHREQD ++ challenge) ++ line_of refusal ++ k) []) =
  (inl (AuthRefused (dt_module config)), mkConn k (client_opening config ++ line_of (user ++ 32 :: md4_reply))).
Proof.
  intros Hmotd Hcu Hcp. destruct authreq_line as (Hap & Hao & Haa & Hat). destruct refusal_line as (Hrp & Hro & Hre & Hrt).
  rewrite client_opens by done. unfold mbind, act_bind. cbn [cn_in].
  edestruct (await_motd H config (motd_lines motd)) as [n' Ew]; [done|]. rewrite Ew. cbn [await_module]. unfold mbind, act_bind.
  unfold line_of at 1. rewrite <- app_assoc. cbn [app]. rewrite client_reads_plain by done. rewrite Hao, Haa.
  unfold answer_challenge. rewrite Hat, Hcu, Hcp. cbn [from_option]. unfold mbind, act_bind, send. cbn [cn_in cn_out].
  unfold line_of at 1. rewrite <- app_assoc. cbn [app]. rewrite client_reads_plain by done. rewrite Hro, Hre, Hrt.
  unfold of_sum. do 2 f_equal. unfold line_of. by rewrite <- !app_assoc.
Qed.

(** The daemon of this program names no digests in its greeting, although it
    speaks version 32; a client then falls back to MD4, and the daemon checks
    MD5: with the right name and password the client is refused. *)
Lemma own_client_is_refused : Forall idle_line (motd_lines motd) -> dt_user config = Some user -> dt_password config = Some password ->
  exists said answered,
    handle_connection H read_to_string secs nanos pid counter ip registry motd (mkConn said []) = (inr None, mkConn [] answered) /\
    connect H config am_sender options (mkConn answered []) = (inl (AuthRefused (dt_module config)), mkConn [] said).
Proof.
  intros Hmotd Hcu Hcp. eexists _, _. split; [apply daemon_refuses|].
  rewrite <- (app_nil_r (line_of refusal)). by apply client_is_turned_away.
Qed.
End refused.
End refusal.

(** ** A daemon at work *)

Definition sample_config : list Z := str_bytes "[pub]
path = /srv/pub
hosts allow = 10.0.0.0/8
[team]
path = /srv/team
auth users = alice, bob
secrets file = /etc/secrets
[open]
path = /srv/open
auth users = alice".
Definition sample_registry : ModuleRegistry :=
  match parse_config_str sample_config [] with inr c => from_configs (cfg_modules c) | inl _ => ModuleRegistry_new end.
Definition sample_module (name : string) : DaemonModule :=
  match resolve_module sample_registry (str_bytes name) with Some m => m | None => from_config (ModuleConfig.default []) end.
Definition sample_client (name : string) : DaemonTransportConfig := mkTransportConfig (str_bytes name) (str_bytes "docs") None None.


(** Outside the allowed network, an unknown module, and no client at all. *)
Lemma daemon_examples :
  let serve ip i := handle_connection toy_hash (fun _ => None) 1 2 3 4 ip sample_registry None (mkConn (str_bytes i) []) in
  (serve (V4 11 0 0 1) "@RSYNCD: 31.0
pub
").2 = mkConn [] (line_of server_hello ++ line_of (str_bytes "@ERROR: access denied to pub from 11.0.0.1 (11.0.0.1)")) /\
  (serve (V4 10 0 0 1) "@RSYNCD: 31.0
nope
").2 = mkConn [] (line_of server_hello ++ line_of (str_bytes "@ERROR: Unknown module 'nope'")) /\
  (serve (V4 10 0 0 1) "hello
").1 = inl (InvalidGreeting (str_bytes "hello")) /\
  (serve (V4 10 0 0 1) "").1 = inl ClientClosed.
Proof. vm_compute. split_and!; reflexivity. Qed.

(** A module with users but without a secrets file asks for a name and an
    answer, and takes any answer; one whose users are nothing but separators
    takes any name. *)
Lemma users_without_secrets ip registry motd H read_to_string secs nanos pid counter name m user hash args k :
  plain_line name -> name <> [] -> starts_with name [35] = false ->
  resolve_module registry name = Some m -> check_host (mod_access m) ip = true ->
  ma_secrets_file (mod_auth m) = None -> (user_list (mod_auth m) = [] \/ user ∈ user_list (mod_auth m)) -> requires_auth (mod_auth m) = true ->
  plain_line (user ++ 32 :: hash) -> parse_auth_response (user ++ 32 :: hash) = inr (user, hash) ->
  Forall (fun l => plain_line l /\ l <> []) args ->
  exists o, handle_connection H read_to_string secs nanos pid counter ip registry motd
    (mkConn (concat (map line_of (client_hello :: name :: [user ++ 32 :: hash] ++ args ++ [[]])) ++ k) []) = (inr (Some (m, args)), mkConn k o).
Proof.
  intros Hp Hn Hh Hm Hc Hs Hu Ha Hr Hpr Hargs.
  pose proof (lines_read_plain (client_hello :: name :: [user ++ 32 :: hash] ++ args ++ [[]]) k) as Hl.
  apply admitted_handed_over. exists client_hello, 32, name, [user ++ 32 :: hash]. split_and!; try done.
  - apply Hl. constructor; [apply plain_hello|]. constructor; [done|]. constructor; [done|]. apply Forall_app_2.
    + eapply Forall_impl; [exact Hargs|]. by intros l [].
    + constructor; [|constructor]. apply plain_check. vm_compute. reflexivity.
  - unfold credentials. rewrite Ha, Hs. exists (user ++ 32 :: hash), user, hash. by split_and!.
  - eapply Forall_impl; [exact Hargs|]. by intros l [].
Qed.

