(* ===== verification/TlsDaemon.v ===== *)
(** [ferrosync-transport/src/tls.rs]: the daemon's text protocol over TLS.  The
    code is that of [daemon.rs] once more, but for the greeting, the digest, and
    what becomes of bytes that were read ahead.

    A [Conn] is the decrypted stream; certificates and the TLS handshake are
    [rustls] and not modelled. *)
From S2P Require Import Prelude Wire Types Text Utf8 Filter Scanner Fs Listing Numerals TextOps Checksum Handshake Auth Rsyncd Daemon DaemonClient.

Module Tls.

Definition DAEMON_PROTOCOL_VERSION : Z := 31.
Definition DAEMON_SUB_PROTOCOL_VERSION : Z := 0.

(** The version; digests in the greeting are not looked at. *)
Definition read_greeting : client_act Z :=
  line ← Client.read_line;
  if negb (starts_with line GREETING) then of_sum (inl (ConnectionFailed (NoGreeting line)))
  else
    let version_str := trim (trim_start_matches GREETING line) in
    let major_str := hd version_str (split (fun c => c =? 46) version_str) in
    match parse_u8 major_str with
    | Some major => mret major
    | None => of_sum (inl (ConnectionFailed (InvalidDaemonVersion version_str)))
    end.
Definition send_greeting : client_act unit :=
  send (GREETING ++ decimal DAEMON_PROTOCOL_VERSION ++ 46 :: decimal DAEMON_SUB_PROTOCOL_VERSION ++ [10]).

(** The loop is the one of [daemon.rs], which answers a daemon without digests
    with MD4, as this one answers every daemon. *)
Definition connect (H : HashLib) (config : DaemonTransportConfig) (am_sender : bool) (options : list (list Z)) : client_act unit :=
  remote_version ← read_greeting;
  _ ← send_greeting;
  _ ← send (dt_module config ++ [10]);
  _ ← ((fun c => await_module H config (S (length (cn_in c))) (mkGreeting remote_version []) c) : client_act unit);
  _ ← send (concat (map (fun arg => arg ++ [10]) (build_args config am_sender options)));
  send [10].

(** What the binary protocol reads, when [buffered] had been read ahead and
    [stream] is still to come: [tokio::io::join(cursor, stream)] reads from its
    first argument and writes to its second. *)
Definition handed_over (buffered stream : list Z) : list Z := if bool_decide (buffered = []) then stream else buffered.
End Tls.

(** ** Against the plain transport *)

(** What an action does depends on the bytes to come, and adds to those sent. *)
Definition appends {A} (m : client_act A) : Prop := forall i o,
  m (mkConn i o) = let '(r, c) := m (mkConn i []) in (r, mkConn (cn_in c) (o ++ cn_out c)).

Lemma appends_of_sum {A} (r : TransportError + A) : appends (of_sum r).
Proof. intros i o. unfold of_sum. cbn [cn_in cn_out]. by rewrite app_nil_r. Qed.
Lemma appends_ret {A} (a : A) : appends (mret a : client_act A).
Proof. intros i o. cbn. by rewrite app_nil_r. Qed.
Lemma appends_send bs : appends (send bs).
Proof. by intros i o. Qed.
Lemma appends_line : appends Client.read_line.
Proof.
  intros i o. unfold Client.read_line. cbn [cn_in cn_out]. destruct (take_line i) as [line rest].
  destruct (bool_decide (line = [])), (MAX_LINE_LENGTH <? length line)%nat; cbn [cn_in cn_out]; by rewrite app_nil_r.
Qed.
Lemma appends_bind {A B} (m : client_act A) (f : A -> client_act B) : appends m -> (forall a, appends (f a)) -> appends (m ≫= f).
Proof.
  intros Hm Hf i o. unfold mbind, act_bind. rewrite (Hm i o). destruct (m (mkConn i [])) as [[e|a] [i' o']]; cbn [cn_in cn_out]; [done|].
  rewrite (Hf a i' (o ++ o')), (Hf a i' o'). destruct (f a (mkConn i' [])) as [r c]. cbn [cn_in cn_out]. by rewrite app_assoc.
Qed.
Lemma appends_reading {A} (m : nat -> client_act A) : (forall n, appends (m n)) -> appends (fun c => m (S (length (cn_in c))) c).
Proof. intros Hm i o. exact (Hm _ i o). Qed.
#[local] Hint Resolve appends_of_sum appends_ret appends_send appends_line : core.
Ltac appends_steps :=
  repeat first [solve [auto] | apply appends_bind; [|intros ?] | progress cbv zeta
    | match goal with |- appends (if ?b then _ else _) => destruct b | |- appends (match ?x with _ => _ end) => destruct x end].

Section agree.
  Context (H : HashLib) (config : DaemonTransportConfig) (am_sender : bool) (options : list (list Z)).

Lemma appends_await fuel remote : appends (await_module H config fuel remote).
Proof.
  induction fuel as [|fuel IH]; cbn [await_module]; [auto|]. unfold answer_challenge. appends_steps.
Qed.

(** What is sent and done once the greetings are exchanged. *)
Definition dialogue (remote : DaemonGreeting) : client_act unit :=
  _ ← send (dt_module config ++ [10]);
  _ ← ((fun c => await_module H config (S (length (cn_in c))) remote c) : client_act unit);
  _ ← send (concat (map (fun arg => arg ++ [10]) (build_args config am_sender options)));
  send [10].
Lemma appends_dialogue remote : appends (dialogue remote).
Proof. unfold dialogue. appends_steps. apply (appends_reading (fun n => await_module H config n remote)). intros n. apply appends_await. Qed.

(** A daemon that greets without naming digests is spoken to alike: the same
    outcome, the same bytes read, and sent the same but for the greeting. *)
Theorem tls_speaks_alike version c c' : DaemonClient.read_greeting c = (inr (mkGreeting version []), c') ->
  Tls.read_greeting c = (inr version, c') ->
  exists outcome rest said,
    Tls.connect H config am_sender options c = (outcome, mkConn rest (cn_out c' ++ str_bytes "@RSYNCD: 31.0" ++ [10] ++ said)) /\
    connect H config am_sender options c = (outcome, mkConn rest (cn_out c' ++ str_bytes "@RSYNCD: 32.0 md5 md4" ++ [10] ++ said)).
Proof.
  intros Ed Et. destruct c' as [i o]. destruct (dialogue (mkGreeting version []) (mkConn i [])) as [r [rest said]] eqn:Er. exists r, rest, said.
  assert (bind : forall (A B : Type) (m : client_act A) (f : A -> client_act B) a s s', m s = (inr a, s') -> (m ≫= f) s = f a s')
    by (intros A B m f a s s' E; unfold mbind, act_bind; by rewrite E).
  assert (Hs : forall bs, send bs (mkConn i o) = (inr tt, mkConn i (o ++ bs))) by done.
  assert (Hd : forall o', dialogue (mkGreeting version []) (mkConn i o') = (r, mkConn rest (o' ++ said)))
    by (intros o'; rewrite appends_dialogue, Er; done).
  unfold Tls.connect, connect. rewrite (bind _ _ _ _ _ _ _ Et), (bind _ _ _ _ _ _ _ Ed). unfold Tls.send_greeting, send_greeting.
  rewrite !(bind _ _ _ _ _ _ _ (Hs _)). fold (dialogue (mkGreeting version [])). rewrite !Hd, <- !app_assoc. split; reflexivity.
Qed.
Example tls_speaks_alike_here rest : exists outcome i said said',
  Tls.connect H config am_sender options (mkConn (str_bytes "@RSYNCD: 32.0" ++ 10 :: rest) []) = (outcome, mkConn i said) /\
  connect H config am_sender options (mkConn (str_bytes "@RSYNCD: 32.0" ++ 10 :: rest) []) = (outcome, mkConn i said').
Proof.
  destruct (tls_speaks_alike 32 (mkConn (str_bytes "@RSYNCD: 32.0" ++ 10 :: rest) []) (mkConn rest [])) as (r & i & said & E1 & E2); [reflexivity..|]. eauto 10.
Qed.
End agree.

(** As soon as one byte was read ahead, the rest of the stream is never read. *)
Lemma read_ahead_ends_the_stream buffered stream : buffered <> [] -> Tls.handed_over buffered stream = buffered.
Proof. intros Hb. unfold Tls.handed_over. by rewrite bool_decide_false. Qed.

(** A version without a minor part is not understood when digests follow it. *)
Example tls_greeting_example :
  let c := mkConn (str_bytes "@RSYNCD: 31 md5" ++ [10]) [] in
  (Tls.read_greeting c).1 = inl (ConnectionFailed (InvalidDaemonVersion (str_bytes "31 md5"))) /\
  (DaemonClient.read_greeting c).1 = inr (mkGreeting 31 [str_bytes "md5"]).
Proof. split; vm_compute; reflexivity. Qed.

(** A daemon that offers MD5 is answered with MD4. *)
Lemma offered_digest_is_ignored : negotiate_auth_digest (digest_list (mkGreeting 32 [])) = Md4Digest /\
  negotiate_auth_digest [str_bytes "md5"] = Md5Digest.
Proof. split; reflexivity. Qed.
