(* ===== verification/ServerSession.v ===== *)
(** [ferrosync-server/src/session.rs]: what the daemon does on a connection it
    has handed over, sending the files of a module or receiving into it.

    As in [Session.v] the [Peer] holds the data payloads; the handshake that
    comes first, on the bare streams, is [server_handshake] of [Handshake.v]. *)
From S2P Require Import Prelude Wire Types Text Utf8 Varint WireFormat Handshake Checksum Compress Token Proc Incremental Exchange Filter Scanner Listing Options Fs Progress FileDecision Delete ReceiverEngine Transfer LocalTransfer WireTransfer WireSystem Session ServerArgs TextOps Rsyncd.

Inductive SessionError :=
  | SessionFailure (e : failure)
  | InvalidModuleFilter (e : FilterError)
  | ModulePathNotFound (path : list Z).

Inductive TransferDirection := DSend | DReceive.
#[export] Instance TransferDirection_eq_dec : EqDecision TransferDirection.
Proof. solve_decision. Defined.

(** The direction of a session, [ServerSession::new]. *)
Definition session_direction (args : list (list Z)) : TransferDirection :=
  if existsb (fun a => bool_decide (a = str_bytes "--sender")) args then DSend else DReceive.

Fixpoint extract_client_info (args : list (list Z)) : list Z :=
  match args with
  | [] => str_bytes ".LsfxCIvu"
  | arg :: args' =>
      if starts_with arg [45] && negb (starts_with arg [45; 45]) then
        match split_once 101 arg with Some (_, info) => info | None => extract_client_info args' end
      else extract_client_info args'
  end.

(** The argument after the first dot. *)
Fixpoint remote_path_from (found_dot : bool) (args : list (list Z)) : list Z :=
  match args with
  | [] => [46]
  | arg :: args' =>
      if found_dot then arg else remote_path_from (bool_decide (arg = [46])) args'
  end.
Definition remote_path : list (list Z) -> list Z := remote_path_from false.

(** Pairs of a length and a rule, up to a length of 0. *)
Fixpoint discard_rules (fuel : nat) : rd unit :=
  match fuel with
  | O => rd_err (Io OtherIo)
  | S fuel' =>
      len_buf ← read_exact 4;
      let rule_len := as_i32 (le_val len_buf) in
      if rule_len =? 0 then mret tt
      else _ ← read_exact (Z.abs rule_len); discard_rules fuel'
  end.
(** Every round reads four bytes, so the bytes outnumber the rounds. *)
Definition read_and_discard_filter_list : rd unit := fun i => discard_rules (S (length i)) i.

Section server.
  Context (H : HashLib) (B : Backends) (fuel : nat) (protocol : NegotiatedProtocol).
  Context {S : Type} (F : FsOps S) (open_append : list Z -> act FsError S (Writer F)).

Abbreviation serve_act := (act SessionError (Peer S)).
Definition serving {A} (m : wire_act S A) : serve_act A := fun x => let '(r, x') := m x in (lift_err SessionFailure r, x').

Definition build_module_entries (scan_fuel : nat) (module : DaemonModule) (recursive : bool) (s : S)
    : SessionError + list FileEntry :=
  let fs := view F s in
  filters ← lift_err InvalidModuleFilter
    (from_options (read_to_string fs) (mod_exclude module) (mod_include module) (mod_filter module) [] []);
  let scan_opts := mkScanOptions (if recursive then DmRecurse else DmList) false false false 0 false in
  match scan_directory fs scan_opts [] scan_fuel (mod_path module) filters with
  | Done q => mret q.1
  | Failed e => inl (SessionFailure (EFs e))
  | Deep => inl (SessionFailure EDeep)
  end.

(** The client pulls. *)
Definition handle_send_impl (scan_fuel : nat) (module : DaemonModule) (opts : TransferConfig) : serve_act unit :=
  _ ← serving (get read_and_discard_filter_list);
  _ ← (fun x => (if lexists F (pr_fs x) (mod_path module) then inr tt else inl (ModulePathNotFound (mod_path module)), x)) : serve_act unit;
  entries ← ((fun x => (build_module_entries scan_fuel module (Get.recursive opts) (pr_fs x), x)) : serve_act (list FileEntry));
  let entries := sort_file_list entries in
  serving (
    q ← put (send_file_list entries protocol (codec_config opts));
    _ ← sender_loop H B fuel protocol None (ModuleFileReader F (mod_path module)) entries (build_ndx_map q.1) false false q.2;
    stats ← reading pr_stats;
    _ ← put (stats_buf (wire protocol) stats);
    converse (server_sender_goodbye write_all (wire protocol))).

(** The client pushes. *)
Definition handle_receive_impl (schedule : list bool) (module : DaemonModule) (opts : TransferConfig) : serve_act unit :=
  if mod_read_only module then
    of_sum (inl (SessionFailure (EProtocol (Handshake ("module '" +:+ bytes_str (mod_name module) +:+
                                                       "' is read-only, cannot receive files")))))
  else serving (
    _ ← (if negb (bool_decide (Get.delete opts = DelNone)) then get read_and_discard_filter_list else mret tt);
    received ← get (recv_file_list protocol (codec_config opts));
    _ ← receiver_loop_pipelined H B fuel protocol F open_append None (Receiver_new (mod_path module) opts)
          (rl_entries received) (rl_entry_ndx received) schedule;
    _ ← server_receiver_phase_exchange protocol;
    converse (server_receiver_goodbye write_all (wire protocol))).

(** The session after its handshake. *)
Definition run_session (scan_fuel : nat) (schedule : list bool) (module : DaemonModule) (args : list (list Z)) : serve_act unit :=
  let direction := session_direction args in
  let am_sender := bool_decide (direction = DSend) in
  opts ← serving (of_result (parse_server_args_config args (mod_path module) am_sender));
  match direction with
  | DSend => handle_send_impl scan_fuel module opts
  | DReceive => handle_receive_impl schedule module opts
  end.
End server.
