(* ===== verification/ServerSpec.v ===== *)
(** What a daemon's session keeps to: the filter list is read past exactly, a
    read-only module is never written to; and where a session and this
    program's own client part ways. *)
From S2P Require Import Prelude Wire Types Text Utf8 Varint WireFormat Handshake Checksum Sum Matcher Compress Token Proc Incremental Exchange Filter Scanner Listing Options Fs Progress FileDecision Delete ReceiverEngine Transfer LocalTransfer LocalSpec UnixWire WireTransfer WireSystem Session SessionSpec ServerArgs TextOps Rsyncd Daemon DaemonClient ServerSession.

(** ** The filter list *)

(** The rules the client puts into the list. *)
Definition sent_rules (options : TransferConfig) : list (list Z) :=
  Get.filter options ++
  (if bool_decide (Get.delete options = DelExcluded) then []
   else map (fun p => str_bytes "+ " ++ p) (Get.include options) ++ map (fun p => str_bytes "- " ++ p) (Get.exclude options)).
Lemma collect_sent_rules options : collect_filter_list options = concat (map rule_bytes (sent_rules options)) ++ le_bytes 4 0.
Proof.
  unfold collect_filter_list, sent_rules. rewrite map_app, concat_app, <- !app_assoc. f_equal. f_equal.
  case_bool_decide; cbn [negb]; [done|]. by rewrite map_app, concat_app, !map_map.
Qed.

Lemma read_length (rule : list Z) : 0 <= Z.of_nat (length rule) < 2 ^ 31 ->
  (as_i32 (le_val (le_bytes 4 (as_u32 (Z.of_nat (length rule)))))) = Z.of_nat (length rule).
Proof.
  intros Hl. rewrite le_val_le_bytes. change (8 * Z.of_nat 4) with 32. fold (wrap 32 (as_u32 (Z.of_nat (length rule)))).
  rewrite wrap_wrap, wrap_id by lia. apply swrap_id; lia.
Qed.
Lemma discard_one fuel rule k : 0 < Z.of_nat (length rule) < 2 ^ 31 -> discard_rules (S fuel) (rule_bytes rule ++ k) = discard_rules fuel k.
Proof.
  intros Hl. cbn [discard_rules]. unfold mbind, rd_bind, rule_bytes. rewrite <- app_assoc.
  rewrite (read_exact_app (le_bytes 4 _) _ 4) by by rewrite length_le_bytes. rewrite read_length by lia.
  destruct (Z.eqb_spec (Z.of_nat (length rule)) 0); [lia|]. rewrite Z.abs_eq by lia. by rewrite read_exact_app.
Qed.
Lemma discard_all fuel rules k : Forall (fun r => 0 < Z.of_nat (length r) < 2 ^ 31) rules -> (length rules < fuel)%nat ->
  discard_rules fuel (concat (map rule_bytes rules) ++ le_bytes 4 0 ++ k) = Ok (tt, k).
Proof.
  intros Hr. revert fuel. induction Hr as [|r rules Hr _ IH]; intros fuel Hf; (destruct fuel as [|fuel]; [cbn [length] in Hf; lia|]).
  - cbn [map concat app discard_rules]. unfold mbind, rd_bind. by rewrite (read_exact_app (le_bytes 4 _) _ 4) by done.
  - cbn [map concat]. rewrite <- app_assoc, discard_one by done. apply IH. cbn [length] in Hf. lia.
Qed.

(** The daemon reads past the filter list a client sends, and not a byte
    further, as long as no rule is empty and none is longer than the length
    field can tell. *)
Theorem filter_list_discarded options k :
  Forall (fun r => 0 < Z.of_nat (length r) < 2 ^ 31) (sent_rules options) ->
  read_and_discard_filter_list (collect_filter_list options ++ k) = Ok (tt, k).
Proof.
  intros Hr. unfold read_and_discard_filter_list. rewrite collect_sent_rules, <- app_assoc. apply discard_all; [done|].
  rewrite length_app. enough (length (sent_rules options) <= length (concat (map rule_bytes (sent_rules options))))%nat by lia.
  clear. induction (sent_rules options) as [|r l IH]; cbn [map concat length]; [lia|]. rewrite length_app. unfold rule_bytes at 1.
  rewrite length_app, length_le_bytes. lia.
Qed.
Definition filtering_options : TransferConfig :=
  Builder.build (Builder.exclude (str_bytes "*.o") (Builder.filter (str_bytes "P keep") TransferConfig.default)).
Lemma filter_list_discarded_witness :
  read_and_discard_filter_list (collect_filter_list filtering_options ++ [1; 2; 3]) = Ok (tt, [1; 2; 3]).
Proof.
  apply (filter_list_discarded filtering_options [1; 2; 3]). apply (bool_decide_unpack _). vm_compute. exact I.
Defined.

(** An empty rule ends the list early. *)
Lemma empty_rule_ends_the_list :
  let options := Builder.build (Builder.exclude (str_bytes "*.o") (Builder.filter [] TransferConfig.default)) in
  read_and_discard_filter_list (collect_filter_list options) = Ok (tt, rule_bytes (str_bytes "- *.o") ++ le_bytes 4 0).
Proof. vm_compute. reflexivity. Qed.

(** ** What a sending session leaves alone *)

Lemma calm_ret {S A} (a : A) : calm (S := S) (mret a : wire_act S A).
Proof. by intros x. Qed.
Lemma calm_update {S} (f : Peer S -> Peer S) : (forall x, pr_fs (f x) = pr_fs x) -> calm (update f).
Proof. intros Hf x. apply Hf. Qed.
Lemma calm_result {S A} (r : result A) : calm (S := S) (of_result r).
Proof. by intros x. Qed.
Lemma calm_reading {S A} (f : Peer S -> A) : calm (reading f : wire_act S A).
Proof. by intros x. Qed.
(** Reading a file. *)
Lemma calm_look {S A} (f : S -> FsError + A) : calm (lift_fs (try_fs (fun fs => (f fs, fs)))).
Proof. intros x. unfold lift_fs, try_fs. by destruct x. Qed.

Create HintDb calm.
#[export] Hint Resolve calm_ret calm_result calm_sum calm_reading calm_look calm_get calm_put : calm.
#[export] Hint Extern 1 (calm (update _)) => (apply calm_update; intros []; reflexivity) : calm.
#[export] Hint Extern 1 (calm (at_index _ _)) => (apply calm_sum) : calm.

(** Through the steps of a program. *)
Ltac calm_steps :=
  repeat first
    [ solve [auto with calm nocore]
    | apply calm_bind; [|intros ?]
    | match goal with
      | |- calm (match ?x with _ => _ end) => destruct x
      | |- calm (if ?x then _ else _) => destruct x
      | |- calm (let _ := _ in _) => cbv zeta
      end ].

Lemma calm_converse {S A} (m : io A) : calm (S := S) (converse m).
Proof.
  induction m as [r|X r k IH|w k IH]; intros x; cbn [converse].
  - apply calm_result.
  - destruct (r (pr_in x)) as [[a rest]|e|]; [by rewrite IH|by rewrite IH|done].
  - destruct w as [[[]|e|] bs]; [by rewrite IH|by rewrite IH|done].
Qed.

Section sending.
  Context (H : HashLib) (B : Backends) (fuel : nat) (protocol : NegotiatedProtocol) {S : Type} (reader : FileReader S)
    (entries : list FileEntry) (ndx_map : gmap Z nat) (dry append : bool).

Lemma calm_send_ops blength sent ops : calm (S := S) (send_ops B fuel blength sent ops).
Proof.
  revert sent. induction ops as [|op ops IH]; intros sent; cbn [send_ops]; [auto with calm|].
  apply calm_bind; [|intros ?; apply IH]. destruct op; cbn [send_op]; calm_steps.
Qed.
Lemma calm_send_stream rounds blength m source hash sent : calm (S := S) (send_stream H B fuel rounds blength m source hash sent).
Proof.
  revert m source hash sent. induction rounds as [|n IH]; intros m source hash sent; cbn [send_stream]; [auto with calm|].
  destruct (process_chunk H m source hash) as [[[[ops done] m'] source'] hash'].
  apply calm_bind; [apply calm_send_ops|]. intros ?. destruct done; [auto with calm|apply IH].
Qed.
Lemma calm_send_file blocks entry s : calm (send_file H B fuel protocol blocks reader entry s).
Proof.
  unfold send_file. apply calm_bind; [auto with calm|]. intros w. cbv zeta. destruct (_ <=? _).
  - apply calm_bind; [apply calm_look|]. intros source. apply calm_bind; [apply calm_send_stream|]. intros q. calm_steps.
  - apply calm_bind; [apply calm_look|]. intros source. apply calm_bind; [apply calm_send_ops|]. intros q. calm_steps.
Qed.
Lemma calm_sender_round blocks st : calm (sender_round H B fuel protocol blocks reader entries ndx_map dry append st).
Proof.
  unfold sender_round. apply calm_bind; [unfold inject_pending; calm_steps|]. intros st1. apply calm_bind; [auto with calm|]. intros [ndx g].
  cbv zeta. destruct (ndx =? NDX_DONE); [calm_steps|]. destruct (ndx <? -1); [calm_steps|]. apply calm_bind; [|intros ?; calm_steps].
  unfold serve_ndx. apply calm_bind; [auto with calm|]. intros iflags. destruct (ndx_map !! ndx) as [i|]; [|calm_steps].
  apply calm_bind; [auto with calm|]. intros entry. destruct (negb _); [calm_steps|]. destruct (_ && _); [calm_steps|].
  destruct dry; [calm_steps|]. unfold serve_file. apply calm_bind; [calm_steps|]. intros s. apply calm_bind; [calm_steps|]. intros _.
  apply calm_bind; [calm_steps|]. intros n. apply calm_bind; [apply calm_send_file|]. intros sent. calm_steps.
Qed.
Lemma calm_sender_loop blocks pending : calm (sender_loop H B fuel protocol blocks reader entries ndx_map dry append pending).
Proof.
  intros x. unfold sender_loop. generalize (Datatypes.S (length (pr_in x))) as n. intros n. revert x.
  change (calm (st ← sender_rounds H B fuel protocol blocks reader entries ndx_map dry append n (sender_start pending);
     _ ← put (write_ndx NDX_DONE (send_ndx_state st) (codec protocol)); mret tt)).
  apply calm_bind; [|intros ?; calm_steps]. generalize (sender_start pending) as st.
  induction n as [|n IH]; intros st; cbn [sender_rounds]; [auto with calm|].
  apply calm_bind; [apply calm_sender_round|]. intros [st'|st']; [apply IH|auto with calm].
Qed.
End sending.

#[export] Hint Resolve calm_sender_loop calm_converse : calm.

Section read_only.
  Context (H : HashLib) (B : Backends) (fuel : nat) (protocol : NegotiatedProtocol).
  Context {S : Type} (F : FsOps S) (open_append : list Z -> act FsError S (Writer F)).

Lemma bind_fs {E A A'} (m : act E (Peer S) A) (f : A -> act E (Peer S) A') x :
  pr_fs (m x).2 = pr_fs x -> (forall a y, pr_fs y = pr_fs x -> pr_fs (f a y).2 = pr_fs x) -> pr_fs ((m ≫= f) x).2 = pr_fs x.
Proof. intros Hm Hf. unfold mbind, act_bind. destruct (m x) as [[e|a] y]; cbn [snd] in *; [done|]. by apply Hf. Qed.
Lemma serving_fs {A} (m : wire_act S A) x : calm m -> pr_fs (serving m x).2 = pr_fs x.
Proof. intros Hm. unfold serving. specialize (Hm x). by destruct (m x) as [r y]. Qed.

Lemma sending_fs scan_fuel module opts x : pr_fs (handle_send_impl H B fuel protocol F scan_fuel module opts x).2 = pr_fs x.
Proof.
  unfold handle_send_impl. apply bind_fs; [by apply serving_fs, calm_get|]. intros _ y <-.
  apply bind_fs; [done|]. intros _ y' <-. apply bind_fs; [done|]. intros entries z <-.
  apply serving_fs. calm_steps.
Qed.

(** C23. A session of a read-only module never changes the file system, whatever
    the client says: asked to receive it refuses before it reads a byte, and
    sending only ever reads. *)
Theorem read_only_untouched scan_fuel schedule module args x : mod_read_only module = true ->
  pr_fs (run_session H B fuel protocol F open_append scan_fuel schedule module args x).2 = pr_fs x.
Proof.
  intros Hr. unfold run_session. cbv zeta. apply bind_fs; [apply serving_fs; auto with calm|]. intros opts y Hy.
  destruct (session_direction args); [by rewrite <- Hy, sending_fs|]. unfold handle_receive_impl. by rewrite Hr.
Qed.
End read_only.

(** ** What a session is told *)

(** A path that is no option. *)
Definition no_option (path : list Z) : Prop := starts_with path (str_bytes "-") = false.
Lemma no_option_words path : no_option path -> path <> str_bytes "--server" /\ path <> str_bytes "--sender" /\ starts_with path (str_bytes "--") = false.
Proof.
  intros Hp. unfold no_option in Hp. split_and!; [by intros ->..|]. destruct (starts_with path (str_bytes "--")) eqn:E; [|done].
  apply starts_with_spec in E as (r & ->). by vm_compute in Hp.
Qed.
Lemma sort_path found path : no_option path -> sort_arg found path = found.
Proof.
  intros Hp. destruct (no_option_words path Hp) as (H1 & H2 & H3). unfold sort_arg. rewrite !(bool_decide_false (path = str_bytes (String _ (String _ _)))) by done.
  destruct (bool_decide _); [done|]. cbn [orb]. rewrite H3. unfold no_option in Hp. by rewrite Hp.
Qed.
Lemma sort_word found w : w ∈ [str_bytes "--server"; str_bytes "--sender"; [46]] -> sort_arg found w = found.
Proof. intros [->|[->|[->|[]%elem_of_nil]%elem_of_cons]%elem_of_cons]%elem_of_cons; reflexivity. Qed.

Lemma all_words opts (push : bool) :
  Forall (fun a => a <> str_bytes "--server" /\ a <> str_bytes "--sender" /\ a <> [46]) (build_server_options_config opts push).
Proof.
  constructor.
  - unfold condensed_arg. pose proof (not_a_flag opts 45 ltac:(by right)) as Hm.
    destruct (condensed_flags opts) as [|c flags]; [by split_and!|]. apply not_elem_of_cons in Hm as [Hm _].
    split_and!; [intros E; by apply (f_equal (fun l => nth 1 l 0)) in E..|done].
  - pose proof (all_long opts push) as Hl. rewrite forallb_forall in Hl. apply Forall_forall. intros a Ha%list_elem_of_In.
    specialize (Hl _ Ha). by split_and!; intros ->.
Qed.

(** The words after [--server], with a dot and a path behind the options. *)
Lemma session_words opts (push : bool) path : no_option path ->
  let words := build_server_options_config opts push in
  let args := (if negb push then [str_bytes "--sender"] else []) ++ words ++ [[46]; path] in
  session_direction args = (if push then DReceive else DSend) /\
  forall module_path sends, parse_server_args_config args module_path sends = parse_server_args_config words module_path sends.
Proof.
  intros Hpath words args. destruct (no_option_words path Hpath) as (H1 & H2 & _). split.
  - unfold session_direction, args. rewrite !existsb_app. destruct push; cbn [negb existsb orb].
    + assert (E : existsb (fun a => bool_decide (a = str_bytes "--sender")) words = false).
      { apply not_true_iff_false. intros (a & Ha%list_elem_of_In & E%bool_decide_eq_true)%existsb_exists.
        pose proof (all_words opts true) as Hw. rewrite Forall_forall in Hw. by destruct (Hw _ Ha) as (_ & ? & _). }
      rewrite E, (bool_decide_false (path = _)) by done. reflexivity.
    + by rewrite !(bool_decide_true (str_bytes "--sender" = str_bytes "--sender")) by done.
  - intros mp sends. unfold parse_server_args_config. replace (foldl sort_arg ([], []) args) with (foldl sort_arg ([], []) words); [done|].
    unfold args. rewrite !foldl_app. cbn [foldl]. rewrite sort_path by done. rewrite (sort_word _ [46]) by by (do 2 right; left).
    destruct push; [done|]. cbn [negb foldl]. by rewrite sort_word by (right; left).
Qed.

(** A session is what the client asked for.  From the arguments a client
    sends after it was let in, for any well-typed configuration and a path
    that does not look like an option, the daemon takes the direction opposite
    to the client's and the options of [server_view], with the path of the
    module as source or destination. *)
Theorem session_as_asked opts push config module_path :
  options_typed opts -> no_option (dt_path config) ->
  let args := build_args config push (build_server_options_config opts push) in
  let sends := bool_decide (session_direction args = DSend) in
  session_direction args = (if push then DReceive else DSend) /\
  parse_server_args_config args module_path sends =
    Ok (server_view opts push (if push then PathConfig.mk [] (Some module_path) else PathConfig.mk [module_path] None)).
Proof.
  intros Ht Hp. cbv zeta. set (path := if bool_decide (dt_path config = []) then [46] else dt_path config).
  assert (Hpath : no_option path) by (unfold path; by case_bool_decide). destruct (session_words opts push path Hpath) as (Ed & Es).
  set (args := (if negb push then [str_bytes "--sender"] else []) ++ build_server_options_config opts push ++ [[46]; path]) in Ed, Es.
  change (build_args config push _) with (str_bytes "--server" :: args). split; [exact Ed|].
  change (session_direction (str_bytes "--server" :: args)) with (session_direction args). rewrite Ed.
  change (parse_server_args_config (str_bytes "--server" :: args)) with (parse_server_args_config args). rewrite Es.
  rewrite server_args_roundtrip by done. by destruct push.
Qed.
Lemma session_as_asked_witness :
  let args := build_args (mkTransportConfig (str_bytes "pub") (str_bytes "docs/a b") None None) true (build_server_options_config sample_options true) in
  session_direction args = DReceive /\
  parse_server_args_config args (str_bytes "/srv/pub") (bool_decide (session_direction args = DSend)) =
    Ok (server_view sample_options true (PathConfig.mk [] (Some (str_bytes "/srv/pub")))).
Proof. exact (session_as_asked sample_options true (mkTransportConfig (str_bytes "pub") (str_bytes "docs/a b") None None) (str_bytes "/srv/pub") sample_typed eq_refl). Defined.

(** The path the client asks for is known, and not used. *)
Lemma path_is_known opts push config : no_option (dt_path config) -> dt_path config <> [] ->
  remote_path (build_args config push (build_server_options_config opts push)) = dt_path config.
Proof.
  intros Hp Hne. set (words := build_server_options_config opts push).
  assert (Hwords : Forall (fun a => a <> [46]) words) by (eapply Forall_impl; [apply all_words|by intros a (_ & _ & ?)]).
  clearbody words. unfold remote_path, build_args. rewrite (bool_decide_false (dt_path config = [])) by done.
  assert (Hw : forall ws rest, Forall (fun a => a <> [46]) ws -> remote_path_from false (ws ++ rest) = remote_path_from false rest).
  { intros ws rest. induction 1 as [|a ws Ha _ IH]; [done|]. cbn [app remote_path_from]. by rewrite bool_decide_false. }
  rewrite Hw by by constructor. rewrite Hw by (by destruct push; repeat constructor). by rewrite Hw.
Qed.

(** A push with [--prune-empty-dirs] alone: the client sends a filter list that
    the daemon does not read; its bytes are taken for the file list. *)
Lemma pruning_push_is_misread :
  let opts := Builder.build (Builder.prune_empty_dirs true TransferConfig.default) in
  exists told, parse_server_args_config (build_server_options_config opts true) [] false = Ok told /\
    send_filter_list opts = true /\ bool_decide (Get.delete told = DelNone) = true /\
    collect_filter_list opts = [0; 0; 0; 0].
Proof. eexists. split; [vm_compute; reflexivity|]. vm_compute. split_and!; reflexivity. Qed.

(** ** A name that climbs *)

Definition climbing_entry : FileEntry :=
  mkFileEntry (str_bytes "../evil") 0 0 0 0x41ED 0 0 0 [] [] 0 [] [] None None None None.
Definition open_module : DaemonModule :=
  from_config (ModuleConfig.set_read_only false (ModuleConfig.set_path (str_bytes "/srv/pub") (ModuleConfig.default (str_bytes "pub")))).
Definition pushing_args : list (list Z) :=
  build_args (mkTransportConfig (str_bytes "pub") [] None None) true (build_server_options_config (Builder.build TransferConfig.default) true).
Definition pushed_list : list Z :=
  (send_file_list [climbing_entry] trial_protocol (codec_config (Builder.build TransferConfig.default))).2.

(** Names that a client pushes are not looked at: a directory [../evil] is made
    beside the module.  A client that pulls refuses the name. *)
Lemma pushed_name_climbs :
  let run := run_session toy_hash stored_backends 9 trial_protocol recorder (fun p s => (inr tt, s ++ [p])) 5 [] open_module pushing_args
    (mkPeer [] pushed_list [] [] TransferStats_new ProgressTracker_new) in
  pr_fs run.2 = [str_bytes "/srv/pub/../evil"] /\
  check_names (str_bytes "/srv/pub") [climbing_entry] = inl (EFs (PermissionDenied (str_bytes "../evil"))).
Proof. split; vm_compute; reflexivity. Qed.

(** The same push, to the module as a configuration leaves it. *)
Definition closed_module : DaemonModule :=
  from_config (ModuleConfig.set_path (str_bytes "/srv/pub") (ModuleConfig.default (str_bytes "pub"))).
Lemma read_only_untouched_witness :
  let run := run_session toy_hash stored_backends 9 trial_protocol recorder (fun p s => (inr tt, s ++ [p])) 5 [] closed_module pushing_args
    (mkPeer [] pushed_list [] [] TransferStats_new ProgressTracker_new) in
  mod_read_only closed_module = true /\ pr_fs run.2 = [].
Proof. split; [reflexivity|]. apply read_only_untouched. reflexivity. Defined.
