(* ===== verification/Batch.v ===== *)
(** [ferrosync-engine/src/batch.rs], and [run_read_batch] of [session.rs]: what a
    session leaves in a batch file, and the replay of one.

    The file starts with a header; after it come the frames ([Multiplex.v]) that
    the recording session sent.  A replay opens the file as the stream of a
    receiver; what it answers is thrown away. *)
From S2P Require Import Prelude Wire Types Text Utf8 Multiplex Varint WireFormat Handshake Checksum Compress Token Proc Incremental Exchange Filter Scanner Listing Options Fs Progress FileDecision Delete ReceiverEngine Transfer LocalTransfer WireTransfer WireSystem Session.

(** ** Stream flags *)

Definition FLAG_RECURSE : Z := 1 ≪ 0.
Definition FLAG_PRESERVE_UID : Z := 1 ≪ 1.
Definition FLAG_PRESERVE_GID : Z := 1 ≪ 2.
Definition FLAG_PRESERVE_LINKS : Z := 1 ≪ 3.
Definition FLAG_PRESERVE_DEVICES : Z := 1 ≪ 4.
Definition FLAG_PRESERVE_HARD_LINKS : Z := 1 ≪ 5.
Definition FLAG_ALWAYS_CHECKSUM : Z := 1 ≪ 6.
Definition FLAG_PRESERVE_ACLS : Z := 1 ≪ 7.
Definition FLAG_PRESERVE_XATTRS : Z := 1 ≪ 8.
Definition FLAG_ICONV : Z := 1 ≪ 9.
Definition FLAG_PRESERVE_PERMS : Z := 1 ≪ 10.
Definition FLAG_PRESERVE_TIMES : Z := 1 ≪ 12.

(** [if b { flags |= mask; }] *)
Definition set_if (b : bool) (mask flags : Z) : Z := if b then Z.lor flags mask else flags.
Definition compute_stream_flags (config : TransferConfig) : Z :=
  let flags := 0 in
  let flags := set_if (Get.recursive config) FLAG_RECURSE flags in
  let flags := set_if (Get.preserve_owner config) FLAG_PRESERVE_UID flags in
  let flags := set_if (Get.preserve_group config) FLAG_PRESERVE_GID flags in
  let flags := set_if (Get.preserve_links config) FLAG_PRESERVE_LINKS flags in
  let flags := set_if (Get.preserve_devices config) FLAG_PRESERVE_DEVICES flags in
  let flags := set_if (Get.preserve_hard_links config) FLAG_PRESERVE_HARD_LINKS flags in
  let flags := set_if (Get.checksum_mode config) FLAG_ALWAYS_CHECKSUM flags in
  let flags := set_if (Get.preserve_acls config) FLAG_PRESERVE_ACLS flags in
  let flags := set_if (Get.preserve_xattrs config) FLAG_PRESERVE_XATTRS flags in
  let flags := set_if (negb (bool_decide (Get.iconv config = None))) FLAG_ICONV flags in
  let flags := set_if (Get.preserve_perms config) FLAG_PRESERVE_PERMS flags in
  set_if (Get.preserve_times config) FLAG_PRESERVE_TIMES flags.

(** The lines it logs are left out. *)
Definition apply_stream_flags (flags : Z) (config : TransferConfig) : TransferConfig :=
  let preservation f := Builder.upd TransferConfig.preservation TransferConfig.set_preservation f in
  let config := Builder.upd TransferConfig.traversal TransferConfig.set_traversal
    (TraversalConfig.set_dir_mode (if has_bits flags FLAG_RECURSE then DmRecurse else DmSkip)) config in
  let config := preservation (PreservationConfig.set_owner (has_bits flags FLAG_PRESERVE_UID)) config in
  let config := preservation (PreservationConfig.set_group (has_bits flags FLAG_PRESERVE_GID)) config in
  let config := preservation (PreservationConfig.set_links (has_bits flags FLAG_PRESERVE_LINKS)) config in
  let config := preservation (PreservationConfig.set_devices (has_bits flags FLAG_PRESERVE_DEVICES)) config in
  let config := preservation (PreservationConfig.set_hard_links (has_bits flags FLAG_PRESERVE_HARD_LINKS)) config in
  let config := Builder.upd TransferConfig.file_selection TransferConfig.set_file_selection
    (FileSelectionConfig.set_checksum_mode (has_bits flags FLAG_ALWAYS_CHECKSUM)) config in
  let config := preservation (PreservationConfig.set_acls (has_bits flags FLAG_PRESERVE_ACLS)) config in
  let config := preservation (PreservationConfig.set_xattrs (has_bits flags FLAG_PRESERVE_XATTRS)) config in
  let config := preservation (PreservationConfig.set_perms (has_bits flags FLAG_PRESERVE_PERMS)) config in
  preservation (PreservationConfig.set_times (has_bits flags FLAG_PRESERVE_TIMES)) config.

(** ** The header *)

Definition write_varint_sync (val : Z) : wr unit :=
  if val <? 0xFE then write_all [as_u8 val]
  else if val <? 0x10000 then _ ← write_all [0xFE]; write_all (le_bytes 2 val)
  else _ ← write_all [0xFF]; write_all (le_bytes 4 val).
Definition read_varint_sync : rd Z :=
  b ← read_exact 1;
  let v := le_val b in
  if v =? 0xFE then buf ← read_exact 2; mret (le_val buf)
  else if v =? 0xFF then buf ← read_exact 4; mret (le_val buf)
  else mret v.

Definition write_batch_header (version compat_flags seed : Z) (config : TransferConfig) : wr unit :=
  _ ← write_all (le_bytes 4 version);
  _ ← (if 30 <=? version then write_varint_sync compat_flags else mret tt);
  _ ← write_all (le_bytes 4 seed);
  write_all (le_bytes 4 (as_i32 (compute_stream_flags config))).
Definition read_batch_header : rd (Z * Z * Z * Z) :=
  version ← (buf ← read_exact 4; mret (as_u8 (as_i32 (le_val buf))));
  compat_flags ← (if 30 <=? version then read_varint_sync else mret 0);
  seed ← (buf ← read_exact 4; mret (as_i32 (le_val buf)));
  stream_flags ← (buf ← read_exact 4; mret (as_u32 (as_i32 (le_val buf))));
  mret (version, compat_flags, seed, stream_flags).

(** ** The tee *)

Inductive Poll :=
  | Pending
  | Ready (result : unit + nat).

(** [W]: the writer to the peer, a poll at a time; [File]: the buffered file. *)
Section dual.
  Context {W File : Type} (wire_poll : W -> list Z -> Poll * W) (file_write : File -> list Z -> (unit + unit) * File).

Record DualWriter := mkDualWriter {
  dw_wire : W;
  dw_batch : File;
}.

Definition dual_poll_write (d : DualWriter) (buf : list Z) : Poll * DualWriter :=
  let '(result, w) := wire_poll (dw_wire d) buf in
  match result with
  | Ready (inr n) =>
      if (0 <? n)%nat then
        match file_write (dw_batch d) (take n buf) with
        | (inl e, f) => (Ready (inl e), mkDualWriter w f)
        | (inr _, f) => (result, mkDualWriter w f)
        end
      else (result, mkDualWriter w (dw_batch d))
  | _ => (result, mkDualWriter w (dw_batch d))
  end.
End dual.
Arguments DualWriter : clear implicits.
Arguments mkDualWriter {W File} _ _.
Arguments dw_wire {W File} _.
Arguments dw_batch {W File} _.

(** ** Replay *)

Definition replayed_protocol (version compat_flags seed : Z) : NegotiatedProtocol :=
  mkNegotiatedProtocol version compat_flags (ChecksumType.default_for_version version) CpNone
    (has_bits compat_flags compat_flags.CHKSUM_SEED_FIX) seed ChunkingStrategy.default (WireFormat_new version compat_flags).

Section replay.
  Context (H : HashLib) (B : Backends) (fuel : nat) {S : Type} (F : FsOps S) (open_append : list Z -> act FsError S (Writer F)).

(** What follows the header, under the protocol and the options it gave. *)
Definition replay (protocol : NegotiatedProtocol) (options : TransferConfig) (schedule : list bool) (prune_fuel : nat) : wire_act S unit :=
  received ← get (recv_file_list protocol (codec_config options));
  let entries := rl_entries received in
  _ ← announce entries;
  dest ← of_sum (match Get.dest options with Some d => inr d | None => inl (EFs (NotFound (str_bytes "<no destination>"))) end);
  _ ← of_sum (check_names dest entries);
  receive_entries H B fuel protocol F open_append options schedule prune_fuel dest entries (rl_entry_ndx received).

(** [pr_in] of the peer is what the file holds. *)
Definition run_read_batch (options : TransferConfig) (schedule : list bool) (prune_fuel : nat) : wire_act S unit :=
  header ← get read_batch_header;
  let '(version, compat_flags, seed, stream_flags) := header in
  let options := apply_stream_flags stream_flags options in
  _ ← update (fun x => peer_in (concat (payloads (pr_in x))) x);
  replay (replayed_protocol version compat_flags seed) options schedule prune_fuel.
End replay.

(** ** What the flags carry *)

Lemma has_bits_set (b : bool) f m k :
  has_bits (set_if b m f) k = (b && has_bits m k) || has_bits f k.
Proof.
  unfold set_if. destruct b; [|done]. unfold has_bits. cbn [andb]. rewrite Z.land_lor_distr_l.
  pose proof (Z.lor_eq_0_iff (Z.land f k) (Z.land m k)) as E.
  destruct (Z.eqb_spec (Z.land m k) 0), (Z.eqb_spec (Z.land f k) 0), (Z.eqb_spec (Z.lor (Z.land f k) (Z.land m k)) 0);
    try done; tauto.
Qed.

(** The options a batch file carries. *)
Definition recorded_options (c : TransferConfig) : list bool :=
  [Get.recursive c; Get.preserve_owner c; Get.preserve_group c; Get.preserve_links c; Get.preserve_devices c; Get.preserve_hard_links c;
   Get.checksum_mode c; Get.preserve_acls c; Get.preserve_xattrs c; Get.preserve_perms c; Get.preserve_times c].

Definition carried_flags : list Z :=
  [FLAG_RECURSE; FLAG_PRESERVE_UID; FLAG_PRESERVE_GID; FLAG_PRESERVE_LINKS; FLAG_PRESERVE_DEVICES; FLAG_PRESERVE_HARD_LINKS;
   FLAG_ALWAYS_CHECKSUM; FLAG_PRESERVE_ACLS; FLAG_PRESERVE_XATTRS; FLAG_PRESERVE_PERMS; FLAG_PRESERVE_TIMES].

Lemma applied_flags flags own :
  recorded_options (apply_stream_flags flags own) = map (has_bits flags) carried_flags.
Proof.
  assert (E : forall b : bool, bool_decide ((if b then DmRecurse else DmSkip) = DmRecurse) = b) by (by intros []).
  change (bool_decide ((if has_bits flags FLAG_RECURSE then DmRecurse else DmSkip) = DmRecurse) :: map (has_bits flags) (tail carried_flags)
    = map (has_bits flags) carried_flags). by rewrite E.
Qed.
Lemma computed_flags c : map (has_bits (compute_stream_flags c)) carried_flags = recorded_options c.
Proof.
  unfold compute_stream_flags. cbv zeta. unfold carried_flags. cbn [map]. rewrite !has_bits_set.
  repeat match goal with |- context[has_bits ?a ?b] => let v := eval vm_compute in (has_bits a b) in change (has_bits a b) with v end.
  rewrite ?andb_false_r, ?andb_true_r, ?orb_false_r, ?orb_false_l. reflexivity.
Qed.

Lemma stream_flags_carry (recorded own : TransferConfig) :
  let replayed := apply_stream_flags (compute_stream_flags recorded) own in
  recorded_options replayed = recorded_options recorded /\
  Get.dest replayed = Get.dest own /\ Get.delete replayed = Get.delete own /\ Get.dry_run replayed = Get.dry_run own /\
  Get.iconv replayed = Get.iconv own /\ Get.preserve_specials replayed = Get.preserve_specials own /\
  Get.numeric_ids replayed = Get.numeric_ids own.
Proof. cbv zeta. split; [by rewrite applied_flags, computed_flags|done]. Qed.

Lemma stream_flags_range c : in_u32 (compute_stream_flags c) /\ compute_stream_flags c < 2 ^ 31.
Proof.
  assert (Hb : forall (b : bool) f m, 0 <= f < 2 ^ 13 -> 0 <= m < 2 ^ 13 -> 0 <= set_if b m f < 2 ^ 13).
  { intros b f m Hf Hm. unfold set_if. destruct b; [|done]. split; [apply Z.lor_nonneg; lia|].
    destruct (decide (Z.lor f m = 0)) as [->|]; [done|]. apply Z.log2_lt_pow2; [pose proof (proj2 (Z.lor_nonneg f m)); lia|].
    rewrite Z.log2_lor by lia.
    apply Z.max_lub_lt; [destruct (decide (f = 0)) as [->|]|destruct (decide (m = 0)) as [->|]]; try done; apply Z.log2_lt_pow2; lia. }
  assert (0 <= compute_stream_flags c < 2 ^ 13); [|lia].
  unfold compute_stream_flags. cbv zeta. repeat (apply Hb; [|done]). done.
Qed.

(** ** The header is read back *)

Lemma varint_sync_mirrors v : in_u32 v -> mirrors (write_varint_sync v) read_varint_sync (fun _ y => y = v).
Proof.
  intros Hv. exists tt, v. unfold write_varint_sync.
  assert (Hk : forall n k, read_exact (Z.of_nat n) (le_bytes n v ++ k) = Ok (le_bytes n v, k))
    by (intros n k; apply read_exact_app; by rewrite length_le_bytes).
  destruct (Z.ltb_spec v 0xFE); [|destruct (Z.ltb_spec v 0x10000)]; eexists; (split_and!; [done|intros k|done]);
    unfold read_varint_sync, mbind, rd_bind; cbn [app]; rewrite read_exact_cons.
  - rewrite wrap_id by lia. cbn [le_val]. rewrite Z.mul_0_r, Z.add_0_r.
    destruct (Z.eqb_spec v 0xFE); [lia|]. by destruct (Z.eqb_spec v 0xFF); [lia|].
  - change (le_val [0xFE]) with 0xFE. cbn [Z.eqb Pos.eqb]. rewrite (Hk 2%nat k : read_exact 2 _ = _).
    unfold mret, rd_ret. by rewrite le_val_le_bytes, Z.mod_small by lia.
  - change (le_val [0xFF]) with 0xFF. cbn [Z.eqb Pos.eqb]. rewrite (Hk 4%nat k : read_exact 4 _ = _).
    unfold mret, rd_ret. by rewrite le_val_le_bytes, Z.mod_small by lia.
Qed.

Lemma four_bytes_i32 x : as_i32 (x mod 2 ^ (8 * Z.of_nat 4)) = as_i32 x.
Proof. apply (swrap_wrap 32). Qed.

Lemma batch_header_mirrors version compat_flags seed config :
  0 <= version < 256 -> in_u32 compat_flags -> in_i32 seed -> (version < 30 -> compat_flags = 0) ->
  mirrors (write_batch_header version compat_flags seed config) read_batch_header
    (fun _ h => h = (version, compat_flags, seed, compute_stream_flags config)).
Proof.
  intros Hv Hc Hs H0. pose proof (stream_flags_range config) as Hf. unfold write_batch_header, read_batch_header.
  eapply mirrors_bind; [apply (mirrors_le_bytes 4 version (fun x => as_u8 (as_i32 x)))|].
  intros _ v ->. rewrite four_bytes_i32, (swrap_id 32 version), wrap_id by lia.
  eapply (mirrors_bind _ _ _ _ (fun _ c => c = compat_flags)).
  { destruct (Z.leb_spec 30 version); [by apply varint_sync_mirrors|]. apply mirrors_ret. symmetry. apply H0. lia. }
  intros _ c ->. eapply mirrors_bind; [apply (mirrors_le_bytes 4 seed as_i32)|].
  intros _ s ->. rewrite four_bytes_i32, (swrap_id 32 seed) by lia. apply mirrors_map.
  eapply mirrors_mono; [apply (mirrors_le_bytes 4 _ (fun x => as_u32 (as_i32 x)))|].
  cbn beta. intros _ f ->. by rewrite four_bytes_i32, !(swrap_id 32 (compute_stream_flags config)), wrap_id by lia.
Qed.

(** ** The tee keeps the wire's bytes *)

Section dual_facts.
  Context {W File : Type} (wire_poll : W -> list Z -> Poll * W) (file_write : File -> list Z -> (unit + unit) * File).
  Context (sent : W -> list Z) (contents : File -> list Z).
  (** The wire takes a prefix of what it is given, as long as it says; the file
      appends, or fails. *)
  Context (wire_takes : forall w buf, sent (wire_poll w buf).2 = sent w ++
    match (wire_poll w buf).1 with Ready (inr n) => take n buf | _ => [] end).
  Context (file_appends : forall f buf f', file_write f buf = (inr tt, f') -> contents f' = contents f ++ buf).

(** Polls, until the file fails. *)
Fixpoint dual_writes (d : DualWriter W File) (bufs : list (list Z)) : option (DualWriter W File) :=
  match bufs with
  | [] => Some d
  | buf :: bufs =>
      match dual_poll_write wire_poll file_write d buf with
      | (Ready (inl _), _) => None
      | (_, d) => dual_writes d bufs
      end
  end.

Lemma tee_copies d bufs d' before :
  contents (dw_batch d) = before ++ sent (dw_wire d) -> dual_writes d bufs = Some d' ->
  contents (dw_batch d') = before ++ sent (dw_wire d').
Proof.
  revert d. induction bufs as [|buf bufs IH]; intros d Hd; cbn [dual_writes]; [by intros [= <-]|].
  unfold dual_poll_write. pose proof (wire_takes (dw_wire d) buf) as Hw. destruct (wire_poll (dw_wire d) buf) as [result w].
  cbn [fst snd] in Hw. destruct result as [|[e|n]].
  - apply IH. cbn [dw_batch dw_wire]. by rewrite Hw, app_nil_r.
  - done.
  - destruct (Nat.ltb_spec 0 n).
    + pose proof (file_appends (dw_batch d) (take n buf)) as Hf. destruct (file_write (dw_batch d) (take n buf)) as [[e|[]] f]; [done|].
      apply IH. cbn [dw_batch dw_wire]. rewrite Hw, (Hf f), Hd by done. by rewrite app_assoc.
    + apply IH. cbn [dw_batch dw_wire]. replace n with 0%nat in Hw by lia. by rewrite Hw, take_0, app_nil_r.
Qed.
End dual_facts.

(** ** A replay is the session again *)

(** The frames of [write_data] carry its bytes. *)
Lemma payloads_write_data data : Forall is_byte data -> concat (payloads (write_data data).2) = data.
Proof.
  intros Hb. rewrite write_data_frames. cbn [snd]. pose proof (parse_frames _ [] (chunk_frames_ok data Hb)) as (Hp & _ & _).
  rewrite app_nil_r, map_map in Hp. rewrite Hp, data_frames_chunks, app_nil_r. apply concat_chunks, chunk_size_pos.
Qed.

(** A session whose batch can be replayed: nothing of what was negotiated is
    missing from the header. *)
Definition replayable (p : NegotiatedProtocol) : Prop :=
  negotiated_ok p /\ in_u32 (compat_flags p) /\ in_i32 (seed p) /\ chunking p = ChunkingStrategy.default /\
  checksum_type p = ChecksumType.default_for_version (version p) /\ compress p = CpNone.

Lemma replayed_same p : replayable p -> replayed_protocol (version p) (compat_flags p) (seed p) = p.
Proof.
  intros ((Hv & H0 & Hw & Ho & _) & _ & _ & Hk & Hc & Hz). destruct p. cbn in *. unfold replayed_protocol. by rewrite <- Hw, <- Ho, <- Hk, <- Hc, <- Hz.
Qed.

(** C25. A batch file is the session again.  Take the header that [write_batch_header]
    leaves for a protocol that negotiated nothing beyond its version's defaults,
    and after it the frames of any bytes [data]: replaying this file, under any
    options of one's own, is receiving [data] under the recorded protocol and
    the eleven recorded options, with every other option one's own.  No error
    comes from the header, and what was written there is what is used. *)
Theorem batch_is_the_session H B fuel {S : Type} (F : FsOps S) open_append p recorded own data schedule prune_fuel (x : Peer S) :
  replayable p -> Forall is_byte data ->
  pr_in x = (write_batch_header (version p) (compat_flags p) (seed p) recorded).2 ++ (write_data data).2 ->
  let options := apply_stream_flags (compute_stream_flags recorded) own in
  run_read_batch H B fuel F open_append own schedule prune_fuel x
    = replay H B fuel F open_append p options schedule prune_fuel (peer_in data x) /\
  recorded_options options = recorded_options recorded /\
  codec_config options = mkCodecConfig (Get.preserve_owner recorded) (Get.preserve_group recorded) (Get.preserve_devices recorded)
    (Get.preserve_specials own) (Get.preserve_links recorded) (Get.preserve_hard_links recorded) (Get.checksum_mode recorded)
    (Get.numeric_ids own) (Get.preserve_acls recorded) (Get.preserve_xattrs recorded) (Get.recursive recorded).
Proof.
  intros Hp Hd Hx options. pose proof (stream_flags_carry recorded own) as (Hr & _ & _ & _ & _ & Hsp & Hn). fold options in Hr, Hsp, Hn.
  split_and!; [|done|].
  - pose proof Hp as ((Hv & H0 & _) & Hc & Hs & _). unfold MIN_PROTOCOL_VERSION, MAX_PROTOCOL_VERSION in Hv.
    destruct (batch_header_mirrors (version p) (compat_flags p) (seed p) recorded) as ([] & h & bs & Hw & Hh & ->); [lia|done..|].
    rewrite Hw in Hx. cbn [snd] in Hx. unfold run_read_batch, mbind at 1. cbv [act_bind get]. rewrite Hx, Hh.
    cbn beta iota. rewrite (replayed_same p Hp). unfold update, mbind, act_bind.
    cbn [pr_in peer_in]. rewrite payloads_write_data by done. by destruct x.
  - unfold codec_config. unfold recorded_options in Hr. injection Hr as -> -> -> -> -> -> -> -> -> _ _.
    by rewrite Hsp, Hn.
Qed.

(** ** A batch, replayed *)

Definition batch_protocol : NegotiatedProtocol := replayed_protocol 31 0xA0 7.
Definition batch_entry : FileEntry := mkFileEntry (str_bytes "sub") 0 0 0 0x41ED 0 0 0 [] [] 0 [] [] None None None None.
Definition batch_options : TransferConfig := Builder.build (Builder.recursive true TransferConfig.default).
Definition batch_data : list Z := (send_file_list [batch_entry] batch_protocol (codec_config batch_options)).2.
Definition own_options : TransferConfig := Builder.build (Builder.dest (str_bytes "/t") TransferConfig.default).
Definition batch_file : list Z := (write_batch_header 31 0xA0 7 batch_options).2 ++ (write_data batch_data).2.
Definition batch_peer (i : list Z) : Peer (list (list Z)) := mkPeer [] i [] [] TransferStats_new ProgressTracker_new.

Lemma batch_is_the_session_witness :
  replayable batch_protocol /\
  run_read_batch toy_hash stored_backends 9 recorder (fun p s => (inr tt, s ++ [p])) own_options [] 10 (batch_peer batch_file)
    = replay toy_hash stored_backends 9 recorder (fun p s => (inr tt, s ++ [p])) batch_protocol
        (apply_stream_flags (compute_stream_flags batch_options) own_options) [] 10 (batch_peer batch_data).
Proof.
  assert (Hp : replayable batch_protocol) by (repeat split; vm_compute; congruence).
  split; [exact Hp|].
  exact (proj1 (batch_is_the_session toy_hash stored_backends 9 recorder (fun p s => (inr tt, s ++ [p])) batch_protocol batch_options own_options
    batch_data [] 10 (batch_peer batch_file) Hp ltac:(apply (bool_decide_eq_true_1 _); vm_compute; reflexivity) eq_refl)).
Defined.

(** The replay of a directory makes it; a file cut in its header is an error
    before anything is touched. *)
Example batch_examples :
  let run i := run_read_batch toy_hash stored_backends 9 recorder (fun p s => (inr tt, s ++ [p])) own_options [] 10 (batch_peer i) in
  (run batch_file).1 = inr tt /\ pr_fs (run batch_file).2 = [str_bytes "/t/sub"] /\
  (run (take 5 batch_file)).1 = inl (EProtocol (Io UnexpectedEof)) /\ pr_fs (run (take 5 batch_file)).2 = [].
Proof. repeat split; vm_compute; reflexivity. Qed.

(** The header's varint is not the one of the wire, from [0x80] on. *)
Lemma varint_sync_differs : write_varint_sync 0xA0 = (Ok tt, [0xA0]) /\ write_varint 0xA0 = (Ok tt, [0x80; 0xA0]).
Proof. split; reflexivity. Qed.

(** What a batch does not carry: a negotiated checksum and compression are
    forgotten, and the data is read as something else. *)
Lemma negotiation_is_forgotten p : negotiated_ok p -> compress p <> CpNone \/ checksum_type p <> ChecksumType.default_for_version (version p) ->
  replayed_protocol (version p) (compat_flags p) (seed p) <> p.
Proof. intros _ Hd E. destruct Hd as [Hd|Hd]; apply Hd; rewrite <- E at 1; reflexivity. Qed.
