(* ===== verification/Noise.v ===== *)
(** [ferrosync-transport/src/noise.rs]: the two halves of an encrypted stream,
    a poll at a time.

    [snow]'s [TransportState], which the halves share behind a lock, is a
    parameter; a poll is told whether [try_lock] finds it free.  What the socket
    answers to the polls inside a call is a schedule. *)
From S2P Require Import Prelude.

Definition MAX_NOISE_MSG_LEN : nat := Z.to_nat 65535.

(** ** Types *)

Inductive NoiseReadState :=
  | ReadIdle
  | ReadingLen (buf : list Z)
  | ReadingBody (len : nat) (buf : list Z).
Inductive NoiseWriteState :=
  | WriteIdle
  | Flushing (frame : list Z) (pos plaintext_len : nat).

(** [read_state] holds the bytes read so far; their number is the code's [pos]. *)
Record NoiseReader := mkNoiseReader {
  nr_read_buf : list Z;
  nr_read_pos : nat;
  nr_read_state : NoiseReadState;
}.
Definition NoiseReader_new : NoiseReader := mkNoiseReader [] 0 ReadIdle.

Inductive NoiseIoError := EofInLength | EofInBody | DecryptError | EncryptError | TcpError.
Inductive ReadPoll := ReadReady (bytes : list Z) | ReadError (e : NoiseIoError) | ReadPending.
Inductive WritePoll := WriteReady (n : nat) | WriteError (e : NoiseIoError) | WritePending.

(** What a socket answers: some of the bytes that have come or that there is
    room for (one more than [k] at most), an error, or nothing yet. *)
Inductive SocketPoll := Some_bytes (k : nat) | SocketError | SocketPending.

Definition be_len (n : nat) : list Z := [as_u8 (Z.of_nat n ≫ 8); as_u8 (Z.of_nat n)].
Definition from_be_len (buf : list Z) : nat :=
  match buf with [hi; lo] => Z.to_nat (Z.lor (hi ≪ 8) lo) | _ => 0 end.

Section noise.
  Context {T : Type} (write_message read_message : T -> list Z -> option (list Z) * T).

(** ** Reading *)

Definition read_len_done (buf : list Z) : ReadPoll + NoiseReadState :=
  let msg_len := from_be_len buf in
  if (msg_len =? 0)%nat then inl (ReadReady []) else inr (ReadingBody msg_len []).

(** A body that is complete. *)
Definition deliver (lock_free : bool) (cap len : nat) (encrypted : list Z) (t : T) : ReadPoll * NoiseReader * T :=
  if lock_free then
    match read_message t encrypted with
    | (Some plaintext, t) =>
        let to_copy := (length plaintext `min` cap)%nat in
        (ReadReady (take to_copy plaintext),
         if (to_copy <? length plaintext)%nat then mkNoiseReader plaintext to_copy ReadIdle else NoiseReader_new, t)
    | (None, t) => (ReadError DecryptError, NoiseReader_new, t)
    end
  else (ReadPending, mkNoiseReader [] 0 (ReadingBody len encrypted), t).

(** The loop, on the bytes [i] of the stream that are left: one answer of the
    socket a round. *)
Fixpoint read_loop (lock_free : bool) (cap : nat) (answers : list SocketPoll) (st : NoiseReadState) (i : list Z) (t : T)
    : ReadPoll * NoiseReader * list Z * list SocketPoll * T :=
  let idle r := mkNoiseReader [] 0 r in
  let st := match st with ReadIdle => ReadingLen [] | _ => st end in
  match answers with
  | [] => (ReadPending, idle st, i, [], t)
  | SocketPending :: answers => (ReadPending, idle st, i, answers, t)
  | SocketError :: answers => (ReadError TcpError, idle ReadIdle, i, answers, t)
  | Some_bytes k :: answers =>
      match st with
      | ReadIdle => (ReadPending, idle st, i, answers, t)
      | ReadingLen buf =>
          let n := Nat.min (S k) (Nat.min (2 - length buf) (length i)) in
          if (n =? 0)%nat then
            if (length buf =? 0)%nat then (ReadReady [], idle ReadIdle, i, answers, t)
            else (ReadError EofInLength, idle ReadIdle, i, answers, t)
          else
            let buf := buf ++ take n i in
            let i := drop n i in
            if (2 <=? length buf)%nat then
              match read_len_done buf with
              | inl answer => (answer, idle ReadIdle, i, answers, t)
              | inr st => read_loop lock_free cap answers st i t
              end
            else read_loop lock_free cap answers (ReadingLen buf) i t
      | ReadingBody len buf =>
          let n := Nat.min (S k) (Nat.min (len - length buf) (length i)) in
          if (n =? 0)%nat then (ReadError EofInBody, idle ReadIdle, i, answers, t)
          else
            let buf := buf ++ take n i in
            let i := drop n i in
            if (len <=? length buf)%nat then
              let '(answer, r, t) := deliver lock_free cap len buf t in (answer, r, i, answers, t)
            else read_loop lock_free cap answers (ReadingBody len buf) i t
      end
  end.

Definition noise_poll_read (lock_free : bool) (cap : nat) (answers : list SocketPoll) (r : NoiseReader) (i : list Z) (t : T)
    : ReadPoll * NoiseReader * list Z * list SocketPoll * T :=
  if (nr_read_pos r <? length (nr_read_buf r))%nat then
    let remaining := drop (nr_read_pos r) (nr_read_buf r) in
    let to_copy := (length remaining `min` cap)%nat in
    let pos := (nr_read_pos r + to_copy)%nat in
    (ReadReady (take to_copy remaining),
     if (length (nr_read_buf r) <=? pos)%nat then mkNoiseReader [] 0 (nr_read_state r)
     else mkNoiseReader (nr_read_buf r) pos (nr_read_state r), i, answers, t)
  else read_loop lock_free cap answers (nr_read_state r) i t.

(** ** Writing: one answer of the socket a poll; the bytes it took. *)

Definition push (answer : SocketPoll) (frame : list Z) (pos plaintext_len : nat) : WritePoll * NoiseWriteState * list Z :=
  let rest := drop pos frame in
  match answer with
  | Some_bytes k =>
      let n := ((S k) `min` length rest)%nat in
      if (length frame <=? pos + n)%nat then (WriteReady plaintext_len, WriteIdle, take n rest)
      else (WritePending, Flushing frame (pos + n) plaintext_len, take n rest)
  | SocketError => (WriteError TcpError, WriteIdle, [])
  | SocketPending => (WritePending, Flushing frame pos plaintext_len, [])
  end.

Definition noise_poll_write (lock_free : bool) (answer : SocketPoll) (st : NoiseWriteState) (buf : list Z) (t : T)
    : WritePoll * NoiseWriteState * list Z * T :=
  match st with
  | Flushing frame pos plaintext_len => (push answer frame pos plaintext_len, t)
  | WriteIdle =>
      let chunk_size := (length buf `min` (MAX_NOISE_MSG_LEN - 16))%nat in
      if lock_free then
        match write_message t (take chunk_size buf) with
        | (Some encrypted, t) => (push answer (be_len (length encrypted) ++ encrypted) 0 chunk_size, t)
        | (None, t) => (WriteError EncryptError, WriteIdle, [], t)
        end
      else (WritePending, WriteIdle, [], t)
  end.
End noise.

(** ** Both halves at work *)

Section runs.
  Context {T : Type} (write_message read_message : T -> list Z -> option (list Z) * T).

(** A caller that writes [todo], and after a pending poll comes back with the
    same bytes: what reached the wire, what is left. *)
Fixpoint write_run (steps : list (bool * SocketPoll)) (st : NoiseWriteState) (todo : list Z) (t : T)
    : list Z * list Z * NoiseWriteState * option NoiseIoError * T :=
  match steps, todo with
  | [], _ | _, [] => ([], todo, st, None, t)
  | (lock_free, answer) :: steps, _ =>
      let '(poll, st, sent, t) := noise_poll_write write_message lock_free answer st todo t in
      match poll with
      | WriteError e => (sent, todo, st, Some e, t)
      | WriteReady n =>
          let '(wire, todo, st, e, t) := write_run steps st (drop n todo) t in (sent ++ wire, todo, st, e, t)
      | WritePending =>
          let '(wire, todo, st, e, t) := write_run steps st todo t in (sent ++ wire, todo, st, e, t)
      end
  end.

(** How a run of reads stands: it met the end of the stream, an error, or has
    more to come. *)
Inductive ReadEnd := EndOfStream | Broken (e : NoiseIoError) | Unfinished.

Fixpoint read_run (polls : list (bool * nat * list SocketPoll)) (r : NoiseReader) (i : list Z) (t : T) : list Z * ReadEnd :=
  match polls with
  | [] => ([], Unfinished)
  | (lock_free, cap, answers) :: polls =>
      let '(poll, r, i, _, t) := noise_poll_read read_message lock_free cap answers r i t in
      match poll with
      | ReadReady [] => ([], EndOfStream)
      | ReadReady bs => let '(out, e) := read_run polls r i t in (bs ++ out, e)
      | ReadError e => ([], Broken e)
      | ReadPending => read_run polls r i t
      end
  end.

(** ** What [snow] promises

    [in_step a b]: what [a] seals next is what [b] opens next.  Sealing adds a
    tag of sixteen bytes, and opening gives the plaintext back. *)
Class NoiseLaws (in_step : T -> T -> Prop) := {
  seal_open a b p : in_step a b -> (length p <= MAX_NOISE_MSG_LEN - 16)%nat ->
    exists c a' b', write_message a p = (Some c, a') /\ read_message b c = (Some p, b') /\ in_step a' b' /\
      length c = (length p + 16)%nat;
}.

(** The frames of [chunks]. *)
Fixpoint frames (a : T) (chunks : list (list Z)) : list Z :=
  match chunks with
  | [] => []
  | p :: ps => match write_message a p with
               | (Some c, a') => be_len (length c) ++ c ++ frames a' ps
               | (None, _) => []
               end
  end.
Fixpoint sealer (a : T) (chunks : list (list Z)) : T :=
  match chunks with [] => a | p :: ps => sealer (write_message a p).2 ps end.
Definition chunk_ok (p : list Z) : Prop := (0 < length p <= MAX_NOISE_MSG_LEN - 16)%nat.

Definition unsent (st : NoiseWriteState) : list Z := match st with WriteIdle => [] | Flushing frame pos _ => drop pos frame end.
Definition inflight (st : NoiseWriteState) : nat := match st with WriteIdle => 0 | Flushing _ _ n => n end.

Context (in_step : T -> T -> Prop) `{!NoiseLaws in_step}.

Lemma be_len_val n : Z.of_nat n < 65536 -> from_be_len (be_len n) = n.
Proof.
  intros Hn. unfold from_be_len, be_len. rewrite Z.shiftr_div_pow2 by lia. unfold wrap at 1.
  rewrite Z.mod_small by (split; [apply Z.div_pos; lia|apply Z.div_lt_upper_bound; lia]).
  rewrite Z.shiftl_mul_pow2 by lia. rewrite (lor_disjoint _ _ 8 (Z.of_nat n / 2 ^ 8)) by (done || apply (wrap_range 8); lia).
  unfold wrap. pose proof (Z.div_mod (Z.of_nat n) (2 ^ 8) ltac:(lia)). lia.
Qed.
Lemma max_len_val : MAX_NOISE_MSG_LEN = Z.to_nat 65535. Proof. done. Qed.

Lemma frames_cons a b p ps : in_step a b -> chunk_ok p ->
  exists c a' b', write_message a p = (Some c, a') /\ read_message b c = (Some p, b') /\ in_step a' b' /\
    length c = (length p + 16)%nat /\ frames a (p :: ps) = be_len (length c) ++ c ++ frames a' ps.
Proof.
  intros Hi [H1 H2]. destruct (seal_open a b p Hi H2) as (c & a' & b' & Hw & Hr & Hi' & Hl).
  exists c, a', b'. split_and!; try done. cbn [frames]. by rewrite Hw.
Qed.
Lemma frames_snoc a b ps p : in_step a b -> Forall chunk_ok ps -> 
  frames a (ps ++ [p]) = frames a ps ++ frames (sealer a ps) [p].
Proof.
  intros Hi Hps. revert a b Hi. induction Hps as [|q ps Hq _ IH]; intros a b Hi; [done|]. cbn [app sealer].
  destruct (frames_cons a b q (ps ++ [p]) Hi Hq) as (c & a' & b' & Hw & _ & Hi' & _ & E). rewrite E.
  destruct (frames_cons a b q ps Hi Hq) as (c2 & a2 & b2 & Hw2 & _ & _ & _ & E2). rewrite E2, Hw. rewrite Hw in Hw2. simplify_eq.
  cbn [snd]. rewrite (IH a2 b' Hi'). by rewrite <- !app_assoc.
Qed.
Lemma sealer_in_step a b ps : in_step a b -> Forall chunk_ok ps -> exists b', in_step (sealer a ps) b'.
Proof.
  intros Hi Hps. revert a b Hi. induction Hps as [|q ps Hq _ IH]; intros a b Hi; [by exists b|]. cbn [sealer].
  destruct (frames_cons a b q ps Hi Hq) as (c & a' & b' & Hw & _ & Hi' & _). rewrite Hw. by apply (IH a' b').
Qed.
Lemma sealer_snoc a ps p : sealer a (ps ++ [p]) = (write_message (sealer a ps) p).2.
Proof. revert a. induction ps as [|q ps IH]; intros a; [done|]. cbn [app sealer]. apply IH. Qed.

(** ** The writer *)

(** What has been sealed so far is what is on the wire or waits for it. *)
Definition writer_ok (a : T) (data wire : list Z) (st : NoiseWriteState) (todo : list Z) (t : T) : Prop :=
  exists ps, Forall chunk_ok ps /\ t = sealer a ps /\ wire ++ unsent st = frames a ps /\
    data = concat ps ++ drop (inflight st) todo /\ (inflight st <= length todo)%nat /\
    match st with WriteIdle => True | Flushing frame pos n => (pos < length frame)%nat /\ (0 < n)%nat end.

Lemma push_ok answer frame pos n poll st sent : (pos < length frame)%nat -> answer <> SocketError ->
  push answer frame pos n = (poll, st, sent) ->
  sent ++ unsent st = drop pos frame /\
  ((poll = WriteReady n /\ st = WriteIdle) \/ exists pos', poll = WritePending /\ st = Flushing frame pos' n /\ (pos' < length frame)%nat).
Proof.
  intros Hp Ha. unfold push. destruct answer as [k| |]; [|done|]; [|intros [= <- <- <-]; split; [done|right; by exists pos]].
  set (m := Nat.min (S k) (length (drop pos frame))). pose proof (length_drop frame pos).
  destruct (Nat.leb_spec (length frame) (pos + m)); intros [= <- <- <-]; cbn [unsent].
  - split; [|by left]. rewrite app_nil_r. apply take_ge. lia.
  - split; [|right; by exists (pos + m)%nat]. by rewrite <- drop_drop, take_drop.
Qed.

Lemma writer_step a b data wire st todo t lock_free answer poll st' sent t' :
  in_step a b -> writer_ok a data wire st todo t -> todo <> [] -> answer <> SocketError ->
  noise_poll_write write_message lock_free answer st todo t = (poll, st', sent, t') ->
  match poll with
  | WriteReady n => writer_ok a data (wire ++ sent) st' (drop n todo) t'
  | WritePending => writer_ok a data (wire ++ sent) st' todo t'
  | WriteError _ => False
  end.
Proof.
  intros Hi (ps & Hps & -> & Hw & Hd & Hf & Hst) Hne Ha. unfold noise_poll_write. destruct st as [|frame pos n].
  - set (size := Nat.min (length todo) (MAX_NOISE_MSG_LEN - 16)). cbn [unsent inflight] in *. rewrite app_nil_r in Hw. rewrite drop_0 in Hd.
    destruct lock_free; [|intros [= <- <- <- <-]; exists ps; cbn [unsent inflight]; rewrite drop_0, !app_nil_r; by split_and!].
    destruct (sealer_in_step a b ps Hi Hps) as (b' & Hi').
    assert (Hl : length (take size todo) = size) by (apply length_take_le; subst size; lia).
    assert (Hok : chunk_ok (take size todo)).
    { split; rewrite Hl; subst size; [|lia]. destruct todo; [done|]. cbn [length]. rewrite max_len_val. lia. }
    destruct (frames_cons _ b' _ [] Hi' Hok) as (c & a' & b'' & Hwm & _ & _ & Hc & Hfr). rewrite Hwm. change (frames a' []) with (@nil Z) in Hfr. rewrite app_nil_r in Hfr.
    destruct (push _ _ _ _) as [[poll0 st0] sent0] eqn:E. apply push_ok in E as [Hs Hcase]; [|cbn; lia|done]. rewrite drop_0, <- Hfr in Hs.
    assert (Hfs : (wire ++ sent0) ++ unsent st0 = frames a (ps ++ [take size todo])).
    { rewrite (frames_snoc a b) by done. by rewrite <- app_assoc, Hs, Hw. }
    assert (Hps' : Forall chunk_ok (ps ++ [take size todo])) by (apply Forall_app_2; auto).
    assert (Hd' : data = concat (ps ++ [take size todo]) ++ drop size todo).
    { rewrite concat_app. cbn [concat]. by rewrite app_nil_r, <- app_assoc, take_drop. }
    intros [= <- <- <- <-]. destruct Hcase as [[-> ->]|(pos' & -> & -> & Hp')]; exists (ps ++ [take size todo]);
      rewrite sealer_snoc, Hwm; cbn [snd unsent inflight] in *.
    + rewrite drop_0. split_and!; try done. lia.
    + split_and!; try done. { subst size. lia. } destruct Hok as [Hok _]. lia.
  - destruct Hst as [Hp Hn]. cbn [unsent inflight] in *. destruct (push _ _ _ _) as [[poll0 st0] sent0] eqn:E.
    apply push_ok in E as [Hs Hcase]; [|done|done]. intros [= <- <- <- <-].
    destruct Hcase as [[-> ->]|(pos' & -> & -> & Hp')]; exists ps; cbn [unsent inflight] in *; rewrite <- app_assoc, Hs.
    + rewrite drop_0. split_and!; try done. lia.
    + by split_and!.
Qed.

Lemma write_run_ok a b data steps wire st todo t sent todo' st' e t' :
  in_step a b -> writer_ok a data wire st todo t -> Forall (fun s => s.2 <> SocketError) steps ->
  write_run steps st todo t = (sent, todo', st', e, t') ->
  e = None /\ writer_ok a data (wire ++ sent) st' todo' t'.
Proof.
  intros Hi. revert wire st todo t sent. induction steps as [|[lock_free answer] steps IH]; intros wire st todo t sent Hok Hs; cbn [write_run].
  { destruct todo; intros [= <- <- <- <- <-]; rewrite app_nil_r; done. }
  apply Forall_cons_1 in Hs as [Ha Hs]. destruct todo as [|z todo]; [intros [= <- <- <- <- <-]; rewrite app_nil_r; done|].
  destruct (noise_poll_write _ _ _ _ _ _) as [[[poll st1] sent1] t1] eqn:E.
  pose proof (writer_step a b data wire st (z :: todo) t lock_free answer poll st1 sent1 t1 Hi Hok ltac:(done) Ha E) as Hstep.
  destruct poll as [n|e0|]; [| done |]; destruct (write_run steps st1 _ t1) as [[[[wire2 todo2] st2] e2] t2] eqn:E2; intros [= <- <- <- <- <-];
    rewrite app_assoc; by eapply IH.
Qed.

(** ** The reader *)

(** The bytes of a frame that have been read. *)
Definition begun (st : NoiseReadState) : list Z :=
  match st with ReadIdle => [] | ReadingLen buf => buf | ReadingBody len buf => be_len len ++ buf end.
Definition state_ok (st : NoiseReadState) : Prop :=
  match st with
  | ReadIdle => True
  | ReadingLen buf => (length buf < 2)%nat
  | ReadingBody len buf => (length buf < len)%nat /\ Z.of_nat len < 65536
  end.
(** [rest] is what the reads to come have to give. *)
Definition stream_ok (st : NoiseReadState) (i : list Z) (t : T) (rest : list Z) : Prop :=
  exists a ps, in_step a t /\ Forall chunk_ok ps /\ rest = concat ps /\ begun st ++ i = frames a ps /\ state_ok st.
Definition reader_ok (r : NoiseReader) (i : list Z) (t : T) (rest : list Z) : Prop :=
  exists rest', rest = drop (nr_read_pos r) (nr_read_buf r) ++ rest' /\ stream_ok (nr_read_state r) i t rest' /\
    (nr_read_pos r <= length (nr_read_buf r))%nat /\
    ((nr_read_pos r < length (nr_read_buf r))%nat -> nr_read_state r = ReadIdle).

(** A poll of a reader that is owed [rest]. *)
Definition poll_ok (rest : list Z) (p : ReadPoll * NoiseReader * list Z * list SocketPoll * T) : Prop :=
  let '(poll, r, i, _, t) := p in
  match poll with
  | ReadError _ => False
  | ReadPending => reader_ok r i t rest
  | ReadReady [] => rest = [] /\ reader_ok r i t rest
  | ReadReady bs => exists rest', rest = bs ++ rest' /\ reader_ok r i t rest'
  end.

Lemma idle_ok st i t rest : stream_ok st i t rest -> reader_ok (mkNoiseReader [] 0 st) i t rest.
Proof. intros H. exists rest. cbn [nr_read_pos nr_read_buf nr_read_state length]. split_and!; try done; lia. Qed.
Lemma stream_idle i t rest : stream_ok ReadIdle i t rest <-> stream_ok (ReadingLen []) i t rest.
Proof. unfold stream_ok. cbn [begun state_ok length]. split; intros (a & ps & H1 & H2 & H3 & H4 & _); exists a, ps; split_and!; try done; lia. Qed.
Lemma frames_start a b ps (hd i : list Z) : in_step a b -> Forall chunk_ok ps -> (0 < length hd)%nat -> hd ++ i = frames a ps ->
  exists p ps' c a' b', ps = p :: ps' /\ chunk_ok p /\ Forall chunk_ok ps' /\ read_message b c = (Some p, b') /\ in_step a' b' /\
    length c = (length p + 16)%nat /\ hd ++ i = be_len (length c) ++ c ++ frames a' ps'.
Proof.
  intros Hi Hps Hl E. destruct Hps as [|p ps Hp Hps]; [destruct hd; cbn in *; [lia|done]|].
  destruct (frames_cons a b p ps Hi Hp) as (c & a' & b' & _ & Hr & Hi' & Hc & Hf). exists p, ps, c, a', b'. rewrite E. by split_and!.
Qed.
Lemma frame_bound (c p : list Z) : chunk_ok p -> length c = (length p + 16)%nat -> Z.of_nat (length c) < 65536.
Proof. intros [H1 H2] Hc. rewrite max_len_val in H2. lia. Qed.

Lemma deliver_ok cap (len : nat) (encrypted : list Z) t i rest a ps : (0 < cap)%nat -> in_step a t -> Forall chunk_ok ps -> rest = concat ps ->
  (be_len len ++ encrypted) ++ i = frames a ps -> length encrypted = len -> Z.of_nat len < 65536 ->
  poll_ok rest (let '(answer, r, t) := deliver read_message true cap len encrypted t in (answer, r, i, [], t)).
Proof.
  intros Hcap Hi Hps -> E Hlen Hb. destruct (frames_start a t ps (be_len len ++ encrypted) i Hi Hps ltac:(cbn; lia) E) as (p & ps' & c & a' & b' & -> & Hp & Hps' & Hr & Hi' & Hc & E2).
  rewrite <- app_assoc in E2. unfold be_len in E2. cbn [app] in E2.
  assert (Hlc : len = length c).
  { pose proof (frame_bound c p Hp Hc). rewrite <- (be_len_val len), <- (be_len_val (length c)) by done. unfold be_len.
    injection E2 as E3 E4 _. by rewrite E3, E4. }
  injection E2 as _ _ E2. apply app_inj_1 in E2 as [-> ->]; [|lia]. unfold deliver. rewrite Hr. set (n := Nat.min (length p) cap).
  destruct Hp as [Hp _]. assert (Hn : (0 < n)%nat) by (subst n; lia).
  cbn [poll_ok]. destruct (take n p) as [|z zs] eqn:Et.
  { apply (f_equal length) in Et. rewrite length_take in Et. cbn [length] in Et. lia. }
  rewrite <- Et. exists (drop n p ++ concat ps'). cbn [concat]. split; [by rewrite app_assoc, take_drop|].
  assert (Hs : stream_ok ReadIdle (frames a' ps') b' (concat ps')) by (exists a', ps'; by split_and!).
  destruct (Nat.ltb_spec n (length p)).
  - exists (concat ps'). cbn [nr_read_pos nr_read_buf nr_read_state]. split_and!; try done. lia.
  - rewrite drop_ge by lia. by apply idle_ok.
Qed.

Lemma poll_ok_answers rest poll r i answers answers' t : poll_ok rest (poll, r, i, answers, t) -> poll_ok rest (poll, r, i, answers', t).
Proof. done. Qed.

Lemma read_loop_ok cap answers st i t rest : (0 < cap)%nat -> Forall (fun s => s <> SocketError) answers ->
  stream_ok st i t rest -> poll_ok rest (read_loop read_message true cap answers st i t).
Proof.
  intros Hcap Ha. revert st i. induction Ha as [|answer answers Hans Ha IH]; intros st i Hs; cbn [read_loop].
  { apply idle_ok. destruct st; [by apply stream_idle|done..]. }
  assert (Hs' : stream_ok (match st with ReadIdle => ReadingLen [] | _ => st end) i t rest) by (destruct st; [by apply stream_idle|done..]).
  clear Hs. destruct answer as [k| |]; [|done|by apply idle_ok].
  destruct (match st with ReadIdle => ReadingLen [] | _ => st end) as [|buf|len buf]; [by apply idle_ok| |].
  - set (n := Nat.min (S k) (Nat.min (2 - length buf) (length i))). destruct Hs' as (a & ps & Hi & Hps & -> & E & Hb). cbn [begun state_ok] in *.
    destruct (Nat.eqb_spec n 0) as [Hn|Hn].
    + assert (Hil : i = []) by (destruct i; [done|cbn [length] in *; lia]). subst i. rewrite app_nil_r in E.
      assert (Hbuf : buf = []).
      { destruct (decide (buf = [])) as [|Hne]; [done|exfalso]. assert (Hpos : (0 < length buf)%nat) by (destruct buf; [done|cbn; lia]).
        rewrite <- (app_nil_r buf) in E. destruct (frames_start a t ps buf [] Hi Hps Hpos E) as (p & ps' & c & a' & b' & _ & _ & _ & _ & _ & _ & E2).
        apply (f_equal length) in E2. rewrite !length_app in E2. cbn [length be_len] in E2. lia. }
      rewrite Hbuf in E |- *. cbn [length Nat.eqb]. assert (ps = []) as ->.
      { destruct Hps as [|p ps Hp Hps]; [done|]. destruct (frames_cons a t p ps Hi Hp) as (c & a' & b' & _ & _ & _ & _ & Hf). by rewrite Hf in E. }
      split; [done|]. apply idle_ok. exists a, []. by split_and!.
    + assert (E' : (buf ++ take n i) ++ drop n i = frames a ps) by (by rewrite <- app_assoc, take_drop).
      assert (Hl : length (buf ++ take n i) = (length buf + n)%nat) by (rewrite length_app, length_take; lia).
      destruct (Nat.leb_spec 2 (length (buf ++ take n i))) as [H2|H2].
      * destruct (frames_start a t ps (buf ++ take n i) (drop n i) Hi Hps ltac:(lia) E') as (p & ps' & c & a' & b' & -> & Hp & Hps' & Hr & Hi' & Hc & E2).
        apply app_inj_1 in E2 as [Eh Et]; [|rewrite Hl; unfold be_len; cbn [length]; lia]. pose proof (frame_bound c p Hp Hc) as Hcb.
        unfold read_len_done. rewrite Eh, be_len_val by done. destruct (Nat.eqb_spec (length c) 0) as [|_]; [lia|].
        apply IH. exists a, (p :: ps'). cbn [begun state_ok length]. split_and!; try done; [by rewrite app_nil_r, <- Eh|lia].
      * apply IH. exists a, ps. cbn [begun state_ok]. by split_and!.
  - set (n := Nat.min (S k) (Nat.min (len - length buf) (length i))). destruct Hs' as (a & ps & Hi & Hps & -> & E & Hb & Hlen). cbn [begun] in *.
    destruct (frames_start a t ps (be_len len ++ buf) i Hi Hps ltac:(cbn; lia) E) as (p & ps' & c & a' & b' & Eps & Hp & Hps' & Hr & Hi' & Hc & E2).
    destruct (Nat.eqb_spec n 0) as [Hn|Hn].
    { exfalso. assert (Hil : i = []) by (destruct i; [done|cbn [length] in *; lia]). subst i. rewrite app_nil_r in E2.
      pose proof (frame_bound c p Hp Hc) as Hcb. unfold be_len in E2. cbn [app] in E2. injection E2 as E3 E4 E2.
      assert (Hlc : len = length c) by (rewrite <- (be_len_val len), <- (be_len_val (length c)) by done; unfold be_len; by rewrite E3, E4).
      apply (f_equal length) in E2. rewrite length_app in E2. lia. }
    assert (E' : (be_len len ++ buf ++ take n i) ++ drop n i = frames a ps) by (by rewrite <- !app_assoc, take_drop, <- E, <- app_assoc).
    assert (Hl : length (buf ++ take n i) = (length buf + n)%nat) by (rewrite length_app, length_take; lia).
    destruct (Nat.leb_spec len (length (buf ++ take n i))) as [H2|H2].
    + pose proof (deliver_ok cap len (buf ++ take n i) t (drop n i) (concat ps) a ps Hcap Hi Hps eq_refl E' ltac:(lia) Hlen) as Hd.
      destruct (deliver _ _ _ _ _ _) as [[poll r] t']. exact Hd.
    + apply IH. exists a, ps. cbn [begun state_ok]. split_and!; done.
Qed.

Lemma noise_poll_read_ok cap answers r i t rest : (0 < cap)%nat -> Forall (fun s => s <> SocketError) answers ->
  reader_ok r i t rest -> poll_ok rest (noise_poll_read read_message true cap answers r i t).
Proof.
  intros Hcap Ha (rest' & -> & Hs & Hp & Hst). unfold noise_poll_read. destruct (Nat.ltb_spec (nr_read_pos r) (length (nr_read_buf r))) as [Hlt|Hge].
  - set (rem := drop (nr_read_pos r) (nr_read_buf r)). assert (Hrl : length rem = (length (nr_read_buf r) - nr_read_pos r)%nat) by (subst rem; by rewrite length_drop).
    set (n := Nat.min (length rem) cap). assert (Hn : (0 < n)%nat) by (subst n; lia).
    cbn [poll_ok]. destruct (take n rem) as [|z zs] eqn:Et; [apply (f_equal length) in Et; rewrite length_take in Et; cbn [length] in Et; lia|].
    rewrite <- Et. exists (drop n rem ++ rest'). split; [by rewrite app_assoc, take_drop|]. subst rem.
    destruct (Nat.leb_spec (length (nr_read_buf r)) (nr_read_pos r + n)).
    + rewrite drop_drop, drop_ge by lia. cbn [app]. by apply idle_ok.
    + rewrite drop_drop. exists rest'. cbn [nr_read_pos nr_read_buf nr_read_state]. split_and!; try done; [lia|]. intros _. by apply Hst.
  - rewrite drop_ge by lia. cbn [app]. apply read_loop_ok; [done|done|]. exact Hs.
Qed.

(** ** Both make progress *)

Definition good (s : bool * SocketPoll) : bool := match s with (true, Some_bytes _) => true | _ => false end.
Definition work_left (st : NoiseWriteState) (todo : list Z) : nat := (length (unsent st) + 19 * (length todo - inflight st))%nat.

Lemma push_progress answer frame pos n poll st sent : (pos < length frame)%nat -> answer <> SocketError ->
  push answer frame pos n = (poll, st, sent) ->
  (length (unsent st) + (if good (true, answer) then 1 else 0) <= length frame - pos)%nat.
Proof.
  intros Hp Ha. unfold push, good. destruct answer as [k| |]; [|done|]; [|intros [= <- <- <-]; cbn [unsent]; rewrite length_drop; lia].
  set (m := Nat.min (S k) (length (drop pos frame))). pose proof (length_drop frame pos) as Hd.
  destruct (Nat.leb_spec (length frame) (pos + m)); intros [= <- <- <-]; cbn [unsent length]; rewrite ?length_drop; lia.
Qed.

Lemma writer_progress a b data wire st todo t lock_free answer poll st' sent t' :
  in_step a b -> writer_ok a data wire st todo t -> todo <> [] -> answer <> SocketError ->
  noise_poll_write write_message lock_free answer st todo t = (poll, st', sent, t') ->
  (work_left st' (match poll with WriteReady n => drop n todo | _ => todo end) + (if good (lock_free, answer) then 1 else 0) <= work_left st todo)%nat.
Proof.
  intros Hi (ps & Hps & -> & _ & _ & Hf & Hst) Hne Ha. unfold noise_poll_write, work_left. destruct st as [|frame pos n].
  - set (size := Nat.min (length todo) (MAX_NOISE_MSG_LEN - 16)). destruct lock_free; [|intros [= <- <- <- <-]; cbn [good unsent inflight length]; lia].
    destruct (sealer_in_step a b ps Hi Hps) as (b' & Hi').
    assert (Hl : length (take size todo) = size) by (apply length_take_le; subst size; lia).
    assert (Hok : chunk_ok (take size todo)).
    { split; rewrite Hl; subst size; [|lia]. destruct todo; [done|]. cbn [length]. rewrite max_len_val. lia. }
    destruct (frames_cons _ b' _ [] Hi' Hok) as (c & a' & b'' & Hwm & _ & _ & Hc & _). rewrite Hwm. rewrite Hl in Hc.
    destruct Hok as [Hok _]. rewrite Hl in Hok. assert (Hsz : (size <= length todo)%nat) by (subst size; lia). clearbody size.
    destruct (push _ _ _ _) as [[poll0 st0] sent0] eqn:E. pose proof E as Hpr. apply push_progress in Hpr; [|cbn; lia|done].
    apply push_ok in E as [_ Hcase]; [|cbn; lia|done]. intros [= <- <- <- <-]. cbn [length app be_len] in Hpr.
    set (g := if good (true, answer) then 1%nat else 0%nat) in *. clearbody g. cbn [unsent inflight length].
    destruct Hcase as [[-> ->]|(pos' & -> & -> & _)]; cbn [unsent inflight length] in *; rewrite ?length_drop in *; lia.
  - destruct Hst as [Hp Hn]. destruct (push _ _ _ _) as [[poll0 st0] sent0] eqn:E. pose proof (push_progress _ _ _ _ _ _ _ Hp Ha E) as Hpr.
    apply push_ok in E as [_ Hcase]; [|done|done]. intros [= <- <- <- <-]. cbn [unsent inflight] in *. rewrite length_drop.
    assert (Hg : good (lock_free, answer) = true -> good (true, answer) = true) by (by destruct lock_free, answer).
    destruct (good (lock_free, answer)); [rewrite Hg in Hpr by done|]; destruct Hcase as [[-> ->]|(pos' & -> & -> & _)]; cbn [unsent inflight length] in *;
      rewrite ?length_drop in *; destruct (good (true, answer)); lia.
Qed.

Lemma write_run_finishes a b data steps wire st todo t sent todo' st' e t' :
  in_step a b -> writer_ok a data wire st todo t -> Forall (fun s => s.2 <> SocketError) steps ->
  write_run steps st todo t = (sent, todo', st', e, t') ->
  (work_left st todo <= length (List.filter good steps))%nat -> todo' = [].
Proof.
  intros Hi. revert wire st todo t sent. induction steps as [|[lock_free answer] steps IH]; intros wire st todo t sent Hok Hs; cbn [write_run].
  { destruct todo; intros [= <- <- <- <- <-]; [done|]. destruct Hok as (ps & _ & _ & _ & _ & Hf & Hst). unfold work_left. cbn [List.filter length].
    destruct st as [|frame pos n]; cbn [unsent inflight length] in *; rewrite ?length_drop; lia. }
  apply Forall_cons_1 in Hs as [Ha Hs]. destruct todo as [|z todo]; [by intros [= <- <- <- <- <-]|].
  destruct (noise_poll_write _ _ _ _ _ _) as [[[poll st1] sent1] t1] eqn:E.
  pose proof (writer_step a b data wire st (z :: todo) t lock_free answer poll st1 sent1 t1 Hi Hok ltac:(done) Ha E) as Hstep.
  pose proof (writer_progress a b data wire st (z :: todo) t lock_free answer poll st1 sent1 t1 Hi Hok ltac:(done) Ha E) as Hpr.
  cbn [List.filter]. destruct poll as [n|e0|]; [| done |]; destruct (write_run steps st1 _ t1) as [[[[wire2 todo2] st2] e2] t2] eqn:E2;
    intros [= <- <- <- <- <-] Hw; (eapply IH; [exact Hstep|done|exact E2|]); destruct (good (lock_free, answer)); cbn [length] in *; lia.
Qed.

Definition answered (s : SocketPoll) : bool := match s with Some_bytes _ => true | _ => false end.
(** A poll that leaves no more than it found. *)
Definition shrinks_to (i : list Z) (p : ReadPoll * NoiseReader * list Z * list SocketPoll * T) : Prop := (length p.1.1.2 <= length i)%nat.

Lemma read_loop_answers cap answers st i t :
  shrinks_to i (read_loop read_message true cap answers st i t) /\
  (forallb answered answers = true -> (length i < length answers)%nat -> (read_loop read_message true cap answers st i t).1.1.1.1 <> ReadPending).
Proof.
  unfold shrinks_to. revert st i. induction answers as [|answer answers IH]; intros st i; cbn [read_loop].
  { cbn [fst snd length]. split; [done|lia]. }
  destruct answer as [k| |]; cbn [fst snd length forallb answered andb]; [|done..].
  assert (Hst : match st with ReadIdle => ReadingLen [] | _ => st end <> ReadIdle) by (by destruct st).
  destruct (match st with ReadIdle => ReadingLen [] | _ => st end) as [|buf|len buf]; [done|..].
  - set (n := Nat.min (S k) (Nat.min (2 - length buf) (length i))). destruct (Nat.eqb_spec n 0); [by destruct (length buf =? 0)%nat|].
    pose proof (length_drop i n) as Hd. assert (n <= length i)%nat by (subst n; lia).
    destruct (_ <=? _)%nat; [unfold read_len_done; destruct (_ =? _)%nat; [cbn [fst snd]; split; [lia|done]|]|];
      match goal with |- context[read_loop _ _ _ _ ?st _ _] => destruct (IH st (drop n i)) as [IH1 IH2] end; (split; [lia|intros; apply IH2; [done|lia]]).
  - set (n := Nat.min (S k) (Nat.min (len - length buf) (length i))). destruct (Nat.eqb_spec n 0); [done|].
    pose proof (length_drop i n) as Hd. assert (n <= length i)%nat by (subst n; lia). destruct (_ <=? _)%nat.
    + unfold deliver. destruct (read_message _ _) as [[p|] t']; cbn [fst snd]; split; (lia || done).
    + destruct (IH (ReadingBody len (buf ++ take n i)) (drop n i)) as [IH1 IH2]. split; [lia|intros; apply IH2; [done|lia]].
Qed.
Lemma poll_read_answers cap answers r i t :
  shrinks_to i (noise_poll_read read_message true cap answers r i t) /\
  (forallb answered answers = true -> (length i < length answers)%nat -> (noise_poll_read read_message true cap answers r i t).1.1.1.1 <> ReadPending).
Proof.
  unfold noise_poll_read. destruct (_ <? _)%nat; [|apply read_loop_answers]. unfold shrinks_to. cbn [fst snd]. done.
Qed.

(** Polls that find the lock free and room in the caller's buffer, on a socket
    without errors. *)
Definition sound_poll (p : bool * nat * list SocketPoll) : Prop := p.1.1 = true /\ (0 < p.1.2)%nat /\ Forall (fun s => s <> SocketError) p.2.
(** The socket answers often enough to read everything. *)
Definition ample_poll (wire : list Z) (p : bool * nat * list SocketPoll) : Prop := forallb answered p.2 = true /\ (length wire < length p.2)%nat.

Lemma read_run_ok polls r i t rest : Forall sound_poll polls -> reader_ok r i t rest ->
  exists left, rest = (read_run polls r i t).1 ++ left /\
    match (read_run polls r i t).2 with EndOfStream => left = [] | Broken _ => False | Unfinished => True end.
Proof.
  intros Hp. revert r i t rest. induction Hp as [|[[lock_free cap] answers] polls (Hl & Hc & Ha) _ IH]; intros r i t rest Hr; cbn [read_run].
  { by exists rest. }
  cbn [fst snd] in *. subst lock_free. pose proof (noise_poll_read_ok cap answers r i t rest Hc Ha Hr) as Hok.
  destruct (noise_poll_read _ _ _ _ _ _ _) as [[[[poll r1] i1] answers1] t1]. cbn [poll_ok] in Hok. destruct poll as [[|z bs]|e|].
  - destruct Hok as [-> _]. by exists [].
  - destruct Hok as (rest' & -> & Hr'). destruct (IH r1 i1 t1 rest' Hr') as (left & -> & Hend).
    exists left. destruct (read_run polls r1 i1 t1) as [out e]. cbn [fst snd] in *. split; [by rewrite app_assoc|done].
  - done.
  - by apply IH.
Qed.

Lemma read_run_ends wire polls r i t rest : Forall sound_poll polls -> Forall (ample_poll wire) polls -> reader_ok r i t rest ->
  (length i <= length wire)%nat -> (length rest < length polls)%nat -> (read_run polls r i t).2 = EndOfStream.
Proof.
  intros Hp. revert r i t rest. induction Hp as [|[[lock_free cap] answers] polls (Hl & Hc & Ha) _ IH]; intros r i t rest Hw Hr Hi Hn; cbn [read_run length] in *; [lia|].
  apply Forall_cons_1 in Hw as [[Hall Hlen] Hw]. cbn [fst snd] in *. subst lock_free. pose proof (noise_poll_read_ok cap answers r i t rest Hc Ha Hr) as Hok.
  destruct (poll_read_answers cap answers r i t) as [Hsh Hnp]. specialize (Hnp Hall ltac:(lia)). unfold shrinks_to in Hsh.
  destruct (noise_poll_read _ _ _ _ _ _ _) as [[[[poll r1] i1] answers1] t1]. cbn [poll_ok fst snd] in *. destruct poll as [[|z bs]|e|]; [done| |done|done].
  destruct Hok as (rest' & -> & Hr'). rewrite length_app in Hn. cbn [length] in Hn. specialize (IH r1 i1 t1 rest' Hw Hr' ltac:(lia) ltac:(lia)).
  by destruct (read_run polls r1 i1 t1).
Qed.

End runs.

(** ** A cipher for examples: a mask, and the message number sixteen times *)

Definition toy_seal (t : Z) (p : list Z) : option (list Z) * Z := (Some (map (Z.lxor 0x5A) p ++ replicate 16 t), t + 1).
Definition toy_open (t : Z) (c : list Z) : option (list Z) * Z :=
  let n := (length c - 16)%nat in
  if bool_decide (drop n c = replicate 16 t) then (Some (map (Z.lxor 0x5A) (take n c)), t + 1) else (None, t).

#[export] Instance toy_laws : NoiseLaws toy_seal toy_open eq.
Proof.
  constructor. intros a b p <- _. unfold toy_seal, toy_open. exists (map (Z.lxor 0x5A) p ++ replicate 16 a), (a + 1), (a + 1).
  assert (El : length (map (Z.lxor 0x5A) p ++ replicate 16 a) = (length p + 16)%nat) by (by rewrite length_app, length_map, length_replicate).
  replace (length (map (Z.lxor 0x5A) p ++ replicate 16 a) - 16)%nat with (length (map (Z.lxor 0x5A) p)) by (rewrite El, length_map; lia).
  rewrite drop_app_length, take_app_length, bool_decide_true by done. split_and!; try done.
  f_equal. f_equal. rewrite map_map. rewrite <- (map_id p) at 2. apply map_ext. intros x. by rewrite <- Z.lxor_assoc, Z.lxor_nilpotent, Z.lxor_0_l.
Qed.

Definition toy_steps : list (bool * SocketPoll) :=
  [(false, Some_bytes 0); (true, SocketPending); (true, Some_bytes 4); (false, Some_bytes 9); (true, Some_bytes 60)].
Definition toy_polls : list (bool * nat * list SocketPoll) :=
  [(true, 2%nat, [Some_bytes 0; SocketPending]); (true, 2%nat, [Some_bytes 0; Some_bytes 8; Some_bytes 40]); (true, 8%nat, []); (true, 8%nat, [Some_bytes 0])].


(** ** What goes wrong

    Two halves used at once: the lock is taken when the last byte of a frame
    arrives.  The reader says it will wait; its next poll reads into an empty
    buffer, takes the zero bytes for the end of the stream, and drops the frame. *)
Lemma contended_frame_is_lost {T : Type} (read_message : T -> list Z -> option (list Z) * T) cap k k' answers answers' lock len body i t :
  (0 < len)%nat -> length body = len -> (len <= S k)%nat ->
  let '(poll, r, i, _, t) := noise_poll_read read_message false cap (Some_bytes k :: answers) (mkNoiseReader [] 0 (ReadingBody len [])) (body ++ i) t in
  poll = ReadPending /\ (noise_poll_read read_message lock cap (Some_bytes k' :: answers') r i t).1.1.1.1 = ReadError EofInBody.
Proof.
  intros Hl Hb Hk. unfold noise_poll_read at 1. cbn [nr_read_pos nr_read_buf nr_read_state length Nat.ltb Nat.leb read_loop].
  replace (Nat.min (S k) (Nat.min (len - 0) (length (body ++ i)))) with len by (rewrite length_app; lia).
  destruct (Nat.eqb_spec len 0); [lia|]. cbn [app]. rewrite take_app_le, take_ge by lia. rewrite Hb, Nat.leb_refl. cbn [deliver].
  split; [done|]. unfold noise_poll_read. cbn [nr_read_pos nr_read_buf nr_read_state length Nat.ltb Nat.leb read_loop].
  by rewrite Hb, Nat.sub_diag, !Nat.min_0_r.
Qed.

(** Writing nothing ends the stream of the other side. *)
Lemma empty_write_ends_the_stream :
  exists wire, noise_poll_write toy_seal true (Some_bytes 99) WriteIdle [] 7 = (WriteReady 0, WriteIdle, wire, 8) /\
    (noise_poll_read toy_open true 10 [Some_bytes 9; Some_bytes 99] NoiseReader_new wire 7).1.1.1.1 = ReadReady [].
Proof. eexists. split; [vm_compute; reflexivity|]. vm_compute. reflexivity. Qed.

(** A caller that gives up on a pending write and comes back with fewer bytes is
    told that more were written than it gave. *)
Lemma abandoned_write_is_counted :
  exists sent st, noise_poll_write toy_seal true (Some_bytes 2) WriteIdle [1; 2; 3] 7 = (WritePending, st, sent, 8) /\
    (noise_poll_write toy_seal true (Some_bytes 99) st [9] 8).1.1.1 = WriteReady 3.
Proof. do 2 eexists. split; [vm_compute; reflexivity|]. vm_compute. reflexivity. Qed.
