(* ===== verification/Ssh.v ===== *)
(** [ferrosync-transport/src/ssh.rs] and [ssh_config.rs]: the command an SSH
    session runs on the other machine, the check of its host key, and the order
    of the ways to authenticate.

    The [russh] session, the agent, the prompts, the key files and the parsed
    [~/.ssh/config] are parameters: a [World] answers each request from the
    history of what was asked before. *)
From S2P Require Import Prelude Wire Types Text Utf8 Filter Scanner Fs Listing Numerals TextOps.

(** ** Configuration *)

Inductive KnownHostsPolicy := Strict | AcceptNew | AcceptAll.
#[export] Instance KnownHostsPolicy_eq_dec : EqDecision KnownHostsPolicy.
Proof. solve_decision. Defined.

Record SshTransportConfig := mkSshConfig {
  ssh_host : list Z;
  ssh_port : Z;
  ssh_user : list Z;
  identity_files : list (list Z);
  known_hosts_policy : KnownHostsPolicy;
  rsync_path : list Z;
  use_agent : bool;
  has_prompter : bool;
}.
Definition SshTransportConfig_default : SshTransportConfig :=
  mkSshConfig [] 22 [] [] Strict (str_bytes "ferrosync") true false.

(** [OutOfRounds]: the fuel of a keyboard-interactive exchange. *)
Inductive SshError :=
  | HostKeyNotFound (host : list Z)
  | HostKeyMismatch (host : list Z)
  | AuthCancelled
  | KeyboardFailed
  | AuthFailed (tried : list string)
  | OutOfRounds.

(** *** [~/.ssh/config], as [ssh2_config] parses it for a host *)

Record HostParams := mkHostParams {
  hp_host_name : option (list Z);
  hp_port : option Z;
  hp_user : option (list Z);
  hp_identity_file : option (list (list Z));
}.

(** [env] is [std::env::var]. *)
Section resolve.
  Context (env : string -> option (list Z)) (is_file : list Z -> bool) (query : list Z -> list Z -> option HostParams).

Definition home_ssh_dir : list Z :=
  match env "HOME" with Some home => path_join home (str_bytes ".ssh") | None => str_bytes "/tmp/.ssh" end.
Definition current_username : list Z :=
  match env "USER" with
  | Some u => u
  | None => match env "USERNAME" with Some u => u | None => str_bytes "root" end
  end.
Definition default_identity_files (ssh_dir : list Z) : list (list Z) :=
  List.filter is_file (map (path_join ssh_dir) [str_bytes "id_ed25519"; str_bytes "id_ecdsa"; str_bytes "id_rsa"]).
Definition defaults_for (host ssh_dir : list Z) : list Z * Z * list Z * list (list Z) :=
  (host, 22, current_username, default_identity_files ssh_dir).

(** [s.replace('~', home)] *)
Definition expand_tilde (home s : list Z) : list Z := concat (map (fun c => if c =? 126 then home else [c]) s).
Definition parse_config_for_host (config_path host : list Z) : option (list Z * Z * list Z * list (list Z)) :=
  params ← query config_path host;
  let hostname := from_option id host (hp_host_name params) in
  let port := from_option id 22 (hp_port params) in
  let user := from_option id current_username (hp_user params) in
  let ssh_dir := home_ssh_dir in
  let files := match hp_identity_file params with
               | Some files => map (fun p => expand_tilde (from_utf8_lossy (from_option id ssh_dir (parent ssh_dir))) (from_utf8_lossy p)) files
               | None => default_identity_files ssh_dir
               end in
  Some (hostname, port, user, files).
Definition resolve_ssh_config (host : list Z) : list Z * Z * list Z * list (list Z) :=
  let ssh_dir := home_ssh_dir in
  let config_path := path_join ssh_dir (str_bytes "config") in
  if is_file config_path then
    match parse_config_for_host config_path host with Some resolved => resolved | None => defaults_for host ssh_dir end
  else defaults_for host ssh_dir.
Definition from_host (host : list Z) : SshTransportConfig :=
  let '(hostname, port, user, files) := resolve_ssh_config host in
  let d := SshTransportConfig_default in
  mkSshConfig hostname port user files (known_hosts_policy d) (rsync_path d) (use_agent d) (has_prompter d).
End resolve.

(** ** The remote command *)

Definition SshTransport_new (am_sender : bool) (options : list (list Z)) (path : list Z) : list (list Z) :=
  (if negb am_sender then [str_bytes "--sender"] else []) ++ options ++ [[46]; from_utf8_lossy path].

Definition is_rsync_path (path : list Z) : bool :=
  bool_decide (List.last (split (fun c => c =? 47) path) path = str_bytes "rsync").

Definition needs_quotes (arg : list Z) : bool := existsb (fun c => bool_decide (c ∈ [32; 39; 34; 92; 36])) arg.
Definition quoted_char (c : Z) : list Z := if c =? 39 then [39; 92; 39; 39] else [c].
Definition escape (arg : list Z) : list Z :=
  if needs_quotes arg then 39 :: concat (map quoted_char arg) ++ [39] else arg.
Fixpoint join (sep : list Z) (l : list (list Z)) : list Z :=
  match l with
  | [] => []
  | [x] => x
  | x :: l => x ++ sep ++ join sep l
  end.
Definition args_str (args : list (list Z)) : list Z := join [32] (map escape args).
Definition remote_command (config : SshTransportConfig) (args : list (list Z)) : list Z :=
  let args_str := args_str args in
  if bool_decide (rsync_path config = str_bytes "ferrosync") then
    str_bytes "command -v ferrosync >/dev/null 2>&1 && exec ferrosync --server " ++ args_str ++
    str_bytes " || exec rsync --server " ++ args_str
  else escape (rsync_path config) ++ str_bytes " --server " ++ args_str.

(** ** Host keys *)

(** What [check_known_hosts_path] finds. *)
Inductive KnownHost := KnownKey | UnknownHost | OtherKey.

Section host_key.
  Context (host : list Z) (port : Z).

(** The line that [save_host_key] appends; an error of it is ignored. *)
Definition save_host_key (openssh : list Z) : list Z :=
  (if port =? 22 then host else 91 :: host ++ 93 :: 58 :: decimal port) ++ 32 :: openssh ++ [10].
(** Whether to go on, and what is appended to [known_hosts]. *)
Definition check_server_key (policy : KnownHostsPolicy) (known_hosts_exists : bool) (check : KnownHost) (openssh : list Z)
    : (SshError + bool) * list Z :=
  match policy with
  | AcceptAll => (inr true, [])
  | _ =>
      if negb known_hosts_exists then
        match policy with
        | AcceptNew => (inr true, save_host_key openssh)
        | Strict => (inl (HostKeyNotFound host), [])
        | AcceptAll => (inr true, [])
        end
      else
        match check with
        | KnownKey => (inr true, [])
        | UnknownHost =>
            match policy with
            | AcceptNew => (inr true, save_host_key openssh)
            | Strict => (inl (HostKeyNotFound host), [])
            | AcceptAll => (inr true, [])
            end
        | OtherKey => (inl (HostKeyMismatch host), [])
        end
  end.
End host_key.

(** ** Authentication *)

Inductive Method := PublicKeyMethod | PasswordMethod | KeyboardMethod | OtherMethod.
#[export] Instance Method_eq_dec : EqDecision Method.
Proof. solve_decision. Defined.
Inductive NoneAnswer := NoneSuccess | NoneFailure (remaining : list Method) | NoneBroken.
Inductive KeyboardAnswer (Q : Type) := KbSuccess | KbFailure | KbRequest (question : Q).
Arguments KbSuccess {Q}.
Arguments KbFailure {Q}.
Arguments KbRequest {Q} _.

Section auth.
  Context {Key Ident Question : Type}.

(** What was asked of the server and how it answered ([None]: an error). *)
Inductive Event :=
  | AskedNone (answer : NoneAnswer)
  | AskedKey (key : Key) (answer : option bool)
  | AskedAgentKey (ident : Ident) (answer : option bool)
  | AskedKeyboard (answers : option (list (list Z))) (answer : option (KeyboardAnswer Question))
  | AskedPassword (password : list Z) (answer : option bool).

Record World := mkWorld {
  w_none : list Event -> NoneAnswer;
  w_load_key : list Z -> option Key;
  w_is_file : list Z -> bool;
  w_key : list Event -> Key -> option bool;
  (** the agent: not there, without a list, or with its identities *)
  w_agent : option (option (list Ident));
  w_agent_key : list Event -> Ident -> option bool;
  w_keyboard : list Event -> option (list (list Z)) -> option (KeyboardAnswer Question);
  w_prompt_keyboard : list Event -> Question -> option (list (list Z));
  w_prompt_password : list Event -> option (list Z);
  w_password : list Event -> list Z -> option bool;
}.

Context (w : World).
Abbreviation ssh_act := (act SshError (list Event)).

Definition success (answer : option bool) : bool := from_option id false answer.

Definition try_key_auth (key_path : list Z) : ssh_act bool := fun h =>
  match w_load_key w key_path with
  | None => (inr false, h)
  | Some key => let r := w_key w h key in (inr (success r), h ++ [AskedKey key r])
  end.
Fixpoint try_identities (identities : list Ident) : ssh_act bool :=
  match identities with
  | [] => mret false
  | pubkey :: identities => fun h =>
      let r := w_agent_key w h pubkey in
      let h := h ++ [AskedAgentKey pubkey r] in
      if success r then (inr true, h) else try_identities identities h
  end.
Definition try_agent_auth : ssh_act bool :=
  match w_agent w with
  | Some (Some identities) => try_identities identities
  | _ => mret false
  end.
Fixpoint keyboard_rounds (fuel : nat) (answers : option (list (list Z))) : ssh_act bool :=
  match fuel with
  | O => of_sum (inl OutOfRounds)
  | S fuel => fun h =>
      let r := w_keyboard w h answers in
      let h := h ++ [AskedKeyboard answers r] in
      match r with
      | None => (inl KeyboardFailed, h)
      | Some KbSuccess => (inr true, h)
      | Some KbFailure => (inr false, h)
      | Some (KbRequest question) =>
          match w_prompt_keyboard w h question with
          | None => (inl AuthCancelled, h)
          | Some answers => keyboard_rounds fuel (Some answers) h
          end
      end
  end.
Definition try_keyboard_interactive (fuel : nat) : ssh_act bool := keyboard_rounds fuel None.
Definition try_password_auth : ssh_act bool := fun h =>
  match w_prompt_password w h with
  | None => (inl AuthCancelled, h)
  | Some password => let r := w_password w h password in (inr (success r), h ++ [AskedPassword password r])
  end.

(** The key files, until one is taken. *)
Fixpoint try_files (files : list (list Z)) : ssh_act bool :=
  match files with
  | [] => mret false
  | key_path :: files =>
      if negb (w_is_file w key_path) then try_files files
      else ok ← try_key_auth key_path; if (ok : bool) then mret true else try_files files
  end.

(** [if !authenticated && cond { methods_tried.push(name); .. }] *)
Definition try_way (cond : bool) (name : string) (way : ssh_act bool) (so_far : bool * list string) : ssh_act (bool * list string) :=
  let '(authenticated, tried) := so_far in
  if negb authenticated && cond then ok ← way; mret (ok, tried ++ [name]) else mret (authenticated, tried).

Definition authenticate (env : string -> option (list Z)) (fuel : nat) (config : SshTransportConfig) : ssh_act unit := fun h =>
  let r := w_none w h in
  let h := h ++ [AskedNone r] in
  let server_methods := match r with
                        | NoneSuccess => []
                        | NoneFailure remaining => remaining
                        | NoneBroken => [PublicKeyMethod; PasswordMethod; KeyboardMethod; OtherMethod]
                        end in
  let offers m := bool_decide (m ∈ server_methods) in
  let files := if bool_decide (identity_files config = []) then default_identity_files (w_is_file w) (home_ssh_dir env) else identity_files config in
  (so_far ← try_way (use_agent config && offers PublicKeyMethod) "agent" try_agent_auth (bool_decide (server_methods = []), []);
   so_far ← try_way (offers PublicKeyMethod) "publickey" (try_files files) so_far;
   so_far ← try_way (offers KeyboardMethod && has_prompter config) "keyboard-interactive" (try_keyboard_interactive fuel) so_far;
   so_far ← try_way (offers PasswordMethod && has_prompter config) "password" try_password_auth so_far;
   if negb (so_far.1 : bool) then of_sum (inl (AuthFailed so_far.2)) else mret tt) h.
End auth.

(** ** Nobody is let in unasked *)

Section granted.
  Context {Key Ident Question : Type} (w : World (Key := Key) (Ident := Ident) (Question := Question)).
Abbreviation ssh_act := (act SshError (list (Event (Key := Key) (Ident := Ident) (Question := Question)))).

Definition grants (e : Event (Key := Key) (Ident := Ident) (Question := Question)) : bool :=
  match e with
  | AskedNone NoneSuccess | AskedKey _ (Some true) | AskedAgentKey _ (Some true) | AskedKeyboard _ (Some KbSuccess)
  | AskedPassword _ (Some true) => true
  | _ => false
  end.
Definition method_of (e : Event (Key := Key) (Ident := Ident) (Question := Question)) : option Method :=
  match e with
  | AskedNone _ => None
  | AskedKey _ _ | AskedAgentKey _ _ => Some PublicKeyMethod
  | AskedKeyboard _ _ => Some KeyboardMethod
  | AskedPassword _ _ => Some PasswordMethod
  end.

(** A way of authenticating that only asks by [method], and says yes only when
    the server did. *)
Definition honest (method : Method) (m : ssh_act bool) : Prop := forall h, exists new,
  (m h).2 = h ++ new /\ ((m h).1 = inr true -> existsb grants new = true) /\ Forall (fun e => method_of e = Some method) new.

Lemma honest_no method : honest method (mret false).
Proof. intros h. exists []. cbn. rewrite app_nil_r. done. Qed.
Lemma honest_event method h e : method_of e = Some method ->
  exists new, h ++ [e] = h ++ new /\ (grants e = true -> existsb grants new = true) /\ Forall (fun e => method_of e = Some method) new.
Proof. intros He. exists [e]. cbn. rewrite orb_false_r. split_and!; auto. Qed.
Lemma honest_then method (h new1 : list (Event (Key := Key) (Ident := Ident) (Question := Question))) (m : ssh_act bool) :
  Forall (fun e => method_of e = Some method) new1 -> honest method m ->
  exists new, (m (h ++ new1)).2 = h ++ new /\ ((m (h ++ new1)).1 = inr true -> existsb grants new = true) /\ Forall (fun e => method_of e = Some method) new.
Proof.
  intros H1 Hm. destruct (Hm (h ++ new1)) as (new & E & Hg & Hf). exists (new1 ++ new). rewrite E, app_assoc, existsb_app.
  split_and!; [done| |by apply Forall_app_2]. intros Hi. by rewrite Hg, orb_true_r.
Qed.

Lemma key_honest path : honest PublicKeyMethod (try_key_auth w path).
Proof.
  intros h. unfold try_key_auth. destruct (w_load_key w path) as [key|]; [|apply (honest_no PublicKeyMethod h)]. cbn [fst snd].
  destruct (honest_event PublicKeyMethod h (AskedKey key (w_key w h key)) eq_refl) as (new & E & Hg & Hf). exists new. split_and!; [done| |done].
  intros Hi. apply Hg. cbn [grants]. by destruct (w_key w h key) as [[]|].
Qed.
Lemma identities_honest ids : honest PublicKeyMethod (try_identities w ids).
Proof.
  induction ids as [|i ids IH]; [apply honest_no|]. intros h. cbn [try_identities].
  destruct (w_agent_key w h i) as [[]|] eqn:E; cbn [success from_option id].
  - destruct (honest_event PublicKeyMethod h (AskedAgentKey i (Some true)) eq_refl) as (new & E1 & Hg & Hf). exists new. split_and!; auto.
  - apply honest_then; [by repeat constructor|done].
  - apply honest_then; [by repeat constructor|done].
Qed.
Lemma keyboard_honest fuel answers : honest KeyboardMethod (keyboard_rounds w fuel answers).
Proof.
  revert answers. induction fuel as [|fuel IH]; intros answers h; cbn [keyboard_rounds].
  { exists []. cbn. rewrite app_nil_r. done. }
  pose proof (honest_event KeyboardMethod h (AskedKeyboard answers (w_keyboard w h answers)) eq_refl) as (new & E & Hg & Hf).
  destruct (w_keyboard w h answers) as [[| |q]|] eqn:Ew; cbn [fst snd]; try (exists new; by split_and!).
  - exists new. split_and!; [done| |done]. intros _. by apply Hg.
  - destruct (w_prompt_keyboard w _ q); [|exists new; by split_and!]. apply honest_then; [by repeat constructor|done].
Qed.
Lemma password_honest : honest PasswordMethod (try_password_auth w).
Proof.
  intros h. unfold try_password_auth. destruct (w_prompt_password w h) as [pw|]; cbn [fst snd]; [|exists []; rewrite app_nil_r; done].
  destruct (honest_event PasswordMethod h (AskedPassword pw (w_password w h pw)) eq_refl) as (new & E & Hg & Hf). exists new. split_and!; [done| |done].
  intros Hi. apply Hg. cbn [grants]. by destruct (w_password w h pw) as [[]|].
Qed.
Lemma files_honest files : honest PublicKeyMethod (try_files w files).
Proof.
  induction files as [|f files IH]; [apply honest_no|]. cbn [try_files]. destruct (negb _); [done|]. intros h.
  unfold mbind, act_bind. destruct (key_honest f h) as (new & E & Hg & Hf). destruct (try_key_auth w f h) as [[e|[]] h'] eqn:Et; cbn [fst snd] in *.
  - exists new. by split_and!.
  - exists new. by split_and!.
  - subst h'. by apply honest_then.
Qed.

(** The ways so far: asked only by methods that were offered, and a yes has its reason. *)
Definition so_far_ok {A} (yes : A -> bool) (offered : list Method) (reason : Prop) (h0 : list Event)
    (p : (SshError + A) * list (Event (Key := Key) (Ident := Ident) (Question := Question))) : Prop :=
  exists new, p.2 = h0 ++ new /\ Forall (fun e => exists m, method_of e = Some m /\ m ∈ offered) new /\
    match p.1 with inr a => yes a = true -> reason \/ existsb grants new = true | inl _ => True end.

Lemma try_way_ok offered reason h0 cond name method way so_far h :
  honest method way -> (cond = true -> method ∈ offered) -> so_far_ok fst offered reason h0 (inr so_far, h) ->
  so_far_ok fst offered reason h0 (try_way cond name way so_far h).
Proof.
  intros Hw Hc (new & E & Hf & Hr). cbn [fst snd] in *. subst h. unfold try_way. destruct so_far as [ok tried].
  destruct ok; cbn [negb andb]; [by exists new|]. destruct cond; [|by exists new]. specialize (Hc eq_refl).
  unfold mbind, act_bind. destruct (Hw (h0 ++ new)) as (new2 & E2 & Hg & Hf2). destruct (way (h0 ++ new)) as [[e|ok] h']; cbn [fst snd] in *; subst h';
    exists (new ++ new2); cbn [fst snd]; (split_and!; [by rewrite app_assoc|apply Forall_app_2; [done|]; eapply Forall_impl; [exact Hf2|]; intros x Hx; by exists method|]).
  - done.
  - intros Hy. cbn [fst] in Hy. subst ok. right. rewrite existsb_app, Hg by done. by rewrite orb_true_r.
Qed.

Lemma bind_so_far {A B} (yes : A -> bool) (yes' : B -> bool) offered reason h0 (m : ssh_act A) f h :
  so_far_ok yes offered reason h0 (m h) -> (forall a h', so_far_ok yes offered reason h0 (inr a, h') -> so_far_ok yes' offered reason h0 (f a h')) ->
  so_far_ok yes' offered reason h0 ((m ≫= f) h).
Proof.
  intros Hm Hf. unfold mbind, act_bind. destruct (m h) as [[e|so_far] h'] eqn:E; [|by apply Hf].
  destruct Hm as (new & E2 & Hfa & _). by exists new.
Qed.

(** An SSH session goes on to run its command only when the server said yes to
    something it was asked, or when it turned the first request down and left
    no method to try; and a client asks only by the methods that were left. *)
Theorem authenticated_by_server env fuel config :
  let '(result, h) := authenticate w env fuel config [] in
  exists answer new, h = AskedNone answer :: new /\
    Forall (fun e => exists m, method_of e = Some m /\ (answer = NoneBroken \/ exists remaining, answer = NoneFailure remaining /\ m ∈ remaining)) new /\
    (result = inr tt -> existsb grants h = true \/ answer = NoneFailure []).
Proof.
  unfold authenticate. set (answer := w_none w []). cbv zeta. set (methods := match answer with NoneSuccess => _ | NoneFailure r => r | NoneBroken => _ end).
  set (reason := grants (AskedNone answer) = true \/ answer = NoneFailure []).
  assert (H0 : so_far_ok fst methods reason [AskedNone answer] (inr (bool_decide (methods = []), [] : list string), [AskedNone answer])).
  { exists []. cbn [fst snd]. rewrite app_nil_r. split_and!; [done|done|]. intros Em%bool_decide_eq_true. left. unfold reason, methods in *.
    destruct answer as [|r|]; [by left|right; by subst r|done]. }
  match goal with |- context[(?m ≫= ?f) ?h] => assert (H : so_far_ok (fun _ => true) methods reason [AskedNone answer] ((m ≫= f) h)) end.
  { eapply bind_so_far.
    { apply (try_way_ok _ _ _ _ _ PublicKeyMethod); [unfold try_agent_auth; destruct (w_agent w) as [[ids|]|]; [apply identities_honest|apply honest_no..]| |exact H0].
      intros Hb. by apply andb_true_iff in Hb as [_ Hb%bool_decide_eq_true]. }
    intros p1 h1 H1. eapply bind_so_far.
    { apply (try_way_ok _ _ _ _ _ PublicKeyMethod); [apply files_honest|by intros Hb%bool_decide_eq_true|exact H1]. }
    intros p2 h2 H2. eapply bind_so_far.
    { apply (try_way_ok _ _ _ _ _ KeyboardMethod); [apply keyboard_honest| |exact H2]. intros Hb. by apply andb_true_iff in Hb as [Hb%bool_decide_eq_true _]. }
    intros p3 h3 H3. eapply bind_so_far.
    { apply (try_way_ok _ _ _ _ _ PasswordMethod); [apply password_honest| |exact H3]. intros Hb. by apply andb_true_iff in Hb as [Hb%bool_decide_eq_true _]. }
    intros [ok tried] h4 (new & E & Hf & Hr). exists new. cbn [fst snd] in *. by destruct ok. }
  destruct (_ ≫= _) as [result h]. destruct H as (new & E & Hf & Hr). cbn [fst snd app] in *. exists answer, new. split_and!; [done| |].
  - eapply Forall_impl; [exact Hf|]. intros e (m & Hm & Hin). exists m. split; [done|]. unfold methods in Hin.
    destruct answer as [|r|]; [by apply not_elem_of_nil in Hin|right; by exists r|by left].
  - intros ->. subst h. cbn [existsb]. destruct (Hr eq_refl) as [[Hg|He]|Hg]; [left; by rewrite Hg|by right|left; by rewrite Hg, orb_true_r].
Qed.
End granted.

(** ** The command, as a shell reads it

    The words of a simple command of the POSIX shell: spaces separate, single
    quotes and backslashes protect.  [None] when the text is more than that: an
    operator, an expansion, a comment, an unfinished quotation. *)

Inductive ShellMode := Between | InWord (w : list Z) | InQuotes (w : list Z) | Escaped (w : list Z).

(** Characters that mean themselves wherever they stand (an [=] everywhere but in
    the name of the command). *)
Definition plain (c : Z) : bool :=
  in_range 97 122 c || in_range 65 90 c || in_range 48 57 c || bool_decide (c ∈ [43; 44; 45; 46; 47; 58; 64; 95; 61; 37]).
Fixpoint shell_words (mode : ShellMode) (s : list Z) : option (list (list Z)) :=
  match s, mode with
  | [], Between => Some []
  | [], InWord w => Some [w]
  | [], _ => None
  | c :: s, Between =>
      if c =? 32 then shell_words Between s
      else if c =? 39 then shell_words (InQuotes []) s
      else if c =? 92 then shell_words (Escaped []) s
      else if plain c then shell_words (InWord [c]) s else None
  | c :: s, InWord w =>
      if c =? 32 then cons w <$> shell_words Between s
      else if c =? 39 then shell_words (InQuotes w) s
      else if c =? 92 then shell_words (Escaped w) s
      else if plain c then shell_words (InWord (w ++ [c])) s else None
  | c :: s, InQuotes w => if c =? 39 then shell_words (InWord w) s else shell_words (InQuotes (w ++ [c])) s
  | c :: s, Escaped w => if c =? 10 then None else shell_words (InWord (w ++ [c])) s
  end.

(** A simple command: an unquoted [=] would make its first word an assignment. *)
Definition shell_command (s : list Z) : option (list (list Z)) :=
  words ← shell_words Between s; if bool_decide (61 ∈ from_option id [] (head words)) then None else Some words.

(** An argument that [escape] protects, or that needs no protection. *)
Definition sendable (arg : list Z) : Prop := arg <> [] /\ (needs_quotes arg = true \/ forallb plain arg = true).

Lemma plain_word c : plain c = true -> c <> 32 /\ c <> 39 /\ c <> 92.
Proof. intros Hc. split_and!; intros ->; by vm_compute in Hc. Qed.
Lemma word_plain w arg k : forallb plain arg = true -> shell_words (InWord w) (arg ++ k) = shell_words (InWord (w ++ arg)) k.
Proof.
  revert w. induction arg as [|c arg IH]; intros w Hp; [by rewrite app_nil_r|]. cbn [forallb] in Hp. apply andb_true_iff in Hp as [Hc Hp].
  destruct (plain_word c Hc) as (H1 & H2 & H3). cbn [app shell_words].
  destruct (Z.eqb_spec c 32), (Z.eqb_spec c 39), (Z.eqb_spec c 92); try done. rewrite Hc, IH by done. by rewrite <- app_assoc.
Qed.
Lemma word_quoted w arg k : shell_words (InQuotes w) (concat (map quoted_char arg) ++ 39 :: k) = shell_words (InWord (w ++ arg)) k.
Proof.
  revert w. induction arg as [|c arg IH]; intros w; [cbn; by rewrite app_nil_r|]. cbn [map concat]. unfold quoted_char at 1.
  destruct (Z.eqb_spec c 39) as [->|Hc]; cbn [app shell_words Z.eqb Pos.eqb].
  - rewrite IH. by rewrite <- app_assoc.
  - destruct (Z.eqb_spec c 39); [done|]. rewrite IH. by rewrite <- app_assoc.
Qed.
Lemma escaped_word arg k : sendable arg -> shell_words Between (escape arg ++ k) = shell_words (InWord arg) k.
Proof.
  intros [Hne Hs]. unfold escape. destruct (needs_quotes arg) eqn:Eq.
  - cbn [app shell_words Z.eqb Pos.eqb]. rewrite <- app_assoc. apply (word_quoted []).
  - destruct Hs as [|Hp]; [done|]. destruct arg as [|c arg]; [done|]. cbn [forallb] in Hp. apply andb_true_iff in Hp as [Hc Hp].
    destruct (plain_word c Hc) as (H1 & H2 & H3). cbn [app shell_words].
    destruct (Z.eqb_spec c 32), (Z.eqb_spec c 39), (Z.eqb_spec c 92); try done. rewrite Hc. by apply (word_plain [c]).
Qed.
Lemma args_read_back args : Forall sendable args -> shell_words Between (args_str args) = Some args.
Proof.
  unfold args_str. induction 1 as [|a args Ha Hargs IH]; [done|]. cbn [map]. destruct args as [|b args].
  - cbn [map join]. rewrite <- (app_nil_r (escape a)), escaped_word by done. done.
  - change (join [32] (escape a :: map escape (b :: args))) with (escape a ++ 32 :: join [32] (map escape (b :: args))).
    rewrite escaped_word by done. cbn [shell_words Z.eqb Pos.eqb]. by rewrite IH.
Qed.

(** The words that are run, whichever way the program is looked for. *)
Definition server_words (config : SshTransportConfig) (args : list (list Z)) : list Z :=
  escape (rsync_path config) ++ str_bytes " --server " ++ args_str args.
Lemma remote_command_runs config args :
  remote_command config args = server_words config args \/
  remote_command config args =
    str_bytes "command -v ferrosync >/dev/null 2>&1 && exec " ++ server_words config args ++ str_bytes " || exec rsync --server " ++ args_str args.
Proof.
  unfold remote_command, server_words. case_bool_decide as E; [right|by left]. rewrite E. reflexivity.
Qed.

(** The other side gets exactly the program and the arguments, as long as
    nothing but spaces, quotes, backslashes and dollars in them needs
    protection. *)
Theorem command_reads_back config args : sendable (rsync_path config) -> 61 ∉ rsync_path config -> Forall sendable args ->
  shell_command (server_words config args) = Some (rsync_path config :: str_bytes "--server" :: args).
Proof.
  intros Hp He Ha. unfold shell_command, server_words. rewrite escaped_word by done.
  change (str_bytes " --server " ++ args_str args) with (32 :: str_bytes "--server" ++ 32 :: args_str args). cbn [shell_words Z.eqb Pos.eqb].
  assert (Hs : sendable (str_bytes "--server")) by (split; [done|by right]).
  rewrite (escaped_word (str_bytes "--server") (32 :: args_str args) Hs : shell_words Between (str_bytes "--server" ++ _) = _).
  cbn [shell_words Z.eqb Pos.eqb]. rewrite args_read_back by done. cbn [fmap option_fmap option_map mbind option_bind head from_option id].
  by rewrite bool_decide_false.
Qed.

Definition stock : SshTransportConfig := mkSshConfig (str_bytes "h") 22 (str_bytes "u") [] Strict (str_bytes "/usr/bin/rsync") true false.
Example command_example :
  shell_command (remote_command stock (SshTransport_new false [str_bytes "-logDtpre.iLsfxCIvu"] (str_bytes "/srv/it's $5"))) =
    Some (map str_bytes ["/usr/bin/rsync"; "--server"; "--sender"; "-logDtpre.iLsfxCIvu"; "."; "/srv/it's $5"]).
Proof. vm_compute. reflexivity. Qed.

(** Other characters that a shell takes for its own are sent as they are: a
    path with a semicolon is two commands. *)
Lemma semicolon_is_not_protected :
  remote_command stock [[46]; str_bytes "x;reboot"] = str_bytes "/usr/bin/rsync --server . x;reboot" /\
  shell_command (remote_command stock [[46]; str_bytes "x;reboot"]) = None.
Proof. split; vm_compute; reflexivity. Qed.
(** An empty argument is lost. *)
Lemma empty_argument_is_lost : shell_command (args_str [str_bytes "a"; []; str_bytes "b"]) = Some [str_bytes "a"; str_bytes "b"].
Proof. reflexivity. Qed.

(** ** Host keys *)

(** A key that contradicts [known_hosts] is refused unless nothing is checked,
    an unknown one is taken only when new ones are, and then recorded. *)
Lemma host_key_policy host port policy exists_ check openssh :
  let '(verdict, saved) := check_server_key host port policy exists_ check openssh in
  (verdict = inr true <-> policy = AcceptAll \/ exists_ = true /\ check = KnownKey \/ policy = AcceptNew /\ (exists_ = false \/ check = UnknownHost)) /\
  (saved <> [] <-> policy = AcceptNew /\ (exists_ = false \/ check = UnknownHost)).
Proof.
  assert (Hs : save_host_key host port openssh <> []) by (unfold save_host_key; by destruct (port =? 22), host).
  destruct policy, exists_, check; cbn [check_server_key negb]; split; split; intuition congruence.
Qed.

(** A server that turns the first request down and leaves no method to try is
    taken to have accepted it. *)
Lemma no_methods_left_is_success (env : string -> option (list Z)) :
  authenticate (mkWorld (fun _ => NoneFailure []) (fun _ => @None unit) (fun _ => false) (fun _ _ => None) (@None (option (list unit))) (fun _ _ => None)
    (fun _ _ => @None (KeyboardAnswer unit)) (fun _ _ => None) (fun _ => None) (fun _ _ => None)) env 0 stock [] =
  (inr tt, [AskedNone (NoneFailure [])]).
Proof. reflexivity. Qed.
