(* ===== verification/Cli.v ===== *)
(** [ferrosync-cli/src/main.rs]: what the command line means: paths, sizes, and
    the flags as a transfer configuration.

    The flags themselves are what [clap] parsed, one field each; which session
    is then run, and over which transport, is in [Dispatch.v]. *)
From S2P Require Import Prelude Wire Types Text Utf8 Filter Scanner Fs Listing Options Numerals TextOps.

(** ** Paths *)

Inductive RemotePath :=
  | Local (path : list Z)
  | Ssh (user : option (list Z)) (host path : list Z)
  | Daemon (host : list Z) (port : Z) (module path : list Z).

Definition DEFAULT_DAEMON_PORT : Z := 873.

(** [s.rsplit_once(c)] *)
Definition rsplit_once (c : Z) (s : list Z) : option (list Z * list Z) :=
  p ← split_once c (rev s); Some (rev p.2, rev p.1).
(** [s.find("::")], as what is before and after it *)
Fixpoint split_colons (s : list Z) : option (list Z * list Z) :=
  match s with
  | [] => None
  | b :: s' =>
      match strip_prefix [58; 58] s with
      | Some after => Some ([], after)
      | None => p ← split_colons s'; Some (b :: p.1, p.2)
      end
  end.
Definition module_and_path (s : list Z) : list Z * list Z := from_option id (s, []) (split_once 47 s).
Definition is_ascii_alphabetic (c : Z) : bool := in_range 65 90 c || in_range 97 122 c.

Definition parse_daemon_url (rest : list Z) : RemotePath :=
  let '(host_port, module_path) := module_and_path rest in
  let '(host, port) := match rsplit_once 58 host_port with
                       | Some (h, p) => (h, from_option id DEFAULT_DAEMON_PORT (from_str_radix 10 0 (2 ^ 16 - 1) p))
                       | None => (host_port, DEFAULT_DAEMON_PORT)
                       end in
  let '(module, path) := module_and_path module_path in
  Daemon host port module path.

Definition parse_path (s : list Z) : RemotePath :=
  match strip_prefix (str_bytes "rsync://") s with
  | Some rest => parse_daemon_url rest
  | None =>
      match split_colons s with
      | Some (host, module_path) =>
          let '(module, path) := module_and_path module_path in Daemon host DEFAULT_DAEMON_PORT module path
      | None =>
          match split_once 58 s with
          | Some (before, after) =>
              if (length before =? 1)%nat && forallb is_ascii_alphabetic before then Local s
              else if negb (existsb (fun c => (c =? 47) || (c =? 92)) before) then
                match split_once 64 before with
                | Some (u, h) => Ssh (Some u) h after
                | None => Ssh None before after
                end
              else Local s
          | None => Local s
          end
      end
  end.

(** ** Sizes: the product wraps, as it does in a release build. *)

Inductive SizeError := EmptySize | InvalidSize (s : list Z).

Definition parse_size (s : list Z) : SizeError + Z :=
  let s := trim s in
  if bool_decide (s = []) then inl EmptySize
  else
    let unit c d e : option (list Z * Z) :=
      match strip_suffix [c] s with
      | Some n => Some (n, e)
      | None => match strip_suffix [d] s with Some n => Some (n, e) | None => None end
      end in
    let '(num_str, multiplier) :=
      match unit 75 107 1024 with
      | Some p => p
      | None =>
          match unit 77 109 (1024 * 1024) with
          | Some p => p
          | None =>
              match unit 71 103 (1024 * 1024 * 1024) with
              | Some p => p
              | None => match unit 84 116 (1024 * 1024 * 1024 * 1024) with Some p => p | None => (s, 1) end
              end
          end
      end in
    match parse_u64 (trim num_str) with
    | Some n => inr (as_u64 (n * multiplier))
    | None => inl (InvalidSize s)
    end.

(** ** Flags *)

Record TransferFlags := mkFlags {
  fl_archive : bool;
  fl_recursive : bool;
  fl_links : bool;
  fl_perms : bool;
  fl_times : bool;
  fl_group : bool;
  fl_owner : bool;
  fl_devices : bool;
  fl_compress : bool;
  fl_compress_level : option Z;
  fl_verbose : Z;
  fl_quiet : bool;
  fl_progress : bool;
  fl_stats : bool;
  fl_dry_run : bool;
  fl_itemize_changes : bool;
  fl_checksum : bool;
  fl_whole_file : bool;
  fl_update : bool;
  fl_ignore_times : bool;
  fl_size_only : bool;
  fl_existing : bool;
  fl_ignore_existing : bool;
  fl_max_delete : option Z;
  fl_prune_empty_dirs : bool;
  fl_copy_links : bool;
  fl_safe_links : bool;
  fl_keep_dirlinks : bool;
  fl_remove_source_files : bool;
  fl_dirs : bool;
  fl_modify_window : Z;
  fl_append_verify : bool;
  fl_exclude_from : list (list Z);
  fl_include_from : list (list Z);
  fl_cvs_exclude : bool;
  fl_block_size : option Z;
  fl_chmod : list (list Z);
  fl_chown : option (list Z);
  fl_inplace : bool;
  fl_delete : bool;
  fl_delete_before : bool;
  fl_delete_during : bool;
  fl_delete_after : bool;
  fl_delete_excluded : bool;
  fl_exclude : list (list Z);
  fl_include : list (list Z);
  fl_filter : list (list Z);
  fl_bwlimit : option (list Z);
  fl_max_size : option (list Z);
  fl_min_size : option (list Z);
  fl_timeout : option Z;
  fl_one_file_system : bool;
  fl_numeric_ids : bool;
  fl_sparse : bool;
  fl_backup : bool;
  fl_backup_dir : option (list Z);
  fl_suffix : list Z;
  fl_link_dest : list (list Z);
  fl_copy_dest : list (list Z);
  fl_compare_dest : list (list Z);
  fl_partial : bool;
  fl_partial_dir : option (list Z);
  fl_relative : bool;
  fl_short_partial : bool;
  fl_filter_merge : Z;
  fl_list_only : bool;
  fl_fuzzy : bool;
  fl_hard_links : bool;
  fl_acls : bool;
  fl_xattrs : bool;
  fl_fake_super : bool;
  fl_checksum_choice : option (list Z);
  fl_compress_choice : option (list Z);
  fl_iconv : option (list Z);
  fl_write_batch : option (list Z);
  fl_read_batch : option (list Z);
  fl_append : bool;
  fl_files_from : option (list Z);
  fl_rsync_path : option (list Z);
  fl_identity : option (list Z);
  fl_port : option Z;
  fl_batch_mode : bool;
  fl_tls : bool;
  fl_transport : list Z;
  fl_insecure : bool;
  fl_concurrent : Z;
}.

Definition when {A} (o : option A) (f : A -> TransferConfig -> TransferConfig) (c : TransferConfig) : TransferConfig :=
  match o with Some v => f v c | None => c end.
Definition each {A} (l : list A) (f : A -> TransferConfig -> TransferConfig) (c : TransferConfig) : TransferConfig :=
  foldl (fun c v => f v c) c l.
Definition only_if (b : bool) (f : TransferConfig -> TransferConfig) (c : TransferConfig) : TransferConfig := if b then f c else c.
Definition all_of (steps : list (TransferConfig -> TransferConfig)) (c : TransferConfig) : TransferConfig := foldl (fun c f => f c) c steps.
(** [if let Some(ref s) = o { if let Ok(bytes) = parse_size(s) { .. } }] *)
Definition when_size (o : option (list Z)) (f : Z -> TransferConfig -> TransferConfig) : TransferConfig -> TransferConfig :=
  match o with
  | Some s => match parse_size s with inr bytes => f bytes | inl _ => id end
  | None => id
  end.

Section flags.
  Context (self : TransferFlags).

Definition archive_steps : list (TransferConfig -> TransferConfig) :=
  let a := fl_archive self in
  [only_if a Builder.archive;
   Builder.recursive (a || fl_recursive self); Builder.preserve_links (a || fl_links self); Builder.preserve_perms (a || fl_perms self);
   Builder.preserve_times (a || fl_times self); Builder.preserve_group (a || fl_group self); Builder.preserve_owner (a || fl_owner self);
   Builder.preserve_devices (a || fl_devices self); Builder.preserve_specials (a || fl_devices self)].
Definition verbosity_of : Verbosity :=
  if fl_quiet self then VQuiet
  else if fl_verbose self =? 0 then VNormal else if fl_verbose self =? 1 then VVerbose
  else if fl_verbose self =? 2 then VVeryVerbose else VDebug.
Definition output_steps : list (TransferConfig -> TransferConfig) :=
  [Builder.compress (fl_compress self); when (fl_compress_level self) Builder.compress_level; Builder.verbosity verbosity_of;
   Builder.progress (fl_progress self); Builder.stats (fl_stats self); Builder.dry_run (fl_dry_run self);
   Builder.itemize_changes (fl_itemize_changes self); Builder.checksum_mode (fl_checksum self); Builder.whole_file (fl_whole_file self);
   Builder.update (fl_update self); Builder.inplace (fl_inplace self); Builder.ignore_times (fl_ignore_times self);
   Builder.size_only (fl_size_only self); Builder.existing (fl_existing self); Builder.ignore_existing (fl_ignore_existing self);
   Builder.copy_links (fl_copy_links self); Builder.safe_links (fl_safe_links self); Builder.keep_dirlinks (fl_keep_dirlinks self);
   Builder.remove_source_files (fl_remove_source_files self); Builder.modify_window (fl_modify_window self); Builder.cvs_exclude (fl_cvs_exclude self)].
Definition dirs_steps : list (TransferConfig -> TransferConfig) :=
  [only_if (fl_dirs self && negb (fl_archive self) && negb (fl_recursive self)) (Builder.dirs true)].
Definition list_steps : list (TransferConfig -> TransferConfig) :=
  [only_if (fl_append_verify self) (fun c => Builder.append_verify true (Builder.append true c)); each (fl_chmod self) Builder.chmod;
   when (fl_block_size self) Builder.block_size; each (fl_exclude_from self) Builder.exclude_from; each (fl_include_from self) Builder.include_from].
(** A complaint on the standard error changes nothing. *)
Definition chown_part (part : list Z) (f : Z -> TransferConfig -> TransferConfig) : TransferConfig -> TransferConfig :=
  if bool_decide (part = []) then id else match parse_u32 part with Some n => f n | None => id end.
Definition chown_steps : list (TransferConfig -> TransferConfig) :=
  match fl_chown self with
  | None => []
  | Some chown_spec =>
      match split_once 58 chown_spec with
      | Some (uid_part, gid_part) => [chown_part uid_part Builder.chown_uid; chown_part gid_part Builder.chown_gid]
      | None => [chown_part chown_spec Builder.chown_uid]
      end
  end.
Definition delete_mode : DeleteMode :=
  if fl_delete_before self then DelBefore
  else if fl_delete_during self || fl_delete self then DelDuring
  else if fl_delete_after self then DelAfter
  else if fl_delete_excluded self then DelExcluded
  else DelNone.
Definition limit_steps : list (TransferConfig -> TransferConfig) :=
  [Builder.delete delete_mode; Builder.excludes (fl_exclude self); Builder.includes (fl_include self); Builder.filters (fl_filter self);
   when_size (fl_bwlimit self) Builder.bwlimit; when_size (fl_max_size self) Builder.max_size; when_size (fl_min_size self) Builder.min_size;
   when (fl_timeout self) Builder.timeout; when (fl_max_delete self) Builder.max_delete].
Definition path_steps (source dest : list Z) : list (TransferConfig -> TransferConfig) :=
  [Builder.one_file_system (fl_one_file_system self); Builder.numeric_ids (fl_numeric_ids self); Builder.sparse (fl_sparse self);
   Builder.prune_empty_dirs (fl_prune_empty_dirs self); Builder.backup (fl_backup self); Builder.suffix (fl_suffix self);
   Builder.append (fl_append self); Builder.link_dests (fl_link_dest self); Builder.copy_dests (fl_copy_dest self);
   Builder.compare_dests (fl_compare_dest self); Builder.sources [source]; Builder.dest dest].
Definition last_steps : list (TransferConfig -> TransferConfig) :=
  [when (fl_backup_dir self) Builder.backup_dir; Builder.partial (fl_partial self || fl_short_partial self);
   only_if (fl_short_partial self) (Builder.progress true); when (fl_partial_dir self) Builder.partial_dir;
   Builder.relative (fl_relative self); Builder.filter_merge_files (fl_filter_merge self); Builder.list_only (fl_list_only self);
   Builder.fuzzy (fl_fuzzy self); Builder.preserve_hard_links (fl_hard_links self); Builder.preserve_acls (fl_acls self);
   Builder.preserve_xattrs (fl_xattrs self); Builder.fake_super (fl_fake_super self);
   when (fl_checksum_choice self) Builder.checksum_choice; when (fl_compress_choice self) Builder.compress_choice;
   when (fl_iconv self) Builder.iconv; when (fl_write_batch self) Builder.write_batch; when (fl_read_batch self) Builder.read_batch;
   when (fl_files_from self) Builder.files_from].
Definition into_transfer_options (source dest : list Z) : TransferConfig :=
  Builder.build (all_of (archive_steps ++ output_steps ++ dirs_steps ++ list_steps ++ chown_steps ++ limit_steps ++ path_steps source dest ++ last_steps)
    TransferConfig.default).
End flags.

(** No flag but [-a], with [clap]'s defaults. *)
Definition flags_of_archive (archive : bool) : TransferFlags :=
  mkFlags archive false false false false false false false false None 0 false false false false false false false false false false false false None false false false false false false 0 false [] [] false None [] None false false false false false false [] [] [] None None None None false false false false None (str_bytes "~") [] [] [] false None false false 0 false false false false false false None None None None None false None None None None false false (str_bytes "tcp") false 1.

(** ** What the flags mean *)

Definition keeps {A} (get : TransferConfig -> A) (f : TransferConfig -> TransferConfig) : Prop := forall c, get (f c) = get c.
Lemma all_of_app l1 l2 c : all_of (l1 ++ l2) c = all_of l2 (all_of l1 c).
Proof. apply foldl_app. Qed.
Lemma all_of_keeps {A} (get : TransferConfig -> A) l c : Forall (keeps get) l -> get (all_of l c) = get c.
Proof. intros Hl. revert c. induction Hl as [|f l Hf _ IH]; intros c; [done|]. unfold all_of in *. cbn [foldl]. by rewrite IH. Qed.
Lemma when_keeps {A B} (get : TransferConfig -> B) (o : option A) f : (forall v, keeps get (f v)) -> keeps get (when o f).
Proof. intros Hf c. destruct o; [apply Hf|done]. Qed.
Lemma each_keeps {A B} (get : TransferConfig -> B) (l : list A) f : (forall v, keeps get (f v)) -> keeps get (each l f).
Proof. intros Hf. unfold each. induction l as [|v l IH]; intros c; [done|]. cbn [foldl]. by rewrite IH, Hf. Qed.
Lemma only_if_keeps {B} (get : TransferConfig -> B) b f : keeps get f -> keeps get (only_if b f).
Proof. intros Hf c. destruct b; [apply Hf|done]. Qed.
Lemma when_size_keeps {B} (get : TransferConfig -> B) o f : (forall v, keeps get (f v)) -> keeps get (when_size o f).
Proof. intros Hf c. unfold when_size. destruct o as [s|]; [destruct (parse_size s)|]; [done|apply Hf|done]. Qed.
Lemma chown_keeps {B} (get : TransferConfig -> B) part f : (forall v, keeps get (f v)) -> keeps get (chown_part part f).
Proof. intros Hf c. unfold chown_part. case_bool_decide; [done|]. destruct (parse_u32 part); [apply Hf|done]. Qed.
Lemma chown_steps_keep {B} (get : TransferConfig -> B) self :
  (forall v, keeps get (Builder.chown_uid v)) -> (forall v, keeps get (Builder.chown_gid v)) -> Forall (keeps get) (chown_steps self).
Proof.
  intros H1 H2. unfold chown_steps. destruct (fl_chown self) as [spec|]; [|constructor]. destruct (split_once 58 spec) as [[u g]|];
    repeat constructor; by apply chown_keeps.
Qed.

(** The steps of a part leave a group of options alone. *)
Ltac steps_keep :=
  repeat (constructor; [first [intros ?; reflexivity | apply when_keeps; intros ? ?; reflexivity | apply each_keeps; intros ? ?; reflexivity
    | apply only_if_keeps; intros ?; reflexivity | apply when_size_keeps; intros ? ?; reflexivity]|]); constructor.
Ltac skip_steps := rewrite all_of_keeps; [|first [by apply chown_steps_keep; intros ? ?|steps_keep]].

Section meaning.
  Context (self : TransferFlags) (source dest : list Z).
Let c := into_transfer_options self source dest.

Lemma traversal_mode : Get.dir_mode c =
  if fl_archive self || fl_recursive self then DmRecurse else if fl_dirs self then DmList else DmSkip.
Proof.
  unfold c, into_transfer_options, Builder.build. rewrite !all_of_app. do 5 skip_steps.
  unfold dirs_steps, all_of at 1. cbn [foldl]. unfold only_if.
  assert (E : Get.dir_mode (all_of (output_steps self) (all_of (archive_steps self) TransferConfig.default))
    = if fl_archive self || fl_recursive self then DmRecurse else DmSkip).
  { skip_steps. unfold archive_steps. by destruct (fl_archive self), (fl_recursive self). }
  destruct (fl_dirs self), (fl_archive self), (fl_recursive self); cbn [andb negb orb] in *; first [exact E|reflexivity].
Qed.
Lemma preserved : Get.preserve_links c = fl_archive self || fl_links self /\ Get.preserve_perms c = fl_archive self || fl_perms self /\
  Get.preserve_times c = fl_archive self || fl_times self /\ Get.preserve_group c = fl_archive self || fl_group self /\
  Get.preserve_owner c = fl_archive self || fl_owner self /\ Get.preserve_devices c = fl_archive self || fl_devices self /\
  Get.preserve_specials c = fl_archive self || fl_devices self.
Proof.
  set (G := fun c => [Get.preserve_links c; Get.preserve_perms c; Get.preserve_times c; Get.preserve_group c; Get.preserve_owner c;
    Get.preserve_devices c; Get.preserve_specials c]).
  assert (E : G c = G (all_of (archive_steps self) TransferConfig.default)).
  { unfold c, into_transfer_options, Builder.build. rewrite !all_of_app. do 7 skip_steps. done. }
  unfold G in E. injection E as -> -> -> -> -> -> ->. unfold archive_steps, all_of. cbn [foldl]. by destruct (fl_archive self).
Qed.

Lemma all_of_cons f l x : all_of (f :: l) x = all_of l (f x).
Proof. done. Qed.
Lemma deletion : Get.delete c = delete_mode self.
Proof.
  unfold c, into_transfer_options, Builder.build. rewrite !all_of_app. do 2 skip_steps. unfold limit_steps. rewrite all_of_cons. skip_steps. done.
Qed.
Lemma appending : Get.append c = fl_append self /\ Get.append_verify c = fl_append_verify self.
Proof.
  unfold c, into_transfer_options, Builder.build. rewrite !all_of_app. split.
  - skip_steps. unfold path_steps. rewrite !all_of_cons. reflexivity.
  - do 4 skip_steps. unfold list_steps. rewrite all_of_cons. skip_steps. unfold only_if. destruct (fl_append_verify self); [done|].
    do 3 skip_steps. done.
Qed.
Lemma ends : Get.source c = [source] /\ Get.dest c = Some dest.
Proof.
  unfold c, into_transfer_options, Builder.build. rewrite !all_of_app. split.
  - skip_steps. unfold path_steps. rewrite !all_of_cons. reflexivity.
  - skip_steps. unfold path_steps. rewrite !all_of_cons. reflexivity.
Qed.
Lemma dry_run_flag : Get.dry_run c = fl_dry_run self.
Proof.
  unfold c, into_transfer_options, Builder.build. rewrite !all_of_app. do 6 skip_steps.
  unfold output_steps. do 6 rewrite all_of_cons. skip_steps. reflexivity.
Qed.

(** The configuration means what the flags say: [-a] stands for the seven
    options it abbreviates, [-r] wins over [-d], of the ways to delete the
    earliest wins, and the paths and the dry run are the ones given. *)
Theorem flags_mean :
  Get.dir_mode c = (if fl_archive self || fl_recursive self then DmRecurse else if fl_dirs self then DmList else DmSkip) /\
  (Get.preserve_links c = fl_archive self || fl_links self /\ Get.preserve_perms c = fl_archive self || fl_perms self /\
   Get.preserve_times c = fl_archive self || fl_times self /\ Get.preserve_group c = fl_archive self || fl_group self /\
   Get.preserve_owner c = fl_archive self || fl_owner self /\ Get.preserve_devices c = fl_archive self || fl_devices self /\
   Get.preserve_specials c = fl_archive self || fl_devices self) /\
  Get.delete c = delete_mode self /\ (Get.append c = fl_append self /\ Get.append_verify c = fl_append_verify self) /\
  (Get.source c = [source] /\ Get.dest c = Some dest) /\ Get.dry_run c = fl_dry_run self.
Proof. split_and!; first [apply traversal_mode|apply preserved|apply deletion|apply appending|apply ends|apply dry_run_flag]. Qed.
End meaning.

(** ** Paths that are read as something else, sizes that wrap

    A user in a URL stays in the host; a double colon makes a daemon of a local
    path even after a slash; a bracketed address is cut at its first colon. *)
Example parse_path_examples :
  parse_path (str_bytes "me@host:docs/a b") = Ssh (Some (str_bytes "me")) (str_bytes "host") (str_bytes "docs/a b") /\
  parse_path (str_bytes "C:\docs") = Local (str_bytes "C:\docs") /\
  parse_path (str_bytes "./a:b") = Local (str_bytes "./a:b") /\
  parse_path (str_bytes "host::pub/x/y") = Daemon (str_bytes "host") 873 (str_bytes "pub") (str_bytes "x/y") /\
  parse_path (str_bytes "rsync://host:8873/pub") = Daemon (str_bytes "host") 8873 (str_bytes "pub") [] /\
  parse_path (str_bytes "rsync://me@host/pub") = Daemon (str_bytes "me@host") 873 (str_bytes "pub") [] /\
  parse_path (str_bytes "./a::b") = Daemon (str_bytes "./a") 873 (str_bytes "b") [] /\
  parse_path (str_bytes "[fe80::1]:x") = Daemon (str_bytes "[fe80") 873 (str_bytes "1]:x") [].
Proof. repeat split; vm_compute; reflexivity. Qed.

Example parse_size_examples :
  parse_size (str_bytes " 10K ") = inr 10240 /\ parse_size (str_bytes "3g") = inr 3221225472 /\
  parse_size (str_bytes "1.5M") = inl (InvalidSize (str_bytes "1.5M")) /\ parse_size (str_bytes "") = inl EmptySize /\
  parse_size (str_bytes "18014398509481984K") = inr 0.
Proof. repeat split; vm_compute; reflexivity. Qed.
