(* ===== verification/Diagnostic.v ===== *)
(** [ferrosync-codec/src/codec/diagnostic.rs], and the [DiagnosticDecoder] of
    [visitor.rs]: a decoder that notes where each field of an entry stood.

    It runs the field readers of [Flist.v] through the same traversal.  The
    report that compares two decodings is not modelled. *)
From S2P Require Import Prelude Wire Types Text Utf8 Listing Varint WireFormat Acl Numerals Flist.

Record DecodedField := mkField {
  df_name : string;
  df_offset : nat;
  df_length : nat;
  df_raw_bytes : list Z;
  df_decoded_value : list Z;
}.
Inductive DiagnosticResult :=
  | DiagEntry (fields : list DecodedField)
  | DiagEndOfList (io_error : Z).

(** The bytes from [offset] on stand for [data] and [offset]. *)
Record DiagnosticDecoder := mkDiag {
  dg_rest : list Z;
  dg_offset : nat;
  dg_fields : list DecodedField;
}.
Definition diag (A : Type) : Type := DiagnosticDecoder -> result (A * DiagnosticDecoder).
#[export] Instance diag_ret : MRet diag := fun A a d => Ok (a, d).
#[export] Instance diag_bind : MBind diag := fun A B f m d =>
  match m d with
  | Ok (a, d') => f a d'
  | Err e => Err e
  | Panic => Panic
  end.

(** ** Values as text *)

Definition show_int (n : Z) : list Z := if n <? 0 then 45 :: decimal (- n) else decimal n.
Definition hex_digit (d : Z) : Z := if d <? 10 then 48 + d else 87 + d.
Fixpoint hex_digits (fuel : nat) (n : Z) : list Z :=
  match fuel with
  | O => []
  | S f => if n <? 16 then [hex_digit n] else hex_digits f (n / 16) ++ [hex_digit (n mod 16)]
  end.
Definition pad (width : nat) (s : list Z) : list Z := replicate (width - length s) 48 ++ s.
Definition hex_bytes (bytes : list Z) : list Z := concat (map (fun b => pad 2 (hex_digits 8 b)) bytes).
Definition show_named (id : Z) (id_name : list Z) : list Z := show_int id ++ 32 :: 40 :: from_utf8_lossy id_name ++ [41].

(** ** The visitor *)

(** [self.record(name, consumed, start, value)], after the cursor moved to [rest]. *)
Definition record (name : string) (rest : list Z) (value : list Z) (d : DiagnosticDecoder) : DiagnosticDecoder :=
  let consumed := (length (dg_rest d) - length rest)%nat in
  mkDiag rest (dg_offset d + consumed)
    (dg_fields d ++
     if (0 <? consumed)%nat then [mkField name (dg_offset d) consumed (take consumed (dg_rest d)) value] else []).
Definition measured {A} (name : A -> string) (show : A -> list Z) (r : rd A) : diag A := fun d =>
  match r (dg_rest d) with
  | Ok (a, rest) => Ok (a, record (name a) rest (show a) d)
  | Err e => Err e
  | Panic => Panic
  end.

Definition Diagnostic : FieldVisitor diag unit := {|
  visit_len ctx v := x ← measured (fun _ => "file_length") show_int (decode_file_length (cx_opts ctx)); mret (set_v_len x v);
  visit_mtime ctx v := x ← measured (fun _ => "mtime") show_int (decode_mtime (cx_state ctx) (cx_flags ctx) (cx_opts ctx)); mret (set_v_mtime x v);
  visit_mtime_nsec ctx v := x ← measured (fun _ => "mtime_nsec") show_int (decode_mtime_nsec (cx_flags ctx) (cx_opts ctx)); mret (set_v_mtime_nsec x v);
  visit_mode ctx v :=
    x ← measured (fun _ => "mode") (fun m => str_bytes "0o" ++ pad 6 (octal m)) (decode_mode (cx_state ctx) (cx_flags ctx)); mret (set_v_mode x v);
  visit_uid ctx v :=
    x ← measured (fun _ => "uid") (fun p => show_named p.1 p.2) (decode_uid (cx_state ctx) (cx_flags ctx) (cx_opts ctx)); mret (set_v_uid x.1 x.2 v);
  visit_gid ctx v :=
    x ← measured (fun _ => "gid") (fun p => show_named p.1 p.2) (decode_gid (cx_state ctx) (cx_flags ctx) (cx_opts ctx)); mret (set_v_gid x.1 x.2 v);
  visit_rdev ctx v :=
    x ← measured (fun _ => "rdev") show_int (decode_rdev (v_mode v) (cx_state ctx) (cx_flags ctx) (cx_opts ctx)); mret (set_v_rdev x v);
  visit_symlink ctx v := x ← measured (fun _ => "symlink_target") from_utf8_lossy (decode_symlink (v_mode v) (cx_opts ctx)); mret (set_v_link_target x v);
  visit_checksum ctx v := x ← measured (fun _ => "checksum") hex_bytes (decode_checksum (v_mode v) (cx_opts ctx)); mret (set_v_checksum x v);
  visit_acl ctx v st := mret (v, st);
  visit_xattr ctx v st := mret (v, st);
|}.

(** ** Entries *)

Definition hlink_field (flags : Z) : string := if hlink_first flags then "hlink_self_ref" else "hlink_backref".

(** The rest of an entry after its name: the values and the state to go on with. *)
Definition diagnostic_fields (flags : Z) (name : list Z) (state : DeltaState) (opts : FileListOptions) : diag DeltaState :=
  p ← traverse_fields Diagnostic (mkFieldContext flags state opts) (FieldValues_default name) tt;
  mret (update_state p.1 state).
Definition diagnostic_decode_entry (state : DeltaState) (opts : FileListOptions) : diag (DiagnosticResult * DeltaState) := fun d0 =>
  (df ← (fun d => match decode_xmit_flags opts (dg_rest d) with
                  | Ok (DfEntry f, rest) => Ok (DfEntry f, record "xmit_flags" rest (str_bytes "0x" ++ pad 4 (hex_digits 8 f)) d)
                  | Ok (DfEndOfList e, rest) => Ok (DfEndOfList e, mkDiag rest (dg_offset d + (length (dg_rest d) - length rest)) (dg_fields d))
                  | Err e => Err e
                  | Panic => Panic
                  end) : diag DecodedFlags;
   match (df : DecodedFlags) with
   | DfEndOfList io_error => mret (DiagEndOfList io_error, state)
   | DfEntry flags =>
       name ← measured (fun _ => "filename") from_utf8_lossy (decode_filename state flags opts None);
       if preserve_hard_links opts && hlinked flags then
         _ ← measured (fun _ => hlink_field flags) (fun v => show_int (as_i32 v)) read_varint;
         if negb (hlink_first flags) then
           (fun d => Ok ((DiagEntry (dg_fields d), set_prev_name name state), d)) : diag (DiagnosticResult * DeltaState)
         else state ← diagnostic_fields flags name state opts; (fun d => Ok ((DiagEntry (dg_fields d), state), d)) : diag (DiagnosticResult * DeltaState)
       else state ← diagnostic_fields flags name state opts; (fun d => Ok ((DiagEntry (dg_fields d), state), d)) : diag (DiagnosticResult * DeltaState)
   end) (mkDiag (dg_rest d0) (dg_offset d0) []).

(** Every entry takes a byte, so that [length data] rounds and one more are
    enough. *)
Fixpoint diagnostic_decode_from (fuel : nat) (state : DeltaState) (opts : FileListOptions) (d : DiagnosticDecoder)
    : option (result (list (list DecodedField))) :=
  match fuel with
  | O => None
  | S fuel =>
      match diagnostic_decode_entry state opts d with
      | Ok (DiagEndOfList _, _, _) => Some (Ok [])
      | Ok (DiagEntry fields, state, d) =>
          match diagnostic_decode_from fuel state opts d with
          | Some (Ok entries) => Some (Ok (fields :: entries))
          | other => other
          end
      | Err e => Some (Err e)
      | Panic => Some Panic
      end
  end.
Definition diagnostic_decode_all (data : list Z) (opts : FileListOptions) : option (result (list (list DecodedField))) :=
  diagnostic_decode_from (S (length data)) DeltaState_default opts (mkDiag data 0 []).

(** ** Readers consume a prefix *)

Definition consumes {A} (r : rd A) : Prop := forall i a rest, r i = Ok (a, rest) -> exists pre, i = pre ++ rest.

Lemma consumes_ret {A} (a : A) : consumes (mret a).
Proof. intros i b rest [= _ <-]. by exists []. Qed.
Lemma consumes_lift {A} (m : result A) : consumes (rd_lift m).
Proof. intros i b rest. unfold rd_lift. destruct m; [|done..]. intros [= _ <-]. by exists []. Qed.
Lemma consumes_exact n : consumes (read_exact n).
Proof. intros i b rest. unfold read_exact. destruct (_ <? _); [done|]. intros [= _ <-]. exists (take (Z.to_nat n) i). by rewrite take_drop. Qed.
Lemma consumes_bind {A B} (r : rd A) (f : A -> rd B) : consumes r -> (forall a, consumes (f a)) -> consumes (r ≫= f).
Proof.
  intros Hr Hf i b rest. unfold mbind, rd_bind. destruct (r i) as [[a i1]| |] eqn:E; [|done..]. intros E2.
  apply Hr in E as (pre1 & ->). apply Hf in E2 as (pre2 & ->). exists (pre1 ++ pre2). by rewrite app_assoc.
Qed.
Ltac solve_consumes :=
  repeat first [apply consumes_ret | apply consumes_lift | apply consumes_exact | apply consumes_bind; [|intros ?] | progress cbv zeta | case_match].
Lemma consumes_int : consumes read_int. Proof. unfold read_int. solve_consumes. Qed.
Lemma consumes_byte : consumes read_byte. Proof. unfold read_byte. solve_consumes. Qed.
Lemma consumes_longint : consumes read_longint.
Proof. unfold read_longint. apply consumes_bind; [apply consumes_int|intros ?]. solve_consumes. Qed.
Lemma consumes_varint : consumes read_varint. Proof. unfold read_varint. solve_consumes. Qed.
Lemma consumes_varlong n : consumes (read_varlong n). Proof. unfold read_varlong. solve_consumes. Qed.
Lemma consumes_varint30 c : consumes (read_varint30 c).
Proof. destruct c; cbn [read_varint30]; [apply consumes_bind; [apply consumes_int|intros ?; apply consumes_ret]|apply consumes_varint]. Qed.
Lemma consumes_varlong30 n c : consumes (read_varlong30 n c).
Proof. destruct c; [apply consumes_longint|apply consumes_varlong]. Qed.
Create HintDb consumes.
#[local] Hint Resolve consumes_int consumes_byte consumes_longint consumes_varint consumes_varlong consumes_varint30 consumes_varlong30
  consumes_ret consumes_lift consumes_exact : consumes.
Ltac field_consumes := repeat first [solve [auto with consumes] | apply consumes_bind; [|intros ?] | progress cbv zeta | case_match].

Lemma filename_consumes st f opts : consumes (decode_filename st f opts None). Proof. unfold decode_filename. field_consumes. Qed.
Lemma flags_consumes opts : consumes (decode_xmit_flags opts). Proof. unfold decode_xmit_flags. field_consumes. Qed.
Lemma len_consumes opts : consumes (decode_file_length opts). Proof. unfold decode_file_length. field_consumes. Qed.
Lemma mtime_consumes st f opts : consumes (decode_mtime st f opts). Proof. unfold decode_mtime. field_consumes. Qed.
Lemma nsec_consumes f opts : consumes (decode_mtime_nsec f opts). Proof. unfold decode_mtime_nsec. field_consumes. Qed.
Lemma mode_consumes st f : consumes (decode_mode st f). Proof. unfold decode_mode. field_consumes. Qed.
Lemma id_consumes p s f i n opts : consumes (decode_id p s f i n opts). Proof. unfold decode_id. field_consumes. Qed.
Lemma rdev_consumes m st f opts : consumes (decode_rdev m st f opts). Proof. unfold decode_rdev. field_consumes. Qed.
Lemma symlink_consumes m opts : consumes (decode_symlink m opts). Proof. unfold decode_symlink. field_consumes. Qed.
Lemma checksum_consumes m opts : consumes (decode_checksum m opts). Proof. unfold decode_checksum. field_consumes. Qed.

(** ** The diagnostic decoder follows the real one *)

(** The fields stand one after the other, from [o] on, and are all of [bytes]. *)
Fixpoint tiles (o : nat) (fields : list DecodedField) (bytes : list Z) : Prop :=
  match fields with
  | [] => bytes = []
  | f :: fields => df_offset f = o /\ df_length f = length (df_raw_bytes f) /\ (0 < df_length f)%nat /\
      exists rest, bytes = df_raw_bytes f ++ rest /\ tiles (o + df_length f) fields rest
  end.
Lemma tiles_app o fs1 fs2 b1 b2 : tiles o fs1 b1 -> tiles (o + length b1) fs2 b2 -> tiles o (fs1 ++ fs2) (b1 ++ b2).
Proof.
  revert o b1. induction fs1 as [|f fs1 IH]; intros o b1; cbn [tiles app].
  - intros -> H. cbn [length] in H. by rewrite Nat.add_0_r in H.
  - intros (H1 & H2 & H3 & rest & -> & Ht) H. split_and!; [done..|]. exists (rest ++ b2). split; [by rewrite app_assoc|].
    apply IH; [done|]. rewrite length_app, Nat.add_assoc, <- H2 in H. exact H.
Qed.

Definition moved (d : DiagnosticDecoder) (pre rest : list Z) (fields : list DecodedField) : DiagnosticDecoder :=
  mkDiag rest (dg_offset d + length pre) (dg_fields d ++ fields).
Definition follows {A B} (m : rd A) (dm : diag B) (R : A -> B -> Prop) : Prop := forall d,
  match m (dg_rest d) with
  | Ok (a, rest) => exists b pre fields, dm d = Ok (b, moved d pre rest fields) /\ R a b /\ dg_rest d = pre ++ rest /\ tiles (dg_offset d) fields pre
  | Err e => dm d = Err e
  | Panic => dm d = Panic
  end.

Lemma follows_ret {A B} (a : A) (b : B) (R : A -> B -> Prop) : R a b -> follows (mret a) (mret b) R.
Proof. intros HR d. exists b, [], []. unfold moved. cbn [length]. rewrite Nat.add_0_r, app_nil_r. by destruct d. Qed.
Lemma follows_bind {A A' B B'} (m : rd A) (f : A -> rd A') (dm : diag B) (g : B -> diag B') R R' :
  follows m dm R -> (forall a b, R a b -> follows (f a) (g b) R') -> follows (m ≫= f) (dm ≫= g) R'.
Proof.
  intros Hm Hf d. specialize (Hm d). unfold mbind, rd_bind, diag_bind. destruct (m (dg_rest d)) as [[a rest]|e|]; [|by rewrite Hm..].
  destruct Hm as (b & pre & fs & -> & HR & Hd & Ht). specialize (Hf a b HR (moved d pre rest fs)). cbn [dg_rest moved] in Hf.
  destruct (f a rest) as [[a' rest']|e|]; [|done..]. destruct Hf as (b' & pre' & fs' & -> & HR' & Hd' & Ht').
  exists b', (pre ++ pre'), (fs ++ fs'). unfold moved. cbn [dg_offset dg_fields]. rewrite length_app, Nat.add_assoc, app_assoc.
  split_and!; [done|done|by rewrite Hd, Hd', app_assoc|]. apply tiles_app; [done|exact Ht'].
Qed.
Lemma record_moves name rest value d pre : dg_rest d = pre ++ rest ->
  exists fields, record name rest value d = moved d pre rest fields /\ tiles (dg_offset d) fields pre.
Proof.
  intros E. unfold record. rewrite E, length_app, Nat.add_sub, take_app_length. destruct (Nat.ltb_spec 0 (length pre)); eexists; (split; [done|]); cbn [tiles].
  - cbn [df_offset df_length df_raw_bytes]. split_and!; [done..|]. exists []. by rewrite app_nil_r.
  - destruct pre; [done|cbn in *; lia].
Qed.
Lemma follows_measured {A} (name : A -> string) show (r : rd A) : consumes r -> follows r (measured name show r) eq.
Proof.
  intros Hr d. unfold measured. destruct (r (dg_rest d)) as [[a rest]|e|] eqn:E; [|done..]. apply Hr in E as (pre & E).
  destruct (record_moves (name a) rest (show a) d pre E) as (fs & -> & Ht). by exists a, pre, fs.
Qed.

Definition same_values (a : FieldValues * (AclDecoder * XattrDecoder)) (b : FieldValues * unit) : Prop := a.1 = set_v_xattrs None (set_v_acl None b.1).

Lemma traversal_follows flags name state opts attrs : preserve_acls opts = false -> preserve_xattrs opts = false ->
  follows (traverse_fields Decoder (mkFieldContext flags state opts) (FieldValues_default name) attrs)
    (traverse_fields Diagnostic (mkFieldContext flags state opts) (FieldValues_default name) tt) same_values.
Proof.
  intros Ha Hx. unfold traverse_fields. cbn [Decoder Diagnostic visit_len visit_mtime visit_mtime_nsec visit_mode visit_uid visit_gid visit_rdev
    visit_symlink visit_checksum visit_acl visit_xattr cx_opts cx_state cx_flags].
  assert (step : forall (X : Type) (r : rd X) nm sh (k : X -> FieldValues) f g R, consumes r -> (forall v, follows (f v) (g v) R) ->
    follows ((x ← r; mret (k x)) ≫= f) ((x ← measured nm sh r; mret (k x)) ≫= g) (R : FieldValues * (AclDecoder * XattrDecoder) -> FieldValues * unit -> Prop)).
  { intros X r nm sh k f g R Hr Hf. eapply (follows_bind _ _ _ _ eq); [|intros ? ? <-; apply Hf].
    eapply follows_bind; [by apply follows_measured|]. intros x ? <-. by apply follows_ret. }
  apply step; [apply len_consumes|intros ?]. apply step; [apply mtime_consumes|intros ?]. apply step; [apply nsec_consumes|intros ?].
  apply step; [apply mode_consumes|intros ?]. apply step; [apply id_consumes|intros ?]. apply step; [apply id_consumes|intros ?].
  apply step; [apply rdev_consumes|intros ?]. apply step; [apply symlink_consumes|intros ?]. apply step; [apply checksum_consumes|intros vals].
  rewrite Ha, Hx. cbn [andb]. eapply (follows_bind _ _ _ _ (fun p q => p.1 = set_v_acl None q.1)); [by apply follows_ret|].
  intros [w1 s1] [w2 s2] E. cbn [fst snd] in *. subst w1. by apply follows_ret.
Qed.

(** The rest of an entry, after its flags. *)
Lemma entry_follows flags state links attrs opts prev_entries :
  preserve_hard_links opts = false -> preserve_acls opts = false -> preserve_xattrs opts = false ->
  follows (name ← decode_filename state flags opts None;
           h ← decode_hlink flags opts links prev_entries name state;
           match (h : option (FileEntry * DeltaState * HardLinkDecoder)) with
           | Some (entry, delta, groups) => mret (ReadEntry entry, mkDecoderState delta groups attrs)
           | None =>
               p ← traverse_fields Decoder (mkFieldContext flags state opts) (FieldValues_default name) attrs;
               let entry := into_entry p.1 flags in
               mret (ReadEntry entry, mkDecoderState (update_delta_state state entry) links p.2)
           end)
    (name ← measured (fun _ => "filename") from_utf8_lossy (decode_filename state flags opts None);
     diagnostic_fields flags name state opts)
    (fun p st => match p.1 with ReadEntry _ => True | _ => False end /\ st = ds_delta p.2).
Proof.
  intros Hh Ha Hx. eapply follows_bind; [apply follows_measured, filename_consumes|]. intros nm ? <-.
  unfold decode_hlink. rewrite Hh. cbn [negb orb]. intros d. unfold mbind at 1, rd_bind at 1. cbn [mret rd_ret].
  apply (follows_bind _ _ _ _ same_values); [by apply traversal_follows|]. intros [v1 s1] [v2 []] E. unfold same_values in E. cbn [fst] in E. subst v1.
  apply follows_ret. cbn [fst snd ds_delta]. split; [done|]. by destruct v2.
Qed.

(** C40. The diagnostic decoder is the decoder.  Where no hard links, ACLs or
    extended attributes are kept, on any bytes it fails exactly as the decoder
    of an entry does, and otherwise goes on from the same byte with the same
    state, and the fields it shows are, one after the other, all the bytes of
    the entry. *)
Theorem diagnostic_agrees state links attrs opts prev_entries d :
  preserve_hard_links opts = false -> preserve_acls opts = false -> preserve_xattrs opts = false ->
  match decode_entry (mkDecoderState state links attrs) opts prev_entries None (dg_rest d) with
  | Ok (ReadEntry _, st, rest) => exists fields pre,
      diagnostic_decode_entry state opts d = Ok (DiagEntry fields, ds_delta st, mkDiag rest (dg_offset d + length pre) fields) /\
      dg_rest d = pre ++ rest /\ tiles (dg_offset d) fields pre
  | Ok (ReadEndOfList io_error, st, rest) => exists pre fields,
      diagnostic_decode_entry state opts d = Ok (DiagEndOfList io_error, ds_delta st, mkDiag rest (dg_offset d + length pre) fields) /\
      dg_rest d = pre ++ rest
  | Err e => diagnostic_decode_entry state opts d = Err e
  | Panic => diagnostic_decode_entry state opts d = Panic
  end.
Proof.
  intros Hh Ha Hx. set (d0 := mkDiag (dg_rest d) (dg_offset d) []).
  destruct (decode_xmit_flags opts (dg_rest d)) as [[df rest]|e|] eqn:E.
  2, 3: unfold decode_entry, diagnostic_decode_entry, mbind, rd_bind, diag_bind; cbn [dg_rest]; rewrite E; done.
  pose proof (flags_consumes opts _ _ _ E) as (pre & Ed). destruct df as [flags|io_error].
  2:{ unfold decode_entry, diagnostic_decode_entry, mbind, rd_bind, diag_bind. cbn [dg_rest]. rewrite E. cbn [mret rd_ret ds_delta].
      exists pre, []. split; [|done]. rewrite Ed, length_app, Nat.add_sub. done. }
  destruct (record_moves "xmit_flags" rest (str_bytes "0x" ++ pad 4 (hex_digits 8 flags)) d0 pre Ed) as (fs & Er & Ht).
  pose proof (entry_follows flags state links attrs opts prev_entries Hh Ha Hx (moved d0 pre rest fs)) as Hf. cbn [dg_rest moved] in Hf.
  unfold decode_entry, diagnostic_decode_entry. cbn [ds_delta ds_hlink ds_attrs]. unfold mbind, rd_bind, diag_bind in Hf |- *. cbn [dg_rest].
  rewrite E. fold d0. rewrite Er, Hh. cbn [andb].
  match type of Hf with match ?m with _ => _ end => destruct m as [[[r st] rest2]|e|] end.
  - destruct Hf as (b & pre2 & fs2 & Hd & (Hr & Hs) & Hrest & Ht2). destruct (measured _ _ _ _) as [[nm' d1]|e'|]; [|discriminate Hd..].
    destruct (diagnostic_fields flags nm' state opts d1) as [[st' d2]|e'|]; [|discriminate Hd..]. injection Hd as -> ->. cbn [fst snd] in *.
    destruct r as [entry|]; [|done]. exists (fs ++ fs2), (pre ++ pre2). subst b. unfold moved. cbn [dg_fields dg_offset dg_rest app].
    rewrite length_app, Nat.add_assoc. split_and!; [done|by rewrite Ed, Hrest, app_assoc|]. apply tiles_app; [done|exact Ht2].
  - destruct (measured _ _ _ _) as [[nm' d1]|e'|]; [|by injection Hf as ->|discriminate Hf].
    destruct (diagnostic_fields flags nm' state opts d1) as [[st' d2]|e'|]; [discriminate Hf|by injection Hf as ->|discriminate Hf].
  - destruct (measured _ _ _ _) as [[nm' d1]|e'|]; [|discriminate Hf|done].
    by destruct (diagnostic_fields flags nm' state opts d1) as [[st' d2]|e'|].
Qed.

Definition probe_opts (links : bool) : FileListOptions :=
  mkFileListOptions (WireFormat_new 31 0) false false false false false links false 0 false false false false.
Definition probe_entry : FileEntry :=
  mkFileEntry [97; 46; 99] 5 1000 0 33188 0 0 0 [] [] 0 [] [] None None None None.
Definition probe_bytes (links : bool) : list Z :=
  (encode_entry probe_entry EncoderState_new (probe_opts links) (Some (mkHardLinkInfo 1 2 2)) 0 None).2.

Lemma diagnostic_agrees_witness :
  let d := mkDiag (probe_bytes false) 0 [] in
  match decode_entry DecoderState_new (probe_opts false) [] None (dg_rest d) with
  | Ok (ReadEntry e, st, rest) => name e = name probe_entry /\ exists fields pre,
      diagnostic_decode_entry DeltaState_default (probe_opts false) d =
        Ok (DiagEntry fields, ds_delta st, mkDiag rest (dg_offset d + length pre) fields) /\
      dg_rest d = pre ++ rest /\ tiles (dg_offset d) fields pre
  | _ => False
  end.
Proof.
  split; [reflexivity|].
  exact (diagnostic_agrees DeltaState_default ∅ (AclDecoder_new, []) (probe_opts false) [] (mkDiag (probe_bytes false) 0 []) eq_refl eq_refl eq_refl).
Defined.

Example diagnostic_example :
  match diagnostic_decode_entry DeltaState_default (probe_opts false) (mkDiag (probe_bytes false) 0 []) with
  | Ok (DiagEntry fields, _, _) =>
      map (fun f => (df_name f, df_length f)) fields =
      [("xmit_flags", 1%nat); ("filename", 4%nat); ("file_length", 3%nat); ("mtime", 4%nat); ("mode", 4%nat)]
  | _ => False
  end.
Proof. reflexivity. Qed.

(** The first of several links carries no reference, and the decoder reads
    none; the diagnostic decoder does, and takes the bytes of the length for
    it. *)
Lemma first_link_is_misread :
  match decode_entry DecoderState_new (probe_opts true) [] None (probe_bytes true) with
  | Ok (ReadEntry e, _, rest) => len e = len probe_entry /\ rest = []
  | _ => False
  end /\
  diagnostic_decode_entry DeltaState_default (probe_opts true) (mkDiag (probe_bytes true) 0 []) = Err (Io UnexpectedEof).
Proof. by vm_compute. Qed.
