(* ===== verification/Dispatch.v ===== *)
(** [ferrosync-cli/src/main.rs], the rest: which session a command line starts,
    over which transport and with which settings; and the server mode that the
    other end of an SSH connection starts in.

    What [clap] makes of the arguments is a parameter.  A [Job] is what is run;
    the runs themselves are [LocalTransfer.v], [Session.v] and
    [ServerSession.v].  Prompts and statistics are not modelled. *)
From S2P Require Import Prelude Wire Types Text Utf8 Filter Scanner Fs Listing Numerals TextOps Options Progress Handshake Checksum FakeSuper ServerArgs Rsyncd DaemonClient ServerSession ServerSpec Ssh Cli.

Inductive SyncDirection := Push | Pull.
#[export] Instance SyncDirection_eq_dec : EqDecision SyncDirection.
Proof. solve_decision. Defined.

(** ** Sessions *)

Inductive Job :=
  | LocalJob (opts : TransferConfig) (ctx : ProtocolContext)
  | SshJob (config : SshTransportConfig) (args : list (list Z)) (opts : TransferConfig) (direction : SyncDirection)
  | DaemonJob (host : list Z) (port : Z) (config : DaemonTransportConfig) (am_sender : bool) (server_opts : list (list Z))
      (opts : TransferConfig) (direction : SyncDirection)
  | TlsJob (host : list Z) (port : Z) (config : DaemonTransportConfig) (insecure am_sender : bool) (server_opts : list (list Z))
      (opts : TransferConfig) (direction : SyncDirection)
  | QuicJob (host : list Z) (port : Z) (insecure : bool) (opts : TransferConfig) (direction : SyncDirection).

Inductive CliError := NoDestination | RemoteToRemote | NoServerPath | DaemonNotImplemented | NeedTwoPaths.

Definition is_push (direction : SyncDirection) : bool := bool_decide (direction = Push).

(** [env], [is_file] and [query]: as in [Ssh.v]. *)
Section dispatch.
  Context (env : string -> option (list Z)) (is_file : list Z -> bool) (query : list Z -> list Z -> option HostParams).

Definition ssh_config_for (flags : TransferFlags) (user : option (list Z)) (host : list Z) : SshTransportConfig :=
  let c := from_host env is_file query host in
  mkSshConfig (ssh_host c) (from_option id (ssh_port c) (fl_port flags)) (from_option id (ssh_user c) user)
    (match fl_identity flags with Some id => [id] | None => identity_files c end) (known_hosts_policy c)
    (from_option id (rsync_path c) (fl_rsync_path flags)) (use_agent c) (negb (fl_batch_mode flags) || has_prompter c).

Definition ends_of (direction : SyncDirection) (local remote : list Z) : list Z * list Z :=
  match direction with Push => (local, remote) | Pull => (remote, local) end.

Definition run_sync (direction : SyncDirection) (local_path : list Z) (remote : RemotePath) (flags : TransferFlags) : Job :=
  let use_tls := fl_tls flags || bool_decide (fl_transport flags = str_bytes "tls") in
  let use_quic := bool_decide (fl_transport flags = str_bytes "quic") in
  let insecure := fl_insecure flags in
  match remote with
  | Cli.Local remote_path =>
      let '(source, dest) := ends_of direction local_path remote_path in
      let opts := into_transfer_options flags source dest in
      LocalJob opts (mkProtocolContext 0 Blake3 0 true (Get.block_size opts))
  | Cli.Ssh user host remote_path =>
      let '(source, dest) := ends_of direction local_path remote_path in
      let opts := into_transfer_options flags source dest in
      let server_opts := build_server_options_config opts (is_push direction) in
      let am_sender := is_push direction in
      SshJob (ssh_config_for flags user host) (SshTransport_new am_sender server_opts remote_path) opts direction
  | Cli.Daemon host port module remote_path =>
      let '(source, dest) := ends_of direction local_path remote_path in
      let opts := into_transfer_options flags source dest in
      let server_opts := build_server_options_config opts (is_push direction) in
      let am_sender := is_push direction in
      let config := mkTransportConfig module remote_path None None in
      if use_quic then QuicJob host port insecure opts direction
      else if use_tls then TlsJob host port config insecure am_sender server_opts opts direction
      else DaemonJob host port config am_sender server_opts opts direction
  end.

Definition run_transfer (paths : list (list Z)) (opts : TransferFlags) : CliError + Job :=
  match paths with
  | [] => inl NoDestination
  | source_str :: _ =>
      let source := parse_path source_str in
      let dest := parse_path (List.last paths []) in
      match source, dest with
      | Cli.Local src, _ => inr (run_sync Push src dest opts)
      | _, Cli.Local dst => inr (run_sync Pull dst source opts)
      | _, _ => inl RemoteToRemote
      end
  end.

(** ** Server mode *)

Definition server_module (path : list Z) : DaemonModule :=
  mkModule [] path false false [] (mkModuleAuth [] None) (mkAccessControl [] []) 0 0 [] [] [].
(** The module and the arguments of the [ServerSession] that is run. *)
Definition run_server_mode (args : list (list Z)) : CliError + (DaemonModule * list (list Z)) :=
  let server_args := List.filter (fun a => negb (bool_decide (a = str_bytes "--server"))) (drop 1 args) in
  match last server_args with
  | Some path => inr (server_module path, server_args)
  | None => inl NoServerPath
  end.

(** ** The list of modules *)

Definition ls_address (host : list Z) (port : Z) : list Z * Z :=
  match strip_prefix (str_bytes "rsync://") host with
  | Some rest =>
      let rest := rev (trim_with [[47]] (length rest) (rev rest)) in
      match rsplit_once 58 rest with
      | Some (h, port_str) => (h, from_option id port (from_str_radix 10 0 (2 ^ 16 - 1) port_str))
      | None => (rest, port)
      end
  | None => (rev (trim_with [[58]] (length host) (rev host)), port)
  end.
(** [{:<20}] counts characters. *)
Definition char_count (s : list Z) : nat := length (List.filter (fun b => negb (is_cont b)) s).
Definition ls_line (m : ListedModule) : list Z :=
  if bool_decide (lm_comment m = []) then lm_name m
  else lm_name m ++ replicate (20 - char_count (lm_name m)) 32 ++ 32 :: lm_comment m.

(** ** Progress, file system, entry point *)

(** The line shown for an event. *)
Definition event_line (event : ProgressEvent) : option (list Z) :=
  match event with
  | FileStart _ name _ => Some (from_utf8_lossy name)
  | FileDeleted name => Some (str_bytes "*deleting   " ++ from_utf8_lossy name)
  | FileItemized _ name changes => Some (ItemizedChanges_fmt changes ++ 32 :: from_utf8_lossy name)
  | _ => None
  end.
(** The events reach a callback that shows them, unless [-v] is missing. *)
Definition build_progress_tracker (verbose : Z) : ProgressTracker :=
  if 0 <? verbose then with_callback [] else ProgressTracker_new.
Definition create_filesystem {S} (unix : FsOps S) (fake_super : bool) : FsOps S :=
  if fake_super then FakeSuperFs unix else unix.

Inductive Command := Ls (host : list Z) (port : Z) | Transfer (paths : list (list Z)) (opts : TransferFlags).
Inductive Started := Serving (module : DaemonModule) (args : list (list Z)) | Listing (host : list Z) (port : Z) | Running (job : Job).

Definition main (parse : list (list Z) -> Command) (raw_args : list (list Z)) : CliError + Started :=
  if existsb (fun a => bool_decide (a = str_bytes "--server")) raw_args then
    match run_server_mode raw_args with inr (module, args) => inr (Serving module args) | inl e => inl e end
  else if existsb (fun a => bool_decide (a = str_bytes "--daemon")) raw_args then inl DaemonNotImplemented
  else
    match parse raw_args with
    | Ls host port => let '(h, p) := ls_address host port in inr (Listing h p)
    | Transfer paths opts =>
        if (length paths <? 2)%nat then inl NeedTwoPaths
        else match run_transfer paths opts with inr job => inr (Running job) | inl e => inl e end
    end.
End dispatch.

(** ** From one command line to the other *)

Section ssh.
  Context (env env' : string -> option (list Z)) (is_file is_file' : list Z -> bool) (query query' : list Z -> list Z -> option HostParams).
  Context (parse : list (list Z) -> Command).

Lemma server_mode_starts program opts (push : bool) path : no_option path -> utf8_valid path = true ->
  let args := SshTransport_new push (build_server_options_config opts push) path in
  main env' is_file' query' parse (program :: str_bytes "--server" :: args) = inr (Serving (server_module path) args).
Proof.
  intros Hp Hv args. unfold main. cbn [existsb]. rewrite (bool_decide_true (str_bytes "--server" = _)), orb_true_r by done.
  unfold run_server_mode. cbn [drop List.filter]. rewrite (bool_decide_true (str_bytes "--server" = _)) by done. cbn [negb].
  assert (Ea : List.filter (fun a => negb (bool_decide (a = str_bytes "--server"))) args = args).
  { apply forallb_filter_id, forallb_forall. intros a Ha%list_elem_of_In. rewrite negb_true_iff, bool_decide_eq_false.
    unfold args, SshTransport_new in Ha. rewrite from_utf8_lossy_valid in Ha by done. rewrite !elem_of_app in Ha.
    destruct Ha as [Ha|[Ha|Ha]].
    - destruct push; cbn [negb] in Ha; [by apply elem_of_nil in Ha|]. by apply list_elem_of_singleton in Ha as ->.
    - pose proof (all_words opts push) as Hw. rewrite Forall_forall in Hw. by destruct (Hw _ Ha).
    - apply elem_of_cons in Ha as [->|Ha%list_elem_of_singleton]; [done|]. subst a. by destruct (no_option_words path Hp). }
  rewrite Ea. unfold args, SshTransport_new. rewrite from_utf8_lossy_valid by done.
  replace (last _) with (Some path); [done|]. by rewrite !app_assoc, (app_assoc _ [[46]] [path] : _ ++ [[46]; path] = _), last_snoc.
Qed.

End ssh.

(** [-a] alone. *)
Definition archive_flags : TransferFlags := flags_of_archive true.
Lemma archive_typed source dest : options_typed (into_transfer_options archive_flags source dest).
Proof. split; try (intros v [=]); try (vm_compute; split; congruence). vm_compute. constructor. Qed.


(** ** Where the dispatch loses something *)

(** Of several sources the first one is sent. *)
Lemma other_sources_are_ignored env is_file query source others dest flags :
  run_transfer env is_file query (source :: others ++ [dest]) flags = run_transfer env is_file query [source; dest] flags.
Proof.
  unfold run_transfer. replace (List.last (source :: others ++ [dest]) []) with dest; [done|].
  change (source :: others ++ [dest]) with ((source :: others) ++ [dest]). by rewrite List.last_last.
Qed.
(** Over QUIC no module is named. *)
Lemma quic_names_no_module env is_file query direction local host port module module' path flags : fl_transport flags = str_bytes "quic" ->
  run_sync env is_file query direction local (Cli.Daemon host port module path) flags =
  run_sync env is_file query direction local (Cli.Daemon host port module' path) flags.
Proof. intros E. unfold run_sync. rewrite E. by destruct direction. Qed.
(** No command line gives a daemon client a name or a password. *)
Lemma daemon_jobs_have_no_name env is_file query paths flags host port config am_sender server_opts opts direction :
  run_transfer env is_file query paths flags = inr (DaemonJob host port config am_sender server_opts opts direction) ->
  dt_user config = None /\ dt_password config = None.
Proof.
  unfold run_transfer, run_sync. destruct paths as [|p ps]; [done|]. intros E. repeat case_match; by inversion E.
Qed.
(** An address of a module is taken for a host, a bracketed one is cut. *)
Example ls_address_examples :
  ls_address (str_bytes "host::") 873 = (str_bytes "host", 873) /\
  ls_address (str_bytes "rsync://host:8873/") 873 = (str_bytes "host", 8873) /\
  ls_address (str_bytes "rsync://host/pub") 873 = (str_bytes "host/pub", 873) /\
  ls_address (str_bytes "rsync://[fe80::1]") 873 = (str_bytes "[fe80:", 873).
Proof. repeat split; vm_compute; reflexivity. Qed.
Example main_examples (env : string -> option (list Z)) is_file query parse :
  main env is_file query parse (map str_bytes ["ferrosync"; "--server"]) = inl NoServerPath /\
  main env is_file query parse (map str_bytes ["ferrosync"; "--daemon"]) = inl DaemonNotImplemented /\
  main env is_file query parse (map str_bytes ["ferrosync"; "--server"; "--sender"; "-logDtpre.LsfxCIvu"; "."; "/srv"]) =
    inr (Serving (server_module (str_bytes "/srv")) (map str_bytes ["--sender"; "-logDtpre.LsfxCIvu"; "."; "/srv"])).
Proof. repeat split; vm_compute; reflexivity. Qed.
