(* ===== verification/SyncSession.v ===== *)
(** [SyncSession] of [ferrosync-engine/src/session.rs]: a whole session on a
    connected transport, handshake, optional batch file, push or pull.

    [pr_in] is what the other side sends: the bytes of its handshake, then the
    data of its frames (the frames are [Multiplex.v]'s).  Connecting is the
    transports' part. *)
From S2P Require Import Prelude Wire Types Text Utf8 Posix PosixFacts UnixFs UnixSpec Varint WireFormat Handshake Checksum Compress Token Proc Incremental Exchange Filter Scanner Listing Options Fs Progress FileDecision Delete ReceiverEngine Transfer LocalTransfer LocalSpec UnixWire WireTransfer WireSpec WireSystem Session SessionSpec ServerSpec Multiplex Batch Dispatch.

Section session.
  Context (H : HashLib) (B : Backends) (fuel : nat) {S : Type} (F : FsOps S) (open_append : list Z -> act FsError S (Writer F)).
  Context (options : TransferConfig).

Definition shake_hands (direction : SyncDirection) : wire_act S NegotiatedProtocol :=
  converse (client_handshake (is_push direction) (Get.compress options) (Get.checksum_choice options) (Get.compress_choice options)).

(** With [--write-batch] everything that is written from here on goes into the
    file as well, behind this header.  [create] is [File::create], with the
    header's own write. *)
Definition begin_batch (create : failure + unit) (protocol : NegotiatedProtocol) : wire_act S (option (list Z)) :=
  match Get.write_batch options with
  | Some _ => _ ← of_sum create; mret (Some (write_batch_header (version protocol) (compat_flags protocol) (seed protocol) options).2)
  | None => mret None
  end.

(** The header of the batch file, and the lines of [--list-only]. *)
Definition run (direction : SyncDirection) (create : failure + unit) (scan_fuel : nat) (schedule : list bool) (prune_fuel : nat)
    : wire_act S (option (list Z) * list (list Z)) :=
  protocol ← shake_hands direction;
  header ← begin_batch create protocol;
  lines ← (if is_push direction then run_push H B fuel protocol F options scan_fuel
           else run_pull H B fuel protocol F open_append options schedule prune_fuel);
  mret (header, lines).

(** ** From the first byte on *)

Lemma calm_batch create protocol : calm (begin_batch create protocol).
Proof. unfold begin_batch. destruct (Get.write_batch options); [apply calm_bind; [apply calm_sum|]|]; intros; intros x; done. Qed.

(** C15. A pull writes only inside the destination.  Whatever bytes the other
    side sends, from the first one of its handshake on, the session fails
    without having touched the file system, or it agreed on a protocol and
    received a list in which no name climbs: the place of every entry lies below
    the destination, in every tree.  The names are checked as text with
    replacement characters, and used as bytes. *)
Theorem session_stays_inside create scan_fuel schedule prune_fuel (x : Peer S) :
  let session := run Pull create scan_fuel schedule prune_fuel x in
  (exists e, session.1 = inl e) /\ pr_fs session.2 = pr_fs x \/
  exists protocol y received rest dest, shake_hands Pull x = (inr protocol, y) /\
    recv_file_list protocol (codec_config options) (pr_in y) = Ok (received, rest) /\ Get.dest options = Some dest /\
    Forall (fun e => ([46; 46] ∉ names_of (name e)) /\
      forall t, lies_at t (ReceiverEngine.dest_path (Receiver_new dest options) e) = lies_at t dest ++ names_of (name e)) (rl_entries received).
Proof.
  cbv zeta. unfold run.
  calm_step (calm_converse (S := S) (client_handshake (is_push Pull) (Get.compress options) (Get.checksum_choice options) (Get.compress_choice options)))
    ipattern:([Hf|(protocol & y & E1 & F1 & ->)]); [by left|].
  calm_step (calm_batch create protocol) ipattern:([[Hf Hs]|(header & z & E2 & F2 & ->)]); [left; by rewrite <- F1|].
  change (is_push Pull) with false. cbv iota.
  assert (Hin : pr_in z = pr_in y).
  { unfold begin_batch in E2. destruct (Get.write_batch options); [|by injection E2 as _ <-].
    unfold mbind, act_bind, of_sum in E2. destruct create as [e|[]]; [done|by injection E2 as _ <-]. }
  destruct (pull_stays_inside H B fuel protocol F open_append options schedule prune_fuel z) as [[(e & He) Hs]|(received & rest & dest & Hr & Hd & Hn)].
  - left. unfold mbind, act_bind. destruct (run_pull H B fuel protocol F open_append options schedule prune_fuel z) as [r z'].
    cbn [fst snd] in He, Hs. subst r. cbn [fst snd]. split; [eauto|]. by rewrite Hs, F2.
  - right. exists protocol, y, received, rest, dest. by rewrite <- Hin.
Qed.
End session.

(** ** The batch of a pull *)

(** What the other side of a pull sends: a handshake without choices, and the
    list with one directory; then the ends of its phases, its statistics and its
    goodbye. *)
Definition served_protocol : NegotiatedProtocol := mkNegotiatedProtocol 31 0 Md5 CpNone false 7 ChunkingStrategy.default (WireFormat_new 31 0).
Definition pulling_options : TransferConfig :=
  Builder.build (Builder.write_batch (str_bytes "/tmp/batch") (Builder.dest (str_bytes "/t") (Builder.recursive true TransferConfig.default))).
Definition serving : list Z :=
  (write_int 31).2 ++ (write_varint 0).2 ++ (write_int 7).2 ++ (send_file_list [batch_entry] served_protocol (codec_config pulling_options)).2 ++ replicate 19 0.
Definition pull_run : (failure + (option (list Z) * list (list Z))) * Peer (list (list Z)) :=
  run toy_hash stored_backends 9 recorder (fun p s => (inr tt, s ++ [p])) pulling_options Pull (inr tt) 5 [] 10 (batch_peer serving).
(** The file: the header, and the frames of what was written. *)
Definition pulled_batch : list Z :=
  match pull_run with
  | (inr (Some header, _), x) => header ++ (write_data (drop 4 (pr_out x))).2
  | _ => []
  end.

(** A pull with [--write-batch] succeeds and makes the directory.  Its batch file
    holds what was written, requests, not what was received: the replay succeeds
    as well, and does nothing. *)
Lemma pull_batch_is_empty :
  (exists header, pull_run.1 = inr (Some header, [])) /\ pr_fs pull_run.2 = [str_bytes "/t/sub"] /\ pr_in pull_run.2 = [] /\
  let replayed := run_read_batch toy_hash stored_backends 9 recorder (fun p s => (inr tt, s ++ [p])) own_options [] 10 (batch_peer pulled_batch) in
  replayed.1 = inr tt /\ pr_fs replayed.2 = [].
Proof. split; [eexists; vm_compute; reflexivity|]. repeat split; vm_compute; reflexivity. Qed.

(** A name that climbs fails the session before anything is touched. *)
Example climbing_session :
  let x := batch_peer ((write_int 31).2 ++ (write_varint 0).2 ++ (write_int 7).2 ++
    (send_file_list [climbing_entry] served_protocol (codec_config pulling_options)).2) in
  let session := run toy_hash stored_backends 9 recorder (fun p s => (inr tt, s ++ [p])) pulling_options Pull (inr tt) 5 [] 10 x in
  session.1 = inl (EFs (PermissionDenied (str_bytes "../evil"))) /\ pr_fs session.2 = [].
Proof. split; vm_compute; reflexivity. Qed.
