(* ===== verification/PyBindings.v ===== *)
(** [ferrosync-py/src/lib.rs]: what the Python module does between Python and the
    engine: keyword arguments, properties, exceptions, the dictionaries of
    progress events.

    A Python object is the value [pyo3] makes of the Rust one; calling back and
    releasing the interpreter are not modelled. *)
From S2P Require Import Prelude Wire Types Text Utf8 Filter Scanner Fs Listing Options Progress Checksum Numerals Cli.

(** ** Enums *)

Module Py.
Inductive DeleteMode := None_ | Before | During | After | Excluded.
Definition DeleteMode_into (v : DeleteMode) : Options.DeleteMode :=
  match v with None_ => DelNone | Before => DelBefore | During => DelDuring | After => DelAfter | Excluded => DelExcluded end.
Definition DeleteMode_from (v : Options.DeleteMode) : DeleteMode :=
  match v with DelNone => None_ | DelBefore => Before | DelDuring => During | DelAfter => After | DelExcluded => Excluded end.

Inductive Verbosity := Quiet | Normal | Verbose | VeryVerbose | Debug.
Definition Verbosity_into (v : Verbosity) : Options.Verbosity :=
  match v with Quiet => VQuiet | Normal => VNormal | Verbose => VVerbose | VeryVerbose => VVeryVerbose | Debug => VDebug end.
Definition Verbosity_from (v : Options.Verbosity) : Verbosity :=
  match v with VQuiet => Quiet | VNormal => Normal | VVerbose => Verbose | VVeryVerbose => VeryVerbose | VDebug => Debug end.

(** ** Exceptions *)

Inductive Exception := ProtocolError | TransportError | FilesystemError | FilterError | ChecksumMismatchError.
(** The classes an exception is an instance of, under [FerrosyncError]. *)
Definition bases (e : Exception) : list Exception :=
  match e with ChecksumMismatchError => [ChecksumMismatchError; ProtocolError] | _ => [e] end.
End Py.

(** [Transport] errors do not come up in a local transfer; a panic is an
    exception of [pyo3]'s own. *)
Definition to_py_err (e : failure) : option Py.Exception :=
  match e with
  | EProtocol (ChecksumMismatch _ _) => Some Py.ChecksumMismatchError
  | EProtocol _ => Some Py.ProtocolError
  | EFs _ => Some Py.FilesystemError
  | EFilter _ => Some Py.FilterError
  | EPanic | EDeep => None
  end.

(** ** TransferOptions *)

Record Kwargs := mkKwargs {
  kw_source : list (list Z);
  kw_dest : option (list Z);
  kw_archive : bool;
  kw_recursive : bool;
  kw_preserve_links : bool;
  kw_preserve_perms : bool;
  kw_preserve_times : bool;
  kw_preserve_group : bool;
  kw_preserve_owner : bool;
  kw_preserve_devices : bool;
  kw_preserve_specials : bool;
  kw_checksum_mode : bool;
  kw_whole_file : bool;
  kw_update : bool;
  kw_inplace : bool;
  kw_delete : Py.DeleteMode;
  kw_compress : bool;
  kw_compress_level : Z;
  kw_verbosity : Py.Verbosity;
  kw_progress : bool;
  kw_stats : bool;
  kw_dry_run : bool;
  kw_itemize_changes : bool;
  kw_exclude : list (list Z);
  kw_include : list (list Z);
  kw_filter : list (list Z);
  kw_bwlimit : option Z;
  kw_max_size : option Z;
  kw_min_size : option Z;
  kw_timeout : option Z;
  kw_link_dest : list (list Z);
  kw_copy_dest : list (list Z);
  kw_compare_dest : list (list Z);
  kw_backup : bool;
  kw_backup_dir : option (list Z);
  kw_suffix : list Z;
  kw_partial : bool;
  kw_partial_dir : option (list Z);
  kw_relative : bool;
  kw_append : bool;
  kw_files_from : option (list Z);
  kw_one_file_system : bool;
  kw_numeric_ids : bool;
  kw_sparse : bool;
}.
Definition Kwargs_default : Kwargs :=
  mkKwargs [] None false false false false false false false false false false false false false Py.None_ false 6 Py.Normal false false
    false false [] [] [] None None None None [] [] [] false None (str_bytes "~") false None false false None false false false.

Section new.
  Context (kw : Kwargs).

Definition preserve_kwargs : list (TransferConfig -> TransferConfig) :=
  if kw_archive kw then [Builder.archive]
  else [Builder.recursive (kw_recursive kw); Builder.preserve_links (kw_preserve_links kw); Builder.preserve_perms (kw_preserve_perms kw);
        Builder.preserve_times (kw_preserve_times kw); Builder.preserve_group (kw_preserve_group kw);
        Builder.preserve_owner (kw_preserve_owner kw); Builder.preserve_devices (kw_preserve_devices kw);
        Builder.preserve_specials (kw_preserve_specials kw)].
Definition plain_kwargs : list (TransferConfig -> TransferConfig) :=
  [Builder.checksum_mode (kw_checksum_mode kw); Builder.whole_file (kw_whole_file kw); Builder.update (kw_update kw);
   Builder.inplace (kw_inplace kw); Builder.delete (Py.DeleteMode_into (kw_delete kw)); Builder.compress (kw_compress kw);
   Builder.compress_level (kw_compress_level kw); Builder.verbosity (Py.Verbosity_into (kw_verbosity kw));
   Builder.progress (kw_progress kw); Builder.stats (kw_stats kw); Builder.dry_run (kw_dry_run kw);
   Builder.itemize_changes (kw_itemize_changes kw); Builder.excludes (kw_exclude kw); Builder.includes (kw_include kw);
   Builder.filters (kw_filter kw); Builder.sources (kw_source kw); Builder.backup (kw_backup kw); Builder.suffix (kw_suffix kw);
   Builder.append (kw_append kw); Builder.one_file_system (kw_one_file_system kw); Builder.numeric_ids (kw_numeric_ids kw);
   Builder.sparse (kw_sparse kw); Builder.link_dests (kw_link_dest kw); Builder.copy_dests (kw_copy_dest kw);
   Builder.compare_dests (kw_compare_dest kw)].
Definition optional_kwargs : list (TransferConfig -> TransferConfig) :=
  [when (kw_dest kw) Builder.dest; when (kw_bwlimit kw) Builder.bwlimit; when (kw_max_size kw) Builder.max_size;
   when (kw_min_size kw) Builder.min_size; when (kw_timeout kw) Builder.timeout; when (kw_backup_dir kw) Builder.backup_dir;
   Builder.partial (kw_partial kw); when (kw_partial_dir kw) Builder.partial_dir; Builder.relative (kw_relative kw);
   when (kw_files_from kw) Builder.files_from].
Definition TransferOptions_new : TransferConfig :=
  Builder.build (all_of (preserve_kwargs ++ plain_kwargs ++ optional_kwargs) TransferConfig.default).
End new.

(** The properties of the Python object, under the names of the arguments;
    [is_archive] is a method of its own. *)
Definition properties (c : TransferConfig) : Kwargs :=
  let texts := map from_utf8_lossy in
  let text (p : option (list Z)) := from_utf8_lossy <$> p in
  mkKwargs (texts (Get.source c)) (text (Get.dest c)) (Get.is_archive c) (Get.recursive c) (Get.preserve_links c) (Get.preserve_perms c)
    (Get.preserve_times c) (Get.preserve_group c) (Get.preserve_owner c) (Get.preserve_devices c) (Get.preserve_specials c)
    (Get.checksum_mode c) (Get.whole_file c) (Get.update c) (Get.inplace c) (Py.DeleteMode_from (Get.delete c)) (Get.compress c)
    (Get.compress_level c) (Py.Verbosity_from (Get.verbosity c)) (Get.progress c) (Get.stats c) (Get.dry_run c) (Get.itemize_changes c)
    (Get.exclude c) (Get.include c) (Get.filter c) (Get.bwlimit c) (Get.max_size c) (Get.min_size c) (Get.timeout c)
    (texts (Get.link_dest c)) (texts (Get.copy_dest c)) (texts (Get.compare_dest c)) (Get.backup c) (text (Get.backup_dir c))
    (Get.suffix c) (Get.partial c) (text (Get.partial_dir c)) (Get.relative c) (Get.append c) (text (Get.files_from c))
    (Get.one_file_system c) (Get.numeric_ids c) (Get.sparse c).

(** ** Progress events *)

Inductive PyValue := PyText (s : list Z) | PyInt (n : Z).
Definition event_to_pydict (event : ProgressEvent) : list (string * PyValue) :=
  let kind s := ("type"%string, PyText (str_bytes s)) in
  let named name := ("name"%string, PyText (from_utf8_lossy name)) in
  match event with
  | FileStart index name size => [kind "file_start"; ("index"%string, PyInt index); named name; ("size"%string, PyInt size)]
  | FileComplete index name literal matched =>
      [kind "file_complete"; ("index"%string, PyInt index); named name; ("literal_bytes"%string, PyInt literal); ("matched_bytes"%string, PyInt matched)]
  | FileSkipped index name => [kind "file_skipped"; ("index"%string, PyInt index); named name]
  | FileDeleted name => [kind "file_deleted"; named name]
  | FileItemized index name changes =>
      [kind "file_itemized"; ("index"%string, PyInt index); named name; ("changes"%string, PyText (ItemizedChanges_fmt changes))]
  | OverallProgress files_done files_total bytes_transferred bytes_total =>
      [kind "overall_progress"; ("files_done"%string, PyInt files_done); ("files_total"%string, PyInt files_total);
       ("bytes_transferred"%string, PyInt bytes_transferred); ("bytes_total"%string, PyInt bytes_total)]
  end.

(** The context [sync_files] runs a local transfer in. *)
Definition sync_context (checksum_seed : Z) (checksum_type : ChecksumType) : ProtocolContext :=
  mkProtocolContext checksum_seed checksum_type 0 true None.

(** ** What an object shows *)

Lemma enums_are_kept : (forall v, Py.DeleteMode_from (Py.DeleteMode_into v) = v) /\ (forall v, Py.DeleteMode_into (Py.DeleteMode_from v) = v) /\
  (forall v, Py.Verbosity_from (Py.Verbosity_into v) = v) /\ (forall v, Py.Verbosity_into (Py.Verbosity_from v) = v).
Proof. repeat split; by intros []. Qed.

(** Strings that come from Python are text. *)
Definition texts_of (kw : Kwargs) : list (list Z) :=
  kw_source kw ++ kw_link_dest kw ++ kw_copy_dest kw ++ kw_compare_dest kw ++
  option_list (kw_dest kw) ++ option_list (kw_backup_dir kw) ++ option_list (kw_partial_dir kw) ++ option_list (kw_files_from kw).

(** The arguments, but for what [archive] stands for, and a level between 1
    and 9. *)
Definition settled (kw : Kwargs) : Kwargs :=
  let a := kw_archive kw in
  let all := kw_recursive kw && kw_preserve_links kw && kw_preserve_perms kw && kw_preserve_times kw && kw_preserve_group kw &&
             kw_preserve_owner kw && kw_preserve_devices kw && kw_preserve_specials kw in
  mkKwargs (kw_source kw) (kw_dest kw) (a || all) (a || kw_recursive kw) (a || kw_preserve_links kw) (a || kw_preserve_perms kw)
    (a || kw_preserve_times kw) (a || kw_preserve_group kw) (a || kw_preserve_owner kw) (a || kw_preserve_devices kw)
    (a || kw_preserve_specials kw) (kw_checksum_mode kw) (kw_whole_file kw) (kw_update kw) (kw_inplace kw) (kw_delete kw) (kw_compress kw)
    (Z.max 1 (Z.min 9 (kw_compress_level kw))) (kw_verbosity kw) (kw_progress kw) (kw_stats kw) (kw_dry_run kw) (kw_itemize_changes kw)
    (kw_exclude kw) (kw_include kw) (kw_filter kw) (kw_bwlimit kw) (kw_max_size kw) (kw_min_size kw) (kw_timeout kw) (kw_link_dest kw)
    (kw_copy_dest kw) (kw_compare_dest kw) (kw_backup kw) (kw_backup_dir kw) (kw_suffix kw) (kw_partial kw) (kw_partial_dir kw)
    (kw_relative kw) (kw_append kw) (kw_files_from kw) (kw_one_file_system kw) (kw_numeric_ids kw) (kw_sparse kw).

Definition with_texts (f : list Z -> list Z) (kw : Kwargs) : Kwargs :=
  mkKwargs (map f (kw_source kw)) (f <$> kw_dest kw) (kw_archive kw) (kw_recursive kw) (kw_preserve_links kw) (kw_preserve_perms kw)
    (kw_preserve_times kw) (kw_preserve_group kw) (kw_preserve_owner kw) (kw_preserve_devices kw) (kw_preserve_specials kw)
    (kw_checksum_mode kw) (kw_whole_file kw) (kw_update kw) (kw_inplace kw) (kw_delete kw) (kw_compress kw) (kw_compress_level kw)
    (kw_verbosity kw) (kw_progress kw) (kw_stats kw) (kw_dry_run kw) (kw_itemize_changes kw) (kw_exclude kw) (kw_include kw)
    (kw_filter kw) (kw_bwlimit kw) (kw_max_size kw) (kw_min_size kw) (kw_timeout kw) (map f (kw_link_dest kw)) (map f (kw_copy_dest kw))
    (map f (kw_compare_dest kw)) (kw_backup kw) (f <$> kw_backup_dir kw) (kw_suffix kw) (kw_partial kw) (f <$> kw_partial_dir kw)
    (kw_relative kw) (kw_append kw) (f <$> kw_files_from kw) (kw_one_file_system kw) (kw_numeric_ids kw) (kw_sparse kw).

(** What the optional arguments change, of an object shown as [p]. *)
Definition with_optional (kw p : Kwargs) : Kwargs :=
  let or {A} (o old : option A) := match o with Some v => Some v | None => old end in
  let text := fmap (M := option) from_utf8_lossy in
  mkKwargs (kw_source p) (or (text (kw_dest kw)) (kw_dest p)) (kw_archive p) (kw_recursive p) (kw_preserve_links p) (kw_preserve_perms p)
    (kw_preserve_times p) (kw_preserve_group p) (kw_preserve_owner p) (kw_preserve_devices p) (kw_preserve_specials p)
    (kw_checksum_mode p) (kw_whole_file p) (kw_update p) (kw_inplace p) (kw_delete p) (kw_compress p) (kw_compress_level p)
    (kw_verbosity p) (kw_progress p) (kw_stats p) (kw_dry_run p) (kw_itemize_changes p) (kw_exclude p) (kw_include p)
    (kw_filter p) (or (kw_bwlimit kw) (kw_bwlimit p)) (or (kw_max_size kw) (kw_max_size p)) (or (kw_min_size kw) (kw_min_size p))
    (or (kw_timeout kw) (kw_timeout p)) (kw_link_dest p) (kw_copy_dest p) (kw_compare_dest p) (kw_backup p)
    (or (text (kw_backup_dir kw)) (kw_backup_dir p)) (kw_suffix p) (kw_partial kw) (or (text (kw_partial_dir kw)) (kw_partial_dir p))
    (kw_relative kw) (kw_append p) (or (text (kw_files_from kw)) (kw_files_from p)) (kw_one_file_system p) (kw_numeric_ids p) (kw_sparse p).

Lemma optional_shown kw c : properties (all_of (optional_kwargs kw) c) = with_optional kw (properties c).
Proof.
  unfold optional_kwargs, with_optional.
  destruct (kw_dest kw), (kw_bwlimit kw), (kw_max_size kw), (kw_min_size kw), (kw_timeout kw), (kw_backup_dir kw), (kw_partial_dir kw), (kw_files_from kw);
    reflexivity.
Qed.
Lemma plain_shown kw : with_optional kw (properties (all_of (plain_kwargs kw) (all_of (preserve_kwargs kw) TransferConfig.default)))
  = with_texts from_utf8_lossy (settled kw).
Proof.
  unfold preserve_kwargs, with_texts, settled, with_optional.
  assert (E : forall (A B : Type) (f : A -> B) (o : option A), match f <$> o with Some v => Some v | None => None end = f <$> o) by (by intros A B f []).
  assert (E' : forall (A : Type) (o : option A), match o with Some v => Some v | None => None end = o) by (by intros A []).
  assert (Ed : Py.DeleteMode_from (Py.DeleteMode_into (kw_delete kw)) = kw_delete kw) by apply enums_are_kept.
  assert (Ev : Py.Verbosity_from (Py.Verbosity_into (kw_verbosity kw)) = kw_verbosity kw) by apply enums_are_kept.
  destruct (kw_archive kw); [|destruct (kw_recursive kw)]; unfold properties;
    (f_equal; first [reflexivity|exact (E _ _ _ _)|exact (E' _ _)|exact Ed|exact Ev]).
Qed.

Lemma shown kw : properties (TransferOptions_new kw) = with_texts from_utf8_lossy (settled kw).
Proof. unfold TransferOptions_new, Builder.build. rewrite !all_of_app, optional_shown. apply plain_shown. Qed.

Definition is_text (s : list Z) : Prop := utf8_valid s = true.
Lemma texts_kept kw : Forall is_text (texts_of kw) -> with_texts from_utf8_lossy kw = kw.
Proof.
  assert (Hm : forall l, Forall is_text l -> map from_utf8_lossy l = l).
  { intros l Hl. rewrite <- (map_id l) at 2. apply map_ext_Forall. eapply Forall_impl; [exact Hl|]. intros s Hs. by apply from_utf8_lossy_valid. }
  assert (Ho : forall o, Forall is_text (option_list o) -> from_utf8_lossy <$> o = o).
  { intros [s|] Hs; [|done]. inversion_clear Hs as [|? ? Hs1 _]. cbn [fmap option_fmap option_map]. by rewrite (from_utf8_lossy_valid _ Hs1). }
  unfold texts_of. rewrite !Forall_app. intros (H1 & H2 & H3 & H4 & H5 & H6 & H7 & H8). unfold with_texts.
  rewrite !Hm, !Ho by done. by destruct kw.
Qed.

Lemma preserve_settled kw : all_of (preserve_kwargs (settled kw)) TransferConfig.default = all_of (preserve_kwargs kw) TransferConfig.default.
Proof.
  unfold preserve_kwargs, settled. cbn [kw_archive kw_recursive kw_preserve_links kw_preserve_perms kw_preserve_times kw_preserve_group
    kw_preserve_owner kw_preserve_devices kw_preserve_specials].
  destruct (kw_archive kw); [reflexivity|]. cbn [orb].
  destruct (kw_recursive kw && _ && _ && _ && _ && _ && _ && _) eqn:E; [|reflexivity]. rewrite !andb_true_iff in E.
  destruct E as (((((((-> & ->) & ->) & ->) & ->) & ->) & ->) & ->). vm_compute. reflexivity.
Qed.
Lemma level_settled l : Builder.compress_level (Z.max 1 (Z.min 9 l)) = Builder.compress_level l.
Proof. unfold Builder.compress_level. by replace (Z.max 1 (Z.min 9 (Z.max 1 (Z.min 9 l)))) with (Z.max 1 (Z.min 9 l)) by lia. Qed.
Lemma plain_settled kw : plain_kwargs (settled kw) = plain_kwargs kw.
Proof.
  unfold plain_kwargs, settled. cbn [kw_compress_level kw_checksum_mode kw_whole_file kw_update kw_inplace kw_delete kw_compress kw_verbosity
    kw_progress kw_stats kw_dry_run kw_itemize_changes kw_exclude kw_include kw_filter kw_source kw_backup kw_suffix kw_append
    kw_one_file_system kw_numeric_ids kw_sparse kw_link_dest kw_copy_dest kw_compare_dest]. by rewrite level_settled.
Qed.

(** An options object is its arguments.  For keyword arguments that are text,
    every property of the object is the argument of its name, but that [archive]
    turns on what it stands for, that an object with all of these on calls
    itself an archive, and that the compression level is brought between 1 and
    9; and an object made from the properties of another holds the same
    configuration. *)
Theorem options_are_kept kw : Forall is_text (texts_of kw) ->
  properties (TransferOptions_new kw) = settled kw /\
  TransferOptions_new (properties (TransferOptions_new kw)) = TransferOptions_new kw.
Proof.
  intros Ht. assert (E : properties (TransferOptions_new kw) = settled kw) by (rewrite shown; by apply texts_kept).
  split; [exact E|]. rewrite E. unfold TransferOptions_new, Builder.build. rewrite !all_of_app, preserve_settled, plain_settled. reflexivity.
Qed.
Definition sample_kwargs : Kwargs :=
  with_optional (mkKwargs [] (Some (str_bytes "/dst")) false false false false false false false false false false false false false Py.None_ false 0
    Py.Normal false false false false [] [] [] (Some 7) None None None [] [] [] false None [] true None false false None false false false)
    (settled Kwargs_default).
Lemma options_are_kept_witness :
  kw_compress_level (properties (TransferOptions_new sample_kwargs)) = 6 /\ kw_dest (properties (TransferOptions_new sample_kwargs)) = Some (str_bytes "/dst") /\
  TransferOptions_new (properties (TransferOptions_new sample_kwargs)) = TransferOptions_new sample_kwargs.
Proof.
  assert (Ht : Forall is_text (texts_of sample_kwargs)) by (apply (bool_decide_eq_true_1 _); vm_compute; reflexivity).
  destruct (options_are_kept sample_kwargs Ht) as [E1 E2]. rewrite E1 at 1 2. split_and!; [vm_compute; reflexivity..|exact E2].
Defined.

(** ** Events *)

(** The kinds of events; [file_progress], which the documentation of
    [sync_files] names, is none of them, and [file_itemized] is missing there. *)
Lemma event_kinds event : exists kind, head (event_to_pydict event) = Some ("type"%string, PyText (str_bytes kind)) /\
  kind ∈ ["file_start"; "file_complete"; "file_skipped"; "file_deleted"; "file_itemized"; "overall_progress"]%string.
Proof. destruct event; (eexists; split; [reflexivity|]); set_solver. Qed.

(** Asked for level 0, no compression, an object has level 1. *)
Example level_zero l : kw_compress_level (settled (with_optional Kwargs_default l)) = Z.max 1 (Z.min 9 (kw_compress_level l)).
Proof. reflexivity. Qed.
